(* ===== verification/_CoqProject ===== *)
-Q . S2P
Prelude.v
Mem.v
Logic.v
Region.v
CStr.v
Printf.v
Dynamic.v
DynamicSpec.v
Utils.v
UtilsSpec.v
Buffer.v
BufferSpec.v
SortList.v
Qsort.v
QsortSpec.v
QsortHeap.v
QsortIndirect.v
QsortMain.v
LsFlags.v
Ls.v
LsRead.v
LsSort.v
LsPrint.v
LsSpec.v
LsMain.v
Programs.v
ProgramsSpec.v
Flat.v
Fza.v
FzaSpec.v
WordStr.v
WordStrSpec.v
MemFn.v
StrRchrSpec.v
StrCmpSpec.v
StrCpySpec.v
StrProps.v
MoveSpec.v
MemSpec.v
MemProps.v
Mpn.v
MpnSpec.v
MpnMul.v
MpnKara.v
MpnMulFull.v
Divrem.v
DivremSpec.v
DivremMem.v
DivremN.v
MpnShift.v
MpnProps.v
Random.v
RandomSpec.v
RandomProps.v
Hsearch.v
HsearchSpec.v
HsearchProps.v
Tsearch.v
TsearchTree.v
TsearchRep.v
TsearchInsert.v
TsearchDelete.v
TsearchRemove.v
TsearchWalk.v
TsearchOverflow.v
TsearchProps.v
Bytes.v
Base64.v
Base64Spec.v
Base64Props.v
Inet.v
InetSpec.v
InetPton.v
InetProps.v
Calendar.v
CalendarSpec.v
MktimeSpec.v
CalendarProps.v
Strtol.v
StrtolProps.v
