(* ===== verification/Prelude.v ===== *)
(** * Ne-os: a verification library for the userland and its in-tree C library

    Ne-os is a small userland (src/src/bin, src/src/lib, src/src/init.c) that is linked
    against the C library in the tree (src/src/glibc-2.43).  This library models the userland
    in full, and of the C library the parts whose code is algorithmic: sorting, the string
    and memory functions, multiple-precision arithmetic, the random number generators, the
    hash table and the search trees, base 64, Internet addresses, the calendar, and numbers
    from text.

    ** The parts and their files

    Every component has a file with its definitions, which follow the functions of the source
    by name, files named [...Spec] or [...Props] with its theorems, and sometimes further
    files with the lemmas between the two.

    - Foundations.  [Prelude]: machine integers, lists, tactics.  [Mem]: the C memory model of
      the userland (blocks of bytes, pointers with offsets, allocation that may fail, the
      output written) and the monad [M] its programs run in; [Logic]: the weakest-precondition
      rules; [Region]: contiguous pieces of memory and framing; [CStr], [Printf]: the library
      calls of the userland on that memory.
    - lib/dynamic.c: [Dynamic], [DynamicSpec].  A DYNAMIC is one malloc block; the
      representation predicate relates it to a list.
    - lib/utils.c: [Utils], [UtilsSpec].  lib/buffer.c: [Buffer], [BufferSpec].
    - bin/ls.c: [LsFlags] (options and the loop over [argv]), [Ls] (all the rest),
      [LsRead] (what [read_dir] leaves in memory), [LsSort] (the order), [LsPrint] (the
      columns as text), [LsSpec] (one directory), [LsMain] (from [main] on).  [ls] calls
      [lib/dynamic.c], [lib/utils.c] and [qsort_r], and its theorems use theirs.
    - bin/cat.c, bin/mount.c, bin/cd.c, init.c: [Programs], [ProgramsSpec], over a kernel given as
      the class [Kernel] of operations on a type of kernel states.
    - stdlib/qsort.c: [Qsort] on memory, [SortList] the same routines on lists, [QsortSpec]
      (merge sort), [QsortHeap], [QsortIndirect] (sorting pointers, and the rearrangement along
      the cycles of the permutation) and [QsortMain] the refinement between the two and the
      sorting theorem, for comparison functions with [CmpOrder].
    - sysdeps/generic/string-*.h, string/: [Flat] is a byte-addressed memory with mapped pages,
      in which the word-at-a-time functions run (monad [W]); [Fza] the masks, [WordStr] the
      string functions, [MemFn] the memory functions and the unrolled copies of
      string/wordcopy.c, label by label.  [FzaSpec], [WordStrSpec], [StrRchrSpec],
      [StrCmpSpec], [StrCpySpec], [MoveSpec], [MemSpec] prove them equal to byte-wise
      definitions; [StrProps] and [MemProps] are the summary.
    - stdlib/ mpn functions: [Mpn], with [MpnSpec] (value of limbs, limb loops),
      [MpnMul] (carries and the schoolbook product), [MpnKara] (Karatsuba), [MpnMulFull]
      ([mpn_mul]), [MpnShift]; stdlib/divrem.c: [Divrem], [DivremSpec] (estimates), [DivremMem], [DivremN] (Knuth's
      algorithm D); [MpnProps] is the summary.  longlong.h is not in the tree: its
      primitives are the class [LongLong] with the laws [LongLongLaws], and [MpnProps] gives the
      instance on [Z].
    - stdlib/random_r.c: [Random], [RandomSpec], [RandomProps].
    - misc/hsearch_r.c: [Hsearch], [HsearchSpec] (primes and the probe sequence), [HsearchProps]
      (the table as a finite map).
    - misc/tsearch.c: [Tsearch] (nodes in a store, the colour in the low bit of [left_node], a
      [node *] as a [slot]), [TsearchTree] (red-black trees and contexts, without the store),
      [TsearchRep] (trees in the store, the rules for the macros), [TsearchInsert],
      [TsearchDelete] (the balancing loop and the searches), [TsearchRemove] (the rest of
      [tdelete]), [TsearchWalk], [TsearchOverflow] (the array of [tdelete]), [TsearchProps] (the
      tree as a set of keys).
    - resolv/: [Bytes] (arrays of bytes).  base64.c: [Base64], [Base64Spec] (the encoding),
      [Base64Props].  inet_ntop.c, inet_pton.c, inet_pton_length.c:
      [Inet], [InetSpec] (the text of an address and [inet_ntop]), [InetPton] (the grammar and
      [inet_pton]), [InetProps].
    - time/: [Calendar]; [CalendarSpec] (the Gregorian calendar, offtime.c and gmtime.c),
      [MktimeSpec] (mktime.c and timegm.c); [CalendarProps] is the summary.  The
      conversion [mktime] inverts is a parameter; the theorems are for a [clock] at a fixed
      distance from UTC, of which [gmtime_r] is the instance at distance 0.
    - stdlib/strtol_l.c, strtol.c, strtoul.c: [Strtol], [StrtolProps] (with the reference
      [strtol_ref], which computes without bounds).

    ** What is proved

    Userland: [ls] of any arguments without [-R] prints the visible entries of every directory,
    sorted and in columns; [dynamic] is a list; [concat_path], [count_initial_flags], the
    options; [cat] ends within as many reads as the file's length gives and copies what the
    kernel takes of its writes, which is the file when reads and writes succeed; [mount] passes
    its arguments on.  The theorems about failures (a terminal that is too narrow, [ls -R], a
    second write to a buffer, enlarging a [dynamic], a null result of [malloc]) show where the
    code leaves its contract; the manifest lists them as findings.

    C library: [qsort_r] sorts elements of any size by either algorithm, through pointers where
    it does so; the word-at-a-time functions equal
    byte-wise definitions at every alignment and read mapped words only; [memmove] moves
    overlapping areas; [mpn_mul] and [mpn_divrem] compute product, quotient and remainder for
    all sizes; [random_r] is the additive feedback recurrence; [hsearch_r] implements a finite
    map; [tsearch], [tfind] and [tdelete] implement a set of keys in a red-black tree, within the
    stack of [tdelete] for fewer than [2 ^ 20 - 1] elements; a larger tree on which [tdelete]
    leaves its stack is constructed; [b64_pton] and [inet_pton] accept exactly what their
    grammars generate and undo [b64_ntop] and [inet_ntop]; [offtime] ends with the date of any
    64-bit time whose year can be stored, and [mktime] and [timegm] find the time of a date,
    normalised or not; [strtol] and [strtoul] compute the number of the digits or the nearest
    bound of the type, and read back every number.

    ** Fuel

    Recursion that is not structural takes [fuel : nat], and running out of it is an error of the
    monad, never a result.  Every theorem states that the function returns, with the bound that
    is enough: a word loop needs one unit per word ([length s / 8 < fuel]), the recursion of
    [msort_with_tmp] and of Karatsuba one per level (the size is enough), [mpn_mul] one more
    than the smaller size, [next_size] half the range of [unsigned int], [tsearch]
    two per element and [tdelete] one, [offtime] 64 and one per day of the offset, the binary
    search of [mktime] 66 and its search for daylight saving time 400.  Inner loops whose
    number of rounds the code bounds have that number as their fuel.

    ** Not modelled

    The rest of glibc: stdio, malloc, locale, iconv, the dynamic linker, libm, nptl, the system
    call stubs.  The userland meets them only through documented behaviour, which is part of
    [Mem] (allocation), [Printf] (conversions) and [Kernel].  Configurations other than 64-bit
    little-endian (big-endian masks, 32-bit limbs), the time zone database behind [localtime],
    the grouping of digits in [strtol], and code the configuration compiles out
    (page copying, [DEBUG] checks) are not modelled either.  [ls -R] reads freed memory in every
    directory whose array of names grows after a subdirectory was found, so no listing theorem
    is stated for it. *)

From stdpp Require Export base tactics option list list_numbers numbers gmap strings pretty sorting.

#[global] Set Default Goal Selector "!".
#[global] Set Default Proof Using "Type".

(** ** Machine integers

    A [w]-bit unsigned integer is a [Z] in [0, 2^w); a signed one is a [Z] in
    [-2^(w-1), 2^(w-1)).  Arithmetic of the source is written on [Z] and wrapped
    with the conversions below. *)

Local Open Scope Z_scope.

Definition wrapu (w : Z) (z : Z) : Z := z mod 2 ^ w.
Definition wraps (w : Z) (z : Z) : Z := (z + 2 ^ (w - 1)) mod 2 ^ w - 2 ^ (w - 1).

Notation u8 := (wrapu 8).
Notation u32 := (wrapu 32).
Notation u64 := (wrapu 64).
Notation i32 := (wraps 32).
Notation i64 := (wraps 64).

Definition is_u64 (z : Z) : Prop := 0 <= z < 2 ^ 64.
Definition is_u32 (z : Z) : Prop := 0 <= z < 2 ^ 32.
Definition is_byte (z : Z) : Prop := 0 <= z < 256.

Create HintDb cint.

Lemma wrapu_small w z : 0 <= z < 2 ^ w → wrapu w z = z.
Proof. apply Z.mod_small. Qed.

Lemma wrapu_range w z : 0 <= w → 0 <= wrapu w z < 2 ^ w.
Proof. intros. apply Z.mod_pos_bound. by apply Z.pow_pos_nonneg. Qed.

Lemma u64_small z : is_u64 z → u64 z = z.
Proof. apply wrapu_small. Qed.

Lemma u64_range z : is_u64 (u64 z).
Proof. by apply wrapu_range. Qed.

Lemma u64_idemp z : u64 (u64 z) = u64 z.
Proof. apply u64_small, u64_range. Qed.

Lemma wraps_small w z : 0 < w → - 2 ^ (w - 1) <= z < 2 ^ (w - 1) → wraps w z = z.
Proof.
  intros Hw Hz. unfold wraps.
  assert (2 ^ w = 2 * 2 ^ (w - 1)) as E.
  { rewrite <- Z.pow_succ_r by lia. f_equal; lia. }
  rewrite Z.mod_small; lia.
Qed.

(** Bits in different places. *)
Lemma lor_disjoint x y c : 0 < c → 0 <= y < 2 ^ c → Z.lor (x * 2 ^ c) y = x * 2 ^ c + y.
Proof.
  intros Hc Hy. assert (Z.land (x * 2 ^ c) y = 0) as H0.
  { apply Z.bits_inj'. intros k Hk. rewrite Z.land_spec, Z.bits_0. destruct (Z.lt_ge_cases k c).
    - by rewrite Z.mul_pow2_bits_low.
    - rewrite (Z.bits_above_log2 y), andb_false_r; [done|lia|]. destruct (decide (y = 0)) as [->|]; [cbn; lia|].
      apply Z.log2_lt_pow2; [lia|]. assert (2 ^ c <= 2 ^ k) by (apply Z.pow_le_mono_r; lia). lia. }
  rewrite (Z.add_nocarry_lxor _ _ H0). by rewrite Z.lxor_lor.
Qed.

#[export] Hint Resolve u64_range : cint.
#[export] Hint Rewrite u64_idemp : cint.

(** [len l]: the number of elements as the [size_t] the code computes with. *)
Notation len l := (Z.of_nat (length l)).

(** A C string literal as the list of its byte values. *)
Definition str (s : string) : list Z :=
  (λ a, Z.of_N (Ascii.N_of_ascii a)) <$> String.list_ascii_of_string s.

(** ** Lists *)

Section lists.
Context {A : Type}.
Implicit Types (l k : list A).

(** Overwrite the elements of [l] from index [o] on with [k]. *)
Definition splice (l : list A) (o : nat) (k : list A) : list A :=
  take o l ++ k ++ drop (o + length k) l.

Lemma length_splice l o k :
  (o + length k <= length l)%nat → length (splice l o k) = length l.
Proof. intros. unfold splice. rewrite !length_app, length_take, length_drop. lia. Qed.

Lemma splice_app_r l1 l2 o k :
  length l1 = o → splice (l1 ++ l2) o k = l1 ++ k ++ drop (length k) l2.
Proof.
  intros <-. unfold splice. rewrite take_app_length. do 2 f_equal.
  by rewrite drop_app_add.
Qed.

Lemma splice_app_l l1 l2 o k :
  (o + length k <= length l1)%nat → splice (l1 ++ l2) o k = splice l1 o k ++ l2.
Proof.
  intros. unfold splice. rewrite take_app_le, drop_app_le by lia.
  by rewrite <- !(assoc_L (++)).
Qed.

Lemma splice_insert l o x k :
  (o < length l)%nat → splice (<[o := x]> l) (S o) k = splice l o (x :: k).
Proof.
  intros Ho. unfold splice. rewrite insert_take_drop by done. cbn [length app].
  replace (S o) with (o + 1)%nat by lia.
  rewrite (take_app_add' (take o l)) by (rewrite length_take; lia). cbn [take].
  rewrite take_0, <- (assoc_L (++)). cbn [app]. do 2 f_equal.
  rewrite <- Nat.add_assoc, (drop_app_add' (take o l)) by (rewrite length_take; lia).
  f_equal. cbn [Nat.add drop]. rewrite drop_drop. f_equal. lia.
Qed.

Lemma take_drop_app_mid l1 l2 l3 n :
  n = length l2 → take n (drop (length l1) (l1 ++ l2 ++ l3)) = l2.
Proof. intros ->. by rewrite drop_app_length, take_app_length. Qed.
End lists.

(** ** Tactics *)

(** Split on the first [if]/[match] scrutinee of the goal, keeping the equation. *)
Ltac case_on :=
  match goal with
  | |- context [match ?x with _ => _ end] => destruct x eqn:?
  end.

(** Boolean tests of [Z] and [nat] as propositions, everywhere. *)
Ltac zb :=
  repeat match goal with
  | H : (_ && _)%bool = true |- _ => apply andb_true_iff in H as [? ?]
  | H : (_ || _)%bool = false |- _ => apply orb_false_iff in H as [? ?]
  | H : negb _ = true |- _ => apply negb_true_iff in H
  | H : negb _ = false |- _ => apply negb_false_iff in H
  | H : (_ =? _) = true |- _ => apply Z.eqb_eq in H
  | H : (_ =? _) = false |- _ => apply Z.eqb_neq in H
  | H : (_ <=? _) = true |- _ => apply Z.leb_le in H
  | H : (_ <=? _) = false |- _ => apply Z.leb_gt in H
  | H : (_ <? _) = true |- _ => apply Z.ltb_lt in H
  | H : (_ <? _) = false |- _ => apply Z.ltb_ge in H
  end.
