(* ===== verification/Mem.v ===== *)
(** * Memory: the C memory model and the monad the program's code runs in

    A heap maps block identifiers to the list of the block's bytes; a pointer is a
    block with a byte offset.  A byte is undefined, a value in 0..255, or a fragment
    of a stored pointer.  [malloc] draws from a finite budget, so allocation failure
    is a behaviour of the model; [realloc] always moves the object, so that every
    pointer into the old object is dead afterwards, as the C standard has it.

    A computation either returns a value and a new world or is stuck with the
    undefined behaviour it met.  Worlds carry a policy for over-reads: under the
    strict policy, reading outside a live block or reading an undefined byte is
    stuck; under the lenient one it yields the unknown byte [k_junk] that the machine
    happens to hold there.  Writes out of bounds, and any access through a null or a
    dangling pointer, are stuck under both. *)

From S2P Require Import Prelude.
Local Open Scope Z_scope.

Inductive ptr := Null | Ptr (b : positive) (o : Z).

#[export] Instance ptr_eq_dec : EqDecision ptr.
Proof. solve_decision. Defined.

Inductive mval := MUndef | MByte (v : Z) | MFrag (p : ptr) (k : nat).

#[export] Instance mval_eq_dec : EqDecision mval.
Proof. solve_decision. Defined.

Inductive fault :=
  NullDeref | OutOfBounds | UseAfterFree | UninitRead | BadFree | DivByZero | IntOverflow | NoFuel.

(** One entry that [readdir] returns: the bytes of [d_name] (without the final NUL),
    [d_type] and [d_ino]. *)
Record dirent := Dirent { d_name : list Z; d_type : Z; d_ino : Z }.

(** What the kernel and the machine answer. [k_opendir path] is the list of entries
    [readdir] yields for the directory, [None] when [opendir] fails; [k_winsize] is
    the [ws_col] that TIOCGWINSZ reports, [None] when the ioctl fails. *)
Record kenv := Kenv {
  k_opendir : list Z → option (list dirent);
  k_winsize : option Z;
  k_strict : bool;
  k_junk : positive → Z → Z }.

Record world := World {
  w_heap : gmap positive (list mval);
  w_next : positive;
  w_avail : Z;
  w_out : list Z;
  w_env : kenv }.

Definition set_heap (h : gmap positive (list mval)) (w : world) : world :=
  World h (w_next w) (w_avail w) (w_out w) (w_env w).

Inductive outcome (A : Type) := Ret (a : A) (w : world) | Stuck (f : fault).
Arguments Ret {A} a w.
Arguments Stuck {A} f.

Definition M (A : Type) : Type := world → outcome A.

#[export] Instance M_ret : MRet M := λ A a w, Ret a w.
#[export] Instance M_bind : MBind M := λ A B f m w,
  match m w with Ret a w' => f a w' | Stuck e => Stuck e end.

Definition stuck {A} (f : fault) : M A := λ _, Stuck f.
Definition get_env : M kenv := λ w, Ret (w_env w) w.

(** [for x in l: body x]. *)
Fixpoint mfor {A} (l : list A) (body : A → M unit) : M unit :=
  match l with
  | [] => mret tt
  | x :: l => body x;; mfor l body
  end.

(** A loop [for (i = lo; i < hi; i++)] that threads a value. *)
Fixpoint mfold {A B} (l : list A) (body : A → B → M B) (acc : B) : M B :=
  match l with
  | [] => mret acc
  | x :: l => acc ← body x acc; mfold l body acc
  end.

(** ** Encodings *)

Definition byte_of (z : Z) (k : Z) : Z := (z / 2 ^ (8 * k)) mod 256.

Definition enc64 (z : Z) : list mval :=
  [MByte (byte_of z 0); MByte (byte_of z 1); MByte (byte_of z 2); MByte (byte_of z 3);
   MByte (byte_of z 4); MByte (byte_of z 5); MByte (byte_of z 6); MByte (byte_of z 7)].

Fixpoint dec_le (bs : list Z) : Z :=
  match bs with [] => 0 | b :: bs => b + 256 * dec_le bs end.

Definition encptr (p : ptr) : list mval :=
  match p with
  | Null => enc64 0
  | _ => [MFrag p 0; MFrag p 1; MFrag p 2; MFrag p 3;
          MFrag p 4; MFrag p 5; MFrag p 6; MFrag p 7]
  end.

Definition decptr (vs : list mval) : option ptr :=
  match vs with
  | MFrag p 0 :: _ => if decide (vs = encptr p) then Some p else None
  | _ => if decide (vs = encptr Null) then Some Null else None
  end.

(** ** Primitives *)

Definition padd (p : ptr) (d : Z) : ptr :=
  match p with Null => Null | Ptr b o => Ptr b (o + d) end.

(** The bytes [o .. o+n) of a block, undefined where the block has none. *)
Definition read_over (bs : list mval) (o n : Z) : list mval :=
  (λ i, if 0 <=? i then default MUndef (bs !! Z.to_nat i) else MUndef) <$> seqZ o n.

Definition load_bytes (p : ptr) (n : Z) : M (list mval) := λ w,
  match p with
  | Null => Stuck NullDeref
  | Ptr b o =>
    match w_heap w !! b with
    | None => Stuck UseAfterFree
    | Some bs =>
      if (0 <=? o) && (o + n <=? len bs)
      then Ret (take (Z.to_nat n) (drop (Z.to_nat o) bs)) w
      else if k_strict (w_env w) then Stuck OutOfBounds
      else Ret (read_over bs o n) w
    end
  end.

Definition store_bytes (p : ptr) (vs : list mval) : M unit := λ w,
  match p with
  | Null => Stuck NullDeref
  | Ptr b o =>
    match w_heap w !! b with
    | None => Stuck UseAfterFree
    | Some bs =>
      if (0 <=? o) && (o + len vs <=? len bs)
      then Ret tt (set_heap (<[b := splice bs (Z.to_nat o) vs]> (w_heap w)) w)
      else Stuck OutOfBounds
    end
  end.

(** The value of one byte read at [p]: an undefined byte is stuck or junk. *)
Definition byte_val (p : ptr) (v : mval) : M Z := λ w,
  match v with
  | MByte z => Ret z w
  | _ => if k_strict (w_env w) then Stuck UninitRead
         else match p with
              | Null => Stuck NullDeref
              | Ptr b o => Ret (u8 (k_junk (w_env w) b o)) w
              end
  end.

Fixpoint bytes_val (p : ptr) (vs : list mval) : M (list Z) :=
  match vs with
  | [] => mret []
  | v :: vs => z ← byte_val p v; zs ← bytes_val (padd p 1) vs; mret (z :: zs)
  end.

Definition load_u8 (p : ptr) : M Z :=
  vs ← load_bytes p 1;
  zs ← bytes_val p vs;
  mret (dec_le zs).

Definition load_u64 (p : ptr) : M Z :=
  vs ← load_bytes p 8;
  zs ← bytes_val p vs;
  mret (dec_le zs).

Definition load_ptr (p : ptr) : M ptr :=
  vs ← load_bytes p 8;
  match decptr vs with Some q => mret q | None => stuck UninitRead end.

Definition store_u8 (p : ptr) (z : Z) : M unit := store_bytes p [MByte (u8 z)].
Definition store_u64 (p : ptr) (z : Z) : M unit := store_bytes p (enc64 z).
Definition store_ptr (p q : ptr) : M unit := store_bytes p (encptr q).

(** A block outside the malloc budget: a string literal or the storage of a local
    variable whose address is taken. *)
Definition new_block (vs : list mval) : M ptr := λ w,
  Ret (Ptr (w_next w) 0)
    (World (<[w_next w := vs]> (w_heap w)) (Pos.succ (w_next w)) (w_avail w) (w_out w) (w_env w)).

Definition drop_block (p : ptr) : M unit := λ w,
  match p with
  | Ptr b _ => Ret tt (set_heap (delete b (w_heap w)) w)
  | Null => Stuck NullDeref
  end.

Definition literal (s : list Z) : M ptr := new_block ((MByte <$> s) ++ [MByte 0]).

Definition alloc (vs : list mval) : M ptr := λ w,
  if w_avail w <? len vs then Ret Null w
  else Ret (Ptr (w_next w) 0)
         (World (<[w_next w := vs]> (w_heap w)) (Pos.succ (w_next w))
            (w_avail w - len vs) (w_out w) (w_env w)).

Definition malloc (n : Z) : M ptr := λ w,
  if w_avail w <? n then Ret Null w else alloc (replicate (Z.to_nat n) MUndef) w.

Definition calloc (n s : Z) : M ptr := λ w,
  if w_avail w <? n * s then Ret Null w else alloc (replicate (Z.to_nat (n * s)) (MByte 0)) w.

Definition free (p : ptr) : M unit := λ w,
  match p with
  | Null => Ret tt w
  | Ptr b o =>
    match w_heap w !! b with
    | None => Stuck UseAfterFree
    | Some bs =>
      if o =? 0
      then Ret tt (World (delete b (w_heap w)) (w_next w) (w_avail w + len bs) (w_out w) (w_env w))
      else Stuck BadFree
    end
  end.

(** The resized copy of an object: its first [n] bytes, then undefined ones. *)
Definition resize_bytes (bs : list mval) (n : Z) : list mval :=
  take (Z.to_nat n) bs ++ replicate (Z.to_nat n - length bs) MUndef.

Definition realloc (p : ptr) (n : Z) : M ptr := λ w,
  match p with
  | Null => malloc n w
  | Ptr b o =>
    match w_heap w !! b with
    | None => Stuck UseAfterFree
    | Some bs =>
      if negb (o =? 0) then Stuck BadFree
      else if n =? 0 then
        Ret Null (World (delete b (w_heap w)) (w_next w) (w_avail w + len bs) (w_out w) (w_env w))
      else if w_avail w + len bs <? n then Ret Null w
      else Ret (Ptr (w_next w) 0)
             (World (<[w_next w := resize_bytes bs n]> (delete b (w_heap w)))
                (Pos.succ (w_next w)) (w_avail w + len bs - n) (w_out w) (w_env w))
    end
  end.

(** Bytes written to standard output. *)
Definition put (s : list Z) : M unit := λ w,
  Ret tt (World (w_heap w) (w_next w) (w_avail w) (w_out w ++ s) (w_env w)).
