(* ===== verification/Logic.v ===== *)
(** * Logic: reasoning about computations of the memory monad

    [wp m Q w] says that [m], run in [w], is not stuck and ends in a value and a
    world that satisfy [Q].  The rest of the file gives the rules of the monad, the
    exact effect of each memory primitive on its success branch, and the framing
    relation [w_same], which says that a step changed nothing outside some blocks. *)

From S2P Require Import Prelude Mem.
Local Open Scope Z_scope.

Definition wp {A} (m : M A) (Q : A → world → Prop) (w : world) : Prop :=
  match m w with Ret a w' => Q a w' | Stuck _ => False end.

(** Blocks are allocated below the next fresh identifier. *)
Definition wf_world (w : world) : Prop :=
  ∀ b, is_Some (w_heap w !! b) → (b < w_next w)%positive.

(** [w'] is [w] except for the blocks in [bs]: the same environment, everything that
    was allocated outside [bs] still there and unchanged, what was released still dead, and
    identifiers only grow. *)
Record w_same (bs : gset positive) (w w' : world) : Prop := WSame {
  same_heap : ∀ b, b ∉ bs → is_Some (w_heap w !! b) → w_heap w' !! b = w_heap w !! b;
  same_env : w_env w' = w_env w;
  same_next : (w_next w ≤ w_next w')%positive;
  same_wf : wf_world w → wf_world w';
  same_dead : ∀ b, (b < w_next w)%positive → w_heap w !! b = None → w_heap w' !! b = None }.

Definition blk (p : ptr) : gset positive :=
  match p with Null => ∅ | Ptr b _ => {[b]} end.

(** The bytes at [src] can be read, with this value. *)
Definition reads (w : world) (src : ptr) (n : Z) (vs : list mval) : Prop :=
  load_bytes src n w = Ret vs w.

(** A NUL-terminated string of nonzero bytes is stored at [p]. *)
Definition cstr_at (w : world) (p : ptr) (s : list Z) : Prop :=
  ∃ b o bs, p = Ptr b o ∧ 0 <= o ∧ w_heap w !! b = Some bs ∧
    Forall (λ c, 0 < c < 256) s ∧
    ∃ rest, drop (Z.to_nat o) bs = (MByte <$> s) ++ MByte 0 :: rest.

Lemma elem_of_blk b c o : b ∈ blk (Ptr c o) ↔ b = c.
Proof. unfold blk. apply elem_of_singleton. Qed.

(** ** The monad *)

Section monad.
Context {A B : Type}.
Implicit Types (m : M A) (f : A → M B) (w : world).

Lemma bind_ret m f w a w' : m w = Ret a w' → (m ≫= f) w = f a w'.
Proof. intros E. unfold mbind, M_bind. by rewrite E. Qed.

Lemma bind_stuck m f w e : m w = Stuck e → (m ≫= f) w = Stuck e.
Proof. intros E. unfold mbind, M_bind. by rewrite E. Qed.

(** Cutting a computation in two. *)
Lemma bind_assoc_run {C} m (f : A → M C) (g : A → M B) (h : B → M C) w :
  (∀ a w', f a w' = (g a ≫= h) w') → (m ≫= f) w = ((m ≫= g) ≫= h) w.
Proof. intros E. unfold mbind, M_bind in *. destruct (m w); [apply E|done]. Qed.

Lemma wp_ret (a : A) (Q : A → world → Prop) w : Q a w → wp (mret a) Q w.
Proof. done. Qed.

Lemma wp_bind m f Q w : wp m (λ a w', wp (f a) Q w') w → wp (m ≫= f) Q w.
Proof. unfold wp, mbind, M_bind. by destruct (m w). Qed.

Lemma wp_step m f Q w a w' : m w = Ret a w' → wp (f a) Q w' → wp (m ≫= f) Q w.
Proof. intros E H. apply wp_bind. unfold wp at 1. by rewrite E. Qed.

Lemma wp_assoc {C} m f (g : B → M C) Q w : wp ((m ≫= f) ≫= g) Q w ↔ wp (m ≫= λ a, f a ≫= g) Q w.
Proof. unfold wp, mbind, M_bind. by destruct (m w). Qed.

Lemma wp_mono m (Q Q' : A → world → Prop) w :
  wp m Q w → (∀ a w', Q a w' → Q' a w') → wp m Q' w.
Proof. unfold wp. destruct (m w); auto. Qed.

Lemma wp_eq m Q w a w' : m w = Ret a w' → Q a w' → wp m Q w.
Proof. unfold wp. by intros ->. Qed.

(** A fact about every result that is returned. *)
Lemma wp_result m Q (P : A → Prop) w :
  wp m Q w → (∀ a w', m w = Ret a w' → P a) → wp m (λ a w', Q a w' ∧ P a) w.
Proof. unfold wp. destruct (m w); eauto. Qed.

Lemma wp_inv m Q w : wp m Q w → ∃ a w', m w = Ret a w' ∧ Q a w'.
Proof. unfold wp. destruct (m w); naive_solver. Qed.
End monad.

Lemma wp_mfor {A} (l : list A) body (I : list A → world → Prop) w :
  I [] w →
  (∀ done_ x todo w, l = done_ ++ x :: todo → I done_ w →
     wp (body x) (λ _ w', I (done_ ++ [x]) w') w) →
  wp (mfor l body) (λ _ w', I l w') w.
Proof.
  intros H0 Hs.
  cut (∀ todo done_ w, l = done_ ++ todo → I done_ w →
         wp (mfor todo body) (λ _ w', I l w') w).
  { intros H. by apply (H l []). }
  clear w H0. induction todo as [|x todo IH]; intros done_ w Hl HI; cbn.
  - apply wp_ret. rewrite app_nil_r in Hl. by subst.
  - apply wp_bind. eapply wp_mono; [by eapply Hs|].
    intros [] w' HI'. apply (IH (done_ ++ [x])); [|done].
    by rewrite <- (assoc_L (++)).
Qed.

Lemma wp_mfold {A B} (l : list A) body (acc : B) (I : list A → B → world → Prop) w :
  I [] acc w →
  (∀ done_ x todo acc w, l = done_ ++ x :: todo → I done_ acc w →
     wp (body x acc) (λ acc' w', I (done_ ++ [x]) acc' w') w) →
  wp (mfold l body acc) (λ acc' w', I l acc' w') w.
Proof.
  intros H0 Hs.
  cut (∀ todo done_ acc w, l = done_ ++ todo → I done_ acc w →
         wp (mfold todo body acc) (λ acc' w', I l acc' w') w).
  { intros H. by apply (H l []). }
  clear w H0 acc. induction todo as [|x todo IH]; intros done_ acc w Hl HI; cbn.
  - apply wp_ret. rewrite app_nil_r in Hl. by subst.
  - apply wp_bind. eapply wp_mono; [by eapply Hs|].
    intros acc' w' HI'. apply (IH (done_ ++ [x])); [|done].
    by rewrite <- (assoc_L (++)).
Qed.

(** A counted loop [for (i = 0; i < n; i++)]. *)
Lemma wp_for (n : nat) (body : Z → M unit) (I : nat → world → Prop) w :
  I 0%nat w →
  (∀ i w, (i < n)%nat → I i w → wp (body (Z.of_nat i)) (λ _ w', I (S i) w') w) →
  wp (mfor (seqZ 0 (Z.of_nat n)) body) (λ _ w', I n w') w.
Proof.
  intros H0 Hs. eapply wp_mono; [apply (wp_mfor _ body (λ done_ w, I (length done_) w)); [done|]|].
  - intros done_ x todo v E Hi. rewrite length_app. cbn [length].
    replace (length done_ + 1)%nat with (S (length done_)) by lia.
    assert (seqZ 0 (Z.of_nat n) !! length done_ = Some x) as [Hx Hlt]%lookup_seqZ by (by rewrite E, list_lookup_middle).
    replace x with (Z.of_nat (length done_)) by lia. apply Hs; [lia|done].
  - intros [] w' Hi. by rewrite length_seqZ, Nat2Z.id in Hi.
Qed.

(** ** Encodings *)

Lemma byte_of_range z k : 0 <= byte_of z k < 256.
Proof. apply Z.mod_pos_bound. lia. Qed.

Lemma byte_of_S z k : 0 <= k → byte_of z (k + 1) = byte_of (z / 256) k.
Proof.
  intros. unfold byte_of. rewrite Z.div_div; [|lia|apply Z.pow_pos_nonneg; lia].
  do 2 f_equal. change 256 with (2 ^ 8). rewrite <- Z.pow_add_r by lia. f_equal; lia.
Qed.

Lemma byte_of_0 z : byte_of z 0 = z mod 256.
Proof. unfold byte_of. rewrite Z.mul_0_r, Z.pow_0_r, Z.div_1_r. done. Qed.

Lemma dec_enc64 z :
  dec_le [byte_of z 0; byte_of z 1; byte_of z 2; byte_of z 3;
          byte_of z 4; byte_of z 5; byte_of z 6; byte_of z 7] = u64 z.
Proof.
  unfold wrapu, byte_of. cbn [dec_le]. change (2 ^ (8 * 0)) with 1.
  change (2 ^ (8 * 1)) with 256. change (2 ^ (8 * 2)) with 65536.
  change (2 ^ (8 * 3)) with 16777216. change (2 ^ (8 * 4)) with 4294967296.
  change (2 ^ (8 * 5)) with 1099511627776. change (2 ^ (8 * 6)) with 281474976710656.
  change (2 ^ (8 * 7)) with 72057594037927936. change (2 ^ 64) with 18446744073709551616.
  Z.to_euclidean_division_equations; lia.
Qed.

Lemma length_enc64 z : length (enc64 z) = 8%nat.
Proof. done. Qed.

Lemma length_encptr p : length (encptr p) = 8%nat.
Proof. by destruct p. Qed.

Lemma decptr_encptr p : decptr (encptr p) = Some p.
Proof. destruct p; cbn; by rewrite decide_True. Qed.

Lemma bytes_val_fmap p s w : bytes_val p (MByte <$> s) w = Ret s w.
Proof.
  revert p. induction s as [|c s IH]; intros p; [done|].
  cbn [fmap list_fmap bytes_val]. erewrite bind_ret by done.
  by erewrite bind_ret by apply IH.
Qed.

Lemma bytes_val_enc64 p z w :
  bytes_val p (enc64 z) w =
  Ret [byte_of z 0; byte_of z 1; byte_of z 2; byte_of z 3;
       byte_of z 4; byte_of z 5; byte_of z 6; byte_of z 7] w.
Proof. apply (bytes_val_fmap p [_; _; _; _; _; _; _; _]). Qed.

(** ** Loads and stores *)

Lemma load_bytes_in w b o n bs :
  w_heap w !! b = Some bs → 0 <= o → o + n <= len bs →
  load_bytes (Ptr b o) n w = Ret (take (Z.to_nat n) (drop (Z.to_nat o) bs)) w.
Proof.
  intros Hb ??. unfold load_bytes. rewrite Hb.
  rewrite (proj2 (Z.leb_le _ _)) by lia. by rewrite (proj2 (Z.leb_le _ _)) by lia.
Qed.

Lemma load_u64_eq w p z :
  reads w p 8 (enc64 z) → load_u64 p w = Ret (u64 z) w.
Proof.
  intros H. unfold load_u64. erewrite bind_ret by apply H.
  erewrite bind_ret by apply bytes_val_enc64. by rewrite dec_enc64.
Qed.

Lemma load_ptr_eq w p q :
  reads w p 8 (encptr q) → load_ptr p w = Ret q w.
Proof.
  intros H. unfold load_ptr. erewrite bind_ret by apply H.
  by rewrite decptr_encptr.
Qed.

Lemma load_u8_eq w p c :
  reads w p 1 [MByte c] → load_u8 p w = Ret c w.
Proof.
  intros H. unfold load_u8. erewrite bind_ret by apply H.
  erewrite bind_ret by apply (bytes_val_fmap p [c]). cbn [dec_le].
  by rewrite Z.mul_0_r, Z.add_0_r.
Qed.

(** Under the lenient policy any byte offset of a live block can be read. *)
Lemma byte_val_lenient w b o v :
  k_strict (w_env w) = false → ∃ c, byte_val (Ptr b o) v w = Ret c w.
Proof. intros Hs. destruct v; cbn; rewrite ?Hs; by eexists. Qed.

Lemma load_u8_lenient w b o bs :
  w_heap w !! b = Some bs → k_strict (w_env w) = false → ∃ c, load_u8 (Ptr b o) w = Ret c w.
Proof.
  intros Hb Hs.
  assert (∃ v, load_bytes (Ptr b o) 1 w = Ret [v] w) as [v Hv].
  { unfold load_bytes. rewrite Hb, Hs. case_match; [|by eexists]. zb.
    destruct (drop (Z.to_nat o) bs) eqn:E; [|by eexists].
    apply (f_equal length) in E. rewrite length_drop in E. cbn in E. lia. }
  destruct (byte_val_lenient w b o v Hs) as [c Hc]. eexists.
  unfold load_u8. rewrite (bind_ret _ _ _ _ _ Hv). cbn [bytes_val].
  erewrite bind_ret; [done|]. by rewrite (bind_ret _ _ _ _ _ Hc).
Qed.

Lemma store_bytes_in w b o bs vs :
  w_heap w !! b = Some bs → 0 <= o → o + len vs <= len bs →
  store_bytes (Ptr b o) vs w =
  Ret tt (set_heap (<[b := splice bs (Z.to_nat o) vs]> (w_heap w)) w).
Proof.
  intros Hb ??. unfold store_bytes. rewrite Hb.
  rewrite (proj2 (Z.leb_le _ _)) by lia. by rewrite (proj2 (Z.leb_le _ _)) by lia.
Qed.

Lemma reads_in w b o n bs vs :
  w_heap w !! b = Some bs → 0 <= o → 0 <= n → o + n <= len bs →
  take (Z.to_nat n) (drop (Z.to_nat o) bs) = vs → reads w (Ptr b o) n vs.
Proof. intros ???? <-. by apply load_bytes_in. Qed.

(** Reading depends on one block and the environment only. *)
Lemma reads_same bs w w' p n vs :
  w_same bs w w' → blk p ## bs → reads w p n vs → reads w' p n vs.
Proof.
  unfold reads, load_bytes. destruct p as [|b o]; [done|]. intros [Hh He _ _ _] Hd.
  destruct (w_heap w !! b) as [cs|] eqn:Hb; [|done].
  rewrite (Hh b), Hb by first [done | set_solver]. rewrite He.
  repeat case_match; congruence.
Qed.

Lemma cstr_same bs w w' p s :
  w_same bs w w' → blk p ## bs → cstr_at w p s → cstr_at w' p s.
Proof.
  intros Hs Hd (b & o & cs & -> & ? & Hb & Hr). exists b, o, cs.
  rewrite (same_heap _ _ _ Hs); [done| |by eexists]. cbn in Hd. set_solver.
Qed.

(** ** Frames *)

#[export] Instance w_same_refl bs : Reflexive (w_same bs).
Proof. intros w. split; done. Qed.

Lemma w_same_trans bs1 bs2 w1 w2 w3 :
  w_same bs1 w1 w2 → w_same bs2 w2 w3 → w_same (bs1 ∪ bs2) w1 w3.
Proof.
  intros [H1 E1 N1 W1 D1] [H2 E2 N2 W2 D2]. split; [|congruence|lia|auto|].
  2:{ intros b Hb Hd. apply D2; [lia|by apply D1]. }
  intros b Hb Hs. rewrite <- H1 in Hs |- * by set_solver. by rewrite H2 by set_solver.
Qed.

Lemma w_same_weaken bs1 bs2 w1 w2 : w_same bs1 w1 w2 → bs1 ⊆ bs2 → w_same bs2 w1 w2.
Proof. intros [H1 E1 N1 W1 D1] ?. split; auto. Qed.

(** A frame may forget blocks that did not exist before the step. *)
Lemma w_same_fresh bs b w w' :
  wf_world w → (w_next w ≤ b)%positive → w_same (bs ∪ {[b]}) w w' → w_same bs w w'.
Proof.
  intros Hwf Hb [H E N W D]. split; try done.
  intros c Hc Hs. apply H; [|done]. apply Hwf in Hs. assert (c ≠ b) by lia. set_solver.
Qed.

Lemma w_same_set_heap w b vs :
  is_Some (w_heap w !! b) → w_same {[b]} w (set_heap (<[b := vs]> (w_heap w)) w).
Proof.
  intros Hb. split; cbn; try done.
  - intros c Hc _. rewrite lookup_insert_ne; [done|set_solver].
  - intros Hwf c. cbn. rewrite lookup_insert_is_Some. intros [<-|[_ ?]]; by apply Hwf.
  - intros c _ Hc. destruct Hb as [v Hb]. rewrite lookup_insert_ne; [done|congruence].
Qed.

Lemma w_same_store w b o vs w' :
  store_bytes (Ptr b o) vs w = Ret tt w' → w_same {[b]} w w'.
Proof.
  unfold store_bytes. destruct (w_heap w !! b) eqn:Hb; [|done].
  case_match; [|done]. intros [= <-]. by apply w_same_set_heap.
Qed.

Lemma w_same_put w s : w_same ∅ w (World (w_heap w) (w_next w) (w_avail w) (w_out w ++ s) (w_env w)).
Proof. split; done. Qed.

(** What was released stays dead, and so do the identifiers of dead blocks. *)
Record graves (w w' : world) : Prop := Graves {
  gv_next : (w_next w ≤ w_next w')%positive;
  gv_dead : ∀ b, (b < w_next w)%positive → w_heap w !! b = None → w_heap w' !! b = None }.

#[export] Instance graves_refl : Reflexive graves.
Proof. by split. Qed.

#[export] Instance graves_trans : Transitive graves.
Proof. intros w1 w2 w3 [N1 D1] [N2 D2]. split; [lia|]. intros b Hb Hd. apply D2; [lia|by apply D1]. Qed.

Lemma w_same_graves bs w w' : w_same bs w w' → graves w w'.
Proof. intros Hs. split; apply Hs. Qed.

(** ** Allocation *)

Lemma wf_next w : wf_world w → w_heap w !! w_next w = None.
Proof.
  intros H. destruct (w_heap w !! w_next w) eqn:E; [|done].
  specialize (H (w_next w)). rewrite E in H. specialize (H ltac:(by eexists)). lia.
Qed.

Lemma w_same_alloc w vs a :
  wf_world w →
  w_same ∅ w (World (<[w_next w := vs]> (w_heap w)) (Pos.succ (w_next w)) a (w_out w) (w_env w)).
Proof.
  intros Hwf. split; cbn; try done; try lia.
  - intros b _ Hb. apply Hwf in Hb. rewrite lookup_insert_ne; [done|lia].
  - intros _ b. cbn. rewrite lookup_insert_is_Some. intros [<-|[_ Hb]]; [lia|].
    apply Hwf in Hb. lia.
  - intros b Hb Hd. rewrite lookup_insert_ne; [done|lia].
Qed.

Lemma malloc_ok w n :
  0 <= n <= w_avail w →
  malloc n w = Ret (Ptr (w_next w) 0)
    (World (<[w_next w := replicate (Z.to_nat n) MUndef]> (w_heap w)) (Pos.succ (w_next w))
       (w_avail w - n) (w_out w) (w_env w)).
Proof.
  intros. unfold malloc, alloc. rewrite length_replicate, Z2Nat.id by lia.
  by rewrite !(proj2 (Z.ltb_ge _ _)) by lia.
Qed.

Lemma calloc_ok w n s :
  0 <= n * s <= w_avail w →
  calloc n s w = Ret (Ptr (w_next w) 0)
    (World (<[w_next w := replicate (Z.to_nat (n * s)) (MByte 0)]> (w_heap w)) (Pos.succ (w_next w))
       (w_avail w - n * s) (w_out w) (w_env w)).
Proof.
  intros. unfold calloc, alloc. rewrite length_replicate, Z2Nat.id by lia.
  by rewrite !(proj2 (Z.ltb_ge _ _)) by lia.
Qed.

Lemma malloc_fail w n : w_avail w < n → malloc n w = Ret Null w.
Proof. intros. unfold malloc. by rewrite (proj2 (Z.ltb_lt _ _)). Qed.

Lemma realloc_ok w b bs n :
  w_heap w !! b = Some bs → 0 < n <= w_avail w + len bs →
  realloc (Ptr b 0) n w = Ret (Ptr (w_next w) 0)
    (World (<[w_next w := resize_bytes bs n]> (delete b (w_heap w))) (Pos.succ (w_next w))
       (w_avail w + len bs - n) (w_out w) (w_env w)).
Proof.
  intros Hb ?. unfold realloc. rewrite Hb. cbn [negb Z.eqb].
  rewrite (proj2 (Z.eqb_neq _ _)) by lia. by rewrite (proj2 (Z.ltb_ge _ _)) by lia.
Qed.

Lemma w_same_realloc w b vs a :
  wf_world w →
  w_same {[b]} w (World (<[w_next w := vs]> (delete b (w_heap w))) (Pos.succ (w_next w))
                    a (w_out w) (w_env w)).
Proof.
  intros Hwf. split; cbn; try done; try lia.
  - intros c Hc Hs. apply Hwf in Hs.
    rewrite lookup_insert_ne by lia. rewrite lookup_delete_ne; [done|set_solver].
  - intros _ c. cbn. rewrite lookup_insert_is_Some. intros [<-|[_ Hs]]; [lia|].
    rewrite lookup_delete_is_Some in Hs. destruct Hs as [_ Hs%Hwf]. lia.
  - intros c Hc Hd. rewrite lookup_insert_ne by lia. destruct (decide (c = b)) as [->|?]; [apply lookup_delete_eq|].
    by rewrite lookup_delete_ne.
Qed.

Lemma resize_grow bs n :
  len bs <= n → resize_bytes bs n = bs ++ replicate (Z.to_nat n - length bs) MUndef.
Proof. intros. unfold resize_bytes. by rewrite take_ge by lia. Qed.

Lemma resize_shrink bs n : n <= len bs → resize_bytes bs n = take (Z.to_nat n) bs.
Proof.
  intros. unfold resize_bytes.
  replace (Z.to_nat n - length bs)%nat with 0%nat by lia. apply app_nil_r.
Qed.

(** ** Automation: run the next primitive by its equation. *)
Ltac wstep H := eapply wp_step; [eapply H; eauto|cbn beta].
