(* ===== verification/Region.v ===== *)
(** * Region: contiguous pieces of memory and what a computation leaves alone

    [holds w p vs] says that the bytes [vs] are stored from [p] on, inside one live
    block.  Two regions are [sep]arate when they are in different blocks or do not
    overlap in the same one.  [only rs w w'] says that the step from [w] to [w'] wrote
    nowhere but in the regions [rs], and neither allocated, freed nor printed. *)

From S2P Require Import Prelude Mem Logic.
Local Open Scope Z_scope.

Definition holds (w : world) (p : ptr) (vs : list mval) : Prop :=
  ∃ b pre post, p = Ptr b (len pre) ∧ w_heap w !! b = Some (pre ++ vs ++ post).

Definition region : Type := ptr * Z.

Definition sep (r1 r2 : region) : Prop :=
  match r1, r2 with
  | (Ptr b1 o1, n1), (Ptr b2 o2, n2) => b1 ≠ b2 ∨ o1 + n1 <= o2 ∨ o2 + n2 <= o1
  | _, _ => True
  end.

Record only (rs : list region) (w w' : world) : Prop := Only {
  only_holds : ∀ q vs, Forall (λ r, sep r (q, len vs)) rs → holds w q vs → holds w' q vs;
  only_same : w_same (⋃ ((λ r, blk r.1) <$> rs)) w w';
  only_next : w_next w' = w_next w;
  only_avail : w_avail w' = w_avail w;
  only_out : w_out w' = w_out w;
  only_len : ∀ b, length <$> w_heap w' !! b = length <$> w_heap w !! b }.

(** ** Regions *)

Lemma sep_sym r1 r2 : sep r1 r2 → sep r2 r1.
Proof. destruct r1 as [[|] ?], r2 as [[|] ?]; cbn; naive_solver lia. Qed.

Lemma sep_sub_l p n d m r :
  sep (p, n) r → 0 <= d → d + m <= n → sep (padd p d, m) r.
Proof. destruct p, r as [[|] ?]; cbn; try done. intros [|[|]] ??; [by left|right..]; lia. Qed.

Lemma sep_sub_r p n d m r :
  sep r (p, n) → 0 <= d → d + m <= n → sep r (padd p d, m).
Proof. intros ???. by eapply sep_sym, sep_sub_l; [apply sep_sym|..]. Qed.

Lemma sep_padd p d m e n : d + m <= e ∨ e + n <= d → sep (padd p d, m) (padd p e, n).
Proof. intros. destruct p; cbn; [done|]. right. lia. Qed.

Lemma padd_0 p : padd p 0 = p.
Proof. destruct p; cbn; [done|]. by rewrite Z.add_0_r. Qed.

Lemma padd_padd p d e : padd (padd p d) e = padd p (d + e).
Proof. destruct p; cbn; [done|]. by rewrite Z.add_assoc. Qed.

Lemma blk_padd p d : blk (padd p d) = blk p.
Proof. by destruct p. Qed.

Lemma holds_app w p vs1 vs2 :
  holds w p (vs1 ++ vs2) ↔ holds w p vs1 ∧ holds w (padd p (len vs1)) vs2.
Proof.
  split.
  - intros (b & pre & post & -> & Hb). split.
    + exists b, pre, (vs2 ++ post). by rewrite Hb, <- (assoc_L (++)).
    + exists b, (pre ++ vs1), post. rewrite Hb, length_app, <- !(assoc_L (++)). split; [|done].
      cbn. f_equal. lia.
  - intros [(b & pre & post & -> & Hb) (b' & pre' & post' & E & Hb')].
    injection E as -> E. rewrite Hb in Hb'. injection Hb' as E'.
    exists b', pre, post'. split; [done|]. rewrite Hb. f_equal. rewrite <- (assoc_L (++)). f_equal.
    rewrite (assoc_L (++)) in E'. apply app_inj_1 in E' as [_ ->]; [done|].
    rewrite length_app. lia.
Qed.

Lemma holds_mid w p vs1 vs2 vs3 :
  holds w p (vs1 ++ vs2 ++ vs3) → holds w (padd p (len vs1)) vs2.
Proof. by intros [_ [? _]%holds_app]%holds_app. Qed.

Lemma holds_live w p vs : holds w p vs → ∀ b, b ∈ blk p → is_Some (w_heap w !! b).
Proof. intros (b & pre & post & -> & Hb) c ->%elem_of_blk. by eexists. Qed.

Lemma holds_reads w p vs n : holds w p vs → n = len vs → reads w p n vs.
Proof.
  intros (b & pre & post & -> & Hb) ->. eapply reads_in; [done|lia|lia| |].
  - rewrite !length_app. lia.
  - rewrite !Nat2Z.id. by apply take_drop_app_mid.
Qed.

Lemma reads_holds w b o n bs :
  w_heap w !! b = Some bs → 0 <= o → 0 <= n → o + n <= len bs →
  holds w (Ptr b o) (take (Z.to_nat n) (drop (Z.to_nat o) bs)).
Proof.
  intros Hb ???. exists b, (take (Z.to_nat o) bs), (drop (Z.to_nat n) (drop (Z.to_nat o) bs)).
  rewrite length_take. split; [f_equal; lia|]. by rewrite !take_drop.
Qed.

(** A whole block. *)
Lemma holds_block w b bs : w_heap w !! b = Some bs → holds w (Ptr b 0) bs.
Proof. intros Hb. exists b, [], []. by rewrite app_nil_r. Qed.

Lemma holds_heap w b o vs :
  holds w (Ptr b o) vs → ∃ bs, w_heap w !! b = Some bs ∧ 0 <= o ∧ o + len vs <= len bs ∧
    take (length vs) (drop (Z.to_nat o) bs) = vs.
Proof.
  intros (b' & pre & post & [= -> ->] & Hb). eexists. split; [done|]. rewrite !length_app.
  split_and!; [lia..|]. rewrite Nat2Z.id. by apply take_drop_app_mid.
Qed.

(** ** Steps *)

#[export] Instance only_refl rs : Reflexive (only rs).
Proof. intros w. split; done. Qed.

Lemma only_trans rs w1 w2 w3 : only rs w1 w2 → only rs w2 w3 → only rs w1 w3.
Proof.
  intros [H1 S1 N1 A1 O1 L1] [H2 S2 N2 A2 O2 L2]. split; try congruence; [auto|].
  eapply w_same_weaken; [by eapply w_same_trans|set_solver].
Qed.

#[export] Instance only_transitive rs : Transitive (only rs).
Proof. intros ???. apply only_trans. Qed.

(** A step inside some regions is a step inside larger or more regions. *)
Definition covers (rs rs' : list region) : Prop :=
  ∀ q, Forall (λ r, sep r q) rs' → Forall (λ r, sep r q) rs.

Lemma only_weaken rs rs' w w' :
  covers rs rs' → ⋃ ((λ r, blk r.1) <$> rs) ⊆ ⋃ ((λ r, blk r.1) <$> rs') →
  only rs w w' → only rs' w w'.
Proof.
  intros Hc Hb [H S N A O L]. split; try done; [|by eapply w_same_weaken].
  intros q vs Hs. by apply H, Hc.
Qed.

Lemma only_sub p n d m rs w w' :
  only [(padd p d, m)] w w' → (p, n) ∈ rs → 0 <= d → d + m <= n → only rs w w'.
Proof.
  intros Ho Hin ??. eapply only_weaken; [| |exact Ho].
  - intros q Hq. constructor; [|done]. rewrite Forall_forall in Hq. by eapply sep_sub_l; [apply Hq|..].
  - cbn. rewrite blk_padd, (right_id_L ∅ (∪)). intros b Hb. apply elem_of_union_list.
    exists (blk p). split; [|done]. apply list_elem_of_fmap. by exists (p, n).
Qed.

Lemma only_1 r rs w w' : only [r] w w' → r ∈ rs → only rs w w'.
Proof.
  destruct r as [p n]. intros Ho Hin. eapply (only_sub p n 0 n); [|done|lia..]. by rewrite padd_0.
Qed.

Lemma only_incl rs rs' w w' : only rs w w' → rs ⊆ rs' → only rs' w w'.
Proof.
  intros Ho Hi. eapply only_weaken; [| |exact Ho].
  - intros q. rewrite !Forall_forall. auto.
  - intros b. rewrite !elem_of_union_list. setoid_rewrite list_elem_of_fmap. set_solver.
Qed.

(** Writing a region: the new bytes are there, and nothing else changes. *)
Lemma holds_store w p vs us :
  holds w p vs → length us = length vs →
  ∃ w', store_bytes p us w = Ret tt w' ∧ holds w' p us ∧ only [(p, len vs)] w w'.
Proof.
  intros (b & pre & post & -> & Hb) Hl. eexists. split; [|split].
  - eapply store_bytes_in; [done|lia|]. rewrite !length_app. lia.
  - exists b, pre, post. split; [done|]. cbn. rewrite lookup_insert_eq. f_equal.
    rewrite Nat2Z.id, splice_app_r by done. do 2 f_equal. by rewrite Hl, drop_app_length.
  - assert (splice (pre ++ vs ++ post) (Z.to_nat (len pre)) us = pre ++ us ++ post) as ->.
    { rewrite Nat2Z.id, splice_app_r by done. do 2 f_equal. by rewrite Hl, drop_app_length. }
    split; cbn; try done.
    + intros q ws Hs (b' & pre' & post' & -> & Hb'). apply Forall_cons in Hs as [Hs _]. cbn in Hs.
      destruct (decide (b' = b)) as [->|Hne].
      2:{ exists b', pre', post'. split; [done|]. cbn. by rewrite lookup_insert_ne. }
      destruct Hs as [?|Hs]; [done|]. rewrite Hb in Hb'. injection Hb' as E.
      destruct (reads_holds (set_heap (<[b:=pre ++ us ++ post]> (w_heap w)) w) b (len pre') (len ws)
                  (pre ++ us ++ post)) as (b2 & pre2 & post2 & E2 & H2).
      * apply lookup_insert_eq.
      * lia.
      * lia.
      * apply (f_equal length) in E. rewrite !length_app in *. lia.
      * exists b2, pre2, post2. split; [done|]. rewrite H2. do 3 f_equal.
        rewrite !Nat2Z.id.
        assert (take (length ws) (drop (length pre') (pre ++ vs ++ post)) = ws) as W.
        { rewrite E. by apply take_drop_app_mid. }
        rewrite <- W at 2. destruct Hs as [Hs|Hs].
        -- rewrite !(assoc_L (++)).
           rewrite !(drop_app_ge (_ ++ _)) by (rewrite length_app; lia).
           rewrite !length_app. by rewrite Hl.
        -- rewrite !drop_app_le, !take_app_le by (rewrite ?length_drop; lia). done.
    + rewrite (right_id_L ∅ (∪)). apply w_same_set_heap. by eexists.
    + intros c. destruct (decide (b = c)) as [->|].
      * rewrite lookup_insert_eq, Hb. cbn. f_equal. rewrite !length_app. lia.
      * by rewrite lookup_insert_ne.
Qed.

Lemma only_holds_1 p n w w' q vs :
  only [(p, n)] w w' → sep (p, n) (q, len vs) → holds w q vs → holds w' q vs.
Proof. intros Ho Hs. apply (only_holds _ _ _ Ho). by constructor. Qed.

(** [memcpy] between separate regions. *)
Lemma holds_live_only rs w w' b : only rs w w' → is_Some (w_heap w !! b) ↔ is_Some (w_heap w' !! b).
Proof.
  intros Ho. pose proof (only_len _ _ _ Ho b) as L.
  destruct (w_heap w !! b), (w_heap w' !! b); cbn in L; try done; naive_solver.
Qed.

(** ** Regions inside regions *)

Definition rsub (rs rs' : list region) : Prop :=
  ∀ r, r ∈ rs → ∃ p n d, (p, n) ∈ rs' ∧ r.1 = padd p d ∧ 0 <= d ∧ d + r.2 <= n.

Lemma rsub_nil rs : rsub [] rs.
Proof. intros r ?%not_elem_of_nil. done. Qed.

Lemma rsub_cons p d m n rs rs' :
  (p, n) ∈ rs' → 0 <= d → d + m <= n → rsub rs rs' → rsub ((padd p d, m) :: rs) rs'.
Proof. intros Hin Hd Hm Hr r [->|?]%elem_of_cons; [|by apply Hr]. by exists p, n, d. Qed.

Lemma rsub_cons_0 p m n rs rs' :
  (p, n) ∈ rs' → m <= n → rsub rs rs' → rsub ((p, m) :: rs) rs'.
Proof. intros. rewrite <- (padd_0 p). eapply rsub_cons; [done|lia..|done]. Qed.

Lemma rsub_cons_trans r rs rs' : rsub [r] rs' → rsub rs rs' → rsub (r :: rs) rs'.
Proof. intros H1 H2 r' [->|?]%elem_of_cons; [apply H1; by left|by apply H2]. Qed.

#[export] Instance rsub_refl : Reflexive rsub.
Proof. intros rs [p n] Hr. exists p, n, 0. rewrite padd_0. split_and!; try done; cbn; lia. Qed.

#[export] Instance rsub_trans : Transitive rsub.
Proof.
  intros r1 r2 r3 H12 H23 r Hr. destruct (H12 r Hr) as (p & n & d & H & E & ? & ?).
  destruct (H23 _ H) as (p' & n' & d' & H' & E' & ? & ?). cbn in *.
  exists p', n', (d' + d). rewrite E, E', padd_padd. split_and!; [done..|lia|lia].
Qed.

Lemma only_rsub rs rs' w w' : only rs w w' → rsub rs rs' → only rs' w w'.
Proof.
  intros Ho Hs. eapply only_weaken; [| |exact Ho].
  - intros q. rewrite !Forall_forall. intros Hq r Hr.
    destruct (Hs r Hr) as (p & n & d & H & E & ? & ?). destruct r as [rp rn]. cbn in *. subst rp.
    eapply sep_sub_l; [by apply Hq|done..].
  - intros b. rewrite !elem_of_union_list. intros (X & (r & -> & Hr)%list_elem_of_fmap & Hb).
    destruct (Hs r Hr) as (p & n & d & H & E & _). rewrite E, blk_padd in Hb.
    exists (blk p). split; [|done]. apply list_elem_of_fmap. by exists (p, n).
Qed.

(** A region separate from a step's regions keeps its bytes. *)
Lemma only_keep rs w w' q vs :
  only rs w w' → (∀ r, r ∈ rs → sep r (q, len vs)) → holds w q vs → holds w' q vs.
Proof. intros Ho Hs. apply (only_holds _ _ _ Ho). by apply Forall_forall. Qed.

Lemma load_ptr_holds w p q : holds w p (encptr q) → load_ptr p w = Ret q w.
Proof. intros H. apply load_ptr_eq. eapply holds_reads; [done|]. by rewrite length_encptr. Qed.

Lemma load_u64_holds w p z : holds w p (enc64 z) → load_u64 p w = Ret (u64 z) w.
Proof. intros H. by apply load_u64_eq, (holds_reads _ _ _ 8 H). Qed.

(** ** What is kept, allocation and release included *)

(** Everything stored in [w] outside the regions [rs] is still stored in [w']. *)
Record keeps (rs : list region) (w w' : world) : Prop := Keeps {
  keeps_holds : ∀ q vs, Forall (λ r, sep r (q, len vs)) rs → holds w q vs → holds w' q vs;
  keeps_env : w_env w' = w_env w }.

Lemma only_keeps rs w w' : only rs w w' → keeps rs w w'.
Proof. intros Ho. split; [apply Ho|apply (only_same _ _ _ Ho)]. Qed.

#[export] Instance keeps_refl rs : Reflexive (keeps rs).
Proof. intros w. by apply only_keeps. Qed.

Lemma keeps_trans rs w1 w2 w3 : keeps rs w1 w2 → keeps rs w2 w3 → keeps rs w1 w3.
Proof. intros [H1 E1] [H2 E2]. split; [auto|congruence]. Qed.

(** [w] with one more block. *)
Definition with_new (w : world) (vs : list mval) (a : Z) : world :=
  World (<[w_next w := vs]> (w_heap w)) (Pos.succ (w_next w)) a (w_out w) (w_env w).

Lemma holds_new w vs a q ws : wf_world w → holds w q ws → holds (with_new w vs a) q ws.
Proof.
  intros Hwf (b & pre & post & -> & Hb). exists b, pre, post. split; [done|]. cbn.
  rewrite lookup_insert_ne; [done|]. assert (b < w_next w)%positive; [|lia]. apply Hwf. by eexists.
Qed.

Lemma holds_new_block w vs a : holds (with_new w vs a) (Ptr (w_next w) 0) vs.
Proof. apply holds_block. cbn. apply lookup_insert_eq. Qed.

Lemma holds_old w q ws m : wf_world w → holds w q ws → sep (Ptr (w_next w) 0, m) (q, len ws).
Proof.
  intros Hwf (b & pre & post & -> & Hb). left. intros <-.
  assert (w_next w < w_next w)%positive; [|lia]. apply Hwf. by eexists.
Qed.

Lemma keeps_new rs w vs a m w' :
  wf_world w → only ((Ptr (w_next w) 0, m) :: rs) (with_new w vs a) w' → keeps rs w w'.
Proof.
  intros Hwf Ho. split.
  - intros q ws Hq Hw. apply (only_holds _ _ _ Ho); [|by apply holds_new].
    constructor; [by apply holds_old|done].
  - apply (only_same _ _ _ Ho).
Qed.

(** [w] without the block [b]; the budget becomes [a]. *)
Definition without (w : world) (b : positive) (a : Z) : world :=
  World (delete b (w_heap w)) (w_next w) a (w_out w) (w_env w).

Lemma holds_without w b a q ws : b ∉ blk q → holds w q ws → holds (without w b a) q ws.
Proof.
  intros Hq (c & pre & post & -> & Hb). exists c, pre, post. split; [done|]. cbn.
  rewrite lookup_delete_ne; [done|]. intros ->. apply Hq. by apply elem_of_blk.
Qed.

(** A block that a step allocated, used and released is not seen from outside. *)
Lemma keeps_scratch rs w vs a m w' a' :
  wf_world w → only ((Ptr (w_next w) 0, m) :: rs) (with_new w vs a) w' →
  keeps rs w (without w' (w_next w) a').
Proof.
  intros Hwf Ho. pose proof (keeps_new _ _ _ _ _ _ Hwf Ho) as [Kh Ke]. split; [|done].
  intros q ws Hq Hw. apply holds_without; [|by apply Kh].
  intros Hb%(holds_live _ _ _ Hw)%Hwf. lia.
Qed.

Lemma w_same_without w b a : w_same {[b]} w (without w b a).
Proof.
  split; cbn; try done.
  - intros c Hc _. rewrite lookup_delete_ne; [done|set_solver].
  - intros Hwf c. cbn. rewrite lookup_delete_is_Some. intros [_ ?]. by apply Hwf.
  - intros c _ Hd. apply lookup_delete_None. by right.
Qed.

Lemma w_same_scratch bs w vs a w' a' :
  wf_world w → w_same (bs ∪ {[w_next w]}) (with_new w vs a) w' →
  w_same bs w (without w' (w_next w) a').
Proof.
  intros Hwf Hs. apply (w_same_fresh _ (w_next w)); [done|done|].
  eapply w_same_weaken; [eapply w_same_trans; [by apply (w_same_alloc w vs a)|]|].
  { eapply w_same_trans; [exact Hs|]. apply w_same_without. }
  set_solver.
Qed.
