(* ===== verification/CStr.v ===== *)
(** * CStr: the [string.h] functions the userland calls, on the memory model

    [str_cmp], [str_ncmp] are the byte-wise comparisons of two strings as lists; the
    memory functions follow glibc's [string/] sources ([strcpy] through [stpcpy],
    [strcat] through [strcpy] and [strlen]).  The word-at-a-time loops of those
    sources are the subject of [WordStr]; here a string is scanned by bytes. *)

From S2P Require Import Prelude Mem Logic.
Local Open Scope Z_scope.

Fixpoint scan_cstr (p : ptr) (vs : list mval) : M (list Z) :=
  match vs with
  | [] => stuck OutOfBounds
  | v :: vs =>
    c ← byte_val p v;
    if c =? 0 then mret [] else (s ← scan_cstr (padd p 1) vs; mret (c :: s))
  end.

(** The bytes before the first NUL at [p]. *)
Definition read_cstr (p : ptr) : M (list Z) := λ w,
  match p with
  | Null => Stuck NullDeref
  | Ptr b o =>
    match w_heap w !! b with
    | None => Stuck UseAfterFree
    | Some bs =>
      if (0 <=? o) && (o <=? len bs) then scan_cstr p (drop (Z.to_nat o) bs) w
      else Stuck OutOfBounds
    end
  end.

Definition strlen (p : ptr) : M Z := s ← read_cstr p; mret (len s).

Definition stpcpy (dest src : ptr) : M ptr :=
  s ← read_cstr src;
  store_bytes dest ((MByte <$> s) ++ [MByte 0]);;
  mret (padd dest (len s)).

Definition strcpy (dest src : ptr) : M ptr := stpcpy dest src;; mret dest.

Definition strcat (dest src : ptr) : M ptr :=
  n ← strlen dest;
  strcpy (padd dest n) src;;
  mret dest.

Definition memcpy (dest src : ptr) (n : Z) : M ptr :=
  vs ← load_bytes src n;
  store_bytes dest vs;;
  mret dest.

(** How many bytes of the object lie at or after [p]: fuel for a byte loop. *)
Definition room_at (p : ptr) : M nat := λ w,
  match p with
  | Null => Stuck NullDeref
  | Ptr b o =>
    match w_heap w !! b with
    | None => Stuck UseAfterFree
    | Some bs => Ret (length bs - Z.to_nat o)%nat w
    end
  end.

Fixpoint strcmp_loop (fuel : nat) (p q : ptr) : M Z :=
  match fuel with
  | O => stuck OutOfBounds
  | S fuel =>
    c1 ← load_u8 p;
    c2 ← load_u8 q;
    if (c1 =? 0) || negb (c1 =? c2) then mret (c1 - c2)
    else strcmp_loop fuel (padd p 1) (padd q 1)
  end.

Definition strcmp (p q : ptr) : M Z :=
  fuel ← room_at p; strcmp_loop fuel p q.

Fixpoint strncmp_loop (n : nat) (p q : ptr) : M Z :=
  match n with
  | O => mret 0
  | S n =>
    c1 ← load_u8 p;
    c2 ← load_u8 q;
    if (c1 =? 0) || negb (c1 =? c2) then mret (c1 - c2)
    else strncmp_loop n (padd p 1) (padd q 1)
  end.

Definition strncmp (p q : ptr) (n : Z) : M Z := strncmp_loop (Z.to_nat n) p q.

(** ** The reference comparisons *)

Fixpoint str_cmp (s t : list Z) : Z :=
  match s, t with
  | [], [] => 0
  | [], b :: _ => - b
  | a :: _, [] => a
  | a :: s, b :: t => if a =? b then str_cmp s t else a - b
  end.

Fixpoint str_ncmp (n : nat) (s t : list Z) : Z :=
  match n with
  | O => 0
  | S n =>
    match s, t with
    | [], [] => 0
    | [], b :: _ => - b
    | a :: _, [] => a
    | a :: s, b :: t => if a =? b then str_ncmp n s t else a - b
    end
  end.

(** The bytes of a C string: nonzero and below 256. *)
Definition is_cstr (s : list Z) : Prop := Forall (λ c, 0 < c < 256) s.

#[export] Instance is_cstr_dec s : Decision (is_cstr s).
Proof. unfold is_cstr. apply _. Defined.

Section reference.
Implicit Types (s t u : list Z).

Lemma str_cmp_refl s : str_cmp s s = 0.
Proof. induction s as [|a s IH]; cbn; [done|]. by rewrite Z.eqb_refl. Qed.

Lemma str_cmp_antisym s t : str_cmp t s = - str_cmp s t.
Proof.
  revert t. induction s as [|a s IH]; intros [|b t]; cbn; try lia.
  rewrite (Z.eqb_sym b a). destruct (Z.eqb_spec a b); [apply IH|lia].
Qed.

Lemma str_cmp_eq s t : is_cstr s → is_cstr t → str_cmp s t = 0 → s = t.
Proof.
  intros Hs. revert t. induction Hs as [|a s Ha Hs IH]; intros t Ht; destruct Ht as [|b t Hb Ht];
    cbn in *; try lia; [done|].
  destruct (Z.eqb_spec a b) as [->|]; [|lia]. intros E. f_equal. by apply IH.
Qed.

Lemma str_cmp_trans s t u :
  is_cstr s → is_cstr t → is_cstr u → str_cmp s t <= 0 → str_cmp t u <= 0 → str_cmp s u <= 0.
Proof.
  intros Hs. revert t u. induction Hs as [|a s Ha Hs IH]; intros t u Ht Hu.
  - destruct Hu; cbn in *; lia.
  - destruct Ht as [|b t Hb Ht]; destruct Hu as [|c u Hc Hu]; cbn in *; try lia.
    destruct (Z.eqb_spec a b) as [->|], (Z.eqb_spec b c) as [->|].
    + by apply IH.
    + lia.
    + rewrite (proj2 (Z.eqb_neq a c)) by done. lia.
    + intros ??. rewrite (proj2 (Z.eqb_neq a c)) by lia. lia.
Qed.

Lemma str_cmp_bound s t : is_cstr s → is_cstr t → -256 < str_cmp s t < 256.
Proof.
  intros Hs. revert t. induction Hs as [|a s Ha Hs IH]; intros t Ht; destruct Ht as [|b t Hb Ht];
    cbn in *; try lia.
  destruct (a =? b); [by apply IH|lia].
Qed.
End reference.

(** ** The memory functions on stored strings *)

Lemma scan_cstr_eq p s rest w :
  is_cstr s → scan_cstr p ((MByte <$> s) ++ MByte 0 :: rest) w = Ret s w.
Proof.
  intros Hs. revert p. induction Hs as [|c s Hc Hs IH]; intros p; [done|].
  cbn [fmap list_fmap app scan_cstr]. erewrite bind_ret by done.
  rewrite (proj2 (Z.eqb_neq _ _)) by lia. by erewrite bind_ret by apply IH.
Qed.

Lemma read_cstr_eq w p s : cstr_at w p s → read_cstr p w = Ret s w.
Proof.
  intros (b & o & bs & -> & Ho & Hb & Hs & rest & Hr). unfold read_cstr. rewrite Hb.
  assert (o <= len bs).
  { apply (f_equal length) in Hr. rewrite length_drop, length_app in Hr. cbn in Hr. lia. }
  rewrite (proj2 (Z.leb_le _ _)) by lia. rewrite (proj2 (Z.leb_le _ _)) by lia. cbn.
  rewrite Hr. by apply scan_cstr_eq.
Qed.

Lemma strlen_eq w p s : cstr_at w p s → strlen p w = Ret (len s) w.
Proof. intros H. unfold strlen. by erewrite bind_ret by by apply read_cstr_eq. Qed.

(** The first byte of a stored string can be loaded, and the rest is a string. *)
Lemma cstr_at_uncons w p s :
  cstr_at w p s →
  load_u8 p w = Ret (default 0 (head s)) w ∧
  match s with [] => True | _ :: s' => cstr_at w (padd p 1) s' end.
Proof.
  intros (b & o & bs & -> & Ho & Hb & Hs & rest & Hr). split.
  - apply load_u8_eq, (reads_in _ _ _ _ bs); try done.
    + apply (f_equal length) in Hr. rewrite length_drop, length_app in Hr. cbn in Hr. lia.
    + rewrite Hr. by destruct s.
  - destruct s as [|c s]; [done|]. exists b, (o + 1), bs. split_and!; try done; [lia| |].
    + by inv Hs.
    + exists rest. rewrite Z2Nat.inj_add by lia. change (Z.to_nat 1) with 1%nat.
      by rewrite <- drop_drop, Hr.
Qed.

Lemma cstr_at_room w p s : cstr_at w p s → ∃ n, (length s < n)%nat ∧ room_at p w = Ret n w.
Proof.
  intros (b & o & bs & -> & Ho & Hb & Hs & rest & Hr). unfold room_at. rewrite Hb.
  eexists; split; [|done]. apply (f_equal length) in Hr.
  rewrite length_drop, length_app, length_fmap in Hr. cbn in Hr. lia.
Qed.

Lemma strcmp_loop_eq w fuel p q s t :
  cstr_at w p s → cstr_at w q t → (length s < fuel)%nat →
  strcmp_loop fuel p q w = Ret (str_cmp s t) w.
Proof.
  revert p q s t. induction fuel as [|fuel IH]; intros p q s t Hs Ht Hf; [lia|].
  cbn [strcmp_loop]. destruct (cstr_at_uncons _ _ _ Hs) as [E1 Hs'].
  destruct (cstr_at_uncons _ _ _ Ht) as [E2 Ht'].
  rewrite (bind_ret _ _ _ _ _ E1), (bind_ret _ _ _ _ _ E2).
  destruct Hs as (b1 & o1 & c1 & -> & _ & _ & Hs & _).
  destruct Ht as (b2 & o2 & c2 & -> & _ & _ & Ht & _).
  destruct s as [|a s], t as [|b t]; cbn -[Z.sub].
  - done.
  - done.
  - inv Hs. rewrite (proj2 (Z.eqb_neq a 0)) by lia. cbn -[Z.sub]. by rewrite Z.sub_0_r.
  - inv Hs. rewrite (proj2 (Z.eqb_neq a 0)) by lia. cbn. destruct (a =? b); cbn; [|done].
    apply IH; [done..|cbn in Hf; lia].
Qed.

Lemma strcmp_eq w p q s t :
  cstr_at w p s → cstr_at w q t → strcmp p q w = Ret (str_cmp s t) w.
Proof.
  intros Hs Ht. destruct (cstr_at_room _ _ _ Hs) as (n & Hn & E).
  unfold strcmp. rewrite (bind_ret _ _ _ _ _ E). by apply strcmp_loop_eq.
Qed.

Lemma strncmp_loop_eq w n p q s t :
  cstr_at w p s → cstr_at w q t → strncmp_loop n p q w = Ret (str_ncmp n s t) w.
Proof.
  revert p q s t. induction n as [|n IH]; intros p q s t Hs Ht; [done|].
  cbn [strncmp_loop]. destruct (cstr_at_uncons _ _ _ Hs) as [E1 Hs'].
  destruct (cstr_at_uncons _ _ _ Ht) as [E2 Ht'].
  rewrite (bind_ret _ _ _ _ _ E1), (bind_ret _ _ _ _ _ E2).
  destruct Hs as (b1 & o1 & c1 & -> & _ & _ & Hs & _).
  destruct Ht as (b2 & o2 & c2 & -> & _ & _ & Ht & _).
  destruct s as [|a s], t as [|b t]; cbn -[Z.sub].
  - done.
  - done.
  - inv Hs. rewrite (proj2 (Z.eqb_neq a 0)) by lia. cbn -[Z.sub]. by rewrite Z.sub_0_r.
  - inv Hs. rewrite (proj2 (Z.eqb_neq a 0)) by lia. cbn. destruct (a =? b); cbn; [|done].
    by apply IH.
Qed.

Lemma strncmp_eq w p q n s t :
  cstr_at w p s → cstr_at w q t → strncmp p q n w = Ret (str_ncmp (Z.to_nat n) s t) w.
Proof. apply strncmp_loop_eq. Qed.

(** Comparing a prefix of a string of its own length. *)
Lemma str_ncmp_prefix s t :
  is_cstr s → is_cstr t → str_ncmp (length t) s t = 0 ↔ t `prefix_of` s.
Proof.
  intros Hs Ht. revert s Hs. induction Ht as [|b t Hb Ht IH]; intros s Hs; cbn.
  - split; [intros _; apply prefix_nil|done].
  - destruct Hs as [|a s Ha Hs].
    + split; [lia|]. intros ?%prefix_nil_inv. done.
    + destruct (Z.eqb_spec a b) as [->|].
      * rewrite IH by done. split; [apply prefix_cons|apply prefix_cons_inv_2].
      * split; [lia|]. intros ?%prefix_cons_inv_1. congruence.
Qed.

(** ** Writing strings *)

Lemma reads_dest_same w b bs' src n vs :
  is_Some (w_heap w !! b) → b ∉ blk src → reads w src n vs →
  reads (set_heap (<[b := bs']> (w_heap w)) w) src n vs.
Proof.
  intros Hb Hd. apply (reads_same {[b]}); [by apply w_same_set_heap|set_solver].
Qed.

Lemma cstr_dest_same w b bs' src s :
  is_Some (w_heap w !! b) → b ∉ blk src → cstr_at w src s →
  cstr_at (set_heap (<[b := bs']> (w_heap w)) w) src s.
Proof.
  intros Hb Hd. apply (cstr_same {[b]}); [by apply w_same_set_heap|set_solver].
Qed.

Lemma cstr_at_is_cstr w p s : cstr_at w p s → is_cstr s.
Proof. by intros (b & o & bs & _ & _ & _ & Hs & _). Qed.

(** A string written into a block is stored there. *)
Lemma cstr_at_splice w b bs o s :
  is_cstr s → (o + length s < length bs)%nat →
  w_heap w !! b = Some (splice bs o ((MByte <$> s) ++ [MByte 0])) →
  cstr_at w (Ptr b (Z.of_nat o)) s.
Proof.
  intros Hs Ho Hb. eexists _, _, _. split_and!; [done|lia|done|done|].
  rewrite Nat2Z.id. unfold splice. rewrite drop_app_length' by (rewrite length_take; lia).
  rewrite <- (assoc_L (++)). by eexists.
Qed.

Lemma strcpy_run w b o bs src s :
  w_heap w !! b = Some bs → 0 <= o → o + len s + 1 <= len bs → cstr_at w src s →
  strcpy (Ptr b o) src w =
  Ret (Ptr b o) (set_heap (<[b := splice bs (Z.to_nat o) ((MByte <$> s) ++ [MByte 0])]> (w_heap w)) w).
Proof.
  intros Hb Ho Hl Hs. unfold strcpy, stpcpy. erewrite bind_ret; [done|].
  erewrite bind_ret by (by apply read_cstr_eq).
  by erewrite bind_ret by (eapply store_bytes_in; [done|done|rewrite length_app, length_fmap; cbn; lia]).
Qed.

(** [strcat] onto a stored string: the block then holds the two strings in a row. *)
Lemma strcat_run w b bs s src t rest :
  w_heap w !! b = Some bs → bs = (MByte <$> s) ++ MByte 0 :: rest → is_cstr s →
  (length t <= length rest)%nat → cstr_at w src t →
  strcat (Ptr b 0) src w =
  Ret (Ptr b 0) (set_heap (<[b := (MByte <$> s ++ t) ++ MByte 0 :: drop (length t) rest]> (w_heap w)) w).
Proof.
  intros Hb -> Hs Hl Ht. unfold strcat.
  erewrite bind_ret.
  2:{ apply (strlen_eq _ _ s). eexists _, _, _. split_and!; [done|done|done|done|]. by eexists. }
  cbn [padd]. erewrite bind_ret.
  2:{ eapply strcpy_run; [done|lia| |done]. rewrite length_app, length_fmap. cbn. lia. }
  unfold mret, M_ret. do 4 f_equal. replace (Z.to_nat (0 + len s)) with (length s) by lia.
  rewrite splice_app_r by apply length_fmap. rewrite fmap_app, <- !(assoc_L (++)). do 2 f_equal. cbn.
  rewrite length_app, length_fmap, Nat.add_comm. done.
Qed.
