(* ===== verification/Printf.v ===== *)
(** * Printf: the conversions of [printf] the userland uses

    Flags [-], a field width given as [*] (a negative one means [-]), the length modifier [l], and the
    conversions [d], [s], [c] and [%].  An [int] conversion of a wider argument prints
    its low 32 bits, as the x86-64 calling convention makes it. *)

From S2P Require Import Prelude Mem Logic CStr.
Local Open Scope Z_scope.

Inductive parg := AInt (z : Z) | AStr (p : ptr).

(** The decimal digits of a number, with a sign when it is negative. *)
Definition decimal (z : Z) : list Z := str (pretty z).

(** [s] in a field of [width] columns, on the left of the field when [left]. *)
Definition pad (left : bool) (width : Z) (s : list Z) : list Z :=
  let fill := replicate (Z.to_nat width - length s) 32 in
  if left then s ++ fill else fill ++ s.

Definition next_arg (args : list parg) : M (parg * list parg) :=
  match args with
  | [] => stuck UninitRead
  | a :: args => mret (a, args)
  end.

Definition int_arg (a : parg) : M Z :=
  match a with AInt z => mret z | AStr _ => stuck UninitRead end.

Definition str_arg (a : parg) : M (list Z) :=
  match a with AStr p => read_cstr p | AInt _ => stuck UninitRead end.

(** One conversion specification after the [%]: its flags are parsed into [left],
    [width] and [long] until the conversion character is met. *)
Fixpoint convert (fmt : list Z) (left : bool) (width : Z) (long : bool)
    (args : list parg) : M (list Z * list parg * list Z) :=
  match fmt with
  | 45 :: fmt => convert fmt true width long args
  | 42 :: fmt =>
    '(a, args) ← next_arg args; z ← int_arg a;
    convert fmt (left || (i32 z <? 0)) (Z.abs (i32 z)) long args
  | 108 :: fmt => convert fmt left width true args
  | 100 :: fmt =>
    '(a, args) ← next_arg args; z ← int_arg a;
    mret (pad left width (decimal (if long then i64 z else i32 z)), args, fmt)
  | 115 :: fmt =>
    '(a, args) ← next_arg args; s ← str_arg a; mret (pad left width s, args, fmt)
  | 99 :: fmt =>
    '(a, args) ← next_arg args; z ← int_arg a; mret (pad left width [u8 z], args, fmt)
  | 37 :: fmt => mret ([37], args, fmt)
  | _ => stuck UninitRead
  end.

Fixpoint printf_loop (fuel : nat) (fmt : list Z) (args : list parg) : M unit :=
  match fuel with
  | O => mret tt
  | S fuel =>
    match fmt with
    | [] => mret tt
    | 37 :: fmt =>
      '(out, args, fmt) ← convert fmt false 0 false args;
      put out;; printf_loop fuel fmt args
    | c :: fmt => put [c];; printf_loop fuel fmt args
    end
  end.

Definition printf (fmt : list Z) (args : list parg) : M unit :=
  printf_loop (length fmt) fmt args.
