(* ===== verification/Dynamic.v ===== *)
(** * Dynamic: the growable array of [src/lib/dynamic.c]

    A DYNAMIC object is one malloc block: four [size_t] header fields followed by
    the element bytes.  The operations below are the functions of the source on the
    memory model; a function that takes a [DYNAMIC **] takes the pointer stored there
    and returns the pointer it leaves there.  [dyn] is the abstract value, a list of
    elements with a capacity, and [dyn_at] says that an object in memory represents
    one. *)

From S2P Require Import Prelude Mem Logic CStr Printf.
Local Open Scope Z_scope.

Definition DYNAMIC_DEFAULT_CAPACITY : Z := 32.

(** ** Layout of the struct *)

Definition sizeof_DYNAMIC : Z := 32.
Definition f_length (p : ptr) : ptr := padd p 0.
Definition f_capacity (p : ptr) : ptr := padd p 8.
Definition f_size (p : ptr) : ptr := padd p 16.
Definition f_element_size (p : ptr) : ptr := padd p 24.
(** [&p[1]] *)
Definition f_data (p : ptr) : ptr := padd p sizeof_DYNAMIC.

(** ** Operations *)

Definition dynamic (element_size initial_capacity : Z) : M ptr :=
  if (element_size <? 1) || (element_size =? 0) then mret Null
  else
    let count := if initial_capacity =? 0 then DYNAMIC_DEFAULT_CAPACITY else initial_capacity in
    p ← malloc (u64 (sizeof_DYNAMIC + u64 (count * element_size)));
    store_u64 (f_length p) 0;;
    store_u64 (f_capacity p) count;;
    store_u64 (f_size p) (u64 (count * element_size));;
    store_u64 (f_element_size p) element_size;;
    mret p.

Definition dynamic_size (p : ptr) : M Z := load_u64 (f_length p).
Definition dynamic_capacity (p : ptr) : M Z := load_u64 (f_capacity p).

Definition dynamic_grow (p : ptr) : M ptr :=
  length ← load_u64 (f_length p);
  capacity ← load_u64 (f_capacity p);
  p ← (if length =? capacity then
         size ← load_u64 (f_size p);
         store_u64 (f_size p) (u64 (size * 2));;
         capacity ← load_u64 (f_capacity p);
         store_u64 (f_capacity p) (u64 (capacity * 2));;
         size ← load_u64 (f_size p);
         realloc p (u64 (sizeof_DYNAMIC + size))
       else mret p);
  length ← load_u64 (f_length p);
  store_u64 (f_length p) (u64 (length + 1));;
  mret p.

Definition dynamic_insert (p element : ptr) : M ptr :=
  length ← load_u64 (f_length p);
  size ← load_u64 (f_element_size p);
  let offset := u64 (length * size) in
  p ← dynamic_grow p;
  memcpy (padd (f_data p) offset) element size;;
  mret p.

Definition dynamic_get (p : ptr) (idx : Z) : M ptr :=
  size ← load_u64 (f_element_size p);
  mret (padd (f_data p) (u64 (idx * size))).

Definition dynamic_shrink_to_fit (p : ptr) : M ptr :=
  capacity ← load_u64 (f_capacity p);
  length ← load_u64 (f_length p);
  if capacity =? length then mret p
  else
    store_u64 (f_capacity p) length;;
    element_size ← load_u64 (f_element_size p);
    store_u64 (f_size p) (u64 (element_size * length));;
    size ← load_u64 (f_size p);
    realloc p (u64 (sizeof_DYNAMIC + size)).

Definition dynamic_free (p : ptr) : M unit := free p.

Definition dynamic_resize (p : ptr) (size : Z) : M ptr :=
  capacity ← load_u64 (f_capacity p);
  if capacity =? size then mret p
  else if size =? 0 then dynamic_free p;; mret p
  else
    store_u64 (f_capacity p) size;;
    length ← load_u64 (f_length p);
    let length := if length <? size then length else size in
    store_u64 (f_length p) length;;
    element_size ← load_u64 (f_element_size p);
    store_u64 (f_size p) (u64 (length * element_size));;
    bytes ← load_u64 (f_size p);
    realloc p (u64 (sizeof_DYNAMIC + bytes)).

(** The loop of [print_dynamic]: [i] is an [int], compared with a [size_t]. *)
Fixpoint print_dynamic_loop (fuel : nat) (format : list Z) (p : ptr) (direct : bool)
    (size i : Z) : M unit :=
  length ← load_u64 (f_length p);
  if i <? length then
    match fuel with
    | O => stuck NoFuel
    | S fuel =>
      let src := padd (f_data p) (u64 (i * size)) in
      (if direct then c ← load_u8 src; printf format [AInt (wraps 8 c)]
       else printf format [AStr src]);;
      put (str "
");;
      if i =? 2 ^ 31 - 1 then stuck IntOverflow
      else print_dynamic_loop fuel format p direct size (i + 1)
    end
  else mret tt.

Definition print_dynamic (format : list Z) (p : ptr) (direct : bool) : M unit :=
  size ← load_u64 (f_element_size p);
  length ← load_u64 (f_length p);
  print_dynamic_loop (Z.to_nat length) format p direct size 0.

Definition dynamic_debug (p : ptr) : M unit :=
  length ← load_u64 (f_length p);
  capacity ← load_u64 (f_capacity p);
  size ← load_u64 (f_size p);
  element_size ← load_u64 (f_element_size p);
  printf (str "DYNAMIC: length=%ld, capacity=%ld, size=%ld, element_size=%ld
") [AInt length; AInt capacity; AInt size; AInt element_size].

(** ** The abstract value *)

Record dyn := Dyn { d_elems : list (list mval); d_cap : Z; d_esz : Z }.

Definition d_push (e : list mval) (d : dyn) : dyn :=
  Dyn (d_elems d ++ [e])
      (if len (d_elems d) =? d_cap d then 2 * d_cap d else d_cap d) (d_esz d).

(** The sizes are consistent and the object is smaller than half the address space,
    as every object is. *)
Record dyn_ok (d : dyn) : Prop := DynOk {
  ok_esz : 0 < d_esz d;
  ok_len : len (d_elems d) <= d_cap d;
  ok_cap : 0 < d_cap d;
  ok_elems : Forall (λ e, len e = d_esz d) (d_elems d);
  ok_bytes : sizeof_DYNAMIC + d_cap d * d_esz d < 2 ^ 63 }.

(** The bytes of an object with these header fields. *)
Definition dyn_block (n cap size esz : Z) (data : list mval) : list mval :=
  enc64 n ++ enc64 cap ++ enc64 size ++ enc64 esz ++ data.

Definition dyn_at (w : world) (p : ptr) (d : dyn) : Prop :=
  dyn_ok d ∧ ∃ b slack, p = Ptr b 0 ∧
    w_heap w !! b = Some (dyn_block (len (d_elems d)) (d_cap d) (d_cap d * d_esz d) (d_esz d)
                            (concat (d_elems d) ++ slack)) ∧
    len slack = (d_cap d - len (d_elems d)) * d_esz d.

(** ** Header fields *)

Section header.
Context (w : world) (b : positive) (n cap size esz : Z) (data : list mval).
Hypothesis Hb : w_heap w !! b = Some (dyn_block n cap size esz data).

Lemma load_length : load_u64 (f_length (Ptr b 0)) w = Ret (u64 n) w.
Proof using Hb. apply load_u64_eq. eapply reads_in; [done..|cbn; lia|done]. Qed.

Lemma load_capacity : load_u64 (f_capacity (Ptr b 0)) w = Ret (u64 cap) w.
Proof using Hb. apply load_u64_eq. eapply reads_in; [done..|cbn; lia|done]. Qed.

Lemma load_size : load_u64 (f_size (Ptr b 0)) w = Ret (u64 size) w.
Proof using Hb. apply load_u64_eq. eapply reads_in; [done..|cbn; lia|done]. Qed.

Lemma load_element_size : load_u64 (f_element_size (Ptr b 0)) w = Ret (u64 esz) w.
Proof using Hb. apply load_u64_eq. eapply reads_in; [done..|cbn; lia|done]. Qed.

Definition with_block (bs : list mval) : world := set_heap (<[b := bs]> (w_heap w)) w.

Lemma store_length n' :
  store_u64 (f_length (Ptr b 0)) n' w = Ret tt (with_block (dyn_block n' cap size esz data)).
Proof using Hb. apply (store_bytes_in w b 0 _ (enc64 n') Hb); cbn; lia. Qed.

Lemma store_capacity cap' :
  store_u64 (f_capacity (Ptr b 0)) cap' w = Ret tt (with_block (dyn_block n cap' size esz data)).
Proof using Hb. apply (store_bytes_in w b 8 _ (enc64 cap') Hb); cbn; lia. Qed.

Lemma store_size size' :
  store_u64 (f_size (Ptr b 0)) size' w = Ret tt (with_block (dyn_block n cap size' esz data)).
Proof using Hb. apply (store_bytes_in w b 16 _ (enc64 size') Hb); cbn; lia. Qed.

Lemma store_element_size esz' :
  store_u64 (f_element_size (Ptr b 0)) esz' w = Ret tt (with_block (dyn_block n cap size esz' data)).
Proof using Hb. apply (store_bytes_in w b 24 _ (enc64 esz') Hb); cbn; lia. Qed.
End header.

Lemma with_block_lookup w b bs : w_heap (with_block w b bs) !! b = Some bs.
Proof. apply lookup_insert_eq. Qed.

Lemma with_block_twice w b bs bs' : with_block (with_block w b bs) b bs' = with_block w b bs'.
Proof. unfold with_block, set_heap. cbn. by rewrite insert_insert_eq. Qed.

Lemma len_dyn_block n cap size esz data : len (dyn_block n cap size esz data) = 32 + len data.
Proof. unfold dyn_block. rewrite !length_app, !length_enc64. lia. Qed.

(** Run the next header access on the block currently stored. *)
Ltac hdr_eq :=
  first
    [ eapply load_length | eapply load_capacity | eapply load_size | eapply load_element_size
    | eapply store_length | eapply store_capacity | eapply store_size | eapply store_element_size ];
  first [ eassumption | apply with_block_lookup ].
Ltac hdr := erewrite bind_ret by hdr_eq; cbn beta; rewrite ?with_block_twice.

Lemma dynamic_grow_same w b n cap size esz data :
  w_heap w !! b = Some (dyn_block n cap size esz data) → is_u64 n → is_u64 cap → n ≠ cap →
  dynamic_grow (Ptr b 0) w = Ret (Ptr b 0) (with_block w b (dyn_block (u64 (n + 1)) cap size esz data)).
Proof.
  intros Hb Hn Hc Hne. unfold dynamic_grow. hdr. hdr.
  rewrite !u64_small, (proj2 (Z.eqb_neq _ _)) by done.
  erewrite bind_ret by done. hdr. hdr. by rewrite (u64_small n).
Qed.

(** The world after [realloc] has moved block [b] to a fresh block holding [bs]. *)
Definition moved (w : world) (b : positive) (old : Z) (bs : list mval) : world :=
  World (<[w_next w := bs]> (delete b (w_heap w))) (Pos.succ (w_next w))
    (w_avail w + old - len bs) (w_out w) (w_env w).

Lemma realloc_moved w b n cap size esz data :
  w_heap w !! b = Some (dyn_block n cap size esz data) →
  0 <= size → 32 + size <= w_avail w + (32 + len data) → 32 + size < 2 ^ 64 →
  realloc (Ptr b 0) (u64 (sizeof_DYNAMIC + size)) w =
  Ret (Ptr (w_next w) 0) (moved w b (32 + len data) (dyn_block n cap size esz (resize_bytes data size))).
Proof.
  intros Hb ???. rewrite u64_small by (unfold is_u64, sizeof_DYNAMIC; lia). unfold sizeof_DYNAMIC.
  erewrite realloc_ok; [|done|rewrite len_dyn_block; lia]. unfold moved. f_equal.
  assert (resize_bytes (dyn_block n cap size esz data) (32 + size) =
          dyn_block n cap size esz (resize_bytes data size)) as ->.
  { unfold resize_bytes. rewrite Z2Nat.inj_add by lia. change (Z.to_nat 32) with 32%nat.
    unfold dyn_block. rewrite !length_app, !length_enc64.
    replace (32 + Z.to_nat size - (8 + (8 + (8 + (8 + length data)))))%nat
      with (Z.to_nat size - length data)%nat by lia. done. }
  f_equal. rewrite !len_dyn_block. unfold resize_bytes. rewrite length_app, length_take, length_replicate. lia.
Qed.

Lemma with_block_moved w b old bs bs' :
  length bs = length bs' → b ≠ w_next w →
  with_block (moved w b old bs) (w_next w) bs' = moved w b old bs'.
Proof.
  intros E ?. unfold with_block, moved, set_heap. cbn. by rewrite insert_insert_eq, E.
Qed.

Lemma moved_with_block w b old bs bs' :
  moved (with_block w b bs) b old bs' = moved w b old bs'.
Proof. unfold with_block, moved, set_heap. cbn. by rewrite delete_insert_eq. Qed.

Lemma moved_lookup w b old bs : w_heap (moved w b old bs) !! w_next w = Some bs.
Proof. apply lookup_insert_eq. Qed.

Lemma dynamic_grow_double w b n size esz data :
  wf_world w → w_heap w !! b = Some (dyn_block n n size esz data) →
  len data = size → is_u64 n → 32 + size <= 2 ^ 63 → size <= w_avail w →
  dynamic_grow (Ptr b 0) w =
  Ret (Ptr (w_next w) 0)
    (moved w b (32 + size)
       (dyn_block (u64 (n + 1)) (u64 (n * 2)) (size * 2) esz
          (data ++ replicate (length data) MUndef))).
Proof.
  intros Hwf Hb Hd Hn Hs Ha.
  assert (b ≠ w_next w) as Hne.
  { intros ->. by rewrite wf_next in Hb. }
  unfold dynamic_grow. hdr. hdr. rewrite u64_small, Z.eqb_refl by done.
  erewrite bind_ret.
  2:{ hdr. rewrite (u64_small size) by (unfold is_u64; lia). hdr. hdr. hdr. hdr.
      rewrite u64_idemp, (u64_small (size * 2)) by (unfold is_u64; lia).
      erewrite realloc_moved; [done|apply with_block_lookup|cbn; lia..]. }
  cbn beta. rewrite moved_with_block, resize_grow by lia. cbn [w_next with_block set_heap].
  erewrite bind_ret by (eapply load_length, moved_lookup).
  erewrite bind_ret by (eapply store_length, moved_lookup).
  rewrite with_block_moved by done.
  rewrite !(u64_small n), Hd by done.
  by replace (Z.to_nat (size * 2) - length data)%nat with (length data) by lia.
Qed.

(** ** The element bytes *)

Section elements.
Context (d : dyn) (Hok : dyn_ok d).

Lemma len_concat : len (concat (d_elems d)) = len (d_elems d) * d_esz d.
Proof using Hok.
  destruct Hok as [_ _ _ He _]. induction He as [|e es He Hes IH]; [done|].
  cbn [concat length]. rewrite length_app. lia.
Qed.

(** The elements before index [i] take [i * esz] bytes. *)
Lemma concat_split i e :
  d_elems d !! i = Some e →
  ∃ l r, concat (d_elems d) = l ++ e ++ r ∧ len l = Z.of_nat i * d_esz d ∧ len e = d_esz d.
Proof using Hok.
  intros Hi. destruct (list_elem_of_split_length _ _ _ Hi) as (l & r & E & ->).
  exists (concat l), (concat r). destruct Hok as [_ _ _ He _]. rewrite E in He |- *.
  apply Forall_app in He as [Hl [He _]%Forall_cons]. rewrite concat_app. split_and!; [done| |done].
  clear E Hi. induction Hl as [|x l Hx Hl IH]; [done|].
  cbn [concat length]. rewrite length_app. lia.
Qed.
End elements.

(** The object and the index range are small enough for every size the code
    computes. *)
Lemma dyn_ok_bounds d :
  dyn_ok d → is_u64 (len (d_elems d)) ∧ is_u64 (d_cap d) ∧ is_u64 (d_esz d) ∧
  is_u64 (d_cap d * d_esz d) ∧ len (d_elems d) + 1 < 2 ^ 64 ∧
  len (d_elems d) * d_esz d <= d_cap d * d_esz d ∧ d_cap d <= d_cap d * d_esz d.
Proof.
  intros [H1 H2 H3 _ H5]. unfold sizeof_DYNAMIC, is_u64 in *.
  assert (len (d_elems d) * d_esz d <= d_cap d * d_esz d) by nia.
  assert (d_cap d <= d_cap d * d_esz d) by nia.
  assert (d_esz d <= d_cap d * d_esz d) by nia. lia.
Qed.

(** ** Specifications of the operations *)

Lemma dynamic_spec w esz cap :
  let count := if cap =? 0 then DYNAMIC_DEFAULT_CAPACITY else cap in
  wf_world w → 0 < esz → 0 <= cap → sizeof_DYNAMIC + count * esz < 2 ^ 63 →
  sizeof_DYNAMIC + count * esz <= w_avail w →
  wp (dynamic esz cap) (λ p w',
    dyn_at w' p (Dyn [] count esz) ∧ p = Ptr (w_next w) 0 ∧ w_same ∅ w w' ∧
    w_out w' = w_out w ∧ w_avail w' = w_avail w - (sizeof_DYNAMIC + count * esz)) w.
Proof.
  intros count Hwf He Hc Hb Ha. unfold sizeof_DYNAMIC in *.
  assert (0 < count) by (unfold count, DYNAMIC_DEFAULT_CAPACITY; destruct (Z.eqb_spec cap 0); lia).
  unfold dynamic. rewrite (proj2 (Z.ltb_ge _ _)), (proj2 (Z.eqb_neq _ _)) by lia. cbn [orb].
  fold count. unfold sizeof_DYNAMIC. clearbody count.
  assert (0 < count * esz) by nia.
  rewrite (u64_small (count * esz)) by (unfold is_u64; lia).
  rewrite u64_small by (unfold is_u64; lia).
  remember (Z.to_nat (count * esz)) as k eqn:Hk.
  eapply wp_eq.
  { erewrite bind_ret by (apply malloc_ok; lia). cbn beta.
    replace (Z.to_nat (32 + count * esz)) with (32 + k)%nat by lia.
    change (replicate (32 + k) MUndef) with (replicate 32 MUndef ++ replicate k MUndef).
    do 4 (erewrite bind_ret by (eapply store_bytes_in; [apply lookup_insert_eq|cbn; lia|unfold splice; cbn; rewrite ?length_replicate; lia]);
          cbn [set_heap w_heap w_next w_avail w_out w_env]; rewrite ?insert_insert_eq;
          unfold splice; cbn -[Z.to_nat byte_of];
          try change (Z.to_nat (0 + 0)) with 0%nat; try change (Z.to_nat (0 + 8)) with 8%nat;
          try change (Z.to_nat (0 + 16)) with 16%nat; try change (Z.to_nat (0 + 24)) with 24%nat;
          cbn -[byte_of]).
    reflexivity. }
  cbn beta. split_and!; try done.
  - split; [split; cbn; unfold sizeof_DYNAMIC; try lia; done|].
    exists (w_next w), (replicate k MUndef). split; [done|]. split; [apply lookup_insert_eq|].
    cbn. rewrite length_replicate. lia.
  - apply (w_same_alloc _ _ _ Hwf).
Qed.

Lemma dynamic_size_spec w p d : dyn_at w p d → dynamic_size p w = Ret (len (d_elems d)) w.
Proof.
  intros (Hok & b & slack & -> & Hb & _). unfold dynamic_size.
  erewrite load_length by done. rewrite u64_small; [done|]. by apply dyn_ok_bounds.
Qed.

Lemma dynamic_capacity_spec w p d : dyn_at w p d → dynamic_capacity p w = Ret (d_cap d) w.
Proof.
  intros (Hok & b & slack & -> & Hb & _). unfold dynamic_capacity.
  erewrite load_capacity by done. rewrite u64_small; [done|]. by apply dyn_ok_bounds.
Qed.

(** The address [dynamic_get] computes for an element, and what is stored there. *)
Definition elem_ptr (p : ptr) (d : dyn) (i : Z) : ptr := padd p (sizeof_DYNAMIC + i * d_esz d).

Lemma dynamic_get_spec w p d i :
  dyn_at w p d → 0 <= i <= d_cap d → dynamic_get p i w = Ret (elem_ptr p d i) w.
Proof.
  intros (Hok & b & slack & -> & Hb & _) Hi. unfold dynamic_get, elem_ptr.
  destruct (dyn_ok_bounds _ Hok) as (_ & _ & He & Hc & _).
  erewrite bind_ret by (by eapply load_element_size). rewrite (u64_small (d_esz d)) by done.
  rewrite u64_small; [|unfold is_u64 in *; nia]. done.
Qed.

Lemma reads_elem w p d i e :
  dyn_at w p d → d_elems d !! i = Some e → reads w (elem_ptr p d (Z.of_nat i)) (d_esz d) e.
Proof.
  intros (Hok & b & slack & -> & Hb & Hl) Hi. unfold elem_ptr. cbn [padd].
  destruct (concat_split _ Hok _ _ Hi) as (l & r & E & Hll & Hle).
  pose proof (len_concat _ Hok) as Hc. rewrite E, !length_app in Hc.
  destruct (dyn_ok_bounds _ Hok) as (_ & _ & ? & _ & _ & _ & _).
  assert (Z.of_nat i < len (d_elems d)) by (apply lookup_lt_Some in Hi; lia).
  eapply reads_in; [done|unfold sizeof_DYNAMIC; lia..| |].
  - rewrite len_dyn_block, E, !length_app. unfold sizeof_DYNAMIC. lia.
  - rewrite E. unfold sizeof_DYNAMIC.
    replace (Z.to_nat (0 + (32 + Z.of_nat i * d_esz d))) with (32 + length l)%nat by lia.
    change (drop (32 + length l) (dyn_block (len (d_elems d)) (d_cap d) (d_cap d * d_esz d) (d_esz d)
              ((l ++ e ++ r) ++ slack)))
      with (drop (length l) ((l ++ e ++ r) ++ slack)).
    rewrite <- !(assoc_L (++)), drop_app_length.
    replace (Z.to_nat (d_esz d)) with (length e) by lia. by rewrite take_app_length.
Qed.

(** There is room for one more element, doubling the object when it is full. *)
Definition dyn_room (w : world) (d : dyn) : Prop :=
  len (d_elems d) = d_cap d →
  d_cap d * d_esz d <= w_avail w ∧ sizeof_DYNAMIC + 2 * (d_cap d * d_esz d) < 2 ^ 63.

Lemma d_push_ok w d e : dyn_ok d → len e = d_esz d → dyn_room w d → dyn_ok (d_push e d).
Proof.
  intros [H1 H2 H3 H4 H5] He Hr. unfold d_push.
  split; cbn; rewrite ?length_app; cbn [length].
  - done.
  - destruct (Z.eqb_spec (len (d_elems d)) (d_cap d)); lia.
  - destruct (Z.eqb_spec (len (d_elems d)) (d_cap d)); lia.
  - apply Forall_app; split; [done|by constructor].
  - destruct (Z.eqb_spec (len (d_elems d)) (d_cap d)) as [E|]; [|done].
    destruct (Hr E). lia.
Qed.

(** [dynamic_grow] makes room for one element after the existing ones. *)
Lemma dynamic_grow_spec w p d :
  wf_world w → dyn_at w p d → dyn_room w d →
  ∃ b slack w', dynamic_grow p w = Ret (Ptr b 0) w' ∧
    w_heap w' !! b = Some (dyn_block (len (d_elems d) + 1)
      (if len (d_elems d) =? d_cap d then 2 * d_cap d else d_cap d)
      ((if len (d_elems d) =? d_cap d then 2 * d_cap d else d_cap d) * d_esz d) (d_esz d)
      (concat (d_elems d) ++ slack)) ∧
    len slack = ((if len (d_elems d) =? d_cap d then 2 * d_cap d else d_cap d)
                 - len (d_elems d)) * d_esz d ∧
    w_same (blk p) w w' ∧ w_out w' = w_out w ∧
    (Ptr b 0 = p ∨ b = w_next w) ∧
    w_avail w' = w_avail w - (if len (d_elems d) =? d_cap d then d_cap d * d_esz d else 0) ∧
    (if len (d_elems d) =? d_cap d then ∀ c, c ∈ blk p → w_heap w' !! c = None else Ptr b 0 = p).
Proof.
  intros Hwf (Hok & b & slack & -> & Hb & Hl) Hr. destruct (dyn_ok_bounds _ Hok) as (?&?&?&?&?&?&?).
  pose proof (len_concat _ Hok) as Hc. pose proof (ok_len _ Hok). pose proof (ok_bytes _ Hok).
  unfold sizeof_DYNAMIC, is_u64 in *.
  destruct (Z.eqb_spec (len (d_elems d)) (d_cap d)) as [E|Hne].
  - destruct (Hr E). rewrite E in *.
    erewrite dynamic_grow_double; [|done|done|rewrite length_app; lia|done|lia|lia].
    eexists _, (slack ++ replicate (length (concat (d_elems d) ++ slack)) MUndef), _.
    split; [done|]. rewrite (u64_small (d_cap d + 1)), (u64_small (d_cap d * 2)) by (unfold is_u64; lia).
    rewrite moved_lookup. split_and!; try done.
    + f_equal. rewrite <- (assoc_L (++)). f_equal; lia.
    + rewrite !length_app, length_replicate. lia.
    + by apply w_same_realloc.
    + by right.
    + cbn -[dyn_block]. rewrite len_dyn_block, !length_app, length_replicate, ?length_app. lia.
    + intros c ->%elem_of_blk. cbn. rewrite lookup_insert_ne; [apply lookup_delete_eq|].
      intros <-. assert (w_next w < w_next w)%positive; [|lia]. apply Hwf. by eexists.
  - erewrite dynamic_grow_same by done.
    eexists _, slack, _. split; [done|]. rewrite (u64_small (len (d_elems d) + 1)) by (unfold is_u64; lia).
    rewrite with_block_lookup. split_and!; try done.
    + apply w_same_set_heap. by eexists.
    + by left.
    + cbn. lia.
Qed.

Lemma dynamic_insert_spec w p d src e :
  wf_world w → dyn_at w p d → dyn_room w d →
  reads w src (d_esz d) e → len e = d_esz d → blk src ## blk p →
  wp (dynamic_insert p src) (λ p' w',
    dyn_at w' p' (d_push e d) ∧ w_same (blk p) w w' ∧ w_out w' = w_out w ∧
    (p' = p ∨ blk p' = {[ w_next w ]}) ∧
    w_avail w' = w_avail w - (if len (d_elems d) =? d_cap d then d_cap d * d_esz d else 0) ∧
    (if len (d_elems d) =? d_cap d then ∀ c, c ∈ blk p → w_heap w' !! c = None else p' = p)) w.
Proof.
  intros Hwf Hd Hr Hsrc Hle Hdis.
  destruct (dynamic_grow_spec _ _ _ Hwf Hd Hr) as (b & slack & w1 & Hg & Hb & Hl & Hs & Ho & Hp & Ha & Hmv).
  pose proof Hd as (Hok & b0 & slack0 & -> & Hb0 & _). destruct (dyn_ok_bounds _ Hok) as (?&?&?&?&?&?&?).
  pose proof (len_concat _ Hok) as Hc. pose proof (d_push_ok _ _ _ Hok Hle Hr) as Hok'.
  set (cap' := if len (d_elems d) =? d_cap d then _ else _) in *.
  unfold is_u64 in *.
  unfold dynamic_insert.
  eapply wp_step; [by eapply load_length|]. eapply wp_step; [by eapply load_element_size|].
  eapply wp_step; [exact Hg|]. unfold memcpy. rewrite !(u64_small (d_esz d)) by done.
  rewrite (u64_small (len (d_elems d))), u64_small by (unfold is_u64; lia).
  apply wp_bind. eapply wp_step; [by eapply reads_same|].
  assert (len e <= len slack) as Hroom.
  { rewrite Hl, Hle. pose proof (ok_len _ Hok'). cbn in H6. rewrite length_app in H6. cbn in H6.
    fold cap' in H6. nia. }
  eapply wp_step.
  { eapply store_bytes_in; [done| |rewrite len_dyn_block, length_app]; unfold sizeof_DYNAMIC; cbn; lia. }
  apply wp_ret, wp_ret. cbn beta. split_and!.
  - split; [done|]. exists b, (drop (length e) slack). split; [done|]. split.
    + cbn [set_heap w_heap]. rewrite lookup_insert_eq. f_equal. cbn [d_push d_elems d_cap d_esz].
      rewrite length_app, concat_app. cbn [length concat]. fold cap'.
      replace (Z.to_nat _) with (32 + length (concat (d_elems d)))%nat
        by (unfold sizeof_DYNAMIC; cbn; lia).
      change (splice (dyn_block (len (d_elems d) + 1) cap' (cap' * d_esz d) (d_esz d)
                (concat (d_elems d) ++ slack)) (32 + length (concat (d_elems d))) e)
        with (dyn_block (len (d_elems d) + 1) cap' (cap' * d_esz d) (d_esz d)
                (splice (concat (d_elems d) ++ slack) (length (concat (d_elems d))) e)).
      rewrite splice_app_r by done. rewrite app_nil_r, <- (assoc_L (++)). f_equal. lia.
    + rewrite length_drop. cbn [d_push d_elems d_cap d_esz]. fold cap'. rewrite length_app. cbn. lia.
  - assert (w_same (blk (Ptr b0 0) ∪ {[b]}) w (set_heap (<[b:=splice (dyn_block (len (d_elems d) + 1)
      cap' (cap' * d_esz d) (d_esz d) (concat (d_elems d) ++ slack))
      (Z.to_nat (0 + sizeof_DYNAMIC + len (d_elems d) * d_esz d)) e]> (w_heap w1)) w1)) as Hs'.
    { eapply w_same_trans; [done|]. apply w_same_set_heap. by eexists. }
    destruct Hp as [[= ->]| ->].
    + eapply w_same_weaken; [done|]. set_solver.
    + eapply w_same_fresh; [done| |done]. done.
  - done.
  - destruct Hp as [[= ->]| ->]; [by left|by right].
  - done.
  - destruct (_ =? _); [|done]. intros c Hdead%Hmv. cbn. rewrite lookup_insert_ne; [done|]. intros ->. by rewrite Hb in Hdead.
Qed.

(** An insertion below the capacity does not move the array. *)
Lemma dynamic_insert_in_place w p d src p' w' :
  dyn_at w p d → len (d_elems d) ≠ d_cap d → dynamic_insert p src w = Ret p' w' → p' = p.
Proof.
  intros (Hok & b & slack & -> & Hb & Hl) Hne. destruct (dyn_ok_bounds _ Hok) as (?&?&?&?&?&?&?).
  unfold dynamic_insert. erewrite bind_ret by by eapply load_length. erewrite bind_ret by by eapply load_element_size.
  erewrite bind_ret by by eapply dynamic_grow_same. unfold mbind, M_bind.
  destruct (memcpy _ _ _ _); [by intros [= <- _]|done].
Qed.

Lemma dyn_at_same bs w w' p d : w_same bs w w' → blk p ## bs → dyn_at w p d → dyn_at w' p d.
Proof.
  intros Hs Hd (Hok & b & slack & -> & Hb & Hl). split; [done|]. exists b, slack.
  rewrite (same_heap _ _ _ Hs); [done| |by eexists]. cbn in Hd. set_solver.
Qed.

Lemma dynamic_free_spec w p d :
  dyn_at w p d →
  wp (dynamic_free p) (λ _ w', w_same (blk p) w w' ∧ w_out w' = w_out w ∧
    w_avail w' = w_avail w + (sizeof_DYNAMIC + d_cap d * d_esz d) ∧
    ∀ b, b ∈ blk p → w_heap w' !! b = None) w.
Proof.
  intros (Hok & b & slack & -> & Hb & Hl). pose proof (len_concat _ Hok).
  eapply wp_eq; [unfold dynamic_free, free; by rewrite Hb|]. cbn -[dyn_block]. split_and!.
  - split; cbn; try done.
    + intros c Hc _. rewrite lookup_delete_ne; [done|set_solver].
    + intros Hwf c. cbn. rewrite lookup_delete_is_Some. intros [_ ?]. by apply Hwf.
    + intros c _ Hd. apply lookup_delete_None. by right.
  - done.
  - rewrite len_dyn_block, length_app. unfold sizeof_DYNAMIC. lia.
  - intros c ->%elem_of_singleton. apply lookup_delete_eq.
Qed.

(** [dynamic_shrink_to_fit] leaves exactly the elements: an object of its own length,
    from which everything but the header and the elements is gone. *)
Lemma shrink_block w b d slack :
  wf_world w → dyn_ok d → 0 <= w_avail w →
  w_heap w !! b = Some (dyn_block (len (d_elems d)) (d_cap d) (d_cap d * d_esz d) (d_esz d)
                          (concat (d_elems d) ++ slack)) →
  len slack = (d_cap d - len (d_elems d)) * d_esz d → len (d_elems d) ≠ d_cap d →
  ∃ a, dynamic_shrink_to_fit (Ptr b 0) w =
    Ret (Ptr (w_next w) 0)
      (World (<[w_next w := dyn_block (len (d_elems d)) (len (d_elems d))
                 (len (d_elems d) * d_esz d) (d_esz d) (concat (d_elems d))]> (delete b (w_heap w)))
         (Pos.succ (w_next w)) a (w_out w) (w_env w)) ∧ 0 <= a.
Proof.
  intros Hwf Hok Ha Hb Hl Hne. destruct (dyn_ok_bounds _ Hok) as (?&?&?&?&?&?&?).
  pose proof (len_concat _ Hok) as Hc. pose proof (ok_bytes _ Hok). unfold sizeof_DYNAMIC, is_u64 in *.
  assert (0 <= len (d_elems d) * d_esz d) by nia.
  unfold dynamic_shrink_to_fit. hdr. hdr. rewrite !u64_small by done.
  rewrite (proj2 (Z.eqb_neq _ _)) by done. hdr. hdr. rewrite (u64_small (d_esz d)) by done. hdr. hdr.
  rewrite u64_idemp, (Z.mul_comm (d_esz d)), (u64_small (len (d_elems d) * d_esz d)) by (unfold is_u64; lia).
  erewrite realloc_moved; [|apply with_block_lookup|cbn; rewrite ?length_app; lia..].
  rewrite moved_with_block. cbn [with_block set_heap w_next]. eexists. split.
  - unfold moved. rewrite resize_shrink by (rewrite length_app; lia).
    rewrite take_app_le, take_ge by lia. reflexivity.
  - rewrite len_dyn_block, length_app. lia.
Qed.

Lemma w_same_delete_fresh w b vs a :
  wf_world w →
  w_same {[b]} w (World (<[w_next w := vs]> (delete b (w_heap w))) (Pos.succ (w_next w))
                    a (w_out w) (w_env w)).
Proof. apply w_same_realloc. Qed.

Lemma dynamic_shrink_spec w p d :
  wf_world w → dyn_at w p d → 0 <= w_avail w → d_elems d ≠ [] →
  wp (dynamic_shrink_to_fit p) (λ p' w',
    dyn_at w' p' (Dyn (d_elems d) (len (d_elems d)) (d_esz d)) ∧ w_same (blk p) w w' ∧
    w_out w' = w_out w) w.
Proof.
  intros Hwf (Hok & b & slack & -> & Hb & Hl) Ha Hn. destruct (dyn_ok_bounds _ Hok) as (?&?&?&?&?&?&?).
  assert (dyn_ok (Dyn (d_elems d) (len (d_elems d)) (d_esz d))) as Hok'.
  { destruct Hok. split; cbn; try done; try lia. destruct (d_elems d); [done|cbn; lia]. }
  destruct (decide (len (d_elems d) = d_cap d)) as [E|Hne].
  - eapply wp_eq.
    { unfold dynamic_shrink_to_fit. hdr. hdr. rewrite !u64_small by done.
      by rewrite E, Z.eqb_refl. }
    split_and!; [|done..]. split; [done|]. exists b, slack. by rewrite <- E in *.
  - destruct (shrink_block _ _ _ _ Hwf Hok Ha Hb Hl Hne) as (a & E & _).
    eapply wp_eq; [done|]. split_and!; [|by apply w_same_delete_fresh|done].
    split; [done|]. exists (w_next w), []. split; [done|]. rewrite app_nil_r. cbn.
    rewrite lookup_insert_eq. split; [done|lia].
Qed.

(** An object whose header promises more than its block holds: the next insertion
    writes past the end of the block. *)
Lemma dynamic_insert_overflow w b n cap size esz data src e :
  w_heap w !! b = Some (dyn_block n cap size esz data) → len data < n * esz + esz →
  is_u64 n → is_u64 cap → is_u64 esz → n ≠ cap → is_u64 (n * esz) →
  reads w src esz e → len e = esz → blk src ## {[b]} →
  dynamic_insert (Ptr b 0) src w = Stuck OutOfBounds.
Proof.
  intros Hb Hd Hn Hc He Hne Hce Hsrc Hle Hdis.
  unfold dynamic_insert. hdr. hdr.
  erewrite bind_ret by (eapply dynamic_grow_same; done).
  rewrite !(u64_small esz), (u64_small n), (u64_small (n * esz)) by done.
  unfold memcpy. apply bind_stuck. erewrite bind_ret.
  2:{ eapply (reads_same {[b]}); [|done|exact Hsrc]. apply w_same_set_heap. by eexists. }
  apply bind_stuck. unfold store_bytes. cbn [f_data padd]. rewrite with_block_lookup, len_dyn_block.
  rewrite (proj2 (Z.leb_gt (_ + len e) _)); [by rewrite andb_false_r|]. unfold sizeof_DYNAMIC. lia.
Qed.

Lemma dynamic_resize_shrink_spec w p d size :
  wf_world w → dyn_at w p d → 0 <= w_avail w → 0 < size < len (d_elems d) →
  wp (dynamic_resize p size) (λ p' w',
    dyn_at w' p' (Dyn (take (Z.to_nat size) (d_elems d)) size (d_esz d)) ∧
    w_same (blk p) w w' ∧ w_out w' = w_out w) w.
Proof.
  intros Hwf (Hok & b & slack & -> & Hb & Hl) Ha Hn. destruct (dyn_ok_bounds _ Hok) as (?&?&?&?&?&?&?).
  pose proof (len_concat _ Hok) as Hc. pose proof (ok_bytes _ Hok). pose proof (ok_len _ Hok).
  unfold sizeof_DYNAMIC, is_u64 in *.
  set (els := take (Z.to_nat size) (d_elems d)).
  assert (len els = size) as Els by (unfold els; rewrite length_take; lia).
  assert (concat (d_elems d) = concat els ++ concat (drop (Z.to_nat size) (d_elems d))) as Esplit.
  { unfold els. by rewrite <- concat_app, take_drop. }
  assert (size * d_esz d < d_cap d * d_esz d) by (destruct Hok; nia).
  assert (0 <= size * d_esz d) by nia.
  assert (dyn_ok (Dyn els size (d_esz d))) as Hok'.
  { destruct Hok. split; cbn; unfold sizeof_DYNAMIC; try done; try lia. by apply Forall_take. }
  pose proof (len_concat _ Hok') as Hc'. cbn in Hc'.
  eapply wp_eq.
  { unfold dynamic_resize. hdr. rewrite u64_small by done.
    rewrite (proj2 (Z.eqb_neq _ _)), (proj2 (Z.eqb_neq _ _)) by lia. hdr. hdr.
    rewrite u64_small, (proj2 (Z.ltb_ge _ _)) by (try unfold is_u64; lia). hdr. hdr.
    rewrite (u64_small (d_esz d)), (u64_small (size * d_esz d)) by (unfold is_u64; lia). hdr. hdr.
    rewrite (u64_small (size * d_esz d)) by (unfold is_u64; lia).
    erewrite realloc_moved; [|apply with_block_lookup|cbn; rewrite ?length_app; lia..].
    rewrite moved_with_block. cbn [with_block set_heap w_next].
    rewrite resize_shrink, Esplit, <- (assoc_L (++)), take_app_le, take_ge
      by (rewrite ?length_app; lia). reflexivity. }
  split_and!; [|by apply w_same_realloc|done].
  split; [done|]. exists (w_next w), []. split; [done|]. rewrite app_nil_r. cbn -[dyn_block].
  rewrite lookup_insert_eq, Els. split; [done|lia].
Qed.

(** The block [dynamic_resize] leaves when it enlarges: the capacity field says
    [size], the block holds the existing elements only. *)
Lemma resize_grow_block w b d slack size :
  wf_world w → dyn_ok d → 0 <= w_avail w → is_u64 size →
  w_heap w !! b = Some (dyn_block (len (d_elems d)) (d_cap d) (d_cap d * d_esz d) (d_esz d)
                          (concat (d_elems d) ++ slack)) →
  len slack = (d_cap d - len (d_elems d)) * d_esz d →
  len (d_elems d) < size → size ≠ d_cap d →
  ∃ a, dynamic_resize (Ptr b 0) size w =
    Ret (Ptr (w_next w) 0)
      (World (<[w_next w := dyn_block (len (d_elems d)) size
                 (len (d_elems d) * d_esz d) (d_esz d) (concat (d_elems d))]> (delete b (w_heap w)))
         (Pos.succ (w_next w)) a (w_out w) (w_env w)).
Proof.
  intros Hwf Hok Ha Hs Hb Hl Hlt Hne. destruct (dyn_ok_bounds _ Hok) as (?&?&?&?&?&?&?).
  pose proof (len_concat _ Hok) as Hc. pose proof (ok_bytes _ Hok). unfold sizeof_DYNAMIC, is_u64 in *.
  assert (0 <= len (d_elems d) * d_esz d) by nia. eexists.
  unfold dynamic_resize. hdr. rewrite u64_small by done.
  rewrite (proj2 (Z.eqb_neq _ _)), (proj2 (Z.eqb_neq _ _)) by lia. hdr. hdr.
  rewrite u64_small, (proj2 (Z.ltb_lt _ _)) by (try unfold is_u64; lia). hdr. hdr.
  rewrite (u64_small (d_esz d)), (u64_small (len (d_elems d) * d_esz d)) by (unfold is_u64; lia). hdr. hdr.
  rewrite (u64_small (len (d_elems d) * d_esz d)) by (unfold is_u64; lia).
  erewrite realloc_moved; [|apply with_block_lookup|cbn; rewrite ?length_app; lia..].
  rewrite moved_with_block. cbn [with_block set_heap w_next]. unfold moved.
  rewrite resize_shrink, take_app_le, take_ge by (rewrite ?length_app; lia). reflexivity.
Qed.

(** ** Sequences of insertions *)

(** Insert the element each source points to, in order. *)
Definition insert_all (srcs : list ptr) (p : ptr) : M ptr :=
  mfold srcs (λ src p, dynamic_insert p src) p.

(** Each source holds its element, in a block that exists. *)
Definition sources (w : world) (esz : Z) (srcs : list ptr) (es : list (list mval)) : Prop :=
  Forall2 (λ s e, reads w s esz e ∧ len e = esz ∧ ∀ b, b ∈ blk s → is_Some (w_heap w !! b)) srcs es.

(** Inserting into an object that has, or can grow to, the room it needs. The budget
    pays for every doubling up to twice the final length. *)
Lemma insert_all_spec w p d srcs es :
  wf_world w → dyn_at w p d → sources w (d_esz d) srcs es → (∀ s, s ∈ srcs → blk s ## blk p) →
  let n := Z.max (d_cap d) (len (d_elems d) + len srcs) in
  sizeof_DYNAMIC + 2 * (n * d_esz d) < 2 ^ 63 →
  2 * (n * d_esz d) <= w_avail w + d_cap d * d_esz d →
  wp (insert_all srcs p) (λ p' w',
    ∃ cap, dyn_at w' p' (Dyn (d_elems d ++ es) cap (d_esz d)) ∧ w_same (blk p) w w' ∧
      w_out w' = w_out w) w.
Proof.
  intros Hwf Hd Hsrc Hdis n Hb Ha. unfold insert_all.
  pose proof Hd as (Hok & _).
  assert (d_cap d <= n) as Hn1 by (unfold n; lia).
  assert (len (d_elems d) + len srcs <= n) as Hn2 by (unfold n; lia). clearbody n.
  eapply wp_mono; [apply (wp_mfold srcs (λ src p, dynamic_insert p src) p (λ done_ p' w',
    ∃ cap, dyn_at w' p' (Dyn (d_elems d ++ take (length done_) es) cap (d_esz d)) ∧
      (cap = d_cap d ∨ cap < 2 * (len (d_elems d) + len done_)) ∧
      w_avail w' = w_avail w + d_cap d * d_esz d - cap * d_esz d ∧
      w_same (blk p) w w' ∧ w_out w' = w_out w ∧ (p' = p ∨ ∀ b, b ∈ blk p' → (w_next w ≤ b)%positive)))|].
  - exists (d_cap d). rewrite take_0, app_nil_r. destruct d; cbn in *. split_and!; try done; [by left|lia|by left].
  - intros done_ x todo p' w' Hl (cap & Hd' & Hcap & Hav & Hs & Ho & Hp).
    pose proof (same_wf _ _ _ Hs Hwf) as Hwf'.
    subst srcs. apply Forall2_app_inv_l in Hsrc as (es1 & es2' & Hs1 & Hs2 & ->).
    inv Hs2. destruct H1 as (Hr & Hle & Hex). rename y into e, l' into es2.
    pose proof (Forall2_length _ _ _ Hs1) as Hlen. rewrite take_app_length' in Hd' by done.
    pose proof Hd' as (Hok' & _). pose proof (ok_len _ Hok') as Hcl. cbn in Hcl.
    pose proof (ok_esz _ Hok) as Hez. rewrite !length_app in *. cbn [length] in *.
    assert (blk x ## blk p') as Hxp.
    { destruct Hp as [->|Hp]; [apply Hdis; set_solver|]. intros b Hbx Hbp.
      apply Hp in Hbp. apply Hex, Hwf in Hbx. lia. }
    eapply wp_mono; [eapply dynamic_insert_spec; [done|exact Hd'| | |done|done]|].
    + intros E. cbn in *. rewrite length_app in E.
      assert (cap * d_esz d <= n * d_esz d) by (apply Z.mul_le_mono_nonneg_r; lia).
      lia.
    + eapply reads_same; [done| |done]. apply Hdis. set_solver.
    + cbn. intros p'' w'' (Hd'' & Hs'' & Ho'' & Hp'' & Ha'' & _).
      unfold d_push in Hd''. cbn [d_elems d_cap d_esz] in Hd''.
      rewrite <- (assoc_L (++)) in Hd''. rewrite length_app in *. cbn [length].
      rewrite (take_app_add' es1 _ _ 1) by done. cbn [take]. rewrite take_0.
      eexists. split; [exact Hd''|].
      split; [destruct (Z.eqb_spec (Z.of_nat (length (d_elems d) + length es1)) cap); lia|].
      split; [destruct (Z.eqb_spec (Z.of_nat (length (d_elems d) + length es1)) cap); lia|].
      split_and!.
      * destruct Hp as [->|Hp]; [eapply w_same_weaken; [by eapply w_same_trans|set_solver]|].
        pose proof Hd' as (_ & b' & _ & -> & _). cbn [blk] in *.
        apply (w_same_fresh _ b'); [done|set_solver|by eapply w_same_trans].
      * congruence.
      * destruct Hp'' as [->|Hp'']; [done|]. right. rewrite Hp''.
        intros b ->%elem_of_singleton. by apply (same_next _ _ _ Hs).
  - cbn. intros p' w' (cap & Hd' & _ & _ & Hs & Ho & _). exists cap.
    rewrite take_ge in Hd'; [done|]. by rewrite (Forall2_length _ _ _ Hsrc).
Qed.
