(* ===== verification/DynamicSpec.v ===== *)
(** * DynamicSpec: what the growable array promises, and where the code breaks it

    The first theorem is the contract of [src/lib/dynamic.c] for its clients: creation
    followed by insertions is a list.  The others are the operations whose result no
    longer satisfies the representation invariant. *)

From S2P Require Import Prelude Mem Logic CStr Printf Dynamic.
Local Open Scope Z_scope.

Lemma elem_blocks w p d : dyn_at w p d → ∃ b, blk p = {[b]} ∧ is_Some (w_heap w !! b).
Proof. intros (_ & b & slack & -> & Hb & _). exists b. split; [done|by eexists]. Qed.

(** C4. A dynamic array created by [dynamic] and filled by [dynamic_insert] is the list
    of the inserted elements: with enough memory the run never goes wrong, the length is
    the number of insertions, [dynamic_get] of each index yields an address that holds
    exactly the bytes inserted there, and nothing that existed before is changed. *)
Theorem dynamic_refines_list w esz cap0 srcs es :
  let count := if cap0 =? 0 then DYNAMIC_DEFAULT_CAPACITY else cap0 in
  let n := Z.max count (len srcs) in
  wf_world w → 0 < esz → 0 <= cap0 → sources w esz srcs es →
  sizeof_DYNAMIC + 2 * (n * esz) < 2 ^ 63 →
  sizeof_DYNAMIC + 2 * (n * esz) <= w_avail w →
  wp (p ← dynamic esz cap0; insert_all srcs p) (λ p w',
    dynamic_size p w' = Ret (len es) w' ∧
    (∀ i e, es !! i = Some e → ∃ q,
       dynamic_get p (Z.of_nat i) w' = Ret q w' ∧ reads w' q esz e) ∧
    w_same ∅ w w' ∧ w_out w' = w_out w) w.
Proof.
  intros count n Hwf He Hc Hsrc Hb Ha.
  assert (0 < count) by (unfold count, DYNAMIC_DEFAULT_CAPACITY; destruct (Z.eqb_spec cap0 0); lia).
  assert (count * esz <= n * esz) by (apply Z.mul_le_mono_nonneg_r; lia).
  assert (0 < count * esz) by nia. unfold sizeof_DYNAMIC in *.
  assert (Z.max count (Z.of_nat 0 + len srcs) = n) as Hn by done.
  apply wp_bind. eapply wp_mono; [apply (dynamic_spec w esz cap0); try done; unfold sizeof_DYNAMIC; fold count; lia|].
  fold count. intros p w1 (Hd & -> & Hs & Ho & Hav). unfold sizeof_DYNAMIC in *.
  pose proof (same_wf _ _ _ Hs Hwf) as Hwf1.
  assert (∀ s e b, (reads w s esz e ∧ len e = esz ∧ ∀ b, b ∈ blk s → is_Some (w_heap w !! b)) →
            b ∈ blk s → b ≠ w_next w) as Hold.
  { intros s e b (_ & _ & Hx) Hbs ->. apply Hx, Hwf in Hbs. lia. }
  eapply wp_mono; [eapply (insert_all_spec w1 (Ptr (w_next w) 0) (Dyn [] count esz) srcs es); cbn; try done|].
  - eapply Forall2_impl; [exact Hsrc|]. cbn. intros s e (Hr & Hl & Hx). split_and!; [|done|].
    + by eapply reads_same; [| |done].
    + intros b Hbs. rewrite (same_heap _ _ _ Hs); [by apply Hx|set_solver|by apply Hx].
  - intros s (i & Hi)%list_elem_of_lookup.
    destruct (Forall2_lookup_l _ _ _ _ _ Hsrc Hi) as (e & _ & Hse).
    intros b Hbs ->%elem_of_singleton. by eapply Hold.
  - rewrite Hn. lia.
  - cbn. intros p w' (cap & Hd' & Hs' & Ho'). split_and!; [by apply dynamic_size_spec in Hd'|..].
    + intros i e Hi. pose proof Hd' as (Hok & _). pose proof (ok_len _ Hok) as Hl. cbn in Hl.
      apply lookup_lt_Some in Hi as Hlt. eexists. split.
      * eapply dynamic_get_spec; [done|cbn; lia].
      * by eapply (reads_elem _ _ (Dyn es cap esz)).
    + eapply w_same_fresh; [done| |by eapply w_same_trans]. done.
    + congruence.
Qed.

(** Two elements of four bytes in an array created with room for one: the second
    insertion doubles the object. *)
Definition demo_env : kenv := Kenv (λ _, None) (Some 80) true (λ _ _, 0).
Definition demo_world : world :=
  World {[ 1%positive := MByte <$> [1; 2; 3; 4]; 2%positive := MByte <$> [5; 6; 7; 8] ]} 3 4096 [] demo_env.

Lemma demo_wf : wf_world demo_world.
Proof.
  intros b. cbn. rewrite lookup_insert_is_Some, lookup_singleton_is_Some. lia.
Qed.

Lemma demo_sources : sources demo_world 4 [Ptr 1 0; Ptr 2 0] [MByte <$> [1; 2; 3; 4]; MByte <$> [5; 6; 7; 8]].
Proof.
  unfold sources. rewrite !Forall2_cons. split_and!; try done;
    intros b ->%elem_of_blk; by eexists.
Qed.

Lemma dynamic_refines_list_witness :
  wp (p ← dynamic 4 1; insert_all [Ptr 1 0; Ptr 2 0] p) (λ p w',
    dynamic_size p w' = Ret 2 w' ∧
    (∀ i e, [MByte <$> [1; 2; 3; 4]; MByte <$> [5; 6; 7; 8]] !! i = Some e → ∃ q,
       dynamic_get p (Z.of_nat i) w' = Ret q w' ∧ reads w' q 4 e) ∧
    w_same ∅ demo_world w' ∧ w_out w' = []) demo_world.
Proof.
  apply (dynamic_refines_list demo_world 4 1 [Ptr 1 0; Ptr 2 0]
           [MByte <$> [1; 2; 3; 4]; MByte <$> [5; 6; 7; 8]]); try done.
  - apply demo_wf.
  - apply demo_sources.
Defined.

(** When [malloc] fails, [dynamic] dereferences the null pointer it got. *)
Theorem dynamic_no_memory w esz cap0 :
  let count := if cap0 =? 0 then DYNAMIC_DEFAULT_CAPACITY else cap0 in
  0 < esz → w_avail w < u64 (sizeof_DYNAMIC + u64 (count * esz)) →
  dynamic esz cap0 w = Stuck NullDeref.
Proof.
  intros count He Ha. unfold dynamic.
  rewrite (proj2 (Z.ltb_ge _ _)), (proj2 (Z.eqb_neq _ _)) by lia. cbn [orb]. fold count.
  erewrite bind_ret by (by apply malloc_fail). done.
Qed.

Lemma dynamic_no_memory_witness : dynamic 256 0 (set_heap ∅ (World ∅ 1 8000 [] demo_env)) = Stuck NullDeref.
Proof. apply dynamic_no_memory; [lia|]. by vm_compute. Defined.

(** Enlarging an array with [dynamic_resize] breaks it: the new capacity is stored,
    the object is reallocated to the size of the existing elements, and the next
    [dynamic_insert] writes out of bounds. *)
Theorem dynamic_resize_enlarge_overflows w p d size src e :
  wf_world w → 0 <= w_avail w → dyn_at w p d → is_u64 size →
  len (d_elems d) < size → size ≠ d_cap d →
  reads w src (d_esz d) e → len e = d_esz d → (∀ b, b ∈ blk src → is_Some (w_heap w !! b)) →
  blk src ## blk p →
  (p' ← dynamic_resize p size; dynamic_insert p' src) w = Stuck OutOfBounds.
Proof.
  intros Hwf Ha (Hok & b & slack & -> & Hb & Hl) Hsz Hlt Hne Hr Hle Hex Hdis.
  destruct (resize_grow_block _ _ _ _ _ Hwf Hok Ha Hsz Hb Hl Hlt Hne) as (a & E).
  erewrite bind_ret by exact E. cbn beta. destruct (dyn_ok_bounds _ Hok) as (?&?&?&?&?&?&?).
  pose proof (len_concat _ Hok). pose proof (ok_esz _ Hok).
  eapply dynamic_insert_overflow; [apply lookup_insert_eq|lia|done..|lia|unfold is_u64 in *; lia| |done|].
  - eapply reads_same; [by apply w_same_realloc|done|done].
  - intros c Hc ->%elem_of_singleton. apply Hex, Hwf in Hc. lia.
Qed.

(** An array of capacity 2 holding one element, resized to 5. *)
Definition demo_dyn : dyn := Dyn [MByte <$> [1; 2; 3; 4]] 2 4.
Definition demo_dyn_world : world :=
  World {[ 1%positive := MByte <$> [5; 6; 7; 8];
           2%positive := dyn_block 1 2 8 4 ((MByte <$> [1; 2; 3; 4]) ++ replicate 4 MUndef) ]} 3 4096 [] demo_env.

Lemma demo_dyn_wf : wf_world demo_dyn_world.
Proof. intros b. cbn. rewrite lookup_insert_is_Some, lookup_singleton_is_Some. lia. Qed.

Lemma demo_dyn_at : dyn_at demo_dyn_world (Ptr 2 0) demo_dyn.
Proof.
  split; [split; try done; repeat constructor|]. by exists 2%positive, (replicate 4 MUndef).
Qed.

Lemma dynamic_resize_enlarge_overflows_witness :
  (p' ← dynamic_resize (Ptr 2 0) 5; dynamic_insert p' (Ptr 1 0)) demo_dyn_world = Stuck OutOfBounds.
Proof.
  apply (dynamic_resize_enlarge_overflows _ _ demo_dyn 5 (Ptr 1 0) (MByte <$> [5; 6; 7; 8])); try done.
  - apply demo_dyn_wf.
  - apply demo_dyn_at.
  - intros b ->%elem_of_blk. by eexists.
  - intros b ->%elem_of_blk. by intros [=]%elem_of_blk.
Defined.

(** [dynamic_shrink_to_fit] of an empty array leaves capacity 0, which doubling
    never raises: the next [dynamic_insert] writes out of bounds. *)
Theorem dynamic_shrink_empty_overflows w p d src e :
  wf_world w → 0 <= w_avail w → dyn_at w p d → d_elems d = [] →
  reads w src (d_esz d) e → len e = d_esz d → (∀ b, b ∈ blk src → is_Some (w_heap w !! b)) →
  blk src ## blk p →
  (p' ← dynamic_shrink_to_fit p; dynamic_insert p' src) w = Stuck OutOfBounds.
Proof.
  intros Hwf Ha (Hok & b & slack & -> & Hb & Hl) Hnil Hr Hle Hex Hdis.
  destruct (dyn_ok_bounds _ Hok) as (?&?&?&?&?&?&?). pose proof (ok_esz _ Hok). pose proof (ok_cap _ Hok).
  destruct (shrink_block _ _ _ _ Hwf Hok Ha Hb Hl) as (a & E & Ha').
  { rewrite Hnil. cbn. lia. }
  erewrite bind_ret by exact E. rewrite Hnil. cbn [length concat Z.of_nat Z.mul].
  set (w1 := World _ _ _ _ _). assert (wf_world w1) as Hwf1.
  { apply (same_wf {[b]} w); [by apply w_same_realloc|done]. }
  unfold dynamic_insert.
  erewrite bind_ret by (eapply load_length, lookup_insert_eq).
  erewrite bind_ret by (eapply load_element_size, lookup_insert_eq).
  erewrite bind_ret by (eapply (dynamic_grow_double w1); [done|apply lookup_insert_eq|done..]).
  rewrite (u64_small (d_esz d)) by done. unfold memcpy. apply bind_stuck. erewrite bind_ret.
  2:{ eapply (reads_same ({[b]} ∪ {[w_next w]})); [| |exact Hr].
      - eapply w_same_trans; [by apply w_same_realloc|]. by apply (w_same_realloc w1).
      - intros c Hc. rewrite elem_of_union, !elem_of_singleton. intros [->| ->].
        + by apply (Hdis b Hc), elem_of_blk.
        + apply Hex, Hwf in Hc. lia. }
  apply bind_stuck. unfold store_bytes. cbn [f_data padd length replicate].
  rewrite moved_lookup, len_dyn_block. cbn [length app Z.of_nat].
  rewrite (proj2 (Z.leb_gt (_ + len e) _)); [by rewrite andb_false_r|]. unfold sizeof_DYNAMIC.
  change (u64 (u64 (Z.of_nat 0) * d_esz d)) with (u64 0). change (u64 0) with 0. lia.
Qed.

Definition demo_empty_world : world :=
  World {[ 1%positive := MByte <$> [5; 6; 7; 8];
           2%positive := dyn_block 0 2 8 4 (replicate 8 MUndef) ]} 3 4096 [] demo_env.

Lemma dynamic_shrink_empty_overflows_witness :
  (p' ← dynamic_shrink_to_fit (Ptr 2 0); dynamic_insert p' (Ptr 1 0)) demo_empty_world = Stuck OutOfBounds.
Proof.
  apply (dynamic_shrink_empty_overflows _ _ (Dyn [] 2 4) (Ptr 1 0) (MByte <$> [5; 6; 7; 8])); try done.
  - intros b. cbn. rewrite lookup_insert_is_Some, lookup_singleton_is_Some. lia.
  - split; [split; try done; repeat constructor|]. by exists 2%positive, (replicate 8 MUndef).
  - intros b ->%elem_of_blk. by eexists.
  - intros b ->%elem_of_blk. by intros [=]%elem_of_blk.
Defined.

(** Shrinking works: [dynamic_resize] to a smaller nonzero size keeps the prefix, and
    [dynamic_shrink_to_fit] of a nonempty array keeps every element, with capacity equal
    to length. *)
Theorem dynamic_shrink_keeps w p d size :
  wf_world w → dyn_at w p d → 0 <= w_avail w → 0 < size < len (d_elems d) →
  wp (dynamic_resize p size) (λ p' w',
    dyn_at w' p' (Dyn (take (Z.to_nat size) (d_elems d)) size (d_esz d)) ∧ w_same (blk p) w w') w ∧
  wp (dynamic_shrink_to_fit p) (λ p' w',
    dyn_at w' p' (Dyn (d_elems d) (len (d_elems d)) (d_esz d)) ∧ w_same (blk p) w w') w.
Proof.
  intros Hwf Hd Ha Hs. split.
  - eapply wp_mono; [by apply dynamic_resize_shrink_spec|]. naive_solver.
  - eapply wp_mono; [apply dynamic_shrink_spec; try done|naive_solver].
    intros E. rewrite E in Hs. cbn in Hs. lia.
Qed.

Definition demo_two : dyn := Dyn [MByte <$> [1; 2]; MByte <$> [3; 4]] 4 2.
Definition demo_two_world : world :=
  World {[ 2%positive := dyn_block 2 4 8 2 ((MByte <$> [1; 2; 3; 4]) ++ replicate 4 MUndef) ]} 3 4096 [] demo_env.

Lemma demo_two_at : dyn_at demo_two_world (Ptr 2 0) demo_two.
Proof. split; [split; try done; repeat constructor|]. by exists 2%positive, (replicate 4 MUndef). Qed.

Lemma dynamic_shrink_keeps_witness :
  wp (dynamic_resize (Ptr 2 0) 1) (λ p' w',
    dyn_at w' p' (Dyn [MByte <$> [1; 2]] 1 2) ∧ w_same (blk (Ptr 2 0)) demo_two_world w') demo_two_world ∧
  wp (dynamic_shrink_to_fit (Ptr 2 0)) (λ p' w',
    dyn_at w' p' (Dyn (d_elems demo_two) 2 2) ∧ w_same (blk (Ptr 2 0)) demo_two_world w') demo_two_world.
Proof.
  apply (dynamic_shrink_keeps demo_two_world (Ptr 2 0) demo_two 1); try done.
  - intros b. cbn. rewrite lookup_singleton_is_Some. lia.
  - apply demo_two_at.
Defined.
