(* ===== verification/Utils.v ===== *)
(** * Utils: [src/lib/utils.c]

    [argv] is a pointer to an array of pointers to strings. *)

From S2P Require Import Prelude Mem Logic CStr Printf.
Local Open Scope Z_scope.

Definition max_ (x y : Z) : Z := if y <? x then x else y.
Definition min_ (x y : Z) : Z := if x <? y then x else y.

(** [argv[i]] *)
Definition arg (argv : ptr) (i : Z) : M ptr := load_ptr (padd argv (8 * i)).

Definition print_args (argc : Z) (argv : ptr) : M unit :=
  printf (str "argv[%d] = {") [AInt argc];;
  p ← arg argv 0;
  printf (34 :: str "%s" ++ [34]) [AStr p];;
  mfor (seqZ 1 (argc - 1)) (λ i,
    p ← arg argv i;
    printf (str "," ++ 34 :: str "%s" ++ [34]) [AStr p]);;
  printf (str "}
") [].

(** The loop of [count_initial_flags] from index [i] on, [fuel] indices to go. *)
Fixpoint count_flags_loop (fuel : nat) (argv : ptr) (i count : Z) : M Z :=
  match fuel with
  | O => mret count
  | S fuel =>
    p ← arg argv i;
    c ← load_u8 p;
    if negb (c =? 45) then mret count
    else count_flags_loop fuel argv (i + 1) (count + 1)
  end.

Definition count_initial_flags (argc : Z) (argv : ptr) : M Z :=
  if argc <=? 1 then mret 0
  else count_flags_loop (Z.to_nat (argc - 1)) argv 1 0.

(** [s1[len - 1]] is read before [len != 0] is tested; the index wraps to -1. *)
Definition concat_path (s1 s2 buf : ptr) : M ptr :=
  n1 ← strlen s1;
  n2 ← strlen s2;
  result ← (match buf with
            | Null => malloc (u64 (n1 + n2 + 2))
            | Ptr _ _ => realloc buf (u64 (n1 + n2 + 2))
            end);
  strcpy result s1;;
  c1 ← load_u8 (padd s1 (i64 (u64 (n1 - 1))));
  (if negb (c1 =? 47) then
     c2 ← load_u8 s2;
     if negb (c2 =? 47) && negb (n1 =? 0)
     then slash ← literal (str "/"); strcat result slash;; drop_block slash
     else mret tt
   else mret tt);;
  strcat result s2.

(** ** Functional specification *)

(** The two parts with a slash between them, unless one of them has it at the seam. *)
Definition path_join (a b : list Z) : list Z :=
  a ++ (if decide (a = [] ∨ last a = Some 47 ∨ head b = Some 47) then [] else [47]) ++ b.

(** [argv] holds [argc] pointers to strings. *)
Definition argv_at (w : world) (argv : ptr) (args : list (list Z)) : Prop :=
  ∀ i a, args !! i = Some a → ∃ p,
    reads w (padd argv (8 * Z.of_nat i)) 8 (encptr p) ∧ cstr_at w p a.

Definition is_flag (a : list Z) : bool := match a with c :: _ => c =? 45 | [] => false end.

(** How many elements at the front satisfy a test. *)
Fixpoint prefix_len {A} (f : A → bool) (l : list A) : Z :=
  match l with
  | [] => 0
  | x :: l => if f x then 1 + prefix_len f l else 0
  end.

Lemma arg_eq w argv args i a :
  argv_at w argv args → args !! i = Some a →
  ∃ p, arg argv (Z.of_nat i) w = Ret p w ∧ cstr_at w p a.
Proof.
  intros H Hi. destruct (H _ _ Hi) as (p & Hr & Hc). exists p. split; [|done].
  by apply load_ptr_eq.
Qed.

Lemma count_flags_loop_eq w argv args todo i count :
  argv_at w argv args → drop i args = todo →
  count_flags_loop (length todo) argv (Z.of_nat i) count w =
  Ret (count + prefix_len is_flag todo) w.
Proof.
  intros Ha. revert i count. induction todo as [|a todo IH]; intros i count Hi.
  { cbn. repeat f_equal. lia. }
  assert (args !! i = Some a) as Hl.
  { rewrite <- (Nat.add_0_r i), <- lookup_drop, Hi. done. }
  assert (drop (S i) args = todo) as Hi'.
  { by rewrite <- Nat.add_1_r, <- drop_drop, Hi. }
  destruct (arg_eq _ _ _ _ _ Ha Hl) as (p & Ep & Hc).
  cbn [length count_flags_loop]. rewrite (bind_ret _ _ _ _ _ Ep).
  destruct (cstr_at_uncons _ _ _ Hc) as [Ec _]. rewrite (bind_ret _ _ _ _ _ Ec).
  apply cstr_at_is_cstr in Hc.
  assert ((default 0 (head a) =? 45) = is_flag a) as -> by (by destruct a).
  cbn [prefix_len]. destruct (is_flag a); cbn [negb].
  - replace (Z.of_nat i + 1) with (Z.of_nat (S i)) by lia. rewrite IH by done. f_equal. lia.
  - cbn. repeat f_equal. lia.
Qed.

Lemma cstr_at_last w p s c :
  cstr_at w p s → last s = Some c → load_u8 (padd p (len s - 1)) w = Ret c w.
Proof.
  intros (b & o & bs & -> & Ho & Hb & Hs & rest & Hr) Hl.
  destruct s as [|c' s' _] using rev_ind; [done|]. rewrite last_snoc in Hl. injection Hl as [= ->].
  apply load_u8_eq. cbn [padd]. rewrite length_app. cbn [length].
  assert (length (drop (Z.to_nat o) bs) = length bs - Z.to_nat o)%nat as El by apply length_drop.
  rewrite Hr, length_app, length_fmap, length_app in El. cbn in El.
  eapply reads_in; [done|lia..|].
  replace (Z.to_nat (o + (Z.of_nat (length s' + 1) - 1))) with (Z.to_nat o + length s')%nat by lia.
  rewrite <- drop_drop, Hr, fmap_app, <- (assoc_L (++)). rewrite drop_app_length' by (by rewrite length_fmap).
  done.
Qed.

(** ** The buffer [concat_path] writes to *)

(** [buf] is null or the start of a block. *)
Definition is_buf (w : world) (buf : ptr) : Prop :=
  match buf with Null => True | Ptr b o => o = 0 ∧ is_Some (w_heap w !! b) end.

(** The bytes that reallocating [buf] gives back to the budget. *)
Definition buf_len (w : world) (buf : ptr) : Z :=
  match buf with Null => 0 | Ptr b _ => default 0 ((λ bs, len bs) <$> w_heap w !! b) end.

Lemma alloc_buf w buf n :
  wf_world w → is_buf w buf → 0 < n <= w_avail w + buf_len w buf →
  ∃ vs w1, match buf with Null => malloc n | Ptr _ _ => realloc buf n end w = Ret (Ptr (w_next w) 0) w1 ∧
    w_heap w1 !! w_next w = Some vs ∧ len vs = n ∧ w_same (blk buf) w w1 ∧ w_out w1 = w_out w ∧
    w_avail w1 = w_avail w + buf_len w buf - n ∧ w_next w1 = Pos.succ (w_next w).
Proof.
  intros Hwf Hb Hn. destruct buf as [|b o]; cbn [buf_len] in Hn |- *.
  - eexists _, _. split; [apply malloc_ok; lia|]. cbn. rewrite lookup_insert_eq. split_and!; try done.
    + rewrite length_replicate. lia.
    + by apply w_same_alloc.
    + lia.
  - destruct Hb as (-> & bs & Hb). rewrite Hb in *. cbn [fmap option_fmap option_map default] in *.
    eexists _, _. split; [apply (realloc_ok _ _ bs); [done|cbn in *; lia]|]. cbn.
    rewrite lookup_insert_eq. split_and!; try done.
    + unfold resize_bytes. rewrite length_app, length_take, length_replicate. lia.
    + by apply w_same_realloc.
Qed.

(** Whatever [s1] is, the byte before its end can be loaded when [s1] is not empty or
    over-reads are tolerated, and it is the last byte when there is one. *)
Lemma load_before_end w s1 a :
  cstr_at w s1 a → len a < 2 ^ 63 → a ≠ [] ∨ k_strict (w_env w) = false →
  ∃ c, load_u8 (padd s1 (i64 (u64 (len a - 1)))) w = Ret c w ∧
    (a ≠ [] → (c =? 47) = bool_decide (last a = Some 47)).
Proof.
  intros Ha Hl Hor. destruct (decide (a = [])) as [->|Hne].
  - destruct Hor as [|Hlen]; [done|]. destruct Ha as (b & o & bs & -> & Ho & Hb & _).
    change (i64 (u64 (len [] - 1))) with (-1).
    destruct (load_u8_lenient w b (o + -1) bs Hb Hlen) as [c Hc]. by exists c.
  - destruct (last a) as [c|] eqn:El; [|by apply last_None in El].
    assert (i64 (u64 (len a - 1)) = len a - 1) as ->.
    { assert (0 < len a) by (destruct a; [done|cbn; lia]).
      rewrite u64_small by (unfold is_u64; lia). apply wraps_small; lia. }
    exists c. split; [by apply (cstr_at_last _ _ a)|]. intros _. rewrite bool_decide_decide.
    destruct (Z.eqb_spec c 47) as [->|]; case_decide; congruence.
Qed.
