(* ===== verification/UtilsSpec.v ===== *)
(** * UtilsSpec: what [count_initial_flags] and [concat_path] compute *)

From S2P Require Import Prelude Mem Logic CStr Printf Utils.
Local Open Scope Z_scope.

Lemma count_initial_flags_ok w argv args :
  argv_at w argv args →
  count_initial_flags (len args) argv w = Ret (prefix_len is_flag (tail args)) w.
Proof.
  intros Ha. unfold count_initial_flags. destruct args as [|a0 args]; [done|].
  cbn [tail]. destruct (Z.leb_spec (len (a0 :: args)) 1) as [Hl|Hl].
  - destruct args; [done|cbn in Hl; lia].
  - replace (Z.to_nat (len (a0 :: args) - 1)) with (length args) by (cbn; lia).
    exact (count_flags_loop_eq w argv (a0 :: args) args 1 0 Ha eq_refl).
Qed.

(** [count_initial_flags] counts the arguments after the program name that start with a
    dash, up to the first that does not. *)
Theorem count_initial_flags_spec w argv args :
  argv_at w argv args →
  count_initial_flags (len args) argv w = Ret (prefix_len is_flag (tail args)) w.
Proof. apply count_initial_flags_ok. Qed.

(** Storing the strings of an argument vector in a world, for the witnesses: block 1 is
    the array, block [i + 2] the [i]-th string. *)
Definition argv_world (e : kenv) (args : list (list Z)) : world :=
  World (<[1%positive := concat ((λ i, encptr (Ptr (Pos.of_nat (i + 2)) 0)) <$> seq 0 (length args))]>
           (list_to_map (imap (λ i a, (Pos.of_nat (i + 2), (MByte <$> a) ++ [MByte 0])) args)))
    (Pos.of_nat (length args + 2)) 65536 [] e.

Lemma argv_world_wf e args : wf_world (argv_world e args).
Proof.
  intros b. cbn. rewrite lookup_insert_is_Some. intros [<-|[_ Hb]]; [lia|].
  destruct (decide (b ∈ (imap (λ i a, (Pos.of_nat (i + 2), (MByte <$> a) ++ [MByte 0])) args).*1)) as [Hin|Hout].
  - apply list_elem_of_fmap in Hin as ([k v] & -> & Hin). apply list_elem_of_lookup in Hin as [i Hi].
    rewrite list_lookup_imap in Hi. destruct (args !! i) as [a|] eqn:Ha; [|done]. injection Hi as <- _.
    apply lookup_lt_Some in Ha. cbn. lia.
  - apply not_elem_of_list_to_map_1 in Hout. rewrite Hout in Hb. by destruct Hb.
Qed.

Definition lenient_env : kenv := Kenv (λ _, None) (Some 80) false (λ _ _, 7).

(** [ls -a -r x -l] *)
Lemma count_initial_flags_spec_witness :
  let args := [str "ls"; str "-a"; str "-r"; str "x"; str "-l"] in
  count_initial_flags 5 (Ptr 1 0) (argv_world lenient_env args) = Ret 2 (argv_world lenient_env args).
Proof.
  apply (count_initial_flags_spec _ _ [str "ls"; str "-a"; str "-r"; str "x"; str "-l"]).
  intros i a Hi. exists (Ptr (Pos.of_nat (i + 2)) 0). do 5 (destruct i as [|i];
    [injection Hi as <-; split; [by vm_compute|];
     eexists _, _, _; split_and!; [done|done|reflexivity|by repeat constructor|by eexists]|]).
  done.
Defined.

(** The tail of [concat_path], from the moment [result] holds [s1]. *)
Lemma concat_tail w r s1 s2 a b vs rest :
  wf_world w → w_heap w !! r = Some vs → vs = (MByte <$> a) ++ MByte 0 :: rest →
  (length b < length rest)%nat → cstr_at w s1 a → cstr_at w s2 b →
  r ∉ blk s1 ∪ blk s2 → len a < 2 ^ 63 → a ≠ [] ∨ k_strict (w_env w) = false →
  wp (c1 ← load_u8 (padd s1 (i64 (u64 (len a - 1))));
      (if negb (c1 =? 47) then
         c2 ← load_u8 s2;
         if negb (c2 =? 47) && negb (len a =? 0)
         then slash ← literal (str "/"); strcat (Ptr r 0) slash;; drop_block slash
         else mret tt
       else mret tt);;
      strcat (Ptr r 0) s2)
    (λ p w', p = Ptr r 0 ∧ cstr_at w' p (path_join a b) ∧ w_same {[r]} w w' ∧ w_out w' = w_out w ∧
       w_avail w' = w_avail w ∧ ∃ vs', w_heap w' !! r = Some vs' ∧ length vs' = length vs) w.
Proof.
  intros Hwf Hr Hvs Hrest Ha Hb Hd Hl Hor.
  destruct (load_before_end _ _ _ Ha Hl Hor) as (c1 & Ec & Hc1).
  eapply wp_step; [exact Ec|]. cbn beta.
  pose proof (cstr_at_is_cstr _ _ _ Ha) as Hsa. pose proof (cstr_at_is_cstr _ _ _ Hb) as Hsb.
  (* without the slash: one [strcat] *)
  assert (path_join a b = a ++ b →
    wp (strcat (Ptr r 0) s2) (λ p w', p = Ptr r 0 ∧ cstr_at w' p (path_join a b) ∧
      w_same {[r]} w w' ∧ w_out w' = w_out w ∧ w_avail w' = w_avail w ∧
      ∃ vs', w_heap w' !! r = Some vs' ∧ length vs' = length vs) w) as Hplain.
  { intros ->. eapply wp_eq; [eapply strcat_run; try done; lia|]. split_and!; try done.
    - eexists _, _, _. split_and!; [done|done|apply lookup_insert_eq|by apply Forall_app|by eexists].
    - apply w_same_set_heap. by eexists.
    - eexists. split; [apply lookup_insert_eq|].
      rewrite Hvs, !length_app, !length_fmap, length_app. cbn. rewrite length_drop. lia. }
  assert (∀ c2, load_u8 s2 w = Ret c2 w → (c2 =? 47) = bool_decide (head b = Some 47)) as Hc2.
  { intros c2 E. destruct (cstr_at_uncons _ _ _ Hb) as [E' _]. rewrite E' in E. injection E as <-.
    destruct b as [|c b]; [done|]. destruct (bool_decide_reflect (head (c :: b) = Some 47)) as [[= ->]|Hn].
    - done.
    - apply Z.eqb_neq. intros Hc. apply Hn. by rewrite <- Hc. }
  destruct (c1 =? 47) eqn:E1; cbn [negb].
  { apply Hplain. unfold path_join. rewrite decide_True; [done|].
    destruct (decide (a = [])); [by left|]. right; left.
    apply (bool_decide_eq_true_1 _). symmetry. by apply Hc1. }
  destruct (cstr_at_uncons _ _ _ Hb) as [E2 _]. apply wp_bind. eapply wp_step; [exact E2|].
  cbn beta. rewrite (Hc2 _ E2).
  destruct (decide (head b = Some 47 ∨ a = [])) as [Hno|Hyes].
  { assert (negb (bool_decide (head b = Some 47)) && negb (len a =? 0) = false) as ->.
    { destruct Hno as [->| ->]; [done|]. by rewrite andb_false_r. }
    apply wp_ret, Hplain. unfold path_join. rewrite decide_True; [done|]. tauto. }
  assert (negb (bool_decide (head b = Some 47)) && negb (len a =? 0) = true) as ->.
  { rewrite bool_decide_eq_false_2 by tauto. destruct a; [tauto|done]. }
  (* with the slash: two *)
  destruct rest as [|x rest]; [cbn in Hrest; lia|]. cbn [length] in Hrest.
  assert (r ≠ w_next w) as Hrn by (intros ->; by rewrite wf_next in Hr).
  eapply wp_step; [done|]. cbn beta. set (w1 := World _ _ _ _ _).
  assert (w_heap w1 !! r = Some ((MByte <$> a) ++ MByte 0 :: x :: rest)) as Hr1.
  { unfold w1. cbn. by rewrite lookup_insert_ne, Hr, Hvs by done. }
  eapply wp_step.
  { eapply (strcat_run w1 r _ a (Ptr (w_next w) 0) (str "/") (x :: rest)); [done|done|done|cbn; lia|].
    eexists _, _, _. split_and!; [done|done|apply lookup_insert_eq|by repeat constructor|by eexists]. }
  cbn beta. eapply wp_eq; [done|].
  match goal with |- wp _ _ ?w' => set (w2 := w') end.
  assert (w_heap w2 = <[r := (MByte <$> a ++ str "/") ++ MByte 0 :: rest]> (w_heap w)) as Hw2.
  { unfold w2, w1. cbn. apply map_eq. intros k. destruct (decide (k = w_next w)) as [->|].
    - by rewrite lookup_delete_eq, lookup_insert_ne, wf_next.
    - rewrite lookup_delete_ne by done. destruct (decide (k = r)) as [->|];
        [by rewrite !lookup_insert_eq|by rewrite !lookup_insert_ne]. }
  assert (w_same {[r]} w w2) as Hs2.
  { split; [|done|cbn; lia| |].
    - intros k Hk _. rewrite Hw2, lookup_insert_ne; [done|set_solver].
    - intros _ k. rewrite Hw2, lookup_insert_is_Some. cbn.
      intros [<-|[_ Hk%Hwf]]; [|lia]. specialize (Hwf r). rewrite Hr in Hwf.
      specialize (Hwf ltac:(by eexists)). lia.
    - intros k _ Hk. rewrite Hw2, lookup_insert_ne; [done|]. intros <-. by rewrite Hr in Hk. }
  eapply wp_eq.
  { eapply (strcat_run w2 r _ (a ++ str "/") s2 b rest); [by rewrite Hw2, lookup_insert_eq|done| |lia|].
    - apply Forall_app. split; [done|by repeat constructor].
    - eapply cstr_same; [done|set_solver|done]. }
  assert (path_join a b = (a ++ str "/") ++ b) as Hj.
  { unfold path_join. rewrite decide_False; [by rewrite <- (assoc_L (++))|].
    intros [?|[Hlast|?]]; [tauto| |tauto]. rewrite Hlast, bool_decide_eq_true_2 in Hc1 by done.
    discriminate Hc1. tauto. }
  rewrite Hj. split_and!; try done.
  - eexists _, _, _. split_and!; [done|done|apply lookup_insert_eq|..|by eexists].
    apply Forall_app; split; [apply Forall_app; split; [done|by repeat constructor]|done].
  - eapply w_same_weaken; [eapply w_same_trans; [exact Hs2|]|].
    + apply w_same_set_heap. rewrite Hw2, lookup_insert_eq. by eexists.
    + set_solver.
  - eexists. split; [apply lookup_insert_eq|].
    rewrite Hvs, !length_app, !length_fmap, !length_app. cbn. rewrite length_drop. lia.
Qed.

Lemma concat_path_ok w s1 s2 buf a b :
  wf_world w → cstr_at w s1 a → cstr_at w s2 b → is_buf w buf → blk buf ## blk s1 ∪ blk s2 →
  len a + len b + 2 < 2 ^ 63 → len a + len b + 2 <= w_avail w + buf_len w buf →
  a ≠ [] ∨ k_strict (w_env w) = false →
  wp (concat_path s1 s2 buf) (λ p w',
    cstr_at w' p (path_join a b) ∧ blk p = {[w_next w]} ∧ is_buf w' p ∧
    buf_len w' p = len a + len b + 2 ∧ w_same (blk buf) w w' ∧ w_out w' = w_out w ∧
    w_avail w' = w_avail w + buf_len w buf - (len a + len b + 2)) w.
Proof.
  intros Hwf Ha Hb Hbuf Hd Hn Hav Hor. unfold concat_path.
  eapply wp_step; [by apply strlen_eq|]. eapply wp_step; [by apply strlen_eq|].
  rewrite (u64_small (len a + len b + 2)) by (unfold is_u64; lia).
  destruct (alloc_buf w buf (len a + len b + 2)) as (vs & w1 & E & Hr & Hl & Hs & Ho & Hav1 & Hn1); [done..|lia|].
  eapply wp_step; [exact E|]. cbn beta.
  assert (∀ p s, cstr_at w p s → w_next w ∉ blk p) as Hfresh.
  { intros p s (c & o & bs & -> & _ & Hc & _). rewrite elem_of_blk. intros Hx.
    specialize (Hwf c). rewrite Hc in Hwf. specialize (Hwf ltac:(by eexists)). lia. }
  assert (cstr_at w1 s1 a ∧ cstr_at w1 s2 b) as [Ha1 Hb1].
  { split; (eapply cstr_same; [done| |done]); set_solver. }
  eapply wp_step; [eapply (strcpy_run _ _ _ _ _ a); [done|lia|lia|done]|].
  set (w2 := set_heap _ _).
  assert (w_same {[w_next w]} w1 w2) as Hs2 by (apply w_same_set_heap; by eexists).
  eapply wp_mono.
  - eapply (concat_tail w2 (w_next w) s1 s2 a b _ (drop (length a + 1) vs)).
    + apply (same_wf _ _ _ Hs2), (same_wf _ _ _ Hs), Hwf.
    + apply lookup_insert_eq.
    + unfold splice. rewrite take_0, length_app, length_fmap, <- (assoc_L (++)). done.
    + rewrite length_drop. lia.
    + eapply cstr_same; [done| |done]. specialize (Hfresh _ _ Ha). set_solver.
    + eapply cstr_same; [done| |done]. specialize (Hfresh _ _ Hb). set_solver.
    + pose proof (Hfresh _ _ Ha). pose proof (Hfresh _ _ Hb). set_solver.
    + lia.
    + destruct Hor; [by left|right]. by rewrite (same_env _ _ _ Hs2), (same_env _ _ _ Hs).
  - cbn. intros p w' (-> & Hc & Hs3 & Ho3 & Hav3 & vs' & Hr' & Hl').
    rewrite length_splice in Hl' by (rewrite length_app, length_fmap; cbn; lia).
    split_and!; try done.
    + unfold buf_len. rewrite Hr'. cbn -[Z.add]. lia.
    + eapply w_same_fresh; [done| |eapply w_same_weaken].
      * done.
      * eapply w_same_trans; [exact Hs|]. eapply w_same_trans; [exact Hs2|exact Hs3].
      * set_solver.
    + by rewrite Ho3.
    + by rewrite Hav3.
Qed.

(** C25. [concat_path] builds the two parts joined by one slash where neither brings one, in
    a new string or in the reallocated [buf], whatever [s1] is if over-reads are
    tolerated, and for every nonempty [s1] in any case. *)
Theorem concat_path_spec w s1 s2 buf a b :
  wf_world w → cstr_at w s1 a → cstr_at w s2 b → is_buf w buf → blk buf ## blk s1 ∪ blk s2 →
  len a + len b + 2 < 2 ^ 63 → len a + len b + 2 <= w_avail w + buf_len w buf →
  a ≠ [] ∨ k_strict (w_env w) = false →
  wp (concat_path s1 s2 buf) (λ p w',
    cstr_at w' p (path_join a b) ∧ blk p = {[w_next w]} ∧ is_buf w' p ∧
    buf_len w' p = len a + len b + 2 ∧ w_same (blk buf) w w' ∧ w_out w' = w_out w ∧
    w_avail w' = w_avail w + buf_len w buf - (len a + len b + 2)) w.
Proof. intros. by apply concat_path_ok. Qed.

(** ls joins the directory [sub/] and the entry [x] over a previous path. *)
Definition join_world : world :=
  World {[ 1%positive := MByte <$> (str "sub" ++ [0]); 2%positive := MByte <$> (str "x" ++ [0]);
           3%positive := MByte <$> (str "old" ++ [0]) ]} 4 64 [] lenient_env.

Lemma concat_path_spec_witness :
  wp (concat_path (Ptr 1 0) (Ptr 2 0) (Ptr 3 0)) (λ p w',
    cstr_at w' p (path_join (str "sub") (str "x")) ∧ blk p = {[4%positive]} ∧ is_buf w' p ∧
    buf_len w' p = 6 ∧ w_same {[3%positive]} join_world w' ∧ w_out w' = [] ∧
    w_avail w' = 64 + 4 - 6) join_world ∧ path_join (str "sub") (str "x") = str "sub/x".
Proof.
  split; [|done].
  apply (concat_path_spec join_world (Ptr 1 0) (Ptr 2 0) (Ptr 3 0) (str "sub") (str "x")); try done.
  - intros b. cbn. rewrite !lookup_insert_is_Some, lookup_singleton_is_Some. lia.
  - exists 1%positive, 0, (MByte <$> (str "sub" ++ [0])).
    split_and!; [done..|by repeat constructor|by exists []].
  - exists 2%positive, 0, (MByte <$> (str "x" ++ [0])).
    split_and!; [done..|by repeat constructor|by exists []].
  - intros b ->%elem_of_blk. rewrite elem_of_union, !elem_of_blk. lia.
  - by left.
Defined.

(** With an empty [s1] that starts its object, as in every call [ls] makes first,
    [concat_path] reads one byte before the object: under the strict policy it is
    stuck there. *)
Theorem concat_path_empty_underflow w b1 s2 b :
  wf_world w → cstr_at w (Ptr b1 0) [] → cstr_at w s2 b → 2 + len b < 2 ^ 63 →
  2 + len b <= w_avail w → k_strict (w_env w) = true →
  concat_path (Ptr b1 0) s2 Null w = Stuck OutOfBounds.
Proof.
  intros Hwf Ha Hb Hn Hav Hst. unfold concat_path.
  erewrite bind_ret by (by apply strlen_eq). erewrite bind_ret by (by apply strlen_eq).
  change (len ([] : list Z)) with 0.
  rewrite (u64_small (0 + len b + 2)) by (unfold is_u64; lia).
  destruct (alloc_buf w Null (0 + len b + 2)) as (vs & w1 & E & Hr & Hl & Hs & _); [done..|cbn; lia|].
  erewrite bind_ret by exact E. cbn in Hl.
  assert (w_next w ≠ b1) as Hne.
  { destruct Ha as (c & o & bs & [= <- <-] & _ & Hc & _). intros Hx. rewrite <- Hx in Hc.
    by rewrite wf_next in Hc. }
  assert (cstr_at w1 (Ptr b1 0) []) as Ha1 by (eapply cstr_same; [done| |done]; set_solver).
  erewrite bind_ret by (eapply (strcpy_run _ _ _ _ _ []); [done|lia|cbn; lia|done]).
  apply bind_stuck. change (i64 (u64 (0 - 1))) with (-1). cbn [padd].
  unfold load_u8. apply bind_stuck. unfold load_bytes.
  destruct Ha1 as (c & o & bs & [= <- <-] & _ & Hc & _).
  cbn. rewrite lookup_insert_ne, Hc by done. by rewrite (same_env _ _ _ Hs), Hst.
Qed.

Definition strict_env : kenv := Kenv (λ _, None) (Some 80) true (λ _ _, 7).

Lemma concat_path_empty_underflow_witness :
  concat_path (Ptr 1 0) (Ptr 2 0) Null
    (World {[ 1%positive := MByte <$> [0]; 2%positive := MByte <$> (str "." ++ [0]) ]} 3 64 [] strict_env)
  = Stuck OutOfBounds.
Proof.
  apply (concat_path_empty_underflow _ _ _ (str ".")); try done.
  - intros b. cbn. rewrite lookup_insert_is_Some, lookup_singleton_is_Some. lia.
  - exists 1%positive, 0, [MByte 0]. split_and!; [done..|by constructor|by exists []].
  - exists 2%positive, 0, (MByte <$> (str "." ++ [0])).
    split_and!; [done..|by repeat constructor|by exists []].
Defined.
