(* ===== verification/Buffer.v ===== *)
(** * Buffer: the output buffer of [src/lib/buffer.c]

    A BUFFER is one calloc block: two [size_t] fields, a function pointer, then
    [size + 1] bytes.  [code] is what calling through a function pointer runs, on the
    pointer it is called with; [include/buffer.h] also declares [buffer_resize] and
    [buffer_free], which no source defines. *)

From S2P Require Import Prelude Mem Logic CStr.
Local Open Scope Z_scope.

Definition sizeof_BUFFER : Z := 24.
Definition b_used (p : ptr) : ptr := padd p 0.
Definition b_size (p : ptr) : ptr := padd p 8.
Definition b_call (p : ptr) : ptr := padd p 16.
(** [(char * )&p_buffer[1]] *)
Definition b_data (p : ptr) : ptr := padd p sizeof_BUFFER.

Section buffer.
Context (code : ptr → option (ptr → M Z)).

Definition call_fn (f buf : ptr) : M Z :=
  match code f with Some run => run buf | None => stuck UseAfterFree end.

Definition buffer (size : Z) (call : ptr) : M ptr :=
  if size <=? 0 then mret Null
  else match call with
  | Null => mret Null
  | Ptr _ _ =>
    p ← calloc 1 (u64 (sizeof_BUFFER + size + 1));
    store_u64 (b_used p) 0;;
    store_u64 (b_size p) size;;
    store_ptr (b_call p) call;;
    mret p
  end.

(** The loop of [buffer_write] from [str[j]], with the next byte going to [buf[i]]. *)
Fixpoint write_loop (fuel : nat) (p str : ptr) (i j : Z) : M Z :=
  match fuel with
  | O => stuck OutOfBounds
  | S fuel =>
    c ← load_u8 (padd str j);
    if c =? 0 then mret 0
    else
      size ← load_u64 (b_size p);
      r ← (if i =? size then
             f ← load_ptr (b_call p);
             r ← call_fn f (b_data p);
             if negb (r =? 0) then mret 1 else store_u64 (b_used p) 0;; mret 0
           else mret 0);
      if negb (r =? 0) then mret 1
      else
        store_u8 (padd (b_data p) i) c;;
        write_loop fuel p str (u64 (i + 1)) (u64 (j + 1))
  end.

Definition buffer_write (p str : ptr) : M Z :=
  i ← load_u64 (b_used p);
  fuel ← room_at str;
  write_loop fuel p str i 0.

Definition buffer_flush (p : ptr) : M Z :=
  f ← load_ptr (b_call p);
  r ← call_fn f (b_data p);
  if negb (r =? 0) then mret 1
  else store_u64 (b_used p) 0;; mret 0.
End buffer.

(** ** The object in memory *)

Definition buf_block (used size : Z) (fb : positive) (fo : Z) (data : list mval) : list mval :=
  enc64 used ++ enc64 size ++ encptr (Ptr fb fo) ++ data.

Definition buf_at (w : world) (b : positive) (used size : Z) (fb : positive) (fo : Z)
    (data : list mval) : Prop :=
  w_heap w !! b = Some (buf_block used size fb fo data) ∧ len data = size + 1 ∧
  0 <= used <= size ∧ 0 < size ∧ size < 2 ^ 62.

Definition put_block (w : world) (b : positive) (bs : list mval) : world :=
  set_heap (<[b := bs]> (w_heap w)) w.

Section fields.
Context (w : world) (b : positive) (used size : Z) (fb : positive) (fo : Z) (data : list mval).
Hypothesis Hb : w_heap w !! b = Some (buf_block used size fb fo data).

Lemma load_b_used : load_u64 (b_used (Ptr b 0)) w = Ret (u64 used) w.
Proof using Hb. apply load_u64_eq. eapply reads_in; [done..|cbn; lia|done]. Qed.

Lemma load_b_size : load_u64 (b_size (Ptr b 0)) w = Ret (u64 size) w.
Proof using Hb. apply load_u64_eq. eapply reads_in; [done..|cbn; lia|done]. Qed.

Lemma load_b_call : load_ptr (b_call (Ptr b 0)) w = Ret (Ptr fb fo) w.
Proof using Hb. apply load_ptr_eq. eapply reads_in; [done..|cbn; lia|done]. Qed.

Lemma store_b_used used' :
  store_u64 (b_used (Ptr b 0)) used' w = Ret tt (put_block w b (buf_block used' size fb fo data)).
Proof using Hb. apply (store_bytes_in w b 0 _ (enc64 used') Hb); cbn; lia. Qed.

Lemma store_b_data i c :
  0 <= i < len data →
  store_u8 (padd (b_data (Ptr b 0)) i) c w =
  Ret tt (put_block w b (buf_block used size fb fo (<[Z.to_nat i := MByte (u8 c)]> data))).
Proof using Hb.
  intros Hi. unfold store_u8. cbn [b_data padd].
  assert (sizeof_BUFFER = 24) as E by done.
  rewrite (store_bytes_in w b _ _ _ Hb); [|lia|cbn in *; lia].
  do 2 f_equal. f_equal. f_equal.
  replace (Z.to_nat (0 + sizeof_BUFFER + i)) with (24 + Z.to_nat i)%nat by lia.
  rewrite (insert_take_drop data (Z.to_nat i)) by lia. unfold splice. cbn [length].
  replace (24 + Z.to_nat i + 1)%nat with (24 + S (Z.to_nat i))%nat by lia. done.
Qed.

Lemma store_b_overflow i c :
  0 <= i → len data <= i → store_u8 (padd (b_data (Ptr b 0)) i) c w = Stuck OutOfBounds.
Proof using Hb.
  intros Hi Hl. unfold store_u8, store_bytes. cbn [b_data padd]. rewrite Hb.
  rewrite (proj2 (Z.leb_gt (_ + len [MByte (u8 c)]) _)); [by rewrite andb_false_r|].
  unfold buf_block. rewrite !length_app, !length_enc64, length_encptr. unfold sizeof_BUFFER.
  cbn [length]. lia.
Qed.
End fields.

(** A callback that only produces output: it returns [r] and leaves memory alone. *)
Definition call_returns (run : ptr → M Z) (r : Z) : Prop :=
  ∀ p w, ∃ out, run p w = Ret r (World (w_heap w) (w_next w) (w_avail w) out (w_env w)).

(** One round of the loop: the byte [c] is stored without a flush. *)
Lemma write_step code fuel w b used size fb fo data p c s i j :
  buf_at w b used size fb fo data → cstr_at w (padd p j) (c :: s) → b ∉ blk p →
  0 <= i <= size → 0 <= j < 2 ^ 62 → i ≠ size →
  write_loop code (S fuel) (Ptr b 0) p i j w =
  write_loop code fuel (Ptr b 0) p (i + 1) (j + 1)
    (put_block w b (buf_block used size fb fo (<[Z.to_nat i := MByte c]> data))) ∧
  buf_at (put_block w b (buf_block used size fb fo (<[Z.to_nat i := MByte c]> data)))
    b used size fb fo (<[Z.to_nat i := MByte c]> data) ∧
  cstr_at (put_block w b (buf_block used size fb fo (<[Z.to_nat i := MByte c]> data)))
    (padd p (j + 1)) s.
Proof.
  intros (Hb & Hl & Hu & Hs0 & Hs1) Hc Hd Hi Hj Hne.
  destruct (cstr_at_uncons _ _ _ Hc) as [E Hc']. cbn [default head] in E.
  pose proof (cstr_at_is_cstr _ _ _ Hc) as [Hc0 _]%Forall_cons.
  split_and!.
  - cbn [write_loop]. erewrite bind_ret by exact E. cbn [from_option id].
    rewrite (proj2 (Z.eqb_neq c 0)) by lia.
    erewrite bind_ret by (by eapply load_b_size). rewrite (u64_small size) by (unfold is_u64; lia).
    rewrite (proj2 (Z.eqb_neq i size)) by done. erewrite bind_ret by done. cbn [negb Z.eqb].
    erewrite bind_ret by (eapply store_b_data; [done|lia]).
    rewrite !(u64_small (_ + 1)) by (unfold is_u64; lia).
    by rewrite (wrapu_small 8 c) by lia.
  - unfold buf_at. rewrite length_insert. split_and!; try lia. apply lookup_insert_eq.
  - destruct p as [|pb po]; [by destruct Hc as (? & ? & ? & [=] & _)|]. cbn in *.
    rewrite <- Z.add_assoc in Hc'. eapply cstr_dest_same; [by eexists|done|done].
Qed.

(** The rounds that store the first bytes [s1] of the string, all before the end of the
    buffer. *)
Lemma write_loop_prefix code fuel w b used size fb fo data p s1 s2 i j :
  buf_at w b used size fb fo data → cstr_at w (padd p j) (s1 ++ s2) → b ∉ blk p →
  0 <= i → i + len s1 <= size → 0 <= j → j + len s1 < 2 ^ 62 →
  let data' := splice data (Z.to_nat i) (MByte <$> s1) in
  let w' := put_block w b (buf_block used size fb fo data') in
  write_loop code (length s1 + fuel) (Ptr b 0) p i j w =
  write_loop code fuel (Ptr b 0) p (i + len s1) (j + len s1) w' ∧
  buf_at w' b used size fb fo data' ∧ cstr_at w' (padd p (j + len s1)) s2.
Proof.
  revert w data i j. induction s1 as [|c s1 IH]; intros w data i j Hb Hc Hd Hi His Hj Hjs data' w'.
  - assert (w' = w) as ->.
    { unfold w', data', splice. cbn. rewrite Nat.add_0_r, take_drop. destruct Hb as [Hb _].
      unfold put_block, set_heap. rewrite insert_id by done. by destruct w. }
    assert (data' = data) as ->.
    { unfold data', splice. cbn. by rewrite Nat.add_0_r, take_drop. }
    cbn [length Nat.add]. rewrite !Z.add_0_r. done.
  - cbn [length app Nat.add] in *.
    destruct (write_step code (length s1 + fuel) w b used size fb fo data p c (s1 ++ s2) i j)
      as (E & Hb' & Hc'); [done..|lia|lia|lia|].
    destruct (IH _ _ (i + 1) (j + 1) Hb' Hc') as (E2 & Hb2 & Hc2); [done|lia..|]. clear IH.
    assert (splice (<[Z.to_nat i:=MByte c]> data) (Z.to_nat (i + 1)) (MByte <$> s1) = data') as Ed.
    { unfold data'. replace (Z.to_nat (i + 1)) with (S (Z.to_nat i)) by lia.
      destruct Hb as (_ & Hl & _). by rewrite splice_insert by lia. }
    rewrite Ed in *.
    assert (put_block (put_block w b (buf_block used size fb fo (<[Z.to_nat i:=MByte c]> data))) b
              (buf_block used size fb fo data') = w') as Ew.
    { unfold w', put_block, set_heap. cbn [w_heap w_next w_avail w_out w_env]. by rewrite insert_insert_eq. }
    rewrite Ew in *. replace (j + Z.of_nat (S (length s1))) with (j + 1 + len s1) by lia.
    replace (i + Z.of_nat (S (length s1))) with (i + 1 + len s1) by lia. by rewrite E.
Qed.

(** A flush inside the loop: the buffer is handed to the callback, [used] is reset, and
    the byte goes to [buf[size]], the last byte of the object. *)
Lemma write_flush code run fuel w b used size fb fo data p c s j :
  buf_at w b used size fb fo data → code (Ptr fb fo) = Some run → call_returns run 0 →
  cstr_at w (padd p j) (c :: s) → b ∉ blk p → 0 <= j < 2 ^ 62 →
  ∃ w', write_loop code (S fuel) (Ptr b 0) p size j w =
    write_loop code fuel (Ptr b 0) p (size + 1) (j + 1) w' ∧
  buf_at w' b 0 size fb fo (<[Z.to_nat size := MByte c]> data) ∧ cstr_at w' (padd p (j + 1)) s.
Proof.
  intros (Hb & Hl & Hu & Hs0 & Hs1) Hcode Hrun Hc Hd Hj.
  destruct (cstr_at_uncons _ _ _ Hc) as [E Hc']. cbn [default head] in E.
  pose proof (cstr_at_is_cstr _ _ _ Hc) as [Hc0 _]%Forall_cons.
  destruct (Hrun (b_data (Ptr b 0)) w) as [out Eo].
  set (w1 := World (w_heap w) (w_next w) (w_avail w) out (w_env w)) in *.
  set (w2 := put_block w1 b (buf_block 0 size fb fo data)).
  set (w3 := put_block w2 b (buf_block 0 size fb fo (<[Z.to_nat size := MByte c]> data))).
  assert (w_heap w2 !! b = Some (buf_block 0 size fb fo data)) as Hb2 by apply lookup_insert_eq.
  exists w3. split_and!.
  - cbn [write_loop]. erewrite bind_ret by exact E. cbn [from_option id].
    rewrite (proj2 (Z.eqb_neq c 0)) by lia.
    erewrite bind_ret by (by eapply load_b_size). rewrite (u64_small size) by (unfold is_u64; lia).
    rewrite Z.eqb_refl. erewrite bind_ret.
    2:{ erewrite bind_ret by (by eapply load_b_call). unfold call_fn. rewrite Hcode.
        erewrite bind_ret by exact Eo. cbn [negb Z.eqb].
        erewrite bind_ret by (by eapply (store_b_used w1)). done. }
    cbn [negb Z.eqb]. erewrite bind_ret by (eapply (store_b_data w2); [done|lia]).
    rewrite (wrapu_small 8 c) by lia. by rewrite !(u64_small (_ + 1)) by (unfold is_u64; lia).
  - unfold buf_at. rewrite length_insert. split_and!; try lia. apply lookup_insert_eq.
  - destruct p as [|pb po]; [by destruct Hc as (? & ? & ? & [=] & _)|]. cbn [padd] in *.
    rewrite elem_of_blk in Hd. rewrite <- Z.add_assoc in Hc'.
    eapply (cstr_same {[b]} w); [|rewrite disjoint_singleton_r, elem_of_blk; done|done].
    unfold w3, w2, w1, put_block, set_heap. cbn. rewrite insert_insert_eq.
    split; cbn; try done.
    + intros k Hk _. rewrite lookup_insert_ne; [done|set_solver].
    + intros Hwf k. cbn. rewrite lookup_insert_is_Some. intros [<-|[_ ?]]; apply Hwf; [by eexists|done].
    + intros k _ Hk. rewrite lookup_insert_ne; [done|]. intros <-. by rewrite Hb in Hk.
Qed.
