(* ===== verification/BufferSpec.v ===== *)
(** * BufferSpec: what [buffer_write] and [buffer_flush] do, and where writing overruns

    [used] is read when a write starts and never advanced by it, and the write index is
    not reset after a flush. *)

From S2P Require Import Prelude Mem Logic CStr Buffer.
Local Open Scope Z_scope.

(** The three field stores of [buffer] on the zeroed block. *)
Lemma new_fields w b size fb fo data :
  w_heap w !! b = Some (enc64 0 ++ enc64 0 ++ enc64 0 ++ data) →
  (store_u64 (b_used (Ptr b 0)) 0;; store_u64 (b_size (Ptr b 0)) size;;
   store_ptr (b_call (Ptr b 0)) (Ptr fb fo);; mret (Ptr b 0)) w =
  Ret (Ptr b 0) (put_block w b (buf_block 0 size fb fo data)).
Proof.
  intros Hb.
  assert (store_u64 (b_used (Ptr b 0)) 0 w =
          Ret tt (put_block w b (enc64 0 ++ enc64 0 ++ enc64 0 ++ data))) as E1.
  { apply (store_bytes_in w b 0 _ (enc64 0) Hb); cbn; lia. }
  rewrite (bind_ret _ _ _ _ _ E1). set (w1 := put_block w b _).
  assert (w_heap w1 !! b = Some (enc64 0 ++ enc64 0 ++ enc64 0 ++ data)) as H1 by apply lookup_insert_eq.
  assert (store_u64 (b_size (Ptr b 0)) size w1 =
          Ret tt (put_block w1 b (enc64 0 ++ enc64 size ++ enc64 0 ++ data))) as E2.
  { apply (store_bytes_in w1 b 8 _ (enc64 size) H1); cbn; lia. }
  rewrite (bind_ret _ _ _ _ _ E2). set (w2 := put_block w1 b _).
  assert (w_heap w2 !! b = Some (enc64 0 ++ enc64 size ++ enc64 0 ++ data)) as H2 by apply lookup_insert_eq.
  assert (store_ptr (b_call (Ptr b 0)) (Ptr fb fo) w2 =
          Ret tt (put_block w2 b (buf_block 0 size fb fo data))) as E3.
  { apply (store_bytes_in w2 b 16 _ (encptr (Ptr fb fo)) H2); cbn; lia. }
  rewrite (bind_ret _ _ _ _ _ E3). unfold w2, w1, put_block, set_heap.
  cbn [w_heap w_next w_avail w_out w_env]. by rewrite !insert_insert_eq.
Qed.

Section spec.
Context (code : ptr → option (ptr → M Z)).

(** A string that fits in the rest of the buffer is copied to [buf + used] with no
    flush; [buffer_write] returns 0 and leaves [used] as it was. *)
Theorem buffer_write_fits w b used size fb fo data p s :
  buf_at w b used size fb fo data → cstr_at w p s → b ∉ blk p →
  used + len s <= size → len s < 2 ^ 62 →
  buffer_write code (Ptr b 0) p w =
  Ret 0 (put_block w b (buf_block used size fb fo (splice data (Z.to_nat used) (MByte <$> s)))).
Proof.
  intros Hb Hc Hd Hs Hl. pose proof Hb as (Hb' & _ & ? & _ & ?). unfold buffer_write.
  erewrite bind_ret by (by eapply load_b_used). rewrite (u64_small used) by (unfold is_u64; lia).
  destruct (cstr_at_room _ _ _ Hc) as (n & Hn & En). erewrite bind_ret by exact En.
  replace n with (length s + S (n - length s - 1))%nat by lia.
  assert (padd p 0 = p) as Ep by (destruct p; cbn; [done|by rewrite Z.add_0_r]).
  destruct (write_loop_prefix code (S (n - length s - 1)) w b used size fb fo data p s [] used 0)
    as (E & _ & Hc'); try done; try lia; [by rewrite Ep, app_nil_r|].
  rewrite E. cbn [write_loop]. destruct (cstr_at_uncons _ _ _ Hc') as [E0 _].
  by erewrite bind_ret by exact E0.
Qed.

(** Two writes do not accumulate: the second string is stored over the first, at the
    same place [buf + used]. *)
Theorem buffer_writes_overwrite w b used size fb fo data p s q t :
  buf_at w b used size fb fo data → cstr_at w p s → cstr_at w q t → b ∉ blk p → b ∉ blk q →
  used + len s <= size → used + len t <= size → len s < 2 ^ 62 → len t < 2 ^ 62 →
  wp (buffer_write code (Ptr b 0) p;; buffer_write code (Ptr b 0) q) (λ r w',
    r = 0 ∧ ∃ data', w_heap w' !! b = Some (buf_block used size fb fo data') ∧
      take (length t) (drop (Z.to_nat used) data') = MByte <$> t) w.
Proof.
  intros Hb Hp Hq Hdp Hdq Hs Ht Hls Hlt. pose proof Hb as (Hb0 & Hl & Hu & H0 & H1).
  eapply wp_step; [by eapply buffer_write_fits|]. set (w1 := put_block _ _ _).
  assert (length (splice data (Z.to_nat used) (MByte <$> s)) = length data) as El.
  { apply length_splice. rewrite length_fmap. lia. }
  eapply wp_eq.
  - eapply (buffer_write_fits w1 b used size fb fo); [|eapply cstr_dest_same; [by eexists|done|exact Hq]|done..].
    split_and!; [apply lookup_insert_eq|lia..].
  - split; [done|]. eexists. split; [apply lookup_insert_eq|].
    unfold splice at 1. rewrite drop_app_length' by (rewrite length_take; lia).
    by rewrite take_app_length' by (by rewrite length_fmap).
Qed.

(** A string that is longer than the rest of the buffer by two bytes or more makes
    [buffer_write] write past the end of the object: after the flush the index is not
    set back to 0. *)
Theorem buffer_write_overruns w b used size fb fo data run p s :
  buf_at w b used size fb fo data → code (Ptr fb fo) = Some run → call_returns run 0 →
  cstr_at w p s → b ∉ blk p → size + 2 <= used + len s → len s < 2 ^ 62 →
  buffer_write code (Ptr b 0) p w = Stuck OutOfBounds.
Proof.
  intros Hb Hcode Hrun Hc Hd Hs Hl. pose proof Hb as (Hb' & Hdl & ? & _ & ?). unfold buffer_write.
  erewrite bind_ret by (by eapply load_b_used). rewrite (u64_small used) by (unfold is_u64; lia).
  destruct (cstr_at_room _ _ _ Hc) as (n & Hn & En). erewrite bind_ret by exact En.
  assert (padd p 0 = p) as Ep by (destruct p; cbn; [done|by rewrite Z.add_0_r]).
  set (k := Z.to_nat (size - used)).
  assert (∃ s1 c1 c2 s3, s = s1 ++ c1 :: c2 :: s3 ∧ length s1 = k) as (s1 & c1 & c2 & s3 & -> & Hk).
  { exists (take k s). assert (length (drop k s) = length s - k)%nat as Ek by apply length_drop.
    destruct (drop k s) as [|c1 [|c2 s3]] eqn:E; cbn in Ek; try lia.
    exists c1, c2, s3. rewrite <- E, take_drop, length_take. split; [done|lia]. }
  rewrite length_app in *. cbn [length] in *.
  replace n with (length s1 + S (S (n - length s1 - 2)))%nat by lia.
  destruct (write_loop_prefix code (S (S (n - length s1 - 2))) w b used size fb fo data p s1 (c1 :: c2 :: s3) used 0)
    as (E & Hb1 & Hc1); try done; try lia; [by rewrite Ep|].
  rewrite E. replace (used + len s1) with size in * by lia.
  destruct (write_flush code run (S (n - length s1 - 2)) _ b used size fb fo _ p c1 (c2 :: s3) (0 + len s1)
              Hb1 Hcode Hrun Hc1 Hd) as (w2 & E2 & Hb2 & Hc2); [lia|].
  rewrite E2. cbn [write_loop]. destruct (cstr_at_uncons _ _ _ Hc2) as [E3 _]. erewrite bind_ret by exact E3.
  apply cstr_at_is_cstr in Hc2 as [Hc0 _]%Forall_cons. cbn [head default from_option id].
  rewrite (proj2 (Z.eqb_neq c2 0)) by lia. destruct Hb2 as (Hb2 & Hl2 & _).
  erewrite bind_ret by (by eapply load_b_size). rewrite (u64_small size) by (unfold is_u64; lia).
  rewrite (proj2 (Z.eqb_neq (size + 1) size)) by lia. erewrite bind_ret by done. cbn [negb Z.eqb].
  apply bind_stuck. eapply store_b_overflow; [done|lia|lia].
Qed.

(** [buffer_flush] hands the buffer to the callback: it returns 1 and keeps [used] when
    the callback fails, and 0 with [used] reset otherwise. *)
Theorem buffer_flush_spec w b used size fb fo data run r :
  buf_at w b used size fb fo data → code (Ptr fb fo) = Some run → call_returns run r →
  wp (buffer_flush code (Ptr b 0)) (λ v w',
    v = (if r =? 0 then 0 else 1) ∧
    w_heap w' !! b = Some (buf_block (if r =? 0 then 0 else used) size fb fo data) ∧
    ∃ w1, run (b_data (Ptr b 0)) w = Ret r w1 ∧ w_out w' = w_out w1) w.
Proof.
  intros (Hb & _) Hcode Hrun. destruct (Hrun (b_data (Ptr b 0)) w) as [out Eo].
  unfold buffer_flush, call_fn. eapply wp_step; [by eapply load_b_call|]. rewrite Hcode.
  eapply wp_step; [exact Eo|]. cbn beta. destruct (r =? 0); cbn [negb].
  - eapply wp_step; [by eapply store_b_used|]. apply wp_ret. split_and!; [done|apply lookup_insert_eq|].
    eexists. split; [done|done].
  - apply wp_ret. split_and!; [done|done|]. eexists. by split.
Qed.

(** A new buffer of [size] bytes into which a string of at most [size] bytes is written
    holds that string, NUL-terminated, for the callback to print; [buffer] returns null
    for size 0 and for a null callback. *)
Theorem buffer_roundtrip w size fb fo p s :
  wf_world w → 0 < size → size < 2 ^ 62 → sizeof_BUFFER + size + 1 <= w_avail w →
  cstr_at w p s → len s <= size →
  buffer 0 (Ptr fb fo) w = Ret Null w ∧ buffer size Null w = Ret Null w ∧
  wp (q ← buffer size (Ptr fb fo); r ← buffer_write code q p; mret (q, r)) (λ qr w',
    qr.2 = 0 ∧ cstr_at w' (b_data qr.1) s ∧ w_same ∅ w w') w.
Proof.
  intros Hwf H0 H1 Hav Hc Hs. unfold sizeof_BUFFER in *. split_and!.
  { done. }
  { unfold buffer. by rewrite (proj2 (Z.leb_gt _ _)). }
  unfold buffer at 1. rewrite (proj2 (Z.leb_gt _ _)) by done. unfold sizeof_BUFFER.
  rewrite (u64_small (24 + size + 1)) by (unfold is_u64; lia).
  remember (Z.to_nat size) as k eqn:Ek.
  set (data := replicate (S k) (MByte 0)).
  set (b := w_next w).
  set (w1 := World (<[b := buf_block 0 size fb fo data]> (w_heap w)) (Pos.succ b)
               (w_avail w - (24 + size + 1)) (w_out w) (w_env w)).
  assert (∀ A (f : ptr → M A) Q, wp (f (Ptr b 0)) Q w1 →
    wp ((p ← calloc 1 (24 + size + 1); store_u64 (b_used p) 0;; store_u64 (b_size p) size;;
         store_ptr (b_call p) (Ptr fb fo);; mret p) ≫= f) Q w) as Hnew.
  { intros A f Q HQ. apply wp_bind. eapply wp_eq; [|exact HQ].
    erewrite bind_ret by (apply calloc_ok; lia).
    cbn beta. fold b. rewrite Z.mul_1_l.
    replace (Z.to_nat (24 + size + 1)) with (24 + S k)%nat by lia.
    change (replicate (24 + S k) (MByte 0)) with (enc64 0 ++ enc64 0 ++ enc64 0 ++ data).
    set (wa := World _ _ _ _ _). erewrite new_fields by apply lookup_insert_eq.
    unfold w1, wa, put_block, set_heap. cbn [w_heap w_next w_avail w_out w_env].
    by rewrite insert_insert_eq. }
  apply Hnew. assert (w_same ∅ w w1) as Hs1 by (by apply w_same_alloc).
  assert (b ∉ blk p) as Hd.
  { destruct Hc as (c & o & bs & -> & _ & Hc & _). rewrite elem_of_blk. intros Hx.
    specialize (Hwf c). rewrite Hc in Hwf. specialize (Hwf ltac:(by eexists)). unfold b in Hx. lia. }
  assert (buf_at w1 b 0 size fb fo data) as Hb.
  { split_and!; [apply lookup_insert_eq| |lia..]. unfold data. rewrite length_replicate. lia. }
  eapply wp_step; [eapply (buffer_write_fits w1 b 0 size fb fo data p s); [done| |done|lia|lia]|].
  { eapply cstr_same; [done| |exact Hc]. set_solver. }
  apply wp_ret. cbn [fst snd]. split_and!; [done| |].
  - eexists b, 24, _. split_and!; [done|lia|apply lookup_insert_eq|by eapply cstr_at_is_cstr|].
    change (Z.to_nat 24) with 24%nat.
    change (drop 24 (buf_block 0 size fb fo (splice data (Z.to_nat 0) (MByte <$> s))))
      with (splice data 0 (MByte <$> s)).
    unfold splice. rewrite take_0, length_fmap. cbn [app Nat.add]. unfold data.
    rewrite drop_replicate. replace (S k - length s)%nat with (S (k - length s)) by lia. by eexists.
  - eapply (w_same_fresh _ b); [done|unfold b; lia|].
    eapply w_same_trans; [exact Hs1|]. apply w_same_set_heap. eexists. apply lookup_insert_eq.
Qed.
End spec.

(** ** Witnesses: a buffer of 4 bytes whose callback prints a dot *)

Definition dot_code (f : ptr) : option (ptr → M Z) := Some (λ _, put (str ".");; mret 0).

Lemma dot_returns : call_returns (λ _, put (str ".");; mret 0) 0.
Proof. intros p w. by eexists. Qed.

Definition buf_env : kenv := Kenv (λ _, None) (Some 80) true (λ _ _, 0).
Definition buf_world (a b : list Z) : world :=
  World {[ 1%positive := (MByte <$> a) ++ [MByte 0]; 2%positive := (MByte <$> b) ++ [MByte 0];
           3%positive := buf_block 0 4 9 0 (replicate 5 (MByte 0)) ]} 4 4096 [] buf_env.

Lemma buf_world_at a b : buf_at (buf_world a b) 3 0 4 9 0 (replicate 5 (MByte 0)).
Proof. split_and!; try done. Qed.

Lemma buf_world_fst a b : is_cstr a → cstr_at (buf_world a b) (Ptr 1 0) a.
Proof. intros Ha. eexists _, _, _. split_and!; [done..|by exists []]. Qed.

Lemma buf_world_snd a b : is_cstr b → cstr_at (buf_world a b) (Ptr 2 0) b.
Proof. intros Ha. eexists _, _, _. split_and!; [done..|by exists []]. Qed.

Lemma buf_world_wf a b : wf_world (buf_world a b).
Proof. intros c. cbn. rewrite !lookup_insert_is_Some, lookup_singleton_is_Some. lia. Qed.

Ltac cstr_lit := by repeat constructor.

Lemma buffer_write_fits_witness :
  buffer_write dot_code (Ptr 3 0) (Ptr 1 0) (buf_world (str "abc") []) =
  Ret 0 (put_block (buf_world (str "abc") []) 3
    (buf_block 0 4 9 0 (splice (replicate 5 (MByte 0)) (Z.to_nat 0) (MByte <$> str "abc")))).
Proof.
  apply buffer_write_fits; try done.
  - apply buf_world_fst. cstr_lit.
Defined.

Lemma buffer_writes_overwrite_witness :
  wp (buffer_write dot_code (Ptr 3 0) (Ptr 1 0);; buffer_write dot_code (Ptr 3 0) (Ptr 2 0)) (λ r w',
    r = 0 ∧ ∃ data', w_heap w' !! 3%positive = Some (buf_block 0 4 9 0 data') ∧
      take 2 (drop 0 data') = MByte <$> str "xy") (buf_world (str "abc") (str "xy")).
Proof.
  apply (buffer_writes_overwrite dot_code _ 3 0 4 9 0 (replicate 5 (MByte 0)) _ (str "abc") _ (str "xy")); try done.
  - apply buf_world_fst. cstr_lit.
  - apply buf_world_snd. cstr_lit.
Defined.

Lemma buffer_write_overruns_witness :
  buffer_write dot_code (Ptr 3 0) (Ptr 1 0) (buf_world (str "abcdef") []) = Stuck OutOfBounds.
Proof.
  eapply (buffer_write_overruns dot_code _ 3 0 4 9 0 (replicate 5 (MByte 0)) _ _ (str "abcdef")); try done.
  - apply dot_returns.
  - apply buf_world_fst. cstr_lit.
Defined.

Lemma buffer_flush_spec_witness :
  wp (buffer_flush dot_code (Ptr 3 0)) (λ v w', v = 0 ∧
    w_heap w' !! 3%positive = Some (buf_block 0 4 9 0 (replicate 5 (MByte 0))) ∧
    ∃ w1, (put (str ".");; mret 0) (buf_world [] []) = Ret 0 w1 ∧ w_out w' = w_out w1)
  (buf_world [] []).
Proof.
  apply (buffer_flush_spec dot_code _ 3 0 4 9 0 (replicate 5 (MByte 0)) (λ _, put (str ".");; mret 0) 0); try done.
  apply dot_returns.
Defined.

Lemma buffer_roundtrip_witness :
  buffer 0 (Ptr 9 0) (buf_world (str "hi") []) = Ret Null (buf_world (str "hi") []) ∧
  buffer 8 Null (buf_world (str "hi") []) = Ret Null (buf_world (str "hi") []) ∧
  wp (q ← buffer 8 (Ptr 9 0); r ← buffer_write dot_code q (Ptr 1 0); mret (q, r)) (λ qr w',
    qr.2 = 0 ∧ cstr_at w' (b_data qr.1) (str "hi") ∧ w_same ∅ (buf_world (str "hi") []) w')
  (buf_world (str "hi") []).
Proof.
  apply (buffer_roundtrip dot_code _ 8 9 0 (Ptr 1 0) (str "hi")); try done.
  - apply buf_world_wf.
  - apply buf_world_fst. cstr_lit.
Defined.
