(* ===== verification/SortList.v ===== *)
(** * SortList: the sorting algorithms of [stdlib/qsort.c] on lists

    Each function below is what the routine of the same name does to the sequence of
    elements, with the comparison function as a total function on the elements' values.
    The memory functions of [Qsort] refine them; here the lists are shown sorted,
    permuted and, for the merge sort, stable. *)

From S2P Require Import Prelude.
Local Open Scope Z_scope.

(** What a comparison function must promise: swapping the arguments flips the sign, and
    "not greater" is transitive. *)
Class CmpOrder {K} (c : K → K → Z) : Prop := {
  cmp_flip x y : c x y <= 0 ↔ 0 <= c y x;
  cmp_trans x y z : c x y <= 0 → c y z <= 0 → c x z <= 0 }.

Definition cle {K} (c : K → K → Z) (x y : K) : Prop := c x y <= 0.

#[export] Instance cle_dec {K} (c : K → K → Z) x y : Decision (cle c x y).
Proof. unfold cle. apply _. Defined.

#[export] Instance cle_total {K} (c : K → K → Z) `{!CmpOrder c} : Total (cle c).
Proof. intros x y. unfold cle. rewrite (cmp_flip y x). lia. Qed.

#[export] Instance cle_trans {K} (c : K → K → Z) `{!CmpOrder c} : Transitive (cle c).
Proof. intros x y z. apply cmp_trans. Qed.

#[export] Instance cle_refl {K} (c : K → K → Z) `{!CmpOrder c} : Reflexive (cle c).
Proof. intros x. destruct (total (cle c) x x); done. Qed.

(** ** Merge sort *)

Section msort.
Context {K : Type} (c : K → K → Z).
Implicit Types (l : list K).

Fixpoint msort_list (fuel : nat) (l : list K) : list K :=
  match fuel with
  | O => l
  | S fuel =>
    if (length l <=? 1)%nat then l
    else
      let n1 := (length l / 2)%nat in
      list_merge (cle c) (msort_list fuel (take n1 l)) (msort_list fuel (drop n1 l))
  end.

Lemma msort_list_perm fuel l : msort_list fuel l ≡ₚ l.
Proof.
  revert l. induction fuel as [|fuel IH]; intros l; [done|]. cbn [msort_list].
  destruct (_ <=? _)%nat; [done|]. by rewrite merge_Permutation, !IH, take_drop.
Qed.

Lemma half_bounds (n : nat) : (1 < n)%nat → (0 < n / 2 < n)%nat.
Proof. intros. split; [apply Nat.div_str_pos|apply Nat.div_lt]; lia. Qed.

Lemma msort_list_sorted `{!CmpOrder c} fuel l :
  (length l <= fuel)%nat → Sorted (cle c) (msort_list fuel l).
Proof.
  revert l. induction fuel as [|fuel IH]; intros l Hl; cbn [msort_list].
  - destruct l; [constructor|cbn in Hl; lia].
  - destruct (Nat.leb_spec (length l) 1).
    + destruct l as [|x [|y l]]; cbn in *; [constructor|repeat constructor|lia].
    + pose proof (half_bounds (length l) ltac:(lia)).
      apply Sorted_list_merge; [apply _|apply IH..];
        rewrite ?length_take, ?length_drop; lia.
Qed.

(** The elements that compare equal to [k], in order. *)
Definition equals (k : K) (l : list K) : list K := filter (λ x, c x k = 0) l.

Lemma equals_above `{!CmpOrder c} k x l :
  (∀ y, y ∈ l → c y x > 0) → c x k = 0 → equals k l = [].
Proof.
  intros Hl Hk. unfold equals. induction l as [|y l IH]; [done|].
  rewrite filter_cons_False.
  - apply IH. intros z Hz. apply Hl. by right.
  - intros Hy. specialize (Hl y ltac:(left)).
    assert (c y x <= 0); [|lia]. eapply cmp_trans; [by rewrite Hy|].
    apply cmp_flip. lia.
Qed.

Lemma merge_stable `{!CmpOrder c} k l1 l2 :
  StronglySorted (cle c) l1 → StronglySorted (cle c) l2 →
  equals k (list_merge (cle c) l1 l2) = equals k l1 ++ equals k l2.
Proof.
  intros H1 H2. revert l2 H2. induction H1 as [|x1 l1 H1 IH1 F1]; intros l2.
  - by rewrite list_merge_nil_l.
  - induction 1 as [|x2 l2 H2 IH2 F2]; [by rewrite list_merge_nil_r, app_nil_r|].
    rewrite list_merge_cons. case_decide as Hc; unfold equals in *.
    + rewrite !(filter_cons _ x1), IH1 by by constructor. by case_decide.
    + rewrite (filter_cons _ x2), IH2, (filter_cons _ x2 l2). case_decide as Hk; [|done].
      assert (equals k (x1 :: l1) = []) as E; [|unfold equals in E; by rewrite E].
      apply (equals_above k x2); [|done].
      unfold cle in *. intros y [->|Hy]%elem_of_cons; [lia|].
      destruct (decide (c y x2 <= 0)); [|lia]. destruct Hc.
      eapply cmp_trans; [|done]. rewrite Forall_forall in F1. by apply F1.
Qed.

Lemma msort_list_stable `{!CmpOrder c} k fuel l :
  (length l <= fuel)%nat → equals k (msort_list fuel l) = equals k l.
Proof.
  revert l. induction fuel as [|fuel IH]; intros l Hl; [done|]. cbn [msort_list].
  destruct (Nat.leb_spec (length l) 1); [done|].
  pose proof (half_bounds (length l) ltac:(lia)).
  assert (∀ l', (length l' <= fuel)%nat → StronglySorted (cle c) (msort_list fuel l')) as Hs.
  { intros l' ?. apply Sorted_StronglySorted; [apply _|]. by apply msort_list_sorted. }
  rewrite merge_stable by (apply Hs; rewrite ?length_take, ?length_drop; lia).
  rewrite !IH by (rewrite ?length_take, ?length_drop; lia).
  unfold equals. by rewrite <- filter_app, take_drop.
Qed.
End msort.

(** ** Heap sort *)

Section heapsort.
Context {K : Type} `{!Inhabited K} (c : K → K → Z).
Implicit Types (l : list K).

Definition swap_list (l : list K) (i j : nat) : list K := <[i := l !!! j]> (<[j := l !!! i]> l).

(** The larger child of [k]. *)
Definition big_child (l : list K) (k n : nat) : nat :=
  let j := (2 * k + 1)%nat in
  if bool_decide (j < n)%nat && (c (l !!! j) (l !!! (j + 1)%nat) <? 0) then (j + 1)%nat else j.

Fixpoint siftdown_list (fuel k n : nat) (l : list K) : list K :=
  if (2 * k + 1 <=? n)%nat then
    match fuel with
    | O => l
    | S fuel =>
      let j := big_child l k n in
      if 0 <=? c (l !!! k) (l !!! j) then l
      else siftdown_list fuel j n (swap_list l j k)
    end
  else l.

Fixpoint heapify_list (k n : nat) (l : list K) : list K :=
  let l := siftdown_list n k n l in
  match k with O => l | S k => heapify_list k n l end.

Fixpoint extract_list (n : nat) (l : list K) : list K :=
  match n with
  | O => l
  | S m =>
    let l := swap_list l 0 n in
    match m with
    | O => l
    | S _ => extract_list m (siftdown_list m 0 m l)
    end
  end.

Definition heapsort_list (n : nat) (l : list K) : list K :=
  if (n =? 0)%nat then l else extract_list n (heapify_list (n / 2) n l).

(** *** Exchanges *)

Lemma length_swap l i j : length (swap_list l i j) = length l.
Proof. unfold swap_list. by rewrite !length_insert. Qed.

Lemma swap_perm l i j : (i < length l)%nat → (j < length l)%nat → swap_list l i j ≡ₚ l.
Proof.
  intros Hi Hj. unfold swap_list.
  destruct (decide (i = j)) as [->|Hne].
  - rewrite list_insert_insert_eq. by rewrite list_insert_id by by apply list_lookup_lookup_total_lt.
  - apply list_lookup_lookup_total_lt in Hi, Hj. apply Permutation_inj. split.
    + by rewrite !length_insert.
    + exists (λ x, if decide (x = i) then j else if decide (x = j) then i else x). split.
      * intros x y. repeat case_decide; naive_solver.
      * intros x. destruct (decide (x = i)) as [->|]; [|destruct (decide (x = j)) as [->|]].
        -- rewrite list_lookup_insert_eq by (rewrite length_insert; by eapply lookup_lt_Some). done.
        -- rewrite list_lookup_insert_ne by done.
           rewrite list_lookup_insert_eq by (by eapply lookup_lt_Some). done.
        -- by rewrite !list_lookup_insert_ne by done.
Qed.

Lemma swap_at_l l i j : (i < length l)%nat → swap_list l i j !!! i = l !!! j.
Proof. intros. unfold swap_list. rewrite list_lookup_total_insert_eq; [done|by rewrite length_insert]. Qed.

Lemma swap_at_r l i j : (j < length l)%nat → swap_list l i j !!! j = l !!! i.
Proof.
  intros. unfold swap_list. destruct (decide (i = j)) as [->|].
  - by rewrite list_lookup_total_insert_eq by by rewrite length_insert.
  - rewrite list_lookup_total_insert_ne by done. by rewrite list_lookup_total_insert_eq.
Qed.

Lemma swap_at_ne l i j k : k ≠ i → k ≠ j → swap_list l i j !!! k = l !!! k.
Proof. intros. unfold swap_list. by rewrite !list_lookup_total_insert_ne by done. Qed.

(** *** The heap condition *)

Definition parent (m : nat) : nat := ((m - 1) / 2)%nat.

Lemma parent_child m k : (0 < m)%nat → parent m = k ↔ (m = 2 * k + 1 ∨ m = 2 * k + 2)%nat.
Proof.
  intros Hm. unfold parent. split; intros H.
  - subst k. pose proof (Nat.div_mod_eq (m - 1) 2). pose proof (Nat.mod_upper_bound (m - 1) 2). lia.
  - destruct H as [->| ->]; symmetry; [eapply (Nat.div_unique _ 2 k 0)|eapply (Nat.div_unique _ 2 k 1)]; lia.
Qed.

Lemma parent_lt m : (0 < m)%nat → (parent m < m)%nat.
Proof. intros. destruct (proj1 (parent_child m (parent m) ltac:(done)) eq_refl); lia. Qed.

(** Every node up to [n] whose parent is at least [k0] is not above its parent. *)
Definition heap_from (k0 n : nat) (l : list K) : Prop :=
  ∀ m, (0 < m <= n)%nat → (k0 <= parent m)%nat → cle c (l !!! m) (l !!! parent m).

(** The same but for the children of [k], which are not above the parent of [k]. *)
Definition heap_but (k k0 n : nat) (l : list K) : Prop :=
  ∀ m, (0 < m <= n)%nat → (k0 <= parent m)%nat →
    (parent m ≠ k → cle c (l !!! m) (l !!! parent m)) ∧
    (parent m = k → (0 < k)%nat → (k0 <= parent k)%nat → cle c (l !!! m) (l !!! parent k)).

Lemma big_child_spec `{!CmpOrder c} l k n :
  (2 * k + 1 <= n)%nat →
  let j := big_child l k n in
  (0 < j <= n)%nat ∧ parent j = k ∧
  (∀ m, (0 < m <= n)%nat → parent m = k → cle c (l !!! m) (l !!! j)).
Proof.
  intros Hk j. unfold j, big_child.
  assert (∀ m, (0 < m <= n)%nat → parent m = k → (m = 2 * k + 1 ∨ m = 2 * k + 2)%nat) as Hm.
  { intros m ??. apply parent_child; [lia|done]. }
  case_bool_decide as Hn; cbn [andb]; [destruct (Z.ltb_spec (c (l !!! (2 * k + 1)%nat) (l !!! (2 * k + 1 + 1)%nat)) 0) as [Hc|Hc]|].
  - split_and!; [lia|lia|apply parent_child; lia|]. intros m Hm1 Hm2.
    destruct (Hm m Hm1 Hm2) as [->| ->]; [unfold cle; lia|].
    replace (2 * k + 2)%nat with (2 * k + 1 + 1)%nat by lia. reflexivity.
  - split_and!; [lia|lia|apply parent_child; lia|]. intros m Hm1 Hm2.
    destruct (Hm m Hm1 Hm2) as [->| ->]; [reflexivity|]. apply cmp_flip.
    by replace (2 * k + 2)%nat with (2 * k + 1 + 1)%nat by lia.
  - split_and!; [lia|lia|apply parent_child; lia|]. intros m Hm1 Hm2.
    destruct (Hm m Hm1 Hm2) as [->| ->]; [reflexivity|lia].
Qed.

Lemma heap_but_swap `{!CmpOrder c} l k k0 n j :
  (n < length l)%nat → (k0 <= k)%nat → (0 < j <= n)%nat → parent j = k →
  (∀ m, (0 < m <= n)%nat → parent m = k → cle c (l !!! m) (l !!! j)) →
  cle c (l !!! k) (l !!! j) → heap_but k k0 n l → heap_but j k0 n (swap_list l j k).
Proof.
  intros Hn Hk0 Hj Hjk Hbig Hc Hh m Hm Hk. pose proof (parent_lt j ltac:(lia)).
  pose proof (parent_lt m ltac:(lia)). destruct (Hh m Hm Hk) as [H1 H2]. split.
  - intros Hp. destruct (decide (m = j)) as [->|Hmj].
    + by rewrite Hjk, swap_at_l, swap_at_r by lia.
    + destruct (decide (parent m = k)) as [Hpk|Hpk].
      * rewrite Hpk, swap_at_r, swap_at_ne by lia. by apply Hbig.
      * rewrite (swap_at_ne _ _ _ (parent m)) by lia.
        destruct (decide (m = k)) as [->|Hmk].
        -- rewrite swap_at_r by lia. destruct (Hh j Hj ltac:(lia)) as [_ H3]. apply H3; lia.
        -- rewrite swap_at_ne by lia. by apply H1.
  - intros Hp _ _. rewrite Hjk, swap_at_r, swap_at_ne by lia.
    destruct (decide (parent m = k)); [lia|]. rewrite <- Hp. by apply H1.
Qed.

Lemma heap_but_stop `{!CmpOrder c} l k k0 n :
  (∀ m, (0 < m <= n)%nat → parent m = k → cle c (l !!! m) (l !!! k)) →
  heap_but k k0 n l → heap_from k0 n l.
Proof.
  intros Hk Hh m Hm Hp. destruct (decide (parent m = k)) as [E|]; [rewrite E; by apply Hk|].
  by apply (Hh m Hm Hp).
Qed.

Lemma siftdown_heap `{!CmpOrder c} fuel k k0 n l :
  (n < length l)%nat → (k0 <= k)%nat → (n - k <= fuel)%nat →
  heap_but k k0 n l → heap_from k0 n (siftdown_list fuel k n l).
Proof.
  revert k l. induction fuel as [|fuel IH]; intros k l Hn Hk Hf Hh; cbn [siftdown_list];
    destruct (Nat.leb_spec (2 * k + 1) n); try lia;
    try (apply (heap_but_stop _ k); [|done]; intros m Hm Hp; apply parent_child in Hp; lia).
  destruct (big_child_spec l k n) as (Hj & Hjk & Hbig); [done|].
  set (j := big_child l k n) in *. pose proof (parent_lt j ltac:(lia)).
  destruct (Z.leb_spec 0 (c (l !!! k) (l !!! j))) as [Hc|Hc].
  - apply (heap_but_stop _ k); [|done]. intros m Hm Hp.
    eapply cmp_trans; [by apply Hbig|]. by apply cmp_flip.
  - apply IH; rewrite ?length_swap; try lia.
    eapply heap_but_swap; try done. unfold cle. lia.
Qed.

Lemma big_child_le l k n : (2 * k + 1 <= n)%nat → (k < big_child l k n <= n)%nat.
Proof. intros. unfold big_child. case_bool_decide; cbn; [destruct (_ <? _)|]; lia. Qed.

Lemma siftdown_perm fuel k n l :
  (n < length l)%nat → siftdown_list fuel k n l ≡ₚ l ∧
  (∀ i, (n < i)%nat → siftdown_list fuel k n l !!! i = l !!! i) ∧
  (∀ i, (i <= n)%nat → ∃ i', (i' <= n)%nat ∧ siftdown_list fuel k n l !!! i = l !!! i').
Proof.
  revert k l. induction fuel as [|fuel IH]; intros k l Hn; cbn [siftdown_list];
    destruct (Nat.leb_spec (2 * k + 1) n); try by eauto.
  pose proof (big_child_le l k n ltac:(done)).
  destruct (0 <=? _); [by eauto|].
  set (j := big_child l k n) in *.
  destruct (IH j (swap_list l j k)) as (Hp & Hi & He); [by rewrite length_swap|]. split_and!.
  - rewrite Hp. apply swap_perm; lia.
  - intros i Hni. rewrite Hi by done. apply swap_at_ne; lia.
  - intros i (i' & Hi' & ->)%He. destruct (decide (i' = j)) as [->|]; [|destruct (decide (i' = k)) as [->|]].
    + exists k. split; [lia|]. apply swap_at_l; lia.
    + exists j. split; [lia|]. apply swap_at_r; lia.
    + exists i'. split; [done|]. by apply swap_at_ne.
Qed.

Lemma length_siftdown fuel k n l :
  (n < length l)%nat → length (siftdown_list fuel k n l) = length l.
Proof. intros. apply Permutation_length. by apply siftdown_perm. Qed.

Lemma heapify_heap `{!CmpOrder c} k n l :
  (n < length l)%nat → heap_from (S k) n l → heap_from 0 n (heapify_list k n l).
Proof.
  revert l. induction k as [|k IH]; intros l Hn Hh; cbn [heapify_list].
  - apply siftdown_heap; [done|lia|lia|]. intros m Hm _. split; [|lia].
    intros Hp. apply Hh; lia.
  - apply IH; [by rewrite length_siftdown|]. apply siftdown_heap; [done|lia|lia|].
    intros m Hm Hk. split; [intros Hp; apply Hh; lia|].
    intros _ _ Hp. pose proof (parent_lt (S k)). lia.
Qed.

Lemma heapify_perm k n l : (n < length l)%nat → heapify_list k n l ≡ₚ l.
Proof.
  revert l. induction k as [|k IH]; intros l Hn; cbn [heapify_list]; [by apply siftdown_perm|].
  rewrite IH by by rewrite length_siftdown. by apply siftdown_perm.
Qed.

Lemma heap_root `{!CmpOrder c} n l m : heap_from 0 n l → (m <= n)%nat → cle c (l !!! m) (l !!! 0%nat).
Proof.
  intros Hh. induction m as [m IH] using lt_wf_ind. intros Hm.
  destruct (decide (m = 0)%nat) as [->|]; [reflexivity|]. pose proof (parent_lt m).
  etrans; [apply Hh; lia|]. apply IH; lia.
Qed.

(** The elements after [n] are in place. *)
Definition tail_sorted (n : nat) (l : list K) : Prop :=
  ∀ i j, (i < j < length l)%nat → (n < j)%nat → cle c (l !!! i) (l !!! j).

Lemma tail_swap `{!CmpOrder c} m l :
  (S m < length l)%nat → heap_from 0 (S m) l → tail_sorted (S m) l → tail_sorted m (swap_list l 0 (S m)).
Proof.
  intros Hl Hh Ht i j. rewrite length_swap. intros Hij Hj.
  destruct (decide (j = S m)) as [->|Hne].
  - rewrite swap_at_r by lia. destruct (decide (i = 0)%nat) as [->|].
    + rewrite swap_at_l by lia. by apply (heap_root (S m)).
    + rewrite swap_at_ne by lia. apply (heap_root (S m)); [done|lia].
  - rewrite (swap_at_ne _ _ _ j) by lia.
    destruct (decide (i = 0)%nat) as [->|]; [|destruct (decide (i = S m)) as [->|]].
    + rewrite swap_at_l by lia. apply Ht; lia.
    + rewrite swap_at_r by lia. apply Ht; lia.
    + rewrite swap_at_ne by lia. apply Ht; lia.
Qed.

Lemma tail_siftdown `{!CmpOrder c} fuel k n l :
  (n < length l)%nat → tail_sorted n l → tail_sorted n (siftdown_list fuel k n l).
Proof.
  intros Hl Ht i j. rewrite length_siftdown by done. intros Hij Hj.
  destruct (siftdown_perm fuel k n l Hl) as (_ & Hi & He). rewrite (Hi j) by done.
  destruct (decide (n < i)%nat); [rewrite (Hi i) by done; by apply Ht|].
  destruct (He i) as (i' & ? & ->); [lia|]. apply Ht; lia.
Qed.

Lemma extract_sorted `{!CmpOrder c} n l :
  (n < length l)%nat → heap_from 0 n l → tail_sorted n l → tail_sorted 0 (extract_list n l).
Proof.
  revert l. induction n as [|m IH]; intros l Hl Hh Ht; [done|]. cbn [extract_list].
  pose proof (tail_swap m l Hl Hh Ht) as Ht'. destruct m as [|m']; [done|]. set (m := S m') in *.
  assert (m < length (swap_list l 0 (S m)))%nat by (rewrite length_swap; lia).
  apply IH; [by rewrite length_siftdown| |by apply tail_siftdown].
  apply siftdown_heap; [done|lia|lia|]. intros i Hi _. split; [|lia]. intros Hp.
  pose proof (parent_lt i). rewrite !swap_at_ne by lia. apply Hh; lia.
Qed.

Lemma extract_perm n l : (n < length l)%nat → extract_list n l ≡ₚ l.
Proof.
  revert l. induction n as [|m IH]; intros l Hl; [done|]. cbn [extract_list].
  destruct m as [|m']; [apply swap_perm; lia|]. set (m := S m') in *.
  assert (m < length (swap_list l 0 (S m)))%nat by (rewrite length_swap; lia).
  rewrite IH by by rewrite length_siftdown.
  rewrite (proj1 (siftdown_perm _ _ _ _ ltac:(done))). apply swap_perm; lia.
Qed.

Lemma tail_sorted_Sorted l : tail_sorted 0 l → StronglySorted (cle c) l.
Proof.
  induction l as [|x l IH]; intros Ht; [constructor|]. apply StronglySorted_cons. split.
  - apply Forall_lookup. intros i y Hi. rewrite <- (list_lookup_total_correct _ _ _ Hi).
    apply lookup_lt_Some in Hi. apply (Ht 0%nat (S i)); cbn; lia.
  - apply IH. intros i j Hij Hj. apply (Ht (S i) (S j)); cbn; lia.
Qed.

Lemma heapsort_list_sorted `{!CmpOrder c} n l :
  length l = S n → Sorted (cle c) (heapsort_list n l).
Proof.
  intros Hl. apply StronglySorted_Sorted, tail_sorted_Sorted. unfold heapsort_list.
  destruct (Nat.eqb_spec n 0) as [->|Hn].
  { intros i j. lia. }
  pose proof (Permutation_length (heapify_perm (n / 2) n l ltac:(lia))) as El.
  apply extract_sorted; [lia| |intros i j; lia].
  apply heapify_heap; [lia|]. intros m Hm Hp. pose proof (parent_child m (parent m) ltac:(lia)) as [Hc _].
  destruct (Hc eq_refl); pose proof (Nat.div_mod_eq n 2); pose proof (Nat.mod_upper_bound n 2); lia.
Qed.

Lemma heapsort_list_perm n l : length l = S n → heapsort_list n l ≡ₚ l.
Proof.
  intros Hl. unfold heapsort_list. destruct (n =? 0)%nat; [done|].
  rewrite extract_perm; [apply heapify_perm; lia|].
  rewrite (Permutation_length (heapify_perm (n / 2) n l ltac:(lia))). lia.
Qed.
End heapsort.
