(* ===== verification/Qsort.v ===== *)
(** * Qsort: glibc's [stdlib/qsort.c] on the memory model

    [ls] sorts with [qsort_r]: a merge sort through a temporary array (on the stack up
    to 1024 bytes, from [malloc] above), an indirect merge sort for elements above 32
    bytes, and a heap sort when [malloc] fails.  The functions below work on the bytes
    of the array in memory and call the comparison function with pointers to elements,
    as the source does.  The start of every block is aligned to 16 bytes, as [malloc]
    and the ABI guarantee, so a pointer's alignment is that of its offset. *)

From S2P Require Import Prelude Mem Logic CStr.
Local Open Scope Z_scope.

(** A comparison function: two element pointers and the caller's argument. *)
Notation compar := (ptr → ptr → ptr → M Z).

Inductive swap_type_t := SWAP_WORDS_64 | SWAP_WORDS_32 | SWAP_VOID_ARG | SWAP_BYTES.

#[export] Instance swap_type_eq_dec : EqDecision swap_type_t.
Proof. solve_decision. Defined.

Definition QSORT_STACK_SIZE : Z := 1024.
Definition INDIRECT_SORT_SIZE_THRES : Z := 32.
Definition SWAP_GENERIC_SIZE : Z := 32.

Definition aligned (p : ptr) (a : Z) : bool :=
  match p with Null => true | Ptr _ o => o mod a =? 0 end.

(** ** Swapping *)

(** One exchange of [k] bytes at [a] and [b] through a temporary. *)
Definition swap_chunk (a b : ptr) (k : Z) : M unit :=
  t ← load_bytes a k;
  v ← load_bytes b k;
  store_bytes a v;;
  store_bytes b t.

(** [do { n -= k; ... } while (n)] *)
Fixpoint swap_words_loop (fuel : nat) (k : Z) (a b : ptr) (n : Z) : M unit :=
  match fuel with
  | O => stuck NoFuel
  | S fuel =>
    let n := u64 (n - k) in
    swap_chunk (padd a n) (padd b n) k;;
    if n =? 0 then mret tt else swap_words_loop fuel k a b n
  end.

Definition swap_words_64 (a b : ptr) (n : Z) : M unit :=
  swap_words_loop (Z.to_nat n) 8 a b n.
Definition swap_words_32 (a b : ptr) (n : Z) : M unit :=
  swap_words_loop (Z.to_nat n) 4 a b n.

(** The two loops of [__memswap]: chunks of 32 bytes from the front, then single bytes
    from the back. *)
Fixpoint memswap_bytes (n : nat) (p1 p2 : ptr) : M unit :=
  match n with
  | O => mret tt
  | S n =>
    swap_chunk (padd p1 (Z.of_nat n)) (padd p2 (Z.of_nat n)) 1;;
    memswap_bytes n p1 p2
  end.

Fixpoint memswap_loop (fuel : nat) (p1 p2 : ptr) (n : Z) : M unit :=
  match fuel with
  | O => stuck NoFuel
  | S fuel =>
    if SWAP_GENERIC_SIZE <? n then
      swap_chunk p1 p2 SWAP_GENERIC_SIZE;;
      memswap_loop fuel (padd p1 SWAP_GENERIC_SIZE) (padd p2 SWAP_GENERIC_SIZE) (n - SWAP_GENERIC_SIZE)
    else memswap_bytes (Z.to_nat n) p1 p2
  end.

Definition memswap (p1 p2 : ptr) (n : Z) : M unit := memswap_loop (S (Z.to_nat n)) p1 p2 n.

Definition do_swap (a b : ptr) (size : Z) (swap_type : swap_type_t) : M unit :=
  match swap_type with
  | SWAP_WORDS_64 => swap_words_64 a b size
  | SWAP_WORDS_32 => swap_words_32 a b size
  | _ => memswap a b size
  end.

Definition get_swap_type (pbase : ptr) (size : Z) : swap_type_t :=
  if (Z.land size 3 =? 0) && aligned pbase 4 then
    if size =? 4 then SWAP_WORDS_32
    else if (size =? 8) && aligned pbase 8 then SWAP_WORDS_64
    else SWAP_BYTES
  else SWAP_BYTES.

(** ** Heap sort *)

Section heapsort.
Context (base : ptr) (size : Z) (cmp : compar) (arg : ptr).

Definition elt (i : Z) : ptr := padd base (u64 (i * size)).

Fixpoint siftdown (fuel : nat) (k n : Z) (swap_type : swap_type_t) : M unit :=
  if u64 (2 * k + 1) <=? n then
    match fuel with
    | O => stuck NoFuel
    | S fuel =>
      let j := u64 (2 * k + 1) in
      right ← (if j <? n then r ← cmp (elt j) (elt (j + 1)) arg; mret (r <? 0) else mret false);
      let j := if right : bool then u64 (j + 1) else j in
      done_ ← (if j =? k then mret true else r ← cmp (elt k) (elt j) arg; mret (0 <=? r));
      if done_ : bool then mret tt
      else
        do_swap (elt j) (elt k) size swap_type;;
        siftdown fuel j n swap_type
    end
  else mret tt.

Fixpoint heapify_loop (k : nat) (n : Z) (swap_type : swap_type_t) : M unit :=
  siftdown (Z.to_nat n) (Z.of_nat k) n swap_type;;
  match k with O => mret tt | S k => heapify_loop k n swap_type end.

Definition heapify (n : Z) (swap_type : swap_type_t) : M unit :=
  heapify_loop (Z.to_nat (n / 2)) n swap_type.

Fixpoint extract_loop (n : nat) (swap_type : swap_type_t) : M unit :=
  match n with
  | O => stuck NoFuel
  | S m =>
    do_swap base (elt (Z.of_nat n)) size swap_type;;
    match m with
    | O => mret tt
    | S _ => siftdown m 0 (Z.of_nat m) swap_type;; extract_loop m swap_type
    end
  end.

Definition heapsort_r (n : Z) : M unit :=
  if n =? 0 then mret tt
  else
    let swap_type := get_swap_type base size in
    heapify n swap_type;;
    extract_loop (Z.to_nat n) swap_type.
End heapsort.

(** ** Merge sort *)

Record msort_param := MsortParam {
  mp_s : Z;
  mp_var : swap_type_t;
  mp_cmp : compar;
  mp_arg : ptr;
  mp_t : ptr }.

(** The comparison of the merge loops: through the pointers for [SWAP_VOID_ARG]. *)
Definition msort_cmp (p : msort_param) (b1 b2 : ptr) : M Z :=
  match mp_var p with
  | SWAP_VOID_ARG =>
    q1 ← load_ptr b1; q2 ← load_ptr b2; mp_cmp p q1 q2 (mp_arg p)
  | _ => mp_cmp p b1 b2 (mp_arg p)
  end.

(** The bytes a merge loop copies and advances by for one element. *)
Definition msort_step (p : msort_param) : Z :=
  match mp_var p with
  | SWAP_WORDS_32 => 4
  | SWAP_WORDS_64 | SWAP_VOID_ARG => 8
  | SWAP_BYTES => mp_s p
  end.

(** The merge loop of the four cases; returns [tmp], [b1], [n1] and [n2] at its end. *)
Fixpoint merge_loop (fuel : nat) (p : msort_param) (tmp b1 b2 : ptr) (n1 n2 : Z) :
    M (ptr * ptr * Z * Z) :=
  if (0 <? n1) && (0 <? n2) then
    match fuel with
    | O => stuck NoFuel
    | S fuel =>
      let st := msort_step p in
      r ← msort_cmp p b1 b2;
      if r <=? 0 then
        v ← load_bytes b1 st; store_bytes tmp v;;
        merge_loop fuel p (padd tmp st) (padd b1 st) b2 (n1 - 1) n2
      else
        v ← load_bytes b2 st; store_bytes tmp v;;
        merge_loop fuel p (padd tmp st) b1 (padd b2 st) n1 (n2 - 1)
    end
  else mret (tmp, b1, n1, n2).

Fixpoint msort_with_tmp (fuel : nat) (p : msort_param) (b : ptr) (n : Z) : M unit :=
  if n <=? 1 then mret tt
  else match fuel with
  | O => stuck NoFuel
  | S fuel =>
    let n1 := n / 2 in
    let n2 := n - n1 in
    let b2 := padd b (u64 (n1 * mp_s p)) in
    msort_with_tmp fuel p b n1;;
    msort_with_tmp fuel p b2 n2;;
    '(tmp, b1, n1, n2) ← merge_loop (Z.to_nat n) p (mp_t p) b b2 n1 n2;
    (if 0 <? n1 then memcpy tmp b1 (u64 (n1 * mp_s p));; mret tt else mret tt);;
    memcpy b (mp_t p) (u64 ((n - n2) * mp_s p));;
    mret tt
  end.

(** Difference of two pointers into one block. *)
Definition pdiff (p q : ptr) : M Z :=
  match p, q with
  | Ptr b1 o1, Ptr b2 o2 => if decide (b1 = b2) then mret (o1 - o2) else stuck OutOfBounds
  | _, _ => stuck NullDeref
  end.

(** The inner [do] loop of the in-place rearrangement, one cycle of the permutation. *)
Fixpoint cycle_loop (fuel : nat) (b tp ip : ptr) (s : Z) (j : Z) (jp kp : ptr) : M (Z * ptr) :=
  match fuel with
  | O => stuck NoFuel
  | S fuel =>
    d ← pdiff kp b;
    let k := d / s in
    store_ptr (padd tp (8 * j)) jp;;
    memcpy jp kp s;;
    let j := k in
    let jp := kp in
    kp ← load_ptr (padd tp (8 * k));
    if decide (kp = ip) then mret (j, jp) else cycle_loop fuel b tp ip s j jp kp
  end.

Definition indirect_msort_with_tmp (p : msort_param) (b : ptr) (n s : Z) : M unit :=
  let tp := padd (mp_t p) (n * 8) in
  let tmp_storage := padd tp (n * 8) in
  mfor (seqZ 0 n) (λ i, store_ptr (padd tp (8 * i)) (padd b (i * s)));;
  msort_with_tmp (Z.to_nat n) p tp n;;
  mfor (seqZ 0 n) (λ i,
    let ip := padd b (i * s) in
    kp ← load_ptr (padd tp (8 * i));
    if decide (kp = ip) then mret tt
    else
      memcpy tmp_storage ip s;;
      '(j, jp) ← cycle_loop (Z.to_nat n) b tp ip s i ip kp;
      store_ptr (padd tp (8 * j)) jp;;
      memcpy jp tmp_storage s;;
      mret tt).

Definition qsort_r_mergesort (pbase : ptr) (total_elems size : Z) (cmp : compar) (arg buf : ptr) : M unit :=
  if INDIRECT_SORT_SIZE_THRES <? size then
    indirect_msort_with_tmp (MsortParam 8 SWAP_VOID_ARG cmp arg buf) pbase total_elems size
  else
    msort_with_tmp (Z.to_nat total_elems)
      (MsortParam size (get_swap_type pbase size) cmp arg buf) pbase total_elems.

Definition qsort_r_malloc (pbase : ptr) (total_elems size : Z) (cmp : compar) (arg : ptr)
    (total_size : Z) : M bool :=
  buf ← malloc total_size;
  match buf with
  | Null => mret false
  | Ptr _ _ =>
    qsort_r_mergesort pbase total_elems size cmp arg buf;;
    free buf;;
    mret true
  end.

Definition qsort_r (pbase : ptr) (total_elems size : Z) (cmp : compar) (arg : ptr) : M unit :=
  if total_elems <=? 1 then mret tt
  else
    let total_size :=
      if INDIRECT_SORT_SIZE_THRES <? size then u64 (2 * total_elems * 8 + size)
      else u64 (total_elems * size) in
    if total_size <=? QSORT_STACK_SIZE then
      tmp ← new_block (replicate (Z.to_nat QSORT_STACK_SIZE) MUndef);
      qsort_r_mergesort pbase total_elems size cmp arg tmp;;
      drop_block tmp
    else
      ok ← qsort_r_malloc pbase total_elems size cmp arg total_size;
      if ok : bool then mret tt
      else heapsort_r pbase size cmp arg (total_elems - 1).

(** [qsort] passes a comparison function of two arguments. *)
Definition qsort (b : ptr) (n s : Z) (cmp : ptr → ptr → M Z) : M unit :=
  qsort_r b n s (λ p q _, cmp p q) Null.
