(* ===== verification/QsortSpec.v ===== *)
(** * QsortSpec: the sorting routines do to memory what [SortList] does to lists

    An array of values is stored as the concatenation of their encodings, each [s]
    bytes.  The comparison function is any one that, in every world that differs from
    the initial one in the array and the temporary space only, returns the comparison
    [c] of the two values it is pointed to and changes nothing. *)

From S2P Require Import Prelude Mem Logic Region CStr SortList Qsort.
Local Open Scope Z_scope.

Lemma memcpy_holds w dest src vs us n :
  holds w src vs → holds w dest us → len vs = n → len us = n →
  ∃ w', memcpy dest src n w = Ret dest w' ∧ holds w' dest vs ∧ only [(dest, n)] w w'.
Proof.
  intros Hs Hd Hn Hn'. destruct (holds_store w dest us vs Hd) as (w' & E & Hw & Ho); [lia|].
  exists w'. unfold memcpy. erewrite bind_ret by (by eapply holds_reads).
  erewrite bind_ret by exact E. by rewrite Hn' in Ho.
Qed.

(** ** Arrays *)

Section array.
Context {K : Type} (enc : K → list mval) (s : Z).
Hypothesis enc_len : ∀ k, len (enc k) = s.
Implicit Types (ks : list K).

Definition arr (ks : list K) : list mval := concat (enc <$> ks).

Lemma len_arr ks : len (arr ks) = len ks * s.
Proof using enc_len.
  unfold arr. induction ks as [|k ks IH]; cbn [fmap list_fmap concat length]; [done|].
  rewrite length_app. pose proof (enc_len k). lia.
Qed.

Lemma arr_app ks1 ks2 : arr (ks1 ++ ks2) = arr ks1 ++ arr ks2.
Proof. unfold arr. by rewrite fmap_app, concat_app. Qed.

Lemma arr_cons k ks : arr (k :: ks) = enc k ++ arr ks.
Proof. done. Qed.

Lemma holds_arr_app w p ks1 ks2 :
  holds w p (arr (ks1 ++ ks2)) ↔ holds w p (arr ks1) ∧ holds w (padd p (len ks1 * s)) (arr ks2).
Proof using enc_len. by rewrite arr_app, holds_app, len_arr. Qed.

Lemma holds_arr_cons w p k ks :
  holds w p (arr (k :: ks)) ↔ holds w p (enc k) ∧ holds w (padd p s) (arr ks).
Proof using enc_len. by rewrite arr_cons, holds_app, enc_len. Qed.

Lemma holds_arr_at w p ks i k :
  holds w p (arr ks) → ks !! i = Some k → holds w (padd p (Z.of_nat i * s)) (enc k).
Proof using enc_len.
  intros Hp Hi. rewrite <- (take_drop_middle _ _ _ Hi) in Hp.
  apply holds_arr_app in Hp as [_ [Hk _]%holds_arr_cons].
  apply lookup_lt_Some in Hi. rewrite length_take in Hk.
  by replace (Z.of_nat (i `min` length ks)) with (Z.of_nat i) in Hk by lia.
Qed.
End array.

(** ** Merge sort *)

Section msort.
Context {K : Type} (c : K → K → Z) (enc : K → list mval) (s : Z) (P : K → Prop).
Context (p : msort_param) (rs : list region) (w0 : world).
Hypothesis enc_len : ∀ k, len (enc k) = s.
Hypothesis s_pos : 0 < s.
Hypothesis step_s : msort_step p = s.
Hypothesis cmp_ok : ∀ w x y px py,
  only rs w0 w → P x → P y → holds w px (enc x) → holds w py (enc y) →
  msort_cmp p px py w = Ret (c x y) w.

Local Notation arr := (arr enc).

(** Copying one element to the free end of the temporary array. *)
Lemma copy_elem {A} w tmp src k T0 (f : unit → M A) :
  holds w src (enc k) → holds w tmp T0 → s <= len T0 →
  ∃ w', (v ← load_bytes src s; store_bytes tmp v ≫= f) w = f tt w' ∧
    holds w' tmp (enc k ++ drop (length (enc k)) T0) ∧ only [(tmp, s)] w w'.
Proof using enc_len.
  intros Hk Ht Hl. pose proof (enc_len k) as Ek.
  rewrite <- (take_drop (length (enc k)) T0) in Ht. apply holds_app in Ht as [Ht1 Ht2].
  assert (length (take (length (enc k)) T0) = length (enc k)) as El by (rewrite length_take; lia).
  destruct (holds_store w tmp _ (enc k) Ht1) as (w' & E & Hw & Ho); [lia|].
  exists w'. rewrite El, Ek in Ho, Ht2. split_and!; [|apply holds_app; split; [done|]|done].
  - erewrite bind_ret by (by eapply holds_reads). by erewrite bind_ret by exact E.
  - rewrite Ek. eapply only_holds_1; [done| |done]. destruct tmp; cbn; [done|]. lia.
Qed.

Record merged (xs ys out xs' ys' : list K) : Prop := Merged {
  mg_list : list_merge (cle c) xs ys = out ++ xs' ++ ys';
  mg_left : ∃ xs0, xs = xs0 ++ xs';
  mg_right : ∃ ys0, ys = ys0 ++ ys';
  mg_len : (length out + length xs' + length ys' = length xs + length ys)%nat;
  mg_done : xs' = [] ∨ ys' = [] }.

Lemma merge_loop_end fuel xs ys w tmp b1 b2 T0 :
  xs = [] ∨ ys = [] → holds w tmp T0 → len T0 = (len xs + len ys) * s →
  ∃ out xs' ys' T1 w',
    merge_loop fuel p tmp b1 b2 (len xs) (len ys) w =
      Ret (padd tmp (len out * s), padd b1 ((len xs - len xs') * s), len xs', len ys') w' ∧
    merged xs ys out xs' ys' ∧ holds w' tmp (arr out ++ T1) ∧
    len T1 = (len xs' + len ys') * s ∧ only [(tmp, len T0)] w w'.
Proof using Type.
  intros He Ht Hl. exists [], xs, ys, T0, w. rewrite Z.sub_diag, !padd_0. split_and!; [|split|done|done|done].
  - destruct He as [-> | ->]; cbn [length]; destruct fuel; cbn; [done..| |];
      by rewrite andb_false_r.
  - destruct He as [-> | ->]; [by rewrite list_merge_nil_l|by rewrite list_merge_nil_r, app_nil_r].
  - by exists [].
  - by exists [].
  - done.
  - done.
Qed.

Definition merge_spec (fuel : nat) : Prop := ∀ xs ys w tmp b1 b2 T0,
  (length xs + length ys <= fuel)%nat → Forall P xs → Forall P ys →
  holds w b1 (arr xs) → holds w b2 (arr ys) → holds w tmp T0 →
  len T0 = (len xs + len ys) * s →
  sep (tmp, len T0) (b1, len xs * s) → sep (tmp, len T0) (b2, len ys * s) →
  only rs w0 w → rsub [(tmp, len T0)] rs →
  ∃ out xs' ys' T1 w',
    merge_loop fuel p tmp b1 b2 (len xs) (len ys) w =
      Ret (padd tmp (len out * s), padd b1 ((len xs - len xs') * s), len xs', len ys') w' ∧
    merged xs ys out xs' ys' ∧ holds w' tmp (arr out ++ T1) ∧
    len T1 = (len xs' + len ys') * s ∧ only [(tmp, len T0)] w w'.

(** One round: [k] is copied to [tmp] and the loop goes on with what is left. *)
Lemma merge_round fuel k src xs ys w tmp b1 b2 T0 :
  merge_spec fuel →
  (length xs + length ys <= fuel)%nat → Forall P xs → Forall P ys →
  holds w src (enc k) → holds w b1 (arr xs) → holds w b2 (arr ys) → holds w tmp T0 →
  len T0 = (len xs + len ys) * s + s →
  sep (tmp, len T0) (b1, len xs * s) → sep (tmp, len T0) (b2, len ys * s) →
  only rs w0 w → rsub [(tmp, len T0)] rs →
  ∃ out xs' ys' T1 w',
    (v ← load_bytes src s; store_bytes tmp v;;
     merge_loop fuel p (padd tmp s) b1 b2 (len xs) (len ys)) w =
      Ret (padd tmp (len (k :: out) * s), padd b1 ((len xs - len xs') * s), len xs', len ys') w' ∧
    merged xs ys out xs' ys' ∧ holds w' tmp (arr (k :: out) ++ T1) ∧
    len T1 = (len xs' + len ys') * s ∧ only [(tmp, len T0)] w w'.
Proof using enc_len s_pos.
  intros IH Hf Px Py Hk Hx Hy Ht Hl Sx Sy Hw Hr.
  assert (0 <= (len xs + len ys) * s) by (apply Z.mul_nonneg_nonneg; lia).
  destruct (copy_elem w tmp src k T0 (λ _, merge_loop fuel p (padd tmp s) b1 b2 (len xs) (len ys)))
    as (w1 & E & Ht1 & Ho1); [done..|lia|].
  assert (only [(tmp, len T0)] w w1) as Ho1'.
  { eapply only_rsub; [exact Ho1|]. eapply rsub_cons_0; [by left|lia|apply rsub_nil]. }
  assert (len (drop (length (enc k)) T0) = len T0 - s) as Hdl.
  { rewrite length_drop. pose proof (enc_len k). lia. }
  pose proof (proj1 (holds_app _ _ _ _) Ht1) as [Ht1a Ht1b]. rewrite enc_len in Ht1b.
  assert (rsub [(padd tmp s, len T0 - s)] [(tmp, len T0)]) as Hr1.
  { eapply rsub_cons; [by left|lia|lia|apply rsub_nil]. }
  destruct (IH xs ys w1 (padd tmp s) b1 b2 (drop (length (enc k)) T0))
    as (out & xs' & ys' & T1 & w2 & E2 & Hm & Ht2 & Hn2 & Ho2); rewrite ?Hdl; try done.
  - eapply only_holds_1; [done| |done]. by rewrite (len_arr enc s).
  - eapply only_holds_1; [done| |done]. by rewrite (len_arr enc s).
  - lia.
  - eapply sep_sub_l; [exact Sx|lia..].
  - eapply sep_sub_l; [exact Sy|lia..].
  - etrans; [exact Hw|]. by eapply only_rsub.
  - by etrans.
  - rewrite Hdl in Ho2. exists out, xs', ys', T1, w2. split_and!; [|done| |done|].
    + rewrite E, E2, padd_padd. cbn [length]. repeat f_equal. lia.
    + rewrite arr_cons, <- (assoc_L (++)). apply holds_app. rewrite enc_len. split; [|done].
      eapply only_holds_1; [exact Ho2| |done]. destruct tmp; cbn; [done|]. rewrite enc_len. lia.
    + etrans; [done|]. by eapply only_rsub.
Qed.

Lemma merge_loop_ok fuel : merge_spec fuel.
Proof using enc_len s_pos step_s cmp_ok.
  induction fuel as [|fuel IH]; intros xs ys w tmp b1 b2 T0 Hf Px Py Hx Hy Ht Hl Sx Sy Hw Hr.
  { destruct xs, ys; cbn in Hf; try lia. by apply merge_loop_end; [left|..]. }
  destruct Px as [|x xs Pkx Px]; [by apply merge_loop_end; [left|..]|].
  destruct Py as [|y ys Pky Py]; [by apply merge_loop_end; [right|..]|].
  pose proof (proj1 (holds_arr_cons enc s enc_len w b1 x xs) Hx) as [Hx1 Hx2].
  pose proof (proj1 (holds_arr_cons enc s enc_len w b2 y ys) Hy) as [Hy1 Hy2].
  cbn [merge_loop length] in *. rewrite !(proj2 (Z.ltb_lt 0 _)) by lia. cbn [andb].
  erewrite bind_ret by (by apply (cmp_ok w x y)). rewrite step_s.
  destruct (Z.leb_spec (c x y) 0) as [Hc|Hc].
  - destruct (merge_round fuel x b1 xs (y :: ys) w tmp (padd b1 s) b2 T0)
      as (out & xs' & ys' & T1 & w' & E & [Ml [xs0 ->] Mr Mn Md] & Ht' & Hn & Ho);
      cbn [length]; try done; [lia|by constructor|lia|eapply sep_sub_r; [exact Sx|lia..]|].
    exists (x :: out), xs', ys', T1, w'. split_and!; [|split|done|done|done].
    + cbn [length] in E. replace (Z.of_nat (S (length (xs0 ++ xs'))) - 1) with (len (xs0 ++ xs')) by lia.
      rewrite E, padd_padd. repeat f_equal. lia.
    + rewrite list_merge_cons, decide_True by done. by rewrite Ml.
    + by exists (x :: xs0).
    + done.
    + cbn in *. lia.
    + done.
  - destruct (merge_round fuel y b2 (x :: xs) ys w tmp b1 (padd b2 s) T0)
      as (out & xs' & ys' & T1 & w' & E & [Ml Mr [ys0 ->] Mn Md] & Ht' & Hn & Ho);
      cbn [length]; try done; [lia|by constructor|lia|eapply sep_sub_r; [exact Sy|lia..]|].
    exists (y :: out), xs', ys', T1, w'. split_and!; [|split|done|done|done].
    + cbn [length] in E. replace (Z.of_nat (S (length (ys0 ++ ys'))) - 1) with (len (ys0 ++ ys')) by lia.
      by rewrite E.
    + rewrite list_merge_cons, decide_False by (unfold cle; lia). by rewrite Ml.
    + done.
    + by exists (y :: ys0).
    + cbn in *. lia.
    + done.
Qed.

(** What [msort_with_tmp] does after its two recursive calls. *)
Definition merge_back (b : ptr) (n n1 n2 : Z) : M unit :=
  '(tmp, b1, n1, n2) ← merge_loop (Z.to_nat n) p (mp_t p) b (padd b (n1 * s)) n1 n2;
  (if 0 <? n1 then memcpy tmp b1 (u64 (n1 * s));; mret tt else mret tt);;
  memcpy b (mp_t p) (u64 ((n - n2) * s));;
  mret tt.

Lemma keep_arr w w' r q ks :
  only [r] w w' → sep r (q, len ks * s) → holds w q (arr ks) → holds w' q (arr ks).
Proof using enc_len.
  intros Ho Hs. apply (only_keep _ _ _ _ _ Ho). intros r' ->%list_elem_of_singleton.
  by rewrite (len_arr enc s).
Qed.

(** Copying the rest of the left half after the merged elements. *)
Lemma copy_rest w tmp b1 out xs T1 :
  holds w (mp_t p) (arr out ++ T1) → holds w b1 (arr xs) → len xs * s <= len T1 → len xs * s < 2 ^ 64 →
  sep (mp_t p, len out * s + len T1) (b1, len xs * s) → tmp = padd (mp_t p) (len out * s) →
  ∃ T2 w', (if 0 <? len xs then memcpy tmp b1 (u64 (len xs * s));; mret tt else mret tt) w = Ret tt w' ∧
    holds w' (mp_t p) (arr (out ++ xs) ++ T2) ∧ len T2 = len T1 - len xs * s ∧
    only [(mp_t p, len out * s + len T1)] w w'.
Proof using enc_len s_pos.
  intros Ht Hx Hl Hb Hs ->. destruct xs as [|x xs].
  { exists T1, w. cbn. rewrite app_nil_r. split_and!; try done. lia. }
  set (l := x :: xs) in *. rewrite (proj2 (Z.ltb_lt 0 (len l))) by (cbn; lia).
  assert (0 <= len l * s) by (apply Z.mul_nonneg_nonneg; lia).
  rewrite u64_small by (unfold is_u64; lia).
  apply holds_app in Ht as [Ht1 Ht2]. rewrite (len_arr enc s) in Ht2 by done.
  rewrite <- (take_drop (Z.to_nat (len l * s)) T1) in Ht2. apply holds_app in Ht2 as [Ht2 Ht3].
  assert (len (take (Z.to_nat (len l * s)) T1) = len l * s) as El by (rewrite length_take; lia).
  rewrite El in Ht3.
  destruct (memcpy_holds w _ b1 (arr l) _ (len l * s) Hx Ht2) as (w' & E & Hw & Ho);
    [by apply len_arr|done|].
  exists (drop (Z.to_nat (len l * s)) T1), w'. erewrite bind_ret by exact E.
  split_and!; [done| |rewrite length_drop; lia|].
  - rewrite arr_app, <- (assoc_L (++)). rewrite !holds_app, !(len_arr enc s) by done. split_and!; [|done|].
    + eapply keep_arr; [exact Ho| |done]. destruct (mp_t p); cbn; [done|lia].
    + eapply only_holds_1; [exact Ho| |done]. destruct (mp_t p); cbn; [done|lia].
  - eapply only_rsub; [exact Ho|].
    eapply rsub_cons; [by left|apply Z.mul_nonneg_nonneg; lia|lia|apply rsub_nil].
Qed.

Lemma merge_back_ok xs ys w b T0 :
  Forall P xs → Forall P ys → holds w b (arr (xs ++ ys)) → holds w (mp_t p) T0 →
  len T0 = (len xs + len ys) * s → (len xs + len ys) * s < 2 ^ 63 →
  sep (b, (len xs + len ys) * s) (mp_t p, len T0) →
  only rs w0 w → rsub [(b, (len xs + len ys) * s); (mp_t p, len T0)] rs →
  ∃ T1 w', merge_back b (len xs + len ys) (len xs) (len ys) w = Ret tt w' ∧
    holds w' b (arr (list_merge (cle c) xs ys)) ∧ holds w' (mp_t p) T1 ∧ len T1 = len T0 ∧
    only [(b, (len xs + len ys) * s); (mp_t p, len T0)] w w'.
Proof using enc_len s_pos step_s cmp_ok.
  intros Px Py Hb Ht Hl Hbd Hs Hw Hr. set (n := len xs + len ys) in *.
  assert (0 <= len xs * s) by (apply Z.mul_nonneg_nonneg; lia).
  assert (0 <= len ys * s) by (apply Z.mul_nonneg_nonneg; lia).
  assert (n * s = len xs * s + len ys * s) as En by (unfold n; lia).
  pose proof (proj1 (holds_arr_app enc s enc_len w b xs ys) Hb) as [Hx Hy].
  apply sep_sym in Hs as Hs'.
  destruct (merge_loop_ok (Z.to_nat n) xs ys w (mp_t p) b (padd b (len xs * s)) T0)
    as (out & xs' & ys' & T1 & w1 & E1 & [Ml [xs0 Ex] [ys0 Ey] Mn Md] & Ht1 & Hn & Ho1); try done.
  { lia. }
  { rewrite <- (padd_0 b). eapply sep_sub_r; [exact Hs'|lia..]. }
  { eapply sep_sub_r; [exact Hs'|lia..]. }
  { etrans; [|exact Hr]. apply rsub_cons_0 with (len T0); [by right; left|lia|apply rsub_nil]. }
  assert (holds w1 b (arr (xs ++ ys))) as Hb1.
  { eapply keep_arr; [exact Ho1| |done]. rewrite length_app, Nat2Z.inj_add. exact Hs'. }
  assert (len out + len xs' + len ys' = n) as En' by lia.
  assert (0 <= len xs' * s) by (apply Z.mul_nonneg_nonneg; lia).
  assert (0 <= len ys' * s) by (apply Z.mul_nonneg_nonneg; lia).
  assert (0 <= len out * s) by (apply Z.mul_nonneg_nonneg; lia).
  assert (len out * s + len T1 = len T0) as Eo by (rewrite Hl, <- En'; lia).
  assert (len xs = len xs0 + len xs') as El by (subst xs; rewrite length_app; lia).
  assert (len xs0 * s + len xs' * s = len xs * s) as Els by (rewrite El; lia).
  assert (0 <= len xs0 * s) by (apply Z.mul_nonneg_nonneg; lia).
  destruct (copy_rest w1 (padd (mp_t p) (len out * s)) (padd b ((len xs - len xs') * s)) out xs' T1)
    as (T2 & w2 & E2 & Ht2 & Hn2 & Ho2); try done.
  { rewrite Ex in Hb1. apply (holds_arr_app enc s enc_len) in Hb1 as [Hb1 _].
    apply (holds_arr_app enc s enc_len) in Hb1 as [_ Hb1].
    by replace (len xs - len xs') with (len xs0) by lia. }
  { lia. }
  { lia. }
  { rewrite Eo. eapply sep_sub_r; [exact Hs'|lia..]. }
  rewrite Eo in Ho2.
  assert (list_merge (cle c) xs ys = (out ++ xs') ++ ys') as Em by (by rewrite Ml, (assoc_L (++))).
  assert (holds w2 b (arr (xs ++ ys))) as Hb2.
  { eapply keep_arr; [exact Ho2| |done]. rewrite length_app, Nat2Z.inj_add. exact Hs'. }
  assert ((n - len ys') * s = len (out ++ xs') * s) as Ec by (rewrite length_app; lia).
  rewrite Ey, (assoc_L (++)) in Hb2. apply (holds_arr_app enc s enc_len) in Hb2 as [Hb2 Hb3].
  assert (len (xs ++ ys0) = len (out ++ xs')) as Ell.
  { rewrite !length_app. apply (f_equal length) in Ey. rewrite length_app in Ey. lia. }
  pose proof (proj1 (holds_app _ _ _ _) Ht2) as [Ht2a _].
  assert (len (out ++ xs') * s <= n * s) by (rewrite length_app; lia).
  assert (0 <= len (out ++ xs') * s) by (apply Z.mul_nonneg_nonneg; lia).
  destruct (memcpy_holds w2 b (mp_t p) (arr (out ++ xs')) _ ((n - len ys') * s) Ht2a Hb2)
    as (w3 & E3 & Hb4 & Ho3); [by rewrite (len_arr enc s)|rewrite (len_arr enc s) by done; by rewrite Ell, Ec|].
  unfold merge_back. erewrite bind_ret by exact E1. cbn beta iota. erewrite bind_ret by exact E2.
  rewrite u64_small by (unfold is_u64; lia). erewrite bind_ret by exact E3.
  assert (len (arr (out ++ xs') ++ T2) = len T0) as ET.
  { rewrite length_app, Nat2Z.inj_add, (len_arr enc s), length_app by done. lia. }
  exists (arr (out ++ xs') ++ T2), w3. split_and!; [done| | |done|].
  - rewrite Em. apply (holds_arr_app enc s enc_len). split; [done|].
    rewrite Ell in Hb3. eapply keep_arr; [exact Ho3| |done]. rewrite Ec. destruct b; cbn; [done|lia].
  - eapply only_holds_1; [exact Ho3| |exact Ht2]. rewrite ET, Ec, <- (padd_0 b).
    eapply sep_sub_l; [exact Hs|lia..].
  - assert (rsub [(mp_t p, len T0)] [(b, n * s); (mp_t p, len T0)]) as Hrt.
    { apply rsub_cons_0 with (len T0); [by right; left|lia|apply rsub_nil]. }
    etrans; [eapply only_rsub; [exact Ho1|done]|]. etrans; [eapply only_rsub; [exact Ho2|done]|].
    eapply only_rsub; [exact Ho3|]. apply rsub_cons_0 with (n * s); [by left|lia|apply rsub_nil].
Qed.
Hypothesis param_s : mp_s p = s.

Lemma msort_with_tmp_unfold fuel b n :
  1 < n →
  msort_with_tmp (S fuel) p b n =
  (msort_with_tmp fuel p b (n / 2);;
   msort_with_tmp fuel p (padd b (u64 (n / 2 * s))) (n - n / 2);;
   '(tmp, b1, n1, n2) ← merge_loop (Z.to_nat n) p (mp_t p) b (padd b (u64 (n / 2 * s))) (n / 2) (n - n / 2);
   (if 0 <? n1 then memcpy tmp b1 (u64 (n1 * s));; mret tt else mret tt);;
   memcpy b (mp_t p) (u64 ((n - n2) * s));;
   mret tt).
Proof using param_s.
  intros Hn. cbn [msort_with_tmp]. rewrite (proj2 (Z.leb_gt n 1)) by done. by rewrite param_s.
Qed.

Lemma msort_halves (ks : list K) :
  1 < len ks →
  ∃ h, len ks / 2 = Z.of_nat h ∧ (length ks / 2 = h)%nat ∧
    len (take h ks) = Z.of_nat h ∧ len (drop h ks) = len ks - Z.of_nat h ∧
    Z.of_nat h + len (drop h ks) = len ks ∧ (0 < h < length ks)%nat.
Proof using Type.
  intros Hk. pose proof (half_bounds (length ks) ltac:(lia)) as Hh. exists (length ks / 2)%nat.
  assert (len ks / 2 = Z.of_nat (length ks / 2)) as -> by by rewrite Nat2Z.inj_div.
  set (h := (length ks / 2)%nat) in *. clearbody h.
  rewrite length_take, length_drop. split_and!; lia.
Qed.

Lemma msort_ok fuel ks w b T0 :
  (length ks <= fuel)%nat → Forall P ks → holds w b (arr ks) → holds w (mp_t p) T0 →
  len ks * s <= len T0 → len ks * s < 2 ^ 63 → sep (b, len ks * s) (mp_t p, len T0) →
  only rs w0 w → rsub [(b, len ks * s); (mp_t p, len T0)] rs →
  ∃ T1 w', msort_with_tmp fuel p b (len ks) w = Ret tt w' ∧
    holds w' b (arr (msort_list c fuel ks)) ∧ holds w' (mp_t p) T1 ∧ len T1 = len T0 ∧
    only [(b, len ks * s); (mp_t p, len T0)] w w'.
Proof using enc_len s_pos step_s cmp_ok param_s.
  revert ks w b T0. induction fuel as [|fuel IH]; intros ks w b T0 Hf Pk Hb Ht Hl Hbd Hs Hw Hr.
  { destruct ks; [|cbn in Hf; lia]. exists T0, w. done. }
  destruct (Z.leb_spec (len ks) 1) as [Hk|Hk].
  { exists T0, w. cbn [msort_with_tmp msort_list].
    rewrite (proj2 (Z.leb_le _ _)), (proj2 (Nat.leb_le _ _)) by lia. done. }
  rewrite msort_with_tmp_unfold by done.
  destruct (msort_halves ks Hk) as (h & Eh & Eh1 & Ek1 & Ek2 & Hh & Hh'). rewrite Eh.
  set (ks1 := take h ks) in *. set (ks2 := drop h ks) in *.
  assert (0 <= Z.of_nat h * s) by (apply Z.mul_nonneg_nonneg; lia).
  assert (0 <= len ks2 * s) by (apply Z.mul_nonneg_nonneg; lia).
  assert (len ks * s = Z.of_nat h * s + len ks2 * s) as En by (rewrite Ek2; lia).
  rewrite u64_small by (unfold is_u64; lia).
  rewrite <- (take_drop h ks) in Pk, Hb. fold ks1 ks2 in Pk, Hb. apply Forall_app in Pk as [Pk1 Pk2].
  apply (holds_arr_app enc s enc_len) in Hb as [Hb1 Hb2]. rewrite Ek1 in Hb2.
  assert (∀ d m d' m', 0 <= d → d + m <= len ks * s → 0 <= d' → d' + m' <= len T0 →
    sep (padd b d, m) (padd (mp_t p) d', m')) as Hsep.
  { intros. eapply sep_sub_l; [eapply sep_sub_r; [exact Hs|done..]|done..]. }
  assert (∀ d m m', 0 <= d → d + m <= len ks * s → m' <= len T0 →
    rsub [(padd b d, m); (mp_t p, m')] [(b, len ks * s); (mp_t p, len T0)]) as Hsub.
  { intros. eapply rsub_cons; [by left|done..|]. eapply rsub_cons_0; [by right; left|done|apply rsub_nil]. }
  destruct (IH ks1 w b T0) as (T1 & w1 & E1 & Hs1 & Ht1 & Hl1 & Ho1); rewrite ?Ek1; try done; try lia.
  { rewrite <- (padd_0 b), <- (padd_0 (mp_t p)). apply Hsep; lia. }
  { etrans; [|exact Hr]. rewrite <- (padd_0 b) at 1. apply Hsub; lia. }
  rewrite Ek1 in E1, Ho1.
  assert (only [(b, len ks * s); (mp_t p, len T0)] w w1) as Ho1'.
  { eapply only_rsub; [exact Ho1|]. rewrite <- (padd_0 b) at 1. apply Hsub; lia. }
  assert (holds w1 (padd b (Z.of_nat h * s)) (arr ks2)) as Hb2'.
  { eapply only_keep; [exact Ho1| |done]. rewrite (len_arr enc s) by done.
    intros r [-> | ->%list_elem_of_singleton]%elem_of_cons; [destruct b; cbn; [done|lia]|].
    apply sep_sym. rewrite <- (padd_0 (mp_t p)). apply Hsep; lia. }
  destruct (IH ks2 w1 (padd b (Z.of_nat h * s)) T1) as (T2 & w2 & E2 & Hs2 & Ht2 & Hl2 & Ho2); try done; try lia.
  { rewrite <- (padd_0 (mp_t p)). apply Hsep; lia. }
  { etrans; [exact Hw|]. by eapply only_rsub. }
  { etrans; [|exact Hr]. apply Hsub; lia. }
  assert (only [(b, len ks * s); (mp_t p, len T0)] w1 w2) as Ho2'.
  { eapply only_rsub; [exact Ho2|]. apply Hsub; lia. }
  assert (length (msort_list c fuel ks1) = length ks1) as El1 by apply Permutation_length, msort_list_perm.
  assert (length (msort_list c fuel ks2) = length ks2) as El2 by apply Permutation_length, msort_list_perm.
  assert (holds w2 b (arr (msort_list c fuel ks1))) as Hs1'.
  { eapply only_keep; [exact Ho2| |done]. rewrite (len_arr enc s), El1, Ek1 by done.
    intros r [-> | ->%list_elem_of_singleton]%elem_of_cons; [destruct b; cbn; [done|lia]|].
    apply sep_sym. rewrite <- (padd_0 b), <- (padd_0 (mp_t p)). apply Hsep; lia. }
  rewrite <- (take_drop (Z.to_nat (len ks * s)) T2) in Ht2. apply holds_app in Ht2 as [Ht2 Ht3].
  assert (len (take (Z.to_nat (len ks * s)) T2) = len ks * s) as Elt by (rewrite length_take; lia).
  destruct (merge_back_ok (msort_list c fuel ks1) (msort_list c fuel ks2) w2 b
              (take (Z.to_nat (len ks * s)) T2)) as (T3 & w3 & E3 & Hs3 & Ht4 & Hl3 & Ho3);
    rewrite ?El1, ?El2, ?Ek1, ?Hh, ?Elt in *; try done.
  { by rewrite msort_list_perm. }
  { by rewrite msort_list_perm. }
  { apply (holds_arr_app enc s enc_len). by rewrite El1, Ek1. }
  { rewrite <- (padd_0 b), <- (padd_0 (mp_t p)). apply Hsep; lia. }
  { etrans; [exact Hw|]. eapply only_rsub; [|exact Hr]. by etrans. }
  { etrans; [|exact Hr]. rewrite <- (padd_0 b) at 1. apply Hsub; lia. }
  assert (len T2 = len T0) as ET2 by lia.
  assert (len (drop (Z.to_nat (len ks * s)) T2) = len T0 - len ks * s) as Eld by (rewrite length_drop; lia).
  exists (T3 ++ drop (Z.to_nat (len ks * s)) T2), w3. split_and!.
  - erewrite bind_ret by exact E1. rewrite <- Ek2. erewrite bind_ret by exact E2. exact E3.
  - cbn [msort_list]. rewrite (proj2 (Nat.leb_gt _ _)) by lia. by rewrite Eh1.
  - apply holds_app. split; [done|]. rewrite Hl3. eapply only_keep; [exact Ho3| |done]. rewrite Eld.
    intros r [-> | ->%list_elem_of_singleton]%elem_of_cons; [|destruct (mp_t p); cbn; [done|lia]].
    rewrite <- (padd_0 b). apply Hsep; lia.
  - rewrite length_app. lia.
  - etrans; [exact Ho1'|]. etrans; [exact Ho2'|]. eapply only_rsub; [exact Ho3|].
    rewrite <- (padd_0 b) at 1. apply Hsub; lia.
Qed.
End msort.
