(* ===== verification/QsortHeap.v ===== *)
(** * QsortHeap: the exchange functions and the heap sort of [stdlib/qsort.c] in memory

    [do_swap] exchanges two elements whatever the exchange type, and [heapsort_r] does to
    the stored array what [SortList.heapsort_list] does to the list of its elements. *)

From S2P Require Import Prelude Mem Logic Region CStr SortList Qsort QsortSpec.
Local Open Scope Z_scope.

(** The step from [w] to [w'] exchanges [x], stored at [a], with [y], stored at [b]. *)
Record swapped (w : world) (a : ptr) (x : list mval) (b : ptr) (y : list mval) (w' : world) : Prop := Swapped {
  sw_a : holds w' a y;
  sw_b : holds w' b x;
  sw_only : only [(a, len x); (b, len y)] w w' }.

Definition swappable (w : world) (a : ptr) (x : list mval) (b : ptr) (y : list mval) : Prop :=
  holds w a x ∧ holds w b y ∧ length x = length y ∧ sep (a, len x) (b, len y).

Lemma swap_chunk_ok w a x b y k :
  swappable w a x b y → k = len x →
  ∃ w', swap_chunk a b k w = Ret tt w' ∧ swapped w a x b y w'.
Proof.
  intros (Ha & Hb & Hl & Hs) ->.
  destruct (holds_store w a x y Ha) as (w1 & E1 & Ha1 & Ho1); [done|].
  assert (holds w1 b y) as Hb1 by by eapply only_holds_1.
  destruct (holds_store w1 b y x Hb1) as (w2 & E2 & Hb2 & Ho2); [done|].
  exists w2. split.
  - unfold swap_chunk. erewrite bind_ret by (by eapply holds_reads).
    erewrite bind_ret by (eapply holds_reads; [done|by rewrite Hl]).
    by erewrite bind_ret by exact E1.
  - split; [|done|].
    + eapply only_holds_1; [done| |done]. rewrite <- Hl at 2. by apply sep_sym.
    + etrans; (eapply only_1; [eassumption|]); [by left|by right; left].
Qed.

(** The regions of two adjacent pieces. *)
Lemma swappable_app w a x1 x2 b y1 y2 :
  length x1 = length y1 → swappable w a (x1 ++ x2) b (y1 ++ y2) →
  swappable w a x1 b y1 ∧ swappable w (padd a (len x1)) x2 (padd b (len y1)) y2 ∧
  sep (a, len x1) (padd b (len y1), len y2) ∧ sep (padd a (len x1), len x2) (b, len y1).
Proof.
  intros Hl (Ha & Hb & Hl' & Hs). rewrite !length_app in Hl', Hs.
  apply holds_app in Ha as [Ha1 Ha2], Hb as [Hb1 Hb2].
  unfold swappable. split_and!; try done; try lia.
  - rewrite <- (padd_0 a), <- (padd_0 b). eapply sep_sub_l; [eapply sep_sub_r; [exact Hs|lia..]|lia..].
  - eapply sep_sub_l; [eapply sep_sub_r; [exact Hs|lia..]|lia..].
  - rewrite <- (padd_0 a). eapply sep_sub_l; [eapply sep_sub_r; [exact Hs|lia..]|lia..].
  - rewrite <- (padd_0 b). eapply sep_sub_l; [eapply sep_sub_r; [exact Hs|lia..]|lia..].
Qed.

Lemma sep_adjacent p m n : 0 <= m → sep (p, m) (padd p m, n).
Proof. destruct p; cbn; [done|]. right. lia. Qed.

(** Exchanging the first pieces leaves the second ones ready to be exchanged, and the
    other way around. *)
Lemma swappable_rest w w1 a x1 x2 b y1 y2 :
  length x1 = length y1 → swappable w a (x1 ++ x2) b (y1 ++ y2) → swapped w a x1 b y1 w1 →
  swappable w1 (padd a (len x1)) x2 (padd b (len y1)) y2.
Proof.
  intros Hl Hs [_ _ Ho]. apply swappable_app in Hs as (_ & (Ha2 & Hb2 & H2) & Hs1 & Hs2); [|done].
  split_and!; try apply H2; (eapply only_keep; [exact Ho| |done]);
    intros r [-> | ->%list_elem_of_singleton]%elem_of_cons; try apply sep_adjacent; try lia.
  - by apply sep_sym.
  - done.
Qed.

Lemma swappable_first w w1 a x1 x2 b y1 y2 :
  length x1 = length y1 → swappable w a (x1 ++ x2) b (y1 ++ y2) →
  swapped w (padd a (len x1)) x2 (padd b (len y1)) y2 w1 → swappable w1 a x1 b y1.
Proof.
  intros Hl Hs [_ _ Ho]. apply swappable_app in Hs as ((Ha1 & Hb1 & H1) & _ & Hs1 & Hs2); [|done].
  split_and!; try apply H1; (eapply only_keep; [exact Ho| |done]);
    intros r [-> | ->%list_elem_of_singleton]%elem_of_cons;
    try (apply sep_sym, sep_adjacent; lia).
  - by apply sep_sym.
  - done.
Qed.

Lemma swapped_app w w1 w2 a x1 x2 b y1 y2 :
  length x1 = length y1 → swappable w a (x1 ++ x2) b (y1 ++ y2) →
  (swapped w a x1 b y1 w1 ∧ swapped w1 (padd a (len x1)) x2 (padd b (len y1)) y2 w2) ∨
  (swapped w (padd a (len x1)) x2 (padd b (len y1)) y2 w1 ∧ swapped w1 a x1 b y1 w2) →
  swapped w a (x1 ++ x2) b (y1 ++ y2) w2.
Proof.
  intros Hl Hs Hw. pose proof Hs as ((Ha1 & Hb1 & H1) & (Ha2 & Hb2 & Hl2 & H2) & Hs1 & Hs2)%swappable_app; [|done].
  assert (∀ n, rsub [(a, len x1); (b, len y1)] [(a, len x1 + Z.of_nat n); (b, len y1 + Z.of_nat n)]) as R1.
  { intros n. eapply rsub_cons_0; [by left|lia|]. eapply rsub_cons_0; [by right; left|lia|apply rsub_nil]. }
  assert (rsub [(padd a (len x1), len x2); (padd b (len y1), len y2)]
            [(a, len x1 + len x2); (b, len y1 + len y2)]) as R2.
  { eapply rsub_cons; [by left|lia|lia|]. eapply rsub_cons; [by right; left|lia|lia|apply rsub_nil]. }
  specialize (R1 (length x2)). rewrite Hl2 in R1 at 2.
  assert (∀ v, only [(a, len x1); (b, len y1)] v w2 → holds v (padd a (len x1)) y2 →
            holds v (padd b (len y1)) x2 → holds w2 (padd a (len x1)) y2 ∧ holds w2 (padd b (len y1)) x2) as K1.
  { intros v Ho Hv1 Hv2. split; (eapply only_keep; [exact Ho| |done]);
      intros r [-> | ->%list_elem_of_singleton]%elem_of_cons; try (apply sep_adjacent; lia).
    - rewrite <- Hl2. by apply sep_sym.
    - by rewrite Hl2. }
  assert (∀ v, only [(padd a (len x1), len x2); (padd b (len y1), len y2)] v w2 → holds v a y1 →
            holds v b x1 → holds w2 a y1 ∧ holds w2 b x1) as K2.
  { intros v Ho Hv1 Hv2. split; (eapply only_keep; [exact Ho| |done]);
      intros r [-> | ->%list_elem_of_singleton]%elem_of_cons; rewrite <- ?Hl;
      try (apply sep_sym, sep_adjacent; lia).
    - rewrite Hl at 1. by apply sep_sym.
    - by rewrite Hl at 2. }
  assert (holds w2 a y1 ∧ holds w2 b x1 ∧ holds w2 (padd a (len x1)) y2 ∧ holds w2 (padd b (len y1)) x2)
    as (? & ? & ? & ?).
  { destruct Hw as [[[A1 A2 A3] [B1 B2 B3]]|[[A1 A2 A3] [B1 B2 B3]]].
    - destruct (K2 _ B3 A1 A2). done.
    - destruct (K1 _ B3 A1 A2). done. }
  split; [apply holds_app; by rewrite <- Hl|apply holds_app; by rewrite Hl|].
  rewrite !length_app, !Nat2Z.inj_add.
  destruct Hw as [[[_ _ O1] [_ _ O2]]|[[_ _ O1] [_ _ O2]]];
    (etrans; [eapply only_rsub; [exact O1|done]|eapply only_rsub; [exact O2|done]]).
Qed.

Lemma memswap_bytes_ok w a x b y :
  swappable w a x b y → ∃ w', memswap_bytes (length x) a b w = Ret tt w' ∧ swapped w a x b y w'.
Proof.
  revert w y. induction x as [|v x IH] using rev_ind; intros w y Hs.
  - destruct y; [|by destruct Hs as (_ & _ & ? & _)].
    exists w. split; [done|]. split; [apply Hs..|reflexivity].
  - pose proof Hs as (_ & _ & Hl & _). destruct y as [|u y _] using rev_ind;
      rewrite !length_app in Hl; cbn in Hl; [lia|].
    assert (length x = length y) as Hl' by lia.
    pose proof (swappable_app _ _ _ _ _ _ _ Hl' Hs) as (_ & Hs2 & _).
    destruct (swap_chunk_ok w _ _ _ _ 1 Hs2) as (w1 & E1 & Hw1); [done|].
    destruct (IH w1 y) as (w2 & E2 & Hw2); [by eapply swappable_first|].
    exists w2. split; [|eapply swapped_app; [done|done|by right]].
    rewrite length_app. cbn [length]. replace (length x + 1)%nat with (S (length x)) by lia.
    cbn [memswap_bytes]. erewrite bind_ret; [exact E2|]. by rewrite Hl' at 2.
Qed.

Lemma memswap_loop_ok fuel w a x b y :
  (length x < fuel)%nat → swappable w a x b y →
  ∃ w', memswap_loop fuel a b (len x) w = Ret tt w' ∧ swapped w a x b y w'.
Proof.
  revert w a x b y. induction fuel as [|fuel IH]; intros w a x b y Hf Hs; [lia|].
  cbn [memswap_loop]. unfold SWAP_GENERIC_SIZE in *. destruct (Z.ltb_spec 32 (len x)) as [Hx|Hx].
  - pose proof Hs as (_ & _ & Hl & _).
    rewrite <- (take_drop 32 x), <- (take_drop 32 y) in Hs |- *.
    assert (length (take 32 x) = length (take 32 y)) as Hl' by (rewrite !length_take; lia).
    assert (len (take 32 x) = 32) as E32 by (rewrite length_take; lia).
    pose proof (swappable_app _ _ _ _ _ _ _ Hl' Hs) as (Hs1 & _).
    destruct (swap_chunk_ok w _ _ _ _ 32 Hs1) as (w1 & E1 & Hw1); [done|].
    destruct (IH w1 (padd a 32) (drop 32 x) (padd b 32) (drop 32 y)) as (w2 & E2 & Hw2).
    { rewrite length_drop. lia. }
    { pose proof (swappable_rest _ _ _ _ _ _ _ _ Hl' Hs Hw1) as H. by rewrite <- Hl', E32 in H. }
    exists w2. split.
    + erewrite bind_ret by exact E1. rewrite <- E2. f_equal. rewrite take_drop, length_drop. lia.
    + eapply swapped_app; [done|done|]. left. split; [done|]. by rewrite <- Hl', E32.
  - rewrite Nat2Z.id. by apply memswap_bytes_ok.
Qed.

(** An exchange type fits elements of a size when the word exchanges have that size. *)
Definition swap_fits (st : swap_type_t) (size : Z) : Prop :=
  match st with SWAP_WORDS_64 => size = 8 | SWAP_WORDS_32 => size = 4 | _ => True end.

Lemma get_swap_type_fits p size : swap_fits (get_swap_type p size) size.
Proof.
  unfold get_swap_type. destruct (_ && _); [|done].
  destruct (Z.eqb_spec size 4); [done|]. destruct (Z.eqb_spec size 8); [|done]. by destruct (aligned p 8).
Qed.

Lemma get_swap_type_direct p size : get_swap_type p size ≠ SWAP_VOID_ARG.
Proof. unfold get_swap_type. by repeat case_match. Qed.

Lemma do_swap_ok w a x b y st :
  swap_fits st (len x) → swappable w a x b y →
  ∃ w', do_swap a b (len x) st w = Ret tt w' ∧ swapped w a x b y w'.
Proof.
  intros Hf Hs.
  assert (∀ k, k = len x → ∃ w', swap_chunk (padd a 0) (padd b 0) k w = Ret tt w' ∧ swapped w a x b y w') as Hc.
  { intros k Hk. rewrite !padd_0. by apply swap_chunk_ok. }
  destruct st; cbn [do_swap]; try (by apply memswap_loop_ok; [lia|]).
  - cbn in Hf. destruct (Hc 8) as (w' & E & Hw); [done|]. exists w'. split; [|done].
    unfold swap_words_64. rewrite Hf. change (Z.to_nat 8) with 8%nat. cbn [swap_words_loop].
    change (u64 (8 - 8)) with 0. by erewrite bind_ret by exact E.
  - cbn in Hf. destruct (Hc 4) as (w' & E & Hw); [done|]. exists w'. split; [|done].
    unfold swap_words_32. rewrite Hf. change (Z.to_nat 4) with 4%nat. cbn [swap_words_loop].
    change (u64 (4 - 4)) with 0. by erewrite bind_ret by exact E.
Qed.

(** ** Heap sort *)

Section heapsort.
Set Default Proof Using "All".
Context {K : Type} `{!Inhabited K} (c : K → K → Z) (enc : K → list mval) (s : Z) (P : K → Prop).
Context (base : ptr) (cmp : ptr → ptr → ptr → M Z) (arg : ptr) (N : nat) (w0 : world).
Hypothesis enc_len : ∀ k, len (enc k) = s.
Hypothesis s_pos : 0 < s.
Hypothesis N_bound : Z.of_nat N * s < 2 ^ 63.
Hypothesis cmp_ok : ∀ w x y px py,
  only [(base, Z.of_nat N * s)] w0 w → P x → P y → holds w px (enc x) → holds w py (enc y) →
  cmp px py arg w = Ret (c x y) w.

Local Notation arr := (arr enc).
Local Notation elt i := (elt base s i).

(** The array in memory is [ks], and nothing else has changed since [w0]. *)
Record sorting (w : world) (ks : list K) : Prop := Sorting {
  so_len : length ks = N;
  so_good : Forall P ks;
  so_at : holds w base (arr ks);
  so_only : only [(base, Z.of_nat N * s)] w0 w }.

Lemma index_bound i : (i <= N)%nat → 0 <= Z.of_nat i * s < 2 ^ 63.
Proof. intros. split; [apply Z.mul_nonneg_nonneg; lia|nia]. Qed.

Lemma N_small : Z.of_nat N < 2 ^ 63.
Proof. nia. Qed.

Lemma elt_eq i : (i <= N)%nat → elt (Z.of_nat i) = padd base (Z.of_nat i * s).
Proof.
  intros Hi%index_bound. unfold Qsort.elt. by rewrite u64_small by (unfold is_u64; lia).
Qed.

Lemma sorting_elt w ks i :
  sorting w ks → (i < N)%nat → holds w (elt (Z.of_nat i)) (enc (ks !!! i)) ∧ P (ks !!! i).
Proof.
  intros [Hl Hg Ha _] Hi. rewrite elt_eq by lia.
  destruct (lookup_lt_is_Some_2 ks i) as [k Hk]; [lia|]. rewrite (list_lookup_total_correct _ _ _ Hk). split.
  - by eapply holds_arr_at.
  - by eapply Forall_lookup_1.
Qed.

Lemma sorting_cmp w ks i j :
  sorting w ks → (i < N)%nat → (j < N)%nat →
  cmp (elt (Z.of_nat i)) (elt (Z.of_nat j)) arg w = Ret (c (ks !!! i) (ks !!! j)) w.
Proof.
  intros Hs Hi Hj. destruct (sorting_elt _ _ i Hs Hi), (sorting_elt _ _ j Hs Hj).
  by apply cmp_ok; [apply Hs|..].
Qed.

Lemma sep_elts i j :
  i ≠ j → sep (padd base (Z.of_nat i * s), s) (padd base (Z.of_nat j * s), s).
Proof. intros Hne. apply sep_padd. clear -s_pos Hne. nia. Qed.

(** An array is stored when each of its elements is. *)
Lemma arr_intro w p ks :
  ks ≠ [] → (∀ i k, ks !! i = Some k → holds w (padd p (Z.of_nat i * s)) (enc k)) → holds w p (arr ks).
Proof.
  revert p. induction ks as [|k ks IH]; intros p Hn Hi; [done|].
  pose proof (Hi 0%nat k eq_refl) as H0. change (Z.of_nat 0 * s) with 0 in H0. rewrite padd_0 in H0.
  destruct ks as [|k' ks]; [unfold QsortSpec.arr; cbn; by rewrite app_nil_r|].
  apply (holds_arr_cons enc s enc_len). split; [done|].
  apply IH; [done|]. intros i k2 Hk. rewrite padd_padd.
  replace (s + Z.of_nat i * s) with (Z.of_nat (S i) * s) by lia. by apply Hi.
Qed.

Lemma sorting_swap w ks i j st :
  swap_fits st s → sorting w ks → (i < N)%nat → (j < N)%nat → i ≠ j →
  ∃ w', do_swap (elt (Z.of_nat i)) (elt (Z.of_nat j)) s st w = Ret tt w' ∧ sorting w' (swap_list ks i j).
Proof.
  intros Hf Hs Hi Hj Hne.
  destruct (sorting_elt _ _ i Hs Hi) as [Ei _], (sorting_elt _ _ j Hs Hj) as [Ej _].
  rewrite !elt_eq in * by lia. destruct Hs as [Hl Hg Ha Ho].
  destruct (do_swap_ok w (padd base (Z.of_nat i * s)) (enc (ks !!! i))
      (padd base (Z.of_nat j * s)) (enc (ks !!! j)) st) as (w' & E & [Sa Sb So]).
  { by rewrite enc_len. }
  { split_and!; [done..| |]; [apply Nat2Z.inj; by rewrite !enc_len|]. rewrite !enc_len. by apply sep_elts. }
  rewrite enc_len in E, So. rewrite enc_len in So. exists w'. split; [done|]. split.
  - by rewrite length_swap.
  - rewrite swap_perm; [done|lia..].
  - apply arr_intro; [intros E0%(f_equal length); rewrite length_swap in E0; cbn in E0; lia|].
    intros m k Hm. pose proof (lookup_lt_Some _ _ _ Hm) as Hmn. rewrite length_swap, Hl in Hmn.
    apply list_lookup_total_correct in Hm as <-.
    destruct (decide (m = i)) as [->|]; [by rewrite swap_at_l by lia|].
    destruct (decide (m = j)) as [->|]; [by rewrite swap_at_r by lia|].
    rewrite swap_at_ne by done. eapply only_keep; [exact So| |].
    + rewrite enc_len. intros r [-> | ->%list_elem_of_singleton]%elem_of_cons; by apply sep_elts.
    + eapply holds_arr_at; [done..|]. apply list_lookup_lookup_total_lt. lia.
  - etrans; [exact Ho|]. eapply only_rsub; [exact So|].
    eapply rsub_cons; [by left|apply index_bound; lia|nia|].
    eapply rsub_cons; [by left|apply index_bound; lia|nia|apply rsub_nil].
Qed.

Lemma right_child_ok w ks j n :
  sorting w ks → (j < N)%nat → (n < N)%nat →
  (if Z.of_nat j <? Z.of_nat n then r ← cmp (elt (Z.of_nat j)) (elt (Z.of_nat j + 1)) arg; mret (r <? 0)
   else mret false) w =
  Ret (bool_decide (j < n)%nat && (c (ks !!! j) (ks !!! (j + 1)%nat) <? 0)) w.
Proof.
  intros Hs Hj Hn. destruct (Z.ltb_spec (Z.of_nat j) (Z.of_nat n)).
  - rewrite bool_decide_true by lia. replace (Z.of_nat j + 1) with (Z.of_nat (j + 1)) by lia.
    by erewrite bind_ret by (apply sorting_cmp; [done|lia..]).
  - by rewrite bool_decide_false by lia.
Qed.

Lemma siftdown_ok fuel k n ks w st :
  swap_fits st s → sorting w ks → (n < N)%nat → (k <= n)%nat → (n - k <= fuel)%nat →
  ∃ w', siftdown base s cmp arg fuel (Z.of_nat k) (Z.of_nat n) st w = Ret tt w' ∧
    sorting w' (siftdown_list c fuel k n ks).
Proof.
  intros Hf. pose proof N_small as HN.
  revert k ks w. induction fuel as [|fuel IH]; intros k ks w Hs Hn Hk Hf';
    cbn [siftdown siftdown_list];
    rewrite u64_small by (unfold is_u64; lia);
    destruct (Z.leb_spec (2 * Z.of_nat k + 1) (Z.of_nat n)), (Nat.leb_spec (2 * k + 1) n); try lia;
    try by eauto.
  replace (2 * Z.of_nat k + 1) with (Z.of_nat (2 * k + 1)) by lia.
  erewrite bind_ret by (apply right_child_ok; [done|lia..]).
  pose proof (big_child_le c ks k n ltac:(done)) as Hj.
  assert ((if bool_decide (2 * k + 1 < n)%nat && (c (ks !!! (2 * k + 1)%nat) (ks !!! (2 * k + 1 + 1)%nat) <? 0)
           then u64 (Z.of_nat (2 * k + 1) + 1) else Z.of_nat (2 * k + 1)) = Z.of_nat (big_child c ks k n)) as ->.
  { unfold big_child. destruct (_ && _); [|done]. rewrite u64_small by (unfold is_u64; lia). lia. }
  set (j := big_child c ks k n) in *. rewrite (proj2 (Z.eqb_neq _ _)) by lia.
  erewrite bind_ret by (erewrite bind_ret by (apply sorting_cmp; [done|lia..]); done).
  destruct (0 <=? c (ks !!! k) (ks !!! j)); [by eauto|].
  destruct (sorting_swap w ks j k st) as (w1 & E & Hs1); try done; try lia.
  erewrite bind_ret by exact E. apply IH; [done|lia..].
Qed.

Lemma heapify_ok k n ks w st :
  swap_fits st s → sorting w ks → (n < N)%nat → (k <= n)%nat →
  ∃ w', heapify_loop base s cmp arg k (Z.of_nat n) st w = Ret tt w' ∧ sorting w' (heapify_list c k n ks).
Proof.
  intros Hf. revert ks w. induction k as [|k IH]; intros ks w Hs Hn Hk; cbn [heapify_loop heapify_list];
    rewrite Nat2Z.id.
  - destruct (siftdown_ok n 0 n ks w st) as (w1 & E & Hs1); try done; try lia.
    exists w1. by erewrite bind_ret by exact E.
  - destruct (siftdown_ok n (S k) n ks w st) as (w1 & E & Hs1); try done; try lia.
    erewrite bind_ret by exact E. apply IH; [done|lia..].
Qed.

Lemma extract_ok n ks w st :
  swap_fits st s → sorting w ks → (0 < n < N)%nat →
  ∃ w', extract_loop base s cmp arg n st w = Ret tt w' ∧ sorting w' (extract_list c n ks).
Proof.
  intros Hf. revert ks w. induction n as [|m IH]; intros ks w Hs Hn; [lia|].
  cbn [extract_loop extract_list].
  destruct (sorting_swap w ks 0 (S m) st) as (w1 & E & Hs1); try done; try lia.
  rewrite elt_eq, padd_0 in E by lia. erewrite bind_ret by exact E.
  destruct m as [|m']; [by eauto|].
  destruct (siftdown_ok (S m') 0 (S m') _ w1 st Hf Hs1) as (w2 & E2 & Hs2); [lia..|].
  erewrite bind_ret by exact E2. apply IH; [done|lia].
Qed.

Lemma heapsort_r_ok n ks w :
  sorting w ks → N = S n →
  ∃ w', heapsort_r base s cmp arg (Z.of_nat n) w = Ret tt w' ∧ sorting w' (heapsort_list c n ks).
Proof.
  intros Hs HN. unfold heapsort_r, heapsort_list.
  destruct (Z.eqb_spec (Z.of_nat n) 0), (Nat.eqb_spec n 0); try lia; [by eauto|].
  pose proof (get_swap_type_fits base s) as Hf.
  assert (Z.to_nat (Z.of_nat n / 2) = n / 2)%nat as En.
  { change 2 with (Z.of_nat 2) at 1. by rewrite <- Nat2Z.inj_div, Nat2Z.id. }
  destruct (heapify_ok (n / 2) n ks w _ Hf Hs) as (w1 & E1 & Hs1); [lia| |].
  { apply Nat.Div0.div_le_upper_bound. lia. }
  unfold heapify. rewrite En. erewrite bind_ret by exact E1. rewrite Nat2Z.id.
  apply extract_ok; [done..|lia].
Qed.
End heapsort.
