(* ===== verification/QsortIndirect.v ===== *)
(** * QsortIndirect: the indirect merge sort

    Elements above 32 bytes are not moved while they are merged: an array of pointers to
    them is sorted, and then the elements are brought into that order in place, one cycle
    of the permutation after the other, with the space of one element. *)

From S2P Require Import Prelude Mem Logic Region CStr SortList Qsort QsortSpec.
Local Open Scope Z_scope.

(** ** Sorting indices *)

Lemma merge_fmap {A K} (f : A → K) (c : K → K → Z) l1 l2 :
  list_merge (cle c) (f <$> l1) (f <$> l2) = f <$> list_merge (cle (λ x y, c (f x) (f y))) l1 l2.
Proof.
  revert l2. induction l1 as [|x l1 IH1]; intros l2; [by rewrite fmap_nil, !list_merge_nil_l|].
  induction l2 as [|y l2 IH2]; [by rewrite fmap_nil, !list_merge_nil_r|].
  cbn [fmap list_fmap] in *. rewrite !list_merge_cons.
  do 2 case_decide; try done; cbn [fmap list_fmap]; f_equal; [apply (IH1 (y :: l2))|apply IH2].
Qed.

(** The merge sort looks at the values through the comparison only. *)
Lemma msort_fmap {A K} (f : A → K) (c : K → K → Z) fuel l :
  msort_list c fuel (f <$> l) = f <$> msort_list (λ x y, c (f x) (f y)) fuel l.
Proof.
  revert l. induction fuel as [|fuel IH]; intros l; [done|]. cbn [msort_list]. rewrite length_fmap.
  destruct (_ <=? _)%nat; [done|]. by rewrite <- fmap_take, <- fmap_drop, !IH, merge_fmap.
Qed.

(** Two lists of [n] elements that agree everywhere. *)
Lemma same_list {B} n (l k : list B) : length l = n → length k = n → (∀ m, (m < n)%nat → l !! m = k !! m) → l = k.
Proof.
  intros Hl Hk H. apply list_eq. intros m. destruct (decide (m < n)%nat) as [?|?]; [by apply H|].
  by rewrite !lookup_ge_None_2 by lia.
Qed.

Lemma fmap_lookup_seq {K} `{!Inhabited K} (ks : list K) : (λ i, ks !!! i) <$> seq 0 (length ks) = ks.
Proof.
  apply (same_list (length ks)); [by rewrite length_fmap, length_seq|done|]. intros m Hm.
  rewrite list_lookup_fmap, lookup_seq_lt by done. symmetry. by apply list_lookup_lookup_total_lt.
Qed.

(** ** The rearrangement on lists *)

Section rearrange.
Set Default Proof Using "All".
Context {K : Type} `{!Inhabited K} (ks : list K) (perm : list nat).
Hypothesis perm_seq : perm ≡ₚ seq 0 (length ks).
Local Notation n := (length ks).
Implicit Types (D : gset nat) (i j m : nat).

(** The pointer array and the elements when the places in [D] have their final element. *)
Definition sources D : list nat := (λ m, if decide (m ∈ D) then m else perm !!! m) <$> seq 0 n.
Definition moved D : list K := (λ m, ks !!! (if decide (m ∈ D) then perm !!! m else m)) <$> seq 0 n.

Lemma perm_len : length perm = n.
Proof. by rewrite perm_seq, length_seq. Qed.

Lemma perm_lt m : (m < n)%nat → (perm !!! m < n)%nat.
Proof.
  intros Hm. destruct (lookup_lt_is_Some_2 perm m) as [k Hk]; [by rewrite perm_len|].
  rewrite (list_lookup_total_correct _ _ _ Hk). apply list_elem_of_lookup_2 in Hk.
  rewrite perm_seq, elem_of_seq in Hk. lia.
Qed.

Lemma perm_inj m m' : (m < n)%nat → (m' < n)%nat → perm !!! m = perm !!! m' → m = m'.
Proof.
  intros Hm Hm' E. assert (NoDup perm) as Hnd by (rewrite perm_seq; apply NoDup_seq).
  destruct (lookup_lt_is_Some_2 perm m) as [k Hk]; [by rewrite perm_len|].
  destruct (lookup_lt_is_Some_2 perm m') as [k' Hk']; [by rewrite perm_len|].
  rewrite (list_lookup_total_correct _ _ _ Hk), (list_lookup_total_correct _ _ _ Hk') in E. subst k'.
  by eapply NoDup_lookup.
Qed.

Lemma sources_len D : length (sources D) = n.
Proof. unfold sources. by rewrite length_fmap, length_seq. Qed.

Lemma moved_len D : length (moved D) = n.
Proof. unfold moved. by rewrite length_fmap, length_seq. Qed.

Lemma sources_at D m : (m < n)%nat → sources D !! m = Some (if decide (m ∈ D) then m else perm !!! m).
Proof. intros Hm. unfold sources. by rewrite list_lookup_fmap, lookup_seq_lt. Qed.

Lemma moved_at D m : (m < n)%nat → moved D !! m = Some (ks !!! (if decide (m ∈ D) then perm !!! m else m)).
Proof. intros Hm. unfold moved. by rewrite list_lookup_fmap, lookup_seq_lt. Qed.

Lemma sources_put D j : (j < n)%nat → <[j := j]> (sources D) = sources ({[j]} ∪ D).
Proof.
  intros Hj. apply (same_list n); [by rewrite length_insert, sources_len|apply sources_len|]. intros m Hm.
  rewrite sources_at by done. destruct (decide (m = j)) as [->|Hne].
  - rewrite list_lookup_insert_eq by by rewrite sources_len. by rewrite decide_True by set_solver.
  - rewrite list_lookup_insert_ne, sources_at by done. by repeat case_decide; try set_solver.
Qed.

Lemma moved_put D j : (j < n)%nat → <[j := ks !!! (perm !!! j)]> (moved D) = moved ({[j]} ∪ D).
Proof.
  intros Hj. apply (same_list n); [by rewrite length_insert, moved_len|apply moved_len|]. intros m Hm.
  rewrite moved_at by done. destruct (decide (m = j)) as [->|Hne].
  - rewrite list_lookup_insert_eq by by rewrite moved_len. by rewrite decide_True by set_solver.
  - rewrite list_lookup_insert_ne, moved_at by done. by repeat case_decide; try set_solver.
Qed.

Lemma sources_none : sources ∅ = perm.
Proof.
  apply (same_list n); [apply sources_len|apply perm_len|]. intros m Hm.
  rewrite sources_at, decide_False by (done || set_solver). symmetry. apply list_lookup_lookup_total_lt. by rewrite perm_len.
Qed.

Lemma moved_none : moved ∅ = ks.
Proof.
  apply (same_list n); [apply moved_len|done|]. intros m Hm. rewrite moved_at, decide_False by (done || set_solver).
  symmetry. by apply list_lookup_lookup_total_lt.
Qed.

Lemma moved_all D : (∀ m, (m < n)%nat → m ∈ D) → moved D = (λ m, ks !!! m) <$> perm.
Proof.
  intros HD. apply (same_list n); [apply moved_len|by rewrite length_fmap, perm_len|]. intros m Hm.
  rewrite moved_at, decide_True by auto. rewrite list_lookup_fmap, list_lookup_lookup_total_lt by by rewrite perm_len. done.
Qed.

(** A place that is its own source counts as done. *)
Lemma fixed_put D i : (i < n)%nat → perm !!! i = i → sources ({[i]} ∪ D) = sources D ∧ moved ({[i]} ∪ D) = moved D.
Proof.
  intros Hi E. rewrite <- sources_put, <- moved_put, E by done. split.
  - apply list_insert_id. rewrite sources_at by done. by case_decide; rewrite ?E.
  - apply list_insert_id. rewrite moved_at by done. by case_decide; rewrite ?E.
Qed.

(** Between two cycles: [D] consists of whole cycles. *)
Record whole D : Prop := Whole {
  wh_in : ∀ m, m ∈ D → (m < n)%nat;
  wh_back : ∀ m, (m < n)%nat → perm !!! m ∈ D → m ∈ D }.

(** Inside the cycle of [i]: the places from [i] up to [j] are done. *)
Record on_cycle D i j : Prop := OnCycle {
  oc_in : ∀ m, m ∈ D → (m < n)%nat;
  oc_i : (i < n)%nat;
  oc_j : (j < n)%nat;
  oc_new : j ∉ D;
  oc_back : ∀ m, (m < n)%nat → perm !!! m ∈ D → m ∈ D ∨ perm !!! m = i;
  oc_from : j = i ∨ i ∈ D ∧ ∃ m, m ∈ D ∧ perm !!! m = j }.

Lemma cycle_start D i : whole D → (i < n)%nat → i ∉ D → on_cycle D i i.
Proof. intros [Hin Hb] Hi Hn. split; try done; [auto|by left]. Qed.

Lemma cycle_next D i j : on_cycle D i j → perm !!! j ≠ i → on_cycle ({[j]} ∪ D) i (perm !!! j).
Proof.
  intros [Hin Hi Hj Hn Hb Hf] Hne. split; [|done|by apply perm_lt| | |].
  - intros m [->%elem_of_singleton|?]%elem_of_union; auto.
  - intros [E%elem_of_singleton|HD]%elem_of_union.
    + destruct Hf as [->|(_ & m & Hm & Em)]; [done|]. apply Hn.
      by rewrite <- (perm_inj m j) by (first [done|by auto|congruence]).
    + destruct (Hb j Hj HD); done.
  - intros m Hm [E%elem_of_singleton|HD]%elem_of_union.
    + destruct Hf as [->|(_ & m' & Hm' & Em')]; [by right|]. left.
      rewrite (perm_inj m m') by (first [done|by auto|congruence]). set_solver.
    + destruct (Hb m Hm HD); [left; set_solver|by right].
  - right. split; [destruct Hf as [->|[? _]]; set_solver|]. exists j. set_solver.
Qed.

Lemma cycle_end D i j : on_cycle D i j → perm !!! j = i → whole ({[j]} ∪ D) ∧ (i = j ∨ i ∈ D).
Proof.
  intros [Hin Hi Hj Hn Hb Hf] E. split; [split|].
  - intros m [->%elem_of_singleton|?]%elem_of_union; auto.
  - intros m Hm HD. apply elem_of_union. destruct (decide (m = j)) as [->|Hne]; [left; set_solver|right].
    apply elem_of_union in HD as [Em%elem_of_singleton|HD].
    + destruct Hf as [->|(_ & m' & Hm' & Em')].
      * destruct Hne. apply perm_inj; [done..|congruence].
      * rewrite (perm_inj m m') by (first [done|by auto|congruence]). done.
    + destruct (Hb m Hm HD) as [?|Em]; [done|]. destruct Hne. apply perm_inj; [done..|congruence].
  - destruct Hf as [->|[? _]]; auto.
Qed.
End rearrange.

(** ** The rearrangement in memory *)

(** Overwriting one element of a stored array. *)
Lemma arr_put {K} (enc : K → list mval) s w p l i k :
  (∀ k, len (enc k) = s) → 0 < s → holds w p (arr enc l) → (i < length l)%nat →
  ∃ w', store_bytes (padd p (Z.of_nat i * s)) (enc k) w = Ret tt w' ∧ holds w' p (arr enc (<[i := k]> l)) ∧
    only [(p, len l * s)] w w'.
Proof.
  intros He Hs Hp Hi. destruct (lookup_lt_is_Some_2 l i Hi) as [k0 Hk0].
  rewrite <- (take_drop_middle _ _ _ Hk0) in Hp. rewrite insert_take_drop by done.
  assert (len (take i l) = Z.of_nat i) as El by (rewrite length_take; lia).
  apply (holds_arr_app enc s He) in Hp as [H1 [H2 H3]%(holds_arr_cons enc s He)]. rewrite El, padd_padd in *.
  destruct (holds_store w (padd p (Z.of_nat i * s)) _ (enc k) H2) as (w' & E & H2' & Ho).
  { apply Nat2Z.inj. by rewrite !He. }
  rewrite He in Ho. exists w'. split; [done|]. split.
  - apply (holds_arr_app enc s He). split; [|apply (holds_arr_cons enc s He); rewrite El, ?padd_padd; split; [done|]].
    + eapply only_holds_1; [exact Ho| |done]. rewrite (len_arr enc s He), El, <- (padd_0 p) at 1. destruct p; cbn; [done|lia].
    + eapply only_holds_1; [exact Ho| |done]. destruct p; cbn; [done|lia].
  - eapply only_sub; [exact Ho|by left|apply Z.mul_nonneg_nonneg; lia|nia].
Qed.

Section cycles.
Set Default Proof Using "All".
Context {K : Type} `{!Inhabited K} (enc : K → list mval) (s : Z) (ks : list K) (perm : list nat).
Context (base tp ts : ptr).
Local Notation n := (length ks).
Hypothesis enc_len : ∀ k, len (enc k) = s.
Hypothesis s_pos : 0 < s.
Hypothesis perm_seq : perm ≡ₚ seq 0 n.
Hypothesis base_ptr : base ≠ Null.
Hypothesis tp_base : sep (tp, Z.of_nat n * 8) (base, Z.of_nat n * s).
Hypothesis ts_base : sep (ts, s) (base, Z.of_nat n * s).
Hypothesis tp_ts : sep (tp, Z.of_nat n * 8) (ts, s).

(** The address of an element, as it is stored in the array of pointers. *)
Definition place (i : nat) : ptr := padd base (Z.of_nat i * s).
Definition enc_place (i : nat) : list mval := encptr (place i).
Local Notation rs := [(tp, Z.of_nat n * 8); (ts, s); (base, Z.of_nat n * s)].

Lemma enc_place_len i : len (enc_place i) = 8.
Proof using Type. unfold enc_place. by rewrite length_encptr. Qed.

Lemma place_inj i j : place i = place j → i = j.
Proof. clear -s_pos base_ptr. unfold place. destruct base as [|b o]; [done|]. cbn. intros [= E]. nia. Qed.

(** The places [D] are done; the spare element is [T]. *)
Record placed (w : world) (D : gset nat) (T : list mval) : Prop := Placed {
  pl_ptrs : holds w tp (arr enc_place (sources ks perm D));
  pl_elems : holds w base (arr enc (moved ks perm D));
  pl_spare : holds w ts T;
  pl_len : len T = s }.

Lemma placed_source w D T i : placed w D T → (i < n)%nat →
  load_ptr (padd tp (8 * Z.of_nat i)) w = Ret (place (if decide (i ∈ D) then i else perm !!! i)) w.
Proof.
  intros H Hi. apply load_ptr_holds. replace (8 * Z.of_nat i) with (Z.of_nat i * 8) by lia.
  eapply (holds_arr_at enc_place 8 enc_place_len); [apply H|by apply sources_at].
Qed.

Lemma placed_elem w D T i : placed w D T → (i < n)%nat → i ∉ D → holds w (place i) (enc (ks !!! i)).
Proof.
  intros H Hi Hn. eapply (holds_arr_at enc s enc_len); [apply H|]. rewrite moved_at by done. by rewrite decide_False.
Qed.

Lemma sep_place r i : (i < n)%nat → sep r (base, Z.of_nat n * s) → sep r (place i, s).
Proof. clear -s_pos. intros Hi Hr. eapply sep_sub_r; [exact Hr|nia|nia]. Qed.

(** Putting the right element, which is at [src], in its place [j]. *)
Lemma place_ok {A} (f : ptr → M A) w D T j src :
  placed w D T → (j < n)%nat → holds w src (enc (ks !!! (perm !!! j))) → sep (tp, Z.of_nat n * 8) (src, s) →
  ∃ w', (store_ptr (padd tp (8 * Z.of_nat j)) (place j);; memcpy (place j) src s ≫= f) w = f (place j) w' ∧
    placed w' ({[j]} ∪ D) T ∧ only rs w w'.
Proof.
  intros [Hp He Ht Hl] Hj Hsrc Hsep.
  destruct (arr_put enc_place 8 w tp _ j j enc_place_len eq_refl Hp) as (w1 & E1 & Hp1 & Ho1);
    [by rewrite sources_len|]. rewrite sources_len in Ho1 by done. rewrite sources_put in Hp1 by done.
  assert (∀ q vs, sep (tp, Z.of_nat n * 8) (q, len vs) → holds w q vs → holds w1 q vs) as K1.
  { intros q vs Hq. by eapply only_holds_1. }
  destruct (arr_put enc s w1 base (moved ks perm D) j (ks !!! (perm !!! j)) enc_len s_pos) as (w2 & E2 & He2 & Ho2);
    [apply K1; [by rewrite (len_arr enc s enc_len), moved_len|done]|by rewrite moved_len|].
  rewrite moved_len in Ho2 by done. rewrite moved_put in He2 by done.
  exists w2. split; [|split].
  - unfold store_ptr. replace (8 * Z.of_nat j) with (Z.of_nat j * 8) by lia. erewrite bind_ret by exact E1.
    rewrite (bind_ret _ _ _ (place j) w2); [done|]. unfold memcpy.
    erewrite bind_ret by (eapply holds_reads; [apply K1; [by rewrite enc_len|exact Hsrc]|by rewrite enc_len]).
    by erewrite bind_ret by exact E2.
  - split; [| |apply (only_holds_1 _ _ _ _ _ _ Ho2), K1; rewrite ?Hl; [by apply sep_sym|done..]|done].
    + eapply only_holds_1; [exact Ho2| |done]. rewrite (len_arr _ 8 enc_place_len), sources_len by done. by apply sep_sym.
    + done.
  - etrans; [eapply only_1; [exact Ho1|set_solver]|eapply only_1; [exact Ho2|set_solver]].
Qed.
(** One cycle, from the place [j] on: the inner loop ends before the last place of the cycle,
    whose element is the spare one. *)
Lemma cycle_ok fuel D i j w :
  on_cycle ks perm D i j → perm !!! j ≠ i → placed w D (enc (ks !!! i)) → (n <= size D + fuel)%nat →
  ∃ D' j' w', cycle_loop fuel base tp (place i) s (Z.of_nat j) (place j) (place (perm !!! j)) w = Ret (Z.of_nat j', place j') w' ∧
    on_cycle ks perm D' i j' ∧ perm !!! j' = i ∧ D ⊆ D' ∧ placed w' D' (enc (ks !!! i)) ∧ only rs w w'.
Proof.
  revert D j w. induction fuel as [|fuel IH]; intros D j w Hc Hne Hw Hf.
  { assert (size ({[j]} ∪ D) <= n)%nat as Hsz.
    { rewrite <- (size_set_seq (C := gset nat) 0 n). apply subseteq_size. intros m Hm. apply elem_of_set_seq.
      split; [lia|]. apply elem_of_union in Hm as [->%elem_of_singleton|Hm]; [exact (oc_j _ _ _ _ _ Hc)|by apply (oc_in _ _ _ _ _ Hc)]. }
    rewrite size_union, size_singleton in Hsz by (pose proof (oc_new _ _ _ _ _ Hc); set_solver). lia. }
  pose proof (cycle_next ks perm perm_seq D i j Hc Hne) as Hc'. set (k := perm !!! j) in *.
  pose proof (oc_j _ _ _ _ _ Hc') as Hk. pose proof (oc_j _ _ _ _ _ Hc) as Hj. pose proof (oc_new _ _ _ _ _ Hc') as Hkn.
  cbn [cycle_loop].
  assert (pdiff (place k) base w = Ret (Z.of_nat k * s) w) as Ed.
  { unfold place. destruct base as [|b o]; [done|]. cbn. rewrite decide_True by done. unfold mret, M_ret. f_equal. lia. }
  erewrite bind_ret by exact Ed. rewrite Z.div_mul by lia.
  destruct (place_ok (λ _, kp ← load_ptr (padd tp (8 * Z.of_nat k));
      if decide (kp = place i) then mret (Z.of_nat k, place k)
      else cycle_loop fuel base tp (place i) s (Z.of_nat k) (place k) kp) w D (enc (ks !!! i)) j (place k) Hw Hj)
    as (w1 & E1 & Hw1 & Ho1).
  { eapply placed_elem; [exact Hw|done|set_solver]. }
  { apply sep_place; [done|exact tp_base]. }
  cbv zeta in E1 |- *. rewrite E1. erewrite bind_ret by by eapply placed_source. rewrite (decide_False (P := k ∈ _)) by done.
  destruct (decide (perm !!! k = i)) as [Ek|Ek].
  - rewrite Ek, decide_True by done. exists ({[j]} ∪ D), k, w1. split_and!; try done. set_solver.
  - rewrite decide_False by (intros E%place_inj; done).
    destruct (IH ({[j]} ∪ D) k w1 Hc' Ek Hw1) as (D' & j' & w' & E' & Hc2 & Ej' & HD & Hw' & Ho').
    { rewrite size_union, size_singleton by (pose proof (oc_new _ _ _ _ _ Hc); set_solver). lia. }
    exists D', j', w'. split_and!; [exact E'|done..|set_solver|done|]. by etrans.
Qed.

(** The body of the outer loop. *)
Lemma arrange_step i w D T :
  whole ks perm D → placed w D T → (i < n)%nat →
  wp (let ip := padd base (Z.of_nat i * s) in
      kp ← load_ptr (padd tp (8 * Z.of_nat i));
      if decide (kp = ip) then mret tt
      else
        memcpy ts ip s;;
        '(j, jp) ← cycle_loop n base tp ip s (Z.of_nat i) ip kp;
        store_ptr (padd tp (8 * j)) jp;;
        memcpy jp ts s;;
        mret tt)
    (λ _ w', ∃ D' T', whole ks perm D' ∧ {[i]} ∪ D ⊆ D' ∧ placed w' D' T' ∧ only rs w w') w.
Proof.
  intros HD Hw Hi. cbv zeta. fold (place i). eapply wp_step; [by eapply placed_source|]. cbn beta.
  destruct (decide (i ∈ D)) as [HiD|HiD].
  { rewrite decide_True by done. apply wp_ret. exists D, T. split_and!; [done|set_solver|done..]. }
  destruct (decide (perm !!! i = i)) as [Ei|Ei].
  { rewrite Ei, decide_True by done. apply wp_ret. exists ({[i]} ∪ D), T. split_and!; [|done| |done].
    - by apply (cycle_end ks perm perm_seq D i i); [apply cycle_start|].
    - destruct (fixed_put ks perm perm_seq D i Hi Ei) as [E1 E2]. destruct Hw. split; rewrite ?E1, ?E2; done. }
  rewrite decide_False by (intros E%place_inj; done).
  pose proof (placed_elem _ _ _ _ Hw Hi HiD) as He. destruct (Hw) as [Hp Hel Ht Hl].
  destruct (memcpy_holds w ts (place i) _ T s He Ht) as (w1 & E1 & Ht1 & Ho1); [by rewrite enc_len|done|].
  eapply wp_step; [exact E1|]. cbn beta.
  assert (placed w1 D (enc (ks !!! i))) as Hw1.
  { split; [| |done|by rewrite enc_len]; (eapply only_holds_1; [exact Ho1| |done]).
    - rewrite (len_arr _ 8 enc_place_len), sources_len by done. by apply sep_sym.
    - by rewrite (len_arr _ s enc_len), moved_len by done. }
  destruct (cycle_ok n D i i w1) as (D' & j & w2 & E2 & Hc & Ej & HDD & Hw2 & Ho2); [by apply cycle_start|done|done|lia|].
  eapply wp_step; [exact E2|]. cbn beta iota.
  destruct (place_ok (λ _, mret tt) w2 D' _ j ts Hw2 (oc_j _ _ _ _ _ Hc)) as (w3 & E3 & Hw3 & Ho3).
  { rewrite Ej. apply Hw2. }
  { done. }
  eapply wp_eq; [exact E3|]. destruct (cycle_end ks perm perm_seq D' i j Hc Ej) as [HW HI].
  exists ({[j]} ∪ D'), (enc (ks !!! i)). split_and!; [done| |done|].
  - destruct HI as [->|?]; set_solver.
  - etrans; [eapply only_1; [exact Ho1|set_solver]|]. by etrans.
Qed.

(** The loop over the places. *)
Lemma arrange_ok w T :
  holds w tp (arr enc_place perm) → holds w base (arr enc ks) → holds w ts T → len T = s →
  wp (mfor (seqZ 0 (Z.of_nat n)) (λ i,
      let ip := padd base (i * s) in
      kp ← load_ptr (padd tp (8 * i));
      if decide (kp = ip) then mret tt
      else
        memcpy ts ip s;;
        '(j, jp) ← cycle_loop n base tp ip s i ip kp;
        store_ptr (padd tp (8 * j)) jp;;
        memcpy jp ts s;;
        mret tt))
    (λ _ w', holds w' base (arr enc ((λ m, ks !!! m) <$> perm)) ∧ only rs w w') w.
Proof.
  intros Hp He Ht Hl. eapply wp_mono.
  - apply (wp_for n _ (λ i w', ∃ D T', whole ks perm D ∧ (∀ m, (m < i)%nat → m ∈ D) ∧ placed w' D T' ∧ only rs w w')).
    + exists ∅, T. split_and!; [split; set_solver|lia| |done].
      split; [by rewrite sources_none|by rewrite moved_none|done|done].
    + intros i w1 Hi (D & T1 & HD & Hlow & Hw1 & Ho1). eapply wp_mono; [by eapply arrange_step|]. cbn beta.
      intros [] w2 (D' & T2 & HD' & Hsub & Hw2 & Ho2). exists D', T2. split_and!; [done| |done|by etrans].
      intros m Hm. destruct (decide (m = i)) as [->|]; [set_solver|]. apply Hsub, elem_of_union_r, Hlow. lia.
  - cbn beta. intros [] w' (D & T' & HD & Hall & Hw & Ho). split; [|done]. rewrite <- (moved_all ks perm perm_seq D Hall). apply Hw.
Qed.
End cycles.

(** ** [indirect_msort_with_tmp] *)

Section indirect.
Set Default Proof Using "All".
Context {K : Type} `{!Inhabited K} (c : K → K → Z) (enc : K → list mval) (s : Z) (P : K → Prop).
Context (base buf : ptr) (cmp : ptr → ptr → ptr → M Z) (arg : ptr) (ks : list K) (T : list mval) (w0 : world).
Local Notation n := (length ks).
Hypothesis enc_len : ∀ k, len (enc k) = s.
Hypothesis s_big : 8 <= s.
Hypothesis size_bound : len ks * s < 2 ^ 63.
Hypothesis ks_good : Forall P ks.
Hypothesis base_at : holds w0 base (arr enc ks).
Hypothesis buf_at : holds w0 buf T.
Hypothesis buf_room : 2 * len ks * 8 + s <= len T.
Hypothesis buf_base : sep (buf, len T) (base, len ks * s).
Hypothesis cmp_ok : ∀ w x y px py,
  only [(buf, len T)] w0 w → P x → P y → holds w px (enc x) → holds w py (enc y) → cmp px py arg w = Ret (c x y) w.

Local Notation tp := (padd buf (len ks * 8)).
Local Notation ts := (padd tp (len ks * 8)).
Local Notation addr := (enc_place s base).

(** The three parts of the temporary space. *)
Lemma buf_parts :
  ∃ T1 T2 T3, len T1 = len ks * 8 ∧ len T2 = len ks * 8 ∧ len T3 = s ∧ holds w0 buf T1 ∧ holds w0 tp T2 ∧ holds w0 ts T3.
Proof.
  set (a := (8 * n)%nat). set (z := Z.to_nat s). clear cmp_ok.
  exists (take a T), (take a (drop a T)), (take z (drop (a + a) T)).
  assert (len (take a T) = len ks * 8) as E1 by (rewrite length_take; lia).
  assert (len (take a (drop a T)) = len ks * 8) as E2 by (rewrite length_take, length_drop; lia).
  split_and!; [done..| | | |].
  - rewrite length_take, length_drop. lia.
  - pose proof buf_at as H. rewrite <- (take_drop a T) in H. by apply holds_app in H as [? _].
  - pose proof buf_at as H. rewrite <- (take_drop a T) in H. apply holds_app in H as [_ H]. rewrite E1 in H.
    rewrite <- (take_drop a (drop a T)) in H. by apply holds_app in H as [? _].
  - pose proof buf_at as H. rewrite <- (take_drop a T) in H. apply holds_app in H as [_ H]. rewrite E1 in H.
    rewrite <- (take_drop a (drop a T)) in H. apply holds_app in H as [_ H]. rewrite E2 in H.
    rewrite drop_drop in H. rewrite <- (take_drop z (drop (a + a) T)) in H. by apply holds_app in H as [? _].
Qed.

(** Filling the array of pointers. *)
Lemma pointers_filled w T2 :
  holds w tp T2 → len T2 = len ks * 8 →
  wp (mfor (seqZ 0 (len ks)) (λ i, store_ptr (padd tp (8 * i)) (padd base (i * s))))
    (λ _ w', holds w' tp (arr addr (seq 0 n)) ∧ only [(tp, len ks * 8)] w w') w.
Proof.
  intros Ht Hl. eapply wp_mono.
  - apply (wp_for n _ (λ i w', holds w' tp (arr addr (seq 0 i) ++ drop (8 * i) T2) ∧ only [(tp, len ks * 8)] w w')).
    + done.
    + intros i w1 Hi [H1 Ho1]. apply holds_app in H1 as [H1 H2].
      rewrite (len_arr _ 8 (enc_place_len s base)), length_seq in H2. rewrite <- (take_drop 8 (drop (8 * i) T2)), drop_drop in H2.
      apply holds_app in H2 as [H2 H3].
      assert (length (take 8 (drop (8 * i) T2)) = 8%nat) as E8 by (rewrite length_take, length_drop; lia).
      rewrite E8, padd_padd in H3.
      destruct (holds_store w1 _ _ (addr i) H2) as (w2 & E2 & H2' & Ho2).
      { rewrite E8. apply Nat2Z.inj. by rewrite (enc_place_len s base). }
      rewrite E8 in Ho2. unfold store_ptr. replace (8 * Z.of_nat i) with (Z.of_nat i * 8) by lia.
      eapply wp_eq; [exact E2|]. split.
      * rewrite seq_S, arr_app, <- (assoc_L (++)). cbn [Nat.add].
        apply holds_app. rewrite (len_arr _ 8 (enc_place_len s base)), length_seq. split.
        { eapply only_holds_1; [exact Ho2| |exact H1]. rewrite (len_arr _ 8 (enc_place_len s base)), length_seq. destruct buf; cbn; [done|]. right. lia. }
        assert (arr addr [i] = addr i) as -> by apply app_nil_r.
        apply holds_app. rewrite (enc_place_len s base), (padd_padd tp). split; [done|].
        replace (8 * S i)%nat with (8 * i + 8)%nat by lia. eapply only_holds_1; [exact Ho2| |exact H3].
        destruct buf; cbn; [done|]. right. lia.
      * etrans; [exact Ho1|]. eapply only_sub; [exact Ho2|by left|lia|lia].
  - cbn beta. intros [] w' [H Ho]. rewrite drop_ge, app_nil_r in H by lia. done.
Qed.

(** What the temporary space is for a step that only uses it. *)
Lemma parts_only w w' : only [(tp, len ks * 8); (buf, len ks * 8)] w w' → only [(buf, len T)] w w'.
Proof.
  intros Ho. eapply only_rsub; [exact Ho|]. eapply rsub_cons; [by left|lia|lia|].
  apply rsub_cons_0 with (len T); [by left|lia|apply rsub_nil].
Qed.

Lemma base_kept w : only [(buf, len T)] w0 w → holds w base (arr enc ks).
Proof. intros Ho. eapply only_holds_1; [exact Ho| |exact base_at]. by rewrite (len_arr enc s enc_len). Qed.

(** Sorting the pointers. *)
Lemma pointers_ok w T1 :
  only [(buf, len T)] w0 w → holds w tp (arr addr (seq 0 n)) → holds w buf T1 → len T1 = len ks * 8 →
  let perm := msort_list (λ i j, c (ks !!! i) (ks !!! j)) n (seq 0 n) in
  ∃ w', msort_with_tmp n (MsortParam 8 SWAP_VOID_ARG cmp arg buf) tp (len ks) w = Ret tt w' ∧
    holds w' tp (arr addr perm) ∧ only [(tp, len ks * 8); (buf, len ks * 8)] w w'.
Proof.
  intros Ho Ht Hb Hl perm. set (p := MsortParam _ _ _ _ _).
  destruct (msort_ok (λ i j, c (ks !!! i) (ks !!! j)) addr 8 (λ i, (i < n)%nat) p [(tp, len ks * 8); (buf, len ks * 8)] w)
    with (fuel := n) (ks := seq 0 n) (w := w) (b := tp) (T0 := T1) as (T1' & w' & E & Hw & _ & _ & Ho'); rewrite ?length_seq, ?Hl in *; try done.
  - apply enc_place_len.
  - intros w2 i j px py Ho2 Hi Hj Hx Hy. unfold msort_cmp. cbn [mp_var p].
    erewrite bind_ret by by apply load_ptr_holds. erewrite bind_ret by by apply load_ptr_holds. cbn [mp_cmp mp_arg p].
    assert (only [(buf, len T)] w0 w2) as Ho3 by (etrans; [exact Ho|by apply parts_only]).
    pose proof (base_kept _ Ho3) as Hbase.
    destruct (lookup_lt_is_Some_2 ks i Hi) as [x Hxi], (lookup_lt_is_Some_2 ks j Hj) as [y Hyj].
    rewrite (list_lookup_total_correct _ _ _ Hxi), (list_lookup_total_correct _ _ _ Hyj).
    apply cmp_ok; [done|by eapply Forall_lookup_1|by eapply Forall_lookup_1|by eapply (holds_arr_at enc s)|by eapply (holds_arr_at enc s)].
  - apply Forall_forall. intros i Hi%elem_of_seq. lia.
  - lia.
  - pose proof (sep_padd buf (len ks * 8) (len ks * 8) 0 (len ks * 8) ltac:(lia)) as H. by rewrite padd_0 in H.
  - exists w'. done.
Qed.

Lemma indirect_ok :
  wp (indirect_msort_with_tmp (MsortParam 8 SWAP_VOID_ARG cmp arg buf) base (len ks) s) (λ _ w',
    holds w' base (arr enc (msort_list c n ks)) ∧ only [(buf, len T); (base, len ks * s)] w0 w') w0.
Proof.
  destruct buf_parts as (T1 & T2 & T3 & L1 & L2 & L3 & H1 & H2 & H3).
  unfold indirect_msort_with_tmp. cbn [mp_t]. cbv zeta. rewrite Nat2Z.id.
  apply wp_bind. eapply wp_mono; [by apply (pointers_filled w0 T2)|]. cbn beta. intros [] w1 [Hf Ho1].
  assert (only [(buf, len T)] w0 w1) as Ho1' by (eapply only_sub; [exact Ho1|by left|lia|lia]).
  assert (sep (tp, len ks * 8) (buf, len ks * 8)) as Sb.
  { pose proof (sep_padd buf (len ks * 8) (len ks * 8) 0 (len ks * 8) ltac:(lia)) as H. by rewrite padd_0 in H. }
  assert (sep (tp, len ks * 8) (ts, s)) as Sts.
  { pose proof (sep_padd tp 0 (len ks * 8) (len ks * 8) s ltac:(lia)) as H. by rewrite padd_0 in H. }
  assert (sep (buf, len ks * 8) (ts, s)) as Sbs.
  { rewrite padd_padd. pose proof (sep_padd buf 0 (len ks * 8) (len ks * 8 + len ks * 8) s ltac:(lia)) as H. by rewrite padd_0 in H. }
  destruct (pointers_ok w1 T1 Ho1' Hf) as (w2 & E2 & Hp & Ho2).
  { eapply only_holds_1; [exact Ho1|by rewrite L1|done]. }
  { done. }
  eapply wp_step; [exact E2|]. cbn beta. set (perm := msort_list _ n (seq 0 n)) in *.
  assert (only [(buf, len T)] w0 w2) as Ho2' by (etrans; [exact Ho1'|by apply parts_only]).
  assert (holds w2 ts T3) as H3'.
  { eapply only_keep; [exact Ho2|rewrite L3|eapply only_holds_1; [exact Ho1|by rewrite L3|done]].
    intros r [->|[->|[]%not_elem_of_nil]%elem_of_cons]%elem_of_cons; done. }
  eapply wp_mono; [apply (arrange_ok enc s ks perm base tp ts) with (w := w2) (T := T3)|]; try done.
  - lia.
  - apply msort_list_perm.
  - intros E. pose proof base_at as (b & pre & post & E' & _). by rewrite E in E'.
  - eapply sep_sub_l; [exact buf_base|lia|lia].
  - rewrite padd_padd. eapply sep_sub_l; [exact buf_base|lia|lia].
  - by apply base_kept.
  - cbn beta. intros [] w' [Hw Ho]. split.
    + unfold perm in Hw. rewrite <- (msort_fmap (λ m, ks !!! m)), fmap_lookup_seq in Hw. done.
    + etrans; [eapply only_1; [exact Ho2'|by left]|]. eapply only_rsub; [exact Ho|].
      eapply rsub_cons; [by left|lia|lia|]. rewrite padd_padd. eapply rsub_cons; [by left|lia|lia|].
      apply rsub_cons_0 with (len ks * s); [by right; left|lia|apply rsub_nil].
Qed.
End indirect.
