(* ===== verification/QsortMain.v ===== *)
(** * QsortMain: [qsort_r] sorts

    The dispatch of [stdlib/qsort.c]: merge sort, of the elements or of pointers to them,
    through the stack buffer or a malloc block, and heap sort when [malloc] fails.
    Whatever the path, the array ends sorted and a permutation of what it was; on the
    merge paths equal elements keep their order. *)

From S2P Require Import Prelude Mem Logic Region CStr SortList Qsort QsortSpec QsortHeap QsortIndirect.
Local Open Scope Z_scope.

(** The bytes of temporary space that the merge sort takes: a copy of the array, or two
    pointers for each element and one element. *)
Definition temp_size (n s : Z) : Z := if INDIRECT_SORT_SIZE_THRES <? s then 2 * n * 8 + s else n * s.

Section sorts.
Context {K : Type} `{!Inhabited K} (c : K → K → Z) `{!CmpOrder c}.
Context (enc : K → list mval) (s : Z) (P : K → Prop).
Context (base : ptr) (cmp : ptr → ptr → ptr → M Z) (arg : ptr) (ks : list K) (w0 : world).
Hypothesis enc_len : ∀ k, len (enc k) = s.
Hypothesis s_pos : 0 < s.
Hypothesis size_bound : len ks * s < 2 ^ 63.
Hypothesis ks_good : Forall P ks.
Hypothesis w0_wf : wf_world w0.
Hypothesis w0_at : holds w0 base (arr enc ks).
Hypothesis cmp_ok : ∀ w x y px py,
  keeps [(base, len ks * s)] w0 w → P x → P y → holds w px (enc x) → holds w py (enc y) →
  cmp px py arg w = Ret (c x y) w.
Set Default Proof Using "All".

Lemma direct_cmp_step buf :
  let p := MsortParam s (get_swap_type base s) cmp arg buf in
  msort_step p = s ∧ ∀ b1 b2, msort_cmp p b1 b2 = cmp b1 b2 arg.
Proof.
  cbn. pose proof (get_swap_type_fits base s) as Hf. pose proof (get_swap_type_direct base s) as Hd.
  unfold msort_step, msort_cmp. cbn. by destruct (get_swap_type base s); cbn in Hf.
Qed.

Lemma base_live b : b ∈ blk base → is_Some (w_heap w0 !! b).
Proof. by eapply holds_live. Qed.

Lemma base_old m : sep (base, len ks * s) (Ptr (w_next w0) 0, m).
Proof.
  pose proof w0_at as (b & pre & post & E & Hb). rewrite E. left. intros ->.
  assert (w_next w0 < w_next w0)%positive; [|lia]. apply w0_wf. by eexists.
Qed.

Lemma temp_size_ok : 1 < len ks → 0 <= temp_size (len ks) s < 2 ^ 63 ∧
  (if INDIRECT_SORT_SIZE_THRES <? s then u64 (2 * len ks * 8 + s) else u64 (len ks * s)) = temp_size (len ks) s.
Proof.
  intros Hn. clear cmp_ok. unfold temp_size, INDIRECT_SORT_SIZE_THRES.
  assert (0 <= len ks * s) by (apply Z.mul_nonneg_nonneg; lia).
  destruct (Z.ltb_spec 32 s); (split; [|apply u64_small; unfold is_u64]); nia.
Qed.

(** Merge sort through a new block of at least the size that it takes. *)
Lemma merge_new_ok T a :
  temp_size (len ks) s <= len T →
  ∃ w', qsort_r_mergesort base (len ks) s cmp arg (Ptr (w_next w0) 0) (with_new w0 T a) = Ret tt w' ∧
    holds w' base (arr enc (msort_list c (length ks) ks)) ∧
    only [(Ptr (w_next w0) 0, len T); (base, len ks * s)] (with_new w0 T a) w'.
Proof.
  unfold temp_size, qsort_r_mergesort. set (tmp := Ptr (w_next w0) 0). set (w1 := with_new w0 T a). intros HT.
  destruct (Z.ltb_spec INDIRECT_SORT_SIZE_THRES s) as [Hs|Hs].
  { destruct (wp_inv _ _ _ (indirect_ok c enc s P base tmp cmp arg ks T w1 enc_len ltac:(unfold INDIRECT_SORT_SIZE_THRES in Hs; lia)
      size_bound ks_good (holds_new _ _ _ _ _ w0_wf w0_at) (holds_new_block _ _ _) HT (sep_sym _ _ (base_old _))
      ltac:(intros w x y px py Ho; apply cmp_ok; apply (keeps_new _ w0 T a (len T) w w0_wf); eapply only_1; [exact Ho|by left])))
      as ([] & w' & E & Hw & Ho). by exists w'. }
  rewrite Nat2Z.id. set (p := MsortParam _ _ _ _ _).
  destruct (direct_cmp_step tmp) as [Hst Hcmp]. fold p in Hst, Hcmp.
  destruct (msort_ok c enc s P p [(tmp, len T); (base, len ks * s)] w1) with
    (fuel := length ks) (ks := ks) (w := w1) (b := base) (T0 := T) as (T1 & w' & E & Hw & _ & _ & Ho); try done.
  - intros w x y px py Ho. rewrite Hcmp. apply cmp_ok. by eapply keeps_new.
  - by apply holds_new.
  - apply holds_new_block.
  - apply base_old.
  - apply rsub_cons_0 with (len ks * s); [by right; left|done|].
    apply rsub_cons_0 with (len T); [by left|done|apply rsub_nil].
  - exists w'. split_and!; [done..|]. eapply only_incl; [exact Ho|set_solver].
Qed.

(** What every path leaves: the sorted array, and nothing else changed. *)
Definition sorted_result (ks' : list K) (w' : world) : Prop :=
  ks' ≡ₚ ks ∧ Sorted (cle c) ks' ∧ holds w' base (arr enc ks') ∧
  keeps [(base, len ks * s)] w0 w' ∧ w_same (blk base) w0 w' ∧
  w_avail w' = w_avail w0 ∧ w_out w' = w_out w0.

Lemma scratch_result T a w' :
  holds w' base (arr enc (msort_list c (length ks) ks)) →
  only [(Ptr (w_next w0) 0, len T); (base, len ks * s)] (with_new w0 T a) w' →
  sorted_result (msort_list c (length ks) ks) (without w' (w_next w0) (w_avail w0)).
Proof.
  intros Hw Ho. split_and!.
  - apply msort_list_perm.
  - by apply msort_list_sorted.
  - apply holds_without; [|done]. intros Hb%base_live%w0_wf. lia.
  - by eapply keeps_scratch.
  - eapply w_same_scratch; [done|]. eapply w_same_weaken; [apply (only_same _ _ _ Ho)|].
    cbn. set_solver.
  - done.
  - cbn. apply (only_out _ _ _ Ho).
Qed.

Lemma stack_path :
  temp_size (len ks) s <= QSORT_STACK_SIZE → 1 < len ks →
  ∃ w', qsort_r base (len ks) s cmp arg w0 = Ret tt w' ∧ sorted_result (msort_list c (length ks) ks) w'.
Proof.
  intros Hst Hn. destruct (temp_size_ok Hn) as [Htb Et].
  unfold qsort_r. rewrite (proj2 (Z.leb_gt _ _)) by done. rewrite Et, (proj2 (Z.leb_le _ _)) by done.
  set (T := replicate (Z.to_nat QSORT_STACK_SIZE) MUndef).
  destruct (merge_new_ok T (w_avail w0)) as (w1 & E & Hw & Ho); [done|].
  exists (without w1 (w_next w0) (w_avail w0)). split; [|by eapply scratch_result].
  unfold new_block. erewrite bind_ret by done. erewrite bind_ret by exact E. unfold without. cbn.
  pose proof (only_avail _ _ _ Ho) as A. cbn in A. by rewrite <- A.
Qed.

Lemma malloc_path :
  QSORT_STACK_SIZE < temp_size (len ks) s → temp_size (len ks) s <= w_avail w0 → 1 < len ks →
  ∃ w', qsort_r base (len ks) s cmp arg w0 = Ret tt w' ∧ sorted_result (msort_list c (length ks) ks) w'.
Proof.
  intros Hst Ha Hn. destruct (temp_size_ok Hn) as [Htb Et]. unfold QSORT_STACK_SIZE in *.
  unfold qsort_r. rewrite (proj2 (Z.leb_gt _ _)) by done. rewrite Et, (proj2 (Z.leb_gt _ _)) by done.
  set (T := replicate (Z.to_nat (temp_size (len ks) s)) MUndef).
  assert (len T = temp_size (len ks) s) as HT by (unfold T; rewrite length_replicate; lia).
  destruct (merge_new_ok T (w_avail w0 - temp_size (len ks) s)) as (w1 & E & Hw & Ho); [lia|].
  exists (without w1 (w_next w0) (w_avail w0)). split; [|by eapply scratch_result].
  set (w2 := without w1 (w_next w0) (w_avail w0)).
  rewrite (bind_ret _ _ _ true w2); [done|]. unfold qsort_r_malloc.
  erewrite bind_ret by (apply malloc_ok; lia). cbn beta iota. erewrite bind_ret by exact E.
  rewrite (bind_ret _ _ _ tt w2); [done|]. unfold free.
  destruct (w_heap w1 !! w_next w0) as [bs|] eqn:Hb.
  - assert (len bs = temp_size (len ks) s) as Hl.
    { pose proof (only_len _ _ _ Ho (w_next w0)) as L. rewrite Hb in L. cbn in L.
      rewrite lookup_insert_eq in L. injection L as L. lia. }
    pose proof (only_avail _ _ _ Ho) as A. cbn in A. cbn. unfold w2, without.
    by replace (w_avail w1 + len bs) with (w_avail w0) by lia.
  - pose proof (only_len _ _ _ Ho (w_next w0)) as L. rewrite Hb in L. cbn in L.
    by rewrite lookup_insert_eq in L.
Qed.

Lemma heap_path :
  QSORT_STACK_SIZE < temp_size (len ks) s → w_avail w0 < temp_size (len ks) s → 1 < len ks →
  ∃ w', qsort_r base (len ks) s cmp arg w0 = Ret tt w' ∧ sorted_result (heapsort_list c (length ks - 1) ks) w'.
Proof.
  intros Hst Ha Hn. destruct (temp_size_ok Hn) as [Htb Et]. unfold QSORT_STACK_SIZE in *.
  unfold qsort_r. rewrite (proj2 (Z.leb_gt _ _)) by done. rewrite Et, (proj2 (Z.leb_gt _ _)) by done.
  unfold qsort_r_malloc. erewrite bind_ret by (by erewrite bind_ret by by apply malloc_fail).
  destruct (heapsort_r_ok c enc s P base cmp arg (length ks) w0) with (n := (length ks - 1)%nat) (ks := ks) (w := w0)
    as (w' & E & [Hl Hg Hw Ho]); try done; try lia.
  { intros w x y px py Ho. apply cmp_ok. by apply only_keeps. }
  replace (Z.of_nat (length ks - 1)) with (len ks - 1) in E by lia.
  exists w'. split; [done|]. split_and!; try done; try apply Ho.
  - apply heapsort_list_perm. lia.
  - apply heapsort_list_sorted; [done|lia].
  - by apply only_keeps.
  - eapply w_same_weaken; [apply (only_same _ _ _ Ho)|]. cbn. set_solver.
Qed.

Lemma short_sorted l : len l <= 1 → Sorted (cle c) l.
Proof. destruct l as [|x [|y l]]; cbn; [constructor|repeat constructor|lia]. Qed.

Lemma msort_short l : len l <= 1 → msort_list c (length l) l = l.
Proof. destruct l as [|x [|y l]]; cbn; [done..|lia]. Qed.

(** With room for the temporary array the result is the merge sort's. *)
Lemma qsort_r_merge :
  temp_size (len ks) s <= Z.max QSORT_STACK_SIZE (w_avail w0) →
  ∃ w', qsort_r base (len ks) s cmp arg w0 = Ret tt w' ∧ sorted_result (msort_list c (length ks) ks) w'.
Proof.
  intros Hroom. destruct (Z.leb_spec (len ks) 1).
  { exists w0. unfold qsort_r. rewrite (proj2 (Z.leb_le _ _)), msort_short by done. split; [done|].
    unfold sorted_result. split_and!; try done. by apply short_sorted. }
  destruct (Z.leb_spec (temp_size (len ks) s) QSORT_STACK_SIZE) as [Hs|Hs]; [by apply stack_path|].
  apply malloc_path; [done|lia|done].
Qed.

Lemma qsort_r_result :
  ∃ ks' w', qsort_r base (len ks) s cmp arg w0 = Ret tt w' ∧ sorted_result ks' w' ∧
    (temp_size (len ks) s <= Z.max QSORT_STACK_SIZE (w_avail w0) → ∀ k, equals c k ks' = equals c k ks).
Proof.
  destruct (Z.leb_spec (temp_size (len ks) s) (Z.max QSORT_STACK_SIZE (w_avail w0))) as [Hs|Hs].
  { destruct (qsort_r_merge Hs) as (w' & E & Hw). exists (msort_list c (length ks) ks), w'.
    split_and!; [done..|]. intros _ k. by apply msort_list_stable. }
  destruct (Z.leb_spec (len ks) 1).
  { exists ks, w0. unfold qsort_r. rewrite (proj2 (Z.leb_le _ _)) by done. split; [done|].
    split; [|done]. unfold sorted_result. split_and!; try done. by apply short_sorted. }
  destruct heap_path as (w' & E & Hw); [lia..|]. exists (heapsort_list c (length ks - 1) ks), w'.
  split_and!; [done..|lia].
Qed.
End sorts.

(** C5. [qsort_r] sorts elements of any size: for a comparison function that is a total
    preorder on the stored values and changes nothing, it always returns, the array then
    holds a sorted permutation of its values, nothing else in memory has changed and every
    temporary is given back.  Unless the temporary space is above 1024 bytes and [malloc]
    fails for it (when a heap sort runs instead), elements that compare equal keep their
    order.  Elements above 32 bytes are sorted through pointers and then moved. *)
Theorem qsort_r_sorts {K} `{!Inhabited K} (c : K → K → Z) `{!CmpOrder c} (enc : K → list mval) (s : Z) (P : K → Prop)
    base (cmp : ptr → ptr → ptr → M Z) arg (ks : list K) w :
  (∀ k, len (enc k) = s) → 0 < s → len ks * s < 2 ^ 63 → Forall P ks →
  wf_world w → holds w base (arr enc ks) →
  (∀ w' x y px py, keeps [(base, len ks * s)] w w' → P x → P y → holds w' px (enc x) → holds w' py (enc y) →
     cmp px py arg w' = Ret (c x y) w') →
  wp (qsort_r base (len ks) s cmp arg) (λ _ w', ∃ ks', holds w' base (arr enc ks') ∧
    ks' ≡ₚ ks ∧ Sorted (cle c) ks' ∧
    (temp_size (len ks) s <= Z.max QSORT_STACK_SIZE (w_avail w) → ∀ k, equals c k ks' = equals c k ks) ∧
    keeps [(base, len ks * s)] w w' ∧ w_same (blk base) w w' ∧ w_avail w' = w_avail w ∧ w_out w' = w_out w) w.
Proof.
  intros. destruct (qsort_r_result c enc s P base cmp arg ks w) as (ks' & w' & E & (?&?&?&?&?&?&?) & Hst); try done.
  eapply wp_eq; [exact E|]. by exists ks'.
Qed.

(** Five elements of 40 bytes in block 1, ordered by the number each begins with, sorted
    without memory to spare. *)
Definition cmp_u64 (p q _ : ptr) : M Z := a ← load_u64 p; b ← load_u64 q; mret (a - b).

Definition enc_wide (z : Z) : list mval := enc64 z ++ replicate 32 (MByte 0).

#[export] Instance sub_order : CmpOrder Z.sub.
Proof. split; lia. Qed.

Lemma qsort_r_sorts_witness :
  let w := World {[1%positive := arr enc_wide [5; 3; 9; 3; 1]]} 2 0 [] (Kenv (λ _, None) None true (λ _ _, 0)) in
  wp (qsort_r (Ptr 1 0) 5 40 cmp_u64 Null) (λ _ w', ∃ ks', holds w' (Ptr 1 0) (arr enc_wide ks') ∧
    ks' ≡ₚ [5; 3; 9; 3; 1] ∧ Sorted (cle Z.sub) ks') w.
Proof.
  intros w. eapply wp_mono.
  - apply (qsort_r_sorts Z.sub enc_wide 40 is_u64 (Ptr 1 0) cmp_u64 Null [5; 3; 9; 3; 1] w); try done.
    + by repeat constructor.
    + intros b [vs Hb]. cbn in Hb. apply lookup_singleton_Some in Hb as [<- _]. done.
    + exists 1%positive, [], []. split; [done|]. rewrite app_nil_r. done.
    + intros w' x y px py _ Hx Hy [Ex _]%holds_app [Ey _]%holds_app. unfold cmp_u64.
      erewrite bind_ret by by apply load_u64_holds. erewrite bind_ret by by apply load_u64_holds.
      by rewrite !u64_small.
  - intros [] w' (ks' & ? & ? & ? & _). by exists ks'.
Defined.
