(* ===== verification/LsFlags.v ===== *)
(** * LsFlags: the command line of [src/bin/ls.c]

    The flags record, the long options and the loop of [main] over the arguments.  The
    functions work on [argv] in memory; [parse_long] and [parse_args] are what they
    compute on the argument strings; the second half shows this of [parse_long_argument],
    whatever the argument is. *)

From S2P Require Import Prelude Mem Logic Region CStr Printf Dynamic Utils.
Local Open Scope Z_scope.

Inductive SORT := NONE | NAME | WIDTH.

#[export] Instance SORT_eq_dec : EqDecision SORT.
Proof. solve_decision. Defined.

Record FLAGS := Flags {
  show_hidden : bool;
  reverse : bool;
  sort : SORT;
  color : bool;
  list_ : bool;
  recursive : bool }.

Definition set_show_hidden (f : FLAGS) := Flags true (reverse f) (sort f) (color f) (list_ f) (recursive f).
Definition set_reverse (f : FLAGS) := Flags (show_hidden f) true (sort f) (color f) (list_ f) (recursive f).
Definition set_sort (s : SORT) (f : FLAGS) := Flags (show_hidden f) (reverse f) s (color f) (list_ f) (recursive f).
Definition set_recursive (f : FLAGS) := Flags (show_hidden f) (reverse f) (sort f) (color f) (list_ f) true.

(** The flags [main] starts from. *)
Definition default_flags : FLAGS := Flags false false NAME true false false.

(** Run with the address of a string literal. *)
Definition with_literal {A} (s : list Z) (f : ptr → M A) : M A :=
  p ← literal s; a ← f p; drop_block p;; mret a.

Definition compare_prefix (s prefix : ptr) : M bool :=
  n ← strlen prefix;
  r ← strncmp s prefix n;
  mret (r =? 0).

(** [strcmp (s, lit) == 0] *)
Definition str_is (s : ptr) (lit : list Z) : M bool :=
  with_literal lit (λ q, r ← strcmp s q; mret (r =? 0)).

Definition parse_long_argument (s : ptr) (flags : FLAGS) : M (Z * FLAGS) :=
  is_sort ← with_literal (str "--sort=") (compare_prefix s);
  if is_sort : bool then
    let value := padd s 7 in
    none ← str_is value (str "none");
    if none : bool then mret (0, set_sort NONE flags)
    else
      name ← str_is value (str "name");
      if name : bool then mret (0, set_sort NAME flags)
      else
        width ← str_is value (str "width");
        if width : bool then mret (0, set_sort WIDTH flags) else mret (0, flags)
  else
    rev ← str_is s (str "--reverse");
    if rev : bool then mret (0, set_reverse flags) else mret (1, flags).

(** One letter of a group of short options. *)
Definition short_flag (c : Z) (flags : FLAGS) : FLAGS :=
  if (c =? 97) || (c =? 65) then set_show_hidden flags
  else if c =? 85 then set_sort NONE flags
  else if c =? 114 then set_reverse flags
  else if c =? 82 then set_recursive flags
  else flags.

(** [while ((c = *(++str)) != 0) switch (c) ...] *)
Fixpoint short_loop (fuel : nat) (s : ptr) (flags : FLAGS) : M FLAGS :=
  match fuel with
  | O => stuck OutOfBounds
  | S fuel =>
    let s := padd s 1 in
    c ← load_u8 s;
    if c =? 0 then mret flags else short_loop fuel s (short_flag c flags)
  end.

(** The argument loop of [main]; [None] is its early [return 7]. *)
Fixpoint args_loop (fuel : nat) (argv : ptr) (i : Z) (flags : FLAGS) (paths : ptr) : M (option (FLAGS * ptr)) :=
  match fuel with
  | O => mret (Some (flags, paths))
  | S fuel =>
    s ← arg argv i;
    c0 ← load_u8 s;
    if c0 =? 45 then
      c1 ← load_u8 (padd s 1);
      if c1 =? 45 then
        '(err, flags) ← parse_long_argument s flags;
        if negb (err =? 0) then mret None else args_loop fuel argv (i + 1) flags paths
      else
        n ← room_at s;
        flags ← short_loop n s flags;
        args_loop fuel argv (i + 1) flags paths
    else
      v ← new_block (encptr s);
      paths ← dynamic_insert paths v;
      drop_block v;;
      args_loop fuel argv (i + 1) flags paths
  end.

(** ** What the options mean *)

(** The value of a [--sort=] option; an unknown one changes nothing. *)
Definition sort_value (v : list Z) (flags : FLAGS) : FLAGS :=
  if decide (v = str "none") then set_sort NONE flags
  else if decide (v = str "name") then set_sort NAME flags
  else if decide (v = str "width") then set_sort WIDTH flags
  else flags.

Definition parse_long (s : list Z) (flags : FLAGS) : Z * FLAGS :=
  if decide (str "--sort=" `prefix_of` s) then (0, sort_value (drop 7 s) flags)
  else if decide (s = str "--reverse") then (0, set_reverse flags)
  else (1, flags).

(** The flags and the path arguments that a list of arguments gives. *)
Fixpoint parse_args (args : list (list Z)) (flags : FLAGS) : option (FLAGS * list (list Z)) :=
  match args with
  | [] => Some (flags, [])
  | (45 :: 45 :: s) :: args =>
    let '(err, flags) := parse_long (45 :: 45 :: s) flags in
    if err =? 0 then parse_args args flags else None
  | (45 :: s) :: args => parse_args args (foldl (λ f c, short_flag c f) flags s)
  | a :: args => '(f, ps) ← parse_args args flags; Some (f, a :: ps)
  end.

(** ** What the options do *)


(** A step that allocates and releases only for itself. *)
Record quiet (w w' : world) : Prop := Quiet {
  q_same : w_same ∅ w w';
  q_out : w_out w' = w_out w;
  q_avail : w_avail w' = w_avail w }.

#[export] Instance quiet_refl : Reflexive quiet.
Proof. by split. Qed.

#[export] Instance quiet_trans : Transitive quiet.
Proof.
  intros w1 w2 w3 [S1 O1 A1] [S2 O2 A2]. split; [|congruence..].
  rewrite <- (union_empty_l_L ∅). by eapply w_same_trans.
Qed.

Lemma quiet_cstr w w' p s : quiet w w' → cstr_at w p s → cstr_at w' p s.
Proof. intros [S _ _]. eapply cstr_same; [exact S|set_solver]. Qed.

Lemma with_literal_ok {A} w lit (f : ptr → M A) a :
  wf_world w → is_cstr lit →
  (∀ w' q, quiet w w' → cstr_at w' q lit → f q w' = Ret a w') →
  ∃ w', with_literal lit f w = Ret a w' ∧ quiet w w'.
Proof.
  intros Hwf Hl Hf. unfold with_literal.
  set (vs := (MByte <$> lit) ++ [MByte 0]). set (w1 := with_new w vs (w_avail w)).
  assert (quiet w w1) as Hq by (split; [by apply w_same_alloc|done|done]).
  assert (cstr_at w1 (Ptr (w_next w) 0) lit) as Hc.
  { exists (w_next w), 0, vs. split_and!; [done|done|apply lookup_insert_eq|done|by exists []]. }
  exists (without w1 (w_next w) (w_avail w)). split.
  - erewrite bind_ret by done. erewrite bind_ret by by apply Hf. done.
  - split; [|done|done]. by apply (w_same_scratch ∅ w vs (w_avail w) w1).
Qed.

Lemma str_cmp_iff s t : is_cstr s → is_cstr t → (str_cmp s t =? 0) = bool_decide (s = t).
Proof.
  intros Hs Ht. destruct (bool_decide_reflect (s = t)) as [->|Hne].
  - by rewrite str_cmp_refl.
  - apply Z.eqb_neq. intros E. by apply Hne, str_cmp_eq.
Qed.

Lemma str_is_ok w p s lit :
  wf_world w → cstr_at w p s → is_cstr lit → ∃ w', str_is p lit w = Ret (bool_decide (s = lit)) w' ∧ quiet w w'.
Proof.
  intros Hwf Hp Hl. apply with_literal_ok; [done..|]. intros w' q Hq Hc.
  erewrite bind_ret by (apply strcmp_eq; [by eapply quiet_cstr|done]).
  by rewrite str_cmp_iff by by eauto using cstr_at_is_cstr.
Qed.

Lemma compare_prefix_ok w p s pre :
  wf_world w → cstr_at w p s → is_cstr pre →
  ∃ w', with_literal pre (compare_prefix p) w = Ret (bool_decide (pre `prefix_of` s)) w' ∧ quiet w w'.
Proof.
  intros Hwf Hp Hl. apply with_literal_ok; [done..|]. intros w' q Hq Hc. unfold compare_prefix.
  erewrite bind_ret by by apply strlen_eq.
  erewrite bind_ret by (apply strncmp_eq; [by eapply quiet_cstr|done]). rewrite Nat2Z.id.
  unfold mret, M_ret. f_equal. pose proof (str_ncmp_prefix s pre (cstr_at_is_cstr _ _ _ Hp) Hl) as Hiff.
  destruct (bool_decide_reflect (pre `prefix_of` s)) as [H|H]; [by apply Z.eqb_eq, Hiff|].
  apply Z.eqb_neq. by intros E%Hiff.
Qed.

Lemma cstr_at_drop w p s n : cstr_at w p s → (n <= length s)%nat → cstr_at w (padd p (Z.of_nat n)) (drop n s).
Proof.
  revert p s. induction n as [|n IH]; intros p s Hp Hn.
  - by rewrite padd_0.
  - destruct s as [|c s]; [cbn in Hn; lia|]. destruct (cstr_at_uncons _ _ _ Hp) as [_ Hp'].
    cbn [drop]. replace (padd p (Z.of_nat (S n))) with (padd (padd p 1) (Z.of_nat n)) by (rewrite padd_padd; f_equal; lia).
    apply IH; [done|cbn in Hn; lia].
Qed.

Lemma quiet_wf w w' : quiet w w' → wf_world w → wf_world w'.
Proof. intros [S _ _]. apply S. Qed.

Lemma parse_long_argument_ok w p s flags :
  wf_world w → cstr_at w p s →
  wp (parse_long_argument p flags) (λ r w', r = parse_long s flags ∧ quiet w w') w.
Proof.
  intros Hwf Hp. unfold parse_long_argument, parse_long.
  assert (∀ lit, Forall (λ c, 0 < c < 256) lit → is_cstr lit) as Hlit by done.
  destruct (compare_prefix_ok w p s (str "--sort=") Hwf Hp) as (w1 & E1 & Q1); [by repeat constructor|].
  eapply wp_step; [exact E1|]. cbn beta. pose proof (quiet_wf _ _ Q1 Hwf) as Hwf1.
  rewrite bool_decide_decide. destruct (decide (str "--sort=" `prefix_of` s)) as [Hpre|Hpre].
  - assert (cstr_at w1 (padd p 7) (drop 7 s)) as Hv.
    { apply (cstr_at_drop _ _ _ 7); [by eapply quiet_cstr|]. apply prefix_length in Hpre. exact Hpre. }
    unfold sort_value.
    destruct (str_is_ok w1 _ _ (str "none") Hwf1 Hv) as (w2 & E2 & Q2); [by repeat constructor|].
    eapply wp_step; [exact E2|]. cbn beta. rewrite bool_decide_decide.
    destruct (decide (drop 7 s = str "none")); [apply wp_ret; split; [done|by etrans]|].
    destruct (str_is_ok w2 _ _ (str "name") (quiet_wf _ _ Q2 Hwf1) (quiet_cstr _ _ _ _ Q2 Hv)) as (w3 & E3 & Q3); [by repeat constructor|].
    eapply wp_step; [exact E3|]. cbn beta. rewrite bool_decide_decide.
    destruct (decide (drop 7 s = str "name")); [apply wp_ret; split; [done|by do 2 etrans]|].
    assert (quiet w1 w3) as Q13 by by etrans.
    destruct (str_is_ok w3 _ _ (str "width") (quiet_wf _ _ Q13 Hwf1) (quiet_cstr _ _ _ _ Q13 Hv)) as (w4 & E4 & Q4); [by repeat constructor|].
    eapply wp_step; [exact E4|]. cbn beta. rewrite bool_decide_decide.
    destruct (decide (drop 7 s = str "width")); apply wp_ret; (split; [done|by do 2 etrans]).
  - destruct (str_is_ok w1 _ _ (str "--reverse") Hwf1 (quiet_cstr _ _ _ _ Q1 Hp)) as (w2 & E2 & Q2); [by repeat constructor|].
    eapply wp_step; [exact E2|]. cbn beta. rewrite bool_decide_decide.
    destruct (decide (s = str "--reverse")); apply wp_ret; (split; [done|by etrans]).
Qed.

(** [parse_long_argument] recognises [--sort=] with a known value and [--reverse],
    ignores an unknown value of [--sort=], and rejects every other long option. *)
Theorem parse_long_argument_spec w p s flags :
  wf_world w → cstr_at w p s →
  wp (parse_long_argument p flags) (λ r w', r = parse_long s flags ∧ w_same ∅ w w' ∧
    w_out w' = w_out w ∧ w_avail w' = w_avail w) w.
Proof. intros. eapply wp_mono; [by apply parse_long_argument_ok|]. by intros r w' [-> []]. Qed.

Lemma parse_long_argument_spec_witness :
  let w := World {[1%positive := (MByte <$> str "--sort=width") ++ [MByte 0]]} 2 0 [] (Kenv (λ _, None) None true (λ _ _, 0)) in
  wp (parse_long_argument (Ptr 1 0) default_flags) (λ r _, r = (0, set_sort WIDTH default_flags)) w.
Proof.
  intros w. eapply wp_mono.
  - apply (parse_long_argument_spec w (Ptr 1 0) (str "--sort=width") default_flags).
    + intros b [vs Hb]. cbn in Hb. apply lookup_singleton_Some in Hb as [<- _]. done.
    + exists 1%positive, 0, ((MByte <$> str "--sort=width") ++ [MByte 0]).
      split_and!; [done|done|done|by repeat constructor|by exists []].
  - intros r w' (-> & _). by vm_compute.
Defined.
