(* ===== verification/Ls.v ===== *)
(** * Ls: [src/bin/ls.c] but for its command line

    Reading a directory into growable arrays, ordering the entries, printing them in
    columns, and the recursion into subdirectories.  What the kernel answers comes from
    the environment of the world.  [print_dir] takes the recursive [ls] as an argument;
    [ls] counts its own depth down, since the source has no bound on it. *)

From S2P Require Import Prelude Mem Logic CStr Printf Dynamic Utils Qsort LsFlags.
Local Open Scope Z_scope.

Definition DT_UNKNOWN : Z := 0.
Definition DT_DIR : Z := 4.
Definition DT_LNK : Z := 10.

(** The [ws_col] of a [struct winsize] that only a successful [ioctl] fills in. *)
Definition get_stdout_width : M Z := λ w,
  match k_winsize (w_env w) with
  | Some col => Ret (wrapu 16 col) w
  | None => if k_strict (w_env w) then Stuck UninitRead
            else Ret (wrapu 16 (k_junk (w_env w) (w_next w) 0)) w
  end.

(** ** Ordering *)

Definition enc32 (z : Z) : list mval :=
  [MByte (byte_of z 0); MByte (byte_of z 1); MByte (byte_of z 2); MByte (byte_of z 3)].

Definition load_int (p : ptr) : M Z :=
  vs ← load_bytes p 4; zs ← bytes_val p vs; mret (i32 (dec_le zs)).

(** A [compare_args]: the [name] pointer, [polarity] and four bytes of padding. *)
Definition compare_args (name : ptr) (polarity : Z) : list mval :=
  encptr name ++ enc32 polarity ++ replicate 4 MUndef.
Definition args_name (p : ptr) : ptr := padd p 0.
Definition args_polarity (p : ptr) : ptr := padd p 8.

Definition reverse_order (p_a p_b : ptr) : M Z :=
  a ← load_u64 p_a;
  b ← load_u64 p_b;
  mret (if a <=? b then Z.b2z (a <? b) else -1).

Definition compare_names (p_a p_b context : ptr) : M Z :=
  name ← load_ptr (args_name context);
  polarity ← load_int (args_polarity context);
  a ← load_u64 p_a;
  b ← load_u64 p_b;
  name_a ← dynamic_get name a;
  name_b ← dynamic_get name b;
  r ← strcmp name_a name_b;
  mret (i32 (r * polarity)).

Definition compare_lenghts (p_a p_b context : ptr) : M Z :=
  name ← load_ptr (args_name context);
  polarity ← load_int (args_polarity context);
  a ← load_u64 p_a;
  b ← load_u64 p_b;
  name_a ← dynamic_get name a;
  name_b ← dynamic_get name b;
  len_a ← strlen name_a;
  len_b ← strlen name_b;
  if len_a =? len_b then
    r ← strcmp name_a name_b;
    mret (i32 (r * polarity))
  else mret (i32 ((if len_b <=? len_a then Z.b2z (len_b <? len_a) else -1) * polarity)).

Definition sort_map (flags : FLAGS) (name map : ptr) (count : Z) : M unit :=
  args ← new_block (compare_args name (if reverse flags then -1 else 1));
  (match sort flags with
   | NAME => qsort_r map count 8 compare_names args
   | NONE => if reverse flags then qsort map count 8 reverse_order else mret tt
   | WIDTH => qsort_r map count 8 compare_lenghts args
   end);;
  drop_block args.

(** ** Reading a directory *)

(** A [struct dirent] as [readdir] returns it: [d_ino], [d_off], [d_reclen], [d_type] and
    the 256 bytes of [d_name], undefined after the NUL. *)
Definition d_ino_of (p : ptr) : ptr := padd p 0.
Definition d_type_of (p : ptr) : ptr := padd p 18.
Definition d_name_of (p : ptr) : ptr := padd p 19.
Definition dirent_block (e : dirent) : list mval :=
  enc64 (d_ino e) ++ replicate 10 MUndef ++ [MByte (u8 (d_type e))] ++
  (MByte <$> d_name e) ++ [MByte 0] ++ replicate (255 - length (d_name e)) MUndef.

(** The variables of [read_dir]. *)
Record reading := Reading {
  rd_names : ptr; rd_types : ptr; rd_ino : ptr; rd_dirs : ptr; rd_max : Z; rd_i : Z }.

Definition read_entry (flags : FLAGS) (e : dirent) (r : reading) : M reading :=
  entry ← new_block (dirent_block e);
  c ← load_u8 (d_name_of entry);
  r ← (if negb (c =? 46) || show_hidden flags then
         n ← strlen (d_name_of entry);
         let size := min_ n 255 in
         let max_size := max_ (rd_max r) size in
         names ← dynamic_insert (rd_names r) (d_name_of entry);
         types ← dynamic_insert (rd_types r) (d_type_of entry);
         ino ← dynamic_insert (rd_ino r) (d_ino_of entry);
         ty ← load_u8 (d_type_of entry);
         c ← load_u8 (d_name_of entry);
         dirs ← (if (ty =? DT_DIR) && negb (c =? 46) then
                   p ← dynamic_get names (rd_i r);
                   v ← new_block (encptr p);
                   dirs ← dynamic_insert (rd_dirs r) v;
                   drop_block v;;
                   mret dirs
                 else mret (rd_dirs r));
         mret (Reading names types ino dirs max_size (u64 (rd_i r + 1)))
       else mret r);
  drop_block entry;;
  mret r.

(** [None] is the return value -1, which leaves the output parameters unset. *)
Definition read_dir (path : ptr) (flags : FLAGS) : M (option reading) :=
  name ← read_cstr path;
  env ← get_env;
  match k_opendir env name with
  | None => mret None
  | Some entries =>
    names ← dynamic 256 0;
    types ← dynamic 1 0;
    ino ← dynamic 8 0;
    dirs ← dynamic 8 0;
    r ← mfold entries (read_entry flags) (Reading names types ino dirs 0 0);
    mret (Some r)
  end.

(** ** Printing *)

Definition ESC : Z := 27.
Definition RESET : list Z := ESC :: str "[0m".

(** The padding entries after the last one. *)
Definition pad_entries (names types : ptr) (count size : Z) : M (ptr * ptr) :=
  n ← new_block [MByte DT_UNKNOWN];
  empty ← literal [];
  '(names, types) ← mfold (seqZ count (size - count)) (λ _ '(names, types),
    names ← dynamic_insert names empty;
    types ← dynamic_insert types n;
    mret (names, types)) (names, types);
  drop_block empty;;
  drop_block n;;
  mret (names, types).

Definition at64 (p : ptr) (i : Z) : ptr := padd p (8 * i).

Definition column_widths (names map sizes : ptr) (directory_size rows : Z) : M unit :=
  mfor (seqZ 0 directory_size) (λ i,
    let idx := i / rows in
    size ← load_u64 (at64 sizes idx);
    k ← load_u64 (at64 map i);
    name ← dynamic_get names k;
    n ← strlen name;
    store_u64 (at64 sizes idx) (max_ size n)).

Definition print_entry (names types map sizes : ptr) (colums rows : Z) (i : Z) : M unit :=
  let idx := u64 (rows * (i mod colums) + i / colums) in
  k ← load_u64 (at64 map idx);
  q ← dynamic_get types k;
  ty ← load_u8 q;
  (if ty =? DT_DIR then printf (ESC :: str "[0;34m") []
   else if ty =? DT_LNK then printf (ESC :: str "[0;96m") []
   else printf RESET []);;
  size ← load_u64 (at64 sizes (i mod colums));
  name ← dynamic_get names k;
  printf (str "%-*s") [AInt (i32 (i32 size + 2)); AStr name];;
  if i mod colums =? u64 (colums - 1) then printf [10] [] else mret tt.

(** Quotient of [size_t] values. *)
Definition udiv (a b : Z) : M Z := if b =? 0 then stuck DivByZero else mret (a / b).

Section print_dir.
Context (ls : ptr → ptr → FLAGS → M Z).

(** From the moment [read_dir] has succeeded and there is something to print. *)
Definition print_entries (s_dir : ptr) (flags : FLAGS) (r : reading) (count : Z) : M Z :=
  width ← get_stdout_width;
  colums ← udiv width (u64 (rd_max r + 2));
  rows ← udiv (u64 (count + colums - 1)) colums;
  let size := u64 (colums * rows) in
  '(names, types) ← pad_entries (rd_names r) (rd_types r) count size;
  directory_size ← dynamic_size names;
  map ← calloc directory_size 8;
  mfor (seqZ 0 directory_size) (λ i, store_u64 (at64 map i) i);;
  sort_map flags names map count;;
  sizes ← calloc colums 8;
  column_widths names map sizes directory_size rows;;
  mfor (seqZ 0 directory_size) (print_entry names types map sizes colums rows);;
  printf RESET [];;
  (if negb (directory_size =? colums) then printf [10] [] else mret tt);;
  free sizes;;
  dynamic_free types;;
  dynamic_free (rd_ino r);;
  n_dirs ← (if recursive flags then dynamic_size (rd_dirs r) else mret 0);
  err ← (if recursive flags && (0 <? n_dirs) then ls s_dir (rd_dirs r) flags else mret 0);
  if negb (err =? 0) then mret (i64 (err * 10))
  else
    dynamic_free names;;
    dynamic_free (rd_dirs r);;
    mret 0.

Definition print_dir (s_dir : ptr) (flags : FLAGS) : M Z :=
  r ← read_dir s_dir flags;
  match r with
  | None => mret 0
  | Some r =>
    if decide (rd_names r = Null) then mret 69
    else if decide (rd_types r = Null) then mret 420
    else
      count ← dynamic_size (rd_names r);
      if count =? 0 then
        dynamic_free (rd_types r);;
        dynamic_free (rd_ino r);;
        dynamic_free (rd_names r);;
        dynamic_free (rd_dirs r);;
        mret 0
      else print_entries s_dir flags r count
  end.
End print_dir.

(** ** The recursion *)

Definition ls_list (path dirs : ptr) (flags : FLAGS) : M Z := mret 69.

(** The loop over several directories, from the [i]-th on. *)
Fixpoint ls_loop (print : ptr → FLAGS → M Z) (n : nat) (path dirs : ptr) (i : Z) (full_path : ptr)
    (flags : FLAGS) : M Z :=
  match n with
  | O => free full_path;; mret 0
  | S n =>
    q ← dynamic_get dirs i;
    d ← load_ptr q;
    full_path ← concat_path path d full_path;
    printf (str "%s:" ++ [10]) [AStr full_path];;
    err ← print full_path flags;
    if negb (err =? 0) then mret err
    else printf [10] [];; ls_loop print n path dirs (i + 1) full_path flags
  end.

(** [ls] from the test for an empty [dirs] on, with the function that the recursion of
    [print_dir] calls as an argument. *)
Definition ls_dirs (ls : ptr → ptr → FLAGS → M Z) (path dirs : ptr) (flags : FLAGS) : M Z :=
  n ← dynamic_size dirs;
  dirs ← (if n =? 0 then
            dot ← literal (str ".");
            v ← new_block (encptr dot);
            dirs ← dynamic_insert dirs v;
            drop_block v;;
            mret dirs
          else mret dirs);
  count ← dynamic_size dirs;
  printf (str "count = %ld" ++ [10]) [AInt count];;
  if count =? 1 then
    q ← dynamic_get dirs 0;
    d ← load_ptr q;
    full_path ← concat_path path d Null;
    err ← print_dir ls full_path flags;
    if negb (err =? 0) then mret err
    else free full_path;; mret 0
  else ls_loop (print_dir ls) (Z.to_nat count) path dirs 0 Null flags.

Fixpoint ls (fuel : nat) (path dirs : ptr) (flags : FLAGS) : M Z :=
  match fuel with
  | O => stuck NoFuel
  | S fuel => if list_ flags then ls_list path dirs flags else ls_dirs (ls fuel) path dirs flags
  end.

Definition main (fuel : nat) (argc : Z) (argv : ptr) : M Z :=
  paths ← dynamic 8 0;
  r ← args_loop (Z.to_nat (argc - 1)) argv 1 default_flags paths;
  match r with
  | None => mret 7
  | Some (flags, paths) =>
    printf (ESC :: str "[?25l") [];;
    empty ← literal [];
    err ← ls fuel empty paths flags;
    (if negb (err =? 0) then printf (str "ERROR: %d" ++ [10]) [AInt err] else mret tt);;
    printf (ESC :: str "[?25h") [];;
    dynamic_free paths;;
    mret err
  end.
