(* ===== verification/LsRead.v ===== *)
(** * LsRead: what [read_dir] leaves in memory

    Four growable arrays with one element per visible entry (the names in 256-byte
    elements, the types, the inode numbers) or per subdirectory, and the length of the
    longest name. *)

From S2P Require Import Prelude Mem Logic Region CStr Printf Dynamic Utils Qsort LsFlags Ls.
Local Open Scope Z_scope.

(** ** Directory entries *)

(** The bytes of [d_name]. *)
Definition name_elem (s : list Z) : list mval :=
  (MByte <$> s) ++ [MByte 0] ++ replicate (255 - length s) MUndef.

(** What the kernel promises of an entry: a nonempty name of at most 255 bytes. *)
Definition entry_ok (e : dirent) : Prop := is_cstr (d_name e) ∧ len (d_name e) <= 255.

Definition visible (flags : FLAGS) (e : dirent) : bool :=
  negb (default 0 (head (d_name e)) =? 46) || show_hidden flags.

Definition is_subdir (e : dirent) : bool :=
  (u8 (d_type e) =? DT_DIR) && negb (default 0 (head (d_name e)) =? 46).

(** The entries that are listed, in the order of [readdir]. *)
Definition listed (flags : FLAGS) (es : list dirent) : list dirent :=
  filter (λ e, visible flags e = true) es.

Definition longest (es : list dirent) : Z := foldl (λ m e, max_ m (len (d_name e))) 0 es.

Lemma len_name_elem s : len s <= 255 → len (name_elem s) = 256.
Proof. intros. unfold name_elem. rewrite !length_app, length_fmap, length_replicate. cbn. lia. Qed.

Section entry.
Context (w : world) (b : positive) (e : dirent).
Hypothesis Hb : w_heap w !! b = Some (dirent_block e).
Hypothesis He : entry_ok e.

Lemma dirent_split : dirent_block e = (enc64 (d_ino e) ++ replicate 10 MUndef ++ [MByte (u8 (d_type e))]) ++ name_elem (d_name e).
Proof using Type. unfold dirent_block, name_elem. by rewrite <- !(assoc_L (++)). Qed.

Lemma len_dirent : len (dirent_block e) = 275.
Proof using He. rewrite dirent_split, length_app, Nat2Z.inj_add, len_name_elem by apply He. done. Qed.

Lemma reads_d_name : reads w (d_name_of (Ptr b 0)) 256 (name_elem (d_name e)).
Proof using Hb He.
  eapply reads_in; [done|lia|lia|rewrite len_dirent; lia|].
  rewrite dirent_split, drop_app_length' by done. rewrite take_ge; [done|].
  pose proof (len_name_elem (d_name e) (proj2 He)). lia.
Qed.

Lemma reads_d_type : reads w (d_type_of (Ptr b 0)) 1 [MByte (u8 (d_type e))].
Proof using Hb He. eapply reads_in; [done|lia|lia|rewrite len_dirent; lia|done]. Qed.

Lemma reads_d_ino : reads w (d_ino_of (Ptr b 0)) 8 (enc64 (d_ino e)).
Proof using Hb He. eapply reads_in; [done|lia|lia|rewrite len_dirent; lia|done]. Qed.

Lemma cstr_d_name : cstr_at w (d_name_of (Ptr b 0)) (d_name e).
Proof using Hb He.
  eexists b, _, _. split_and!; [done|lia|done|apply He|].
  rewrite dirent_split, drop_app_length' by done. by eexists.
Qed.
End entry.

(** ** Arrays that grow from the default capacity *)

(** An array of [elems] that was created with the default capacity and only grew by
    insertions, [N] at most. *)
Record growing (N : Z) (w : world) (p : ptr) (elems : list (list mval)) (esz cap : Z) : Prop := Growing {
  gr_at : dyn_at w p (Dyn elems cap esz);
  gr_cap : cap = DYNAMIC_DEFAULT_CAPACITY ∨ cap < 2 * len elems;
  gr_len : len elems <= N }.

Definition room (N esz : Z) : Z := sizeof_DYNAMIC + 2 * (Z.max DYNAMIC_DEFAULT_CAPACITY N * esz).

Lemma growing_bound N w p elems esz cap :
  growing N w p elems esz cap → sizeof_DYNAMIC + cap * esz <= room N esz ∧ 0 < cap * esz ∧ 0 < esz.
Proof.
  intros [[Hok _] Hc Hl]. pose proof (ok_esz _ Hok) as He. pose proof (ok_cap _ Hok) as Hcap. cbn in He, Hcap.
  unfold room, DYNAMIC_DEFAULT_CAPACITY in *. split; [|split; nia].
  assert (cap <= 2 * Z.max 32 N) by lia. nia.
Qed.

(** The array stayed where it was, or the block that it was in is dead. *)
Definition relocated (w' : world) (p : ptr) (cap : Z) (p' : ptr) (cap' : Z) : Prop :=
  p' = p ∧ cap' = cap ∨ ∀ b, b ∈ blk p → w_heap w' !! b = None.

Lemma growing_insert N w p elems esz cap src e :
  wf_world w → growing N w p elems esz cap → len elems + 1 <= N → room N esz < 2 ^ 63 →
  room N esz - (sizeof_DYNAMIC + cap * esz) <= w_avail w →
  reads w src esz e → len e = esz → blk src ## blk p →
  wp (dynamic_insert p src) (λ p' w', ∃ cap',
    growing N w' p' (elems ++ [e]) esz cap' ∧ w_same (blk p) w w' ∧ w_out w' = w_out w ∧
    (p' = p ∨ blk p' = {[ w_next w ]}) ∧ w_avail w' = w_avail w - (cap' - cap) * esz ∧ relocated w' p cap p' cap') w.
Proof.
  intros Hwf Hg Hl Hr Ha Hsrc He Hd. pose proof (growing_bound _ _ _ _ _ _ Hg) as (Hb & Hp & Hez).
  destruct Hg as [Hat Hc Hle]. pose proof Hat as [Hok _]. pose proof (ok_len _ Hok) as Hlc. cbn in Hlc.
  eapply wp_mono; [eapply (dynamic_insert_spec w p (Dyn elems cap esz) src e); try done|].
  - intros E. cbn [d_elems d_cap d_esz] in E |- *. unfold room, DYNAMIC_DEFAULT_CAPACITY in *.
    assert (cap * esz <= Z.max 32 N * esz) by (apply Z.mul_le_mono_nonneg_r; lia). lia.
  - unfold d_push. cbn. intros p' w' (Hat' & Hs & Ho & Hp' & Hav & Hmv). eexists. split_and!; [split; [exact Hat'|..]|..]; try done.
    + rewrite length_app. cbn [length]. destruct (Z.eqb_spec (len elems) cap); lia.
    + rewrite length_app. cbn [length]. lia.
    + rewrite Hav. destruct (len elems =? cap); lia.
    + unfold relocated. destruct (len elems =? cap); [by right|by left].
Qed.

Lemma growing_same N bs w w' p elems esz cap :
  w_same bs w w' → blk p ## bs → growing N w p elems esz cap → growing N w' p elems esz cap.
Proof. intros Hs Hd [Hat Hc Hl]. split; [by eapply dyn_at_same|done..]. Qed.

Lemma growing_live N w p elems esz cap b :
  growing N w p elems esz cap → b ∈ blk p → is_Some (w_heap w !! b).
Proof. intros [(_ & b' & slack & -> & Hb & _) _ _] ->%elem_of_blk. by eexists. Qed.

(** A step on the array [p] leaves another array [q] alone, and apart from [p]. *)
Lemma growing_apart N w w' p p' q elems esz cap :
  wf_world w → w_same (blk p) w w' → (p' = p ∨ blk p' = {[ w_next w ]}) → blk q ## blk p →
  growing N w q elems esz cap → growing N w' q elems esz cap ∧ blk q ## blk p'.
Proof.
  intros Hwf Hs Hp Hd Hg. split; [by eapply growing_same|]. destruct Hp as [->| ->]; [done|].
  intros b Hb ->%elem_of_singleton. eapply growing_live, Hwf in Hb; [|done]. lia.
Qed.

(** ** A group of growing arrays *)

Record garr := Garr { g_ptr : ptr; g_elems : list (list mval); g_esz : Z; g_cap : Z }.

Definition zsum {A} (f : A → Z) (l : list A) : Z := foldr (λ a s, f a + s) 0 l.

Lemma zsum_cons {A} (f : A → Z) a l : zsum f (a :: l) = f a + zsum f l.
Proof. done. Qed.

Lemma zsum_app {A} (f : A → Z) l k : zsum f (l ++ k) = zsum f l + zsum f k.
Proof. induction l as [|a l IH]; [done|]. cbn [app]. rewrite !zsum_cons, IH. lia. Qed.

Lemma zsum_insert {A} (f : A → Z) l i a b :
  l !! i = Some a → zsum f (<[i := b]> l) = zsum f l - f a + f b.
Proof.
  revert i. induction l as [|c l IH]; intros [|i] Hi; try done.
  - injection Hi as ->. change (<[0%nat := b]> (a :: l)) with (b :: l). rewrite !zsum_cons. lia.
  - change (<[S i := b]> (c :: l)) with (c :: <[i := b]> l). rewrite !zsum_cons, (IH i) by done. lia.
Qed.

Lemma zsum_le {A} (f g : A → Z) l : (∀ x, x ∈ l → g x <= f x) → zsum g l <= zsum f l.
Proof.
  induction l as [|c l IH]; intros Hl; [done|]. rewrite !zsum_cons.
  assert (zsum g l <= zsum f l) by (apply IH; intros; apply Hl; by right).
  pose proof (Hl c ltac:(left)). lia.
Qed.

Lemma zsum_le_one {A} (f g : A → Z) l i a :
  (∀ x, x ∈ l → g x <= f x) → l !! i = Some a → f a - g a <= zsum f l - zsum g l.
Proof.
  intros Hfg Hi. rewrite <- (take_drop_middle _ _ _ Hi).
  rewrite !zsum_app, !zsum_cons.
  assert (zsum g (take i l) <= zsum f (take i l)).
  { apply zsum_le. intros x Hx. apply Hfg. by eapply subseteq_take. }
  assert (zsum g (drop (S i) l) <= zsum f (drop (S i) l)).
  { apply zsum_le. intros x Hx. apply Hfg. by eapply subseteq_drop. }
  lia.
Qed.

Section group.
Context (w0 : world) (N : Z).
Hypothesis w0_wf : wf_world w0.

Definition garr_at (w : world) (a : garr) : Prop := growing N w (g_ptr a) (g_elems a) (g_esz a) (g_cap a).
Definition garr_size (a : garr) : Z := sizeof_DYNAMIC + g_cap a * g_esz a.

(** The arrays [l] are in blocks of their own that [w0] does not have; nothing that [w0]
    has is changed; the budget has paid for them and
    for [used] other bytes. *)
Record group (used : Z) (w : world) (l : list garr) : Prop := Group {
  grp_at : Forall (garr_at w) l;
  grp_apart : ∀ i j a b, i ≠ j → l !! i = Some a → l !! j = Some b → blk (g_ptr a) ## blk (g_ptr b);
  grp_avail : w_avail w = w_avail w0 - used - zsum garr_size l;
  grp_same : w_same ∅ w0 w;
  grp_fresh : ∀ a b, a ∈ l → b ∈ blk (g_ptr a) → (w_next w0 ≤ b)%positive }.

Lemma group_wf u w l : group u w l → wf_world w.
Proof using w0_wf. intros G. by apply (same_wf _ _ _ (grp_same _ _ _ G)). Qed.

Lemma group_nil : group 0 w0 [].
Proof using Type.
  split; try done; [cbn; lia|]. by intros a b ?%not_elem_of_nil.
Qed.

Lemma group_new u w l esz :
  group u w l → 0 < esz → room N esz < 2 ^ 63 → zsum garr_size l + room N esz <= w_avail w0 - u → 0 <= N →
  wp (dynamic esz 0) (λ p w', group u w' (l ++ [Garr p [] esz DYNAMIC_DEFAULT_CAPACITY]) ∧ w_out w' = w_out w) w.
Proof using w0_wf.
  intros G He Hr Ha HN. pose proof (group_wf _ _ _ G) as Hwf.
  assert (sizeof_DYNAMIC + DYNAMIC_DEFAULT_CAPACITY * esz <= room N esz) as Hb.
  { unfold room, DYNAMIC_DEFAULT_CAPACITY. nia. }
  eapply wp_mono; [apply (dynamic_spec w esz 0); try done; cbn [Z.eqb]; [lia|rewrite (grp_avail _ _ _ G); lia]|].
  cbn [Z.eqb]. intros p w' (Hat & -> & Hs & Ho & Hav). split; [|done]. split.
  - apply Forall_app. split.
    + eapply Forall_impl; [apply G|]. intros a Hga. eapply growing_same; [exact Hs|set_solver|exact Hga].
    + constructor; [|done]. split; cbn; [done|by left|done].
  - assert (∀ i a, l !! i = Some a → blk (g_ptr a) ## {[ w_next w ]}) as Hf.
    { intros i a Hi b Hb' ->%elem_of_singleton. pose proof (grp_at _ _ _ G) as Hall.
      rewrite Forall_lookup in Hall. eapply growing_live, Hwf in Hb'; [lia|]. by apply (Hall i). }
    intros i j a b Hij Hi Hj.
    apply lookup_app_Some in Hi as [Hi|[Hi1 Hi2]], Hj as [Hj|[Hj1 Hj2]].
    + by eapply (grp_apart _ _ _ G i j).
    + apply list_lookup_singleton_Some in Hj2 as [_ <-]. by eapply Hf.
    + apply list_lookup_singleton_Some in Hi2 as [_ <-]. symmetry. by eapply Hf.
    + apply list_lookup_singleton_Some in Hi2 as [? _], Hj2 as [? _]. lia.
  - rewrite Hav, (grp_avail _ _ _ G), zsum_app. cbn. unfold garr_size. cbn. lia.
  - rewrite <- (union_empty_l_L ∅). eapply w_same_trans; [apply G|done].
  - intros a b [Ha' | ->%list_elem_of_singleton]%elem_of_app Hb'; [by eapply (grp_fresh _ _ _ G)|].
    cbn in Hb'. apply elem_of_singleton in Hb' as ->. apply (same_next _ _ _ (grp_same _ _ _ G)).
Qed.

(** Steps that leave the arrays alone. *)
Lemma group_step u d w w' l bs :
  group u w l → w_same bs w w' → (∀ a, a ∈ l → blk (g_ptr a) ## bs) →
  (∀ b, b ∈ bs → (w_next w0 ≤ b)%positive) → w_avail w' = w_avail w - d → group (u + d) w' l.
Proof using w0_wf.
  intros G Hs Hd Hf Ha. split; try apply G.
  - pose proof (grp_at _ _ _ G) as Hall. rewrite Forall_forall in Hall |- *. intros a Hal.
    eapply growing_same; [exact Hs|by apply Hd|by apply Hall].
  - rewrite Ha, (grp_avail _ _ _ G). lia.
  - pose proof (w_same_trans _ _ _ _ _ (grp_same _ _ _ G) Hs) as [H E Nx W D].
    split; try done. intros b _ Hb. apply H; [|done]. intros [?|Hb']%elem_of_union; [set_solver|].
    apply Hf in Hb'. apply w0_wf in Hb. lia.
Qed.

(** Inserting into the [i]-th array. *)
Lemma group_insert u w l i a src e :
  group u w l → l !! i = Some a → zsum (λ a, room N (g_esz a)) l <= w_avail w0 - u → room N (g_esz a) < 2 ^ 63 →
  len (g_elems a) + 1 <= N → reads w src (g_esz a) e → len e = g_esz a → blk src ## blk (g_ptr a) →
  wp (dynamic_insert (g_ptr a) src) (λ p' w', ∃ cap',
    group u w' (<[i := Garr p' (g_elems a ++ [e]) (g_esz a) cap']> l) ∧
    w_same (blk (g_ptr a)) w w' ∧ w_out w' = w_out w ∧ (p' = g_ptr a ∨ blk p' = {[ w_next w ]}) ∧
    relocated w' (g_ptr a) (g_cap a) p' cap') w.
Proof using w0_wf.
  intros G Hi Hroom Hr Hl Hsrc He Hd. pose proof (group_wf _ _ _ G) as Hwf.
  pose proof (grp_at _ _ _ G) as Hall. pose proof (Forall_lookup_1 _ _ _ _ Hall Hi) as Hga.
  assert (∀ x, x ∈ l → garr_size x <= room N (g_esz x)) as Hsz.
  { intros x Hx. rewrite Forall_forall in Hall. by destruct (growing_bound _ _ _ _ _ _ (Hall _ Hx)). }
  pose proof (zsum_le_one (λ a, room N (g_esz a)) garr_size l i a Hsz Hi) as Hz. cbn in Hz.
  eapply wp_mono; [eapply (growing_insert N w _ _ _ (g_cap a)); try done|].
  { rewrite (grp_avail _ _ _ G). unfold garr_size in *. lia. }
  cbn. intros p' w' (cap' & Hg' & Hs & Ho & Hp & Hav & Hmv). exists cap'. split_and!; try done.
  assert (∀ j b, j ≠ i → l !! j = Some b → garr_at w' b ∧ blk (g_ptr b) ## blk p') as Hoth.
  { intros j b Hj Hjb. eapply growing_apart; [exact Hwf|exact Hs|exact Hp| |].
    - by eapply (grp_apart _ _ _ G j i).
    - exact (Forall_lookup_1 _ _ _ _ Hall Hjb). }
  pose proof (lookup_lt_Some _ _ _ Hi) as Hlt.
  assert (∀ b, b ∈ blk p' → (w_next w0 ≤ b)%positive) as Hf.
  { intros b Hb. destruct Hp as [->|Hp].
    - eapply (grp_fresh _ _ _ G); [by eapply list_elem_of_lookup_2|done].
    - rewrite Hp, elem_of_singleton in Hb. subst b. apply (same_next _ _ _ (grp_same _ _ _ G)). }
  split.
  - apply Forall_lookup. intros j b Hj. destruct (decide (j = i)) as [->|Hne].
    + rewrite list_lookup_insert_eq in Hj by done. by injection Hj as <-.
    + rewrite list_lookup_insert_ne in Hj by done. by apply (Hoth j b).
  - intros j k b c Hjk Hj Hk. destruct (decide (j = i)) as [->|Hne1], (decide (k = i)) as [->|Hne2]; try done;
      rewrite ?list_lookup_insert_eq in Hj by done; rewrite ?list_lookup_insert_eq in Hk by done;
      rewrite ?list_lookup_insert_ne in Hj by done; rewrite ?list_lookup_insert_ne in Hk by done.
    + injection Hj as <-. symmetry. cbn. by apply (Hoth k c).
    + injection Hk as <-. cbn. by apply (Hoth j b).
    + by eapply (grp_apart _ _ _ G j k).
  - rewrite (zsum_insert _ _ _ _ _ Hi), Hav, (grp_avail _ _ _ G). unfold garr_size. cbn. lia.
  - pose proof (w_same_trans _ _ _ _ _ (grp_same _ _ _ G) Hs) as [H E Nx W D].
    split; try done. intros b _ Hb. apply H; [|done]. intros [?|Hb']%elem_of_union; [set_solver|].
    apply (grp_fresh _ _ _ G a) in Hb'; [|by eapply list_elem_of_lookup_2]. apply w0_wf in Hb. lia.
  - intros b c (j & Hj)%list_elem_of_lookup Hc. destruct (decide (j = i)) as [->|Hne].
    + rewrite list_lookup_insert_eq in Hj by done. injection Hj as <-. by apply Hf.
    + rewrite list_lookup_insert_ne in Hj by done. eapply (grp_fresh _ _ _ G); [by eapply list_elem_of_lookup_2|done].
Qed.

(** A block beside the arrays: an entry of [readdir] or a local variable. *)
Record scratch (w : world) (l : list garr) (b : positive) (bs : list mval) : Prop := Scratch {
  scr_at : w_heap w !! b = Some bs;
  scr_apart : ∀ a, a ∈ l → b ∉ blk (g_ptr a);
  scr_fresh : (w_next w0 ≤ b)%positive }.

Lemma scratch_new u w l bs :
  group u w l → let w' := with_new w bs (w_avail w) in
  new_block bs w = Ret (Ptr (w_next w) 0) w' ∧ group u w' l ∧ scratch w' l (w_next w) bs ∧ w_same ∅ w w'.
Proof using w0_wf.
  intros G w'. pose proof (group_wf _ _ _ G) as Hwf.
  assert (w_same ∅ w w') as Hs by by apply w_same_alloc.
  split_and!; [done| | |done].
  - rewrite <- (Z.add_0_r u). eapply group_step; [done|exact Hs|set_solver|set_solver|cbn; lia].
  - split.
    + apply lookup_insert_eq.
    + intros a Ha Hb. pose proof (grp_at _ _ _ G) as Hall. rewrite Forall_forall in Hall.
      eapply growing_live, Hwf in Hb; [lia|by apply Hall].
    + apply (same_next _ _ _ (grp_same _ _ _ G)).
Qed.

Lemma scratch_same w w' l b bs cs :
  scratch w l b bs → w_same cs w w' → b ∉ cs → scratch w' l b bs.
Proof using Type.
  intros [H1 H2 H3] Hs Hb. split; [|done..]. rewrite (same_heap _ _ _ Hs); [done|done|by eexists].
Qed.

Lemma scratch_insert u w w' l i a p' es esz cap b bs :
  group u w l → scratch w l b bs → l !! i = Some a → w_same (blk (g_ptr a)) w w' →
  (p' = g_ptr a ∨ blk p' = {[ w_next w ]}) → scratch w' (<[i := Garr p' es esz cap]> l) b bs.
Proof using w0_wf.
  intros G [H1 H2 H3] Hi Hs Hp. pose proof (list_elem_of_lookup_2 _ _ _ Hi) as Hin. split; [| |done].
  - rewrite (same_heap _ _ _ Hs); [done|by apply H2|by eexists].
  - intros c (j & Hj)%list_elem_of_lookup. destruct (decide (j = i)) as [->|Hne].
    + rewrite list_lookup_insert_eq in Hj by by eapply lookup_lt_Some. injection Hj as <-. cbn.
      destruct Hp as [->| ->]; [by apply H2|]. intros ->%elem_of_singleton.
      assert (w_next w < w_next w)%positive; [|lia]. apply (group_wf _ _ _ G). by eexists.
    + rewrite list_lookup_insert_ne in Hj by done. apply H2. by eapply list_elem_of_lookup_2.
Qed.

Lemma scratch_drop u w l b bs :
  group u w l → scratch w l b bs →
  let w' := set_heap (delete b (w_heap w)) w in
  drop_block (Ptr b 0) w = Ret tt w' ∧ group u w' l ∧ w_same {[b]} w w'.
Proof using w0_wf.
  intros G [H1 H2 H3] w'. assert (w_same {[b]} w w') as Hs by apply (w_same_without w b (w_avail w)).
  split_and!; [done| |done]. rewrite <- (Z.add_0_r u). eapply group_step; [done|exact Hs| | |cbn; lia].
  - intros a Ha. specialize (H2 a Ha). set_solver.
  - by intros c ->%elem_of_singleton.
Qed.

(** An insertion from a scratch block keeps every scratch block. *)
Lemma group_insert_scratch u w l i a src e :
  group u w l → l !! i = Some a → zsum (λ a, room N (g_esz a)) l <= w_avail w0 - u → room N (g_esz a) < 2 ^ 63 →
  len (g_elems a) + 1 <= N → reads w src (g_esz a) e → len e = g_esz a → blk src ## blk (g_ptr a) →
  wp (dynamic_insert (g_ptr a) src) (λ p' w', ∃ cap',
    let l' := <[i := Garr p' (g_elems a ++ [e]) (g_esz a) cap']> l in
    group u w' l' ∧ w_out w' = w_out w ∧ (∀ b bs, scratch w l b bs → scratch w' l' b bs) ∧
    graves w w' ∧ relocated w' (g_ptr a) (g_cap a) p' cap') w.
Proof using w0_wf.
  intros G Hi Hz Hr Hl Hsrc He Hd. eapply wp_mono; [by eapply group_insert|].
  cbn. intros p' w' (cap' & G' & Hs & Ho & Hp & Hmv). exists cap'. split_and!; [done..| | |done].
  - intros b bs Hb. by eapply scratch_insert.
  - by eapply w_same_graves.
Qed.

(** Releasing one array. *)
Lemma group_free u w l1 a l2 :
  group u w (l1 ++ a :: l2) →
  wp (dynamic_free (g_ptr a)) (λ _ w', group u w' (l1 ++ l2) ∧ w_out w' = w_out w ∧ graves w w') w.
Proof using w0_wf.
  intros G. pose proof (grp_at _ _ _ G) as Hall. rewrite Forall_app, Forall_cons in Hall.
  destruct Hall as (H1 & Ha & H2).
  assert (∀ i b, (l1 ++ l2) !! i = Some b → ∃ j, j ≠ length l1 ∧ (l1 ++ a :: l2) !! j = Some b ∧
            j = (if decide (i < length l1)%nat then i else S i)) as Hidx.
  { intros i b Hi. eexists. split_and!; [| |done]; case_decide as Hd; try lia.
    - by rewrite lookup_app_l in Hi |- * by lia.
    - rewrite lookup_app_r in Hi |- * by lia. by replace (S i - length l1)%nat with (S (i - length l1)) by lia. }
  assert (∀ i b, (l1 ++ l2) !! i = Some b → blk (g_ptr b) ## blk (g_ptr a)) as Hap.
  { intros i b Hi. destruct (Hidx i b Hi) as (j & Hne & Hj & _).
    eapply (grp_apart _ _ _ G j (length l1)); [done|done|]. by rewrite list_lookup_middle. }
  eapply wp_mono; [eapply (dynamic_free_spec w _ _ (gr_at _ _ _ _ _ _ Ha))|].
  cbn. intros [] w' (Hs & Ho & Hav & _). split; [|split; [done|by eapply w_same_graves]]. split.
  - assert (Forall (garr_at w) (l1 ++ l2)) as Hall by by apply Forall_app.
    rewrite Forall_lookup in Hall |- *. intros i b Hi. eapply growing_same; [exact Hs|by eapply Hap|by eapply Hall].
  - intros i j b c Hij Hi Hj. destruct (Hidx i b Hi) as (i' & _ & Hi' & ->), (Hidx j c Hj) as (j' & _ & Hj' & ->).
    eapply (grp_apart _ _ _ G); [|exact Hi'|exact Hj']. repeat case_decide; lia.
  - rewrite Hav, (grp_avail _ _ _ G), !zsum_app, zsum_cons. unfold garr_size at 2. lia.
  - pose proof (w_same_trans _ _ _ _ _ (grp_same _ _ _ G) Hs) as [H E Nx W D].
    split; try done. intros b _ Hb. apply H; [|done]. intros [?|Hb']%elem_of_union; [set_solver|].
    apply (grp_fresh _ _ _ G a) in Hb'; [|set_solver]. apply w0_wf in Hb. lia.
  - intros b c Hb Hc. eapply (grp_fresh _ _ _ G); [|exact Hc]. set_solver.
Qed.
End group.

(** ** One entry *)

Definition type_elem (e : dirent) : list mval := [MByte (u8 (d_type e))].

Definition rd_arrays (r : reading) (es : list dirent) (ds : list (list mval)) (c0 c1 c2 c3 : Z) : list garr :=
  [Garr (rd_names r) ((λ e, name_elem (d_name e)) <$> es) 256 c0;
   Garr (rd_types r) (type_elem <$> es) 1 c1;
   Garr (rd_ino r) ((λ e, enc64 (d_ino e)) <$> es) 8 c2;
   Garr (rd_dirs r) ds 8 c3].

Definition rd_room (N : Z) : Z := room N 256 + room N 1 + room N 8 + room N 8.

(** How many entries there are before the first subdirectory. *)
Definition subdir_index (es : list dirent) : Z := prefix_len (λ e, negb (is_subdir e)) es.

(** The block [b], where the array [np] was when its capacity was at most [B], is dead, or the
    array is still there. *)
Definition tracked (w : world) (np : ptr) (cap B : Z) (b : positive) : Prop :=
  (b < w_next w)%positive ∧ (w_heap w !! b = None ∨ b ∈ blk np ∧ cap <= B).

Lemma tracked_graves w w' np cap B b : tracked w np cap B b → graves w w' → tracked w' np cap B b.
Proof. intros [Hb Hc] [Hx Hd]. split; [lia|]. destruct Hc as [?|?]; [left; by apply Hd|by right]. Qed.

Lemma tracked_move w np cap np' cap' B b : tracked w np cap B b → relocated w np cap np' cap' → tracked w np' cap' B b.
Proof. intros [Hb Hc] [[-> ->]|Hr]; [done|]. split; [done|]. destruct Hc as [?|[Hin _]]; [by left|left; by apply Hr]. Qed.

(** The first element of [dirs] is the address of a name, in the block where the names were
    when it was taken. *)
Definition first_address (w : world) (np : ptr) (cap : Z) (es : list dirent) (ds : list (list mval)) : Prop :=
  ∀ v, head ds = Some v → ∃ b o, v = encptr (Ptr b o) ∧
    tracked w np cap (Z.max DYNAMIC_DEFAULT_CAPACITY (2 * subdir_index es + 1)) b.

(** The variables of [read_dir] after the entries [es] were listed. *)
Definition rd_state (w0 : world) (N : Z) (w : world) (r : reading) (es : list dirent) : Prop :=
  ∃ ds c0 c1 c2 c3, group w0 N 0 w (rd_arrays r es ds c0 c1 c2 c3) ∧
    length ds = length (filter (λ e, is_subdir e = true) es) ∧
    rd_max r = longest es ∧ rd_i r = len es ∧ w_out w = w_out w0 ∧ first_address w (rd_names r) c0 es ds.

Lemma rd_bounds N :
  0 <= N → rd_room N < 2 ^ 63 →
  room N 256 < 2 ^ 63 ∧ room N 1 < 2 ^ 63 ∧ room N 8 < 2 ^ 63 ∧ 2 * N * 256 < 2 ^ 63.
Proof. unfold rd_room, room, sizeof_DYNAMIC, DYNAMIC_DEFAULT_CAPACITY. lia. Qed.

Lemma rd_arrays_room N r es ds c0 c1 c2 c3 : zsum (λ a, room N (g_esz a)) (rd_arrays r es ds c0 c1 c2 c3) = rd_room N.
Proof. cbn. unfold rd_room. lia. Qed.

Lemma longest_snoc es e : longest (es ++ [e]) = max_ (longest es) (len (d_name e)).
Proof. unfold longest. by rewrite foldl_app. Qed.

Lemma load_u8_cstr w p s : cstr_at w p s → load_u8 p w = Ret (default 0 (head s)) w.
Proof. intros H. by apply cstr_at_uncons. Qed.

Lemma subdir_index_none es : filter (λ e, is_subdir e = true) es = [] → subdir_index es = len es.
Proof.
  unfold subdir_index. induction es as [|e es IH]; [done|]. rewrite filter_cons. cbn [prefix_len].
  destruct (is_subdir e); [done|]. cbn [negb]. intros H. cbn [length]. rewrite IH by done. lia.
Qed.

Lemma subdir_index_app es e : filter (λ e, is_subdir e = true) es ≠ [] → subdir_index (es ++ [e]) = subdir_index es.
Proof.
  unfold subdir_index. induction es as [|x es IH]; [done|]. rewrite filter_cons. cbn [app prefix_len].
  destruct (is_subdir x); [done|]. cbn [negb]. intros H. by rewrite IH.
Qed.

(** Listing one more entry: the first address stays what it is, or it dies. *)
Lemma first_address_keep w w2 w' np cap np' cap' es ds ds' e :
  length ds = length (filter (λ e, is_subdir e = true) es) → ds ≠ [] → ds `prefix_of` ds' →
  first_address w np cap es ds → graves w w2 → graves w2 w' →
  relocated w2 np cap np' cap' → first_address w' np' cap' (es ++ [e]) ds'.
Proof.
  intros Hl Hn [ds2 ->] Hf V V' Hr v Hv. destruct ds as [|v0 ds]; [done|].
  destruct (Hf v Hv) as (b & o & -> & Ht). exists b, o. split; [done|].
  rewrite subdir_index_app by (intros E; by rewrite E in Hl).
  eapply tracked_graves; [|exact V']. eapply tracked_move; [by eapply tracked_graves|done].
Qed.

Lemma first_address_new w np cap es e o esz elems N :
  growing N w np elems esz cap → wf_world w → len elems = len es + 1 → filter (λ e, is_subdir e = true) es = [] →
  is_subdir e = true → ∀ w', graves w w' →
  first_address w' np cap (es ++ [e]) [encptr (padd np o)].
Proof.
  intros Hg Hwf Hl Hn He w' [Hx _] v [= <-]. destruct Hg as [(Hok & b & slack & -> & Hat & _) Hc Hle].
  exists b, (0 + o). split; [done|]. split; [assert (b < w_next w)%positive by (apply Hwf; by eexists); lia|]. right. split; [by apply elem_of_blk|].
  assert (subdir_index (es ++ [e]) = len es) as ->.
  { rewrite <- (subdir_index_none es Hn). clear Hl. revert Hn. unfold subdir_index. induction es as [|x es IH]; cbn [app prefix_len].
    - by rewrite He.
    - rewrite filter_cons. destruct (is_subdir x); [done|]. cbn [negb]. intros H. by rewrite IH. }
  lia.
Qed.

Section read_dir.
Set Default Proof Using "All".
Context (w0 : world) (N : Z) (flags : FLAGS).
Hypothesis w0_wf : wf_world w0.
Hypothesis N_pos : 0 <= N.
Hypothesis N_room : rd_room N < 2 ^ 63.
Hypothesis w0_room : rd_room N <= w_avail w0.

Local Notation group := (group w0 N 0).
Local Notation scratch := (scratch w0).
Local Notation rd_state := (rd_state w0 N).

(** The subdirectory branch: the address of the name goes to [dirs]. *)
Lemma add_subdir w l nptr nelems nesz ncap dptr delems dcap i b bs :
  group w l → l !! 0%nat = Some (Garr nptr nelems nesz ncap) → l !! 3%nat = Some (Garr dptr delems 8 dcap) →
  zsum (λ a, room N (g_esz a)) l <= w_avail w0 → len delems + 1 <= N → 0 <= i <= ncap → scratch w l b bs →
  wp (p ← dynamic_get nptr i; v ← new_block (encptr p); dirs ← dynamic_insert dptr v; drop_block v;; mret dirs)
    (λ dptr' w', ∃ cap',
      let e := encptr (elem_ptr nptr (Dyn nelems ncap nesz) i) in
      let l' := <[3%nat := Garr dptr' (delems ++ [e]) 8 cap']> l in
      group w' l' ∧ w_out w' = w_out w ∧ scratch w' l' b bs ∧ graves w w') w.
Proof.
  intros G Hn Hd Hz Hl Hi Hb. destruct (rd_bounds N N_pos N_room) as (_ & _ & Hr8 & _).
  pose proof (Forall_lookup_1 _ _ _ _ (grp_at _ _ _ _ _ G) Hn) as [Hnat _ _]. cbn in Hnat.
  eapply wp_step; [by eapply dynamic_get_spec|]. cbn beta. set (p := elem_ptr _ _ _).
  destruct (scratch_new _ _ w0_wf _ _ _ (encptr p) G) as (E & G1 & Sv & Hs1).
  eapply wp_step; [exact E|]. cbn beta. set (w1 := with_new _ _ _) in *.
  assert (b ≠ w_next w) as Hbv.
  { intros ->. assert (w_next w < w_next w)%positive; [|lia].
    apply (group_wf _ _ w0_wf _ _ _ G). exists bs. apply Hb. }
  assert (scratch w1 l b bs) as Hb1 by (eapply scratch_same; [exact Hb|exact Hs1|set_solver]).
  apply wp_bind. eapply wp_mono.
  { eapply (group_insert_scratch w0 N w0_wf 0 w1 l 3 (Garr dptr delems 8 dcap) (Ptr (w_next w) 0) (encptr p)); try done; cbn.
    - lia.
    - eapply holds_reads; [apply holds_block, Sv|]. by rewrite length_encptr.
    - by rewrite length_encptr.
    - intros c ->%elem_of_singleton. apply (scr_apart _ _ _ _ _ Sv (Garr dptr delems 8 dcap)).
      by eapply list_elem_of_lookup_2. }
  cbn. intros dptr' w2 (cap' & G2 & Ho2 & K2 & V2 & _).
  destruct (scratch_drop _ _ w0_wf _ _ _ _ _ G2 (K2 _ _ Sv)) as (E3 & G3 & Hs3).
  eapply wp_step; [exact E3|]. apply wp_ret. exists cap'. split_and!; [done|exact Ho2| |].
  - eapply scratch_same; [by apply K2|exact Hs3|set_solver].
  - etrans; [by eapply w_same_graves|]. etrans; [exact V2|by eapply w_same_graves].
Qed.

Lemma read_entry_spec w r es e :
  entry_ok e → rd_state w r es → len es + 1 <= N →
  wp (read_entry flags e r) (λ r' w', rd_state w' r' (es ++ if visible flags e then [e] else [])) w.
Proof.
  intros He (ds & c0 & c1 & c2 & c3 & G & Hds & Hm & Hi & Ho & Hfa) Hl.
  destruct (rd_bounds N N_pos N_room) as (Hr256 & Hr1 & Hr8 & HN).
  destruct (scratch_new _ _ w0_wf _ _ _ (dirent_block e) G) as (E & G1 & S1 & Hs1).
  unfold read_entry. eapply wp_step; [exact E|]. cbn beta.
  set (w1 := with_new _ _ _) in *. pose proof (w_same_graves _ _ _ Hs1) as V1. set (b := w_next w) in *. clear E.
  eapply wp_step; [by eapply load_u8_cstr, cstr_d_name; [apply S1|]|]. cbn beta.
  fold (visible flags e). destruct (visible flags e) eqn:Hv.
  2:{ eapply wp_step; [done|]. destruct (scratch_drop _ _ w0_wf _ _ _ _ _ G1 S1) as (E3 & G3 & Hs3).
      eapply wp_step; [exact E3|]. apply wp_ret. rewrite app_nil_r. exists ds, c0, c1, c2, c3. split_and!; try done.
      intros v Hhd. destruct (Hfa v Hhd) as (b' & o & -> & Ht). exists b', o. split; [done|].
      eapply tracked_graves; [exact Ht|]. etrans; [exact V1|by eapply w_same_graves]. }
  apply wp_bind.
  assert (∀ w l, scratch w l b (dirent_block e) → strlen (d_name_of (Ptr b 0)) w = Ret (len (d_name e)) w) as Hlen.
  { intros v l S. eapply strlen_eq, cstr_d_name; [apply S|done]. }
  eapply wp_step; [by eapply Hlen|]. cbn beta zeta.
  assert (∀ l a, a ∈ l → ∀ w, scratch w l b (dirent_block e) → ∀ o, blk (padd (Ptr b 0) o) ## blk (g_ptr a)) as Hsep.
  { intros l a Ha v S o c. rewrite blk_padd, elem_of_blk. intros ->. by apply S. }
  apply wp_bind. eapply wp_mono.
  { eapply (group_insert_scratch w0 N w0_wf 0 w1 _ 0 (Garr (rd_names r) _ 256 c0) (d_name_of (Ptr b 0)) (name_elem (d_name e)) G1); try done.
    - rewrite rd_arrays_room. lia.
    - cbn. by rewrite length_fmap.
    - eapply reads_d_name; [apply S1|done].
    - by apply len_name_elem, He.
    - eapply Hsep; [by left|exact S1]. }
  cbn beta. intros p0 w2 (c0' & G2 & Ho2 & K2 & V2 & R2). cbn in G2, K2, R2. apply K2 in S1 as S2. clear K2.
  apply wp_bind. eapply wp_mono.
  { eapply (group_insert_scratch w0 N w0_wf 0 w2 _ 1 (Garr (rd_types r) _ 1 c1) (d_type_of (Ptr b 0)) (type_elem e) G2); try done.
    - cbn. unfold rd_room in w0_room. lia.
    - cbn. by rewrite length_fmap.
    - eapply reads_d_type; [apply S2|done].
    - eapply Hsep; [by right; left|exact S2]. }
  cbn beta. intros p1 w3 (c1' & G3 & Ho3 & K3 & V3 & _). cbn in G3, K3. apply K3 in S2 as S3. clear K3.
  apply wp_bind. eapply wp_mono.
  { eapply (group_insert_scratch w0 N w0_wf 0 w3 _ 2 (Garr (rd_ino r) _ 8 c2) (d_ino_of (Ptr b 0)) (enc64 (d_ino e)) G3); try done.
    - cbn. unfold rd_room in w0_room. lia.
    - cbn. by rewrite length_fmap.
    - eapply reads_d_ino; [apply S3|done].
    - eapply Hsep; [by right; right; left|exact S3]. }
  cbn beta. intros p2 w4 (c2' & G4 & Ho4 & K4 & V4 & _). cbn in G4, K4. apply K4 in S3 as S4. clear K4.
  eapply wp_step; [eapply load_u8_eq, reads_d_type; [apply S4|done]|]. cbn beta.
  eapply wp_step; [eapply load_u8_cstr, cstr_d_name; [apply S4|done]|]. cbn beta.
  fold (is_subdir e). apply wp_bind.
  match type of G4 with LsRead.group _ _ _ _ ?l => set (l4 := l) in * end.
  assert (graves w2 w4) as V24 by by etrans.
  eapply (wp_mono _ (λ dirs' w5, ∃ ds' c3',
    group w5 (<[3%nat := Garr dirs' ds' 8 c3']> l4) ∧ w_out w5 = w_out w4 ∧
    length ds' = length (filter (λ e, is_subdir e = true) (es ++ [e])) ∧
    scratch w5 (<[3%nat := Garr dirs' ds' 8 c3']> l4) b (dirent_block e) ∧
    graves w4 w5 ∧ ∀ w', graves w5 w' → first_address w' p0 c0' (es ++ [e]) ds')).
  { assert (∀ w', graves w2 w' → ds ≠ [] → ∀ ds', ds `prefix_of` ds' → first_address w' p0 c0' (es ++ [e]) ds') as Hkeep.
    { intros w' V5 Hn ds' Hp. eapply (first_address_keep w w2); try done. by etrans. }
    pose proof (Forall_lookup_1 _ _ 0 _ (grp_at _ _ _ _ _ G4) eq_refl) as Hg4. unfold garr_at in Hg4. cbn [g_ptr g_elems g_esz g_cap l4] in Hg4.
    rewrite filter_app, length_app, filter_cons. destruct (is_subdir e) eqn:Hsub.
    - rewrite decide_True by done. eapply wp_mono.
      + eapply (add_subdir w4 l4 p0 _ 256 c0' (rd_dirs r) ds c3); try done.
        * cbn. unfold rd_room in w0_room. lia.
        * rewrite Hds. assert (length (filter (λ e, is_subdir e = true) es) <= length es)%nat by apply length_filter. lia.
        * rewrite Hi. destruct Hg4 as [[Hok _] _ _].
          pose proof (ok_len _ Hok) as Hcl. cbn in Hcl. rewrite length_app, length_fmap in Hcl. lia.
      + cbn beta. intros d' w5 (cap' & G5 & Ho5 & S5 & V5). eexists (ds ++ [_]), cap'.
        split_and!; [exact G5|done| |exact S5|done|]; [rewrite length_app; cbn; lia|].
        intros w' V6. destruct (decide (ds = [])) as [->|Hn].
        * eapply first_address_new; [exact Hg4|by apply (group_wf _ _ w0_wf _ _ _ G4)| | |done|by etrans].
          -- rewrite length_app, length_fmap. cbn. lia.
          -- destruct (filter _ es); done.
        * apply Hkeep; [by do 2 (etrans; [done|])|done|by eexists].
    - rewrite decide_False by done. apply wp_ret. exists ds, c3. cbn. split_and!; try done; [lia|].
      intros w' V5. destruct (decide (ds = [])) as [->|Hn]; [by intros v|]. apply Hkeep; [by etrans|done|done]. }
  cbn beta. intros p3 w5 (ds' & c3' & G5 & Ho5 & Hds' & S5 & V5 & F5). apply wp_ret.
  destruct (scratch_drop _ _ w0_wf _ _ _ _ _ G5 S5) as (E6 & G6 & Hs6).
  eapply wp_step; [exact E6|]. apply wp_ret.
  exists ds', c0', c1', c2', c3'. cbn [rd_max rd_i rd_names]. split_and!.
  - unfold rd_arrays. rewrite !fmap_app. exact G6.
  - done.
  - rewrite longest_snoc, Hm. f_equal. unfold min_. destruct He as [_ He]. destruct (Z.ltb_spec (len (d_name e)) 255); lia.
  - rewrite length_app, Hi. cbn [length]. rewrite u64_small by (unfold is_u64; lia). lia.
  - cbn. rewrite Ho5, Ho4, Ho3, Ho2. exact Ho.
  - apply F5. by eapply w_same_graves.
Qed.

(** The whole directory. *)
Lemma read_dir_spec path name es :
  cstr_at w0 path name → k_opendir (w_env w0) name = Some es → Forall entry_ok es → len es <= N →
  wp (read_dir path flags) (λ o w', ∃ r, o = Some r ∧ rd_state w' r (listed flags es)) w0.
Proof.
  intros Hp Hk Hes Hl. destruct (rd_bounds N N_pos N_room) as (Hr256 & Hr1 & Hr8 & HN).
  unfold read_dir. eapply wp_step; [by apply read_cstr_eq|]. eapply wp_step; [done|]. cbn beta. rewrite Hk.
  assert (sizeof_DYNAMIC + DYNAMIC_DEFAULT_CAPACITY * 256 <= room N 256 ∧
    sizeof_DYNAMIC + DYNAMIC_DEFAULT_CAPACITY * 1 <= room N 1 ∧
    sizeof_DYNAMIC + DYNAMIC_DEFAULT_CAPACITY * 8 <= room N 8) as (R1 & R2 & R3).
  { unfold room, DYNAMIC_DEFAULT_CAPACITY. lia. }
  unfold sizeof_DYNAMIC, DYNAMIC_DEFAULT_CAPACITY in R1, R2, R3.
  pose proof (group_nil w0 N) as G. unfold rd_room in *.
  apply wp_bind. eapply wp_mono; [eapply (group_new w0 N w0_wf 0 w0 [] 256 G); cbn; lia|].
  cbn beta. intros p0 w1 [G1 Ho1]. cbn [app] in G1.
  apply wp_bind. eapply wp_mono; [eapply (group_new w0 N w0_wf 0 w1 _ 1 G1); unfold garr_size, sizeof_DYNAMIC, DYNAMIC_DEFAULT_CAPACITY; cbn; lia|].
  cbn beta. intros p1 w2 [G2 Ho2]. cbn [app] in G2.
  apply wp_bind. eapply wp_mono; [eapply (group_new w0 N w0_wf 0 w2 _ 8 G2); unfold garr_size, sizeof_DYNAMIC, DYNAMIC_DEFAULT_CAPACITY; cbn; lia|].
  cbn beta. intros p2 w3 [G3 Ho3]. cbn [app] in G3.
  apply wp_bind. eapply wp_mono; [eapply (group_new w0 N w0_wf 0 w3 _ 8 G3); unfold garr_size, sizeof_DYNAMIC, DYNAMIC_DEFAULT_CAPACITY; cbn; lia|].
  cbn beta. intros p3 w4 [G4 Ho4]. cbn [app] in G4.
  apply wp_bind. eapply wp_mono.
  { apply (wp_mfold es (read_entry flags) _ (λ done_ r w, rd_state w r (listed flags done_))).
    - eexists [], _, _, _, _. split_and!; [exact G4|done|done|done| |by intros v]. cbn. congruence.
    - intros done_ e todo r w -> Hr. rewrite Forall_app, Forall_cons in Hes. destruct Hes as (_ & He & _).
      eapply wp_mono; [eapply read_entry_spec; try done|].
      + assert (length (listed flags done_) <= length done_)%nat by apply length_filter.
        rewrite length_app in Hl. cbn in Hl. lia.
      + intros r' w' Hr'. unfold listed in *. rewrite filter_app, filter_cons.
        destruct (visible flags e); [by rewrite decide_True by done|by rewrite decide_False by done]. }
  cbn beta. intros r w5 Hr. apply wp_ret. by exists r.
Qed.
End read_dir.
