(* ===== verification/LsSort.v ===== *)
(** * LsSort: the order in which [ls] lists the entries

    [sort_map] permutes an array of indices; [order] is the permutation.  The comparison
    functions are shown to be orders, and what they return for two stored indices. *)

From S2P Require Import Prelude Mem Logic Region CStr Printf Dynamic Utils SortList Qsort QsortSpec QsortHeap QsortMain LsFlags Ls.
Local Open Scope Z_scope.

(** ** The comparisons on indices *)

Definition polarity (flags : FLAGS) : Z := if reverse flags then -1 else 1.

Definition cmp_name (pol : Z) (ns : list (list Z)) (i j : nat) : Z := pol * str_cmp (ns !!! i) (ns !!! j).

Definition cmp_width (pol : Z) (ns : list (list Z)) (i j : nat) : Z :=
  let a := ns !!! i in let b := ns !!! j in
  if len a =? len b then pol * str_cmp a b else pol * (if len b <? len a then 1 else -1).

Definition cmp_index (i j : nat) : Z := Z.sgn (Z.of_nat j - Z.of_nat i).

(** The order of the indices [0 .. count-1]. *)
Definition order (flags : FLAGS) (ns : list (list Z)) (count : nat) : list nat :=
  match sort flags with
  | NAME => msort_list (cmp_name (polarity flags) ns) count (seq 0 count)
  | NONE => if reverse flags then msort_list cmp_index count (seq 0 count) else seq 0 count
  | WIDTH => msort_list (cmp_width (polarity flags) ns) count (seq 0 count)
  end.

Section orders.
Context (pol : Z) (ns : list (list Z)).
Hypothesis Hpol : pol = 1 ∨ pol = -1.
Hypothesis Hns : Forall is_cstr ns.

Lemma name_cstr i : is_cstr (ns !!! i).
Proof using Hns.
  rewrite list_lookup_total_alt. destruct (ns !! i) eqn:E; [|by constructor].
  by eapply Forall_lookup_1.
Qed.

Lemma cmp_name_order : CmpOrder (cmp_name pol ns).
Proof using Hpol Hns.
  unfold cmp_name. split.
  - intros i j. rewrite (str_cmp_antisym (ns !!! j)). destruct Hpol as [-> | ->]; lia.
  - intros i j k. destruct Hpol as [-> | ->]; intros H1 H2.
    + rewrite Z.mul_1_l in *. eapply str_cmp_trans; [apply name_cstr| |apply name_cstr|exact H1|exact H2]. apply name_cstr.
    + assert (str_cmp (ns !!! k) (ns !!! i) <= 0); [|rewrite (str_cmp_antisym (ns !!! k)); lia].
      rewrite (str_cmp_antisym (ns !!! j)) in H1. rewrite (str_cmp_antisym (ns !!! k)) in H2.
      eapply (str_cmp_trans _ (ns !!! j)); try apply name_cstr; lia.
Qed.

Lemma cmp_width_order : CmpOrder (cmp_width pol ns).
Proof using Hpol Hns.
  pose proof cmp_name_order as [Hf Ht]. unfold cmp_width, cmp_name in *. split.
  - intros i j. specialize (Hf i j). rewrite (Z.eqb_sym (len (ns !!! j))).
    destruct (Z.eqb_spec (len (ns !!! i)) (len (ns !!! j))); [done|].
    destruct (Z.ltb_spec (len (ns !!! i)) (len (ns !!! j))), (Z.ltb_spec (len (ns !!! j)) (len (ns !!! i)));
      destruct Hpol as [-> | ->]; lia.
  - intros i j k. specialize (Ht i j k).
    destruct (Z.eqb_spec (len (ns !!! i)) (len (ns !!! j))), (Z.eqb_spec (len (ns !!! j)) (len (ns !!! k))),
      (Z.eqb_spec (len (ns !!! i)) (len (ns !!! k))); try lia; try done;
      repeat case_match; zb; destruct Hpol as [-> | ->]; lia.
Qed.

Lemma cmp_index_order : CmpOrder cmp_index.
Proof using Type. unfold cmp_index. split; intros; lia. Qed.
End orders.

(** The relation the listing is sorted by. *)
Definition before (flags : FLAGS) (ns : list (list Z)) (i j : nat) : Prop :=
  match sort flags with
  | NAME => cle (cmp_name (polarity flags) ns) i j
  | NONE => if reverse flags then (j <= i)%nat else (i <= j)%nat
  | WIDTH => cle (cmp_width (polarity flags) ns) i j
  end.

Lemma polarity_cases flags : polarity flags = 1 ∨ polarity flags = -1.
Proof. unfold polarity. destruct (reverse flags); auto. Qed.

Lemma order_perm flags ns count : order flags ns count ≡ₚ seq 0 count.
Proof. unfold order. destruct (sort flags); [destruct (reverse flags); [|done]|..]; apply msort_list_perm. Qed.

Lemma length_order flags ns count : length (order flags ns count) = count.
Proof. by rewrite order_perm, length_seq. Qed.

Lemma order_lt flags ns count i k : order flags ns count !! i = Some k → (k < count)%nat.
Proof.
  intros Hk%list_elem_of_lookup_2. rewrite order_perm in Hk. apply elem_of_seq in Hk. lia.
Qed.

Lemma Sorted_mono {A} (R R' : A → A → Prop) l : (∀ x y, R x y → R' x y) → Sorted R l → Sorted R' l.
Proof. intros HR. induction 1 as [|x l _ IH Hh]; constructor; [done|]. destruct Hh; constructor; auto. Qed.

Lemma seq_sorted i n : Sorted (λ a b, (a <= b)%nat) (seq i n).
Proof.
  revert i. induction n as [|n IH]; intros i; cbn; [constructor|].
  constructor; [apply IH|]. destruct n; cbn; constructor. lia.
Qed.

Lemma order_sorted flags ns count :
  Forall is_cstr ns → Sorted (before flags ns) (order flags ns count).
Proof.
  intros Hns. unfold order, before. pose proof (polarity_cases flags) as Hp.
  assert (length (seq 0 count) <= count)%nat as Hl by by rewrite length_seq.
  destruct (sort flags).
  - destruct (reverse flags); [|apply seq_sorted].
    eapply (Sorted_mono (cle cmp_index)); [unfold cle, cmp_index; lia|].
    apply (@msort_list_sorted _ _ cmp_index_order _ _ Hl).
  - apply (@msort_list_sorted _ _ (cmp_name_order _ _ Hp Hns) _ _ Hl).
  - apply (@msort_list_sorted _ _ (cmp_width_order _ _ Hp Hns) _ _ Hl).
Qed.

(** ** The comparison functions in memory *)

(** The names array as the comparison functions see it: the element size in the header
    and a string at the start of every element. *)
Record named (w : world) (np : ptr) (ns : list (list Z)) : Prop := Named {
  nm_esz : holds w (f_element_size np) (enc64 256);
  nm_str : ∀ i s, ns !! i = Some s → is_cstr s ∧ holds w (padd np (32 + Z.of_nat i * 256)) ((MByte <$> s) ++ [MByte 0]);
  nm_len : 32 + len ns * 256 < 2 ^ 63 }.

Lemma holds_cstr w p s : is_cstr s → holds w p ((MByte <$> s) ++ [MByte 0]) → cstr_at w p s.
Proof.
  intros Hs (b & pre & post & -> & Hb). exists b, (len pre), (pre ++ ((MByte <$> s) ++ [MByte 0]) ++ post).
  split_and!; [done|lia|done|done|]. rewrite Nat2Z.id, drop_app_length, <- (assoc_L (++)). by eexists.
Qed.

Section compare.
Context (w : world) (np : ptr) (ns : list (list Z)).
Hypothesis Hn : named w np ns.

Lemma named_get i : 0 <= i < len ns → dynamic_get np i w = Ret (padd np (32 + i * 256)) w.
Proof using Hn.
  intros Hi. unfold dynamic_get. pose proof (nm_len _ _ _ Hn).
  erewrite bind_ret by (apply load_u64_holds, Hn). rewrite (u64_small 256) by done.
  rewrite u64_small by (unfold is_u64; lia). unfold f_data. by rewrite padd_padd.
Qed.

Lemma named_cstr (i : nat) : (i < length ns)%nat → cstr_at w (padd np (32 + Z.of_nat i * 256)) (ns !!! i).
Proof using Hn.
  intros [s Hs]%lookup_lt_is_Some_2. rewrite (list_lookup_total_correct _ _ _ Hs).
  destruct (nm_str _ _ _ Hn _ _ Hs). by apply holds_cstr.
Qed.

Lemma index_u64 (k : nat) : (k < length ns)%nat → u64 (Z.of_nat k) = Z.of_nat k.
Proof using Hn. intros. pose proof (nm_len _ _ _ Hn). apply u64_small. unfold is_u64. lia. Qed.

Context (p_a p_b : ptr) (i j : nat).
Hypothesis Ha : holds w p_a (enc64 (Z.of_nat i)).
Hypothesis Hb : holds w p_b (enc64 (Z.of_nat j)).
Hypothesis Hi : (i < length ns)%nat.
Hypothesis Hj : (j < length ns)%nat.

Lemma compare_index_run : reverse_order p_a p_b w = Ret (cmp_index i j) w.
Proof using All.
  unfold reverse_order. erewrite bind_ret by by apply load_u64_holds.
  erewrite bind_ret by by apply load_u64_holds. rewrite !index_u64 by done.
  unfold mret, M_ret, cmp_index. f_equal.
  destruct (Z.leb_spec (Z.of_nat i) (Z.of_nat j)), (Z.ltb_spec (Z.of_nat i) (Z.of_nat j)); cbn; lia.
Qed.

Context (args : ptr) (pol : Z).
Hypothesis Hargs : holds w args (compare_args np pol).
Hypothesis Hpol : pol = 1 ∨ pol = -1.

Lemma load_args_name : load_ptr (args_name args) w = Ret np w.
Proof using Hargs.
  apply load_ptr_holds. unfold args_name. rewrite padd_0.
  by apply holds_app in Hargs as [? _].
Qed.

Lemma load_args_polarity : load_int (args_polarity args) w = Ret pol w.
Proof using Hargs Hpol.
  apply holds_mid in Hargs. rewrite length_encptr in Hargs. change (Z.of_nat 8) with 8 in Hargs.
  unfold load_int, args_polarity. erewrite bind_ret by (by eapply holds_reads).
  erewrite bind_ret by apply (bytes_val_fmap _ [_; _; _; _]).
  by destruct Hpol as [-> | ->].
Qed.

Lemma compare_names_run : compare_names p_a p_b args w = Ret (cmp_name pol ns i j) w.
Proof using All.
  unfold compare_names. erewrite bind_ret by apply load_args_name.
  erewrite bind_ret by apply load_args_polarity.
  erewrite bind_ret by by apply load_u64_holds. erewrite bind_ret by by apply load_u64_holds.
  rewrite !index_u64 by done. erewrite bind_ret by (apply named_get; lia).
  erewrite bind_ret by (apply named_get; lia).
  erewrite bind_ret by (apply strcmp_eq; by apply named_cstr).
  unfold mret, M_ret, cmp_name. f_equal. rewrite Z.mul_comm.
  pose proof (str_cmp_bound (ns !!! i) (ns !!! j) (cstr_at_is_cstr _ _ _ (named_cstr i Hi)) (cstr_at_is_cstr _ _ _ (named_cstr j Hj))).
  apply wraps_small; destruct Hpol as [-> | ->]; lia.
Qed.

Lemma compare_lenghts_run : compare_lenghts p_a p_b args w = Ret (cmp_width pol ns i j) w.
Proof using All.
  unfold compare_lenghts. erewrite bind_ret by apply load_args_name.
  erewrite bind_ret by apply load_args_polarity.
  erewrite bind_ret by by apply load_u64_holds. erewrite bind_ret by by apply load_u64_holds.
  rewrite !index_u64 by done. erewrite bind_ret by (apply named_get; lia).
  erewrite bind_ret by (apply named_get; lia).
  pose proof (named_cstr i Hi) as Ci. pose proof (named_cstr j Hj) as Cj.
  erewrite bind_ret by by apply strlen_eq. erewrite bind_ret by by apply strlen_eq.
  unfold cmp_width. destruct (Z.eqb_spec (len (ns !!! i)) (len (ns !!! j))).
  - erewrite bind_ret by by apply strcmp_eq.
    unfold mret, M_ret. f_equal. rewrite Z.mul_comm.
    pose proof (str_cmp_bound (ns !!! i) (ns !!! j) (cstr_at_is_cstr _ _ _ Ci) (cstr_at_is_cstr _ _ _ Cj)).
    apply wraps_small; destruct Hpol as [-> | ->]; lia.
  - unfold mret, M_ret. f_equal. rewrite Z.mul_comm.
    destruct (Z.leb_spec (len (ns !!! j)) (len (ns !!! i))), (Z.ltb_spec (len (ns !!! j)) (len (ns !!! i))); try lia;
      destruct Hpol as [-> | ->]; done.
Qed.
End compare.

(** ** [sort] *)

Definition enc_index (k : nat) : list mval := enc64 (Z.of_nat k).

Lemma named_keeps w w' np ns rs :
  keeps rs w w' → (∀ r, r ∈ rs → blk r.1 ## blk np) → named w np ns → named w' np ns.
Proof.
  intros K Hd [H1 H2 H3].
  assert (∀ o n, Forall (λ r, sep r (padd np o, n)) rs) as Hsep.
  { intros o n. apply Forall_forall. intros [q m] Hr. specialize (Hd _ Hr). cbn in Hd.
    destruct q as [|b1 o1], np as [|b2 o2]; cbn; try done. left. cbn in Hd. set_solver. }
  split; [apply (keeps_holds _ _ _ K _ _ (Hsep _ _) H1)| |done].
  intros i s Hi. destruct (H2 i s Hi) as [Hs Hh]. split; [done|].
  apply (keeps_holds _ _ _ K _ _ (Hsep _ _) Hh).
Qed.

Lemma named_same w w' np ns bs : w_same bs w w' → blk np ## bs → named w np ns → named w' np ns.
Proof.
  intros Hs Hd [H1 H2 H3].
  assert (∀ o vs, holds w (padd np o) vs → holds w' (padd np o) vs) as Hk.
  { intros o vs (b & pre & post & E & Hb). exists b, pre, post. split; [done|].
    rewrite (same_heap _ _ _ Hs); [done| |by eexists]. rewrite <- (blk_padd np o), E in Hd. cbn in Hd. set_solver. }
  split; [by apply Hk| |done]. intros i s Hi. destruct (H2 i s Hi). split; [done|]. by apply Hk.
Qed.

Lemma len_enc_index k : len (enc_index k) = 8.
Proof. done. Qed.

(** One call of [qsort_r] on the indices. *)
Lemma sort_indices w c `{!CmpOrder c} cmp a map count :
  wf_world w → holds w map (arr enc_index (seq 0 count)) → Z.of_nat count < 2 ^ 56 →
  Z.of_nat count * 8 <= Z.max QSORT_STACK_SIZE (w_avail w) →
  (∀ w' i j pi pj, keeps [(map, Z.of_nat count * 8)] w w' → (i < count)%nat → (j < count)%nat →
     holds w' pi (enc_index i) → holds w' pj (enc_index j) → cmp pi pj a w' = Ret (c i j) w') →
  wp (qsort_r map (Z.of_nat count) 8 cmp a) (λ _ w',
    holds w' map (arr enc_index (msort_list c count (seq 0 count))) ∧ keeps [(map, Z.of_nat count * 8)] w w' ∧
    w_same (blk map) w w' ∧ w_avail w' = w_avail w ∧ w_out w' = w_out w) w.
Proof.
  intros Hwf Hm Hc Hroom Hcmp.
  destruct (qsort_r_merge c enc_index 8 (λ k, k < count)%nat map cmp a (seq 0 count) w)
    as (w' & E & _ & _ & Hw & K & Hs & Ha & Ho); rewrite ?length_seq; try done; try lia.
  - apply Forall_forall. intros k Hk%elem_of_seq. lia.
  - rewrite length_seq in E, Hw, K. eapply wp_eq; [exact E|]. done.
Qed.

Lemma sort_map_spec w flags np ns map count :
  wf_world w → named w np ns → (count <= length ns)%nat → blk map ## blk np →
  holds w map (arr enc_index (seq 0 count)) → Z.of_nat count * 8 <= Z.max QSORT_STACK_SIZE (w_avail w) →
  wp (sort_map flags np map (Z.of_nat count)) (λ _ w',
    holds w' map (arr enc_index (order flags ns count)) ∧ keeps [(map, Z.of_nat count * 8)] w w' ∧
    w_same (blk map) w w' ∧ w_avail w' = w_avail w ∧ w_out w' = w_out w) w.
Proof.
  intros Hwf Hn Hc Hd Hm Hroom. unfold sort_map. fold (polarity flags).
  set (av := compare_args np (polarity flags)).
  eapply wp_step; [done|]. cbn beta. fold (with_new w av (w_avail w)). set (w1 := with_new w av (w_avail w)).
  set (args := Ptr (w_next w) 0). pose proof (polarity_cases flags) as Hpol.
  assert (w_same ∅ w w1) as Hs1 by by apply w_same_alloc.
  assert (named w1 np ns) as Hn1 by (eapply named_same; [done|set_solver|done]).
  assert (Forall is_cstr ns) as Hns by (apply Forall_lookup; intros; by eapply (nm_str _ _ _ Hn)).
  pose proof (nm_len _ _ _ Hn) as Hlen. pose proof (len_arr enc_index 8 len_enc_index (seq 0 count)) as Hla.
  rewrite length_seq in Hla.
  assert (∀ w', keeps [(map, Z.of_nat count * 8)] w1 w' → named w' np ns ∧ holds w' args av) as Hkeep.
  { intros w' K. split.
    - eapply named_keeps; [exact K| |done]. by intros r ->%list_elem_of_singleton.
    - apply (keeps_holds _ _ _ K); [|apply holds_new_block]. constructor; [|done]. apply sep_sym.
      rewrite <- Hla. by apply holds_old. }
  set (Q := λ (l : list nat) (_ : unit) w', holds w' map (arr enc_index l) ∧ keeps [(map, Z.of_nat count * 8)] w1 w' ∧
    w_same (blk map) w1 w' ∧ w_avail w' = w_avail w1 ∧ w_out w' = w_out w1).
  apply wp_bind. apply (wp_mono _ (Q (order flags ns count))).
  - unfold order. assert (wf_world w1) by by apply (same_wf _ _ _ Hs1).
    assert (holds w1 map (arr enc_index (seq 0 count))) by by apply holds_new.
    destruct (sort flags); [destruct (reverse flags)|..].
    + pose proof cmp_index_order. apply (sort_indices w1 cmp_index _ Null); try done; [lia|].
      intros w' i j pi pj K Hi Hj Hpi Hpj. destruct (Hkeep w' K). eapply compare_index_run; try done; lia.
    + apply wp_ret. by split_and!.
    + pose proof (cmp_name_order _ _ Hpol Hns). apply (sort_indices w1 (cmp_name (polarity flags) ns) _ args); try done; [lia|].
      intros w' i j pi pj K Hi Hj Hpi Hpj. destruct (Hkeep w' K). eapply compare_names_run; try done; lia.
    + pose proof (cmp_width_order _ _ Hpol Hns). apply (sort_indices w1 (cmp_width (polarity flags) ns) _ args); try done; [lia|].
      intros w' i j pi pj K Hi Hj Hpi Hpj. destruct (Hkeep w' K). eapply compare_lenghts_run; try done; lia.
  - intros [] w2 (Hm2 & K2 & Hs2 & Ha2 & Ho2). eapply wp_eq; [done|].
    assert (∀ q vs, holds w q vs → w_next w ∉ blk q) as Hold.
    { intros q vs Hq Hb%(holds_live _ _ _ Hq)%Hwf. lia. }
    change (set_heap (delete (w_next w) (w_heap w2)) w2) with (without w2 (w_next w) (w_avail w2)).
    split_and!.
    + apply holds_without; [by eapply Hold|done].
    + split; [|apply K2]. intros q vs Hq Hw. apply holds_without; [by eapply Hold|].
      apply (keeps_holds _ _ _ K2); [done|by apply holds_new].
    + eapply w_same_scratch; [done|]. eapply w_same_weaken; [exact Hs2|set_solver].
    + exact Ha2.
    + exact Ho2.
Qed.

(** C26. [sort_map] turns the array of the first [count] indices into a permutation of them
    that is sorted by what the flags ask for ([before]: by name, by length then name, in
    the order of [readdir], or the reverse of these), whenever there is memory for the merge
    sort's temporary array; the names and everything else are unchanged. *)
Theorem sort_map_sorts w flags np ns map count :
  wf_world w → named w np ns → (count <= length ns)%nat → blk map ## blk np →
  holds w map (arr enc_index (seq 0 count)) → Z.of_nat count * 8 <= Z.max QSORT_STACK_SIZE (w_avail w) →
  wp (sort_map flags np map (Z.of_nat count)) (λ _ w', ∃ l, holds w' map (arr enc_index l) ∧
    l ≡ₚ seq 0 count ∧ Sorted (before flags ns) l ∧
    w_same (blk map) w w' ∧ w_avail w' = w_avail w ∧ w_out w' = w_out w) w.
Proof.
  intros Hwf Hn Hc Hd Hm Hroom. eapply wp_mono; [by apply (sort_map_spec w flags np ns map count)|].
  cbn beta. intros [] w' (Hm' & _ & Hs & Ha & Ho). eexists. split_and!; [exact Hm'|apply order_perm| |done..].
  apply order_sorted, Forall_lookup. intros. by eapply (nm_str _ _ _ Hn).
Qed.

(** Three names in 256-byte elements, sorted by length, longest first. *)
Definition three_names : list (list Z) := [str "bb"; str "a"; str "ccc"].
Definition names_block : list mval :=
  enc64 3 ++ enc64 3 ++ enc64 768 ++ enc64 256 ++
  concat ((λ s, (MByte <$> s) ++ [MByte 0] ++ replicate (255 - length s) MUndef) <$> three_names).

Lemma sort_map_sorts_witness :
  let flags := set_sort WIDTH (set_reverse default_flags) in
  let w := World {[1%positive := names_block; 2%positive := arr enc_index [0; 1; 2]%nat]} 3 0 []
             (Kenv (λ _, None) None true (λ _ _, 0)) in
  wp (sort_map flags (Ptr 1 0) (Ptr 2 0) 3) (λ _ w', ∃ l, holds w' (Ptr 2 0) (arr enc_index l) ∧
    l ≡ₚ [0; 1; 2]%nat ∧ Sorted (before flags three_names) l) w.
Proof.
  intros flags w. eapply wp_mono.
  - apply (sort_map_sorts w flags (Ptr 1 0) three_names (Ptr 2 0) 3).
    + intros b. cbn. rewrite lookup_insert_is_Some, lookup_singleton_is_Some. lia.
    + split; [|intros i s Hi|done].
      * exists 1%positive, (take 24 names_block), (drop 32 names_block). split; [done|]. by vm_compute.
      * destruct i as [|[|[|i]]]; [injection Hi as <-; (split; [by repeat constructor|])..|done].
        -- exists 1%positive, (take 32 names_block), (drop 35 names_block). split; [done|]. by vm_compute.
        -- exists 1%positive, (take 288 names_block), (drop 290 names_block). split; [done|]. by vm_compute.
        -- exists 1%positive, (take 544 names_block), (drop 548 names_block). split; [done|]. by vm_compute.
    + done.
    + intros b ->%elem_of_blk. by intros [=]%elem_of_blk.
    + exists 2%positive, [], []. split; [done|]. by vm_compute.
    + done.
  - intros [] w' (l & ? & ? & ? & _). by exists l.
Defined.
