(* ===== verification/LsPrint.v ===== *)
(** * LsPrint: the table [print_dir] prints

    [listing] is the text for a list of entries: names in columns, filled downwards, each
    column as wide as its longest name plus two, with a colour for directories and
    symbolic links.  The loops of [print_dir] over the arrays in memory are shown to
    compute its parts. *)

From S2P Require Import Prelude Mem Logic Region CStr Printf Dynamic Utils SortList Qsort QsortSpec QsortHeap QsortMain LsFlags Ls LsRead LsSort.
Local Open Scope Z_scope.

(** ** The text *)

Definition maxl (l : list Z) : Z := foldl Z.max 0 l.

Definition colour (t : Z) : list Z :=
  if t =? DT_DIR then ESC :: str "[0;34m" else if t =? DT_LNK then ESC :: str "[0;96m" else RESET.

Section table.
Context (names : list (list Z)) (types : list Z) (map : list nat) (colums rows : nat).

(** The entry shown in the [i]-th cell, counting along the lines. *)
Definition cell_entry (i : nat) : nat := map !!! (rows * (i mod colums) + i / colums)%nat.

(** The longest name among the cells of column [j]. *)
Definition column_width (j : nat) : Z :=
  maxl ((λ i, len (names !!! (map !!! i))) <$> filter (λ i, (i / rows)%nat = j) (seq 0 (colums * rows))).

Definition cell (i : nat) : list Z :=
  colour (types !!! cell_entry i) ++
  pad true (column_width (i mod colums) + 2) (names !!! cell_entry i) ++
  (if decide (i mod colums = colums - 1)%nat then [10] else []).

Definition table : list Z := concat (cell <$> seq 0 (colums * rows)).
End table.

(** The columns and lines for a terminal [width] columns wide. *)
Definition columns_for (width : Z) (es : list dirent) : nat := Z.to_nat (width / (longest es + 2)).
Definition lines_for (colums count : nat) : nat := ((count + colums - 1) / colums)%nat.

Definition padded {A} (l : list A) (size : nat) (x : A) : list A := l ++ replicate (size - length l) x.

Definition listing (flags : FLAGS) (width : Z) (es : list dirent) : list Z :=
  let count := length es in
  let colums := columns_for width es in
  let rows := lines_for colums count in
  let size := (colums * rows)%nat in
  let names := padded (d_name <$> es) size [] in
  let types := padded ((λ e, u8 (d_type e)) <$> es) size 0 in
  let map := order flags names count ++ seq count (size - count) in
  table names types map colums rows ++ RESET ++ (if decide (size = colums) then [] else [10]).

(** ** Every entry is shown once *)

(** The cells counted along the lines, as positions counted down the columns. *)
Definition down (colums rows i : nat) : nat := (rows * (i mod colums) + i / colums)%nat.

Lemma down_lt colums rows i : (i < colums * rows)%nat → (down colums rows i < colums * rows)%nat.
Proof.
  intros Hi. assert (colums ≠ 0)%nat by lia. unfold down. pose proof (Nat.mod_upper_bound i colums ltac:(done)).
  assert (i / colums < rows)%nat by (apply Nat.Div0.div_lt_upper_bound; lia). nia.
Qed.

Lemma down_inj colums rows i j :
  (i < colums * rows)%nat → (j < colums * rows)%nat → down colums rows i = down colums rows j → i = j.
Proof.
  intros Hi Hj. assert (colums ≠ 0)%nat by lia. unfold down. intros E.
  assert (i / colums < rows)%nat by (apply Nat.Div0.div_lt_upper_bound; lia).
  assert (j / colums < rows)%nat by (apply Nat.Div0.div_lt_upper_bound; lia).
  pose proof (Nat.div_mod_eq i colums). pose proof (Nat.div_mod_eq j colums).
  assert (i mod colums = j mod colums)%nat by nia. nia.
Qed.

Lemma down_perm colums rows : down colums rows <$> seq 0 (colums * rows) ≡ₚ seq 0 (colums * rows).
Proof.
  apply submseteq_length_Permutation; [|by rewrite length_fmap].
  apply NoDup_submseteq.
  - apply NoDup_fmap_2_strong; [|apply NoDup_seq].
    intros i j Hi%elem_of_seq Hj%elem_of_seq. apply down_inj; lia.
  - intros k (i & -> & Hi%elem_of_seq)%list_elem_of_fmap. apply elem_of_seq.
    pose proof (down_lt colums rows i). lia.
Qed.

Lemma lookup_total_seq {A} `{!Inhabited A} (l : list A) : (λ i, l !!! i) <$> seq 0 (length l) = l.
Proof.
  apply list_eq_same_length with (length l); [done|by rewrite length_fmap, length_seq|].
  intros i x y Hi Hx Hy. rewrite list_lookup_fmap, lookup_seq_lt in Hx by done. cbn in Hx. injection Hx as <-.
  by rewrite list_lookup_total_alt, Hy.
Qed.

Lemma cells_perm map colums rows :
  length map = (colums * rows)%nat → cell_entry map colums rows <$> seq 0 (colums * rows) ≡ₚ map.
Proof.
  intros Hl.
  assert (cell_entry map colums rows <$> seq 0 (colums * rows) = (λ i, map !!! i) <$> (down colums rows <$> seq 0 (colums * rows))) as ->
    by by rewrite <- list_fmap_compose.
  by rewrite down_perm, <- Hl, lookup_total_seq.
Qed.

(** ** Printing a constant and a padded string *)

Definition say (w : world) (s : list Z) : world :=
  World (w_heap w) (w_next w) (w_avail w) (w_out w ++ s) (w_env w).

Lemma say_say w s t : say (say w s) t = say w (s ++ t).
Proof. unfold say. cbn. by rewrite <- (assoc_L (++)). Qed.

Lemma say_nil w : say w [] = w.
Proof. unfold say. rewrite app_nil_r. by destruct w. Qed.

Lemma printf_loop_plain n s fmt args w :
  37 ∉ s → printf_loop (length s + n) (s ++ fmt) args w = printf_loop n fmt args (say w s).
Proof.
  revert w. induction s as [|c s IH]; intros w Hs; cbn [length Nat.add app].
  { by rewrite say_nil. }
  apply not_elem_of_cons in Hs as [Hc Hs]. cbn [printf_loop].
  assert (∀ A (x y : A), match c with 37 => x | _ => y end = y) as E.
  { intros A x y. destruct c as [|p|p]; try done. do 6 (destruct p as [p|p|]; try done). }
  rewrite E. erewrite bind_ret by done. fold (say w [c]). rewrite IH by done. by rewrite say_say.
Qed.

Lemma printf_plain w s : 37 ∉ s → printf s [] w = Ret tt (say w s).
Proof.
  intros Hs. pose proof (printf_loop_plain 0 s [] [] w Hs) as E. by rewrite Nat.add_0_r, app_nil_r in E.
Qed.

(** A constant, one conversion, a constant. *)
Lemma printf_one w s conv t a out :
  37 ∉ s → 37 ∉ t → convert (conv ++ t) false 0 false [a] (say w s) = Ret (out, [], t) (say w s) → (0 < length conv)%nat →
  printf (s ++ 37 :: conv ++ t) [a] w = Ret tt (say w (s ++ out ++ t)).
Proof.
  intros Hs Ht Hc Hl. unfold printf.
  replace (length (s ++ 37 :: conv ++ t)) with (length s + S (length t + length conv))%nat
    by (rewrite length_app; cbn; rewrite length_app; lia).
  rewrite printf_loop_plain by done. cbn [printf_loop].
  erewrite bind_ret by exact Hc. cbn beta iota. erewrite bind_ret by done.
  fold (say (say w s) out). pose proof (printf_loop_plain (length conv) t [] [] (say (say w s) out) Ht) as E.
  rewrite app_nil_r in E. rewrite E, !say_say. by destruct (length conv).
Qed.

Lemma printf_name w p s n :
  cstr_at w p s → 0 <= n < 2 ^ 31 → printf (str "%-*s") [AInt n; AStr p] w = Ret tt (say w (pad true n s)).
Proof.
  intros Hp Hn.
  assert (convert [45; 42; 115] false 0 false [AInt n; AStr p] w = Ret (pad true n s, [], []) w) as E.
  { cbn [convert next_arg]. erewrite bind_ret by done. cbn beta iota delta [int_arg].
    erewrite bind_ret by done. cbn beta. rewrite wraps_small by lia. rewrite (proj2 (Z.ltb_ge n 0)), Z.abs_eq by lia. cbn [orb convert next_arg].
    erewrite bind_ret by done. cbn beta iota delta [str_arg]. by erewrite bind_ret by by apply read_cstr_eq. }
  unfold printf. change (str "%-*s") with [37; 45; 42; 115]. cbn [length printf_loop].
  erewrite bind_ret by exact E. cbn beta iota. by erewrite bind_ret by done.
Qed.

(** ** The arrays in memory *)

Lemma dyn_at_holds w p d :
  dyn_at w p d →
  holds w (f_element_size p) (enc64 (d_esz d)) ∧
  ∀ i e, d_elems d !! i = Some e → holds w (padd p (32 + Z.of_nat i * d_esz d)) e.
Proof.
  intros Hd. pose proof Hd as (Hok & b & slack & -> & Hb & Hl).
  pose proof (holds_block _ _ _ Hb) as H. unfold dyn_block in H. split.
  - apply holds_app in H as [_ H]. apply holds_app in H as [_ H]. apply holds_app in H as [_ H].
    apply holds_app in H as [H _]. rewrite !padd_padd in H. exact H.
  - intros i e Hi. destruct (concat_split _ Hok _ _ Hi) as (l & r & E & Hll & Hle).
    set (hdr := enc64 (len (d_elems d)) ++ enc64 (d_cap d) ++ enc64 (d_cap d * d_esz d) ++ enc64 (d_esz d) ++ l).
    assert (holds w (Ptr b 0) (hdr ++ e ++ (r ++ slack))) as H'.
    { unfold hdr. rewrite E in H. by rewrite <- !(assoc_L (++)) in H |- *. }
    apply holds_mid in H'. replace (len hdr) with (32 + Z.of_nat i * d_esz d) in H'; [done|].
    unfold hdr. rewrite !length_app, !length_enc64. lia.
Qed.

Definition empty_elem : list mval := name_elem [].

Lemma dyn_at_named w np ns cap :
  dyn_at w np (Dyn (name_elem <$> ns) cap 256) → Forall is_cstr ns → named w np ns.
Proof.
  intros Hd Hns. destruct (dyn_at_holds _ _ _ Hd) as [He Hi]. split; [done| |].
  - intros i s Hs. split; [by eapply Forall_lookup_1|].
    specialize (Hi i (name_elem s)). cbn in Hi. rewrite list_lookup_fmap, Hs in Hi.
    specialize (Hi eq_refl). unfold name_elem in Hi. rewrite (assoc_L (++)) in Hi. by apply holds_app in Hi as [? _].
  - destruct Hd as [Hok _]. pose proof (ok_len _ Hok) as Hl. pose proof (ok_bytes _ Hok) as Hb.
    cbn in Hl, Hb. rewrite length_fmap in Hl. unfold sizeof_DYNAMIC in Hb. lia.
Qed.

(** The types array: one byte per element. *)
Record typed (w : world) (tp : ptr) (ts : list Z) : Prop := Typed {
  ty_esz : holds w (f_element_size tp) (enc64 1);
  ty_byte : ∀ i t, ts !! i = Some t → holds w (padd tp (32 + Z.of_nat i)) [MByte t];
  ty_len : 32 + len ts < 2 ^ 63 }.

Lemma dyn_at_typed w tp ts cap : dyn_at w tp (Dyn ((λ t, [MByte t]) <$> ts) cap 1) → typed w tp ts.
Proof.
  intros Hd. destruct (dyn_at_holds _ _ _ Hd) as [He Hi]. split; [done| |].
  - intros i t Ht. specialize (Hi i [MByte t]). cbn in Hi. rewrite list_lookup_fmap, Ht in Hi.
    specialize (Hi eq_refl). by rewrite Z.mul_1_r in Hi.
  - destruct Hd as [Hok _]. pose proof (ok_len _ Hok) as Hl. pose proof (ok_bytes _ Hok) as Hb.
    cbn in Hl, Hb. rewrite length_fmap in Hl. unfold sizeof_DYNAMIC in Hb. lia.
Qed.

Lemma typed_get w tp ts (k : nat) :
  typed w tp ts → (k < length ts)%nat → ∃ q, dynamic_get tp (Z.of_nat k) w = Ret q w ∧ load_u8 q w = Ret (ts !!! k) w.
Proof.
  intros Ht Hk. pose proof (ty_len _ _ _ Ht). exists (padd tp (32 + Z.of_nat k)). split.
  - unfold dynamic_get. erewrite bind_ret by (apply load_u64_holds, Ht). rewrite (u64_small 1) by done.
    rewrite Z.mul_1_r, u64_small by (unfold is_u64; lia). unfold f_data. by rewrite padd_padd.
  - apply lookup_lt_is_Some_2 in Hk as [t Hk]. rewrite (list_lookup_total_correct _ _ _ Hk).
    apply load_u8_eq. eapply holds_reads; [by eapply ty_byte|done].
Qed.

(** The indices stored as 64-bit integers at a pointer. *)
Lemma load_index w p l i :
  holds w p (arr enc_index l) → (i < length l)%nat → Z.of_nat (l !!! i) < 2 ^ 64 →
  load_u64 (at64 p (Z.of_nat i)) w = Ret (Z.of_nat (l !!! i)) w.
Proof.
  intros Hp Hi Hb. apply lookup_lt_is_Some_2 in Hi as [k Hk]. rewrite (list_lookup_total_correct _ _ _ Hk) in *.
  pose proof (holds_arr_at enc_index 8 len_enc_index _ _ _ _ _ Hp Hk) as H. unfold at64.
  rewrite Z.mul_comm. erewrite load_u64_holds by exact H. by rewrite u64_small by (unfold is_u64; lia).
Qed.

Lemma load_word w p l i :
  holds w p (arr enc64 l) → (i < length l)%nat → is_u64 (l !!! i) → load_u64 (at64 p (Z.of_nat i)) w = Ret (l !!! i) w.
Proof.
  intros Hp Hi Hb. apply lookup_lt_is_Some_2 in Hi as [k Hk]. rewrite (list_lookup_total_correct _ _ _ Hk) in *.
  pose proof (holds_arr_at enc64 8 (λ _, eq_refl) _ _ _ _ _ Hp Hk) as H. unfold at64.
  rewrite Z.mul_comm. erewrite load_u64_holds by exact H. by rewrite u64_small.
Qed.

(** Storing one word of an array. *)
Lemma store_word w p l i z :
  holds w p (arr enc64 l) → (i < length l)%nat →
  ∃ w', store_u64 (at64 p (Z.of_nat i)) z w = Ret tt w' ∧ holds w' p (arr enc64 (<[i := z]> l)) ∧
    only [(p, len l * 8)] w w'.
Proof.
  intros Hp Hi. destruct (lookup_lt_is_Some_2 _ _ Hi) as [k Hk].
  rewrite <- (take_drop_middle _ _ _ Hk) in Hp. set (l1 := take i l) in *. set (l2 := drop (S i) l) in *.
  assert (length l1 = i) as E1 by (unfold l1; rewrite length_take; lia).
  apply (holds_arr_app enc64 8 (λ _, eq_refl)) in Hp as [H1 H2]. apply (holds_arr_cons enc64 8 (λ _, eq_refl)) in H2 as [H2 H3].
  rewrite E1 in *. destruct (holds_store _ _ _ (enc64 z) H2) as (w' & E & Hw & Ho); [done|].
  change (len (enc64 k)) with 8 in Ho.
  exists w'. unfold store_u64, at64. rewrite Z.mul_comm. split_and!; [done| |].
  - rewrite insert_take_drop by done. fold l1 l2.
    apply (holds_arr_app enc64 8 (λ _, eq_refl)). rewrite (holds_arr_cons enc64 8 (λ _, eq_refl)), E1. split_and!; [|done|].
    + eapply only_holds_1; [exact Ho| |done]. rewrite (len_arr enc64 8) by done. rewrite E1. destruct p; cbn; [done|]. right. lia.
    + eapply only_holds_1; [exact Ho| |done]. rewrite padd_padd. apply sep_padd. lia.
  - eapply only_rsub; [exact Ho|]. eapply rsub_cons; [by left|lia|lia|apply rsub_nil].
Qed.

Lemma arr_index l : arr enc_index l = arr enc64 (Z.of_nat <$> l).
Proof. unfold arr. by rewrite <- list_fmap_compose. Qed.

Lemma arr_zeros n : replicate (8 * n) (MByte 0) = arr enc64 (replicate n 0).
Proof.
  induction n as [|n IH]; [done|]. replace (8 * S n)%nat with (8 + 8 * n)%nat by lia.
  by rewrite replicate_add, IH.
Qed.

Lemma fill_map w mp n :
  holds w mp (arr enc64 (replicate n 0)) →
  wp (mfor (seqZ 0 (Z.of_nat n)) (λ i, store_u64 (at64 mp i) i)) (λ _ w',
    holds w' mp (arr enc_index (seq 0 n)) ∧ only [(mp, Z.of_nat n * 8)] w w') w.
Proof.
  intros Hm. eapply wp_mono.
  - apply (wp_for n _ (λ i w', holds w' mp (arr enc64 ((Z.of_nat <$> seq 0 i) ++ replicate (n - i) 0)) ∧
      only [(mp, Z.of_nat n * 8)] w w')).
    + cbn. by rewrite Nat.sub_0_r.
    + intros i v Hi [Hv Ho].
      assert (length ((Z.of_nat <$> seq 0 i) ++ replicate (n - i) 0) = n) as El.
      { rewrite length_app, length_fmap, length_seq, length_replicate. lia. }
      destruct (store_word v mp _ i (Z.of_nat i) Hv) as (w' & E & Hw & Ho'); [lia|].
      rewrite El in Ho'. eapply wp_eq; [exact E|]. split; [|by etrans].
      replace (n - i)%nat with (S (n - S i)) in Hw by lia. cbn [replicate] in Hw.
      rewrite insert_app_r_alt, length_fmap, length_seq, Nat.sub_diag in Hw by by rewrite length_fmap, length_seq.
      rewrite seq_S, fmap_app, <- (assoc_L (++)). exact Hw.
  - cbn. intros _ w' [Hw Ho]. rewrite Nat.sub_diag, app_nil_r in Hw. by rewrite arr_index.
Qed.

(** ** The column widths *)

Lemma maxl_snoc l z : maxl (l ++ [z]) = Z.max (maxl l) z.
Proof. unfold maxl. by rewrite foldl_app. Qed.

Lemma maxl_bound l b : 0 <= b → Forall (λ z, z <= b) l → 0 <= maxl l <= b.
Proof.
  intros Hb. induction l as [|z l IH] using rev_ind; [cbn; lia|].
  rewrite Forall_app, Forall_cons, maxl_snoc. intros (Hl & Hz & _). specialize (IH Hl). lia.
Qed.

(** The widths after the first [i] cells. *)
Definition widths (names : list (list Z)) (map : list nat) (colums rows i : nat) : list Z :=
  (λ j, maxl ((λ i, len (names !!! (map !!! i))) <$> filter (λ i, (i / rows)%nat = j) (seq 0 i))) <$> seq 0 colums.

Lemma widths_lookup names map colums rows i j :
  (j < colums)%nat → widths names map colums rows i !!! j =
  maxl ((λ i, len (names !!! (map !!! i))) <$> filter (λ i, (i / rows)%nat = j) (seq 0 i)).
Proof.
  intros Hj. apply list_lookup_total_correct. unfold widths.
  by rewrite list_lookup_fmap, lookup_seq_lt.
Qed.

Lemma widths_step names map colums rows i :
  (i / rows < colums)%nat →
  <[(i / rows)%nat := Z.max (widths names map colums rows i !!! (i / rows)%nat) (len (names !!! (map !!! i)))]>
    (widths names map colums rows i) = widths names map colums rows (S i).
Proof.
  intros Hj. apply list_eq. intros j. unfold widths at 3.
  destruct (decide (j < colums)%nat) as [Hlt|Hge].
  2:{ rewrite !lookup_ge_None_2; [done|..]; unfold widths; rewrite ?length_insert, length_fmap, length_seq; lia. }
  rewrite list_lookup_fmap, lookup_seq_lt by done. cbn [fmap option_fmap option_map].
  rewrite seq_S, filter_app, fmap_app, filter_cons, filter_nil. cbn [Nat.add].
  destruct (decide (j = i / rows)%nat) as [->|Hne].
  - rewrite list_lookup_insert_eq by (unfold widths; by rewrite length_fmap, length_seq).
    rewrite decide_True by done. cbn [fmap list_fmap]. by rewrite maxl_snoc, widths_lookup.
  - rewrite list_lookup_insert_ne, decide_False by done. cbn [fmap list_fmap]. rewrite app_nil_r.
    unfold widths. by rewrite list_lookup_fmap, lookup_seq_lt.
Qed.

(** The arrays [print_dir] works with, once the map is sorted. *)
Record tabled (w : world) (np tp mp : ptr) (ns : list (list Z)) (ts : list Z) (map : list nat)
    (colums rows : nat) : Prop := Tabled {
  tb_names : named w np ns;
  tb_types : typed w tp ts;
  tb_map : holds w mp (arr enc_index map);
  tb_len : length map = (colums * rows)%nat ∧ length ns = (colums * rows)%nat ∧ length ts = (colums * rows)%nat;
  tb_range : Forall (λ k, (k < colums * rows)%nat) map;
  tb_short : Forall (λ s, len s <= 255) ns;
  tb_rows : (0 < rows)%nat ∧ (0 < colums)%nat ∧ Z.of_nat (colums * rows) < 2 ^ 31 }.

Section loops.
Context (np tp mp sp : ptr) (ns : list (list Z)) (ts : list Z) (map : list nat) (colums rows : nat).
Local Notation size := (colums * rows)%nat.
Local Notation tabled w := (tabled w np tp mp ns ts map colums rows).
Local Notation widths := (widths ns map colums rows).

Lemma tabled_map w i :
  tabled w → (i < size)%nat → (map !!! i < size)%nat ∧ load_u64 (at64 mp (Z.of_nat i)) w = Ret (Z.of_nat (map !!! i)) w.
Proof using Type.
  intros T Hi. destruct (tb_len _ _ _ _ _ _ _ _ _ T) as (El & _). destruct (tb_rows _ _ _ _ _ _ _ _ _ T) as (_ & _ & Hb).
  assert (map !!! i < size)%nat as Hk.
  { destruct (lookup_lt_is_Some_2 map i) as [k Hk]; [lia|]. rewrite (list_lookup_total_correct _ _ _ Hk).
    exact (Forall_lookup_1 _ _ _ _ (tb_range _ _ _ _ _ _ _ _ _ T) Hk). }
  split; [done|]. apply load_index; [apply T|lia|lia].
Qed.

Lemma tabled_name w k :
  tabled w → (k < size)%nat →
  dynamic_get np (Z.of_nat k) w = Ret (padd np (32 + Z.of_nat k * 256)) w ∧
  cstr_at w (padd np (32 + Z.of_nat k * 256)) (ns !!! k) ∧ len (ns !!! k) <= 255.
Proof using Type.
  intros T Hk. destruct (tb_len _ _ _ _ _ _ _ _ _ T) as (_ & El & _). split_and!.
  - apply (named_get _ _ _ (tb_names _ _ _ _ _ _ _ _ _ T)). lia.
  - apply (named_cstr _ _ _ (tb_names _ _ _ _ _ _ _ _ _ T)). lia.
  - destruct (lookup_lt_is_Some_2 ns k) as [s Hs]; [lia|]. rewrite (list_lookup_total_correct _ _ _ Hs).
    exact (Forall_lookup_1 _ _ _ _ (tb_short _ _ _ _ _ _ _ _ _ T) Hs).
Qed.

Lemma widths_bound i j : Forall (λ s, len s <= 255) ns → 0 <= widths i !!! j <= 255.
Proof using Type.
  intros Hs. destruct (decide (j < colums)%nat).
  - rewrite widths_lookup by done. apply maxl_bound; [lia|]. apply Forall_fmap, Forall_forall. intros k _. cbn.
    rewrite list_lookup_total_alt. destruct (ns !! _) eqn:E; cbn; [|lia].
    by apply (Forall_lookup_1 _ _ _ _ Hs) in E.
  - rewrite list_lookup_total_alt, lookup_ge_None_2; [cbn; lia|]. unfold LsPrint.widths. rewrite length_fmap, length_seq. lia.
Qed.

Lemma length_widths i : length (widths i) = colums.
Proof using Type. unfold LsPrint.widths. by rewrite length_fmap, length_seq. Qed.

Lemma column_widths_ok w :
  tabled w → holds w sp (arr enc64 (replicate colums 0)) →
  (∀ w', only [(sp, Z.of_nat colums * 8)] w w' → tabled w') →
  wp (column_widths np mp sp (Z.of_nat size) (Z.of_nat rows)) (λ _ w',
    holds w' sp (arr enc64 (widths size)) ∧ only [(sp, Z.of_nat colums * 8)] w w') w.
Proof using Type.
  intros T0 Hsp Hkeep. unfold column_widths.
  apply (wp_for size _ (λ i w', holds w' sp (arr enc64 (widths i)) ∧ only [(sp, Z.of_nat colums * 8)] w w')).
  - split; [|done]. change (widths 0) with (const 0 <$> seq 0 colums). by rewrite (const_fmap _ _ 0), length_seq.
  - intros i v Hi [Hv Ho]. pose proof (Hkeep _ Ho) as T. destruct (tb_rows _ _ _ _ _ _ _ _ _ T) as (Hr & Hc & _).
    destruct (tabled_map v i T Hi) as [Hk Em]. destruct (tabled_name v _ T Hk) as (Eg & Cs & Hs).
    assert (i / rows < colums)%nat as Hj by (apply Nat.Div0.div_lt_upper_bound; lia).
    pose proof (widths_bound i (i / rows) (tb_short _ _ _ _ _ _ _ _ _ T)) as Hb.
    rewrite <- Nat2Z.inj_div.
    eapply wp_step; [apply (load_word v sp (widths i)); [done|by rewrite length_widths|unfold is_u64; lia]|].
    eapply wp_step; [exact Em|]. eapply wp_step; [exact Eg|]. eapply wp_step; [by apply strlen_eq|]. cbn beta.
    destruct (store_word v sp (widths i) (i / rows) (max_ (widths i !!! (i / rows)%nat) (len (ns !!! (map !!! i)))) Hv)
      as (w' & E & Hw & Ho'); [by rewrite length_widths|]. rewrite length_widths in Ho'.
    eapply wp_eq; [exact E|]. split; [|by etrans].
    rewrite <- widths_step by done. unfold max_ in Hw.
    replace (Z.max (widths i !!! (i / rows)%nat) (len (ns !!! (map !!! i)))) with
      (if len (ns !!! (map !!! i)) <? widths i !!! (i / rows)%nat then widths i !!! (i / rows)%nat else len (ns !!! (map !!! i))); [done|].
    destruct (Z.ltb_spec (len (ns !!! (map !!! i))) (widths i !!! (i / rows)%nat)); lia.
Qed.

Lemma cell_index_lt i : (0 < colums)%nat → (i < size)%nat → (rows * (i mod colums) + i / colums < size)%nat.
Proof using Type.
  intros Hc Hi. pose proof (Nat.mod_upper_bound i colums ltac:(lia)).
  assert (i / colums < rows)%nat by (apply Nat.Div0.div_lt_upper_bound; lia). nia.
Qed.

Lemma colour_ok w t :
  (if t =? DT_DIR then printf (ESC :: str "[0;34m") []
   else if t =? DT_LNK then printf (ESC :: str "[0;96m") [] else printf RESET []) w = Ret tt (say w (colour t)).
Proof using Type.
  unfold colour. destruct (t =? DT_DIR); [|destruct (t =? DT_LNK)];
    (apply printf_plain; by apply (bool_decide_unpack (37 ∉ _))).
Qed.

Lemma tabled_say w s : tabled w → tabled (say w s).
Proof using Type. intros [[? ? ?] [? ? ?] ? ? ? ? ?]. split; try done; by split. Qed.

Lemma print_entry_ok w i :
  tabled w → holds w sp (arr enc64 (widths size)) → (i < size)%nat →
  print_entry np tp mp sp (Z.of_nat colums) (Z.of_nat rows) (Z.of_nat i) w =
  Ret tt (say w (cell ns ts map colums rows i)).
Proof using Type.
  intros T Hsp Hi. destruct (tb_rows _ _ _ _ _ _ _ _ _ T) as (Hr & Hc & Hb).
  pose proof (cell_index_lt i Hc Hi) as Hx. pose proof (Nat.mod_upper_bound i colums ltac:(lia)) as Hm.
  unfold print_entry. rewrite <- Nat2Z.inj_mod, <- Nat2Z.inj_div, <- Nat2Z.inj_mul, <- Nat2Z.inj_add.
  rewrite !u64_small by (unfold is_u64; lia). cbv zeta.
  destruct (tabled_map w _ T Hx) as [Hk Em]. fold (cell_entry map colums rows i) in Hk, Em.
  erewrite bind_ret by exact Em.
  destruct (typed_get w tp ts _ (tb_types _ _ _ _ _ _ _ _ _ T) ltac:(destruct (tb_len _ _ _ _ _ _ _ _ _ T) as (_ & _ & ->); exact Hk))
    as (q & Eq & Et).
  erewrite bind_ret by exact Eq. erewrite bind_ret by exact Et. erewrite bind_ret by apply colour_ok.
  set (w1 := say w _). pose proof (tabled_say w (colour (ts !!! cell_entry map colums rows i)) T) as T1. fold w1 in T1.
  pose proof (widths_bound size (i mod colums) (tb_short _ _ _ _ _ _ _ _ _ T)) as Hwb.
  erewrite bind_ret by (apply (load_word w1 sp (widths size)); [done|by rewrite length_widths|unfold is_u64; lia]).
  destruct (tabled_name w1 _ T1 Hk) as (Eg & Cs & Hs). erewrite bind_ret by exact Eg.
  rewrite (wraps_small 32 (widths size !!! (i mod colums)%nat)), wraps_small by lia.
  erewrite bind_ret by (by apply printf_name; [|lia]).
  unfold w1. rewrite say_say. unfold cell. rewrite (assoc_L (++) (colour _)), <- (say_say w (_ ++ _)).
  replace (column_width ns map colums rows (i mod colums)) with (widths size !!! (i mod colums)%nat)
    by by apply widths_lookup.
  set (w2 := say w _).
  destruct (Z.eqb_spec (Z.of_nat (i mod colums)) (Z.of_nat colums - 1)), (decide (i mod colums = colums - 1)%nat); try lia.
  - apply printf_plain. by apply (bool_decide_unpack (37 ∉ _)).
  - by rewrite say_nil.
Qed.

Lemma print_table_ok w :
  tabled w → holds w sp (arr enc64 (widths size)) →
  wp (mfor (seqZ 0 (Z.of_nat size)) (print_entry np tp mp sp (Z.of_nat colums) (Z.of_nat rows)))
    (λ _ w', w' = say w (table ns ts map colums rows)) w.
Proof using Type.
  intros T Hsp. eapply wp_mono; [apply (wp_for size _ (λ i w', w' = say w (concat (cell ns ts map colums rows <$> seq 0 i))))|].
  - cbn. by rewrite say_nil.
  - intros i v Hi ->. eapply wp_eq; [apply print_entry_ok; [by apply tabled_say|done|done]|].
    rewrite say_say, seq_S, fmap_app, concat_app. cbn. by rewrite app_nil_r.
  - done.
Qed.
End loops.
