(* ===== verification/LsSpec.v ===== *)
(** * LsSpec: what [ls] promises about one directory

    [print_dir] prints [LsPrint.listing] of the visible entries, releases its arrays, and
    changes nothing that existed before; the padding it adds reads 255 bytes after a
    one-byte literal, so the theorem asks that over-reads be tolerated whenever there is
    padding, and another one shows that the strict policy stops there. *)

From S2P Require Import Prelude Mem Logic Region CStr Printf Dynamic Utils SortList Qsort QsortSpec QsortHeap QsortMain LsFlags Ls LsRead LsSort LsPrint.
Local Open Scope Z_scope.

(** ** Padding *)

Lemma replicate_snoc {A} (x : A) n : replicate n x ++ [x] = replicate (S n) x.
Proof. by rewrite <- replicate_cons_app. Qed.

(** Copying 256 bytes from the literal [""]. *)
Lemma reads_empty_literal w b :
  w_heap w !! b = Some [MByte 0] → k_strict (w_env w) = false → reads w (Ptr b 0) 256 empty_elem.
Proof.
  intros Hb Hs. unfold reads, load_bytes. rewrite Hb, Hs. cbn [length]. change (0 <=? 0) with true.
  change (0 + 256 <=? Z.of_nat 1) with false. cbn [andb]. f_equal; by vm_compute.
Qed.

Section pad.
Context (w0 : world) (N : Z).
Hypothesis w0_wf : wf_world w0.
Hypothesis N_room : rd_room N < 2 ^ 63.
Hypothesis N_pos : 0 <= N.
Set Default Proof Using "All".

Lemma pad_round u w np tp nelems telems c0 c1 a2 a3 eb nb :
  let l := [Garr np nelems 256 c0; Garr tp telems 1 c1; a2; a3] in
  group w0 N u w l → zsum (λ a, room N (g_esz a)) l <= w_avail w0 - u → len nelems + 1 <= N → len telems + 1 <= N →
  k_strict (w_env w) = false → scratch w0 w l eb [MByte 0] → scratch w0 w l nb [MByte DT_UNKNOWN] →
  wp (names ← dynamic_insert np (Ptr eb 0); types ← dynamic_insert tp (Ptr nb 0); mret (names, types))
    (λ '(np', tp') w', ∃ c0' c1',
      let l' := [Garr np' (nelems ++ [empty_elem]) 256 c0'; Garr tp' (telems ++ [[MByte 0]]) 1 c1'; a2; a3] in
      group w0 N u w' l' ∧ w_out w' = w_out w ∧
      scratch w0 w' l' eb [MByte 0] ∧ scratch w0 w' l' nb [MByte DT_UNKNOWN] ∧
      ∀ b B, tracked w np c0 B b → tracked w' np' c0' B b) w.
Proof.
  intros l G Hz Hl0 Hl1 Hst Se Sn. destruct (rd_bounds N N_pos N_room) as (Hr256 & Hr1 & _).
  assert (∀ v l a b bs, scratch w0 v l b bs → a ∈ l → blk (Ptr b 0) ## blk (g_ptr a)) as Hsep.
  { intros v k a b bs S Ha c ->%elem_of_blk. by apply S. }
  apply wp_bind. eapply wp_mono.
  { eapply (group_insert_scratch w0 N w0_wf u w l 0 (Garr np nelems 256 c0) (Ptr eb 0) empty_elem G); try done.
    - apply reads_empty_literal; [apply Se|done].
    - eapply Hsep; [exact Se|by left]. }
  cbn beta. intros np' w1 (c0' & G1 & Ho1 & K1 & V1 & R1). cbn in G1, K1, R1.
  pose proof (K1 _ _ Se) as Se1. pose proof (K1 _ _ Sn) as Sn1. clear K1.
  apply wp_bind. eapply wp_mono.
  { eapply (group_insert_scratch w0 N w0_wf u w1 _ 1 (Garr tp telems 1 c1) (Ptr nb 0) [MByte 0] G1); try done.
    - eapply holds_reads; [apply holds_block, Sn1|done].
    - eapply Hsep; [exact Sn1|by right; left]. }
  cbn beta. intros tp' w2 (c1' & G2 & Ho2 & K2 & V2 & _). cbn in G2, K2. apply wp_ret.
  exists c0', c1'. split_and!; [done|congruence|by apply K2..|].
  intros b B Ht. eapply tracked_graves; [|exact V2]. eapply tracked_move; [|exact R1]. by eapply tracked_graves.
Qed.

Lemma pad_spec u w np tp nelems telems c0 c1 a2 a3 (count size : nat) :
  let l := [Garr np nelems 256 c0; Garr tp telems 1 c1; a2; a3] in
  group w0 N u w l → zsum (λ a, room N (g_esz a)) l <= w_avail w0 - u →
  length nelems = count → length telems = count → (count <= size)%nat → Z.of_nat size <= N →
  k_strict (w_env w) = false ∨ size = count →
  wp (pad_entries np tp (Z.of_nat count) (Z.of_nat size)) (λ '(np', tp') w', ∃ c0' c1',
    group w0 N u w' [Garr np' (nelems ++ replicate (size - count) empty_elem) 256 c0';
                     Garr tp' (telems ++ replicate (size - count) [MByte 0]) 1 c1'; a2; a3] ∧
    w_out w' = w_out w ∧ ∀ b B, tracked w np c0 B b → tracked w' np' c0' B b) w.
Proof.
  intros l G Hz Hn Ht Hc HN Hst. unfold pad_entries.
  destruct (scratch_new w0 N w0_wf u w l [MByte DT_UNKNOWN] G) as (E1 & G1 & S1 & Hs1).
  eapply wp_step; [exact E1|]. cbn beta. set (w1 := with_new w [MByte DT_UNKNOWN] (w_avail w)) in *. set (nb := w_next w) in *.
  destruct (scratch_new w0 N w0_wf u w1 l [MByte 0] G1) as (E2 & G2 & S2 & Hs2).
  eapply wp_step; [exact E2|]. cbn beta. set (w2 := with_new w1 [MByte 0] (w_avail w1)) in *. set (eb := w_next w1) in *.
  assert (scratch w0 w2 l nb [MByte DT_UNKNOWN]) as S1' by (eapply scratch_same; [exact S1|exact Hs2|set_solver]).
  assert (w_env w2 = w_env w) as Henv by done.
  set (I := λ (k : nat) '(np', tp') w', ∃ c0' c1',
    let l' := [Garr np' (nelems ++ replicate k empty_elem) 256 c0'; Garr tp' (telems ++ replicate k [MByte 0]) 1 c1'; a2; a3] in
    group w0 N u w' l' ∧ w_out w' = w_out w ∧ scratch w0 w' l' eb [MByte 0] ∧ scratch w0 w' l' nb [MByte DT_UNKNOWN] ∧
    ∀ b B, tracked w2 np c0 B b → tracked w' np' c0' B b).
  apply wp_bind. eapply wp_mono.
  { apply (wp_mfold (seqZ (Z.of_nat count) (Z.of_nat size - Z.of_nat count)) _ (np, tp) (λ done_, I (length done_))).
    - exists c0, c1. cbn. rewrite !app_nil_r. done.
    - intros done_ x todo [np' tp'] v El (c0' & c1' & Gv & Ho & Sev & Snv & Tv).
      assert (length done_ < size - count)%nat as Hlt.
      { apply (f_equal length) in El. rewrite length_seqZ, length_app in El. cbn in El. lia. }
      assert (k_strict (w_env v) = false) as Hsv.
      { destruct Hst as [Hst|]; [|lia]. rewrite (same_env _ _ _ (grp_same _ _ _ _ _ Gv)).
        by rewrite <- (same_env _ _ _ (grp_same _ _ _ _ _ G)). }
      eapply wp_mono; [eapply pad_round; try done|].
      + rewrite length_app, length_replicate. lia.
      + rewrite length_app, length_replicate. lia.
      + intros [np2 tp2] v2 (c0'' & c1'' & G' & Ho' & Se' & Sn' & T'). exists c0'', c1''.
        rewrite <- !(assoc_L (++)), !replicate_snoc in *. rewrite length_app. cbn [length].
        replace (length done_ + 1)%nat with (S (length done_)) by lia. split_and!; try done; [congruence|auto]. }
  intros [np' tp'] w3 (c0' & c1' & G3 & Ho3 & Se3 & Sn3 & T3).
  rewrite length_seqZ in *. replace (Z.to_nat (Z.of_nat size - Z.of_nat count)) with (size - count)%nat in * by lia.
  destruct (scratch_drop w0 N w0_wf _ _ _ _ _ G3 Se3) as (E4 & G4 & Hs4).
  eapply wp_step; [exact E4|]. cbn beta.
  assert (nb ≠ eb) as Hne by (unfold nb, eb, w1; cbn; lia).
  assert (scratch w0 (set_heap (delete eb (w_heap w3)) w3) _ nb [MByte DT_UNKNOWN]) as Sn4
    by (eapply scratch_same; [exact Sn3|exact Hs4|set_solver]).
  destruct (scratch_drop w0 N w0_wf _ _ _ _ _ G4 Sn4) as (E5 & G5 & Hs5).
  eapply wp_step; [exact E5|]. apply wp_ret. exists c0', c1'. split_and!; [done..|].
  intros b B Hb. eapply tracked_graves; [|exact (graves_trans _ _ _ (w_same_graves _ _ _ Hs4) (w_same_graves _ _ _ Hs5))].
  apply T3. eapply tracked_graves; [exact Hb|exact (graves_trans _ _ _ (w_same_graves _ _ _ Hs1) (w_same_graves _ _ _ Hs2))].
Qed.
End pad.

(** ** The map of indices and the column widths *)

(** [vs] is at the start of block [b], which is new and not one of the arrays'. *)
Record beside (w0 w : world) (l : list garr) (b : positive) (vs : list mval) : Prop := Beside {
  bs_holds : holds w (Ptr b 0) vs;
  bs_apart : ∀ a, a ∈ l → b ∉ blk (g_ptr a);
  bs_fresh : (w_next w0 ≤ b)%positive }.

Section steps.
Context (w0 : world) (N : Z).
Hypothesis w0_wf : wf_world w0.

(** [calloc] next to the arrays. *)
Lemma calloc_beside u w l (n : nat) :
  group w0 N u w l → Z.of_nat n * 8 <= w_avail w →
  ∃ w', calloc (Z.of_nat n) 8 w = Ret (Ptr (w_next w) 0) w' ∧
    group w0 N (u + 8 * Z.of_nat n) w' l ∧ beside w0 w' l (w_next w) (arr enc64 (replicate n 0)) ∧
    w_heap w' !! w_next w = Some (arr enc64 (replicate n 0)) ∧
    w_same ∅ w w' ∧ w_out w' = w_out w ∧ w_avail w' = w_avail w - 8 * Z.of_nat n.
Proof using w0_wf.
  intros G Hn. pose proof (group_wf _ _ w0_wf _ _ _ G) as Hwf. eexists. split; [apply calloc_ok; lia|].
  replace (Z.to_nat (Z.of_nat n * 8)) with (8 * n)%nat by lia. rewrite arr_zeros.
  fold (with_new w (arr enc64 (replicate n 0)) (w_avail w - Z.of_nat n * 8)).
  assert (w_same ∅ w (with_new w (arr enc64 (replicate n 0)) (w_avail w - Z.of_nat n * 8))) as Hs by by apply w_same_alloc.
  split_and!; [| |apply lookup_insert_eq|done|done|cbn; lia].
  - eapply group_step; [done|exact G|exact Hs|set_solver|set_solver|cbn; lia].
  - split; [apply holds_new_block| |apply (same_next _ _ _ (grp_same _ _ _ _ _ G))].
    intros a Ha Hb. pose proof (grp_at _ _ _ _ _ G) as Hall. rewrite Forall_forall in Hall.
    eapply growing_live, Hwf in Hb; [lia|by apply Hall].
Qed.

(** A step inside a block beside the arrays. *)
Lemma beside_step u w w' l b vs vs' :
  group w0 N u w l → beside w0 w l b vs → holds w' (Ptr b 0) vs' → w_same {[b]} w w' → w_avail w' = w_avail w →
  group w0 N u w' l ∧ beside w0 w' l b vs'.
Proof using w0_wf.
  intros G [H1 H2 H3] Hh Hs Ha. split; [|by split]. rewrite <- (Z.add_0_r u).
  eapply group_step; [done|exact G|exact Hs| | |lia].
  - intros a Hal. specialize (H2 a Hal). set_solver.
  - by intros c ->%elem_of_singleton.
Qed.

Lemma beside_same w w' l b vs bs :
  beside w0 w l b vs → w_same bs w w' → b ∉ bs → beside w0 w' l b vs.
Proof using Type.
  intros [(b' & pre & post & E & Hb) H2 H3] Hs Hn. injection E as <- E. split; [|done..].
  exists b, pre, post. split; [by f_equal|]. rewrite (same_heap _ _ _ Hs); [done|done|by eexists].
Qed.

Lemma group_named u w l np ns c0 :
  group w0 N u w l → l !! 0%nat = Some (Garr np (name_elem <$> ns) 256 c0) → Forall is_cstr ns → named w np ns.
Proof using Type.
  intros G Hl Hns. pose proof (Forall_lookup_1 _ _ _ _ (grp_at _ _ _ _ _ G) Hl) as [Hat _ _]. by eapply dyn_at_named.
Qed.

Lemma group_typed u w l tp ts c1 :
  group w0 N u w l → l !! 1%nat = Some (Garr tp ((λ t, [MByte t]) <$> ts) 1 c1) → typed w tp ts.
Proof using Type.
  intros G Hl. pose proof (Forall_lookup_1 _ _ _ _ (grp_at _ _ _ _ _ G) Hl) as [Hat _ _]. by eapply dyn_at_typed.
Qed.

(** Filling the map and sorting its first [count] entries. *)
Lemma sorted_map_ok u w l mb np ns c0 flags (count size : nat) :
  group w0 N u w l → beside w0 w l mb (arr enc64 (replicate size 0)) →
  l !! 0%nat = Some (Garr np (name_elem <$> ns) 256 c0) → Forall is_cstr ns → length ns = size → (count <= size)%nat →
  Z.of_nat count * 8 <= Z.max QSORT_STACK_SIZE (w_avail w) →
  wp (mfor (seqZ 0 (Z.of_nat size)) (λ i, store_u64 (at64 (Ptr mb 0) i) i);;
      sort_map flags np (Ptr mb 0) (Z.of_nat count)) (λ _ w',
    group w0 N u w' l ∧ beside w0 w' l mb (arr enc_index (order flags ns count ++ seq count (size - count))) ∧
    w_out w' = w_out w ∧ w_avail w' = w_avail w ∧ graves w w') w.
Proof using w0_wf.
  intros G B Hl Hns Hlen Hc Hroom. apply wp_bind. eapply wp_mono; [apply fill_map, B|].
  cbn beta. intros [] w1 [Hm Ho].
  assert (w_same {[mb]} w w1) as Hs1.
  { eapply w_same_weaken; [apply (only_same _ _ _ Ho)|]. cbn. set_solver. }
  destruct (beside_step _ _ _ _ _ _ _ G B Hm Hs1 (only_avail _ _ _ Ho)) as [G1 B1].
  pose proof (group_wf _ _ w0_wf _ _ _ G1) as Hwf1.
  replace size with (count + (size - count))%nat in Hm by lia. rewrite seq_app in Hm.
  apply (holds_arr_app enc_index 8 len_enc_index) in Hm as [Hm1 Hm2]. rewrite length_seq in Hm2. cbn [Nat.add] in Hm2.
  eapply wp_mono.
  { eapply (sort_map_spec w1 flags np ns (Ptr mb 0) count Hwf1); try done.
    - by eapply group_named.
    - lia.
    - intros b ->%elem_of_blk. apply (bs_apart _ _ _ _ _ B1 (Garr np (name_elem <$> ns) 256 c0)). by eapply list_elem_of_lookup_2.
    - rewrite (only_avail _ _ _ Ho). done. }
  cbn beta. intros [] w2 (Hm3 & K & Hs & Ha & Ho2).
  assert (holds w2 (Ptr mb 0) (arr enc_index (order flags ns count ++ seq count (size - count)))) as Hm4.
  { apply (holds_arr_app enc_index 8 len_enc_index). split; [done|]. rewrite length_order.
    apply (keeps_holds _ _ _ K); [|done]. constructor; [|done]. cbn. right. left. lia. }
  destruct (beside_step _ _ _ _ _ _ _ G1 B1 Hm4 Hs Ha) as [G2 B2].
  split_and!; [done..| | |].
  - rewrite Ho2. apply (only_out _ _ _ Ho).
  - rewrite Ha. apply (only_avail _ _ _ Ho).
  - etrans; by eapply w_same_graves.
Qed.

Lemma group_tabled u w l mb np tp c0 c1 ns ts map colums rows :
  group w0 N u w l → l !! 0%nat = Some (Garr np (name_elem <$> ns) 256 c0) →
  l !! 1%nat = Some (Garr tp ((λ t, [MByte t]) <$> ts) 1 c1) → Forall is_cstr ns → Forall (λ s, len s <= 255) ns →
  beside w0 w l mb (arr enc_index map) →
  length map = (colums * rows)%nat → length ns = (colums * rows)%nat → length ts = (colums * rows)%nat →
  Forall (λ k, (k < colums * rows)%nat) map → (0 < rows)%nat → (0 < colums)%nat → Z.of_nat (colums * rows) < 2 ^ 31 →
  tabled w np tp (Ptr mb 0) ns ts map colums rows.
Proof using Type.
  intros G H0 H1 Hns Hsh B E1 E2 E3 Hr Hr0 Hc0 Hb. split; try done.
  - by eapply group_named.
  - by eapply group_typed.
  - apply B.
Qed.

(** The two loops over the cells. *)
Lemma show_table u w l mb sb np tp c0 c1 ns ts map colums rows :
  group w0 N u w l → l !! 0%nat = Some (Garr np (name_elem <$> ns) 256 c0) →
  l !! 1%nat = Some (Garr tp ((λ t, [MByte t]) <$> ts) 1 c1) → Forall is_cstr ns → Forall (λ s, len s <= 255) ns →
  beside w0 w l mb (arr enc_index map) → beside w0 w l sb (arr enc64 (replicate colums 0)) → mb ≠ sb →
  length map = (colums * rows)%nat → length ns = (colums * rows)%nat → length ts = (colums * rows)%nat →
  Forall (λ k, (k < colums * rows)%nat) map → (0 < rows)%nat → (0 < colums)%nat → Z.of_nat (colums * rows) < 2 ^ 31 →
  let size := Z.of_nat (colums * rows) in
  wp (column_widths np (Ptr mb 0) (Ptr sb 0) size (Z.of_nat rows);;
      mfor (seqZ 0 size) (print_entry np tp (Ptr mb 0) (Ptr sb 0) (Z.of_nat colums) (Z.of_nat rows)))
    (λ _ w', w_out w' = w_out w ++ table ns ts map colums rows ∧ w_avail w' = w_avail w ∧ w_same {[sb]} w w' ∧
       length <$> w_heap w' !! sb = length <$> w_heap w !! sb) w.
Proof using w0_wf.
  intros G H0 H1 Hns Hsh Bm Bs Hne E1 E2 E3 Hr Hr0 Hc0 Hb size. unfold size.
  assert (∀ w', only [(Ptr sb 0, Z.of_nat colums * 8)] w w' → w_same {[sb]} w w') as Hsame.
  { intros w' Ho. eapply w_same_weaken; [apply (only_same _ _ _ Ho)|]. cbn. set_solver. }
  assert (∀ w', only [(Ptr sb 0, Z.of_nat colums * 8)] w w' → tabled w' np tp (Ptr mb 0) ns ts map colums rows) as Hkeep.
  { intros w' Ho. eapply group_tabled; try done.
    - eapply (group_step w0 N w0_wf u 0); [exact G|by apply Hsame| | |rewrite (only_avail _ _ _ Ho); lia].
      + intros a Ha. pose proof (bs_apart _ _ _ _ _ Bs a Ha). set_solver.
      + intros c ->%elem_of_singleton. apply Bs.
    - eapply beside_same; [exact Bm|by apply Hsame|set_solver]. }
  apply wp_bind. eapply wp_mono; [apply (column_widths_ok np tp (Ptr mb 0) (Ptr sb 0) ns ts map colums rows); [by apply Hkeep|apply Bs|exact Hkeep]|].
  cbn beta. intros [] w1 [Hs Ho].
  eapply wp_mono; [apply (print_table_ok np tp (Ptr mb 0) (Ptr sb 0) ns ts map colums rows); [by apply Hkeep|exact Hs]|].
  cbn beta. intros [] w2 ->. split_and!; cbn.
  - by rewrite (only_out _ _ _ Ho).
  - apply (only_avail _ _ _ Ho).
  - eapply w_same_weaken; [eapply w_same_trans; [by apply Hsame|apply w_same_put]|set_solver].
  - apply (only_len _ _ _ Ho).
Qed.
End steps.

(** ** The shape of the table *)

Lemma longest_bound es : Forall entry_ok es → 0 <= longest es <= 255.
Proof.
  induction es as [|e es IH] using rev_ind; [done|]. rewrite Forall_app, Forall_cons, longest_snoc.
  intros (Hes & [_ He] & _). specialize (IH Hes). unfold max_. destruct (Z.ltb_spec (len (d_name e)) (longest es)); lia.
Qed.

Lemma lines_cover colums count : (0 < colums)%nat → (count <= colums * lines_for colums count)%nat.
Proof.
  intros Hc. unfold lines_for. pose proof (Nat.div_mod_eq (count + colums - 1) colums).
  pose proof (Nat.mod_upper_bound (count + colums - 1) colums ltac:(lia)). lia.
Qed.

Lemma lines_pos colums count : (0 < colums)%nat → (0 < count)%nat → (0 < lines_for colums count)%nat.
Proof. intros. pose proof (lines_cover colums count ltac:(lia)). destruct (lines_for colums count); lia. Qed.

Lemma fmap_padded_names es size :
  ((λ e, name_elem (d_name e)) <$> es) ++ replicate (size - length es) empty_elem =
  name_elem <$> padded (d_name <$> es) size [].
Proof. unfold padded. by rewrite fmap_app, fmap_replicate, length_fmap, <- list_fmap_compose. Qed.

Lemma fmap_padded_types es size :
  (type_elem <$> es) ++ replicate (size - length es) [MByte 0] =
  (λ t, [MByte t]) <$> padded ((λ e, u8 (d_type e)) <$> es) size 0.
Proof. unfold padded. by rewrite fmap_app, fmap_replicate, length_fmap, <- list_fmap_compose. Qed.

Lemma padded_names_ok es size :
  Forall entry_ok es → (length es <= size)%nat →
  let ns := padded (d_name <$> es) size [] in
  Forall is_cstr ns ∧ Forall (λ s, len s <= 255) ns ∧ length ns = size.
Proof.
  intros Hes Hl ns. unfold ns, padded. rewrite !Forall_app, !Forall_fmap, length_app, length_fmap, length_replicate.
  split_and!; try lia.
  - eapply Forall_impl; [exact Hes|]. by intros e [He _].
  - apply Forall_replicate. by constructor.
  - eapply Forall_impl; [exact Hes|]. by intros e [_ He].
  - apply Forall_replicate. cbn. lia.
Qed.

Lemma listed_ok flags es : Forall entry_ok es → Forall entry_ok (listed flags es).
Proof. intros Hes. apply Forall_forall. intros e [_ He]%list_elem_of_filter. rewrite Forall_forall in Hes. by apply Hes. Qed.

Lemma full_map_ok flags ns count size :
  (count <= size)%nat →
  let map := order flags ns count ++ seq count (size - count) in
  length map = size ∧ Forall (λ k, (k < size)%nat) map ∧ map ≡ₚ seq 0 size.
Proof.
  intros Hc map.
  assert (map ≡ₚ seq 0 size) as Hp.
  { unfold map. rewrite order_perm. replace size with (count + (size - count))%nat at 2 by lia. by rewrite seq_app. }
  split_and!; [by rewrite Hp, length_seq| |done].
  rewrite Hp. apply Forall_forall. intros k Hk%elem_of_seq. lia.
Qed.

(** ** Releasing what [print_dir] holds *)

Section release.
Context (w0 : world) (N : Z).
Hypothesis w0_wf : wf_world w0.

Lemma free_beside u w l b (n : nat) :
  group w0 N (u + 8 * Z.of_nat n) w l → (∀ a, a ∈ l → b ∉ blk (g_ptr a)) → (w_next w0 ≤ b)%positive →
  length <$> w_heap w !! b = Some (8 * n)%nat →
  wp (free (Ptr b 0)) (λ _ w', group w0 N u w' l ∧ w_out w' = w_out w ∧ graves w w') w.
Proof using w0_wf.
  intros G Hd Hf Hl. destruct (w_heap w !! b) as [bs|] eqn:Hb; [|done]. cbn in Hl. injection Hl as Hl.
  unfold free. eapply wp_eq; [by rewrite Hb|]. fold (without w b (w_avail w + len bs)).
  split; [|split; [done|eapply w_same_graves, w_same_without]].
  replace u with (u + 8 * Z.of_nat n + (- len bs)) by lia.
  eapply (group_step w0 N w0_wf); [exact G|apply (w_same_without w b (w_avail w + len bs))| | |cbn; lia].
  - intros a Ha. specialize (Hd a Ha). set_solver.
  - by intros c ->%elem_of_singleton.
Qed.

Lemma free_group u w n t i d :
  group w0 N u w [n; t; i; d] →
  wp (dynamic_free (g_ptr t);; dynamic_free (g_ptr i);; dynamic_free (g_ptr n);; dynamic_free (g_ptr d);; mret 0)
    (λ r w', r = 0 ∧ group w0 N u w' [] ∧ w_out w' = w_out w) w.
Proof using w0_wf.
  intros G.
  apply wp_bind. eapply wp_mono; [apply (group_free w0 N w0_wf u w [n] t [i; d] G)|]. intros [] w1 (G1 & O1 & _).
  apply wp_bind. eapply wp_mono; [apply (group_free w0 N w0_wf u w1 [n] i [d] G1)|]. intros [] w2 (G2 & O2 & _).
  apply wp_bind. eapply wp_mono; [apply (group_free w0 N w0_wf u w2 [] n [d] G2)|]. intros [] w3 (G3 & O3 & _).
  apply wp_bind. eapply wp_mono; [apply (group_free w0 N w0_wf u w3 [] d [] G3)|]. intros [] w4 (G4 & O4 & _).
  apply wp_ret. split_and!; [done|done|congruence].
Qed.

Lemma group_size u w l i a : group w0 N u w l → l !! i = Some a → dynamic_size (g_ptr a) w = Ret (len (g_elems a)) w.
Proof using Type.
  intros G Hi. pose proof (Forall_lookup_1 _ _ _ _ (grp_at _ _ _ _ _ G) Hi) as [Hat _ _].
  by apply dynamic_size_spec in Hat.
Qed.
End release.

(** ** [print_dir] *)

Lemma udiv_ok a b w : b ≠ 0 → udiv a b w = Ret (a / b) w.
Proof. intros. unfold udiv. by rewrite (proj2 (Z.eqb_neq _ _)). Qed.

Lemma group_total w0 N u w l : group w0 N u w l → zsum garr_size l <= zsum (λ a, room N (g_esz a)) l.
Proof.
  intros G. apply zsum_le. intros a Ha. pose proof (grp_at _ _ _ _ _ G) as Hall. rewrite Forall_forall in Hall.
  by destruct (growing_bound _ _ _ _ _ _ (Hall a Ha)).
Qed.

(** [print_entries] up to the recursion, and from there on. *)
Definition print_columns (flags : FLAGS) (r : reading) (count : Z) : M ptr :=
  width ← get_stdout_width;
  colums ← udiv width (u64 (rd_max r + 2));
  rows ← udiv (u64 (count + colums - 1)) colums;
  let size := u64 (colums * rows) in
  '(names, types) ← pad_entries (rd_names r) (rd_types r) count size;
  directory_size ← dynamic_size names;
  map ← calloc directory_size 8;
  mfor (seqZ 0 directory_size) (λ i, store_u64 (at64 map i) i);;
  sort_map flags names map count;;
  sizes ← calloc colums 8;
  column_widths names map sizes directory_size rows;;
  mfor (seqZ 0 directory_size) (print_entry names types map sizes colums rows);;
  printf RESET [];;
  (if negb (directory_size =? colums) then printf [10] [] else mret tt);;
  free sizes;;
  dynamic_free types;;
  dynamic_free (rd_ino r);;
  mret names.

Definition recurse (ls : ptr → ptr → FLAGS → M Z) (s_dir : ptr) (flags : FLAGS) (r : reading) (names : ptr) : M Z :=
  n_dirs ← (if recursive flags then dynamic_size (rd_dirs r) else mret 0);
  err ← (if recursive flags && (0 <? n_dirs) then ls s_dir (rd_dirs r) flags else mret 0);
  if negb (err =? 0) then mret (i64 (err * 10))
  else
    dynamic_free names;;
    dynamic_free (rd_dirs r);;
    mret 0.

Lemma print_entries_split ls s_dir flags r count w :
  print_entries ls s_dir flags r count w = (names ← print_columns flags r count; recurse ls s_dir flags r names) w.
Proof.
  change (print_entries ls s_dir flags r count) with
    (width ← get_stdout_width;
     colums ← udiv width (u64 (rd_max r + 2));
     rows ← udiv (u64 (count + colums - 1)) colums;
     let size := u64 (colums * rows) in
     '(names, types) ← pad_entries (rd_names r) (rd_types r) count size;
     directory_size ← dynamic_size names;
     map ← calloc directory_size 8;
     mfor (seqZ 0 directory_size) (λ i, store_u64 (at64 map i) i);;
     sort_map flags names map count;;
     sizes ← calloc colums 8;
     column_widths names map sizes directory_size rows;;
     mfor (seqZ 0 directory_size) (print_entry names types map sizes colums rows);;
     printf RESET [];;
     (if negb (directory_size =? colums) then printf [10] [] else mret tt);;
     free sizes;;
     dynamic_free types;;
     dynamic_free (rd_ino r);;
     recurse ls s_dir flags r names).
  unfold print_columns. generalize (recurse ls s_dir flags r). intros K. cbv zeta.
  repeat (apply bind_assoc_run; let x := fresh in intros x ?; try (destruct x as [? ?]); cbn beta iota). done.
Qed.

Section print_dir.
Set Default Proof Using "All".
Context (w0 : world) (N : Z) (ls : ptr → ptr → FLAGS → M Z) (s_dir : ptr) (flags : FLAGS) (width : Z) (ents : list dirent).
Local Notation count := (length ents).
Local Notation colums := (columns_for width ents).
Local Notation rows := (lines_for colums count).
Local Notation size := (colums * rows)%nat.
Local Notation names := (padded (d_name <$> ents) size []).
Local Notation types := (padded ((λ e, u8 (d_type e)) <$> ents) size 0).
Local Notation map := (order flags names count ++ seq count (size - count)).
Hypothesis w0_wf : wf_world w0.
Hypothesis N_room : rd_room N < 2 ^ 63.
Hypothesis N_size : Z.of_nat size <= N.
Hypothesis w0_room : rd_room N + 24 * Z.of_nat size <= w_avail w0.
Hypothesis ents_ok : Forall entry_ok ents.
Hypothesis some : (0 < count)%nat.
Hypothesis winsize : k_winsize (w_env w0) = Some width.
Hypothesis width_range : longest ents + 2 <= width < 65536.
Hypothesis size_small : Z.of_nat size < 2 ^ 31.
Hypothesis tolerant : k_strict (w_env w0) = false ∨ size = count.

Lemma colums_pos : (0 < colums)%nat ∧ Z.of_nat colums = width / (longest ents + 2).
Proof.
  pose proof (longest_bound _ ents_ok). unfold columns_for.
  assert (0 < width / (longest ents + 2)) by (apply Z.div_str_pos; lia). lia.
Qed.

Lemma count_size : (count <= size)%nat ∧ (0 < rows)%nat.
Proof.
  destruct colums_pos. split; [by apply lines_cover|by apply lines_pos].
Qed.

(** The three numbers the layout is computed from. *)
Lemma layout_ok {A} w m (f : Z → Z → M A) Q :
  w_same ∅ w0 w → m = longest ents →
  wp (f (Z.of_nat colums) (Z.of_nat rows)) Q w →
  wp (width ← get_stdout_width; c ← udiv width (u64 (m + 2)); r ← udiv (u64 (len ents + c - 1)) c;
      f c r) Q w.
Proof.
  intros Hs -> Hf. destruct colums_pos as [Hc Ec]. destruct count_size as [Hcs Hr].
  pose proof (longest_bound _ ents_ok).
  assert (Z.of_nat colums <= width) by (rewrite Ec; apply Z.div_le_upper_bound; nia).
  eapply (wp_step _ _ _ _ width w).
  { unfold get_stdout_width. rewrite (same_env _ _ _ Hs), winsize. by rewrite wrapu_small by lia. }
  rewrite (u64_small (longest ents + 2)) by (unfold is_u64; lia).
  eapply wp_step; [apply udiv_ok; lia|]. rewrite <- Ec. cbn beta.
  assert (Z.of_nat rows = (len ents + Z.of_nat colums - 1) / Z.of_nat colums) as Er.
  { unfold lines_for at 1. rewrite Nat2Z.inj_div. f_equal. lia. }
  rewrite u64_small by (unfold is_u64; lia).
  eapply wp_step; [apply udiv_ok; lia|]. cbn beta.
  by rewrite <- Er.
Qed.

(** The part that prints, from the padded arrays on. *)
Lemma print_table_part {A} (K : M A) Q w np tp c0 c1 a2 a3 :
  g_esz a2 = 8 → g_esz a3 = 8 →
  let l := [Garr np (name_elem <$> names) 256 c0; Garr tp ((λ t, [MByte t]) <$> types) 1 c1; a2; a3] in
  group w0 N 0 w l →
  (∀ w', group w0 N (8 * Z.of_nat size) w' l → w_out w' = w_out w ++ listing flags width ents → graves w w' → wp K Q w') →
  let csize := Z.of_nat size in
  wp (map ← calloc csize 8;
      mfor (seqZ 0 csize) (λ i, store_u64 (at64 map i) i);;
      sort_map flags np map (len ents);;
      sizes ← calloc (Z.of_nat colums) 8;
      column_widths np map sizes csize (Z.of_nat rows);;
      mfor (seqZ 0 csize) (print_entry np tp map sizes (Z.of_nat colums) (Z.of_nat rows));;
      printf RESET [];;
      (if negb (csize =? Z.of_nat colums) then printf [10] [] else mret tt);;
      free sizes;; K) Q w.
Proof.
  intros Ea2 Ea3 l G HK csize.
  destruct colums_pos as [Hc Ec]. destruct count_size as [Hcs Hr].
  destruct (padded_names_ok ents size ents_ok Hcs) as (Hns & Hsh & Hln).
  destruct (full_map_ok flags names count size Hcs) as (Hlm & Hrange & _).
  assert (Z.of_nat colums <= Z.of_nat size) by nia.
  assert (zsum garr_size l <= rd_room N) as Hz by (etrans; [by eapply group_total|cbn; rewrite Ea2, Ea3; unfold rd_room; lia]).
  pose proof (grp_avail _ _ _ _ _ G) as Hav.
  destruct (calloc_beside w0 N w0_wf 0 w l size G) as (w1 & E1 & G1 & B1 & _ & Hs1 & Ho1 & Ha1); [lia|].
  eapply wp_step; [exact E1|]. cbn beta. set (mb := w_next w) in *.
  rewrite <- wp_assoc. apply wp_bind. eapply wp_mono.
  { eapply (sorted_map_ok w0 N w0_wf _ w1 l mb np names c0 flags count size G1 B1); try done. lia. }
  intros [] w2 (G2 & B2 & Ho2 & Ha2 & V2).
  destruct (calloc_beside w0 N w0_wf _ w2 l colums G2) as (w3 & E3 & G3 & B3 & Hsb & Hs3 & Ho3 & Ha3); [lia|].
  eapply wp_step; [exact E3|]. cbn beta. set (sb := w_next w2) in *.
  pose proof (group_wf _ _ w0_wf _ _ _ G2) as Hwf2.
  assert (mb ≠ sb) as Hne.
  { intros Eb. assert (sb < w_next w2)%positive; [|unfold sb in *; lia]. apply Hwf2. rewrite <- Eb.
    eapply holds_live; [apply B2|by apply elem_of_blk]. }
  assert (beside w0 w3 l mb (arr enc_index map)) as Bm3 by (eapply beside_same; [exact B2|exact Hs3|set_solver]).
  rewrite <- wp_assoc. apply wp_bind. eapply wp_mono.
  { eapply (show_table w0 N w0_wf _ w3 l mb sb np tp c0 c1 names types map colums rows G3); try done.
    unfold padded. rewrite length_app, length_fmap, length_replicate. lia. }
  intros [] w4 (Ho4 & Ha4 & Hs4 & Hl4).
  eapply wp_step; [apply printf_plain; by apply (bool_decide_unpack (37 ∉ _))|]. cbn beta. set (w5 := say w4 RESET).
  assert ((if negb (csize =? Z.of_nat colums) then printf [10] [] else mret tt) w5 =
    Ret tt (say w5 (if decide (size = colums) then [] else [10]))) as E6.
  { unfold csize. destruct (Z.eqb_spec (Z.of_nat size) (Z.of_nat colums)), (decide (size = colums)); try lia; cbn [negb].
    - by rewrite say_nil.
    - apply printf_plain. by apply (bool_decide_unpack (37 ∉ _)). }
  eapply wp_step; [exact E6|]. cbn beta. set (w6 := say w5 _).
  assert (w_same {[sb]} w3 w6) as Hs6.
  { eapply w_same_weaken; [eapply w_same_trans; [exact Hs4|]; eapply w_same_trans; apply w_same_put|set_solver]. }
  assert (group w0 N (8 * Z.of_nat size + 8 * Z.of_nat colums) w6 l) as G6.
  { replace (8 * Z.of_nat size + 8 * Z.of_nat colums) with (0 + 8 * Z.of_nat size + 8 * Z.of_nat colums + 0) by lia.
    eapply (group_step w0 N w0_wf); [exact G3|exact Hs6| | |cbn; lia].
    - intros a Ha. pose proof (bs_apart _ _ _ _ _ B3 a Ha). set_solver.
    - intros c ->%elem_of_singleton. apply B3. }
  apply wp_bind. eapply wp_mono; [apply (free_beside w0 N w0_wf _ w6 l sb colums G6)|].
  - apply B3.
  - apply B3.
  - change (w_heap w6) with (w_heap w4). rewrite Hl4, Hsb. cbn. f_equal.
    rewrite <- arr_zeros, length_replicate. done.
  - cbn beta. intros [] w7 (G7 & Ho7 & V7). apply HK; [done| |].
    + rewrite Ho7. unfold w6, w5. cbn. rewrite Ho4, Ho3, Ho2, Ho1. unfold listing. by rewrite <- !(assoc_L (++)).
    + etrans; [by eapply w_same_graves|]. etrans; [exact V2|]. etrans; [by eapply w_same_graves|].
      etrans; [by eapply w_same_graves|exact V7].
Qed.

(** Up to the recursion: the table is printed, and the arrays of names and of subdirectories
    are left. *)
Lemma print_columns_ok w r ds c0 c1 c2 c3 :
  group w0 N 0 w (rd_arrays r ents ds c0 c1 c2 c3) → rd_max r = longest ents →
  wp (print_columns flags r (len ents)) (λ np w', ∃ c0',
    group w0 N (8 * Z.of_nat size) w' [Garr np (name_elem <$> names) 256 c0'; Garr (rd_dirs r) ds 8 c3] ∧
    w_out w' = w_out w ++ listing flags width ents ∧ ∀ b B, tracked w (rd_names r) c0 B b → tracked w' np c0' B b) w.
Proof.
  intros G Hm. unfold print_columns. destruct count_size as [Hcs Hr].
  apply layout_ok; [apply G|done|]. cbv zeta.
  rewrite <- Nat2Z.inj_mul, u64_small by (unfold is_u64; lia).
  apply wp_bind. eapply wp_mono.
  { eapply (pad_spec w0 N w0_wf N_room ltac:(lia) 0 w _ _ _ _ c0 c1 _ _ count size G).
    - cbn. unfold rd_room in w0_room. lia.
    - by rewrite length_fmap.
    - by rewrite length_fmap.
    - done.
    - done.
    - by rewrite (same_env _ _ _ (grp_same _ _ _ _ _ G)). }
  intros [np tp] w1 (c0' & c1' & G1 & Ho1 & T1). rewrite fmap_padded_names, fmap_padded_types in G1.
  eapply wp_step.
  { apply (group_size w0 N 0 w1 _ 0 _ G1 eq_refl). }
  cbn [g_elems]. rewrite length_fmap. destruct (padded_names_ok ents size ents_ok Hcs) as (_ & _ & ->).
  eapply print_table_part; [| |exact G1|]; [done|done|].
  intros w2 G2 Ho2 V2.
  apply wp_bind. eapply wp_mono; [apply (group_free w0 N w0_wf _ w2 [_] _ [_; _] G2)|]. intros [] w3 (G3 & Ho3 & V3).
  apply wp_bind. eapply wp_mono; [apply (group_free w0 N w0_wf _ w3 [_] _ [_] G3)|]. intros [] w4 (G4 & Ho4 & V4).
  apply wp_ret. exists c0'. split_and!; [exact G4|congruence|].
  intros b B Ht. eapply tracked_graves; [by apply T1|]. etrans; [exact V2|by etrans].
Qed.

Lemma print_entries_ok w r ds c0 c1 c2 c3 :
  group w0 N 0 w (rd_arrays r ents ds c0 c1 c2 c3) → rd_max r = longest ents →
  recursive flags = false ∨ ds = [] →
  wp (print_entries ls s_dir flags r (len ents)) (λ e w',
    e = 0 ∧ group w0 N (8 * Z.of_nat size) w' [] ∧ w_out w' = w_out w ++ listing flags width ents) w.
Proof.
  intros G Hm Hrec. unfold wp. rewrite print_entries_split. apply wp_bind.
  eapply wp_mono; [by eapply print_columns_ok|]. cbn beta. intros np w4 (c0' & G4 & Ho4 & _). unfold recurse.
  assert ((if recursive flags then dynamic_size (rd_dirs r) else mret 0) w4 = Ret (if recursive flags then len ds else 0) w4) as E5.
  { destruct (recursive flags); [|done]. apply (group_size w0 N _ w4 _ 1 _ G4 eq_refl). }
  eapply wp_step; [exact E5|]. cbn beta.
  assert (recursive flags && (0 <? (if recursive flags then len ds else 0)) = false) as ->.
  { destruct Hrec as [-> | ->]; [done|]. by destruct (recursive flags). }
  eapply wp_step; [done|]. cbn beta. change (negb (0 =? 0)) with false. cbn iota.
  apply wp_bind. eapply wp_mono; [apply (group_free w0 N w0_wf _ w4 [] _ [_] G4)|]. intros [] w5 (G5 & Ho5 & _).
  apply wp_bind. eapply wp_mono; [apply (group_free w0 N w0_wf _ w5 [] _ [] G5)|]. intros [] w6 (G6 & Ho6 & _).
  apply wp_ret. split_and!; [done|done|congruence].
Qed.
End print_dir.

Lemma print_dir_ok w ls path name flags es width :
  let ents := listed flags es in
  let colums := columns_for width ents in
  let size := (colums * lines_for colums (length ents))%nat in
  let N := Z.max (Z.of_nat size) (len es) in
  wf_world w → cstr_at w path name → k_opendir (w_env w) name = Some es → Forall entry_ok es →
  k_winsize (w_env w) = Some width → longest ents + 2 <= width < 65536 →
  recursive flags = false ∨ filter (λ e, is_subdir e = true) ents = [] →
  k_strict (w_env w) = false ∨ size = length ents →
  Z.of_nat size < 2 ^ 31 → rd_room N < 2 ^ 63 → rd_room N + 24 * Z.of_nat size <= w_avail w →
  wp (print_dir ls path flags) (λ r w', r = 0 ∧
    w_out w' = w_out w ++ (if decide (ents = []) then [] else listing flags width ents) ∧
    w_same ∅ w w' ∧
    w_avail w' = w_avail w - (if decide (ents = []) then 0 else 8 * Z.of_nat size)) w.
Proof.
  intros ents colums size N Hwf Hp Hk Hes Hwin Hwidth Hrec Htol Hsize Hroom Hav.
  assert (0 <= N ∧ len es <= N ∧ Z.of_nat size <= N) as (HN0 & HN1 & HN2) by (unfold N; lia). clearbody N.
  unfold print_dir. apply wp_bind. eapply wp_mono.
  { eapply (read_dir_spec w N flags Hwf); try done; lia. }
  cbn beta. intros o w1 (r & -> & ds & c0 & c1 & c2 & c3 & G & Hds & Hm & _ & Ho & _). fold ents in G, Hds, Hm.
  assert (∀ p e c, growing N w1 p e 256 c → p ≠ Null) as Hnn.
  { by intros p e c [(_ & b & slack & -> & _) _ _]. }
  pose proof (grp_at _ _ _ _ _ G) as Hall. apply Forall_cons in Hall as [Hn Hall]. apply Forall_cons in Hall as [Ht _].
  rewrite decide_False by by eapply Hnn. rewrite decide_False.
  2:{ destruct Ht as [(_ & b & slack & E & _) _ _]. cbn in E. by rewrite E. }
  eapply wp_step; [apply (group_size w N 0 w1 _ 0 _ G eq_refl)|]. cbn beta. cbn [g_elems]. rewrite length_fmap.
  pose proof (listed_ok flags es Hes) as Hok. fold ents in Hok.
  destruct (decide (ents = [])) as [Hnil|Hnil].
  - rewrite Hnil in *. cbn [length]. change (Z.of_nat 0 =? 0) with true. cbn iota.
    eapply wp_mono; [apply (free_group w N Hwf _ w1 _ _ _ _ G)|].
    cbn. intros r0 w2 (-> & G2 & Ho2). rewrite app_nil_r. split_and!; [done|congruence|apply G2|].
    rewrite (grp_avail _ _ _ _ _ G2). cbn. lia.
  - assert (0 < length ents)%nat by (destruct ents; [done|cbn; lia]).
    rewrite (proj2 (Z.eqb_neq _ _)) by lia.
    assert (recursive flags = false ∨ ds = []) as Hrec'.
    { destruct Hrec as [?|E]; [by left|right]. rewrite E in Hds. by destruct ds. }
    eapply wp_mono; [eapply (print_entries_ok w N ls path flags width ents); try done; lia|].
    cbn beta. intros r0 w2 (-> & G2 & Ho2). split_and!; [done|congruence|apply G2|].
    rewrite (grp_avail _ _ _ _ _ G2). cbn. fold colums size. lia.
Qed.

(** C6. [print_dir] prints the listing: for a directory whose entries the kernel yields as
    [es], on a terminal wide enough for one column, with memory for its arrays, without
    recursion, and with over-reads tolerated unless the last line is full, it returns 0,
    appends exactly [listing] of the visible entries to the output (nothing when there is
    none), leaves everything that existed unchanged, and keeps of the memory it took only
    the index map, 8 bytes for each cell. *)
Theorem print_dir_lists w ls path name flags es width :
  let ents := listed flags es in
  let colums := columns_for width ents in
  let size := (colums * lines_for colums (length ents))%nat in
  let N := Z.max (Z.of_nat size) (len es) in
  wf_world w → cstr_at w path name → k_opendir (w_env w) name = Some es → Forall entry_ok es →
  k_winsize (w_env w) = Some width → longest ents + 2 <= width < 65536 →
  recursive flags = false ∨ filter (λ e, is_subdir e = true) ents = [] →
  k_strict (w_env w) = false ∨ size = length ents →
  Z.of_nat size < 2 ^ 31 → rd_room N < 2 ^ 63 → rd_room N + 24 * Z.of_nat size <= w_avail w →
  wp (print_dir ls path flags) (λ r w', r = 0 ∧
    w_out w' = w_out w ++ (if decide (ents = []) then [] else listing flags width ents) ∧
    w_same ∅ w w' ∧
    w_avail w' = w_avail w - (if decide (ents = []) then 0 else 8 * Z.of_nat size)) w.
Proof. exact (print_dir_ok w ls path name flags es width). Qed.

(** A directory with a file, a subdirectory and a hidden entry, on a terminal of 40
    columns; [print_dir] is called with the path at block 1. *)
Definition small_dir : list dirent :=
  [Dirent (str "notes.txt") 8 11; Dirent (str "bin") DT_DIR 12; Dirent (str ".git") DT_DIR 13; Dirent (str "a.c") 8 14].

Definition small_world : world :=
  World {[1%positive := (MByte <$> str ".") ++ [MByte 0]]} 2 65536 []
    (Kenv (λ p, if decide (p = str ".") then Some small_dir else None) (Some 40) false (λ _ _, 7)).

Lemma small_world_wf : wf_world small_world.
Proof. intros b [vs Hb]. cbn in Hb. apply lookup_singleton_Some in Hb as [<- _]. done. Qed.

Lemma print_dir_lists_witness :
  wp (print_dir (λ _ _ _, mret 0) (Ptr 1 0) default_flags) (λ r w', r = 0 ∧
    w_out w' = ESC :: str "[0ma.c  " ++ ESC :: str "[0;34mbin  " ++
               ESC :: str "[0mnotes.txt  " ++ [10] ++ RESET) small_world.
Proof.
  eapply wp_mono.
  - apply (print_dir_lists small_world _ (Ptr 1 0) (str ".") default_flags small_dir 40).
    + apply small_world_wf.
    + exists 1%positive, 0, ((MByte <$> str ".") ++ [MByte 0]).
      split_and!; [done|done|done|by repeat constructor|by exists []].
    + done.
    + repeat constructor; done.
    + done.
    + by vm_compute.
    + by left.
    + by left.
    + by vm_compute.
    + by vm_compute.
    + by vm_compute.
  - intros r w' (-> & Hout & _). split; [done|]. rewrite Hout. by vm_compute.
Defined.

(** On a terminal narrower than the longest visible name and two columns, [print_dir]
    divides by zero: the number of columns comes out as 0. *)
Theorem print_dir_narrow w ls path name flags es width :
  let ents := listed flags es in
  wf_world w → cstr_at w path name → k_opendir (w_env w) name = Some es → Forall entry_ok es → ents ≠ [] →
  k_winsize (w_env w) = Some width → 0 <= width < longest ents + 2 → width < 65536 →
  rd_room (len es) < 2 ^ 63 → rd_room (len es) <= w_avail w →
  print_dir ls path flags w = Stuck DivByZero.
Proof.
  intros ents Hwf Hp Hk Hes Hne Hwin Hw Hw' Hroom Hav.
  destruct (wp_inv _ _ _ (read_dir_spec w (len es) flags Hwf ltac:(lia) Hroom Hav path name es Hp Hk Hes ltac:(lia)))
    as (o & w1 & E & r & -> & ds & c0 & c1 & c2 & c3 & G & Hds & Hm & _ & Ho & _).
  fold ents in G, Hm. unfold print_dir. erewrite bind_ret by exact E. cbn beta iota.
  pose proof (grp_at _ _ _ _ _ G) as Hall. apply Forall_cons in Hall as [Hn Hall]. apply Forall_cons in Hall as [Ht _].
  rewrite !decide_False.
  2:{ destruct Ht as [(_ & b & slack & Eb & _) _ _]. cbn in Eb. by rewrite Eb. }
  2:{ destruct Hn as [(_ & b & slack & Eb & _) _ _]. cbn in Eb. by rewrite Eb. }
  erewrite bind_ret by apply (group_size w (len es) 0 w1 _ 0 _ G eq_refl). cbn [g_elems]. rewrite length_fmap.
  rewrite (proj2 (Z.eqb_neq _ _)) by (destruct ents; [done|cbn; lia]).
  pose proof (longest_bound _ (listed_ok flags es Hes)) as Hb. fold ents in Hb.
  unfold print_entries. rewrite (bind_ret _ _ _ width w1).
  2:{ unfold get_stdout_width. rewrite (same_env _ _ _ (grp_same _ _ _ _ _ G)), Hwin. by rewrite wrapu_small by lia. }
  rewrite Hm, u64_small by (unfold is_u64; lia).
  rewrite (bind_ret _ _ _ 0 w1). 2:{ rewrite udiv_ok by lia. by rewrite Z.div_small by lia. }
  by erewrite bind_stuck.
Qed.

Lemma print_dir_narrow_witness :
  let w := World {[1%positive := (MByte <$> str ".") ++ [MByte 0]]} 2 65536 []
    (Kenv (λ p, if decide (p = str ".") then Some small_dir else None) (Some 10) false (λ _ _, 7)) in
  print_dir (λ _ _ _, mret 0) (Ptr 1 0) default_flags w = Stuck DivByZero.
Proof.
  intros w. apply (print_dir_narrow w _ (Ptr 1 0) (str ".") default_flags small_dir 10).
  - apply small_world_wf.
  - exists 1%positive, 0, ((MByte <$> str ".") ++ [MByte 0]).
    split_and!; [done|done|done|by repeat constructor|by exists []].
  - done.
  - repeat constructor; done.
  - done.
  - done.
  - by vm_compute.
  - done.
  - by vm_compute.
  - by vm_compute.
Defined.

Lemma holds_frame w w' bs q vs : w_same bs w w' → blk q ## bs → holds w q vs → holds w' q vs.
Proof.
  intros Hs Hd (b & pre & post & -> & Hb). exists b, pre, post. split; [done|].
  rewrite (same_heap _ _ _ Hs); [done| |by eexists]. set_solver.
Qed.

Lemma tabled_same w w' bs np tp mp ns ts map colums rows :
  w_same bs w w' → blk np ∪ blk tp ∪ blk mp ## bs → tabled w np tp mp ns ts map colums rows →
  tabled w' np tp mp ns ts map colums rows.
Proof.
  intros Hs Hd [H1 [T1 T2 T3] H3 H4 H5 H6 H7]. split; try done.
  - eapply named_same; [exact Hs|set_solver|done].
  - split; [|intros; eapply holds_frame; [exact Hs|rewrite blk_padd; set_solver|by apply T2]|done].
    eapply holds_frame; [exact Hs| |exact T1]. unfold f_element_size. rewrite blk_padd. set_solver.
  - eapply holds_frame; [exact Hs|set_solver|done].
Qed.

(** The printing loops show every entry once: on the arrays [tabled] describes, the
    computation of the column widths and the loop over [print_entry] append to the output
    the cells in the order of the screen's lines; the entries these show are a permutation
    of the map, whatever the number of columns; and nothing but the widths is written. *)
Theorem print_loops_complete w np tp mp sp ns ts map colums rows :
  let size := (colums * rows)%nat in
  tabled w np tp mp ns ts map colums rows → holds w sp (arr enc64 (replicate colums 0)) →
  blk np ∪ blk tp ∪ blk mp ## blk sp →
  wp (column_widths np mp sp (Z.of_nat size) (Z.of_nat rows);;
      mfor (seqZ 0 (Z.of_nat size)) (print_entry np tp mp sp (Z.of_nat colums) (Z.of_nat rows)))
    (λ _ w', w_out w' = w_out w ++ concat (cell ns ts map colums rows <$> seq 0 size) ∧
       cell_entry map colums rows <$> seq 0 size ≡ₚ map ∧ w_same (blk sp) w w') w.
Proof.
  intros size T Hsp Hd. unfold size.
  assert (∀ w', only [(sp, Z.of_nat colums * 8)] w w' → w_same (blk sp) w w') as Hsame.
  { intros w' Ho. eapply w_same_weaken; [apply (only_same _ _ _ Ho)|]. cbn. set_solver. }
  assert (∀ w', only [(sp, Z.of_nat colums * 8)] w w' → tabled w' np tp mp ns ts map colums rows) as Hkeep
    by (intros w' Ho; eapply tabled_same; [by apply Hsame|done|done]).
  apply wp_bind. eapply wp_mono; [by apply (column_widths_ok np tp mp sp ns ts map colums rows)|].
  cbn beta. intros [] w1 [Hs Ho].
  eapply wp_mono; [apply (print_table_ok np tp mp sp ns ts map colums rows); [by apply Hkeep|exact Hs]|].
  cbn beta. intros [] w2 ->. split_and!.
  - cbn. by rewrite (only_out _ _ _ Ho).
  - apply cells_perm, T.
  - eapply w_same_weaken; [eapply w_same_trans; [by apply Hsame|apply w_same_put]|set_solver].
Qed.

(** Three names in two columns and two lines; block 1 holds the names and the padding,
    block 2 the types, block 3 the map, block 4 the widths. *)
Definition table_names : list (list Z) := [str "bb"; str "a"; str "ccc"; []].
Definition table_names_block : list mval := enc64 4 ++ enc64 4 ++ enc64 1024 ++ enc64 256 ++ concat (name_elem <$> table_names).
Definition table_types_block : list mval := enc64 4 ++ enc64 4 ++ enc64 4 ++ enc64 1 ++ (MByte <$> [8; 4; 8; 0]).
Definition table_world : world :=
  World {[1%positive := table_names_block; 2%positive := table_types_block;
          3%positive := arr enc_index [1; 0; 2; 3]%nat; 4%positive := arr enc64 [0; 0]]} 5 0 []
    (Kenv (λ _, None) None true (λ _ _, 0)).

Lemma table_world_ok : tabled table_world (Ptr 1 0) (Ptr 2 0) (Ptr 3 0) table_names [8; 4; 8; 0] [1; 0; 2; 3]%nat 2 2.
Proof.
  split; try done.
  - split; [|intros i s Hi|done].
    + exists 1%positive, (take 24 table_names_block), (drop 32 table_names_block). split; [done|]. by vm_compute.
    + destruct i as [|[|[|[|i]]]]; [injection Hi as <-; (split; [by repeat constructor|])..|done].
      * exists 1%positive, (take 32 table_names_block), (drop 35 table_names_block). split; [done|]. by vm_compute.
      * exists 1%positive, (take 288 table_names_block), (drop 290 table_names_block). split; [done|]. by vm_compute.
      * exists 1%positive, (take 544 table_names_block), (drop 548 table_names_block). split; [done|]. by vm_compute.
      * exists 1%positive, (take 800 table_names_block), (drop 801 table_names_block). split; [done|]. by vm_compute.
  - split; [|intros i t Hi|done].
    + exists 2%positive, (take 24 table_types_block), (drop 32 table_types_block). split; [done|]. by vm_compute.
    + do 4 try (destruct i as [|i]; [injection Hi as <-|]); [..|done].
      * exists 2%positive, (take 32 table_types_block), (drop 33 table_types_block). split; [done|]. by vm_compute.
      * exists 2%positive, (take 33 table_types_block), (drop 34 table_types_block). split; [done|]. by vm_compute.
      * exists 2%positive, (take 34 table_types_block), (drop 35 table_types_block). split; [done|]. by vm_compute.
      * exists 2%positive, (take 35 table_types_block), (drop 36 table_types_block). split; [done|]. by vm_compute.
  - exists 3%positive, [], []. split; [done|]. by vm_compute.
  - repeat constructor.
  - repeat constructor; done.
  - split_and!; [lia..|done].
Qed.

Lemma print_loops_complete_witness :
  wp (column_widths (Ptr 1 0) (Ptr 3 0) (Ptr 4 0) 4 2;;
      mfor (seqZ 0 4) (print_entry (Ptr 1 0) (Ptr 2 0) (Ptr 3 0) (Ptr 4 0) 2 2))
    (λ _ w', w_out w' = ESC :: str "[0;34ma   " ++ ESC :: str "[0mccc  " ++ [10] ++
                        ESC :: str "[0mbb  " ++ ESC :: str "[0m     " ++ [10]) table_world.
Proof.
  eapply wp_mono.
  - apply (print_loops_complete table_world (Ptr 1 0) (Ptr 2 0) (Ptr 3 0) (Ptr 4 0) table_names [8; 4; 8; 0] [1; 0; 2; 3]%nat 2 2).
    + apply table_world_ok.
    + exists 4%positive, [], []. split; [done|]. by vm_compute.
    + intros b Hb ->%elem_of_blk. by vm_compute in Hb.
  - intros [] w' (-> & _). by vm_compute.
Defined.

(** The padding reads too far: [dynamic_insert (&names, "")] copies a whole 256-byte
    element out of a one-byte string, so that under the strict policy [pad_entries] is stuck
    whenever there is a cell to pad. *)
Theorem pad_entries_overreads w np tp d count size :
  wf_world w → dyn_at w np d → d_esz d = 256 → dyn_room w d → count < size → k_strict (w_env w) = true →
  pad_entries np tp count size w = Stuck OutOfBounds.
Proof.
  intros Hwf Hd He Hr Hlt Hst. unfold pad_entries.
  set (w1 := with_new w [MByte DT_UNKNOWN] (w_avail w)). set (w2 := with_new w1 [MByte 0] (w_avail w1)).
  erewrite bind_ret by done. fold w1. erewrite (bind_ret _ _ w1) by done. fold (with_new w1 [MByte 0] (w_avail w1)). fold w2.
  assert (w_same ∅ w w1) as Hs1 by by apply w_same_alloc.
  assert (wf_world w1) as Hwf1 by by apply (same_wf _ _ _ Hs1).
  assert (w_same ∅ w1 w2) as Hs2 by by apply w_same_alloc.
  assert (wf_world w2) as Hwf2 by by apply (same_wf _ _ _ Hs2).
  assert (dyn_at w2 np d) as Hd2.
  { eapply dyn_at_same; [exact Hs2|set_solver|]. eapply dyn_at_same; [exact Hs1|set_solver|done]. }
  apply bind_stuck. rewrite seqZ_cons by lia. cbn [mfold]. apply bind_stuck, bind_stuck.
  destruct (dynamic_grow_spec w2 np d Hwf2 Hd2 Hr) as (b & slack & w3 & Eg & _ & _ & Hs3 & _).
  pose proof Hd2 as (Hok & b0 & slack0 & Enp & Hb0 & _). destruct (dyn_ok_bounds _ Hok) as (?&?&?&?&?&?&?).
  rewrite Enp in Eg |- *.
  unfold dynamic_insert. erewrite bind_ret by by eapply load_length. erewrite bind_ret by by eapply load_element_size.
  erewrite bind_ret by exact Eg. apply bind_stuck. unfold memcpy. apply bind_stuck.
  rewrite He. unfold load_bytes.
  assert (w_heap w3 !! w_next w1 = Some [MByte 0]) as ->.
  { rewrite (same_heap _ _ _ Hs3).
    - cbn. apply lookup_insert_eq.
    - rewrite Enp. intros Hin%elem_of_blk. destruct Hd as (_ & c & sl & Ec & Hc & _). rewrite Enp in Ec. injection Ec as <-.
      assert (b0 < w_next w)%positive by (apply Hwf; by eexists). cbn in Hin. lia.
    - cbn. rewrite lookup_insert_eq. by eexists. }
  rewrite (same_env _ _ _ Hs3). cbn -[Z.add]. by rewrite Hst.
Qed.

Lemma pad_entries_overreads_witness :
  let d := Dyn (name_elem <$> [str "x"]) 2 256 in
  let w := World {[1%positive := dyn_block 1 2 512 256 (concat (d_elems d) ++ replicate 256 MUndef)]} 2 4096 []
    (Kenv (λ _, None) None true (λ _ _, 0)) in
  pad_entries (Ptr 1 0) Null 1 2 w = Stuck OutOfBounds.
Proof.
  intros d w. apply (pad_entries_overreads w (Ptr 1 0) Null d 1 2); try done.
  - intros b [vs Hb]. cbn in Hb. apply lookup_singleton_Some in Hb as [<- _]. done.
  - split; [split; try done; repeat constructor|]. by exists 1%positive, (replicate 256 MUndef).
Defined.
