(* ===== verification/LsMain.v ===== *)
(** * LsMain: the command line in memory, [ls] from [main] on, and what its recursion reads *)

From S2P Require Import Prelude Mem Logic Region CStr Printf Dynamic Utils UtilsSpec SortList Qsort LsFlags Ls LsRead LsSort LsPrint LsSpec.
Local Open Scope Z_scope.

(** ** The arguments *)

Lemma parse_args_cons a args flags :
  parse_args (a :: args) flags =
  if default 0 (head a) =? 45 then
    if default 0 (head (tail a)) =? 45 then
      let '(err, f) := parse_long a flags in if err =? 0 then parse_args args f else None
    else parse_args args (foldl (λ f c, short_flag c f) flags (tail a))
  else '(f, ps) ← parse_args args flags; Some (f, a :: ps).
Proof.
  destruct a as [|c a]; [done|]. cbn [head tail default id].
  destruct (Z.eqb_spec c 45) as [->|Hc].
  - destruct a as [|d a]; [done|]. cbn [head default id]. destruct (Z.eqb_spec d 45) as [->|Hd]; [done|].
    destruct d as [|p|p]; try done. by do 6 (destruct p as [p|p|]; try done).
  - destruct c as [|p|p]; try done. by do 6 (destruct p as [p|p|]; try done).
Qed.

Lemma parse_args_list args flags f ps : parse_args args flags = Some (f, ps) → list_ f = list_ flags.
Proof.
  assert (∀ c g, list_ (short_flag c g) = list_ g) as Hshort by (intros; unfold short_flag; by repeat case_match).
  assert (∀ s g, list_ (parse_long s g).2 = list_ g) as Hlong
    by (intros; unfold parse_long, sort_value; by repeat case_decide).
  revert flags f ps. induction args as [|a args IH]; intros flags f ps; [by intros [= -> _]|].
  rewrite parse_args_cons. case_match; [case_match|].
  - specialize (Hlong a flags). destruct (parse_long a flags) as [err g]. case_match; [|done].
    intros ->%IH. exact Hlong.
  - intros ->%IH. generalize flags (tail a). intros g s. revert g.
    induction s as [|c s IHs]; intros g; cbn; [done|]. by rewrite IHs.
  - destruct (parse_args args flags) as [[g qs]|] eqn:E; [|done]. cbn. intros [= <- _]. by eapply IH.
Qed.

Lemma short_loop_ok w n p s c flags :
  cstr_at w p (c :: s) → (length s < n)%nat →
  short_loop n p flags w = Ret (foldl (λ f c, short_flag c f) flags s) w.
Proof.
  revert p s c flags. induction n as [|n IH]; intros p s c flags Hp Hn; [lia|]. cbn [short_loop].
  destruct (cstr_at_uncons _ _ _ Hp) as [_ Hp'].
  erewrite bind_ret by by apply load_u8_cstr.
  destruct s as [|d s]; [done|]. cbn [head default id].
  assert (d ≠ 0) by (apply cstr_at_is_cstr, Forall_cons in Hp' as [? _]; lia).
  rewrite (proj2 (Z.eqb_neq d 0)) by done. cbn in Hn. by rewrite (IH _ s d) by (done || lia).
Qed.

Lemma group_put w0 N u w l s : wf_world w0 → group w0 N u w l → group w0 N u (say w s) l.
Proof.
  intros w0_wf G. rewrite <- (Z.add_0_r u).
  eapply (group_step w0 N w0_wf); [exact G|apply w_same_put|set_solver|set_solver|cbn; lia].
Qed.

Lemma argv_same w w' argv args : w_same ∅ w w' → argv_at w argv args → argv_at w' argv args.
Proof.
  intros Hs Ha i a Hi. destruct (Ha i a Hi) as (p & Hr & Hc). exists p.
  split; [eapply reads_same|eapply cstr_same]; try done; set_solver.
Qed.

Lemma group_quiet w0 N u w w' l : wf_world w0 → quiet w w' → group w0 N u w l → group w0 N u w' l.
Proof.
  intros w0_wf [Hs _ Ha] G. rewrite <- (Z.add_0_r u). eapply (group_step w0 N w0_wf); [exact G|exact Hs|set_solver|set_solver|lia].
Qed.

Section args.
Set Default Proof Using "All".
Context (w0 : world) (N : Z) (argv : ptr) (args : list (list Z)).
Hypothesis w0_wf : wf_world w0.
Hypothesis N_room : room N 8 < 2 ^ 63.
Hypothesis w0_room : room N 8 <= w_avail w0.
Hypothesis argv_ok : argv_at w0 argv args.

(** One path argument: its address is appended to [paths]. *)
Lemma add_path_ok {A} (K : ptr → M A) Q w paths qs cap s :
  group w0 N 0 w [Garr paths (encptr <$> qs) 8 cap] → len qs + 1 <= N →
  (∀ p' cap' w', group w0 N 0 w' [Garr p' (encptr <$> (qs ++ [s])) 8 cap'] → w_out w' = w_out w → wp (K p') Q w') →
  wp (v ← new_block (encptr s); p' ← dynamic_insert paths v; drop_block v;; K p') Q w.
Proof.
  intros G Hn HK.
  destruct (scratch_new w0 N w0_wf 0 w _ (encptr s) G) as (E & G1 & S1 & _).
  eapply wp_step; [exact E|]. cbn beta. set (w1 := with_new _ _ _) in *. set (v := w_next w) in *.
  apply wp_bind. eapply wp_mono.
  { eapply (group_insert_scratch w0 N w0_wf 0 w1 _ 0 _ (Ptr v 0) (encptr s) G1 eq_refl); cbn; try done; [lia| | | |].
    - rewrite length_fmap. lia.
    - eapply reads_in; [apply S1|lia|lia|by rewrite length_encptr|]. by destruct s.
    - by rewrite length_encptr.
    - intros b ->%elem_of_singleton Hb. by apply (scr_apart _ _ _ _ _ S1 (Garr paths (encptr <$> qs) 8 cap) ltac:(left)). }
  cbn. intros p' w2 (cap' & G2 & Ho & Hsc & _).
  destruct (scratch_drop w0 N w0_wf 0 w2 _ v _ G2 (Hsc _ _ S1)) as (E3 & G3 & _).
  eapply wp_step; [exact E3|]. cbn beta. eapply HK; [|by rewrite <- Ho]. rewrite fmap_app. exact G3.
Qed.

Lemma args_loop_ok todo i flags paths qs cap w :
  drop i args = todo → group w0 N 0 w [Garr paths (encptr <$> qs) 8 cap] → len qs + len todo <= N →
  wp (args_loop (length todo) argv (Z.of_nat i) flags paths) (λ r w',
    w_out w' = w_out w ∧ w_same ∅ w0 w' ∧
    match parse_args todo flags with
    | None => r = None
    | Some (f, names) => ∃ paths' qs' cap', r = Some (f, paths') ∧
        group w0 N 0 w' [Garr paths' (encptr <$> (qs ++ qs')) 8 cap'] ∧ Forall2 (cstr_at w0) qs' names
    end) w.
Proof.
  revert i flags paths qs cap w. induction todo as [|a todo IH]; intros i flags paths qs cap w Hi G Hn.
  { apply wp_ret. split_and!; [done|apply G|]. cbn. exists paths, [], cap. by rewrite app_nil_r. }
  assert (args !! i = Some a) as Ha by by rewrite <- (Nat.add_0_r i), <- lookup_drop, Hi.
  assert (drop (S i) args = todo) as Hi' by by rewrite <- Nat.add_1_r, <- drop_drop, Hi.
  destruct (argv_ok i a Ha) as (s & Hs & Hc0).
  pose proof (grp_same _ _ _ _ _ G) as Hsame. pose proof (group_wf _ _ w0_wf _ _ _ G) as Hwf.
  assert (cstr_at w s a) as Hc by (eapply cstr_same; [exact Hsame|set_solver|done]).
  cbn [length args_loop]. cbn in Hn.
  eapply wp_step; [apply load_ptr_eq; eapply reads_same; [exact Hsame|set_solver|exact Hs]|]. cbn beta.
  eapply wp_step; [by apply load_u8_cstr|]. cbn beta. rewrite parse_args_cons.
  replace (Z.of_nat i + 1) with (Z.of_nat (S i)) by lia.
  destruct (Z.eqb_spec (default 0 (head a)) 45) as [Hd|_].
  - destruct a as [|c a]; [done|]. cbn in Hd. subst c. cbn [tail].
    destruct (cstr_at_uncons _ _ _ Hc) as [_ Hc1].
    eapply wp_step; [by apply load_u8_cstr|]. cbn beta. destruct (default 0 (head a) =? 45).
    + apply wp_bind. eapply wp_mono; [by apply parse_long_argument_ok|]. cbn beta.
      intros [err f] w1 [<- Hq]. destruct (Z.eqb_spec err 0); cbn [negb].
      * eapply wp_mono; [apply (IH (S i) f paths qs cap w1 Hi'); [by eapply group_quiet|lia]|].
        cbn beta. rewrite (q_out _ _ Hq). done.
      * apply wp_ret. split_and!; [apply Hq| |done]. by apply (group_quiet _ _ _ _ _ _ w0_wf Hq G).
    + destruct (cstr_at_room _ _ _ Hc) as (n & Hlt & En). eapply wp_step; [exact En|].
      cbn in Hlt. eapply wp_step; [apply (short_loop_ok _ _ _ a 45); [exact Hc|lia]|]. eapply (IH (S i)); [done|exact G|lia].
  - eapply (add_path_ok _ _ w paths qs cap s G); [lia|]. intros p' cap' w' G' Ho.
    eapply wp_mono; [apply (IH (S i) flags p' (qs ++ [s]) cap' w' Hi' G'); rewrite length_app; cbn; lia|].
    cbn beta. intros r w2 (Ho2 & Hs2 & Hr). split_and!; [by rewrite Ho2|done|].
    destruct (parse_args todo flags) as [[f names]|]; [|done]. destruct Hr as (p2 & qs' & cap2 & -> & G2 & Hf).
    exists p2, (s :: qs'), cap2. cbn. split_and!; [done| |by constructor]. by rewrite <- (assoc_L (++)) in G2.
Qed.
End args.

(** ** What [ls] prints *)

Definition cells (flags : FLAGS) (width : Z) (es : list dirent) : nat :=
  let colums := columns_for width (listed flags es) in
  (colums * lines_for colums (length (listed flags es)))%nat.

Definition dir_text (flags : FLAGS) (width : Z) (es : list dirent) : list Z :=
  if decide (listed flags es = []) then [] else listing flags width (listed flags es).

(** What one call of [print_dir] never frees. *)
Definition kept (flags : FLAGS) (width : Z) (es : list dirent) : Z :=
  if decide (listed flags es = []) then 0 else 8 * Z.of_nat (cells flags width es).

Definition headed (flags : FLAGS) (width : Z) (d : list Z * list dirent) : list Z :=
  d.1 ++ str ":" ++ [10] ++ dir_text flags width d.2 ++ [10].

(** The output for the directories [ds], each with its path and its entries. *)
Definition ls_text (flags : FLAGS) (width : Z) (ds : list (list Z * list dirent)) : list Z :=
  str "count = " ++ decimal (len ds) ++ [10] ++
  match ds with
  | [d] => dir_text flags width d.2
  | _ => concat (headed flags width <$> ds)
  end.

(** A directory of at most [N] entries and cells that fits the terminal and is not descended into. *)
Record dir_ok (e : kenv) (N : Z) (flags : FLAGS) (width : Z) (d : list Z * list dirent) : Prop := DirOk {
  do_open : k_opendir e d.1 = Some d.2;
  do_entries : Forall entry_ok d.2;
  do_width : longest (listed flags d.2) + 2 <= width < 65536;
  do_flat : recursive flags = false ∨ filter (λ e, is_subdir e = true) (listed flags d.2) = [];
  do_cells : Z.of_nat (cells flags width d.2) <= N;
  do_len : len d.2 <= N }.

Lemma printf_count w n :
  0 <= n < 2 ^ 63 → printf (str "count = %ld" ++ [10]) [AInt n] w = Ret tt (say w (str "count = " ++ decimal n ++ [10])).
Proof.
  intros Hn. apply (printf_one w (str "count = ") (str "ld") [10]); [by apply (bool_decide_unpack (37 ∉ _))..| |cbn; lia].
  change (str "ld" ++ [10]) with [108; 100; 10]. cbn [convert]. erewrite bind_ret by done. cbn beta iota.
  erewrite bind_ret by done. cbn beta. rewrite wraps_small by lia.
  replace (pad false 0 (decimal n)) with (decimal n); [done|]. unfold pad. by rewrite Nat.sub_0_l.
Qed.

Lemma printf_title w p s :
  cstr_at w p s → printf (str "%s:" ++ [10]) [AStr p] w = Ret tt (say w (s ++ str ":" ++ [10])).
Proof.
  intros Hp. apply (printf_one w [] (str "s") (str ":" ++ [10])); [by apply (bool_decide_unpack (37 ∉ _))..| |cbn; lia].
  rewrite say_nil. change (str "s" ++ _) with [115; 58; 10]. cbn [convert]. erewrite bind_ret by done. cbn beta iota.
  cbn [str_arg]. erewrite bind_ret by by apply read_cstr_eq. cbn beta.
  replace (pad false 0 s) with s; [done|]. unfold pad. by rewrite Nat.sub_0_l.
Qed.

Lemma room_mono N N' esz : 0 <= esz → N <= N' → room N esz <= room N' esz.
Proof. intros. unfold room. assert (Z.max DYNAMIC_DEFAULT_CAPACITY N * esz <= Z.max DYNAMIC_DEFAULT_CAPACITY N' * esz) by (apply Z.mul_le_mono_nonneg_r; lia). lia. Qed.

Lemma rd_room_mono N N' : N <= N' → rd_room N <= rd_room N'.
Proof.
  intros. unfold rd_room. pose proof (room_mono N N' 256). pose proof (room_mono N N' 1). pose proof (room_mono N N' 8). lia.
Qed.

(** The paths that are listed: the current directory when none is given. *)
Definition targets (names : list (list Z)) : list (list Z) :=
  match names with [] => [str "."] | _ => names end.

Section run.
Set Default Proof Using "All".
Context (w0 : world) (Na N width : Z) (flags : FLAGS) (lsf : ptr → ptr → FLAGS → M Z).
Hypothesis w0_wf : wf_world w0.
Hypothesis N_small : N < 2 ^ 31.
Hypothesis N_room : rd_room N < 2 ^ 63.
Hypothesis winsize : k_winsize (w_env w0) = Some width.
Hypothesis tolerant : k_strict (w_env w0) = false.

Lemma group_env u w l : group w0 Na u w l → w_env w = w_env w0.
Proof using Type. intros G. apply (grp_same _ _ _ _ _ G). Qed.

Lemma print_dir_group u w l path d :
  group w0 Na u w l → cstr_at w path d.1 → dir_ok (w_env w0) N flags width d → rd_room N + 24 * N <= w_avail w →
  wp (print_dir lsf path flags) (λ r w', r = 0 ∧ w_out w' = w_out w ++ dir_text flags width d.2 ∧ w_same ∅ w w' ∧
    group w0 Na (u + kept flags width d.2) w' l) w.
Proof.
  intros G Hp [Ho He Hw Hf Hc Hl] Hav. pose proof (group_wf _ _ w0_wf _ _ _ G) as Hwf.
  pose proof (group_env _ _ _ G) as Henv. unfold cells in Hc.
  assert (rd_room (Z.max (Z.of_nat (cells flags width d.2)) (len d.2)) <= rd_room N) as Hm
    by (apply rd_room_mono; unfold cells; lia).
  unfold cells in Hm.
  eapply wp_mono; [apply (print_dir_ok w lsf path d.1 flags d.2 width Hwf Hp); rewrite ?Henv; try done; try lia|].
  { by left. }
  cbn beta. intros r w' (-> & Ho' & Hs & Ha). split_and!; [done|done|done|].
  eapply (group_step w0 Na w0_wf); [exact G|exact Hs|set_solver|set_solver|exact Ha].
Qed.

(** The path buffer of [ls], beside the arrays [l] and the string [path]. *)
Record full_buf (w : world) (l : list garr) (path full : ptr) : Prop := FullBuf {
  fb_buf : is_buf w full;
  fb_fresh : ∀ b, b ∈ blk full → (w_next w0 ≤ b)%positive;
  fb_apart : ∀ a, a ∈ l → blk (g_ptr a) ## blk full;
  fb_path : blk path ## blk full }.

Lemma cstr_at_live w p s b : cstr_at w p s → b ∈ blk p → is_Some (w_heap w !! b).
Proof using Type. intros (c & o & bs & -> & _ & Hb & _) ->%elem_of_blk. by eexists. Qed.

Lemma concat_group u w l path full q s :
  group w0 Na u w l → cstr_at w path [] → cstr_at w q s → blk full ## blk q → full_buf w l path full →
  len s + 2 < 2 ^ 63 → len s + 2 <= w_avail w + buf_len w full →
  wp (concat_path path q full) (λ p w', cstr_at w' p s ∧ cstr_at w' path [] ∧ full_buf w' l path p ∧
    buf_len w' p = len s + 2 ∧ group w0 Na (u - buf_len w full + (len s + 2)) w' l ∧ w_out w' = w_out w) w.
Proof.
  intros G Hpath Hq Hdis [Hbuf Hfr Hap Hpd] Hn Hav. pose proof (group_wf _ _ w0_wf _ _ _ G) as Hwf.
  eapply wp_mono; [apply (concat_path_ok w path q full [] s); try done|].
  - set_solver.
  - right. by rewrite (group_env _ _ _ G).
  - cbn beta. intros p w' (Hc & Hp & Hb & Hl & Hs & Ho & Ha). change (path_join [] s) with s in Hc.
    change (len ([] : list Z)) with 0 in *. split_and!; [done| | |lia| |done].
    + eapply cstr_same; [exact Hs|done|done].
    + split; [done|rewrite Hp|rewrite Hp|rewrite Hp].
      * intros b ->%elem_of_singleton. apply (same_next _ _ _ (grp_same _ _ _ _ _ G)).
      * intros a Ha' b Hb' ->%elem_of_singleton. pose proof (grp_at _ _ _ _ _ G) as Hall.
        rewrite Forall_forall in Hall. eapply growing_live, Hwf in Hb'; [lia|by apply Hall].
      * intros b Hb' ->%elem_of_singleton. eapply cstr_at_live, Hwf in Hb'; [lia|done].
    + replace (u - buf_len w full + (len s + 2)) with (u + (len s + 2 - buf_len w full)) by lia.
      eapply (group_step w0 Na w0_wf); [exact G|exact Hs|done|done|]. rewrite Ha. cbn. lia.
Qed.

Lemma free_full u w l path full :
  group w0 Na u w l → full_buf w l path full →
  wp (free full) (λ _ w', group w0 Na (u - buf_len w full) w' l ∧ w_out w' = w_out w) w.
Proof.
  intros G [Hb Hfr Hap Hpd]. destruct full as [|b o]; cbn [buf_len].
  { eapply wp_eq; [done|]. by rewrite Z.sub_0_r. }
  destruct Hb as (-> & bs & Hb). rewrite Hb. cbn [fmap option_fmap option_map default from_option id].
  unfold free. eapply wp_eq; [by rewrite Hb|]. split; [|done]. fold (without w b (w_avail w + len bs)).
  replace (u - len bs) with (u + - len bs) by lia.
  eapply (group_step w0 Na w0_wf); [exact G|apply (w_same_without w b (w_avail w + len bs))|done|done|cbn; lia].
Qed.

Lemma dirs_get u w p (qs : list ptr) cap l i q :
  group w0 Na u w (Garr p (encptr <$> qs) 8 cap :: l) → qs !! i = Some q →
  ∃ a, dynamic_get p (Z.of_nat i) w = Ret a w ∧ load_ptr a w = Ret q w.
Proof.
  intros G Hi. pose proof (grp_at _ _ _ _ _ G) as [[Hat _ _] _]%Forall_cons.
  pose proof (ok_len _ (proj1 Hat)) as Hl. cbn in Hl, Hat. rewrite length_fmap in Hl.
  pose proof (lookup_lt_Some _ _ _ Hi).
  eexists. split; [eapply dynamic_get_spec; [exact Hat|cbn; lia]|].
  apply load_ptr_eq. eapply (reads_elem w p (Dyn (encptr <$> qs) cap 8)); [exact Hat|]. cbn. by rewrite list_lookup_fmap, Hi.
Qed.

(** The strings of [w0] are there in every later world, away from the path buffer. *)
Lemma old_string u w l path full q s :
  group w0 Na u w l → full_buf w l path full → cstr_at w0 q s → cstr_at w q s ∧ blk full ## blk q.
Proof.
  intros G Hf Hq. split.
  - eapply cstr_same; [apply (grp_same _ _ _ _ _ G)|set_solver|done].
  - intros b Hb Hb'. apply (fb_fresh _ _ _ _ Hf) in Hb. eapply cstr_at_live, w0_wf in Hb'; [lia|done].
Qed.

Lemma full_buf_same w w' l path p :
  w_same ∅ w w' → full_buf w l path p → full_buf w' l path p ∧ buf_len w' p = buf_len w p.
Proof.
  intros Hs [Hb Hfr Hap Hpd]. destruct p as [|b o]; [by split; [split|]|].
  destruct Hb as (-> & bs & Hb). assert (w_heap w' !! b = Some bs) as Hb'.
  { rewrite (same_heap _ _ _ Hs); [done|set_solver|by eexists]. }
  split; [split; try done|cbn [buf_len]; by rewrite Hb, Hb'].
Qed.

(** One turn of the loop, from the title on. *)
Lemma headed_ok K Q u w l path p d :
  group w0 Na u w l → cstr_at w path [] → full_buf w l path p → cstr_at w p d.1 →
  dir_ok (w_env w0) N flags width d → rd_room N + 24 * N <= w_avail w →
  (∀ w', group w0 Na (u + kept flags width d.2) w' l → cstr_at w' path [] → full_buf w' l path p →
     buf_len w' p = buf_len w p → w_out w' = w_out w ++ headed flags width d → wp K Q w') →
  wp (printf (str "%s:" ++ [10]) [AStr p];;
      err ← print_dir lsf p flags;
      if negb (err =? 0) then mret err else printf [10] [];; K) Q w.
Proof.
  intros G Hpath Hf Hp Hd Hav HK.
  eapply wp_step; [by apply printf_title|]. cbn beta. set (w2 := say w _).
  pose proof (group_put _ _ _ _ _ (d.1 ++ str ":" ++ [10]) w0_wf G) as G2. fold w2 in G2.
  apply wp_bind. eapply wp_mono; [by apply (print_dir_group _ w2 l p d G2)|]. cbn beta.
  intros r w3 (-> & Ho3 & Hs3 & G3). change (negb (0 =? 0)) with false. cbn iota.
  eapply wp_step; [apply printf_plain; by apply (bool_decide_unpack (37 ∉ _))|]. cbn beta.
  assert (w_same ∅ w (say w3 [10])) as Hs4.
  { rewrite <- (union_empty_l_L ∅). eapply w_same_trans; [apply (w_same_put w (d.1 ++ str ":" ++ [10]))|].
    rewrite <- (union_empty_l_L ∅). eapply w_same_trans; [exact Hs3|apply w_same_put]. }
  destruct (full_buf_same _ _ _ _ _ Hs4 Hf) as [Hf4 Hl4].
  apply HK; [by apply group_put| |done|done|].
  - eapply cstr_same; [exact Hs4|set_solver|done].
  - unfold say at 1. cbn [w_out]. rewrite Ho3. unfold w2, headed. cbn [say w_out]. by rewrite <- !(assoc_L (++)).
Qed.

Lemma zsum_pos {A} (f : A → Z) l : (∀ x, 0 <= f x) → 0 <= zsum f l.
Proof using Type. intros Hf. induction l as [|x l IH]; [done|]. rewrite zsum_cons. specialize (Hf x). lia. Qed.

Lemma kept_pos es : 0 <= kept flags width es.
Proof using Type. unfold kept. case_decide; lia. Qed.

Lemma ls_loop_ok path dirs qs cap ds L todo i u w full :
  let l := [Garr dirs (encptr <$> qs) 8 cap] in
  Forall2 (λ q d, cstr_at w0 q d.1) qs ds → Forall (dir_ok (w_env w0) N flags width) ds →
  Forall (λ d, len d.1 <= L) ds → L + 2 < 2 ^ 63 → 0 <= N → drop i ds = todo →
  group w0 Na u w l → cstr_at w path [] → full_buf w l path full →
  rd_room N + 24 * N + L + 2 + zsum (λ d, kept flags width d.2) todo <= w_avail w + buf_len w full →
  wp (ls_loop (print_dir lsf) (length todo) path dirs (Z.of_nat i) full flags) (λ r w', r = 0 ∧
    w_out w' = w_out w ++ concat (headed flags width <$> todo) ∧
    group w0 Na (u - buf_len w full + zsum (λ d, kept flags width d.2) todo) w' l) w.
Proof.
  intros l Hqs Hok HL HLr HN. revert i u w full. induction todo as [|d todo IH]; intros i u w full Hi G Hpath Hf Hav.
  { cbn [length ls_loop]. apply wp_bind. eapply wp_mono; [by eapply free_full|]. cbn beta. intros [] w1 [G1 Ho1].
    apply wp_ret. cbn. rewrite app_nil_r, Z.add_0_r. done. }
  assert (ds !! i = Some d) as Hd by by rewrite <- (Nat.add_0_r i), <- lookup_drop, Hi.
  assert (drop (S i) ds = todo) as Hi' by by rewrite <- Nat.add_1_r, <- drop_drop, Hi.
  destruct (Forall2_lookup_r _ _ _ _ _ Hqs Hd) as (q & Hq & Hqd).
  destruct (dirs_get _ _ _ _ _ _ _ _ G Hq) as (a & Ea & Eq).
  pose proof (Forall_lookup_1 _ _ _ _ Hok Hd) as Hdok. pose proof (Forall_lookup_1 _ _ _ _ HL Hd) as Hlen. cbn beta in Hlen.
  pose proof (zsum_pos (λ d, kept flags width d.2) todo (λ d, kept_pos d.2)) as Hz. pose proof (kept_pos d.2) as Hk.
  assert (0 <= rd_room N + 24 * N) as Hr0 by (unfold rd_room, room, sizeof_DYNAMIC, DYNAMIC_DEFAULT_CAPACITY; lia).
  rewrite zsum_cons in Hav |- *. cbn [length ls_loop].
  eapply wp_step; [exact Ea|]. cbn beta. eapply wp_step; [exact Eq|]. cbn beta.
  destruct (old_string _ _ _ _ _ _ _ G Hf Hqd) as [Hqw Hqf].
  apply wp_bind. eapply wp_mono; [apply (concat_group u w l path full q d.1 G Hpath Hqw Hqf Hf); lia|]. cbn beta.
  intros p w1 (Hp1 & Hpath1 & Hf1 & Hl1 & G1 & Ho1).
  pose proof (grp_avail _ _ _ _ _ G) as Ha0. pose proof (grp_avail _ _ _ _ _ G1) as Ha1.
  eapply (headed_ok _ _ _ w1 l path p d G1 Hpath1 Hf1 Hp1 Hdok); [lia|]. intros w4 G4 Hpath4 Hf4 Hl4 Ho4.
  pose proof (grp_avail _ _ _ _ _ G4) as Ha4. replace (Z.of_nat i + 1) with (Z.of_nat (S i)) by lia.
  eapply wp_mono; [apply (IH (S i) _ w4 p Hi' G4 Hpath4 Hf4); lia|].
  cbn beta. intros r w5 (-> & Ho5 & G5). rewrite Hl4, Hl1 in G5. split_and!; [done| |].
  - rewrite Ho5, Ho4, Ho1, fmap_cons. cbn [concat]. by rewrite <- (assoc_L (++)).
  - eapply (eq_rect _ (λ u, group w0 Na u w5 l) G5). lia.
Qed.

(** [ls] with one directory, from the moment the array holds it. *)
Lemma ls_single_ok (u := 0) w path dirs q cap d L :
  let l := [Garr dirs (encptr <$> [q]) 8 cap] in
  group w0 Na u w l → cstr_at w path [] → cstr_at w q d.1 → dir_ok (w_env w0) N flags width d → len d.1 <= L →
  L + 2 < 2 ^ 63 → 0 <= N → rd_room N + 24 * N + L + 2 <= w_avail w →
  wp (q ← dynamic_get dirs 0; d ← load_ptr q; full_path ← concat_path path d Null;
      err ← print_dir lsf full_path flags;
      if negb (err =? 0) then mret err else free full_path;; mret 0)
   (λ r w', r = 0 ∧ w_out w' = w_out w ++ dir_text flags width d.2 ∧
     group w0 Na (u + kept flags width d.2) w' l) w.
Proof.
  intros l G Hpath Hq Hd Hlen HL HN Hav.
  destruct (dirs_get _ _ _ _ _ _ 0 _ G eq_refl) as (a & Ea & Eq).
  eapply wp_step; [exact Ea|]. cbn beta. eapply wp_step; [exact Eq|]. cbn beta.
  assert (full_buf w l path Null) as Hf by (split; set_solver).
  assert (0 <= rd_room N + 24 * N) as Hr0 by (unfold rd_room, room, sizeof_DYNAMIC, DYNAMIC_DEFAULT_CAPACITY; lia).
  apply wp_bind. eapply wp_mono; [apply (concat_group u w l path Null q d.1 G Hpath Hq ltac:(set_solver) Hf); cbn; lia|].
  cbn beta. intros p w1 (Hp1 & Hpath1 & Hf1 & Hl1 & G1 & Ho1). cbn [buf_len] in G1.
  pose proof (grp_avail _ _ _ _ _ G) as Ha0. pose proof (grp_avail _ _ _ _ _ G1) as Ha1.
  apply wp_bind. eapply wp_mono; [apply (print_dir_group _ w1 l p d G1 Hp1 Hd); lia|]. cbn beta.
  intros r w2 (-> & Ho2 & Hs2 & G2). change (negb (0 =? 0)) with false. cbn iota.
  destruct (full_buf_same _ _ _ _ _ Hs2 Hf1) as [Hf2 Hl2].
  apply wp_bind. eapply wp_mono; [by eapply free_full|]. cbn beta. intros [] w3 [G3 Ho3].
  apply wp_ret. split_and!; [done|by rewrite Ho3, Ho2, Ho1|].
  rewrite Hl2, Hl1 in G3. eapply (eq_rect _ (λ u, group w0 Na u w3 l) G3). unfold u. lia.
Qed.

(** An empty array of paths gets the current directory, in place. *)
Lemma default_dir_ok {A} (K : ptr → M A) Q w path dirs cap :
  group w0 Na 0 w [Garr dirs [] 8 cap] → cstr_at w path [] → blk path ## blk dirs → 1 <= Na →
  room Na 8 < 2 ^ 63 → room Na 8 <= w_avail w0 →
  (∀ q cap' w', group w0 Na 0 w' [Garr dirs (encptr <$> [q]) 8 cap'] → cstr_at w' path [] → cstr_at w' q (str ".") →
     w_out w' = w_out w → wp (K dirs) Q w') →
  wp (dirs ← (dot ← literal (str "."); v ← new_block (encptr dot);
              dirs ← dynamic_insert dirs v; drop_block v;; mret dirs); K dirs) Q w.
Proof.
  intros G Hpath Hdis HNa Hr1 Hr2 HK. rewrite wp_assoc.
  pose proof (group_wf _ _ w0_wf _ _ _ G) as Hwf.
  destruct (scratch_new w0 Na w0_wf 0 w _ ((MByte <$> str ".") ++ [MByte 0]) G) as (E0 & G0 & S0 & Hs0).
  eapply wp_step; [exact E0|]. cbn beta. set (w1 := with_new w _ _) in *. set (dot := w_next w) in *.
  assert (cstr_at w1 (Ptr dot 0) (str ".")) as Hdot.
  { eexists _, _, _. split_and!; [done|done|apply S0|by repeat constructor|by eexists]. }
  rewrite wp_assoc.
  destruct (scratch_new w0 Na w0_wf 0 w1 _ (encptr (Ptr dot 0)) G0) as (E1 & G1 & S1 & Hs1).
  eapply wp_step; [exact E1|]. cbn beta. set (w2 := with_new w1 _ _) in *. set (v := w_next w1) in *.
  rewrite wp_assoc. apply wp_bind. eapply wp_mono.
  { eapply (wp_result _ _ (λ p', p' = dirs)).
    - eapply (group_insert w0 Na w0_wf 0 w2 _ 0 _ (Ptr v 0) (encptr (Ptr dot 0)) G1 eq_refl); try done.
      + cbn -[room]. lia.
      + eapply reads_in; [apply S1|lia|cbn; lia|by rewrite length_encptr|done].
      + intros b ->%elem_of_blk Hb. by apply (scr_apart _ _ _ _ _ S1 (Garr dirs [] 8 cap) ltac:(left)).
    - intros p' w' Ei. pose proof (grp_at _ _ _ _ _ G1) as [[Hat Hcap _] _]%Forall_cons.
      pose proof (ok_cap _ (proj1 Hat)) as Hc. cbn in *.
      eapply dynamic_insert_in_place; [exact Hat| |exact Ei]. cbn. unfold DYNAMIC_DEFAULT_CAPACITY in *. lia. }
  cbn beta. intros p' w3 [(cap' & G3 & Hs3 & Ho3 & _) ->]. cbn in G3, Hs3.
  pose proof (list_elem_of_here (Garr dirs [] 8 cap) []) as Hin.
  pose proof (scratch_insert w0 Na w0_wf 0 w2 w3 _ 0 (Garr dirs [] 8 cap) dirs [encptr (Ptr dot 0)] 8 cap' _ _ G1 S1
    eq_refl Hs3 (or_introl eq_refl)) as S3.
  destruct (scratch_drop w0 Na w0_wf 0 w3 _ v _ G3 S3) as (E4 & G4 & Hs4).
  rewrite wp_assoc. eapply wp_step; [exact E4|]. cbn beta. apply wp_bind, wp_ret. set (w4 := set_heap _ _) in *.
  assert (dot ≠ v) as Hne by (unfold dot, v, w1; cbn; lia).
  assert (∀ p s, cstr_at w1 p s → blk p ## blk dirs → cstr_at w4 p s) as Hkeep.
  { intros p s Hp Hd. eapply cstr_same; [exact Hs4| |].
    - intros b Hb ->%elem_of_singleton. eapply cstr_at_live in Hb; [|exact Hp].
      apply (group_wf _ _ w0_wf _ _ _ G0) in Hb. unfold v in Hb. lia.
    - eapply cstr_same; [exact Hs3|done|]. eapply cstr_same; [exact Hs1|set_solver|done]. }
  apply (HK (Ptr dot 0) cap' w4); [exact G4| | |exact Ho3].
  - apply Hkeep; [|done]. eapply cstr_same; [exact Hs0|set_solver|done].
  - apply Hkeep; [done|]. intros b ->%elem_of_blk Hb. by apply (scr_apart _ _ _ _ _ S0 _ Hin).
Qed.

Lemma dirs_size u w p (qs : list ptr) cap : group w0 Na u w [Garr p (encptr <$> qs) 8 cap] → dynamic_size p w = Ret (len qs) w.
Proof using Type.
  intros G. pose proof (grp_at _ _ _ _ _ G) as [[Hat _ _] _]%Forall_cons. apply dynamic_size_spec in Hat.
  cbn in Hat. by rewrite length_fmap in Hat.
Qed.

(** ** The whole of [ls] *)

Context (L : Z) (ds : list (list Z * list dirent)).
Local Notation total := (zsum (λ d, kept flags width d.2) ds).
Hypothesis N_pos : 0 <= N.
Hypothesis Na_pos : 1 <= Na.
Hypothesis Na_small : Na < 2 ^ 31.
Hypothesis Na_room : room Na 8 < 2 ^ 63.
Hypothesis L_small : L + 2 < 2 ^ 63.
Hypothesis ds_ok : Forall (dir_ok (w_env w0) N flags width) ds.
Hypothesis ds_short : Forall (λ d, len d.1 <= L) ds.
Hypothesis w0_room : room Na 8 + rd_room N + 24 * N + L + 2 + total <= w_avail w0.

(** From the count on, when the array holds the directories [ds]. *)
Lemma count_ok w path dirs qs cap :
  let l := [Garr dirs (encptr <$> qs) 8 cap] in
  group w0 Na 0 w l → cstr_at w path [] → (length qs = 1%nat → Forall2 (λ q d, cstr_at w q d.1) qs ds) →
  (length qs ≠ 1%nat → Forall2 (λ q d, cstr_at w0 q d.1) qs ds) →
  wp (count ← dynamic_size dirs;
      printf (str "count = %ld" ++ [10]) [AInt count];;
      if count =? 1 then
        q ← dynamic_get dirs 0;
        d ← load_ptr q;
        full_path ← concat_path path d Null;
        err ← print_dir lsf full_path flags;
        if negb (err =? 0) then mret err
        else free full_path;; mret 0
      else ls_loop (print_dir lsf) (Z.to_nat count) path dirs 0 Null flags)
    (λ r w', r = 0 ∧ w_out w' = w_out w ++ ls_text flags width ds ∧ group w0 Na total w' l) w.
Proof.
  intros l G Hpath H1 H2.
  pose proof (zsum_pos (λ d, kept flags width d.2) ds (λ d, kept_pos d.2)) as Hz.
  pose proof (grp_at _ _ _ _ _ G) as [[_ _ Hlen] _]%Forall_cons. cbn in Hlen. rewrite length_fmap in Hlen.
  assert (length qs = length ds) as Hl.
  { destruct (decide (length qs = 1%nat)) as [E|E]; [apply H1 in E|apply H2 in E]; by eapply Forall2_length. }
  assert (rd_room N + 24 * N + L + 2 + total <= w_avail w) as Hav.
  { rewrite (grp_avail _ _ _ _ _ G). pose proof (group_total _ _ _ _ _ G) as Ht. unfold l in *. cbn -[room] in *. lia. }
  eapply wp_step; [by eapply dirs_size|]. cbn beta.
  eapply wp_step; [apply printf_count; lia|]. cbn beta. set (w1 := say w _).
  pose proof (group_put _ _ _ _ _ (str "count = " ++ decimal (len qs) ++ [10]) w0_wf G) as G1. fold w1 in G1.
  assert (cstr_at w1 path []) as Hpath1 by (eapply cstr_same; [apply w_same_put|set_solver|done]).
  destruct (Z.eqb_spec (len qs) 1) as [E|E].
  - assert (length qs = 1%nat) as E1 by lia. specialize (H1 E1). clear H2.
    destruct qs as [|q [|]]; [done| |done]. destruct ds as [|d [|]]; [done| |done].
    apply Forall2_cons in H1 as [Hq _]. apply Forall_cons in ds_ok as [Hd1 _], ds_short as [Hd2 _].
    rewrite zsum_cons in Hav, Hz |- *. cbn [zsum foldr] in Hav, Hz |- *.
    eapply wp_mono; [apply (ls_single_ok w1 path dirs q cap d L G1 Hpath1); try done; unfold w1; cbn [say w_avail]; lia|].
    cbn beta. intros r w' (-> & Ho & G'). split_and!; [done| |by rewrite Z.add_0_r].
    rewrite Ho. unfold w1, ls_text. cbn [say w_out]. by rewrite <- !(assoc_L (++)).
  - specialize (H2 ltac:(lia)). clear H1. rewrite Nat2Z.id, Hl.
    eapply wp_mono; [apply (ls_loop_ok path dirs qs cap ds L ds 0 0 w1 Null); try done|].
    + unfold w1. cbn [say w_avail buf_len]. lia.
    + cbn beta. cbn [buf_len]. rewrite Z.sub_0_r, Z.add_0_l. intros r w' (-> & Ho & G'). split_and!; [done| |done].
      rewrite Ho. unfold w1, ls_text. cbn [say w_out]. destruct ds as [|d [|d' ds']]; [|cbn in Hl; lia|];
        by rewrite Hl, <- !(assoc_L (++)).
Qed.

Lemma ls_dirs_ok w path dirs qs cap names :
  group w0 Na 0 w [Garr dirs (encptr <$> qs) 8 cap] → Forall2 (cstr_at w0) qs names → ds.*1 = targets names →
  cstr_at w path [] → blk path ## blk dirs →
  wp (ls_dirs lsf path dirs flags) (λ r w', r = 0 ∧ w_out w' = w_out w ++ ls_text flags width ds ∧
    ∃ qs' cap', group w0 Na total w' [Garr dirs (encptr <$> qs') 8 cap']) w.
Proof.
  intros G Hqs Hds Hpath Hdis. unfold ls_dirs.
  eapply wp_step; [by eapply dirs_size|]. cbn beta.
  destruct qs as [|q qs].
  - apply Forall2_nil_inv_l in Hqs as ->. change (len [] =? 0) with true. cbn iota.
    eapply default_dir_ok; [exact G|done|done|done|done| |].
    { pose proof (zsum_pos (λ d, kept flags width d.2) ds (λ d, kept_pos d.2)).
      assert (0 <= rd_room N) by (unfold rd_room, room, sizeof_DYNAMIC, DYNAMIC_DEFAULT_CAPACITY; lia). 
      destruct ds as [|d ds']; [done|]. apply Forall_cons in ds_short as [? _]. lia. }
    intros q cap' w' G' Hpath' Hq Ho. rewrite <- Ho.
    eapply wp_mono; [apply (count_ok w' path dirs [q] cap' G' Hpath'); [|done]|].
    + intros _. destruct ds as [|d [|]]; try done. cbn in Hds. injection Hds as Hd. constructor; [by rewrite Hd|done].
    + cbn beta. intros r w2 (-> & Ho2 & G2). eauto.
  - rewrite (proj2 (Z.eqb_neq _ _)) by (cbn; lia). eapply wp_step; [done|]. cbn beta.
    destruct names as [|s names]; [by apply Forall2_nil_inv_r in Hqs|].
    assert (Forall2 (λ q d, cstr_at w0 q d.1) (q :: qs) ds) as Hqd.
    { cbn [targets] in Hds. rewrite <- Hds in Hqs. exact (proj1 (Forall2_fmap_r _ _ _ _) Hqs). }
    eapply wp_mono; [apply (count_ok w path dirs (q :: qs) cap G Hpath); [|done]|].
    + intros _. eapply Forall2_impl; [exact Hqd|]. intros x d Hx. eapply cstr_same; [apply (grp_same _ _ _ _ _ G)|set_solver|done].
    + cbn beta. intros r w2 (-> & Ho2 & G2). eauto.
Qed.
End run.


Definition HIDE_CURSOR : list Z := ESC :: str "[?25l".
Definition SHOW_CURSOR : list Z := ESC :: str "[?25h".

(** [main] up to the argument loop, for every way the loop can end. *)
Lemma main_args_ok w argv args {A} (K : option (FLAGS * ptr) → M A) Q :
  let Na := Z.max 1 (len args) in
  wf_world w → argv_at w argv args → room Na 8 < 2 ^ 63 → room Na 8 <= w_avail w →
  (∀ r w1, w_out w1 = w_out w → w_same ∅ w w1 →
    match parse_args (tail args) default_flags with
    | None => r = None
    | Some (f, names) => ∃ paths qs cap, r = Some (f, paths) ∧
        group w Na 0 w1 [Garr paths (encptr <$> qs) 8 cap] ∧ Forall2 (cstr_at w) qs names
    end → wp (K r) Q w1) →
  wp (paths ← dynamic 8 0; r ← args_loop (Z.to_nat (len args - 1)) argv 1 default_flags paths; K r) Q w.
Proof.
  intros Na Hwf Ha Hr Hav HK.
  apply wp_bind. eapply wp_mono; [apply (group_new w Na Hwf 0 w [] 8 (group_nil w Na)); cbn -[room]; lia|].
  cbn beta. intros paths w1 [G Ho]. replace (Z.to_nat (len args - 1)) with (length (tail args)) by (destruct args; cbn; lia).
  apply wp_bind. eapply wp_mono.
  { apply (args_loop_ok w Na argv args Hwf Hr Hav Ha (tail args) 1 default_flags paths [] DYNAMIC_DEFAULT_CAPACITY w1);
      [by destruct args|exact G|unfold Na; destruct args; cbn [tail length]; lia]. }
  cbn beta. intros r w2 (Ho2 & Hs2 & Hp). apply HK; [by rewrite Ho2|done|].
  destruct (parse_args (tail args) default_flags) as [[f names]|]; [|done].
  destruct Hp as (p & qs & cap & -> & G2 & Hf). by exists p, qs, cap.
Qed.

(** C3. [ls] from [main] on: for a command line whose options are known, on directories that
    the kernel can read and that fit the terminal, without recursion into subdirectories,
    with memory for the arrays and over-reads tolerated, [main] returns 0 and writes, between
    hiding and showing the cursor, the count of directories and their listings ([ls_text]);
    the current directory is listed when no path is given; what existed before is unchanged,
    and all the memory is given back except the index map of each directory. *)
Theorem main_lists w argv args flags names ds width N L fuel :
  let Na := Z.max 1 (len args) in
  let total := zsum (λ d, kept flags width d.2) ds in
  wf_world w → argv_at w argv args → parse_args (tail args) default_flags = Some (flags, names) →
  ds.*1 = targets names → Forall (dir_ok (w_env w) N flags width) ds → Forall (λ d, len d.1 <= L) ds →
  k_winsize (w_env w) = Some width → k_strict (w_env w) = false →
  0 <= N < 2 ^ 31 → rd_room N < 2 ^ 63 → Na < 2 ^ 31 → L + 2 < 2 ^ 63 →
  room Na 8 + rd_room N + 24 * N + L + 2 + total <= w_avail w →
  wp (main (S fuel) (len args) argv) (λ r w', r = 0 ∧
    w_out w' = w_out w ++ HIDE_CURSOR ++ ls_text flags width ds ++ SHOW_CURSOR ∧
    w_same ∅ w w' ∧ w_avail w' = w_avail w - total) w.
Proof.
  intros Na total Hwf Ha Hp Hds Hok HL Hwin Hst HN Hrd HNa HLs Hav.
  assert (1 <= Na) as HNa1 by (unfold Na; lia).
  assert (room Na 8 < 2 ^ 63 ∧ room Na 8 <= w_avail w) as [Hr1 Hr2].
  { pose proof (zsum_pos (λ d, kept flags width d.2) ds) as Hz. fold total in Hz.
    assert (0 <= total) by (apply Hz; intros; unfold kept; case_decide; lia).
    assert (0 <= rd_room N) by (unfold rd_room, room, sizeof_DYNAMIC, DYNAMIC_DEFAULT_CAPACITY; lia).
    assert (0 <= L). { destruct ds as [|d ds']; [by destruct names|]. apply Forall_cons in HL as [? _]. lia. }
    unfold room, sizeof_DYNAMIC, DYNAMIC_DEFAULT_CAPACITY in *. lia. }
  unfold main. apply main_args_ok; [done..|]. intros r w1 Ho1 Hs1. rewrite Hp. intros (paths & qs & cap & -> & G1 & Hqs).
  fold Na in G1. cbn beta iota.
  eapply wp_step; [apply printf_plain; by apply (bool_decide_unpack (37 ∉ _))|]. cbn beta.
  pose proof (group_put _ _ _ _ _ HIDE_CURSOR Hwf G1) as G2.
  destruct (scratch_new w Na Hwf 0 _ _ ((MByte <$> []) ++ [MByte 0]) G2) as (E3 & G3 & S3 & _).
  set (w2 := say w1 HIDE_CURSOR) in *. set (w3 := with_new w2 _ _) in *.
  eapply wp_step; [exact E3|]. cbn beta. cbn [ls]. rewrite (parse_args_list _ _ _ _ Hp). cbn [list_ default_flags].
  apply wp_bind. eapply wp_mono.
  { eapply (ls_dirs_ok w Na N width flags (ls fuel)) with (ds := ds) (L := L); try done; try lia.
    - eexists _, _, _. split_and!; [done|done|apply S3|by constructor|by eexists].
    - intros b ->%elem_of_blk Hb. by eapply (scr_apart _ _ _ _ _ S3); [left|]. }
  cbn beta. intros r w4 (-> & Ho4 & qs' & cap' & G4). change (negb (0 =? 0)) with false. cbn iota.
  eapply wp_step; [done|]. cbn beta.
  eapply wp_step; [apply printf_plain; by apply (bool_decide_unpack (37 ∉ _))|]. cbn beta.
  pose proof (group_put _ _ _ _ _ SHOW_CURSOR Hwf G4) as G5.
  apply wp_bind. eapply wp_mono; [apply (group_free w Na Hwf _ _ [] _ [] G5)|]. cbn beta. intros [] w6 (G6 & Ho6 & _).
  apply wp_ret. split_and!; [done| |apply G6|].
  - rewrite Ho6. cbn [say w_out]. rewrite Ho4. change (w_out w3) with (w_out w1 ++ HIDE_CURSOR). rewrite Ho1.
    by rewrite <- !(assoc_L (++)).
  - rewrite (grp_avail _ _ _ _ _ G6). cbn [app zsum foldr]. fold total. lia.
Qed.

(** A long option that [ls] does not know makes [main] return 7 before it prints anything. *)
Theorem main_rejects w argv args fuel :
  let Na := Z.max 1 (len args) in
  wf_world w → argv_at w argv args → parse_args (tail args) default_flags = None →
  room Na 8 < 2 ^ 63 → room Na 8 <= w_avail w →
  wp (main fuel (len args) argv) (λ r w', r = 7 ∧ w_out w' = w_out w ∧ w_same ∅ w w') w.
Proof.
  intros Na Hwf Ha Hp Hr Hav. unfold main. apply main_args_ok; [done..|]. intros r w1 Ho Hs. rewrite Hp. intros ->.
  by apply wp_ret.
Qed.

(** [ls -r sub .] on a terminal of 20 columns. *)
Definition tree_env : kenv :=
  Kenv (λ p, if decide (p = str ".") then Some small_dir
             else if decide (p = str "sub") then Some [Dirent (str "x") 8 21; Dirent (str "y") DT_LNK 22] else None)
    (Some 20) false (λ _ _, 7).

Definition tree_args : list (list Z) := [str "ls"; str "-r"; str "sub"; str "."].

Lemma main_lists_witness :
  wp (main 1 4 (Ptr 1 0)) (λ r w', r = 0 ∧ w_avail w' = 65536 - 72 ∧
    w_out w' = ESC :: str "[?25lcount = 2" ++ [10] ++ str "sub:" ++ [10] ++
      ESC :: str "[0;96my  " ++ ESC :: str "[0mx  " ++ ESC :: str "[0m  " ++ ESC :: str "[0m  " ++ ESC :: str "[0m  " ++
      ESC :: str "[0m  " ++ [10] ++ RESET ++ [10] ++ str ".:" ++ [10] ++
      ESC :: str "[0mnotes.txt  " ++ [10] ++ ESC :: str "[0;34mbin        " ++ [10] ++ ESC :: str "[0ma.c        " ++ [10] ++ RESET ++
      [10; 10] ++ ESC :: str "[?25h") (argv_world tree_env tree_args).
Proof.
  eapply wp_mono.
  - apply (main_lists (argv_world tree_env tree_args) (Ptr 1 0) tree_args (set_reverse default_flags) [str "sub"; str "."]
      [(str "sub", [Dirent (str "x") 8 21; Dirent (str "y") DT_LNK 22]); (str ".", small_dir)] 20 8 3 0).
    + apply argv_world_wf.
    + intros i a Hi. exists (Ptr (Pos.of_nat (i + 2)) 0). do 4 (destruct i as [|i];
        [injection Hi as <-; split; [by vm_compute|];
         eexists _, _, _; split_and!; [done|done|reflexivity|by repeat constructor|by eexists]|]).
      done.
    + done.
    + done.
    + repeat constructor; cbn [fst snd]; try (by vm_compute); try (by left).
    + repeat constructor; done.
    + done.
    + done.
    + done.
    + by vm_compute.
    + done.
    + done.
    + by vm_compute.
  - intros r w' (-> & Ho & _ & Ha). split_and!; [done|rewrite Ha; by vm_compute|]. rewrite Ho. by vm_compute.
Defined.

Lemma main_rejects_witness :
  let args := [str "ls"; str "x"; str "--all"] in
  wp (main 1 3 (Ptr 1 0)) (λ r w', r = 7 ∧ w_out w' = []) (argv_world tree_env args).
Proof.
  intros args. eapply wp_mono.
  - apply (main_rejects (argv_world tree_env args) (Ptr 1 0) args 1).
    + apply argv_world_wf.
    + intros i a Hi. exists (Ptr (Pos.of_nat (i + 2)) 0). do 3 (destruct i as [|i];
        [injection Hi as <-; split; [by vm_compute|];
         eexists _, _, _; split_and!; [done|done|reflexivity|by repeat constructor|by eexists]|]).
      done.
    + done.
    + by vm_compute.
    + by vm_compute.
  - by intros r w' (-> & -> & _).
Defined.

(** [ls] given an array whose first address is in a block that is gone. *)
Lemma ls_dead_dir w0 N u w l i fuel path s dirs ds cap b o flags :
  group w0 N u w l → l !! i = Some (Garr dirs ds 8 cap) → head ds = Some (encptr (Ptr b o)) → w_heap w !! b = None →
  cstr_at w path s → list_ flags = false → ls (S fuel) path dirs flags w = Stuck UseAfterFree.
Proof.
  intros G Hi Hd Hb Hp Hlist. cbn [ls]. rewrite Hlist. unfold ls_dirs.
  pose proof (Forall_lookup_1 _ _ _ _ (grp_at _ _ _ _ _ G) Hi) as [Hat _ _]. cbn in Hat.
  pose proof (proj1 Hat) as Hok. pose proof (ok_len _ Hok) as Hl. pose proof (ok_bytes _ Hok) as Hf. cbn [d_cap d_elems d_esz] in Hl, Hf.
  destruct ds as [|d ds]; [done|]. assert (d = encptr (Ptr b o)) as -> by by injection Hd.
  assert (0 < len (encptr (Ptr b o) :: ds) < 2 ^ 63) as Hn.
  { cbn [length] in Hl |- *. unfold sizeof_DYNAMIC in Hf. lia. }
  erewrite bind_ret by exact (group_size _ _ _ _ _ _ _ G Hi). cbn [g_elems].
  rewrite (proj2 (Z.eqb_neq _ _)) by lia. rewrite (bind_ret _ _ _ dirs w) by done.
  erewrite bind_ret by exact (group_size _ _ _ _ _ _ _ G Hi). cbn [g_elems].
  erewrite bind_ret by (apply printf_count; lia). set (w1 := say w _). cbn beta.
  assert (dynamic_get dirs 0 w1 = Ret (elem_ptr dirs (Dyn (encptr (Ptr b o) :: ds) cap 8) 0) w1) as Eget.
  { apply dynamic_get_spec; [eapply dyn_at_same; [apply w_same_put|set_solver|exact Hat]|cbn; lia]. }
  assert (load_ptr (elem_ptr dirs (Dyn (encptr (Ptr b o) :: ds) cap 8) 0) w1 = Ret (Ptr b o) w1) as Eptr.
  { apply load_ptr_eq. eapply reads_same; [apply w_same_put|set_solver|]. by eapply (reads_elem w dirs (Dyn (encptr (Ptr b o) :: ds) cap 8) 0). }
  assert (∀ buf, concat_path path (Ptr b o) buf w1 = Stuck UseAfterFree) as Epath.
  { intros buf. unfold concat_path. erewrite bind_ret by (eapply strlen_eq, cstr_same; [apply w_same_put|set_solver|exact Hp]).
    apply bind_stuck. unfold strlen. apply bind_stuck. unfold read_cstr, w1. cbn [w_heap say]. by rewrite Hb. }
  destruct (_ =? 1).
  - erewrite bind_ret by exact Eget. erewrite bind_ret by exact Eptr. by erewrite bind_stuck.
  - destruct (Z.to_nat _) as [|n] eqn:En; [lia|]. cbn [ls_loop].
    erewrite bind_ret by exact Eget. erewrite bind_ret by exact Eptr. by erewrite bind_stuck.
Qed.

(** C40. [ls -R] reads a dead address in every directory whose array of names grows after a
    subdirectory was found: for a readable directory that [print_dir] would list (the terminal is
    wide enough, there is memory, over-reads are tolerated or not needed), when there is a
    subdirectory among the visible entries, the first one after [i] others, and the names with
    their padding are more than twice [i] and one, and more than the 32 the array starts with,
    then the recursion of [print_dir] uses memory that [dynamic_insert] gave back. *)
Theorem ls_recursive_dangles fuel w path name flags es width :
  let ents := listed flags es in
  let colums := columns_for width ents in
  let size := (colums * lines_for colums (length ents))%nat in
  let N := Z.max (Z.of_nat size) (len es) in
  wf_world w → cstr_at w path name → k_opendir (w_env w) name = Some es → Forall entry_ok es →
  k_winsize (w_env w) = Some width → longest ents + 2 <= width < 65536 →
  k_strict (w_env w) = false ∨ size = length ents →
  Z.of_nat size < 2 ^ 31 → rd_room N < 2 ^ 63 → rd_room N + 24 * Z.of_nat size <= w_avail w →
  recursive flags = true → list_ flags = false → filter (λ e, is_subdir e = true) ents ≠ [] →
  Z.max DYNAMIC_DEFAULT_CAPACITY (2 * subdir_index ents + 1) < Z.of_nat size →
  print_dir (ls (S fuel)) path flags w = Stuck UseAfterFree.
Proof.
  intros ents colums size N Hwf Hp Hk Hes Hwin Hwidth Htol Hsize Hroom Hav Hrec Hlist Hsub Hgrow.
  assert (0 <= N ∧ len es <= N ∧ Z.of_nat size <= N) as (HN0 & HN1 & HN2) by (unfold N; lia). clearbody N.
  destruct (wp_inv _ _ _ (read_dir_spec w N flags Hwf HN0 Hroom ltac:(lia) path name es Hp Hk Hes HN1))
    as (o & w1 & E & r & -> & ds & c0 & c1 & c2 & c3 & G & Hds & Hm & _ & _ & Hfirst).
  fold ents in G, Hds, Hm, Hfirst. unfold print_dir. erewrite bind_ret by exact E. cbn beta iota.
  pose proof (grp_at _ _ _ _ _ G) as Hall. apply Forall_cons in Hall as [Hn Hall]. apply Forall_cons in Hall as [Ht _].
  rewrite !decide_False.
  2:{ destruct Ht as [(_ & b & slack & Eb & _) _ _]. cbn in Eb. by rewrite Eb. }
  2:{ destruct Hn as [(_ & b & slack & Eb & _) _ _]. cbn in Eb. by rewrite Eb. }
  erewrite bind_ret by apply (group_size w N 0 w1 _ 0 _ G eq_refl). cbn [g_elems]. rewrite length_fmap.
  assert (0 < length ents)%nat by (destruct ents; [done|cbn; lia]).
  rewrite (proj2 (Z.eqb_neq _ _)) by lia.
  pose proof (listed_ok flags es Hes) as Hok. fold ents in Hok.
  rewrite print_entries_split.
  destruct (wp_inv _ _ _ (print_columns_ok w N (ls (S fuel)) path flags width ents Hwf Hroom HN2 Hav Hok ltac:(done) Hwin Hwidth Hsize Htol
    w1 r ds c0 c1 c2 c3 G Hm)) as (np & w2 & E2 & c0' & G2 & _ & Htr).
  erewrite bind_ret by exact E2. unfold recurse. rewrite Hrec.
  erewrite bind_ret by apply (group_size w N _ w2 _ 1 _ G2 eq_refl). cbn [g_elems].
  destruct (head ds) as [v|] eqn:Ehd.
  2:{ destruct ds; [|done]. destruct (filter _ ents); done. }
  destruct (Hfirst v Ehd) as (b & o & -> & Hb%Htr).
  assert (w_heap w2 !! b = None) as Hdead.
  { destruct Hb as [_ [Hd|[_ Hc]]]; [done|].
    pose proof (Forall_lookup_1 _ _ 0 _ (grp_at _ _ _ _ _ G2) eq_refl) as [[Hok2 _] _ _].
    pose proof (ok_len _ Hok2) as Hl. cbn in Hl. rewrite length_fmap in Hl.
    destruct (count_size w N (ls (S fuel)) path flags width ents Hwf Hroom HN2 Hav Hok ltac:(done) Hwin Hwidth Hsize Htol) as [Hcs _].
    destruct (padded_names_ok ents size Hok Hcs) as (_ & _ & Hln). fold colums size in Hl. lia. }
  assert (0 < len ds) by (destruct ds; [done|cbn [length]; lia]).
  rewrite (proj2 (Z.ltb_lt _ _)) by done. cbn [andb].
  apply bind_stuck. eapply (ls_dead_dir w N _ w2 _ 1); [exact G2|done|exact Ehd|exact Hdead| |exact Hlist].
  eapply cstr_same; [apply (grp_same _ _ _ _ _ G2)|set_solver|exact Hp].
Qed.

(** A directory whose first entry is a subdirectory, followed by 32 files. *)
Definition big_dir : list dirent :=
  Dirent (str "d") DT_DIR 1 :: ((λ i, Dirent (str "f" ++ decimal i) 8 (i + 2)) <$> seqZ 0 32).

Definition big_env : kenv :=
  Kenv (λ p, if decide (p = str ".") then Some big_dir else if decide (p = str "./d") then Some [] else None)
    (Some 80) false (λ _ _, 7).

Definition big_world : world := World {[1%positive := (MByte <$> str ".") ++ [MByte 0]]} 2 65536 [] big_env.

Lemma ls_recursive_dangles_witness :
  print_dir (ls 1) (Ptr 1 0) (set_recursive default_flags) big_world = Stuck UseAfterFree.
Proof.
  apply (ls_recursive_dangles 0 big_world (Ptr 1 0) (str ".") (set_recursive default_flags) big_dir 80).
  - apply small_world_wf.
  - exists 1%positive, 0, ((MByte <$> str ".") ++ [MByte 0]).
    split_and!; [done|done|done|by repeat constructor|by exists []].
  - done.
  - apply (bool_decide_unpack _). by vm_compute.
  - done.
  - by vm_compute.
  - by left.
  - by vm_compute.
  - by vm_compute.
  - by vm_compute.
  - done.
  - done.
  - by vm_compute.
  - by vm_compute.
Defined.

(** [ls -R] of the same directory from [main]. *)
Example main_recursive_dangles :
  main 3 2 (Ptr 1 0) (argv_world big_env [str "ls"; str "-R"]) = Stuck UseAfterFree.
Proof. by vm_compute. Qed.
