(* ===== verification/Programs.v ===== *)
(** * Programs: [cat], [mount], [cd] and [init]

    These programs are sequences of system calls.  The kernel is a parameter: a type of
    kernel states with the calls as functions on it ([Kernel]); what [cat] relies on in
    [open], [read] and [write] is stated by [FileLaws].  A computation threads the memory
    and the kernel state; a string argument is read from memory at the call, as the kernel
    does. *)

From S2P Require Import Prelude Mem Logic CStr Utils UtilsSpec.
Local Open Scope Z_scope.

(** A command of the program to the kernel, with what [init] needs beside files: [None]
    from [sys_execl] means that the process image was replaced. *)
Class Kernel (K : Type) := {
  sys_open : list Z → Z → K → Z * K;
  sys_read : Z → Z → K → Z * list Z * K;
  sys_write : Z → list Z → K → Z * K;
  sys_mount : option (list Z) → option (list Z) → option (list Z) → Z → K → Z * K;
  sys_chdir : list Z → K → Z * K;
  sys_setsid : K → Z * K;
  sys_system : list Z → K → Z * K;
  sys_dup2 : Z → Z → K → Z * K;
  sys_close : Z → K → Z * K;
  sys_ioctl_ctty : Z → Z → K → Z * K;
  sys_ioctl_winsize : Z → Z → Z → K → Z * K;
  sys_execl : list Z → list (list Z) → K → option Z * K }.

(** Computations over the memory and a kernel state. *)
Definition SM (K A : Type) : Type := K → M (A * K).

#[export] Instance SM_ret K : MRet (SM K) := λ A a k, mret (a, k).
#[export] Instance SM_bind K : MBind (SM K) := λ A B f m k, '(a, k) ← m k; f a k.

Section programs.
Context {K : Type} `{!Kernel K}.

Definition lift {A} (m : M A) : SM K A := λ k, a ← m; mret (a, k).
Definition call {A} (f : K → A * K) : SM K A := λ k, mret (f k).

Definition read_opt (p : ptr) : M (option (list Z)) :=
  match p with Null => mret None | _ => s ← read_cstr p; mret (Some s) end.

(** ** [cat] *)

Definition bufsize : Z := 4096.

(** [read (fd, buf, n)]: the bytes the kernel delivers are stored in the buffer. *)
Definition read (fd : Z) (buf : ptr) (n : Z) : SM K Z :=
  '(r, bs) ← call (sys_read fd n);
  lift (store_bytes buf (MByte <$> bs));;
  mret r.

Definition write (fd : Z) (buf : ptr) (n : Z) : SM K Z :=
  bs ← lift (vs ← load_bytes buf n; bytes_val buf vs);
  call (sys_write fd bs).

Fixpoint cat_loop (fuel : nat) (fd : Z) (buf : ptr) : SM K Z :=
  match fuel with
  | O => lift (stuck NoFuel)
  | S fuel =>
    r ← read fd buf bufsize;
    let n_read := i32 r in
    if n_read <? 0 then mret 3
    else if n_read =? 0 then mret 0
    else write 1 buf n_read;; cat_loop fuel fd buf
  end.

Definition cat (fuel : nat) (argc : Z) (argv : ptr) : SM K Z :=
  if argc <? 2 then mret 1
  else
    p ← lift (arg argv 1);
    path ← lift (read_cstr p);
    fd ← call (sys_open path 0);
    if fd <? 0 then mret 2
    else
      buf ← lift (new_block (replicate (Z.to_nat bufsize) MUndef));
      r ← cat_loop fuel fd buf;
      lift (drop_block buf);;
      mret r.

(** ** [mount] *)

Definition mount (argc : Z) (argv : ptr) : SM K Z :=
  count ← lift (count_initial_flags argc argv);
  if i32 count =? 0 then mret 1
  else if i32 count =? 1 then
    s ← lift (arg argv 1);
    c1 ← lift (load_u8 (padd s 1));
    c2 ← (if c1 =? 116 then lift (load_u8 (padd s 2)) else mret 1);
    if (c1 =? 116) && (c2 =? 0) then
      if argc <? 4 then mret 1
      else
        source ← lift (p ← arg argv 3; read_opt p);
        target ← lift (p ← arg argv 4; read_opt p);
        fstype ← lift (p ← arg argv 2; read_opt p);
        call (sys_mount source target fstype 0)
    else mret 1
  else mret 1.

(** ** [cd] *)

Definition cd (argc : Z) (argv : ptr) : SM K Z :=
  (if 1 <? argc then
     p ← lift (arg argv 1);
     path ← lift (read_cstr p);
     call (sys_chdir path)
   else call (sys_chdir (str "/")));;
  mret 0.

(** ** [init] *)

Definition O_RDWR : Z := 2.

(** [None]: the shell runs in place of [init]. *)
Definition init : SM K (option Z) :=
  call sys_setsid;;
  call (sys_system (str "mount -t proc proc /proc"));;
  call (sys_system (str "mount -t sysfs sysfs /sys"));;
  call (sys_system (str "mount -t devtmpfs devtmpfs /dev"));;
  fd ← call (sys_open (str "/dev/ttyS0") O_RDWR);
  call (sys_dup2 fd 0);;
  call (sys_dup2 fd 1);;
  call (sys_dup2 fd 2);;
  (if 2 <? fd then call (sys_close fd) else mret 0);;
  call (sys_ioctl_ctty 0 1);;
  call (sys_ioctl_winsize 0 (24 * 2) (80 * 2));;
  r ← call (sys_execl (str "/bin/sh") [str "/bin/sh"]);
  match r with None => mret None | Some _ => mret (Some 0) end.
End programs.
