(* ===== verification/ProgramsSpec.v ===== *)
(** * ProgramsSpec: what [cat], [mount], [cd] and [init] ask of the kernel *)

From S2P Require Import Prelude Mem Logic Region CStr Utils UtilsSpec Programs.
Local Open Scope Z_scope.

Section sm.
Context {K : Type}.

Lemma wp_sm_bind {A B} (m : SM K A) (f : A → SM K B) (Q : B * K → world → Prop) k w :
  wp (m k) (λ r w', wp (f r.1 r.2) Q w') w → wp ((m ≫= f) k) Q w.
Proof.
  intros H. unfold mbind, SM_bind. apply wp_bind. eapply wp_mono; [exact H|]. by intros [a k'] w'.
Qed.

Lemma wp_sm_ret {A} (a : A) (Q : A * K → world → Prop) k w : Q (a, k) w → wp ((mret a : SM K A) k) Q w.
Proof. done. Qed.

Lemma wp_lift {A} (m : M A) (Q : A * K → world → Prop) k w : wp m (λ a w', Q (a, k) w') w → wp (lift m k) Q w.
Proof. intros H. unfold lift. apply wp_bind. eapply wp_mono; [exact H|]. by intros a w'. Qed.

Lemma wp_call {A} (f : K → A * K) (Q : A * K → world → Prop) k w : Q (f k) w → wp (call f k) Q w.
Proof. done. Qed.

(** A step that only reads memory. *)
Lemma wp_lift_eq {A B} (m : M A) (f : A → SM K B) (Q : B * K → world → Prop) k w a :
  m w = Ret a w → wp (f a k) Q w → wp ((lift m ≫= f) k) Q w.
Proof. intros E H. apply wp_sm_bind, wp_lift. by eapply wp_eq. Qed.

End sm.

(** ** [cat] *)



(** A chunk that was read with the number of its bytes that the write after it took. *)
Notation transfer := (list Z * nat)%type.


Section cat.
Context {K : Type} `{!Kernel K, !FileLaws K}.
Implicit Types (k : K).







End cat.


(** A kernel with the file [f], open as descriptor 3, that reads at most [m_chunk + 1] bytes
    at a time and of each write takes [cut]. *)
Record mini := Mini { m_left : list Z; m_sink : list Z; m_chunk : nat }.

Definition mini_kernel (cut : list Z → list Z) : Kernel mini := {|
  sys_open path _ k := if decide (path = str "f") then (3, k) else (-1, k);
  sys_read fd n k :=
    if fd =? 3 then
      let bs := take (min (Z.to_nat n) (S (m_chunk k))) (m_left k) in
      (len bs, bs, Mini (drop (length bs) (m_left k)) (m_sink k) (m_chunk k))
    else (0, [], k);
  sys_write fd bs k :=
    if fd =? 1 then (len (cut bs), Mini (m_left k) (m_sink k ++ cut bs) (m_chunk k)) else (len bs, k);
  sys_mount _ _ _ _ k := (0, k); sys_chdir _ k := (0, k); sys_setsid k := (0, k); sys_system _ k := (0, k);
  sys_dup2 _ _ k := (0, k); sys_close _ k := (0, k); sys_ioctl_ctty _ _ k := (0, k);
  sys_ioctl_winsize _ _ _ k := (0, k); sys_execl _ _ k := (None, k) |}.



(** [cat] does not look at the result of [write]: when the kernel takes fewer bytes than
    offered, the rest of the buffer is lost, and [cat] still returns 0. *)
Theorem cat_short_write :
  wp (@cat mini (mini_kernel (take 2)) 9 2 (Ptr 1 0) (Mini (str "hello") [] 2))
    (λ r w', r.1 = 0 ∧ m_sink r.2 = str "helo") (argv_world lenient_env [str "cat"; str "f"]).
Proof. by vm_compute. Qed.

(** ** [mount] *)

Section others.
Context {K : Type} `{!Kernel K}.
Implicit Types (k : K).

(** The arguments and the null pointer after them. *)
Definition argv_full (w : world) (argv : ptr) (args : list (list Z)) : Prop :=
  argv_at w argv args ∧ reads w (padd argv (8 * len args)) 8 (encptr Null).

Definition mount_request (args : list (list Z)) : option (option (list Z) * option (list Z) * option (list Z)) :=
  if decide (args !! 1%nat = Some (str "-t") ∧ prefix_len is_flag (tail args) = 1 ∧ 4 <= len args)
  then Some (args !! 3%nat, args !! 4%nat, args !! 2%nat) else None.

Lemma read_arg w argv args i :
  argv_full w argv args → (i <= length args)%nat →
  (p ← arg argv (Z.of_nat i); read_opt p) w = Ret (args !! i) w.
Proof.
  intros [Ha Hend] Hi. destruct (args !! i) as [a|] eqn:E.
  - destruct (arg_eq _ _ _ _ _ Ha E) as (p & Ep & Hp). erewrite bind_ret by exact Ep.
    destruct p as [|b o]; [by destruct Hp as (?&?&?&?&_)|]. unfold read_opt. by erewrite bind_ret by by apply read_cstr_eq.
  - apply lookup_ge_None in E. replace i with (length args) by lia.
    erewrite bind_ret by by apply load_ptr_eq. done.
Qed.

Lemma prefix_len_range {A} (f : A → bool) l : 0 <= prefix_len f l <= len l.
Proof using Type. induction l as [|x l IH]; cbn -[Z.add]; [lia|]. destruct (f x); lia. Qed.

(** The test for the option [-t]. *)
Lemma dash_t_ok w p a (f : bool → SM K Z) Q k :
  cstr_at w p (45 :: a) → wp (f (bool_decide (a = [116])) k) Q w →
  wp ((c1 ← lift (load_u8 (padd p 1));
       c2 ← (if c1 =? 116 then lift (load_u8 (padd p 2)) else mret 1);
       f ((c1 =? 116) && (c2 =? 0))) k) Q w.
Proof.
  intros Hp Hf. destruct (cstr_at_uncons _ _ _ Hp) as [_ Hp1]. destruct (cstr_at_uncons _ _ _ Hp1) as [E1 Hp2].
  eapply wp_lift_eq; [exact E1|]. destruct a as [|c a]; cbn [head default id] in *.
  { apply wp_sm_bind, wp_sm_ret. exact Hf. }
  destruct (Z.eqb_spec c 116) as [->|Hc].
  - rewrite padd_padd in Hp2. change (1 + 1) with 2 in Hp2. destruct (cstr_at_uncons _ _ _ Hp2) as [E2 _].
    eapply wp_lift_eq; [exact E2|]. cbn [fst snd andb]. destruct a as [|d a]; [exact Hf|]. cbn [head default id].
    assert (0 < d) by (apply cstr_at_is_cstr, Forall_cons in Hp2 as [? _]; lia).
    rewrite bool_decide_eq_false_2 in Hf by done. by rewrite (proj2 (Z.eqb_neq _ _)) by lia.
  - apply wp_sm_bind, wp_sm_ret. rewrite bool_decide_eq_false_2 in Hf by congruence. exact Hf.
Qed.
End others.

(** [mount] makes one system call, for [mount -t type source target] only, with these
    strings and no flags, and returns its result; every other command line returns 1 without
    a call.  With three arguments the target is the null pointer after the last of them. *)
Theorem mount_spec {K} `{!Kernel K} argv args (k : K) w :
  argv_full w argv args → len args < 2 ^ 31 →
  wp (mount (len args) argv k) (λ r w', w' = w ∧
    match mount_request args with
    | Some (source, target, fstype) => r = sys_mount source target fstype 0 k
    | None => r = (1, k)
    end) w.
Proof.
  intros Hfull Hl. pose proof Hfull as [Ha _]. unfold mount.
  eapply wp_lift_eq; [exact (count_initial_flags_ok _ _ _ Ha)|].
  pose proof (prefix_len_range is_flag (tail args)) as Hr.
  assert (len (tail args) <= len args) by (destruct args; cbn; lia).
  rewrite wraps_small by lia. unfold mount_request.
  destruct (Z.eqb_spec (prefix_len is_flag (tail args)) 0) as [E0|E0].
  { rewrite decide_False by lia. by apply wp_sm_ret. }
  destruct (Z.eqb_spec (prefix_len is_flag (tail args)) 1) as [E1|E1].
  2:{ rewrite decide_False by tauto. by apply wp_sm_ret. }
  destruct args as [|a0 [|a1 args]]; [done..|]. cbn [tail] in E1.
  assert (∃ a, a1 = 45 :: a) as [a ->].
  { destruct a1 as [|c a]; [done|]. cbn in E0. destruct (Z.eqb_spec c 45) as [->|]; [by eexists|done]. }
  destruct (arg_eq _ _ _ 1 (45 :: a) Ha eq_refl) as (p & Ep & Hp).
  eapply wp_lift_eq; [exact Ep|]. eapply (dash_t_ok w p a (λ b : bool, if b then _ else mret 1)); [exact Hp|].
  set (args' := a0 :: (45 :: a) :: args) in *.
  case_bool_decide as Ea.
  - subst a. destruct (Z.ltb_spec (len args') 4) as [H4|H4].
    { rewrite decide_False by lia. by apply wp_sm_ret. }
    rewrite decide_True by done.
    eapply wp_lift_eq; [exact (read_arg _ _ _ 3 Hfull ltac:(lia))|].
    eapply wp_lift_eq; [exact (read_arg _ _ _ 4 Hfull ltac:(lia))|].
    eapply wp_lift_eq; [exact (read_arg _ _ _ 2 Hfull ltac:(lia))|].
    by apply wp_call.
  - rewrite decide_False; [by apply wp_sm_ret|]. intros [[= ->] _]. done.
Qed.

(** [mount -t proc proc]: the target is missing. *)
Definition mount_args : list (list Z) := [str "mount"; str "-t"; str "proc"; str "proc"].

Definition mount_world : world :=
  let w := argv_world lenient_env mount_args in
  set_heap (<[1%positive := concat ((λ i, encptr (Ptr (Pos.of_nat (i + 2)) 0)) <$> seq 0 4) ++ encptr Null]> (w_heap w)) w.

Lemma mount_world_full : argv_full mount_world (Ptr 1 0) mount_args.
Proof.
  split; [|by vm_compute].
  intros i a Hi. exists (Ptr (Pos.of_nat (i + 2)) 0). do 4 (destruct i as [|i];
    [injection Hi as <-; split; [by vm_compute|];
     eexists _, _, _; split_and!; [done|done|reflexivity|by repeat constructor|by eexists]|]).
  done.
Qed.

Lemma mount_spec_witness :
  wp (@mount mini (mini_kernel id) 4 (Ptr 1 0) (Mini [] [] 0)) (λ r w', w' = mount_world ∧
    r = @sys_mount mini (mini_kernel id) (Some (str "proc")) None (Some (str "proc")) 0 (Mini [] [] 0)) mount_world.
Proof. apply (@mount_spec mini (mini_kernel id) (Ptr 1 0) mount_args); [apply mount_world_full|done]. Defined.

(** [cd] changes to its first argument, or to the root without one, and returns 0
    whatever the kernel answers. *)
Theorem cd_spec {K} `{!Kernel K} argv args (k : K) w :
  argv_at w argv args →
  wp (cd (len args) argv k) (λ r w', w' = w ∧
    r = (0, (sys_chdir (default (str "/") (args !! 1%nat)) k).2)) w.
Proof.
  intros Ha. unfold cd. destruct args as [|a0 [|a1 args]]; cbn [length lookup list_lookup default id].
  - apply wp_sm_bind, wp_call. by apply wp_sm_ret.
  - apply wp_sm_bind, wp_call. by apply wp_sm_ret.
  - rewrite (proj2 (Z.ltb_lt _ _)) by lia. destruct (arg_eq _ _ _ 1 a1 Ha eq_refl) as (p & Ep & Hp).
    apply wp_sm_bind. eapply wp_lift_eq; [exact Ep|]. eapply wp_lift_eq; [by apply read_cstr_eq|].
    apply wp_call, wp_sm_ret. done.
Qed.

Lemma cd_spec_witness :
  let w := argv_world lenient_env [str "cd"; str "/tmp"] in
  wp (@cd mini (mini_kernel id) 2 (Ptr 1 0) (Mini [] [] 0)) (λ r w', w' = w ∧ r = (0, Mini [] [] 0)) w.
Proof.
  intros w. apply (@cd_spec mini (mini_kernel id) (Ptr 1 0) [str "cd"; str "/tmp"] (Mini [] [] 0)).
  intros i a Hi. exists (Ptr (Pos.of_nat (i + 2)) 0). do 2 (destruct i as [|i];
    [injection Hi as <-; split; [by vm_compute|];
     eexists _, _, _; split_and!; [done|done|reflexivity|by repeat constructor|by eexists]|]).
  done.
Defined.

(** ** [init] *)

(** A kernel that records what [init] asks for; [open] answers [fd], and [execl] succeeds
    if [ok]. *)
Inductive event :=
  ESetsid | ESystem (cmd : list Z) | EOpen (path : list Z) (flags : Z) | EDup2 (old new : Z) | EClose (fd : Z) |
  ECtty (fd arg : Z) | EWinsize (fd row col : Z) | EExec (path : list Z) (args : list (list Z)).

Definition recorder (fd : Z) (ok : bool) : Kernel (list event) := {|
  sys_open path flags k := (fd, k ++ [EOpen path flags]);
  sys_read _ _ k := (0, [], k); sys_write _ _ k := (0, k); sys_mount _ _ _ _ k := (0, k); sys_chdir _ k := (0, k);
  sys_setsid k := (0, k ++ [ESetsid]);
  sys_system cmd k := (0, k ++ [ESystem cmd]);
  sys_dup2 a b k := (b, k ++ [EDup2 a b]);
  sys_close a k := (0, k ++ [EClose a]);
  sys_ioctl_ctty a b k := (0, k ++ [ECtty a b]);
  sys_ioctl_winsize a r c k := (0, k ++ [EWinsize a r c]);
  sys_execl p l k := (if ok then None else Some (-1), k ++ [EExec p l]) |}.

(** [init] asks the kernel, in this order, for a session, the three mounts, the serial
    line, its three standard descriptors on it, the closing of the descriptor it was opened
    on only if that is not a standard one, the terminal and its size, and the shell in its
    place; if the shell cannot be started it returns 0.  A failed [open] (a negative [fd])
    is handed to [dup2] all the same. *)
Theorem init_sequence fd ok k w :
  @init (list event) (recorder fd ok) k w =
  Ret ((if ok then None else Some 0),
       k ++ [ESetsid; ESystem (str "mount -t proc proc /proc"); ESystem (str "mount -t sysfs sysfs /sys");
             ESystem (str "mount -t devtmpfs devtmpfs /dev"); EOpen (str "/dev/ttyS0") O_RDWR;
             EDup2 fd 0; EDup2 fd 1; EDup2 fd 2] ++
       (if 2 <? fd then [EClose fd] else []) ++
       [ECtty 0 1; EWinsize 0 48 160; EExec (str "/bin/sh") [str "/bin/sh"]]) w.
Proof.
  cbv beta iota delta [init call mbind SM_bind M_bind mret SM_ret M_ret recorder
    sys_setsid sys_system sys_open sys_dup2 sys_close sys_ioctl_ctty sys_ioctl_winsize sys_execl].
  change (24 * 2) with 48. change (80 * 2) with 160.
  destruct (2 <? fd), ok; cbv beta iota; f_equal; by rewrite <- ?(assoc_L (++)).
Qed.
