(* ===== verification/Flat.v ===== *)
(** * Flat: a byte-addressed memory for the C library's string functions

    These functions read and write aligned 8-byte words, also outside the objects they are
    given, which the object memory of [Mem] forbids.  Here memory is what the processor has:
    a byte at every address and a set of mapped pages.  An access to an unmapped page, or a
    word access that is not aligned, has no result, and neither has a loop that runs out of
    fuel: that a function returns says that none of this happens.  Addresses are numbers,
    words are little-endian. *)

From S2P Require Import Prelude Mem Logic.
Local Open Scope Z_scope.

(** [ctz0] is what [__builtin_ctzl (0)] yields: the value the processor happens to give, or
    [None] for undefined behaviour, as the compiler documents it. *)
Record mem := Memory { byte : Z → Z; mapped : Z → bool; ctz0 : option Z }.

Definition page (a : Z) : Z := a / 4096.

(** Computations on this memory. *)
Definition W (A : Type) : Type := mem → option (A * mem).

#[export] Instance W_ret : MRet W := λ A a m, Some (a, m).
#[export] Instance W_bind : MBind W := λ A B f x m,
  match x m with Some (a, m') => f a m' | None => None end.

Definition undefined {A} : W A := λ _, None.

Definition bytes_at (m : mem) (a : Z) (n : nat) : list Z := (λ i, byte m (a + Z.of_nat i)) <$> seq 0 n.
Definition word_at (m : mem) (a : Z) : Z := dec_le (bytes_at m a 8).

Definition load_byte (a : Z) : W Z := λ m, if mapped m (page a) then Some (byte m a, m) else None.
Definition load_word (a : Z) : W Z := λ m,
  if (a mod 8 =? 0) && mapped m (page a) then Some (word_at m a, m) else None.

Definition put_byte (m : mem) (a c : Z) : mem :=
  Memory (λ x, if x =? a then u8 c else byte m x) (mapped m) (ctz0 m).
Definition put_word (m : mem) (a w : Z) : mem :=
  Memory (λ x, if (a <=? x) && (x <? a + 8) then byte_of w (x - a) else byte m x) (mapped m) (ctz0 m).

Definition store_byte (a c : Z) : W unit := λ m, if mapped m (page a) then Some (tt, put_byte m a c) else None.
Definition store_word (a w : Z) : W unit := λ m,
  if (a mod 8 =? 0) && mapped m (page a) then Some (tt, put_word m a w) else None.

Definition bytes_ok (m : mem) : Prop := ∀ a, 0 <= byte m a < 256.

(** The pages of [n] bytes at [a] are mapped. *)
Definition readable (m : mem) (a n : Z) : Prop := ∀ x, a <= x < a + n → mapped m (page x) = true.

(** A NUL-terminated string at an address, with its pages mapped. *)
Record string_at (m : mem) (a : Z) (s : list Z) : Prop := StringAt {
  sa_bytes : ∀ i c, s !! i = Some c → byte m (a + Z.of_nat i) = c;
  sa_chars : Forall (λ c, 0 < c < 256) s;
  sa_nul : byte m (a + len s) = 0;
  sa_map : readable m a (len s + 1) }.

(** ** The monad *)

Section monad.
Context {A B : Type}.

Lemma W_step (x : W A) (f : A → W B) m a m' : x m = Some (a, m') → (x ≫= f) m = f a m'.
Proof. intros E. unfold mbind, W_bind. by rewrite E. Qed.

Lemma W_assoc {C} (x : W A) (f : A → W B) (g : B → W C) m : ((x ≫= f) ≫= g) m = (x ≫= λ a, f a ≫= g) m.
Proof. unfold mbind, W_bind. by destruct (x m) as [[a m']|]. Qed.
End monad.

(** ** Accesses *)

Lemma load_byte_ok m a : mapped m (page a) = true → load_byte a m = Some (byte m a, m).
Proof. intros E. unfold load_byte. by rewrite E. Qed.

Lemma load_word_ok m a : a mod 8 = 0 → mapped m (page a) = true → load_word a m = Some (word_at m a, m).
Proof. intros Ha E. unfold load_word. by rewrite E, (proj2 (Z.eqb_eq _ _) Ha). Qed.

Lemma store_byte_ok m a c : mapped m (page a) = true → store_byte a c m = Some (tt, put_byte m a c).
Proof. intros E. unfold store_byte. by rewrite E. Qed.

Lemma store_word_ok m a w : a mod 8 = 0 → mapped m (page a) = true → store_word a w m = Some (tt, put_word m a w).
Proof. intros Ha E. unfold store_word. by rewrite E, (proj2 (Z.eqb_eq _ _) Ha). Qed.

(** An aligned word lies within a page. *)
Lemma page_word a x : a mod 8 = 0 → a <= x < a + 8 → page x = page a.
Proof. intros. unfold page. Z.to_euclidean_division_equations; lia. Qed.

Lemma load_word_reach m a x :
  a mod 8 = 0 → a <= x < a + 8 → mapped m (page x) = true → load_word a m = Some (word_at m a, m).
Proof. intros Ha Hx Hm. apply load_word_ok; [done|]. by rewrite <- (page_word a x). Qed.

Lemma align_down a : (8 * (a / 8)) mod 8 = 0.
Proof. by rewrite Z.mul_comm, Z_mod_mult. Qed.

Lemma length_bytes_at m a n : length (bytes_at m a n) = n.
Proof. unfold bytes_at. by rewrite length_fmap, length_seq. Qed.

Lemma bytes_at_lookup m a n i : (i < n)%nat → bytes_at m a n !! i = Some (byte m (a + Z.of_nat i)).
Proof. intros Hi. unfold bytes_at. by rewrite list_lookup_fmap, lookup_seq_lt. Qed.

Lemma bytes_at_app m a n k : bytes_at m a (n + k) = bytes_at m a n ++ bytes_at m (a + Z.of_nat n) k.
Proof.
  apply list_eq. intros i. destruct (decide (i < n)%nat).
  - rewrite lookup_app_l by (by rewrite length_bytes_at). by rewrite !bytes_at_lookup by lia.
  - rewrite lookup_app_r by (rewrite length_bytes_at; lia). rewrite length_bytes_at.
    destruct (decide (i < n + k)%nat).
    + rewrite !bytes_at_lookup by lia. do 2 f_equal. lia.
    + rewrite (lookup_ge_None_2 (bytes_at m a (n + k))) by (rewrite length_bytes_at; lia).
      symmetry. apply lookup_ge_None_2. rewrite length_bytes_at. lia.
Qed.

Lemma bytes_at_range m a n : bytes_ok m → Forall (λ c, 0 <= c < 256) (bytes_at m a n).
Proof. intros Hm. apply Forall_fmap, Forall_forall. intros i _. apply Hm. Qed.

(** ** Strings *)

Lemma string_at_tail m a c s : string_at m a (c :: s) → string_at m (a + 1) s.
Proof.
  intros [H1 H2 H3 H4]. inv H2. split; [|done| |].
  - intros i d Hi. rewrite <- (H1 (S i) d Hi). f_equal. lia.
  - rewrite <- H3. f_equal. cbn. lia.
  - intros x Hx. apply H4. cbn. lia.
Qed.

Lemma string_at_drop m a s n : (n <= length s)%nat → string_at m a s → string_at m (a + Z.of_nat n) (drop n s).
Proof.
  revert a s. induction n as [|n IH]; intros a s Hn Hs; [by rewrite Z.add_0_r|].
  destruct s as [|c s]; [cbn in Hn; lia|]. cbn in Hn |- *.
  replace (a + Z.of_nat (S n)) with (a + 1 + Z.of_nat n) by lia.
  apply IH; [lia|]. by eapply string_at_tail.
Qed.

Lemma string_at_head m a s : string_at m a s → byte m a = default 0 (head s) ∧ mapped m (page a) = true.
Proof.
  intros [H1 H2 H3 H4]. split; [|apply H4; lia]. destruct s as [|c s]; cbn in *.
  - by rewrite Z.add_0_r in H3.
  - rewrite <- (H1 0%nat c eq_refl). f_equal. lia.
Qed.

(** The bytes of the string with its NUL. *)
Lemma string_at_bytes m a s : string_at m a s → bytes_at m a (S (length s)) = s ++ [0].
Proof.
  intros [H1 H2 H3 H4]. apply list_eq_same_length with (S (length s)); [rewrite length_app; cbn; lia|by rewrite length_bytes_at|].
  intros i x y Hi Hx Hy. rewrite bytes_at_lookup in Hx by done. injection Hx as <-.
  destruct (decide (i < length s)%nat).
  - rewrite lookup_app_l in Hy by done. by apply H1.
  - replace i with (length s) in * by lia. rewrite list_lookup_middle in Hy by done. injection Hy as <-. done.
Qed.
