(* ===== verification/Fza.v ===== *)
(** * Fza: finding zero and equal bytes in a word

    The headers [sysdeps/generic/string-{misc,fza,fzb,fzi,fzc,shift}.h], for a
    little-endian machine with 8-byte words.  A mask computed by a [_all] function is
    exact, one computed by a [_low] function is right up to its first set byte; the lemmas
    state this on the list of the word's bytes. *)

From S2P Require Import Prelude Mem Logic Flat.
Local Open Scope Z_scope.

(** [~x] on [op_t]. *)
Definition not64 (x : Z) : Z := u64 (Z.lnot x).

Definition extractbyte (x idx : Z) : Z := u8 (Z.shiftr x (idx * 8)).
Definition repeat_bytes (c_in : Z) : Z := u64 ((2 ^ 64 - 1) / 255 * u8 c_in).

Definition find_zero_low (x : Z) : Z :=
  let lsb := repeat_bytes 1 in
  let msb := repeat_bytes 128 in
  Z.land (Z.land (u64 (x - lsb)) (not64 x)) msb.

Definition find_zero_all (x : Z) : Z :=
  let m := repeat_bytes 127 in
  not64 (Z.lor (Z.lor (u64 (Z.land x m + m)) x) m).

Definition find_eq_low (x1 x2 : Z) : Z := find_zero_low (Z.lxor x1 x2).
Definition find_eq_all (x1 x2 : Z) : Z := find_zero_all (Z.lxor x1 x2).
Definition find_zero_eq_low (x1 x2 : Z) : Z := Z.lor (find_zero_low x1) (find_zero_low (Z.lxor x1 x2)).
Definition find_zero_eq_all (x1 x2 : Z) : Z := Z.lor (find_zero_all x1) (find_zero_all (Z.lxor x1 x2)).

Definition find_zero_ne_all (x1 x2 : Z) : Z :=
  let m := repeat_bytes 127 in
  let eq := Z.lxor x1 x2 in
  let nz1 := Z.lor (u64 (Z.land x1 m + m)) x1 in
  let ne2 := Z.lor (u64 (Z.land eq m + m)) eq in
  Z.land (Z.lor ne2 (not64 nz1)) (not64 m).

Definition has_zero (x : Z) : bool := negb (find_zero_low x =? 0).
Definition has_eq (x1 x2 : Z) : bool := negb (find_eq_low x1 x2 =? 0).
Definition has_zero_eq (x1 x2 : Z) : bool := negb (find_zero_eq_low x1 x2 =? 0).

(** [__builtin_ctzl]: the number of the first set bit. *)
Fixpoint ctz_from (n : nat) (i c : Z) : W Z :=
  match n with
  | O => undefined
  | S n => if Z.testbit c i then mret i else ctz_from n (i + 1) c
  end.
Definition ctz (c : Z) : W Z := λ m,
  if c =? 0 then match ctz0 m with Some v => Some (v, m) | None => None end else ctz_from 64 0 c m.

(** [__builtin_clzl]: the zero bits above the last set one; undefined at 0. *)
Definition clz (c : Z) : W Z := if c =? 0 then undefined else mret (63 - Z.log2 c).

Definition index_first (c : Z) : W Z := r ← ctz c; mret (r / 8).
Definition index_last (c : Z) : W Z := r ← clz c; mret (8 - 1 - r / 8).

Definition index_first_zero (x : Z) : W Z := index_first (find_zero_low x).
Definition index_first_eq (x1 x2 : Z) : W Z := index_first (find_eq_low x1 x2).
Definition index_first_zero_eq (x1 x2 : Z) : W Z := index_first (find_zero_eq_low x1 x2).
Definition index_first_zero_ne (x1 x2 : Z) : W Z := index_first (find_zero_ne_all x1 x2).
Definition index_last_zero (x : Z) : W Z := index_last (find_zero_all x).
Definition index_last_eq (x1 x2 : Z) : W Z := index_last_zero (Z.lxor x1 x2).

Definition shift_find (word s : Z) : Z := Z.shiftr word (8 * (s mod 8)).
Definition shift_find_last (word s : Z) : Z :=
  let s := s mod 8 in
  if s =? 0 then word else Z.land word (not64 (u64 (Z.shiftl (2 ^ 64 - 1) (s * 8)))).

(** The macro [MERGE] of [memcopy.h]. *)
Definition MERGE (w0 sh_1 w1 sh_2 : Z) : Z := Z.lor (Z.shiftr w0 sh_1) (u64 (Z.shiftl w1 sh_2)).

(** ** Words as lists of bytes *)

Notation bytes := (Forall (λ b : Z, 0 <= b < 256)).

Lemma pow256 n : 256 ^ Z.of_nat n = 2 ^ (8 * Z.of_nat n).
Proof. rewrite Z.pow_mul_r by lia. done. Qed.

Lemma pow256_pos n : 0 < 256 ^ Z.of_nat n.
Proof. apply Z.pow_pos_nonneg; lia. Qed.

Lemma pow256_S n : 256 ^ Z.of_nat (S n) = 256 * 256 ^ Z.of_nat n.
Proof. rewrite Nat2Z.inj_succ, Z.pow_succ_r by lia. done. Qed.

Lemma dec_le_range bs : bytes bs → 0 <= dec_le bs < 256 ^ len bs.
Proof.
  induction 1 as [|b bs Hb Hbs IH]; [done|]. cbn [dec_le length]. rewrite pow256_S. lia.
Qed.

Lemma dec_le_app bs cs : dec_le (bs ++ cs) = dec_le bs + 256 ^ len bs * dec_le cs.
Proof.
  induction bs as [|b bs IH]; cbn [dec_le app length]; [lia|]. rewrite IH, pow256_S. lia.
Qed.

Lemma testbit_cons b x i :
  0 <= b < 256 → 0 <= i → Z.testbit (b + 256 * x) i = if i <? 8 then Z.testbit b i else Z.testbit x (i - 8).
Proof.
  intros Hb Hi. destruct (Z.ltb_spec i 8).
  - rewrite <- (Z.mod_pow2_bits_low (b + 256 * x) 8) by lia. f_equal.
    change (2 ^ 8) with 256. rewrite Z.mul_comm, Z_mod_plus_full. by apply Z.mod_small.
  - replace i with (i - 8 + 8) at 1 by lia. rewrite <- Z.div_pow2_bits by lia. f_equal.
    change (2 ^ 8) with 256. rewrite Z.mul_comm, Z.div_add, Z.div_small by lia. lia.
Qed.

Lemma byte_small_bits b i : 0 <= b < 256 → 8 <= i → Z.testbit b i = false.
Proof.
  intros Hb Hi. rewrite <- (Z.mod_small b (2 ^ 8)) by done. apply Z.mod_pow2_bits_high. lia.
Qed.

Section bitop.
Context (op : Z → Z → Z) (f : bool → bool → bool).
Hypothesis op_bits : ∀ x y i, 0 <= i → Z.testbit (op x y) i = f (Z.testbit x i) (Z.testbit y i).
Hypothesis f_false : f false false = false.
Set Default Proof Using "All".

Lemma bitop_byte b c : 0 <= b < 256 → 0 <= c < 256 → 0 <= op b c < 256.
Proof.
  intros Hb Hc. assert (op b c = (op b c) mod 2 ^ 8) as ->; [|apply Z.mod_pos_bound; lia].
  apply Z.bits_inj'. intros i Hi. destruct (Z.ltb_spec i 8).
  - by rewrite Z.mod_pow2_bits_low by lia.
  - rewrite Z.mod_pow2_bits_high by lia. by rewrite op_bits, !byte_small_bits by lia.
Qed.

Lemma bitop_cons b c x y :
  0 <= b < 256 → 0 <= c < 256 → op (b + 256 * x) (c + 256 * y) = op b c + 256 * op x y.
Proof.
  intros Hb Hc. apply Z.bits_inj'. intros i Hi.
  rewrite op_bits, !testbit_cons by (try apply bitop_byte; done).
  destruct (Z.ltb_spec i 8); by rewrite op_bits by lia.
Qed.

Lemma bitop_dec bs cs :
  bytes bs → bytes cs → length bs = length cs → op (dec_le bs) (dec_le cs) = dec_le (zip_with op bs cs).
Proof.
  intros Hbs. revert cs. induction Hbs as [|b bs Hb Hbs IH]; intros [|c cs] Hcs Hl; try done; cbn.
  - apply Z.bits_inj'. intros i Hi. by rewrite op_bits, Z.bits_0.
  - inv Hcs. rewrite bitop_cons by done. rewrite IH; [done|done|]. cbn in Hl. lia.
Qed.
End bitop.

Lemma land_dec bs cs : bytes bs → bytes cs → length bs = length cs → Z.land (dec_le bs) (dec_le cs) = dec_le (zip_with Z.land bs cs).
Proof. apply (bitop_dec Z.land andb); [|done]. intros. apply Z.land_spec. Qed.

Lemma lor_dec bs cs : bytes bs → bytes cs → length bs = length cs → Z.lor (dec_le bs) (dec_le cs) = dec_le (zip_with Z.lor bs cs).
Proof. apply (bitop_dec Z.lor orb); [|done]. intros. apply Z.lor_spec. Qed.

Lemma lxor_dec bs cs : bytes bs → bytes cs → length bs = length cs → Z.lxor (dec_le bs) (dec_le cs) = dec_le (zip_with Z.lxor bs cs).
Proof. apply (bitop_dec Z.lxor xorb); [|done]. intros. apply Z.lxor_spec. Qed.

Lemma add_dec bs cs : length bs = length cs → dec_le bs + dec_le cs = dec_le (zip_with Z.add bs cs).
Proof.
  revert cs. induction bs as [|b bs IH]; intros [|c cs] Hl; try done. injection Hl as Hl. cbn. rewrite <- (IH cs Hl). lia.
Qed.

Lemma sub_dec bs cs : length bs = length cs → dec_le bs - dec_le cs = dec_le (zip_with Z.sub bs cs).
Proof.
  revert cs. induction bs as [|b bs IH]; intros [|c cs] Hl; try done. injection Hl as Hl. cbn. rewrite <- (IH cs Hl). lia.
Qed.
