(* ===== verification/FzaSpec.v ===== *)
(** * FzaSpec: what the word tricks compute, on the list of a word's bytes *)

From S2P Require Import Prelude Mem Logic Flat Fza.
Local Open Scope Z_scope.

Lemma word8 (P : list Z → Prop) :
  (∀ a b c d e f g h, bytes [a; b; c; d; e; f; g; h] → P [a; b; c; d; e; f; g; h]) →
  ∀ bs, bytes bs → length bs = 8%nat → P bs.
Proof. intros H bs Hb Hl. do 8 (destruct bs as [|? bs]; [done|]). destruct bs; [|done]. by apply H. Qed.

(** A decidable fact of all bytes, or of all pairs of bytes, by enumeration. *)
Lemma byte_cases (P : Z → bool) : forallb P (seqZ 0 256) = true → ∀ b, 0 <= b < 256 → P b = true.
Proof. intros H b Hb. rewrite forallb_forall in H. apply H, list_elem_of_In, elem_of_seqZ. lia. Qed.

Lemma byte_cases2 (P : Z → Z → bool) :
  forallb (λ b, forallb (P b) (seqZ 0 256)) (seqZ 0 256) = true → ∀ b c, 0 <= b < 256 → 0 <= c < 256 → P b c = true.
Proof.
  intros H b c Hb Hc. apply (byte_cases (P b)); [|done].
  apply (byte_cases (λ b, forallb (P b) (seqZ 0 256)) H b Hb).
Qed.

Definition nb (b : Z) : Z := 255 - b.
Definition zmask (b : Z) : Z := if b =? 0 then 128 else 0.
Definition nemask (b c : Z) : Z := if (b =? 0) || negb (b =? c) then 128 else 0.

Lemma zmask_range b : 0 <= zmask b < 256.
Proof. unfold zmask. case_match; lia. Qed.

Lemma u64_dec bs : bytes bs → length bs = 8%nat → u64 (dec_le bs) = dec_le bs.
Proof.
  intros Hb Hl. apply u64_small. pose proof (dec_le_range bs Hb) as Hr. rewrite Hl in Hr.
  change (256 ^ Z.of_nat 8) with (2 ^ 64) in Hr. exact Hr.
Qed.

Lemma repeat_bytes_dec c : 0 <= c < 256 → repeat_bytes c = dec_le (replicate 8 c).
Proof.
  intros Hc. unfold repeat_bytes. rewrite (wrapu_small 8 c) by lia.
  change ((2 ^ 64 - 1) / 255) with 72340172838076673. rewrite u64_small by (unfold is_u64; lia). cbn [dec_le replicate]. lia.
Qed.

Lemma not64_dec bs : bytes bs → length bs = 8%nat → not64 (dec_le bs) = dec_le (nb <$> bs).
Proof.
  intros Hb Hl.
  assert (dec_le bs + dec_le (nb <$> bs) = 2 ^ 64 - 1) as E.
  { revert Hl. clear Hb. do 8 (destruct bs as [|? bs]; [done|]). destruct bs; [|done]. intros _.
    cbn [fmap list_fmap dec_le]. unfold nb. lia. }
  pose proof (dec_le_range bs Hb) as Hr. rewrite Hl in Hr. change (256 ^ Z.of_nat 8) with (2 ^ 64) in Hr.
  unfold not64, Z.lnot. rewrite <- (Z_mod_plus_full (Z.pred (- dec_le bs)) 1 (2 ^ 64)) at 1.
  rewrite Z.mod_small; lia.
Qed.

(** Split the range of an explicit list, and prove one. *)
Ltac rng := repeat match goal with H : bytes (_ :: _) |- _ => apply Forall_cons in H as [? H] end.
Ltac bts := solve [done | repeat (apply Forall_cons_2; [solve [auto 8 with byte]|]); apply Forall_nil_2].

Lemma and127 b : 0 <= b < 256 → 0 <= Z.land b 127 <= 127.
Proof.
  intros Hb. assert ((0 <=? Z.land b 127) && (Z.land b 127 <=? 127) = true); [|zb; lia].
  revert b Hb. apply byte_cases. by vm_compute.
Qed.

Lemma lor_byte b c : 0 <= b < 256 → 0 <= c < 256 → 0 <= Z.lor b c < 256.
Proof. apply (bitop_byte Z.lor orb); [intros; apply Z.lor_spec|done]. Qed.

Lemma land_byte b c : 0 <= b < 256 → 0 <= c < 256 → 0 <= Z.land b c < 256.
Proof. apply (bitop_byte Z.land andb); [intros; apply Z.land_spec|done]. Qed.

Lemma lxor_byte b c : 0 <= b < 256 → 0 <= c < 256 → 0 <= Z.lxor b c < 256.
Proof. apply (bitop_byte Z.lxor xorb); [intros; apply Z.lxor_spec|done]. Qed.

Lemma nb_byte b : 0 <= b < 256 → 0 <= nb b < 256.
Proof. unfold nb. lia. Qed.

Lemma add127_byte b : 0 <= b < 256 → 0 <= Z.land b 127 + 127 < 256.
Proof. intros Hb. pose proof (and127 b Hb). lia. Qed.

Create HintDb byte.
#[export] Hint Resolve lor_byte land_byte lxor_byte nb_byte add127_byte zmask_range : byte.
#[export] Hint Extern 2 (0 <= Zpos _ < 256) => (split; [done|reflexivity]) : byte.

(** The carry-free computation of [find_zero_all] and [find_zero_ne_all]: a byte is nonzero. *)
Definition nzb (b : Z) : Z := Z.lor (Z.land b 127 + 127) b.

Lemma nz_dec bs :
  bytes bs → length bs = 8%nat →
  Z.lor (u64 (Z.land (dec_le bs) (repeat_bytes 127) + repeat_bytes 127)) (dec_le bs) = dec_le (nzb <$> bs).
Proof.
  intros Hb Hl. rewrite repeat_bytes_dec by lia. revert Hb Hl. revert bs. apply word8.
  intros a b c d e f g h H. cbn [replicate]. rng.
  rewrite land_dec by bts. cbn [zip_with].
  rewrite add_dec by done. cbn [zip_with].
  rewrite u64_dec by bts.
  rewrite lor_dec by bts. done.
Qed.

Lemma nz_not b : 0 <= b < 256 → nb (Z.lor (nzb b) 127) = zmask b.
Proof.
  intros Hb. apply Z.eqb_eq. revert b Hb. apply (byte_cases (λ b, nb (Z.lor (nzb b) 127) =? zmask b)). by vm_compute.
Qed.

Lemma nzb_byte b : 0 <= b < 256 → 0 <= nzb b < 256.
Proof. intros. unfold nzb. auto with byte. Qed.
#[export] Hint Resolve nzb_byte : byte.

Lemma find_zero_all_dec bs : bytes bs → length bs = 8%nat → find_zero_all (dec_le bs) = dec_le (zmask <$> bs).
Proof.
  intros Hb Hl. unfold find_zero_all. rewrite nz_dec by done. rewrite repeat_bytes_dec by lia.
  revert bs Hb Hl. apply word8. intros a b c d e f g h H. rng. cbn [replicate fmap list_fmap].
  rewrite lor_dec by bts. cbn [zip_with]. rewrite not64_dec by bts. cbn [fmap list_fmap].
  by rewrite !nz_not by done.
Qed.

Lemma ne_byte b c :
  0 <= b < 256 → 0 <= c < 256 → Z.land (Z.lor (nzb (Z.lxor b c)) (nb (nzb b))) 128 = nemask b c.
Proof.
  intros Hb Hc. apply Z.eqb_eq. revert b c Hb Hc.
  apply (byte_cases2 (λ b c, Z.land (Z.lor (nzb (Z.lxor b c)) (nb (nzb b))) 128 =? nemask b c)). by vm_compute.
Qed.

Lemma find_zero_ne_all_dec bs cs :
  bytes bs → length bs = 8%nat → bytes cs → length cs = 8%nat →
  find_zero_ne_all (dec_le bs) (dec_le cs) = dec_le (zip_with nemask bs cs).
Proof.
  intros Hb Hl Hc Hm. unfold find_zero_ne_all. rewrite lxor_dec by (done || lia).
  assert (bytes (zip_with Z.lxor bs cs) ∧ length (zip_with Z.lxor bs cs) = 8%nat) as [Hx Hxl].
  { split; [|rewrite length_zip_with; lia]. clear Hl Hm. revert cs Hc.
    induction Hb as [|b bs Hb Hbs IH]; intros [|c cs] Hc; cbn; try done. inv Hc. constructor; auto with byte. }
  rewrite !nz_dec by done. rewrite repeat_bytes_dec by lia. revert bs Hb Hl Hx Hxl. apply (word8 (λ bs, _ → _ → _)).
  intros a b c d e f g h H. rng. intros _ _. revert cs Hc Hm. apply word8. intros a' b' c' d' e' f' g' h' H'. rng.
  cbn [replicate fmap list_fmap zip_with]. rewrite !not64_dec by bts. cbn [fmap list_fmap].
  rewrite lor_dec by bts. cbn [zip_with]. rewrite land_dec by bts. cbn [zip_with].
  change (nb 127) with 128. by rewrite !ne_byte by done.
Qed.

(** ** Masks that are right up to their first set byte *)

(** The first nonzero byte of a mask is byte [k]. *)
Definition first_at (k : nat) (c : Z) : Prop :=
  0 <= c ∧ (∀ i, 0 <= i < 8 * Z.of_nat k → Z.testbit c i = false) ∧
  ∃ t, 8 * Z.of_nat k <= t < 8 * Z.of_nat k + 8 ∧ Z.testbit c t = true.

Lemma dec_le_mod bs cs : bytes bs → dec_le (bs ++ cs) mod 256 ^ len bs = dec_le bs.
Proof.
  intros Hb. rewrite dec_le_app, Z.mul_comm, Z_mod_plus_full. apply Z.mod_small. by apply dec_le_range.
Qed.

Lemma land_mod a b n : 0 <= n → Z.land a b mod 2 ^ n = Z.land (a mod 2 ^ n) (b mod 2 ^ n).
Proof.
  intros Hn. rewrite <- !Z.land_ones by done. apply Z.bits_inj'. intros i Hi. rewrite !Z.land_spec.
  by destruct (Z.testbit a i), (Z.testbit b i), (Z.testbit (Z.ones n) i).
Qed.

Lemma pow256_mod_mod a k n : (k <= n)%nat → (a mod 256 ^ Z.of_nat n) mod 256 ^ Z.of_nat k = a mod 256 ^ Z.of_nat k.
Proof.
  intros Hk. replace (256 ^ Z.of_nat n) with (256 ^ Z.of_nat k * 256 ^ Z.of_nat (n - k)).
  - apply Z.mod_mod_divide. eexists. apply Z.mul_comm.
  - rewrite <- Z.pow_add_r by lia. f_equal. lia.
Qed.

(** The difference up to the first zero byte: no borrow before it, and 255 there. *)
Lemma sub_ones_mod pre post k :
  length pre = k → Forall (λ b, 0 < b < 256) pre → length (pre ++ 0 :: post) = 8%nat →
  (dec_le (pre ++ 0 :: post) - dec_le (replicate 8 1)) mod 256 ^ Z.of_nat (S k) = dec_le ((Z.pred <$> pre) ++ [255]).
Proof.
  intros Hk Hp Hl. rewrite length_app in Hl. cbn in Hl.
  replace (replicate 8 1) with (replicate k 1 ++ 1 :: replicate (7 - k) 1).
  2:{ change (1 :: replicate (7 - k) 1) with (replicate (S (7 - k)) 1). rewrite <- replicate_add. f_equal. lia. }
  rewrite !dec_le_app, length_replicate, Hk. cbn [dec_le].
  replace (dec_le pre + 256 ^ Z.of_nat k * (0 + 256 * dec_le post) -
           (dec_le (replicate k 1) + 256 ^ Z.of_nat k * (1 + 256 * dec_le (replicate (7 - k) 1))))
    with (dec_le pre - dec_le (replicate k 1) + 256 ^ Z.of_nat k * 255 +
          (dec_le post - 1 - dec_le (replicate (7 - k) 1)) * 256 ^ Z.of_nat (S k)) by (rewrite pow256_S; lia).
  rewrite Z_mod_plus_full, sub_dec by by rewrite length_replicate.
  assert (zip_with Z.sub pre (replicate k 1) = Z.pred <$> pre) as ->.
  { rewrite <- Hk. clear. induction pre as [|b pre IH]; cbn; [done|]. by rewrite IH. }
  rewrite length_fmap, Hk. rewrite Z.mul_0_r, Z.add_0_r.
  assert (bytes (Z.pred <$> pre)) as Hb by (apply Forall_fmap; eapply Forall_impl; [exact Hp|]; cbn; lia).
  pose proof (dec_le_range _ Hb) as Hr. rewrite length_fmap, Hk in Hr. rewrite pow256_S.
  apply Z.mod_small. lia.
Qed.

Lemma low_byte b : 0 < b < 256 → Z.land (Z.land (Z.pred b) (nb b)) 128 = 0.
Proof.
  intros Hb. assert ((b =? 0) || (Z.land (Z.land (Z.pred b) (nb b)) 128 =? 0) = true) as E.
  { apply (byte_cases (λ b, (b =? 0) || (Z.land (Z.land (Z.pred b) (nb b)) 128 =? 0))); [by vm_compute|lia]. }
  apply orb_true_iff in E as [E|E]; apply Z.eqb_eq in E; lia.
Qed.

Lemma find_zero_low_at pre post :
  Forall (λ b, 0 < b < 256) pre → bytes post → length (pre ++ 0 :: post) = 8%nat →
  first_at (length pre) (find_zero_low (dec_le (pre ++ 0 :: post))).
Proof.
  intros Hp Hq Hl. set (k := length pre). set (bs := pre ++ 0 :: post) in *.
  assert (bytes pre) as Hpb by (eapply Forall_impl; [exact Hp|]; cbn; lia).
  assert (bytes bs) as Hb by (apply Forall_app; split; [done|by constructor]).
  assert (k < 8)%nat as Hk by (unfold bs, k in *; rewrite length_app in Hl; cbn in Hl; lia).
  assert (find_zero_low (dec_le bs) mod 256 ^ Z.of_nat (S k) = dec_le (replicate k 0 ++ [128])) as Em.
  { unfold find_zero_low. rewrite not64_dec, !repeat_bytes_dec by (done || lia).
    rewrite (pow256 (S k)), !land_mod, <- !(pow256 (S k)) by lia.
    unfold wrapu. change (2 ^ 64) with (256 ^ Z.of_nat 8). rewrite pow256_mod_mod by lia.
    unfold bs at 1. rewrite (sub_ones_mod pre post k) by done.
    replace (nb <$> bs) with ((nb <$> pre ++ [0]) ++ (nb <$> post)) by (unfold bs; by rewrite <- fmap_app, <- (assoc_L (++))).
    replace (replicate 8 128) with (replicate (S k) 128 ++ replicate (7 - k) 128)
      by (rewrite <- replicate_add; f_equal; lia).
    assert (length (nb <$> pre ++ [0]) = S k) as E1 by (rewrite length_fmap, length_app; cbn; unfold k; lia).
    assert (bytes (nb <$> pre ++ [0])) as B1.
    { apply Forall_fmap, Forall_app. split; [eapply Forall_impl; [exact Hpb|]; cbn; unfold nb; lia|]. repeat constructor; done. }
    rewrite <- E1 at 1. rewrite dec_le_mod by done.
    rewrite <- (length_replicate (S k) 128) at 2. rewrite dec_le_mod by (apply Forall_replicate; lia).
    assert (bytes (Z.pred <$> pre)) as B2 by (apply Forall_fmap; eapply Forall_impl; [exact Hp|]; cbn; lia).
    rewrite land_dec; [|apply Forall_app; split; [done|repeat constructor; done]|done|rewrite E1, length_app, length_fmap; cbn; unfold k; lia].
    rewrite land_dec; [|..]. 
    - f_equal. unfold k. clear -Hp. induction Hp as [|b pre Hb Hp IH]; [done|].
      cbn in IH |- *. by rewrite low_byte, IH by done.
    - rewrite fmap_app. cbn [fmap list_fmap]. clear -Hp. induction Hp as [|b pre Hb Hp IH]; cbn; [by repeat constructor|].
      constructor; [apply land_byte; unfold nb; lia|done].
    - apply Forall_replicate. lia.
    - rewrite length_zip_with, E1, length_app, length_fmap, length_replicate. cbn. unfold k. lia. }
  assert (∀ i, 0 <= i < 8 * Z.of_nat (S k) → Z.testbit (find_zero_low (dec_le bs)) i = (i =? 8 * Z.of_nat k + 7)) as Hbit.
  { intros i Hi. rewrite <- (Z.mod_pow2_bits_low _ (8 * Z.of_nat (S k))) by lia. rewrite <- pow256, Em, dec_le_app, length_replicate.
    assert (dec_le (replicate k 0) = 0) as -> by (clear; induction k as [|k IH]; cbn [replicate dec_le]; lia).
    cbn [dec_le]. rewrite Z.add_0_l, pow256. replace (128 + 256 * 0) with (2 ^ 7) by done.
    rewrite <- Z.pow_add_r by lia. rewrite Z.pow2_bits_eqb by lia. lia. }
  split_and!.
  - unfold find_zero_low. apply Z.land_nonneg. right. rewrite repeat_bytes_dec by lia. done.
  - intros i Hi. rewrite Hbit by lia. lia.
  - exists (8 * Z.of_nat k + 7). rewrite Hbit by lia. split; lia.
Qed.

Lemma find_zero_low_none bs : Forall (λ b, 0 < b < 256) bs → length bs = 8%nat → find_zero_low (dec_le bs) = 0.
Proof.
  intros Hp Hl. assert (bytes bs) as Hb by (eapply Forall_impl; [exact Hp|]; cbn; lia).
  unfold find_zero_low. rewrite not64_dec, !repeat_bytes_dec by (done || lia).
  rewrite sub_dec by by rewrite length_replicate.
  assert (zip_with Z.sub bs (replicate 8 1) = Z.pred <$> bs) as ->.
  { rewrite <- Hl. clear. induction bs as [|b bs IH]; cbn; [done|]. by rewrite IH. }
  assert (bytes (Z.pred <$> bs)) as B by (apply Forall_fmap; eapply Forall_impl; [exact Hp|]; cbn; lia).
  assert (bytes (nb <$> bs)) as B' by (apply Forall_fmap; eapply Forall_impl; [exact Hb|]; cbn; unfold nb; lia).
  rewrite u64_dec by (try rewrite length_fmap; done).
  rewrite land_dec by (try rewrite !length_fmap; done).
  rewrite land_dec; [| |apply Forall_replicate; lia|rewrite length_zip_with, !length_fmap, length_replicate; lia].
  - clear -Hp Hl. rewrite <- Hl. clear Hl.
    induction Hp as [|b bs Hb Hp IH]; [done|]. cbn in IH |- *. by rewrite low_byte, IH by done.
  - clear -Hp. induction Hp as [|b bs Hb Hp IH]; cbn; [constructor|].
    constructor; [apply land_byte; unfold nb; lia|done].
Qed.

(** ** Positions *)

(** The index of the first element that satisfies [p], the length if there is none. *)
Fixpoint first_pos (p : Z → bool) (l : list Z) : nat :=
  match l with
  | [] => 0
  | x :: l => if p x then 0 else S (first_pos p l)
  end.

Definition is0 (b : Z) : bool := b =? 0.
Definition is0or (c b : Z) : bool := (b =? 0) || (b =? c).

Lemma first_pos_split p l :
  existsb p l = true → ∃ pre x post, l = pre ++ x :: post ∧ length pre = first_pos p l ∧
    Forall (λ y, p y = false) pre ∧ p x = true.
Proof.
  induction l as [|x l IH]; [done|]. cbn. destruct (p x) eqn:E; cbn.
  - intros _. exists [], x, l. by split_and!.
  - intros (pre & y & post & -> & Hl & Hpre & Hy)%IH. exists (x :: pre), y, post. split_and!; [done|cbn; lia|by constructor|done].
Qed.

Lemma existsb_false p (l : list Z) : existsb p l = false → Forall (λ y, p y = false) l.
Proof. induction l as [|x l IH]; cbn; [constructor|]. intros [? ?]%orb_false_iff. constructor; auto. Qed.

Lemma first_pos_lt p l : existsb p l = true → (first_pos p l < length l)%nat.
Proof.
  intros (pre & x & post & E & Hl & _)%first_pos_split. rewrite E at 2. rewrite length_app. cbn. lia.
Qed.

(** ** The index of the first set byte *)

Lemma ctz_from_ok n i c t m :
  Z.testbit c t = true → i <= t < i + Z.of_nat n →
  ∃ j, ctz_from n i c m = Some (j, m) ∧ i <= j <= t ∧ Z.testbit c j = true.
Proof.
  revert i. induction n as [|n IH]; intros i Ht Hr; [lia|]. cbn [ctz_from].
  destruct (Z.testbit c i) eqn:E.
  - exists i. split_and!; [done|lia|lia|done].
  - assert (i ≠ t) by congruence. destruct (IH (i + 1) Ht) as (j & ? & ? & ?); [lia|].
    exists j. split_and!; [done|lia|lia|done].
Qed.

Lemma first_at_nonzero k c : first_at k c → c ≠ 0.
Proof. intros (_ & _ & t & _ & Ht) ->. by rewrite Z.bits_0 in Ht. Qed.


Lemma index_first_at k c m : first_at k c → (k < 8)%nat → index_first c m = Some (Z.of_nat k, m).
Proof.
  intros Hf Hk. pose proof (first_at_nonzero _ _ Hf) as Hnz. destruct Hf as (Hc & Hlow & t & Ht & Hbit).
  destruct (ctz_from_ok 64 0 c t m Hbit) as (j & Ej & Hj & Hjb); [lia|].
  unfold index_first. rewrite (W_step _ _ _ j m); [|unfold ctz; by rewrite (proj2 (Z.eqb_neq _ _))].
  unfold mret, W_ret. do 2 f_equal.
  assert (8 * Z.of_nat k <= j).
  { destruct (Z.le_gt_cases (8 * Z.of_nat k) j); [done|]. rewrite Hlow in Hjb by lia. done. }
  symmetry. apply (Z.div_unique j 8 _ (j - 8 * Z.of_nat k)); lia.
Qed.

Lemma first_at_lor k1 k2 c1 c2 : first_at k1 c1 → first_at k2 c2 → first_at (min k1 k2) (Z.lor c1 c2).
Proof.
  intros (H1 & L1 & t1 & R1 & B1) (H2 & L2 & t2 & R2 & B2). split_and!.
  - by apply Z.lor_nonneg.
  - intros i Hi. rewrite Z.lor_spec, L1, L2 by lia. done.
  - destruct (Nat.le_gt_cases k1 k2).
    + exists t1. split; [lia|]. by rewrite Z.lor_spec, B1.
    + exists t2. split; [lia|]. by rewrite Z.lor_spec, B2, orb_true_r.
Qed.

(** The exact masks: 128 in the bytes that satisfy a test. *)
Definition mark (p : Z → bool) (b : Z) : Z := if p b then 128 else 0.

Lemma mark_bytes p l : bytes (mark p <$> l).
Proof. apply Forall_fmap, Forall_forall. intros b _. cbn. unfold mark. case_match; lia. Qed.

Lemma mark_zeros p l : Forall (λ y, p y = false) l → dec_le (mark p <$> l) = 0.
Proof. induction 1 as [|x l Hx Hl IH]; [done|]. rewrite fmap_cons. cbn [dec_le]. rewrite IH. unfold mark. by rewrite Hx. Qed.

Lemma mark_first_at p l : existsb p l = true → first_at (first_pos p l) (dec_le (mark p <$> l)).
Proof.
  intros (pre & x & post & -> & <- & Hpre & Hx)%first_pos_split.
  rewrite fmap_app, dec_le_app, (mark_zeros p pre Hpre), length_fmap, Z.add_0_l, pow256, fmap_cons. cbn [dec_le].
  unfold mark at 1. rewrite Hx. pose proof (dec_le_range _ (mark_bytes p post)) as Hr.
  rewrite Z.mul_comm. split_and!.
  - apply Z.mul_nonneg_nonneg; [|apply Z.pow_nonneg; lia]. lia.
  - intros i Hi. apply Z.mul_pow2_bits_low. lia.
  - exists (8 * Z.of_nat (length pre) + 7). split; [lia|]. rewrite Z.mul_pow2_bits by lia.
    replace (_ + 7 - _) with 7 by lia. rewrite testbit_cons by lia. done.
Qed.

Lemma mark_nonzero p l : (dec_le (mark p <$> l) =? 0) = negb (existsb p l).
Proof.
  destruct (existsb p l) eqn:E; cbn.
  - apply Z.eqb_neq. by eapply first_at_nonzero, mark_first_at.
  - by rewrite mark_zeros by by apply existsb_false.
Qed.

Lemma mark_index p l m :
  existsb p l = true → (length l <= 8)%nat → index_first (dec_le (mark p <$> l)) m = Some (Z.of_nat (first_pos p l), m).
Proof.
  intros He Hl. apply index_first_at; [by apply mark_first_at|]. pose proof (first_pos_lt p l He). lia.
Qed.

Lemma shift_find_dec vs s : bytes vs → 0 <= s → shift_find (dec_le vs) s = dec_le (drop (Z.to_nat (s mod 8)) vs).
Proof.
  intros Hv Hs. unfold shift_find. pose proof (Z.mod_pos_bound s 8 ltac:(lia)) as Hr.
  replace (8 * (s mod 8)) with (8 * Z.of_nat (Z.to_nat (s mod 8))) by lia. generalize (Z.to_nat (s mod 8)). intros n.
  rewrite Z.shiftr_div_pow2, <- pow256 by lia. destruct (Nat.le_gt_cases n (length vs)).
  - rewrite <- (take_drop n vs) at 1. rewrite dec_le_app, length_take_le by done.
    rewrite Z.mul_comm, Z.div_add by (pose proof (pow256_pos n); lia).
    rewrite Z.div_small; [done|]. assert (bytes (take n vs)) as Ht by by apply Forall_take.
    apply dec_le_range in Ht. by rewrite length_take_le in Ht.
  - rewrite drop_ge by lia. pose proof (dec_le_range _ Hv) as Hd. apply Z.div_small. split; [lia|].
    eapply Z.lt_le_trans; [apply Hd|]. apply Z.pow_le_mono_r; lia.
Qed.

(** ** Whole words *)

Lemma lxor_repeat bs c :
  bytes bs → length bs = 8%nat → 0 <= c < 256 →
  Z.lxor (dec_le bs) (repeat_bytes c) = dec_le ((λ b, Z.lxor b c) <$> bs) ∧ bytes ((λ b, Z.lxor b c) <$> bs).
Proof.
  intros Hb Hl Hc. rewrite repeat_bytes_dec by done. rewrite lxor_dec by (try rewrite length_replicate; try apply Forall_replicate; done).
  split.
  - f_equal. rewrite <- Hl. clear. induction bs as [|b bs IH]; cbn; [done|]. by rewrite IH.
  - apply Forall_fmap. eapply Forall_impl; [exact Hb|]. cbn. intros b ?. by apply lxor_byte.
Qed.

Lemma is0_lxor b c : is0 (Z.lxor b c) = (b =? c).
Proof. unfold is0. destruct (Z.eqb_spec b c) as [->|]; [by rewrite Z.lxor_nilpotent|]. apply Z.eqb_neq. by rewrite Z.lxor_eq_0_iff. Qed.

Lemma existsb_fmap p (f : Z → Z) l : existsb p (f <$> l) = existsb (λ b, p (f b)) l.
Proof. induction l as [|x l IH]; cbn; [done|]. by rewrite IH. Qed.

Lemma first_pos_fmap p (f : Z → Z) l : first_pos p (f <$> l) = first_pos (λ b, p (f b)) l.
Proof. induction l as [|x l IH]; cbn; [done|]. by rewrite IH. Qed.

Lemma existsb_ext p q (l : list Z) : (∀ b, p b = q b) → existsb p l = existsb q l.
Proof. intros H. induction l as [|x l IH]; cbn; [done|]. by rewrite H, IH. Qed.

Lemma first_pos_ext p q l : (∀ b, p b = q b) → first_pos p l = first_pos q l.
Proof. intros H. induction l as [|x l IH]; cbn; [done|]. by rewrite H, IH. Qed.

Lemma low_mask bs :
  bytes bs → length bs = 8%nat →
  if existsb is0 bs then first_at (first_pos is0 bs) (find_zero_low (dec_le bs)) else find_zero_low (dec_le bs) = 0.
Proof.
  intros Hb Hl. destruct (existsb is0 bs) eqn:E.
  - apply first_pos_split in E as (pre & x & post & -> & <- & Hpre & Hx).
    apply Z.eqb_eq in Hx as ->. apply Forall_app in Hb as [Hb1 [_ Hb2]%Forall_cons].
    apply find_zero_low_at; [|done|done].
    apply Forall_forall. intros b Hin. rewrite Forall_forall in Hpre, Hb1. specialize (Hpre b Hin). specialize (Hb1 b Hin).
    apply Z.eqb_neq in Hpre. cbn in Hb1. lia.
  - apply find_zero_low_none; [|done]. apply existsb_false in E.
    apply Forall_forall. intros b Hin. rewrite Forall_forall in E, Hb. specialize (E b Hin). specialize (Hb b Hin).
    apply Z.eqb_neq in E. cbn in Hb. lia.
Qed.

Lemma has_zero_dec bs : bytes bs → length bs = 8%nat → has_zero (dec_le bs) = existsb is0 bs.
Proof.
  intros Hb Hl. unfold has_zero. pose proof (low_mask bs Hb Hl) as Hm. destruct (existsb is0 bs).
  - apply first_at_nonzero in Hm. by rewrite (proj2 (Z.eqb_neq _ _)).
  - by rewrite Hm.
Qed.

Lemma index_first_zero_dec bs m :
  bytes bs → length bs = 8%nat → existsb is0 bs = true →
  index_first_zero (dec_le bs) m = Some (Z.of_nat (first_pos is0 bs), m).
Proof.
  intros Hb Hl E. pose proof (low_mask bs Hb Hl) as Hm. rewrite E in Hm. apply index_first_at; [done|].
  pose proof (first_pos_lt _ _ E). lia.
Qed.

Lemma eq_low_mask bs c :
  bytes bs → length bs = 8%nat → 0 <= c < 256 →
  if existsb (λ b, b =? c) bs then first_at (first_pos (λ b, b =? c) bs) (find_eq_low (dec_le bs) (repeat_bytes c))
  else find_eq_low (dec_le bs) (repeat_bytes c) = 0.
Proof.
  intros Hb Hl Hc. unfold find_eq_low. destruct (lxor_repeat bs c Hb Hl Hc) as [-> Hx].
  pose proof (low_mask _ Hx ltac:(by rewrite length_fmap)) as Hm.
  rewrite existsb_fmap, first_pos_fmap in Hm.
  rewrite (existsb_ext _ (λ b, b =? c)), (first_pos_ext _ (λ b, b =? c)) in Hm by (intros; apply is0_lxor). done.
Qed.

Lemma has_eq_dec bs c :
  bytes bs → length bs = 8%nat → 0 <= c < 256 → has_eq (dec_le bs) (repeat_bytes c) = existsb (λ b, b =? c) bs.
Proof.
  intros Hb Hl Hc. unfold has_eq. pose proof (eq_low_mask bs c Hb Hl Hc) as Hm. destruct (existsb _ bs).
  - apply first_at_nonzero in Hm. by rewrite (proj2 (Z.eqb_neq _ _)).
  - by rewrite Hm.
Qed.

Lemma index_first_eq_dec bs c m :
  bytes bs → length bs = 8%nat → 0 <= c < 256 → existsb (λ b, b =? c) bs = true →
  index_first_eq (dec_le bs) (repeat_bytes c) m = Some (Z.of_nat (first_pos (λ b, b =? c) bs), m).
Proof.
  intros Hb Hl Hc E. pose proof (eq_low_mask bs c Hb Hl Hc) as Hm. rewrite E in Hm. apply index_first_at; [done|].
  pose proof (first_pos_lt _ _ E). lia.
Qed.

Lemma find_zero_mark bs : bytes bs → length bs = 8%nat → find_zero_all (dec_le bs) = dec_le (mark is0 <$> bs).
Proof. intros. by rewrite find_zero_all_dec. Qed.

Lemma find_eq_mark bs c :
  bytes bs → length bs = 8%nat → 0 <= c < 256 →
  find_eq_all (dec_le bs) (repeat_bytes c) = dec_le (mark (λ b, b =? c) <$> bs).
Proof.
  intros Hb Hl Hc. unfold find_eq_all. destruct (lxor_repeat bs c Hb Hl Hc) as [-> Hx].
  rewrite find_zero_mark by (try rewrite length_fmap; done). rewrite <- list_fmap_compose. f_equal.
  apply list_fmap_ext. intros i b _. unfold compose, mark. by rewrite is0_lxor.
Qed.

Lemma find_zero_eq_mark bs c :
  bytes bs → length bs = 8%nat → 0 <= c < 256 →
  find_zero_eq_all (dec_le bs) (repeat_bytes c) = dec_le (mark (is0or c) <$> bs).
Proof.
  intros Hb Hl Hc. unfold find_zero_eq_all. fold (find_eq_all (dec_le bs) (repeat_bytes c)).
  rewrite find_eq_mark, find_zero_mark by done.
  rewrite lor_dec by (try apply mark_bytes; by rewrite !length_fmap). f_equal. clear.
  induction bs as [|b bs IH]; cbn; [done|]. rewrite IH. f_equal. unfold mark, is0or, is0.
  by destruct (b =? 0), (b =? c).
Qed.

Lemma first_pos_orb p q l :
  first_pos (λ b, p b || q b) l = min (first_pos p l) (first_pos q l).
Proof. induction l as [|x l IH]; cbn; [done|]. destruct (p x), (q x); cbn; lia. Qed.

Lemma existsb_orb p q (l : list Z) : existsb (λ b, p b || q b) l = existsb p l || existsb q l.
Proof. induction l as [|x l IH]; cbn; [done|]. rewrite IH. by destruct (p x), (q x), (existsb p l), (existsb q l). Qed.

Lemma first_pos_none p l : existsb p l = false → first_pos p l = length l.
Proof. induction l as [|x l IH]; cbn; [done|]. destruct (p x); [done|]. cbn. intros. by rewrite IH. Qed.

Lemma zero_eq_low_mask bs c :
  bytes bs → length bs = 8%nat → 0 <= c < 256 →
  if existsb (is0or c) bs then first_at (first_pos (is0or c) bs) (find_zero_eq_low (dec_le bs) (repeat_bytes c))
  else find_zero_eq_low (dec_le bs) (repeat_bytes c) = 0.
Proof.
  intros Hb Hl Hc. unfold find_zero_eq_low. fold (find_eq_low (dec_le bs) (repeat_bytes c)).
  pose proof (low_mask bs Hb Hl) as H1. pose proof (eq_low_mask bs c Hb Hl Hc) as H2.
  change (is0or c) with (λ b, is0 b || (b =? c)). rewrite existsb_orb, first_pos_orb.
  destruct (existsb is0 bs) eqn:E1, (existsb (λ b, b =? c) bs) eqn:E2; cbn [orb].
  - by apply first_at_lor.
  - rewrite H2, Z.lor_0_r, (first_pos_none _ _ E2). pose proof (first_pos_lt _ _ E1). by rewrite Nat.min_l by lia.
  - rewrite H1, Z.lor_0_l, (first_pos_none _ _ E1). pose proof (first_pos_lt _ _ E2). by rewrite Nat.min_r by lia.
  - by rewrite H1, H2.
Qed.

Lemma has_zero_eq_dec bs c :
  bytes bs → length bs = 8%nat → 0 <= c < 256 → has_zero_eq (dec_le bs) (repeat_bytes c) = existsb (is0or c) bs.
Proof.
  intros Hb Hl Hc. unfold has_zero_eq. pose proof (zero_eq_low_mask bs c Hb Hl Hc) as Hm. destruct (existsb _ bs).
  - apply first_at_nonzero in Hm. by rewrite (proj2 (Z.eqb_neq _ _)).
  - by rewrite Hm.
Qed.

Lemma index_first_zero_eq_dec bs c m :
  bytes bs → length bs = 8%nat → 0 <= c < 256 → existsb (is0or c) bs = true →
  index_first_zero_eq (dec_le bs) (repeat_bytes c) m = Some (Z.of_nat (first_pos (is0or c) bs), m).
Proof.
  intros Hb Hl Hc E. pose proof (zero_eq_low_mask bs c Hb Hl Hc) as Hm. rewrite E in Hm. apply index_first_at; [done|].
  pose proof (first_pos_lt _ _ E). lia.
Qed.
