(* ===== verification/WordStr.v ===== *)
(** * WordStr: glibc's [string/] functions that go a word at a time

    [strlen], [strchrnul], [strchr], [memchr], [strnlen], [rawmemchr], [memrchr], [strrchr],
    [strcmp], [strncmp], [stpcpy], [strcpy] and [strcat] as the sources of the directory
    [string/] have them.  Every loop takes the number of its turns as fuel. *)

From S2P Require Import Prelude Mem Logic Flat Fza.
Local Open Scope Z_scope.

Definition PTR_ALIGN_DOWN (a : Z) : Z := 8 * (a / 8).
Definition PTR_ALIGN_UP (a : Z) : Z := 8 * ((a + 7) / 8).

(** ** Searching *)

(** [do word = *++word_ptr; while (! stop (word))] *)
Fixpoint next_word (stop : Z → bool) (fuel : nat) (word_ptr : Z) : W (Z * Z) :=
  match fuel with
  | O => undefined
  | S fuel =>
    let word_ptr := word_ptr + 8 in
    word ← load_word word_ptr;
    if stop word then mret (word_ptr, word) else next_word stop fuel word_ptr
  end.

Definition strlen (fuel : nat) (s : Z) : W Z :=
  let word_ptr := PTR_ALIGN_DOWN s in
  word ← load_word word_ptr;
  let mask := shift_find (find_zero_all word) s in
  if negb (mask =? 0) then index_first mask
  else
    '(word_ptr, word) ← next_word has_zero fuel word_ptr;
    i ← index_first_zero word;
    mret (word_ptr + i - s).

Definition strchrnul (fuel : nat) (s c_in : Z) : W Z :=
  let word_ptr := PTR_ALIGN_DOWN s in
  let repeated_c := repeat_bytes c_in in
  word ← load_word word_ptr;
  let mask := shift_find (find_zero_eq_all word repeated_c) s in
  if negb (mask =? 0) then i ← index_first mask; mret (s + i)
  else
    '(word_ptr, word) ← next_word (λ w, has_zero_eq w repeated_c) fuel word_ptr;
    i ← index_first_zero_eq word repeated_c;
    mret (word_ptr + i).

(** Pointers that can be null: [None]. *)
Definition strchr (fuel : nat) (s c_in : Z) : W (option Z) :=
  r ← strchrnul fuel s c_in;
  c ← load_byte r;
  mret (if c =? u8 c_in then Some r else None).

Definition sadd (x y : Z) : Z := if 2 ^ 64 - 1 - x <? y then 2 ^ 64 - 1 else x + y.

(** [while (word_ptr != lword) ...]: the result in the loop, or the last word. *)
Fixpoint memchr_loop (fuel : nat) (word_ptr lword word repeated_c : Z) : W (Z + Z) :=
  if word_ptr =? lword then mret (inr word)
  else
    match fuel with
    | O => undefined
    | S fuel =>
      if has_eq word repeated_c then i ← index_first_eq word repeated_c; mret (inl (word_ptr + i))
      else
        let word_ptr := word_ptr + 8 in
        word ← load_word word_ptr;
        memchr_loop fuel word_ptr lword word repeated_c
    end.

Definition memchr (fuel : nat) (s c_in n : Z) : W (option Z) :=
  if n =? 0 then mret None
  else
    let word_ptr := PTR_ALIGN_DOWN s in
    word ← load_word word_ptr;
    let repeated_c := repeat_bytes c_in in
    let lbyte := sadd s (n - 1) in
    let lword := PTR_ALIGN_DOWN lbyte in
    let mask := shift_find (find_eq_all word repeated_c) s in
    if negb (mask =? 0) then
      i ← index_first mask;
      let ret := s + i in
      mret (if ret <=? lbyte then Some ret else None)
    else if word_ptr =? lword then mret None
    else
      let word_ptr := word_ptr + 8 in
      word ← load_word word_ptr;
      r ← memchr_loop fuel word_ptr lword word repeated_c;
      match r with
      | inl ret => mret (Some ret)
      | inr word =>
        if has_eq word repeated_c then
          i ← index_first_eq word repeated_c;
          let ret := lword + i in
          mret (if ret <=? lbyte then Some ret else None)
        else mret None
      end.

Definition strnlen (fuel : nat) (s maxlen : Z) : W Z :=
  found ← memchr fuel s 0 maxlen;
  mret (match found with Some p => p - s | None => maxlen end).

Definition rawmemchr (fuel : nat) (s c : Z) : W (option Z) :=
  if negb (u8 c =? 0) then memchr fuel s c (2 ^ 64 - 1)
  else n ← strlen fuel s; mret (Some (s + n)).

(** [while (word_ptr != sword) ...] of [memrchr]. *)
Fixpoint memrchr_loop (fuel : nat) (word_ptr sword word repeated_c : Z) : W (Z + Z) :=
  if word_ptr =? sword then mret (inr word)
  else
    match fuel with
    | O => undefined
    | S fuel =>
      if has_eq word repeated_c then i ← index_last_eq word repeated_c; mret (inl (word_ptr + i))
      else
        let word_ptr := word_ptr - 8 in
        word ← load_word word_ptr;
        memrchr_loop fuel word_ptr sword word repeated_c
    end.

Definition memrchr (fuel : nat) (s c_in n : Z) : W (option Z) :=
  if n =? 0 then mret None
  else
    let word_ptr := PTR_ALIGN_UP (s + n) - 8 in
    let s_int := s + n in
    word ← load_word word_ptr;
    let repeated_c := repeat_bytes c_in in
    let sword := PTR_ALIGN_DOWN s in
    let mask := shift_find_last (find_eq_all word repeated_c) s_int in
    if negb (mask =? 0) then
      i ← index_last mask;
      let ret := word_ptr + i in
      mret (if s <=? ret then Some ret else None)
    else if word_ptr =? sword then mret None
    else
      let word_ptr := word_ptr - 8 in
      word ← load_word word_ptr;
      r ← memrchr_loop fuel word_ptr sword word repeated_c;
      match r with
      | inl ret => mret (Some ret)
      | inr word =>
        if has_eq word repeated_c then
          i ← index_last_eq word repeated_c;
          let ret := sword + i in
          mret (if s <=? ret then Some ret else None)
        else mret None
      end.

Definition strrchr (fuel : nat) (s c : Z) : W (option Z) :=
  n ← strlen fuel s;
  memrchr fuel s c (n + 1).

(** ** Comparing *)

Definition final_cmp (w1 w2 : Z) : W Z :=
  idx ← index_first_zero_ne w1 w2;
  mret (extractbyte w1 idx - extractbyte w2 idx).

(** From the test of the loop on, with [w2] loaded. *)
Fixpoint aligned_cmp (fuel : nat) (x1 x2 w1 w2 : Z) : W Z :=
  match fuel with
  | O => undefined
  | S fuel =>
    if w1 =? w2 then
      if has_zero w1 then mret 0
      else
        w1 ← load_word x1;
        w2 ← load_word x2;
        aligned_cmp fuel (x1 + 8) (x2 + 8) w1 w2
    else final_cmp w1 w2
  end.

Definition strcmp_aligned_loop (fuel : nat) (x1 x2 w1 : Z) : W Z :=
  w2 ← load_word x2;
  aligned_cmp fuel x1 (x2 + 8) w1 w2.

(** The [while (1)] of [strcmp_unaligned_loop] and what follows it. *)
Fixpoint unaligned_cmp (fuel : nat) (x1 x2 w1 w2a sh_1 sh_2 : Z) : W Z :=
  match fuel with
  | O => undefined
  | S fuel =>
    w2b ← load_word x2;
    let w2 := MERGE w2a sh_1 w2b sh_2 in
    if negb (w1 =? w2) then final_cmp w1 w2
    else if has_zero w2b then
      if has_zero w1 then mret 0
      else
        w1 ← load_word x1;
        final_cmp w1 (MERGE w2b sh_1 0 sh_2)
    else
      w1 ← load_word x1;
      unaligned_cmp fuel (x1 + 8) (x2 + 8) w1 w2b sh_1 sh_2
  end.

Definition strcmp_unaligned_loop (fuel : nat) (x1 x2 w1 ofs : Z) : W Z :=
  w2a ← load_word x2;
  let sh_1 := ofs * 8 in
  let sh_2 := 64 - sh_1 in
  let w2 := MERGE w2a sh_1 (2 ^ 64 - 1) sh_2 in
  if negb (has_zero w2) then unaligned_cmp fuel x1 (x2 + 8) w1 w2a sh_1 sh_2
  else final_cmp w1 w2.

(** The loop over the bytes before [p1] is aligned: the difference, or the pointers. *)
Fixpoint cmp_bytes (n : nat) (p1 p2 : Z) : W (Z + Z * Z) :=
  match n with
  | O => mret (inr (p1, p2))
  | S n =>
    c1 ← load_byte p1;
    c2 ← load_byte p2;
    let diff := c1 - c2 in
    if (c1 =? 0) || negb (diff =? 0) then mret (inl diff) else cmp_bytes n (p1 + 1) (p2 + 1)
  end.

Definition strcmp (fuel : nat) (p1 p2 : Z) : W Z :=
  let n := u64 (- p1) mod 8 in
  r ← cmp_bytes (Z.to_nat n) p1 p2;
  match r with
  | inl diff => mret diff
  | inr (p1, p2) =>
    w1 ← load_word p1;
    let x1 := p1 + 8 in
    let ofs := p2 mod 8 in
    if ofs =? 0 then strcmp_aligned_loop fuel x1 p2 w1
    else strcmp_unaligned_loop fuel x1 (p2 - ofs) w1 ofs
  end.

(** ** Comparing at most [n] bytes *)

Definition final_ncmp (w1 w2 n : Z) : W Z :=
  idx ← index_first_zero_ne w1 w2;
  mret (if n <=? idx then 0 else extractbyte w1 idx - extractbyte w2 idx).

Fixpoint aligned_ncmp (fuel : nat) (x1 x2 w1 w2 n : Z) : W Z :=
  match fuel with
  | O => undefined
  | S fuel =>
    if w1 =? w2 then
      if n <=? 8 then final_ncmp w1 w2 n
      else
        let n := n - 8 in
        if has_zero w1 then mret 0
        else
          w1 ← load_word x1;
          w2 ← load_word x2;
          aligned_ncmp fuel (x1 + 8) (x2 + 8) w1 w2 n
    else final_ncmp w1 w2 n
  end.

Definition strncmp_aligned_loop (fuel : nat) (x1 x2 w1 n : Z) : W Z :=
  w2 ← load_word x2;
  aligned_ncmp fuel x1 (x2 + 8) w1 w2 n.

Fixpoint unaligned_ncmp (fuel : nat) (x1 x2 w1 w2a sh_1 sh_2 ofs n : Z) : W Z :=
  match fuel with
  | O => undefined
  | S fuel =>
    w2b ← load_word x2;
    let w2 := MERGE w2a sh_1 w2b sh_2 in
    if (n <=? 8) || negb (w1 =? w2) then final_ncmp w1 w2 n
    else
      let n := n - 8 in
      if has_zero w2b || (n <=? 8 - ofs) then
        if has_zero w1 then mret 0
        else
          w1 ← load_word x1;
          final_ncmp w1 (MERGE w2b sh_1 0 sh_2) n
      else
        w1 ← load_word x1;
        unaligned_ncmp fuel (x1 + 8) (x2 + 8) w1 w2b sh_1 sh_2 ofs n
  end.

Definition strncmp_unaligned_loop (fuel : nat) (x1 x2 w1 ofs n : Z) : W Z :=
  w2a ← load_word x2;
  let sh_1 := ofs * 8 in
  let sh_2 := 64 - sh_1 in
  let w2 := MERGE w2a sh_1 (2 ^ 64 - 1) sh_2 in
  if negb (has_zero w2) && (8 - ofs <? n) then unaligned_ncmp fuel x1 (x2 + 8) w1 w2a sh_1 sh_2 ofs n
  else final_ncmp w1 w2 n.

Definition strncmp (fuel : nat) (p1 p2 n : Z) : W Z :=
  let a := Z.min (u64 (- p1) mod 8) n in
  r ← cmp_bytes (Z.to_nat a) p1 p2;
  match r with
  | inl diff => mret diff
  | inr (p1, p2) =>
    if a =? n then mret 0
    else
      w1 ← load_word p1;
      let x1 := p1 + 8 in
      let ofs := p2 mod 8 in
      if ofs =? 0 then strncmp_aligned_loop fuel x1 p2 w1 (n - a)
      else strncmp_unaligned_loop fuel x1 (p2 - ofs) w1 ofs (n - a)
  end.

(** ** Copying *)

(** From byte [i] of the word on; the address of the NUL, or of the byte after the word. *)
Fixpoint write_bytes (n : nat) (d i word : Z) : W Z :=
  match n with
  | O => mret d
  | S n =>
    let c := extractbyte word i in
    store_byte d c;;
    if c =? 0 then mret d else write_bytes n (d + 1) (i + 1) word
  end.

Definition write_byte_from_word (dest word : Z) : W Z := write_bytes 8 dest 0 word.

Fixpoint stpcpy_aligned_loop (fuel : nat) (dst src : Z) : W Z :=
  match fuel with
  | O => undefined
  | S fuel =>
    word ← load_word src;
    if has_zero word then write_byte_from_word dst word
    else store_word dst word;; stpcpy_aligned_loop fuel (dst + 8) (src + 8)
  end.

(** The [while (1)] of [stpcpy_unaligned_loop] and what follows it. *)
Fixpoint unaligned_cpy (fuel : nat) (dst src w2a sh_1 sh_2 : Z) : W Z :=
  match fuel with
  | O => undefined
  | S fuel =>
    w2b ← load_word src;
    let w2 := MERGE w2a sh_1 w2b sh_2 in
    if has_zero w2 then write_byte_from_word dst w2
    else
      store_word dst w2;;
      if has_zero w2b then write_byte_from_word (dst + 8) (MERGE w2b sh_1 0 sh_2)
      else unaligned_cpy fuel (dst + 8) (src + 8) w2b sh_1 sh_2
  end.

Definition stpcpy_unaligned_loop (fuel : nat) (dst src ofs : Z) : W Z :=
  w2a ← load_word src;
  let sh_1 := ofs * 8 in
  let sh_2 := 64 - sh_1 in
  let w2 := MERGE w2a sh_1 (2 ^ 64 - 1) sh_2 in
  if negb (has_zero w2) then unaligned_cpy fuel dst (src + 8) w2a sh_1 sh_2
  else write_byte_from_word dst w2.

(** The loop that aligns [dest]: the result, or the pointers after it. *)
Fixpoint cpy_bytes (n : nat) (dest src : Z) : W (Z + Z * Z) :=
  match n with
  | O => mret (inr (dest, src))
  | S n =>
    c ← load_byte src;
    store_byte dest c;;
    if c =? 0 then mret (inl dest) else cpy_bytes n (dest + 1) (src + 1)
  end.

Definition stpcpy (fuel : nat) (dest src : Z) : W Z :=
  let len := u64 (- dest) mod 8 in
  r ← cpy_bytes (Z.to_nat len) dest src;
  match r with
  | inl dest => mret dest
  | inr (dest, src) =>
    let ofs := src mod 8 in
    if ofs =? 0 then stpcpy_aligned_loop fuel dest src
    else stpcpy_unaligned_loop fuel dest (src - ofs) ofs
  end.

Definition strcpy (fuel : nat) (dest src : Z) : W Z := stpcpy fuel dest src;; mret dest.

Definition strcat (fuel : nat) (dest src : Z) : W Z :=
  n ← strlen fuel dest;
  strcpy fuel (dest + n) src;;
  mret dest.
