(* ===== verification/WordStrSpec.v ===== *)
(** * WordStrSpec: the word functions compute what the byte-wise definitions say

    Each function is run on a memory that holds a string (or some bytes) on mapped pages;
    that it has a result says that it reads no word outside these pages and that its loop
    ends; the fuel is a number of words. *)

From S2P Require Import Prelude Mem Logic CStr Flat Fza FzaSpec WordStr.
Local Open Scope Z_scope.

(** ** Bytes in memory *)

Lemma bytes_at_S m a k : bytes_at m a (S k) = byte m a :: bytes_at m (a + 1) k.
Proof.
  change (S k) with (1 + k)%nat. rewrite bytes_at_app. cbn. by rewrite Z.add_0_r.
Qed.

(** The first byte at [s] that satisfies [p] is at distance [n]. *)
Definition first_hit (m : mem) (s : Z) (n : nat) (p : Z → bool) : Prop :=
  (∀ i, (i < n)%nat → p (byte m (s + Z.of_nat i)) = false) ∧ p (byte m (s + Z.of_nat n)) = true.

Lemma first_hit_S m s n p : first_hit m s (S n) p → p (byte m s) = false ∧ first_hit m (s + 1) n p.
Proof.
  intros [H1 H2]. split; [|split].
  - specialize (H1 0%nat ltac:(lia)). by rewrite Z.add_0_r in H1.
  - intros i Hi. rewrite <- (H1 (S i)) by lia. do 2 f_equal. lia.
  - rewrite <- H2. do 2 f_equal. lia.
Qed.

Lemma first_hit_drop m s n k p : first_hit m s n p → (k <= n)%nat → first_hit m (s + Z.of_nat k) (n - k) p.
Proof.
  intros [H1 H2] Hk. split.
  - intros i Hi. rewrite <- (H1 (k + i)%nat) by lia. do 2 f_equal. lia.
  - rewrite <- H2. do 2 f_equal. lia.
Qed.

Lemma first_hit_bytes m s n p k :
  first_hit m s n p → existsb p (bytes_at m s k) = bool_decide (n < k)%nat ∧ ((n < k)%nat → first_pos p (bytes_at m s k) = n).
Proof.
  revert s n. induction k as [|k IH]; intros s n Hf; [rewrite bool_decide_eq_false_2 by lia; by split; [|lia]|].
  rewrite bytes_at_S. cbn [existsb first_pos]. destruct n as [|n].
  - destruct Hf as [_ Hf]. rewrite Z.add_0_r in Hf. rewrite Hf. cbn. rewrite bool_decide_eq_true_2 by lia. by split.
  - apply first_hit_S in Hf as [-> Hf]. destruct (IH _ _ Hf) as [-> Hp]. cbn [orb]. split.
    + apply bool_decide_ext. lia.
    + intros. by rewrite Hp by lia.
Qed.

Lemma string_first_hit m s str : string_at m s str → first_hit m s (length str) is0.
Proof.
  intros [H1 H2 H3 _]. split.
  - intros i Hi. destruct (str !! i) as [c|] eqn:E; [|apply lookup_ge_None in E; lia].
    rewrite (H1 _ _ E). unfold is0. eapply Forall_lookup_1 in H2; [|exact E]. cbn in H2. apply Z.eqb_neq. lia.
  - by rewrite H3.
Qed.

Section words.
Context (m : mem).
Hypothesis m_ok : bytes_ok m.
Set Default Proof Using "All".

Lemma word_bytes a : word_at m a = dec_le (bytes_at m a 8) ∧ bytes (bytes_at m a 8) ∧ length (bytes_at m a 8) = 8%nat.
Proof. split_and!; [done|by apply bytes_at_range|apply length_bytes_at]. Qed.

Lemma align_word s : PTR_ALIGN_DOWN s mod 8 = 0 ∧ s = PTR_ALIGN_DOWN s + s mod 8 ∧ 0 <= s mod 8 < 8.
Proof. clear. unfold PTR_ALIGN_DOWN. pose proof (Z.div_mod s 8). pose proof (Z.mod_pos_bound s 8). split_and!; [apply align_down|lia..]. Qed.

Lemma drop_word s : drop (Z.to_nat (s mod 8)) (bytes_at m (PTR_ALIGN_DOWN s) 8) = bytes_at m s (8 - Z.to_nat (s mod 8)).
Proof.
  destruct (align_word s) as (_ & Hs & Hr).
  replace 8%nat with (Z.to_nat (s mod 8) + (8 - Z.to_nat (s mod 8)))%nat at 1 by lia.
  rewrite bytes_at_app, drop_app_length' by (by rewrite length_bytes_at). f_equal. lia.
Qed.

(** The mask of the first word, without the bytes before [s]. *)
Lemma first_mask s p :
  shift_find (dec_le (mark p <$> bytes_at m (PTR_ALIGN_DOWN s) 8)) s =
  dec_le (mark p <$> bytes_at m s (8 - Z.to_nat (s mod 8))).
Proof.
  assert (∀ vs, bytes vs → shift_find (dec_le vs) s = dec_le (drop (Z.to_nat (s mod 8)) vs)) as E.
  { intros vs Hv. replace (shift_find (dec_le vs) s) with (shift_find (dec_le vs) (s mod 8)).
    - rewrite shift_find_dec by (done || apply align_word). by rewrite Zmod_mod.
    - unfold shift_find. by rewrite Zmod_mod. }
  rewrite E by apply mark_bytes. by rewrite <- fmap_drop, drop_word.
Qed.

Lemma load_first s : mapped m (page s) = true → load_word (PTR_ALIGN_DOWN s) m = Some (word_at m (PTR_ALIGN_DOWN s), m).
Proof. intros Hs. destruct (align_word s) as (Ha & E & Hr). by apply (load_word_reach m _ s); [|lia|]. Qed.

(** The loop stops at the word that holds the first hit. *)
Lemma next_word_ok stop p fuel wp n :
  wp mod 8 = 0 → (∀ bs, bytes bs → length bs = 8%nat → stop (dec_le bs) = existsb p bs) →
  first_hit m (wp + 8) n p → readable m (wp + 8) (Z.of_nat n + 1) → (n / 8 < fuel)%nat →
  next_word stop fuel wp m = Some (wp + 8 + 8 * Z.of_nat (n / 8), word_at m (wp + 8 + 8 * Z.of_nat (n / 8)), m) ∧
  first_hit m (wp + 8 + 8 * Z.of_nat (n / 8)) (n mod 8) p.
Proof.
  intros Hwp Hstop. revert wp n Hwp. induction fuel as [|fuel IH]; intros wp n Hwp Hf Hr Hfuel; [lia|]. cbn [next_word].
  rewrite (W_step _ _ _ _ _ (load_word_reach m (wp + 8) (wp + 8) ltac:(Z.to_euclidean_division_equations; lia) ltac:(lia) ltac:(apply Hr; lia))).
  destruct (word_bytes (wp + 8)) as (Ew & Hb & Hl). rewrite Ew, Hstop by done.
  destruct (first_hit_bytes _ _ _ _ 8 Hf) as [-> _]. case_bool_decide as Hn.
  - rewrite Nat.div_small, Nat.mod_small, Z.mul_0_r, Z.add_0_r by done. done.
  - assert (n / 8 = S ((n - 8) / 8) ∧ n mod 8 = (n - 8) mod 8)%nat as [E1 E2].
    { replace n with (n - 8 + 1 * 8)%nat at 1 3 by lia. rewrite Nat.div_add, Nat.Div0.mod_add by lia. lia. }
    rewrite E1, E2. destruct (IH (wp + 8) (n - 8)%nat) as [-> Hf'].
    + Z.to_euclidean_division_equations; lia.
    + by apply (first_hit_drop m (wp + 8) n 8); [|lia].
    + intros x Hx. apply Hr. lia.
    + lia.
    + replace (wp + 8 + 8 * Z.of_nat (S ((n - 8) / 8))) with (wp + 8 + 8 + 8 * Z.of_nat ((n - 8) / 8)) by lia. done.
Qed.

(** A search from the word that holds [s] on: the first word, then the loop. *)
Lemma scan_ok {A} p (all : Z → Z) stop (idx : Z → W Z) (found : Z → W A) (later : Z → Z → W A) s n fuel :
  (∀ bs, bytes bs → length bs = 8%nat → all (dec_le bs) = dec_le (mark p <$> bs)) →
  (∀ bs, bytes bs → length bs = 8%nat → stop (dec_le bs) = existsb p bs) →
  (∀ bs, bytes bs → length bs = 8%nat → existsb p bs = true → idx (dec_le bs) m = Some (Z.of_nat (first_pos p bs), m)) →
  first_hit m s n p → readable m s (Z.of_nat n + 1) → (n / 8 < fuel)%nat → ∀ r,
  (found (Z.of_nat n) m = r) →
  (∀ wp i, wp + i = s + Z.of_nat n → later wp i m = r) →
  (word ← load_word (PTR_ALIGN_DOWN s);
   let mask := shift_find (all word) s in
   if negb (mask =? 0) then i ← index_first mask; found i
   else '(word_ptr, word) ← next_word stop fuel (PTR_ALIGN_DOWN s); i ← idx word; later word_ptr i) m = r.
Proof.
  intros Hall Hstop Hidx Hf Hr Hfuel r Hfound Hlater. destruct (align_word s) as (Ha & Es & Hs8).
  rewrite (W_step _ _ _ _ _ (load_first s ltac:(apply Hr; lia))). cbv zeta.
  destruct (word_bytes (PTR_ALIGN_DOWN s)) as (Ew & Hb & Hl). rewrite Ew, Hall, first_mask by done.
  rewrite mark_nonzero, negb_involutive. set (k := (8 - Z.to_nat (s mod 8))%nat).
  destruct (first_hit_bytes _ _ _ _ k Hf) as [E Hpos]. destruct (existsb p (bytes_at m s k)) eqn:Ex.
  - symmetry in E. apply bool_decide_eq_true in E. rewrite (W_step _ _ _ (Z.of_nat n) m); [done|].
    rewrite mark_index by (rewrite ?length_bytes_at; lia || done). by rewrite Hpos.
  - symmetry in E. apply bool_decide_eq_false in E.
    assert (first_hit m (PTR_ALIGN_DOWN s + 8) (n - k) p) as Hf'.
    { replace (PTR_ALIGN_DOWN s + 8) with (s + Z.of_nat k) by lia. apply first_hit_drop; [done|lia]. }
    destruct (next_word_ok stop p fuel (PTR_ALIGN_DOWN s) (n - k) Ha Hstop Hf') as [En Hh].
    + intros x Hx. apply Hr. lia.
    + eapply Nat.le_lt_trans; [|exact Hfuel]. apply Nat.Div0.div_le_mono. lia.
    + rewrite (W_step _ _ _ _ _ En). cbn beta iota. set (wp := PTR_ALIGN_DOWN s + 8 + _) in *.
      destruct (word_bytes wp) as (Ew' & Hb' & Hl'). destruct (first_hit_bytes _ _ _ _ 8 Hh) as [Ex' Hp'].
      pose proof (Nat.mod_upper_bound (n - k) 8 ltac:(lia)) as Hmod. rewrite bool_decide_eq_true_2 in Ex' by done.
      rewrite Ew'. rewrite (W_step _ _ _ _ _ (Hidx _ Hb' Hl' Ex')), Hp' by done. apply Hlater.
      unfold wp. pose proof (Nat.div_mod_eq (n - k) 8). lia.
Qed.
End words.

Lemma strlen_ok m s str fuel :
  bytes_ok m → string_at m s str → (length str / 8 < fuel)%nat → strlen fuel s m = Some (len str, m).
Proof.
  intros Hm Hs Hfuel. unfold strlen.
  rewrite <- (scan_ok m Hm is0 find_zero_all has_zero index_first_zero mret (λ wp i, mret (wp + i - s)) s (length str) fuel
    find_zero_mark has_zero_dec (λ bs, index_first_zero_dec bs m) (string_first_hit _ _ _ Hs)
    (sa_map _ _ _ Hs) Hfuel (Some (len str, m))); [|done|].
  - unfold mbind, W_bind. destruct (load_word _ m) as [[w m']|]; [|done]. cbv zeta. destruct (negb _); [|done].
    by destruct (index_first _ m') as [[i m2]|].
  - intros wp i E. unfold mret, W_ret. do 2 f_equal. lia.
Qed.

(** ** [strchrnul] and [strchr] *)

Lemma repeat_bytes_u8 c : repeat_bytes c = repeat_bytes (u8 c).
Proof. unfold repeat_bytes. assert (u8 (u8 c) = u8 c) as -> by (unfold wrapu; by rewrite Zmod_mod). done. Qed.

Lemma u8_range c : 0 <= u8 c < 256.
Proof. apply (wrapu_range 8). lia. Qed.

(** The first position of [c] in a string, its length if there is none. *)
Lemma string_first_char m s str c :
  string_at m s str → first_hit m s (first_pos (λ b, b =? c) str) (is0or c) ∧
  (first_pos (λ b, (b =? c)%Z) str <= length str)%nat.
Proof.
  revert s. induction str as [|d str IH]; intros s Hs.
  - destruct (string_at_head _ _ _ Hs) as [E _]. cbn in E. split; [|done]. split; [cbn; intros; lia|].
    rewrite Z.add_0_r, E. done.
  - destruct (string_at_head _ _ _ Hs) as [E _]. cbn in E. pose proof (sa_chars _ _ _ Hs) as [Hd _]%Forall_cons.
    cbn [first_pos length]. destruct (Z.eqb_spec d c) as [->|Hne].
    + split; [|lia]. split; [intros; lia|]. rewrite Z.add_0_r, E. unfold is0or. by rewrite Z.eqb_refl, orb_true_r.
    + destruct (IH (s + 1) (string_at_tail _ _ _ _ Hs)) as [[H1 H2] Hl]. split; [|lia]. split.
      * intros [|i] Hi.
        -- rewrite Z.add_0_r, E. unfold is0or. by rewrite !(proj2 (Z.eqb_neq _ _)) by lia.
        -- rewrite <- (H1 i) by lia. do 2 f_equal. lia.
      * rewrite <- H2. do 2 f_equal. lia.
Qed.

Lemma strchrnul_ok m s str c fuel :
  bytes_ok m → string_at m s str → (length str / 8 < fuel)%nat →
  strchrnul fuel s c m = Some (s + Z.of_nat (first_pos (λ b, b =? u8 c) str), m).
Proof.
  intros Hm Hs Hfuel. unfold strchrnul. rewrite repeat_bytes_u8. pose proof (u8_range c) as Hc. set (d := u8 c) in *.
  destruct (string_first_char m s str d Hs) as [Hf Hle].
  rewrite <- (scan_ok m Hm (is0or d) (λ w, find_zero_eq_all w (repeat_bytes d)) (λ w, has_zero_eq w (repeat_bytes d))
    (λ w, index_first_zero_eq w (repeat_bytes d)) (λ i, mret (s + i)) (λ wp i, mret (wp + i)) s
    (first_pos (λ b, b =? d) str) fuel) with (r := Some (s + Z.of_nat (first_pos (λ b, b =? d) str), m)); try done.
  - intros. by apply find_zero_eq_mark.
  - intros. by apply has_zero_eq_dec.
  - intros. by apply index_first_zero_eq_dec.
  - intros x Hx. apply (sa_map _ _ _ Hs). lia.
  - eapply Nat.le_lt_trans; [|exact Hfuel]. by apply Nat.Div0.div_le_mono.
  - intros wp i E. unfold mret, W_ret. by rewrite E.
Qed.

Lemma first_pos_lookup p l : existsb p l = true → ∃ x, l !! first_pos p l = Some x ∧ p x = true.
Proof.
  intros (pre & x & post & E & Hl & _ & Hx)%first_pos_split. exists x. split; [|done]. by rewrite <- Hl, E, list_lookup_middle.
Qed.

Lemma string_byte m s str i : string_at m s str → (i <= length str)%nat → byte m (s + Z.of_nat i) = default 0 (str !! i).
Proof.
  intros [H1 H2 H3 _] Hi. destruct (str !! i) as [c|] eqn:E; [by apply H1|]. apply lookup_ge_None in E.
  replace i with (length str) by lia. done.
Qed.

(** What [strchr] returns: [c] may also be the NUL at the end. *)
Definition char_pos (c : Z) (str : list Z) : option nat :=
  if (c =? 0) || existsb (λ b, b =? c) str then Some (first_pos (λ b, b =? c) str) else None.

Lemma strchr_ok m s str c fuel :
  bytes_ok m → string_at m s str → (length str / 8 < fuel)%nat →
  strchr fuel s c m = Some ((λ i, s + Z.of_nat i) <$> char_pos (u8 c) str, m).
Proof.
  intros Hm Hs Hfuel. unfold strchr. rewrite (W_step _ _ _ _ _ (strchrnul_ok m s str c fuel Hm Hs Hfuel)).
  set (d := u8 c). destruct (string_first_char m s str d Hs) as [_ Hle].
  erewrite W_step by (apply load_byte_ok, (sa_map _ _ _ Hs); lia).
  rewrite (string_byte _ _ _ _ Hs Hle). unfold mret, W_ret, char_pos. do 2 f_equal.
  destruct (existsb (λ b, b =? d) str) eqn:E.
  - destruct (first_pos_lookup _ _ E) as (x & -> & Hx). cbn [default id]. by rewrite Hx, orb_true_r.
  - rewrite first_pos_none, lookup_ge_None_2 by done. cbn [default id]. rewrite orb_false_r, Z.eqb_sym. by destruct (d =? 0).
Qed.

(** ** [memchr] *)

Section memchr.
Context (m : mem) (c : Z).
Hypothesis m_ok : bytes_ok m.
Hypothesis c_ok : 0 <= c < 256.
Local Notation p := (λ b : Z, b =? c).
Set Default Proof Using "All".

Lemma memchr_loop_hit fuel wp lw j :
  wp mod 8 = 0 → lw mod 8 = 0 → wp <= lw → first_hit m wp j p → readable m wp (Z.of_nat j + 1) → wp + Z.of_nat j < lw + 8 →
  (j / 8 < fuel)%nat →
  memchr_loop fuel wp lw (word_at m wp) (repeat_bytes c) m =
  Some (if wp + Z.of_nat j <? lw then inl (wp + Z.of_nat j) else inr (word_at m lw), m).
Proof.
  revert wp j. induction fuel as [|fuel IH]; intros wp j Hwp Hlw Hle Hf Hr Hend Hfuel; [lia|].
  cbn [memchr_loop]. destruct (Z.eqb_spec wp lw) as [->|Hne].
  { by rewrite (proj2 (Z.ltb_ge _ _)) by lia. }
  destruct (word_bytes m m_ok wp) as (Ew & Hb & Hl). rewrite Ew, has_eq_dec by done.
  destruct (first_hit_bytes _ _ _ _ 8 Hf) as [Ex Hp]. rewrite Ex.
  assert (wp + 8 <= lw) by (Z.to_euclidean_division_equations; lia).
  case_bool_decide as Hj.
  - rewrite (W_step _ _ _ _ _ (index_first_eq_dec _ _ m Hb Hl c_ok Ex)), Hp by done.
    by rewrite (proj2 (Z.ltb_lt _ _)) by lia.
  - assert ((wp + 8) mod 8 = 0) as Hwp' by (Z.to_euclidean_division_equations; lia).
    rewrite (W_step _ _ _ _ _ (load_word_reach m (wp + 8) (wp + 8) Hwp' ltac:(lia) ltac:(apply Hr; lia))).
    rewrite (IH (wp + 8) (j - 8)%nat); try done.
    + replace (wp + 8 + Z.of_nat (j - 8)) with (wp + Z.of_nat j) by lia. done.
    + by apply (first_hit_drop m wp j 8); [|lia].
    + intros x Hx. apply Hr. lia.
    + lia.
    + replace j with (j - 8 + 1 * 8)%nat in Hfuel by lia. rewrite Nat.div_add in Hfuel by lia. lia.
Qed.

Lemma no_hit_bytes a k : (∀ i, (i < k)%nat → p (byte m (a + Z.of_nat i)) = false) → existsb p (bytes_at m a k) = false.
Proof.
  clear. revert a. induction k as [|k IH]; intros a Hn; [done|]. rewrite bytes_at_S. cbn [existsb].
  pose proof (Hn 0%nat ltac:(lia)) as H0. rewrite Z.add_0_r in H0. rewrite H0. cbn.
  apply IH. intros i Hi. rewrite <- (Hn (S i)) by lia. do 2 f_equal. lia.
Qed.

Lemma memchr_loop_none fuel wp lw :
  wp mod 8 = 0 → lw mod 8 = 0 → wp <= lw → (∀ x, wp <= x < lw → p (byte m x) = false) → readable m wp (lw + 1 - wp) →
  (lw - wp) / 8 <= Z.of_nat fuel →
  memchr_loop fuel wp lw (word_at m wp) (repeat_bytes c) m = Some (inr (word_at m lw), m).
Proof.
  revert wp. induction fuel as [|fuel IH]; intros wp Hwp Hlw Hle Hn Hr Hfuel; cbn [memchr_loop].
  { destruct (Z.eqb_spec wp lw) as [->|Hne]; [done|]. Z.to_euclidean_division_equations; lia. }
  destruct (Z.eqb_spec wp lw) as [->|Hne]; [done|].
  assert (wp + 8 <= lw ∧ (wp + 8) mod 8 = 0) as [? Hwp'] by (Z.to_euclidean_division_equations; lia).
  destruct (word_bytes m m_ok wp) as (Ew & Hb & Hl). rewrite Ew, has_eq_dec, no_hit_bytes; [|intros; apply Hn; lia|done..].
  rewrite (W_step _ _ _ _ _ (load_word_reach m (wp + 8) (wp + 8) Hwp' ltac:(lia) ltac:(apply Hr; lia))).
  apply IH; try done.
  - intros x Hx. apply Hn. lia.
  - intros x Hx. apply Hr. lia.
  - replace (lw - wp) with (lw - (wp + 8) + 1 * 8) in Hfuel by lia. rewrite Z.div_add in Hfuel by lia. lia.
Qed.

Lemma PTR_ALIGN_DOWN_mono a b : a <= b → PTR_ALIGN_DOWN a <= PTR_ALIGN_DOWN b.
Proof. clear. intros. unfold PTR_ALIGN_DOWN. Z.to_euclidean_division_equations; lia. Qed.

Lemma align_le a : PTR_ALIGN_DOWN a <= a < PTR_ALIGN_DOWN a + 8.
Proof. clear. unfold PTR_ALIGN_DOWN. Z.to_euclidean_division_equations; lia. Qed.

(** The first word of [memchr]. *)
Lemma memchr_mask s :
  shift_find (find_eq_all (word_at m (PTR_ALIGN_DOWN s)) (repeat_bytes c)) s =
  dec_le (mark p <$> bytes_at m s (8 - Z.to_nat (s mod 8))).
Proof.
  destruct (word_bytes m m_ok (PTR_ALIGN_DOWN s)) as (Ew & Hb & Hl). by rewrite Ew, find_eq_mark, first_mask.
Qed.

Lemma memchr_hit fuel c_in s n k :
  u8 c_in = c → first_hit m s k p → 0 <= s → Z.of_nat k < n → readable m s (Z.of_nat k + 1) → s + Z.of_nat k < 2 ^ 64 →
  (k / 8 < fuel)%nat → memchr fuel s c_in n m = Some (Some (s + Z.of_nat k), m).
Proof.
  intros Hc Hf Hs0 Hk Hr Hlt Hfuel. unfold memchr. rewrite (proj2 (Z.eqb_neq _ _)) by lia. cbv zeta.
  rewrite repeat_bytes_u8, Hc. destruct (align_word m m_ok s) as (Ha & Es & Hs8).
  rewrite (W_step _ _ _ _ _ (load_first m m_ok s ltac:(apply Hr; lia))), memchr_mask.
  assert (s + Z.of_nat k <= sadd s (n - 1)) as Hlb by (unfold sadd; destruct (Z.ltb_spec (2 ^ 64 - 1 - s) (n - 1)); lia).
  set (lb := sadd s (n - 1)) in *. rewrite mark_nonzero, negb_involutive.
  destruct (first_hit_bytes _ _ _ _ (8 - Z.to_nat (s mod 8)) Hf) as [Ex Hp]. case_bool_decide as Hcase; rewrite Ex.
  { erewrite W_step by (apply mark_index; [done|rewrite length_bytes_at; lia]). rewrite Hp by done.
    by rewrite (proj2 (Z.leb_le _ _)) by lia. }
  set (wp := PTR_ALIGN_DOWN s) in *. pose proof (align_le lb) as Hal. pose proof (align_word m m_ok lb) as (Hla & _).
  set (lw := PTR_ALIGN_DOWN lb) in *. rewrite (proj2 (Z.eqb_neq wp lw)) by lia.
  assert ((wp + 8) mod 8 = 0) as Hwp' by (Z.to_euclidean_division_equations; lia).
  assert (wp + 8 <= lw) by (Z.to_euclidean_division_equations; lia).
  rewrite (W_step _ _ _ _ _ (load_word_reach m (wp + 8) (wp + 8) Hwp' ltac:(lia) ltac:(apply Hr; lia))).
  set (j := (k - (8 - Z.to_nat (s mod 8)))%nat). assert (wp + 8 + Z.of_nat j = s + Z.of_nat k) as Ej by lia.
  assert (first_hit m (wp + 8) j p) as Hf'.
  { replace (wp + 8) with (s + Z.of_nat (8 - Z.to_nat (s mod 8))) by lia. apply first_hit_drop; [done|lia]. }
  erewrite W_step.
  2:{ apply (memchr_loop_hit fuel (wp + 8) lw j); try done; [intros x Hx; apply Hr; lia|lia|].
      eapply Nat.le_lt_trans; [|exact Hfuel]. apply Nat.Div0.div_le_mono. lia. }
  rewrite Ej. destruct (Z.ltb_spec (s + Z.of_nat k) lw); [done|].
  assert (first_hit m lw (Z.to_nat (s + Z.of_nat k - lw)) p) as Hf2.
  { replace lw with (wp + 8 + Z.of_nat (Z.to_nat (lw - (wp + 8)))) at 1 by lia.
    replace (Z.to_nat (s + Z.of_nat k - lw)) with (j - Z.to_nat (lw - (wp + 8)))%nat by lia. apply first_hit_drop; [done|lia]. }
  destruct (first_hit_bytes _ _ _ _ 8 Hf2) as [Ex2 Hp2]. rewrite bool_decide_eq_true_2 in Ex2 by lia.
  destruct (word_bytes m m_ok lw) as (Ew & Hb & Hl). rewrite Ew, has_eq_dec, Ex2 by done.
  rewrite (W_step _ _ _ _ _ (index_first_eq_dec _ _ m Hb Hl c_ok Ex2)), Hp2 by lia.
  replace (lw + Z.of_nat (Z.to_nat (s + Z.of_nat k - lw))) with (s + Z.of_nat k) by lia.
  by rewrite (proj2 (Z.leb_le _ _)) by lia.
Qed.

(** A word that holds no [c] before [lb]: a hit in it is past the end. *)
Lemma past_end a lb :
  (∀ x, a <= x <= lb → p (byte m x) = false) → existsb p (bytes_at m a 8) = true → lb < a + Z.of_nat (first_pos p (bytes_at m a 8)).
Proof.
  intros Hn (d & Hd & Hp)%first_pos_lookup. set (i := first_pos p (bytes_at m a 8)) in *.
  assert (i < 8)%nat as Hi by (apply lookup_lt_Some in Hd; by rewrite length_bytes_at in Hd).
  rewrite bytes_at_lookup in Hd by done. injection Hd as <-.
  destruct (Z.lt_ge_cases lb (a + Z.of_nat i)); [done|]. rewrite Hn in Hp by lia. done.
Qed.

Lemma memchr_none fuel c_in s n :
  u8 c_in = c → 0 <= s → 0 <= n → (∀ x, s <= x < s + n → p (byte m x) = false) → readable m s n → s + n <= 2 ^ 64 →
  n / 8 <= Z.of_nat fuel → memchr fuel s c_in n m = Some (None, m).
Proof.
  intros Hc Hs0 Hn0 Hn Hr Hlt Hfuel. unfold memchr. destruct (Z.eqb_spec n 0) as [->|Hne]; [done|]. cbv zeta.
  rewrite repeat_bytes_u8, Hc. destruct (align_word m m_ok s) as (Ha & Es & Hs8).
  rewrite (W_step _ _ _ _ _ (load_first m m_ok s ltac:(apply Hr; lia))), memchr_mask.
  assert (sadd s (n - 1) = s + n - 1) as -> by (unfold sadd; destruct (Z.ltb_spec (2 ^ 64 - 1 - s) (n - 1)); lia).
  set (lb := s + n - 1) in *. assert (∀ x, s <= x <= lb → p (byte m x) = false) as Hn' by (intros; apply Hn; lia).
  rewrite mark_nonzero, negb_involutive. set (k := (8 - Z.to_nat (s mod 8))%nat).
  set (wp := PTR_ALIGN_DOWN s) in *. pose proof (align_le lb) as Hal. pose proof (align_word m m_ok lb) as (Hla & _).
  set (lw := PTR_ALIGN_DOWN lb) in *.
  destruct (existsb p (bytes_at m s k)) eqn:Ex.
  { erewrite W_step by (apply mark_index; [done|rewrite length_bytes_at; lia]).
    destruct (first_pos_lookup _ _ Ex) as (d & Hd & Hp). set (i := first_pos p (bytes_at m s k)) in *.
    assert (i < k)%nat as Hi by (apply lookup_lt_Some in Hd; by rewrite length_bytes_at in Hd).
    rewrite bytes_at_lookup in Hd by done. injection Hd as <-.
    rewrite (proj2 (Z.leb_gt _ _)); [done|]. destruct (Z.lt_ge_cases lb (s + Z.of_nat i)); [done|]. by rewrite Hn' in Hp by lia. }
  destruct (Z.eqb_spec wp lw) as [E|E]; [done|].
  pose proof (PTR_ALIGN_DOWN_mono s lb ltac:(lia)) as Hmono. fold wp lw in Hmono.
  assert ((wp + 8) mod 8 = 0) as Hwp' by (Z.to_euclidean_division_equations; lia).
  assert (wp + 8 <= lw) by (Z.to_euclidean_division_equations; lia).
  rewrite (W_step _ _ _ _ _ (load_word_reach m (wp + 8) (wp + 8) Hwp' ltac:(lia) ltac:(apply Hr; lia))).
  erewrite W_step.
  2:{ apply (memchr_loop_none fuel (wp + 8) lw); try done; [intros; apply Hn'; lia|intros x Hx; apply Hr; lia|].
      etrans; [|exact Hfuel]. apply Z.div_le_mono; lia. }
  destruct (word_bytes m m_ok lw) as (Ew & Hb & Hl). rewrite Ew, has_eq_dec by done.
  destruct (existsb p (bytes_at m lw 8)) eqn:Ex2; [|done].
  rewrite (W_step _ _ _ _ _ (index_first_eq_dec _ _ m Hb Hl c_ok Ex2)).
  rewrite (proj2 (Z.leb_gt _ _)); [done|]. apply past_end; [|done]. intros; apply Hn'; lia.
Qed.
End memchr.

(** [strnlen] of a string. *)
Lemma strnlen_ok m s str maxlen fuel :
  bytes_ok m → string_at m s str → 0 <= s → 0 <= maxlen → s + len str < 2 ^ 64 → (length str / 8 < fuel)%nat →
  strnlen fuel s maxlen m = Some (Z.min (len str) maxlen, m).
Proof.
  intros Hm Hs Hs0 Hn Hlt Hfuel. unfold strnlen. pose proof (string_first_hit _ _ _ Hs) as Hf.
  destruct (Z.lt_ge_cases (len str) maxlen).
  - erewrite W_step by (eapply (memchr_hit m 0 Hm); try done; apply Hs).
    unfold mret, W_ret. do 2 f_equal. lia.
  - erewrite W_step.
    2:{ apply (memchr_none m 0 Hm); try done; [| |lia|].
        - intros x Hx. destruct Hf as [Hf _]. specialize (Hf (Z.to_nat (x - s)) ltac:(lia)).
          by replace (s + Z.of_nat (Z.to_nat (x - s))) with x in Hf by lia.
        - intros x Hx. apply (sa_map _ _ _ Hs). lia.
        - replace (Z.of_nat fuel) with (Z.of_nat (fuel * 8) / 8) by (rewrite Nat2Z.inj_mul; by rewrite Z.div_mul).
          apply Z.div_le_mono; [lia|]. pose proof (Nat.div_mod_eq (length str) 8). pose proof (Nat.mod_upper_bound (length str) 8 ltac:(lia)). lia. }
    unfold mret, W_ret. do 2 f_equal. lia.
Qed.
