(* ===== verification/MemFn.v ===== *)
(** * MemFn: [memset], [memcpy], [memmove], [memcmp] and the word copies of [string/wordcopy.c]

    The unrolled loops of these files are entered in the middle: the [switch] sets the
    pointers back and jumps to a label.  Each label is a function here that ends in the next
    one, and [loop] is the way back to the first.  The registers [a0], [a1] (and [a2], [a3])
    hold words that were loaded and are still to be stored.  Fuel counts the turns of the
    loops. *)

From S2P Require Import Prelude Mem Logic Flat Fza WordStr.
Local Open Scope Z_scope.

Definition OPSIZ : Z := 8.
Definition OP_T_THRES : Z := 16.

(** [((op_t * ) p)[k]] *)
Definition ld (p k : Z) : W Z := load_word (p + k * 8).
Definition st (p k w : Z) : W unit := store_word (p + k * 8) w.

(** ** [_wordcopy_fwd_aligned] *)

Section fwd.
Variable loop : Z → Z → Z → Z → W unit.

Definition fwd_next (dstp srcp len a1 : Z) : W unit :=
  let srcp := srcp + 8 * OPSIZ in
  let dstp := dstp + 8 * OPSIZ in
  let len := len - 8 in
  if negb (len =? 0) then loop dstp srcp len a1 else st dstp 0 a1.
Definition fwd_do1 (dstp srcp len a0 : Z) : W unit := a1 ← ld srcp 7; st dstp 7 a0;; fwd_next dstp srcp len a1.
Definition fwd_do2 (dstp srcp len a1 : Z) : W unit := a0 ← ld srcp 6; st dstp 6 a1;; fwd_do1 dstp srcp len a0.
Definition fwd_do3 (dstp srcp len a0 : Z) : W unit := a1 ← ld srcp 5; st dstp 5 a0;; fwd_do2 dstp srcp len a1.
Definition fwd_do4 (dstp srcp len a1 : Z) : W unit := a0 ← ld srcp 4; st dstp 4 a1;; fwd_do3 dstp srcp len a0.
Definition fwd_do5 (dstp srcp len a0 : Z) : W unit := a1 ← ld srcp 3; st dstp 3 a0;; fwd_do4 dstp srcp len a1.
Definition fwd_do6 (dstp srcp len a1 : Z) : W unit := a0 ← ld srcp 2; st dstp 2 a1;; fwd_do5 dstp srcp len a0.
Definition fwd_do7 (dstp srcp len a0 : Z) : W unit := a1 ← ld srcp 1; st dstp 1 a0;; fwd_do6 dstp srcp len a1.
Definition fwd_do8 (dstp srcp len a1 : Z) : W unit := a0 ← ld srcp 0; st dstp 0 a1;; fwd_do7 dstp srcp len a0.
End fwd.

Fixpoint fwd_loop (fuel : nat) (dstp srcp len a1 : Z) : W unit :=
  match fuel with O => undefined | S fuel => fwd_do8 (fwd_loop fuel) dstp srcp len a1 end.

Definition wordcopy_fwd_aligned (fuel : nat) (dstp srcp len : Z) : W unit :=
  let loop := fwd_loop fuel in
  match len mod 8 with
  | 2 => a0 ← ld srcp 0; fwd_do1 loop (dstp - 7 * OPSIZ) (srcp - 6 * OPSIZ) (len + 6) a0
  | 3 => a1 ← ld srcp 0; fwd_do2 loop (dstp - 6 * OPSIZ) (srcp - 5 * OPSIZ) (len + 5) a1
  | 4 => a0 ← ld srcp 0; fwd_do3 loop (dstp - 5 * OPSIZ) (srcp - 4 * OPSIZ) (len + 4) a0
  | 5 => a1 ← ld srcp 0; fwd_do4 loop (dstp - 4 * OPSIZ) (srcp - 3 * OPSIZ) (len + 3) a1
  | 6 => a0 ← ld srcp 0; fwd_do5 loop (dstp - 3 * OPSIZ) (srcp - 2 * OPSIZ) (len + 2) a0
  | 7 => a1 ← ld srcp 0; fwd_do6 loop (dstp - 2 * OPSIZ) (srcp - 1 * OPSIZ) (len + 1) a1
  | 0 =>
    if (OP_T_THRES <=? 3 * OPSIZ) && (len =? 0) then mret ()
    else a0 ← ld srcp 0; fwd_do7 loop (dstp - 1 * OPSIZ) (srcp - 0 * OPSIZ) len a0
  | _ =>
    a1 ← ld srcp 0;
    let srcp := srcp - -1 * OPSIZ in
    let dstp := dstp - 0 * OPSIZ in
    let len := len - 1 in
    if (OP_T_THRES <=? 3 * OPSIZ) && (len =? 0) then st dstp 0 a1 else loop dstp srcp len a1
  end.

(** ** [_wordcopy_fwd_dest_aligned] *)

Section fwd_dest.
Variables (loop : Z → Z → Z → Z → Z → W unit) (sh_1 sh_2 : Z).

Definition fwdd_next (dstp srcp len a2 a3 : Z) : W unit :=
  let srcp := srcp + 4 * OPSIZ in
  let dstp := dstp + 4 * OPSIZ in
  let len := len - 4 in
  if negb (len =? 0) then loop dstp srcp len a2 a3 else st dstp 0 (MERGE a2 sh_1 a3 sh_2).
Definition fwdd_do1 (dstp srcp len a1 a2 : Z) : W unit := a3 ← ld srcp 3; st dstp 3 (MERGE a1 sh_1 a2 sh_2);; fwdd_next dstp srcp len a2 a3.
Definition fwdd_do2 (dstp srcp len a0 a1 : Z) : W unit := a2 ← ld srcp 2; st dstp 2 (MERGE a0 sh_1 a1 sh_2);; fwdd_do1 dstp srcp len a1 a2.
Definition fwdd_do3 (dstp srcp len a3 a0 : Z) : W unit := a1 ← ld srcp 1; st dstp 1 (MERGE a3 sh_1 a0 sh_2);; fwdd_do2 dstp srcp len a0 a1.
Definition fwdd_do4 (dstp srcp len a2 a3 : Z) : W unit := a0 ← ld srcp 0; st dstp 0 (MERGE a2 sh_1 a3 sh_2);; fwdd_do3 dstp srcp len a3 a0.
End fwd_dest.

Fixpoint fwdd_loop (sh_1 sh_2 : Z) (fuel : nat) (dstp srcp len a2 a3 : Z) : W unit :=
  match fuel with O => undefined | S fuel => fwdd_do4 (fwdd_loop sh_1 sh_2 fuel) sh_1 sh_2 dstp srcp len a2 a3 end.

Definition wordcopy_fwd_dest_aligned (fuel : nat) (dstp srcp len : Z) : W unit :=
  let sh_1 := 8 * (srcp mod OPSIZ) in
  let sh_2 := 8 * OPSIZ - sh_1 in
  let srcp := PTR_ALIGN_DOWN srcp in
  let loop := fwdd_loop sh_1 sh_2 fuel in
  match len mod 4 with
  | 2 => a1 ← ld srcp 0; a2 ← ld srcp 1; fwdd_do1 loop sh_1 sh_2 (dstp - 3 * OPSIZ) (srcp - 1 * OPSIZ) (len + 2) a1 a2
  | 3 => a0 ← ld srcp 0; a1 ← ld srcp 1; fwdd_do2 loop sh_1 sh_2 (dstp - 2 * OPSIZ) (srcp - 0 * OPSIZ) (len + 1) a0 a1
  | 0 =>
    if (OP_T_THRES <=? 3 * OPSIZ) && (len =? 0) then mret ()
    else a3 ← ld srcp 0; a0 ← ld srcp 1; fwdd_do3 loop sh_1 sh_2 (dstp - 1 * OPSIZ) (srcp - -1 * OPSIZ) (len + 0) a3 a0
  | _ =>
    a2 ← ld srcp 0; a3 ← ld srcp 1;
    let srcp := srcp - -2 * OPSIZ in
    let dstp := dstp - 0 * OPSIZ in
    let len := len - 1 in
    if (OP_T_THRES <=? 3 * OPSIZ) && (len =? 0) then st dstp 0 (MERGE a2 sh_1 a3 sh_2) else loop dstp srcp len a2 a3
  end.

(** ** [_wordcopy_bwd_aligned]: from the end *)

Section bwd.
Variable loop : Z → Z → Z → Z → W unit.

Definition bwd_next (dstp srcp len a1 : Z) : W unit :=
  let srcp := srcp - 8 * OPSIZ in
  let dstp := dstp - 8 * OPSIZ in
  let len := len - 8 in
  if negb (len =? 0) then loop dstp srcp len a1 else st dstp 7 a1.
Definition bwd_do1 (dstp srcp len a0 : Z) : W unit := a1 ← ld srcp 0; st dstp 0 a0;; bwd_next dstp srcp len a1.
Definition bwd_do2 (dstp srcp len a1 : Z) : W unit := a0 ← ld srcp 1; st dstp 1 a1;; bwd_do1 dstp srcp len a0.
Definition bwd_do3 (dstp srcp len a0 : Z) : W unit := a1 ← ld srcp 2; st dstp 2 a0;; bwd_do2 dstp srcp len a1.
Definition bwd_do4 (dstp srcp len a1 : Z) : W unit := a0 ← ld srcp 3; st dstp 3 a1;; bwd_do3 dstp srcp len a0.
Definition bwd_do5 (dstp srcp len a0 : Z) : W unit := a1 ← ld srcp 4; st dstp 4 a0;; bwd_do4 dstp srcp len a1.
Definition bwd_do6 (dstp srcp len a1 : Z) : W unit := a0 ← ld srcp 5; st dstp 5 a1;; bwd_do5 dstp srcp len a0.
Definition bwd_do7 (dstp srcp len a0 : Z) : W unit := a1 ← ld srcp 6; st dstp 6 a0;; bwd_do6 dstp srcp len a1.
Definition bwd_do8 (dstp srcp len a1 : Z) : W unit := a0 ← ld srcp 7; st dstp 7 a1;; bwd_do7 dstp srcp len a0.
End bwd.

Fixpoint bwd_loop (fuel : nat) (dstp srcp len a1 : Z) : W unit :=
  match fuel with O => undefined | S fuel => bwd_do8 (bwd_loop fuel) dstp srcp len a1 end.

Definition wordcopy_bwd_aligned (fuel : nat) (dstp srcp len : Z) : W unit :=
  let loop := bwd_loop fuel in
  match len mod 8 with
  | 2 => let srcp := srcp - 2 * OPSIZ in let dstp := dstp - 1 * OPSIZ in a0 ← ld srcp 1; bwd_do1 loop dstp srcp (len + 6) a0
  | 3 => let srcp := srcp - 3 * OPSIZ in let dstp := dstp - 2 * OPSIZ in a1 ← ld srcp 2; bwd_do2 loop dstp srcp (len + 5) a1
  | 4 => let srcp := srcp - 4 * OPSIZ in let dstp := dstp - 3 * OPSIZ in a0 ← ld srcp 3; bwd_do3 loop dstp srcp (len + 4) a0
  | 5 => let srcp := srcp - 5 * OPSIZ in let dstp := dstp - 4 * OPSIZ in a1 ← ld srcp 4; bwd_do4 loop dstp srcp (len + 3) a1
  | 6 => let srcp := srcp - 6 * OPSIZ in let dstp := dstp - 5 * OPSIZ in a0 ← ld srcp 5; bwd_do5 loop dstp srcp (len + 2) a0
  | 7 => let srcp := srcp - 7 * OPSIZ in let dstp := dstp - 6 * OPSIZ in a1 ← ld srcp 6; bwd_do6 loop dstp srcp (len + 1) a1
  | 0 =>
    if (OP_T_THRES <=? 3 * OPSIZ) && (len =? 0) then mret ()
    else let srcp := srcp - 8 * OPSIZ in let dstp := dstp - 7 * OPSIZ in a0 ← ld srcp 7; bwd_do7 loop dstp srcp len a0
  | _ =>
    let srcp := srcp - 9 * OPSIZ in
    let dstp := dstp - 8 * OPSIZ in
    a1 ← ld srcp 8;
    let len := len - 1 in
    if (OP_T_THRES <=? 3 * OPSIZ) && (len =? 0) then st dstp 7 a1 else loop dstp srcp len a1
  end.

(** ** [_wordcopy_bwd_dest_aligned] *)

Section bwd_dest.
Variables (loop : Z → Z → Z → Z → Z → W unit) (sh_1 sh_2 : Z).

Definition bwdd_next (dstp srcp len a0 a1 : Z) : W unit :=
  let srcp := srcp - 4 * OPSIZ in
  let dstp := dstp - 4 * OPSIZ in
  let len := len - 4 in
  if negb (len =? 0) then loop dstp srcp len a0 a1 else st dstp 3 (MERGE a0 sh_1 a1 sh_2).
Definition bwdd_do1 (dstp srcp len a1 a2 : Z) : W unit := a0 ← ld srcp 0; st dstp 0 (MERGE a1 sh_1 a2 sh_2);; bwdd_next dstp srcp len a0 a1.
Definition bwdd_do2 (dstp srcp len a2 a3 : Z) : W unit := a1 ← ld srcp 1; st dstp 1 (MERGE a2 sh_1 a3 sh_2);; bwdd_do1 dstp srcp len a1 a2.
Definition bwdd_do3 (dstp srcp len a3 a0 : Z) : W unit := a2 ← ld srcp 2; st dstp 2 (MERGE a3 sh_1 a0 sh_2);; bwdd_do2 dstp srcp len a2 a3.
Definition bwdd_do4 (dstp srcp len a0 a1 : Z) : W unit := a3 ← ld srcp 3; st dstp 3 (MERGE a0 sh_1 a1 sh_2);; bwdd_do3 dstp srcp len a3 a0.
End bwd_dest.

Fixpoint bwdd_loop (sh_1 sh_2 : Z) (fuel : nat) (dstp srcp len a0 a1 : Z) : W unit :=
  match fuel with O => undefined | S fuel => bwdd_do4 (bwdd_loop sh_1 sh_2 fuel) sh_1 sh_2 dstp srcp len a0 a1 end.

Definition wordcopy_bwd_dest_aligned (fuel : nat) (dstp srcp len : Z) : W unit :=
  let sh_1 := 8 * (srcp mod OPSIZ) in
  let sh_2 := 8 * OPSIZ - sh_1 in
  let srcp := PTR_ALIGN_DOWN srcp + OPSIZ in
  let loop := bwdd_loop sh_1 sh_2 fuel in
  match len mod 4 with
  | 2 => let srcp := srcp - 3 * OPSIZ in let dstp := dstp - 1 * OPSIZ in
         a2 ← ld srcp 2; a1 ← ld srcp 1; bwdd_do1 loop sh_1 sh_2 dstp srcp (len + 2) a1 a2
  | 3 => let srcp := srcp - 4 * OPSIZ in let dstp := dstp - 2 * OPSIZ in
         a3 ← ld srcp 3; a2 ← ld srcp 2; bwdd_do2 loop sh_1 sh_2 dstp srcp (len + 1) a2 a3
  | 0 =>
    if (OP_T_THRES <=? 3 * OPSIZ) && (len =? 0) then mret ()
    else let srcp := srcp - 5 * OPSIZ in let dstp := dstp - 3 * OPSIZ in
         a0 ← ld srcp 4; a3 ← ld srcp 3; bwdd_do3 loop sh_1 sh_2 dstp srcp len a3 a0
  | _ =>
    let srcp := srcp - 6 * OPSIZ in
    let dstp := dstp - 4 * OPSIZ in
    a1 ← ld srcp 5; a0 ← ld srcp 4;
    let len := len - 1 in
    if (OP_T_THRES <=? 3 * OPSIZ) && (len =? 0) then st dstp 3 (MERGE a0 sh_1 a1 sh_2) else loop dstp srcp len a0 a1
  end.

(** ** [memcpy] and [memmove] *)

(** The pointers after the copy. *)
Fixpoint BYTE_COPY_FWD (nbytes : nat) (dst_bp src_bp : Z) : W (Z * Z) :=
  match nbytes with
  | O => mret (dst_bp, src_bp)
  | S nbytes =>
    x ← load_byte src_bp;
    store_byte dst_bp x;;
    BYTE_COPY_FWD nbytes (dst_bp + 1) (src_bp + 1)
  end.

Fixpoint BYTE_COPY_BWD (nbytes : nat) (dst_ep src_ep : Z) : W (Z * Z) :=
  match nbytes with
  | O => mret (dst_ep, src_ep)
  | S nbytes =>
    x ← load_byte (src_ep - 1);
    store_byte (dst_ep - 1) x;;
    BYTE_COPY_BWD nbytes (dst_ep - 1) (src_ep - 1)
  end.

(** The pointers and the number of bytes left. *)
Definition WORD_COPY_FWD (fuel : nat) (dst_bp src_bp nbytes : Z) : W (Z * Z * Z) :=
  (if src_bp mod OPSIZ =? 0 then wordcopy_fwd_aligned fuel dst_bp src_bp (nbytes / OPSIZ)
   else wordcopy_fwd_dest_aligned fuel dst_bp src_bp (nbytes / OPSIZ));;
  mret (dst_bp + PTR_ALIGN_DOWN nbytes, src_bp + PTR_ALIGN_DOWN nbytes, nbytes mod OPSIZ).

Definition WORD_COPY_BWD (fuel : nat) (dst_ep src_ep nbytes : Z) : W (Z * Z * Z) :=
  (if src_ep mod OPSIZ =? 0 then wordcopy_bwd_aligned fuel dst_ep src_ep (nbytes / OPSIZ)
   else wordcopy_bwd_dest_aligned fuel dst_ep src_ep (nbytes / OPSIZ));;
  mret (dst_ep - PTR_ALIGN_DOWN nbytes, src_ep - PTR_ALIGN_DOWN nbytes, nbytes mod OPSIZ).

(** The forward copy of both functions. *)
Definition copy_fwd (fuel : nat) (dstp srcp len : Z) : W unit :=
  '(dstp, srcp, len) ← (if OP_T_THRES <=? len then
    let n := u64 (- dstp) mod OPSIZ in
    let len := len - n in
    '(dstp, srcp) ← BYTE_COPY_FWD (Z.to_nat n) dstp srcp;
    WORD_COPY_FWD fuel dstp srcp len
   else mret (dstp, srcp, len));
  BYTE_COPY_FWD (Z.to_nat len) dstp srcp;; mret ().

Definition memcpy (fuel : nat) (dstpp srcpp len : Z) : W Z := copy_fwd fuel dstpp srcpp len;; mret dstpp.

Definition copy_bwd (fuel : nat) (dstp srcp len : Z) : W unit :=
  let srcp := srcp + len in
  let dstp := dstp + len in
  '(dstp, srcp, len) ← (if OP_T_THRES <=? len then
    let n := dstp mod OPSIZ in
    let len := len - n in
    '(dstp, srcp) ← BYTE_COPY_BWD (Z.to_nat n) dstp srcp;
    WORD_COPY_BWD fuel dstp srcp len
   else mret (dstp, srcp, len));
  BYTE_COPY_BWD (Z.to_nat len) dstp srcp;; mret ().

Definition memmove (fuel : nat) (dest src len : Z) : W Z :=
  (if len <=? u64 (dest - src) then copy_fwd fuel dest src len else copy_bwd fuel dest src len);;
  mret dest.

(** ** [memset] *)

(** [cccc]: the byte in every place of the word. *)
Definition spread (c : Z) : Z :=
  let cccc := u8 c in
  let cccc := Z.lor cccc (u64 (Z.shiftl cccc 8)) in
  let cccc := Z.lor cccc (u64 (Z.shiftl cccc 16)) in
  Z.lor cccc (u64 (Z.shiftl (u64 (Z.shiftl cccc 16)) 16)).

(** [while (dstp % OPSIZ != 0)]; at most seven turns. *)
Fixpoint set_align (fuel : nat) (dstp len c : Z) : W (Z * Z) :=
  if dstp mod OPSIZ =? 0 then mret (dstp, len)
  else
    match fuel with
    | O => undefined
    | S fuel => store_byte dstp c;; set_align fuel (dstp + 1) (len - 1) c
    end.

Fixpoint set_words8 (xlen : nat) (dstp cccc : Z) : W Z :=
  match xlen with
  | O => mret dstp
  | S xlen =>
    st dstp 0 cccc;; st dstp 1 cccc;; st dstp 2 cccc;; st dstp 3 cccc;;
    st dstp 4 cccc;; st dstp 5 cccc;; st dstp 6 cccc;; st dstp 7 cccc;;
    set_words8 xlen (dstp + 8 * OPSIZ) cccc
  end.

Fixpoint set_words (xlen : nat) (dstp cccc : Z) : W Z :=
  match xlen with
  | O => mret dstp
  | S xlen => st dstp 0 cccc;; set_words xlen (dstp + OPSIZ) cccc
  end.

Fixpoint set_bytes (len : nat) (dstp c : Z) : W unit :=
  match len with
  | O => mret ()
  | S len => store_byte dstp c;; set_bytes len (dstp + 1) c
  end.

Definition memset (dstpp c len : Z) : W Z :=
  '(dstp, len) ← (if 8 <=? len then
    let cccc := spread c in
    '(dstp, len) ← set_align 7 dstpp len c;
    dstp ← set_words8 (Z.to_nat (len / (OPSIZ * 8))) dstp cccc;
    let len := len mod (OPSIZ * 8) in
    dstp ← set_words (Z.to_nat (len / OPSIZ)) dstp cccc;
    mret (dstp, len mod OPSIZ)
   else mret (dstpp, len));
  set_bytes (Z.to_nat len) dstp c;;
  mret dstpp.

(** ** [memcmp] *)

(** The bytes of the words in memory order, from byte [k] on; the words differ. *)
Fixpoint bytes_differ (fuel : nat) (k a b : Z) : W Z :=
  match fuel with
  | O => undefined
  | S fuel =>
    let a0 := extractbyte a k in
    let b0 := extractbyte b k in
    if a0 =? b0 then bytes_differ fuel (k + 1) a b else mret (i32 (u64 (a0 - b0)))
  end.
Definition memcmp_bytes (a b : Z) : W Z := bytes_differ 8 0 a b.

Definition CMP_LT_OR_GT (a b : Z) : W Z := memcmp_bytes a b.

Section common.
Variable loop : Z → Z → Z → Z → Z → W Z.

Definition cmp_do0 (a1 b1 : Z) : W Z := if negb (a1 =? b1) then CMP_LT_OR_GT a1 b1 else mret 0.
Definition cmp_next (srcp1 srcp2 len a1 b1 : Z) : W Z :=
  let srcp1 := srcp1 + 4 * OPSIZ in
  let srcp2 := srcp2 + 4 * OPSIZ in
  let len := len - 4 in
  if negb (len =? 0) then loop srcp1 srcp2 len a1 b1 else cmp_do0 a1 b1.
Definition cmp_do1 (srcp1 srcp2 len a0 b0 : Z) : W Z :=
  a1 ← ld srcp1 3; b1 ← ld srcp2 3; if negb (a0 =? b0) then CMP_LT_OR_GT a0 b0 else cmp_next srcp1 srcp2 len a1 b1.
Definition cmp_do2 (srcp1 srcp2 len a1 b1 : Z) : W Z :=
  a0 ← ld srcp1 2; b0 ← ld srcp2 2; if negb (a1 =? b1) then CMP_LT_OR_GT a1 b1 else cmp_do1 srcp1 srcp2 len a0 b0.
Definition cmp_do3 (srcp1 srcp2 len a0 b0 : Z) : W Z :=
  a1 ← ld srcp1 1; b1 ← ld srcp2 1; if negb (a0 =? b0) then CMP_LT_OR_GT a0 b0 else cmp_do2 srcp1 srcp2 len a1 b1.
Definition cmp_do4 (srcp1 srcp2 len a1 b1 : Z) : W Z :=
  a0 ← ld srcp1 0; b0 ← ld srcp2 0; if negb (a1 =? b1) then CMP_LT_OR_GT a1 b1 else cmp_do3 srcp1 srcp2 len a0 b0.
End common.

Fixpoint cmp_loop (fuel : nat) (srcp1 srcp2 len a1 b1 : Z) : W Z :=
  match fuel with O => undefined | S fuel => cmp_do4 (cmp_loop fuel) srcp1 srcp2 len a1 b1 end.

Definition memcmp_common_alignment (fuel : nat) (srcp1 srcp2 len : Z) : W Z :=
  let loop := cmp_loop fuel in
  match len mod 4 with
  | 3 => a1 ← ld srcp1 0; b1 ← ld srcp2 0; cmp_do2 loop (srcp1 - OPSIZ) (srcp2 - OPSIZ) (len + 1) a1 b1
  | 0 =>
    if (OP_T_THRES <=? 3 * OPSIZ) && (len =? 0) then mret 0
    else a0 ← ld srcp1 0; b0 ← ld srcp2 0; cmp_do3 loop srcp1 srcp2 len a0 b0
  | 1 =>
    a1 ← ld srcp1 0; b1 ← ld srcp2 0;
    let len := len - 1 in
    if (OP_T_THRES <=? 3 * OPSIZ) && (len =? 0) then cmp_do0 a1 b1 else loop (srcp1 + OPSIZ) (srcp2 + OPSIZ) len a1 b1
  | _ => a0 ← ld srcp1 0; b0 ← ld srcp2 0; cmp_do1 loop (srcp1 - 2 * OPSIZ) (srcp2 - 2 * OPSIZ) (len + 2) a0 b0
  end.

Section not_common.
Variables (loop : Z → Z → Z → Z → Z → Z → W Z) (shl shr : Z).

Definition cmpn_do0 (a2 a3 b3 : Z) : W Z := let x := MERGE a2 shl a3 shr in if negb (x =? b3) then CMP_LT_OR_GT x b3 else mret 0.
Definition cmpn_next (srcp1 srcp2 len a2 a3 b3 : Z) : W Z :=
  let srcp1 := srcp1 + 4 * OPSIZ in
  let srcp2 := srcp2 + 4 * OPSIZ in
  let len := len - 4 in
  if negb (len =? 0) then loop srcp1 srcp2 len a2 a3 b3 else cmpn_do0 a2 a3 b3.
Definition cmpn_do1 (srcp1 srcp2 len a1 a2 b2 : Z) : W Z :=
  a3 ← ld srcp1 3; b3 ← ld srcp2 3; let x := MERGE a1 shl a2 shr in
  if negb (x =? b2) then CMP_LT_OR_GT x b2 else cmpn_next srcp1 srcp2 len a2 a3 b3.
Definition cmpn_do2 (srcp1 srcp2 len a0 a1 b1 : Z) : W Z :=
  a2 ← ld srcp1 2; b2 ← ld srcp2 2; let x := MERGE a0 shl a1 shr in
  if negb (x =? b1) then CMP_LT_OR_GT x b1 else cmpn_do1 srcp1 srcp2 len a1 a2 b2.
Definition cmpn_do3 (srcp1 srcp2 len a3 a0 b0 : Z) : W Z :=
  a1 ← ld srcp1 1; b1 ← ld srcp2 1; let x := MERGE a3 shl a0 shr in
  if negb (x =? b0) then CMP_LT_OR_GT x b0 else cmpn_do2 srcp1 srcp2 len a0 a1 b1.
Definition cmpn_do4 (srcp1 srcp2 len a2 a3 b3 : Z) : W Z :=
  a0 ← ld srcp1 0; b0 ← ld srcp2 0; let x := MERGE a2 shl a3 shr in
  if negb (x =? b3) then CMP_LT_OR_GT x b3 else cmpn_do3 srcp1 srcp2 len a3 a0 b0.
End not_common.

Fixpoint cmpn_loop (shl shr : Z) (fuel : nat) (srcp1 srcp2 len a2 a3 b3 : Z) : W Z :=
  match fuel with O => undefined | S fuel => cmpn_do4 (cmpn_loop shl shr fuel) shl shr srcp1 srcp2 len a2 a3 b3 end.

Definition memcmp_not_common_alignment (fuel : nat) (srcp1 srcp2 len : Z) : W Z :=
  let shl := 8 * (srcp1 mod OPSIZ) in
  let shr := 8 * OPSIZ - shl in
  let srcp1 := PTR_ALIGN_DOWN srcp1 in
  let loop := cmpn_loop shl shr fuel in
  match len mod 4 with
  | 3 => a0 ← ld srcp1 0; a1 ← ld srcp1 1; b1 ← ld srcp2 0;
         cmpn_do2 loop shl shr srcp1 (srcp2 - 1 * OPSIZ) (len + 1) a0 a1 b1
  | 0 =>
    if (OP_T_THRES <=? 3 * OPSIZ) && (len =? 0) then mret 0
    else a3 ← ld srcp1 0; a0 ← ld srcp1 1; b0 ← ld srcp2 0; cmpn_do3 loop shl shr (srcp1 + 1 * OPSIZ) srcp2 len a3 a0 b0
  | 1 =>
    a2 ← ld srcp1 0; a3 ← ld srcp1 1; b3 ← ld srcp2 0;
    let len := len - 1 in
    if (OP_T_THRES <=? 3 * OPSIZ) && (len =? 0) then cmpn_do0 shl shr a2 a3 b3
    else loop (srcp1 + 2 * OPSIZ) (srcp2 + 1 * OPSIZ) len a2 a3 b3
  | _ => a1 ← ld srcp1 0; a2 ← ld srcp1 1; b2 ← ld srcp2 0;
         cmpn_do1 loop shl shr (srcp1 - 1 * OPSIZ) (srcp2 - 2 * OPSIZ) (len + 2) a1 a2 b2
  end.

(** The byte loops: the difference, or the pointers and the bytes left. *)
Fixpoint cmp_align (fuel : nat) (srcp1 srcp2 len : Z) : W (Z + Z * Z * Z) :=
  if srcp2 mod OPSIZ =? 0 then mret (inr (srcp1, srcp2, len))
  else
    match fuel with
    | O => undefined
    | S fuel =>
      a0 ← load_byte srcp1; b0 ← load_byte srcp2;
      let res := u64 (a0 - b0) in
      if negb (res =? 0) then mret (inl (i32 res)) else cmp_align fuel (srcp1 + 1) (srcp2 + 1) (len - 1)
    end.

Fixpoint cmp_tail (len : nat) (srcp1 srcp2 : Z) : W Z :=
  match len with
  | O => mret 0
  | S len =>
    a0 ← load_byte srcp1; b0 ← load_byte srcp2;
    let res := u64 (a0 - b0) in
    if negb (res =? 0) then mret (i32 res) else cmp_tail len (srcp1 + 1) (srcp2 + 1)
  end.

Definition memcmp (fuel : nat) (s1 s2 len : Z) : W Z :=
  if OP_T_THRES <=? len then
    r ← cmp_align 7 s1 s2 len;
    match r with
    | inl res => mret res
    | inr (srcp1, srcp2, len) =>
      res ← (if srcp1 mod OPSIZ =? 0 then memcmp_common_alignment fuel srcp1 srcp2 (len / OPSIZ)
             else memcmp_not_common_alignment fuel srcp1 srcp2 (len / OPSIZ));
      if negb (res =? 0) then mret res
      else cmp_tail (Z.to_nat (len mod OPSIZ)) (srcp1 + PTR_ALIGN_DOWN len) (srcp2 + PTR_ALIGN_DOWN len)
    end
  else cmp_tail (Z.to_nat len) s1 s2.
