(* ===== verification/StrRchrSpec.v ===== *)
(** * StrRchrSpec: [memrchr] and [strrchr] find the last place, [rawmemchr] the first *)

From S2P Require Import Prelude Mem Logic CStr Flat Fza FzaSpec WordStr WordStrSpec.
Local Open Scope Z_scope.

(** ** The last marked byte of a word *)

Lemma last_split p (l : list Z) :
  existsb p l = true → ∃ pre x post, l = pre ++ x :: post ∧ p x = true ∧ Forall (λ y, p y = false) post.
Proof.
  induction l as [|y l IH]; [done|]. cbn. destruct (existsb p l) eqn:E.
  - intros _. destruct (IH eq_refl) as (pre & x & post & -> & Hx & Hpost). by exists (y :: pre), x, post.
  - rewrite orb_false_r. intros Hy. exists [], y, l. split_and!; [done..|]. by apply existsb_false.
Qed.

Lemma index_last_ok p l m :
  existsb p l = true → (length l <= 8)%nat →
  ∃ k x, index_last (dec_le (mark p <$> l)) m = Some (Z.of_nat k, m) ∧ l !! k = Some x ∧ p x = true ∧
    ∀ j y, (k < j)%nat → l !! j = Some y → p y = false.
Proof.
  intros (pre & x & post & -> & Hx & Hpost)%last_split Hl. exists (length pre), x. rewrite length_app in Hl. cbn in Hl.
  rewrite fmap_app, fmap_cons, dec_le_app. cbn [dec_le]. rewrite (mark_zeros p post Hpost), length_fmap, pow256.
  unfold mark at 2. rewrite Hx. replace (128 + 256 * 0) with 128 by lia.
  assert (bytes (mark p <$> pre)) as Hb by apply mark_bytes. apply dec_le_range in Hb. rewrite length_fmap, pow256 in Hb.
  set (k := 8 * len pre) in *. assert (0 < 2 ^ k) as Hpk by (apply Z.pow_pos_nonneg; lia).
  assert (Z.log2 (dec_le (mark p <$> pre) + 2 ^ k * 128) = k + 7) as Hlog.
  { apply Z.log2_unique; [lia|]. rewrite Z.pow_add_r, <- Z.add_succ_r, Z.pow_add_r by lia. change (2 ^ 7) with 128.
    change (2 ^ Z.succ 7) with 256. lia. }
  split_and!.
  - unfold index_last, clz. rewrite (proj2 (Z.eqb_neq _ 0)) by lia. erewrite W_step by reflexivity. unfold mret, W_ret. rewrite Hlog.
    do 2 f_equal. unfold k. replace (63 - (8 * len pre + 7)) with ((7 - len pre) * 8) by lia. pose proof (Z.div_mul (7 - len pre) 8 ltac:(lia)). lia.
  - by apply list_lookup_middle.
  - done.
  - intros j y Hj Hy. rewrite lookup_app_r in Hy by lia. destruct (j - length pre)%nat as [|i] eqn:E; [lia|]. cbn in Hy.
    exact (Forall_lookup_1 _ _ _ _ Hpost Hy).
Qed.

(** The last place between [lo] and [hi] where [p] holds. *)
Definition last_in (m : mem) (p : Z → bool) (lo hi : Z) (r : option Z) : Prop :=
  match r with
  | Some h => lo <= h < hi ∧ p (byte m h) = true ∧ ∀ x, h < x < hi → p (byte m x) = false
  | None => ∀ x, lo <= x < hi → p (byte m x) = false
  end.

Section memrchr.
Context (m : mem) (c : Z).
Hypothesis m_ok : bytes_ok m.
Hypothesis c_ok : 0 <= c < 256.
Local Notation p := (λ b : Z, b =? c).
Set Default Proof Using "All".

Lemma none_bytes a k : existsb p (bytes_at m a k) = false → last_in m p a (a + Z.of_nat k) None.
Proof.
  clear. intros Ex%existsb_false x Hx. apply (Forall_lookup_1 _ _ (Z.to_nat (x - a)) (byte m x) Ex).
  rewrite bytes_at_lookup by lia. do 2 f_equal. lia.
Qed.

Lemma last_bytes a k :
  (k <= 8)%nat → existsb p (bytes_at m a k) = true →
  ∃ i, index_last (dec_le (mark p <$> bytes_at m a k)) m = Some (i, m) ∧ last_in m p a (a + Z.of_nat k) (Some (a + i)).
Proof.
  clear. intros Hk Ex. destruct (index_last_ok p _ m Ex) as (i & x & E & Hi & Hx & Hlast); [by rewrite length_bytes_at|].
  assert (i < k)%nat by (apply lookup_lt_Some in Hi; by rewrite length_bytes_at in Hi).
  rewrite bytes_at_lookup in Hi by done. injection Hi as <-. exists (Z.of_nat i). split; [done|]. split_and!; [lia|lia|done|].
  intros x Hxr. apply (Hlast (Z.to_nat (x - a))); [lia|]. rewrite bytes_at_lookup by lia. do 2 f_equal. lia.
Qed.

(** A whole word. *)
Lemma last_word a :
  if has_eq (word_at m a) (repeat_bytes c) then
    ∃ i, index_last_eq (word_at m a) (repeat_bytes c) m = Some (i, m) ∧ last_in m p a (a + 8) (Some (a + i))
  else last_in m p a (a + 8) None.
Proof.
  destruct (word_bytes m m_ok a) as (E & Hb & Hl). rewrite E, has_eq_dec by done. destruct (existsb _ _) eqn:Ex.
  - destruct (last_bytes a 8 ltac:(lia) Ex) as (i & Ei & Hi). exists i. split; [|done]. unfold index_last_eq, index_last_zero.
    fold (find_eq_all (dec_le (bytes_at m a 8)) (repeat_bytes c)). by rewrite find_eq_mark.
  - by apply (none_bytes a 8).
Qed.

Lemma last_extend lo mid hi r : last_in m p lo mid (Some r) → last_in m p mid hi None → mid <= hi → last_in m p lo hi (Some r).
Proof.
  clear. intros (H1 & H2 & H3) H4 Hle. split_and!; [lia|lia|done|]. intros x Hx.
  destruct (Z.lt_ge_cases x mid); [apply H3|apply H4]; lia.
Qed.

Lemma none_extend lo mid hi : last_in m p lo mid None → last_in m p mid hi None → last_in m p lo hi None.
Proof. clear. intros H1 H2 x Hx. destruct (Z.lt_ge_cases x mid); [apply H1|apply H2]; lia. Qed.

Lemma memrchr_loop_ok fuel wp sw e :
  wp mod 8 = 0 → sw mod 8 = 0 → sw <= wp → wp + 8 <= e → last_in m p (wp + 8) e None →
  (∀ x, sw <= x <= wp → x mod 8 = 0 → mapped m (page x) = true) → wp - sw <= 8 * Z.of_nat fuel →
  ∃ r, memrchr_loop fuel wp sw (word_at m wp) (repeat_bytes c) m = Some (r, m) ∧
    match r with inl h => last_in m p (sw + 8) e (Some h) | inr w => w = word_at m sw ∧ last_in m p (sw + 8) e None end.
Proof.
  revert wp. induction fuel as [|fuel IH]; intros wp Hwp Hsw Hle He Hn Hr Hfuel; cbn [memrchr_loop];
    (destruct (Z.eqb_spec wp sw) as [->|Hne]; [by eexists|]); [lia|].
  assert (sw <= wp - 8 ∧ (wp - 8) mod 8 = 0) as [Hle' Hwp'] by (Z.to_euclidean_division_equations; lia).
  pose proof (last_word wp) as Hw. destruct (has_eq _ _).
  - destruct Hw as (i & Ei & Hi). rewrite (W_step _ _ _ _ _ Ei). eexists. split; [done|].
    eapply last_extend; [|exact Hn|done]. destruct Hi as (H1 & H2 & H3). split_and!; [lia|lia|done..].
  - rewrite (W_step _ _ _ _ _ (load_word_ok m (wp - 8) Hwp' (Hr (wp - 8) ltac:(lia) Hwp'))).
    apply (IH (wp - 8)); try done; try lia.
    + replace (wp - 8 + 8) with wp by lia. by eapply none_extend.
    + intros x Hx. apply Hr. lia.
Qed.

(** The bytes of the word before [e]. *)
Lemma shift_find_last_mask a e :
  a mod 8 = 0 → a < e <= a + 8 →
  shift_find_last (find_eq_all (word_at m a) (repeat_bytes c)) e = dec_le (mark p <$> bytes_at m a (Z.to_nat (e - a))).
Proof.
  intros Ha He. destruct (word_bytes m m_ok a) as (E & Hb & Hl). rewrite E, find_eq_mark by done. unfold shift_find_last.
  destruct (Z.eqb_spec (e mod 8) 0) as [E0|E0].
  { replace e with (a + 8) by (Z.to_euclidean_division_equations; lia). do 3 f_equal. lia. }
  set (k := Z.to_nat (e - a)). assert (e mod 8 = Z.of_nat k ∧ (k < 8)%nat) as [-> Hk] by (Z.to_euclidean_division_equations; lia).
  replace (bytes_at m a 8) with (bytes_at m a (k + (8 - k))) by (f_equal; lia). rewrite bytes_at_app, fmap_app, dec_le_app.
  rewrite length_fmap, length_bytes_at, pow256. set (x := dec_le (mark p <$> bytes_at m a k)). set (y := dec_le _).
  assert (0 <= x < 2 ^ (8 * Z.of_nat k)) as Hx.
  { pose proof (dec_le_range _ (mark_bytes p (bytes_at m a k))) as Hd. by rewrite length_fmap, length_bytes_at, pow256 in Hd. }
  assert (not64 (u64 (Z.shiftl (2 ^ 64 - 1) (Z.of_nat k * 8))) = Z.ones (8 * Z.of_nat k)) as ->.
  { clear - Hk. do 8 (destruct k as [|k]; [by vm_compute|]). lia. }
  rewrite Z.land_ones by lia. rewrite Z.mul_comm, Z_mod_plus_full. by apply Z.mod_small.
Qed.

Lemma memrchr_ok fuel c_in s n :
  u8 c_in = c → 0 <= n → readable m s n → n <= 8 * Z.of_nat fuel →
  ∃ r, memrchr fuel s c_in n m = Some (r, m) ∧ last_in m p s (s + n) r.
Proof.
  intros Hc Hn Hr Hfuel. unfold memrchr. destruct (Z.eqb_spec n 0) as [->|Hn0]; [exists None; split; [done|]; intros x Hx; lia|].
  cbv zeta. rewrite repeat_bytes_u8, Hc. set (e := s + n). set (wp := PTR_ALIGN_UP e - 8). set (sw := PTR_ALIGN_DOWN s).
  assert (wp mod 8 = 0 ∧ wp < e <= wp + 8 ∧ sw mod 8 = 0 ∧ sw <= s < sw + 8 ∧ sw <= wp) as (Hwp & He & Hsw & Hs & Hle)
    by (unfold wp, sw, PTR_ALIGN_UP, PTR_ALIGN_DOWN; Z.to_euclidean_division_equations; lia).
  assert (∀ x, sw <= x <= wp → x mod 8 = 0 → mapped m (page x) = true) as Hmap.
  { intros x Hx Hx8. rewrite <- (page_word x (Z.max x s)) by (done || lia). apply Hr. lia. }
  rewrite (W_step _ _ _ _ _ (load_word_ok m wp Hwp (Hmap wp ltac:(lia) Hwp))), shift_find_last_mask by done.
  rewrite mark_nonzero, negb_involutive. set (k := Z.to_nat (e - wp)). assert (wp + Z.of_nat k = e) as Ek by lia.
  destruct (existsb _ _) eqn:Ex.
  { destruct (last_bytes wp k ltac:(lia) Ex) as (i & Ei & Hi). rewrite (W_step _ _ _ _ _ Ei). eexists. split; [done|].
    rewrite Ek in Hi. destruct Hi as (H1 & H2 & H3). destruct (Z.leb_spec s (wp + i)).
    - split_and!; [lia|lia|done..].
    - intros x Hx. apply H3. lia. }
  pose proof (none_bytes _ _ Ex) as Hnone. rewrite Ek in Hnone. destruct (Z.eqb_spec wp sw) as [E|E].
  { exists None. split; [done|]. intros x Hx. apply Hnone. lia. }
  assert (sw <= wp - 8 ∧ (wp - 8) mod 8 = 0) as [Hle' Hwp'] by (Z.to_euclidean_division_equations; lia).
  rewrite (W_step _ _ _ _ _ (load_word_ok m (wp - 8) Hwp' (Hmap (wp - 8) ltac:(lia) Hwp'))).
  destruct (memrchr_loop_ok fuel (wp - 8) sw e) as (r & Er & Hres); try done; try lia.
  { by replace (wp - 8 + 8) with wp by lia. }
  { intros x Hx. apply Hmap. lia. }
  rewrite (W_step _ _ _ _ _ Er). destruct r as [h|w].
  - exists (Some h). split; [done|]. destruct Hres as (H1 & H2 & H3). split_and!; [lia|lia|done..].
  - destruct Hres as [-> Hres]. pose proof (last_word sw) as Hw. destruct (has_eq _ _).
    + destruct Hw as (i & Ei & Hi). rewrite (W_step _ _ _ _ _ Ei). eexists. split; [done|].
      assert (last_in m p sw e (Some (sw + i))) as (H1 & H2 & H3) by (eapply last_extend; [exact Hi|done|lia]).
      destruct (Z.leb_spec s (sw + i)); [split_and!; [lia|lia|done..]|]. intros x Hx. apply H3. lia.
    + exists None. split; [done|]. assert (last_in m p sw e None) as Hall by by eapply none_extend. intros x Hx. apply Hall. lia.
Qed.
End memrchr.
