(* ===== verification/StrCmpSpec.v ===== *)
(** * StrCmpSpec: [strcmp] and [strncmp] compare byte by byte

    The result is the difference of the bytes at the first place where the byte of the first
    argument is NUL or differs from the byte of the second one, whatever the alignment of the
    two addresses; words are only read when they hold a byte up to that place. *)

From S2P Require Import Prelude Mem Logic CStr Flat Fza FzaSpec WordStr WordStrSpec.
Local Open Scope Z_scope.

(** ** Two words *)

(** Where a comparison stops. *)
Definition ne (b c : Z) : bool := (b =? 0) || negb (b =? c).

Lemma ne_false b c : ne b c = false ↔ b = c ∧ b ≠ 0.
Proof. unfold ne. rewrite orb_false_iff, negb_false_iff, Z.eqb_neq, Z.eqb_eq. naive_solver. Qed.

(** The two lists agree, without a NUL, before position [d]. *)
Definition agree (d : nat) (bs cs : list Z) : Prop :=
  ∀ i b c, (i < d)%nat → bs !! i = Some b → cs !! i = Some c → ne b c = false.

Lemma extractbyte_dec bs i b : bytes bs → bs !! i = Some b → extractbyte (dec_le bs) (Z.of_nat i) = b.
Proof.
  intros Hb Hi. unfold extractbyte. rewrite Z.shiftr_div_pow2 by lia. replace (Z.of_nat i * 8) with (8 * Z.of_nat i) by lia.
  rewrite <- pow256, <- (take_drop i bs), dec_le_app, length_take_le by (apply lookup_lt_Some in Hi; lia).
  rewrite Z.mul_comm, Z.div_add by (pose proof (pow256_pos i); lia). rewrite Z.div_small.
  2:{ assert (bytes (take i bs)) as Ht by by apply Forall_take. apply dec_le_range in Ht.
      by rewrite length_take_le in Ht by (apply lookup_lt_Some in Hi; lia). }
  rewrite (drop_S bs b i Hi). cbn [dec_le]. pose proof (Forall_lookup_1 _ _ _ _ Hb Hi) as Hr. cbn in Hr.
  unfold wrapu. rewrite Z.add_0_l. replace (b + 256 * dec_le (drop (S i) bs)) with (b + dec_le (drop (S i) bs) * 2 ^ 8) by lia.
  rewrite Z_mod_plus_full. by apply Z.mod_small.
Qed.

Lemma first_pos_at p l i b :
  (∀ j c, (j < i)%nat → l !! j = Some c → p c = false) → l !! i = Some b → p b = true →
  existsb p l = true ∧ first_pos p l = i.
Proof.
  revert i. induction l as [|x l IH]; intros i Hlow Hi Hb; [done|]. cbn. destruct i as [|i].
  - injection Hi as ->. by rewrite Hb.
  - rewrite (Hlow 0%nat x) by (lia || done). cbn. destruct (IH i) as [-> ->]; try done.
    intros j c Hj Hc. by apply (Hlow (S j)); [lia|].
Qed.

(** The first place where the words differ or the first one has a NUL. *)
Lemma index_first_ne bs cs d b c m :
  bytes bs → length bs = 8%nat → bytes cs → length cs = 8%nat →
  agree d bs cs → bs !! d = Some b → cs !! d = Some c → ne b c = true →
  index_first_zero_ne (dec_le bs) (dec_le cs) m = Some (Z.of_nat d, m).
Proof.
  intros Hb Hl Hc Hm Ha Hbd Hcd Hne. unfold index_first_zero_ne. rewrite find_zero_ne_all_dec by done.
  set (p := λ x : Z, negb (x =? 0)).
  assert (zip_with nemask bs cs = mark p <$> zip_with nemask bs cs) as ->.
  { clear. revert cs. induction bs as [|b bs IH]; intros [|c cs]; [done..|]. cbn. f_equal; [|apply IH].
    unfold mark, p, nemask. by destruct (_ || _). }
  assert (p (nemask b c) = true) as Hp by (unfold nemask; unfold ne in Hne; by rewrite Hne).
  destruct (first_pos_at p (zip_with nemask bs cs) d (nemask b c)) as [E1 E2]; try done.
  - intros j x Hj Hx. apply lookup_zip_with_Some in Hx as (b' & c' & -> & Hb' & Hc'). specialize (Ha j b' c' Hj Hb' Hc').
    unfold ne in Ha. unfold nemask. by rewrite Ha.
  - rewrite lookup_zip_with, Hbd. cbn. by rewrite Hcd.
  - rewrite mark_index by (try done; rewrite length_zip_with; lia). by rewrite E2.
Qed.

Lemma final_cmp_ok bs cs d b c m :
  bytes bs → length bs = 8%nat → bytes cs → length cs = 8%nat →
  agree d bs cs → bs !! d = Some b → cs !! d = Some c → ne b c = true →
  final_cmp (dec_le bs) (dec_le cs) m = Some (b - c, m).
Proof.
  intros Hb Hl Hc Hm Ha Hbd Hcd Hne. unfold final_cmp. rewrite (W_step _ _ _ (Z.of_nat d) m) by by eapply index_first_ne.
  by rewrite (extractbyte_dec bs d b), (extractbyte_dec cs d c).
Qed.

Lemma dec_zeros n : dec_le (replicate n 0) = 0.
Proof. induction n as [|n IH]; cbn [replicate dec_le]; lia. Qed.

Lemma lor_zeros_r bs : zip_with Z.lor bs (replicate (length bs) 0) = bs.
Proof. induction bs as [|b bs IH]; [done|]. cbn. by rewrite Z.lor_0_r, IH. Qed.

Lemma lor_zeros_l bs : zip_with Z.lor (replicate (length bs) 0) bs = bs.
Proof. induction bs as [|b bs IH]; [done|]. cbn. by rewrite IH. Qed.

Lemma shiftr_dec bs n :
  bytes bs → (n < 8)%nat → Z.shiftr (dec_le bs) (8 * Z.of_nat n) = dec_le (drop n bs ++ replicate n 0).
Proof.
  intros Hb Hn. pose proof (shift_find_dec bs (Z.of_nat n) Hb ltac:(lia)) as E. unfold shift_find in E.
  rewrite (Z.mod_small (Z.of_nat n)), Nat2Z.id in E by lia. rewrite E, dec_le_app, dec_zeros. lia.
Qed.

Lemma shiftl_dec cs n :
  bytes cs → length cs = 8%nat → (n <= 8)%nat →
  u64 (Z.shiftl (dec_le cs) (64 - 8 * Z.of_nat n)) = dec_le (replicate (8 - n) 0 ++ take n cs).
Proof.
  intros Hc Hm Hn. rewrite dec_le_app, length_replicate, dec_zeros, Z.add_0_l, pow256.
  rewrite Z.shiftl_mul_pow2 by lia. replace (8 * Z.of_nat (8 - n)) with (64 - 8 * Z.of_nat n) by lia.
  rewrite <- (take_drop n cs) at 1. rewrite dec_le_app, length_take_le, pow256 by lia. unfold wrapu.
  assert (2 ^ 64 = 2 ^ (8 * Z.of_nat n) * 2 ^ (64 - 8 * Z.of_nat n)) as E by (rewrite <- Z.pow_add_r by lia; f_equal; lia).
  replace ((dec_le (take n cs) + 2 ^ (8 * Z.of_nat n) * dec_le (drop n cs)) * 2 ^ (64 - 8 * Z.of_nat n))
    with (dec_le (take n cs) * 2 ^ (64 - 8 * Z.of_nat n) + dec_le (drop n cs) * 2 ^ 64) by (rewrite E; ring).
  rewrite Z_mod_plus_full, Z.mod_small; [ring|]. rewrite E.
  assert (bytes (take n cs)) as Ht by by apply Forall_take. apply dec_le_range in Ht.
  rewrite length_take_le, pow256 in Ht by lia. pose proof (Z.pow_pos_nonneg 2 (64 - 8 * Z.of_nat n)). nia.
Qed.

(** A word that begins with the end of one and goes on with the beginning of the next. *)
Lemma MERGE_dec bs cs n :
  bytes bs → length bs = 8%nat → bytes cs → length cs = 8%nat → (n < 8)%nat →
  MERGE (dec_le bs) (8 * Z.of_nat n) (dec_le cs) (64 - 8 * Z.of_nat n) = dec_le (drop n bs ++ take n cs).
Proof.
  intros Hb Hl Hc Hm Hn. unfold MERGE. rewrite shiftr_dec, shiftl_dec by (done || lia).
  assert (∀ k, bytes (replicate k 0)) as H0 by (intros; by apply Forall_replicate).
  rewrite lor_dec.
  - f_equal. rewrite zip_with_app by (rewrite length_drop, length_replicate; lia). f_equal.
    + replace (8 - n)%nat with (length (drop n bs)) by (rewrite length_drop; lia). apply lor_zeros_r.
    + replace n with (length (take n cs)) at 1 by (rewrite length_take_le; lia). apply lor_zeros_l.
  - apply Forall_app. split; [by apply Forall_drop|apply H0].
  - apply Forall_app. split; [apply H0|by apply Forall_take].
  - rewrite !length_app, length_drop, !length_replicate, length_take_le by lia. lia.
Qed.

Lemma dec_inj bs cs : bytes bs → bytes cs → length bs = length cs → dec_le bs = dec_le cs → bs = cs.
Proof.
  intros Hb. revert cs. induction Hb as [|b bs Hb Hbs IH]; intros [|c cs] Hc Hl E; try done. inv Hc. cbn in E.
  assert (b = c ∧ dec_le bs = dec_le cs) as [-> E'] by lia. f_equal. apply IH; [done|cbn in Hl; lia|done].
Qed.

(** ** Two addresses *)

(** The comparison of the bytes at [p1] and [p2] stops at distance [d]. *)
Definition stops (m : mem) (p1 p2 : Z) (d : nat) : Prop :=
  (∀ i, (i < d)%nat → ne (byte m (p1 + Z.of_nat i)) (byte m (p2 + Z.of_nat i)) = false) ∧
  ne (byte m (p1 + Z.of_nat d)) (byte m (p2 + Z.of_nat d)) = true.

Definition diff (m : mem) (p1 p2 : Z) (d : nat) : Z := byte m (p1 + Z.of_nat d) - byte m (p2 + Z.of_nat d).

Lemma stops_drop m p1 p2 d k : stops m p1 p2 d → (k <= d)%nat → stops m (p1 + Z.of_nat k) (p2 + Z.of_nat k) (d - k).
Proof.
  intros [H1 H2] Hk. split.
  - intros i Hi. rewrite <- (H1 (k + i)%nat) by lia. do 2 f_equal; lia.
  - rewrite <- H2. do 2 f_equal; lia.
Qed.

Lemma diff_drop m p1 p2 d k : (k <= d)%nat → diff m (p1 + Z.of_nat k) (p2 + Z.of_nat k) (d - k) = diff m p1 p2 d.
Proof. intros Hk. unfold diff. do 2 f_equal; lia. Qed.

Section words.
Context (m : mem).
Hypothesis m_ok : bytes_ok m.
Set Default Proof Using "All".

(** The second word need not be from the memory: it agrees with it up to the stop. *)
Lemma final_cmp_stops p1 p2 d cs :
  stops m p1 p2 d → (d < 8)%nat → bytes cs → length cs = 8%nat →
  (∀ i, (i <= d)%nat → cs !! i = Some (byte m (p2 + Z.of_nat i))) →
  final_cmp (word_at m p1) (dec_le cs) m = Some (diff m p1 p2 d, m).
Proof.
  intros [H1 H2] Hd Hc Hl Hcs. destruct (word_bytes m m_ok p1) as (E & Hb & Hlb). rewrite E.
  apply (final_cmp_ok _ _ d); try done; [|by apply bytes_at_lookup|by apply Hcs].
  intros i b c Hi Hbi Hci. rewrite bytes_at_lookup in Hbi by lia. rewrite Hcs in Hci by lia.
  injection Hbi as <-. injection Hci as <-. by apply H1.
Qed.

Lemma stops_words p1 p2 d :
  stops m p1 p2 d →
  if word_at m p1 =? word_at m p2 then
    if has_zero (word_at m p1) then (d < 8)%nat ∧ diff m p1 p2 d = 0 else (8 <= d)%nat
  else (d < 8)%nat ∧ final_cmp (word_at m p1) (word_at m p2) m = Some (diff m p1 p2 d, m).
Proof.
  intros Hs. pose proof Hs as [H1 H2].
  destruct (word_bytes m m_ok p1) as (E1 & Hb1 & Hl1). destruct (word_bytes m m_ok p2) as (E2 & Hb2 & Hl2).
  destruct (Z.eqb_spec (word_at m p1) (word_at m p2)) as [E|E].
  - rewrite E1, E2 in E. apply dec_inj in E; [|done|done|by rewrite !length_bytes_at].
    assert (∀ i, (i < 8)%nat → byte m (p1 + Z.of_nat i) = byte m (p2 + Z.of_nat i)) as Heq.
    { intros i Hi. pose proof (bytes_at_lookup m p1 8 i Hi) as A. rewrite E, bytes_at_lookup in A by done. by injection A. }
    rewrite E1, has_zero_dec by done. destruct (existsb is0 (bytes_at m p1 8)) eqn:Ex.
    + destruct (first_pos_lookup _ _ Ex) as (x & Hx & H0). set (i := first_pos is0 (bytes_at m p1 8)) in *.
      assert (i < 8)%nat as Hi by (apply lookup_lt_Some in Hx; by rewrite length_bytes_at in Hx).
      rewrite bytes_at_lookup in Hx by done. injection Hx as <-.
      assert (d <= i)%nat as Hd.
      { destruct (Nat.le_gt_cases d i); [done|]. specialize (H1 i ltac:(lia)). unfold is0 in H0. unfold ne in H1. by rewrite H0 in H1. }
      split; [lia|]. unfold diff. rewrite Heq by lia. lia.
    + destruct (Nat.le_gt_cases 8 d); [done|]. exfalso. apply existsb_false in Ex.
      apply (Forall_lookup_1 _ _ d (byte m (p1 + Z.of_nat d))) in Ex; [|by apply bytes_at_lookup].
      rewrite <- Heq in H2 by done. unfold ne in H2. unfold is0 in Ex. by rewrite Ex, Z.eqb_refl in H2.
  - assert (d < 8)%nat as Hd.
    { destruct (Nat.le_gt_cases 8 d); [|done]. destruct E. rewrite E1, E2. f_equal. apply list_eq_same_length with 8%nat; [done..|].
      intros i x y Hi Hx Hy. rewrite bytes_at_lookup in Hx, Hy by done. injection Hx as <-. injection Hy as <-.
      by apply ne_false, H1; lia. }
    split; [done|]. rewrite E2. apply final_cmp_stops; try done. intros i Hi. apply bytes_at_lookup. lia.
Qed.

Lemma aligned_cmp_ok fuel a1 a2 d :
  a1 mod 8 = 0 → a2 mod 8 = 0 → stops m a1 a2 d → readable m a1 (Z.of_nat d + 1) → readable m a2 (Z.of_nat d + 1) → (d / 8 < fuel)%nat →
  aligned_cmp fuel (a1 + 8) (a2 + 8) (word_at m a1) (word_at m a2) m = Some (diff m a1 a2 d, m).
Proof.
  revert a1 a2 d. induction fuel as [|fuel IH]; intros a1 a2 d Ha1 Ha2 Hs Hr1 Hr2 Hfuel; [lia|]. cbn [aligned_cmp].
  pose proof (stops_words _ _ _ Hs) as Hw. destruct (_ =? _); [|by apply Hw]. destruct (has_zero _).
  { destruct Hw as [_ ->]. done. }
  rewrite (W_step _ _ _ _ _ (load_word_reach m (a1 + 8) (a1 + 8) ltac:(Z.to_euclidean_division_equations; lia) ltac:(lia) ltac:(apply Hr1; lia))).
  rewrite (W_step _ _ _ _ _ (load_word_reach m (a2 + 8) (a2 + 8) ltac:(Z.to_euclidean_division_equations; lia) ltac:(lia) ltac:(apply Hr2; lia))).
  rewrite (IH (a1 + 8) (a2 + 8) (d - 8)%nat).
  - by rewrite <- (diff_drop m a1 a2 d 8).
  - Z.to_euclidean_division_equations; lia.
  - Z.to_euclidean_division_equations; lia.
  - by apply (stops_drop m a1 a2 d 8).
  - intros x Hx. apply Hr1. lia.
  - intros x Hx. apply Hr2. lia.
  - replace d with (d - 8 + 1 * 8)%nat in Hfuel by lia. rewrite Nat.div_add in Hfuel by lia. lia.
Qed.

(** *** Words at different offsets *)

Lemma MERGE_fill x n cs :
  (n < 8)%nat → bytes cs → length cs = 8%nat →
  MERGE (word_at m x) (Z.of_nat n * 8) (dec_le cs) (64 - Z.of_nat n * 8) = dec_le (bytes_at m (x + Z.of_nat n) (8 - n) ++ take n cs).
Proof.
  intros Hn Hc Hl. destruct (word_bytes m m_ok x) as (E & Hb & Hlb). rewrite E, (Z.mul_comm _ 8), MERGE_dec by done.
  do 2 f_equal. replace 8%nat with (n + (8 - n))%nat at 1 by lia. by rewrite bytes_at_app, drop_app_length' by by rewrite length_bytes_at.
Qed.

Lemma MERGE_words x n :
  (n < 8)%nat → MERGE (word_at m x) (Z.of_nat n * 8) (word_at m (x + 8)) (64 - Z.of_nat n * 8) = word_at m (x + Z.of_nat n).
Proof.
  intros Hn. destruct (word_bytes m m_ok (x + 8)) as (E & Hb & Hlb). rewrite E, MERGE_fill by done. unfold word_at. f_equal.
  replace (bytes_at m (x + Z.of_nat n) 8) with (bytes_at m (x + Z.of_nat n) (8 - n + n)) by (f_equal; lia).
  rewrite bytes_at_app. f_equal. replace (x + Z.of_nat n + Z.of_nat (8 - n)) with (x + 8) by lia.
  replace (bytes_at m (x + 8) 8) with (bytes_at m (x + 8) (n + (8 - n))) by (f_equal; lia).
  by rewrite bytes_at_app, take_app_length' by by rewrite length_bytes_at.
Qed.

Lemma stops_nul p1 p2 d z : stops m p1 p2 d → first_hit m p2 z is0 → (d <= z)%nat.
Proof.
  intros [H1 _] [_ H2]. destruct (Nat.le_gt_cases d z); [done|]. specialize (H1 z ltac:(lia)). apply ne_false in H1 as [E Hn].
  unfold is0 in H2. lia.
Qed.

(** A filled word compares like the memory, when the stop is in its part from the memory. *)
Lemma final_cmp_fill p1 x n d cs :
  (n < 8)%nat → bytes cs → length cs = 8%nat → stops m p1 (x + Z.of_nat n) d → (d < 8 - n)%nat →
  final_cmp (word_at m p1) (MERGE (word_at m x) (Z.of_nat n * 8) (dec_le cs) (64 - Z.of_nat n * 8)) m =
  Some (diff m p1 (x + Z.of_nat n) d, m).
Proof.
  intros Hn Hc Hl Hs Hd. rewrite MERGE_fill by done. apply final_cmp_stops; [done|lia| | |].
  - apply Forall_app. split; [by apply bytes_at_range|by apply Forall_take].
  - rewrite length_app, length_bytes_at, length_take_le by lia. lia.
  - intros i Hi. rewrite lookup_app_l by (rewrite length_bytes_at; lia). apply bytes_at_lookup. lia.
Qed.

Lemma fill_has_zero x n cs z :
  (n < 8)%nat → bytes cs → length cs = 8%nat → existsb is0 (take n cs) = false → first_hit m (x + Z.of_nat n) z is0 →
  has_zero (MERGE (word_at m x) (Z.of_nat n * 8) (dec_le cs) (64 - Z.of_nat n * 8)) = bool_decide (z < 8 - n)%nat.
Proof.
  intros Hn Hc Hl Hz Hf. rewrite MERGE_fill, has_zero_dec by
    (rewrite ?length_app, ?length_bytes_at, ?length_take_le by lia; lia || done || (apply Forall_app; split; [by apply bytes_at_range|by apply Forall_take])).
  rewrite existsb_app, Hz, orb_false_r. by destruct (first_hit_bytes _ _ _ _ (8 - n) Hf) as [-> _].
Qed.

Lemma word_has_zero x z : first_hit m x z is0 → has_zero (word_at m x) = bool_decide (z < 8)%nat.
Proof.
  intros Hf. destruct (word_bytes m m_ok x) as (E & Hb & Hl). rewrite E, has_zero_dec by done.
  by destruct (first_hit_bytes _ _ _ _ 8 Hf) as [-> _].
Qed.

Lemma unaligned_cmp_ok fuel a1 x2 n d z :
  a1 mod 8 = 0 → x2 mod 8 = 0 → (n < 8)%nat → stops m a1 (x2 + Z.of_nat n) d → first_hit m (x2 + Z.of_nat n) z is0 → (8 - n <= z)%nat →
  readable m a1 (Z.of_nat d + 1) → readable m (x2 + Z.of_nat n) (Z.of_nat z + 1) → (d / 8 < fuel)%nat →
  unaligned_cmp fuel (a1 + 8) (x2 + 8) (word_at m a1) (word_at m x2) (Z.of_nat n * 8) (64 - Z.of_nat n * 8) m =
  Some (diff m a1 (x2 + Z.of_nat n) d, m).
Proof.
  revert a1 x2 d z. induction fuel as [|fuel IH]; intros a1 x2 d z Ha1 Ha2 Hn Hs Hz Hz8 Hr1 Hr2 Hfuel; [lia|]. cbn [unaligned_cmp].
  assert ((a1 + 8) mod 8 = 0 ∧ (x2 + 8) mod 8 = 0) as [Ha1' Ha2'] by (Z.to_euclidean_division_equations; lia).
  rewrite (W_step _ _ _ _ _ (load_word_reach m (x2 + 8) (x2 + 8) Ha2' ltac:(lia) ltac:(apply Hr2; lia))). cbv zeta.
  rewrite MERGE_words by done. pose proof (stops_words _ _ _ Hs) as Hw. destruct (_ =? _); cbn [negb]; [|by apply Hw].
  assert (first_hit m (x2 + 8) (z - (8 - n)) is0) as Hzb.
  { replace (x2 + 8) with (x2 + Z.of_nat n + Z.of_nat (8 - n)) by lia. by apply first_hit_drop. }
  rewrite (word_has_zero _ _ Hzb). pose proof (stops_nul _ _ _ _ Hs Hz) as Hdz. case_bool_decide as Hcase; destruct (has_zero (word_at m a1)) eqn:Hz1.
  - destruct Hw as [_ ->]. done.
  - rewrite (W_step _ _ _ _ _ (load_word_reach m (a1 + 8) (a1 + 8) Ha1' ltac:(lia) ltac:(apply Hr1; lia))).
    pose proof (stops_drop _ _ _ _ 8 Hs Hw) as Hs'.
    replace (x2 + Z.of_nat n + Z.of_nat 8) with (x2 + 8 + Z.of_nat n) in Hs' by lia.
    change 0 with (dec_le (replicate 8 0)) at 1.
    assert (z - 8 < 8 - n)%nat by lia.
    rewrite (final_cmp_fill (a1 + 8) (x2 + 8) n (d - 8)); [|done|by apply Forall_replicate|done|done|lia].
    rewrite <- (diff_drop m a1 (x2 + Z.of_nat n) d 8) by done. do 2 f_equal. unfold diff. do 2 f_equal; lia.
  - exfalso. destruct Hw as [Hd Hdiff]. destruct Hs as [_ Hs]. unfold diff in Hdiff. unfold ne in Hs.
    destruct Hz as [Hz _]. specialize (Hz d ltac:(lia)). unfold is0 in Hz. lia.
  - rewrite (W_step _ _ _ _ _ (load_word_reach m (a1 + 8) (a1 + 8) Ha1' ltac:(lia) ltac:(apply Hr1; lia))).
    pose proof (stops_drop _ _ _ _ 8 Hs Hw) as Hs'. pose proof (first_hit_drop _ _ _ 8 _ Hz ltac:(lia)) as Hz'.
    replace (x2 + Z.of_nat n + Z.of_nat 8) with (x2 + 8 + Z.of_nat n) in Hs', Hz' by lia.
    rewrite (IH (a1 + 8) (x2 + 8) (d - 8)%nat (z - 8)%nat); try done.
    + rewrite <- (diff_drop m a1 (x2 + Z.of_nat n) d 8) by done. do 2 f_equal. unfold diff. do 2 f_equal; lia.
    + lia.
    + intros x Hx. apply Hr1. lia.
    + intros x Hx. apply Hr2. lia.
    + replace d with (d - 8 + 1 * 8)%nat in Hfuel by lia. rewrite Nat.div_add in Hfuel by lia. lia.
Qed.
End words.

(** ** The strings *)

Lemma string_stops m a b s t :
  string_at m a s → string_at m b t →
  ∃ d, stops m a b d ∧ (d <= length s)%nat ∧ (d <= length t)%nat ∧ diff m a b d = str_cmp s t.
Proof.
  revert a b t. induction s as [|c s IH]; intros a b t Hs Ht.
  - exists 0%nat. destruct (string_at_head _ _ _ Hs) as [E _]. destruct (string_at_head _ _ _ Ht) as [E' _]. cbn in E.
    split_and!; [split; [lia|]|cbn; lia..|]; unfold diff; rewrite !Z.add_0_r, E; [done|]. rewrite E'. by destruct t.
  - destruct (string_at_head _ _ _ Hs) as [E _]. destruct (string_at_head _ _ _ Ht) as [E' _].
    pose proof (sa_chars _ _ _ Hs) as [Hc _]%Forall_cons. destruct t as [|e t]; cbn in E, E'.
    { exists 0%nat. split_and!; [split; [lia|]|cbn; lia..|]; unfold diff; rewrite !Z.add_0_r, E, E'.
      - unfold ne. by rewrite (proj2 (Z.eqb_neq c 0)) by lia.
      - cbn. lia. }
    cbn [str_cmp]. destruct (Z.eqb_spec c e) as [->|Hne].
    + destruct (IH (a + 1) (b + 1) t) as (d & [H1 H2] & Hd1 & Hd2 & Hd); [by eapply string_at_tail..|].
      exists (S d). split_and!; [split|cbn; lia..|].
      * intros [|i] Hi; [rewrite !Z.add_0_r, E, E'; apply ne_false; lia|].
        rewrite <- (H1 i) by lia. do 2 f_equal; lia.
      * rewrite <- H2. do 2 f_equal; lia.
      * rewrite <- Hd. unfold diff. do 2 f_equal; lia.
    + exists 0%nat. split_and!; [split; [lia|]|cbn; lia..|]; unfold diff; rewrite !Z.add_0_r, E, E'; [|done].
      unfold ne. by rewrite (proj2 (Z.eqb_neq c e)), orb_true_r.
Qed.

Lemma cmp_bytes_ok m k p1 p2 d :
  stops m p1 p2 d → readable m p1 (Z.min (Z.of_nat d + 1) (Z.of_nat k)) → readable m p2 (Z.min (Z.of_nat d + 1) (Z.of_nat k)) →
  cmp_bytes k p1 p2 m = Some (if decide (d < k)%nat then inl (diff m p1 p2 d) else inr (p1 + Z.of_nat k, p2 + Z.of_nat k), m).
Proof.
  revert p1 p2 d. induction k as [|k IH]; intros p1 p2 d Hs Hr1 Hr2.
  { cbn [cmp_bytes]. rewrite decide_False by lia. by rewrite !Z.add_0_r. }
  cbn [cmp_bytes]. erewrite W_step by (apply load_byte_ok, Hr1; lia). erewrite W_step by (apply load_byte_ok, Hr2; lia). cbv zeta.
  assert ((byte m p1 =? 0) || negb (byte m p1 - byte m p2 =? 0) = ne (byte m p1) (byte m p2)) as ->.
  { unfold ne. do 2 f_equal. destruct (Z.eqb_spec (byte m p1) (byte m p2)); [apply Z.eqb_eq|apply Z.eqb_neq]; lia. }
  destruct d as [|d].
  - destruct Hs as [_ Hs]. rewrite !Z.add_0_r in Hs. rewrite Hs, decide_True by lia. unfold diff. by rewrite !Z.add_0_r.
  - pose proof Hs as [H0 _]. specialize (H0 0%nat ltac:(lia)). rewrite !Z.add_0_r in H0. rewrite H0.
    pose proof (stops_drop _ _ _ _ 1 Hs ltac:(lia)) as Hs'. cbn [Nat.sub] in Hs'. rewrite Nat.sub_0_r in Hs'.
    change (Z.of_nat 1) with 1 in Hs'. rewrite (IH (p1 + 1) (p2 + 1) d Hs').
    + do 2 f_equal. destruct (decide (d < k)%nat).
      * rewrite decide_True by lia. f_equal. unfold diff. do 2 f_equal; lia.
      * rewrite decide_False by lia. do 2 f_equal; lia.
    + intros x Hx. apply Hr1. lia.
    + intros x Hx. apply Hr2. lia.
Qed.

Lemma to_align p : let n := u64 (- p) mod 8 in 0 <= n < 8 ∧ (p + n) mod 8 = 0.
Proof.
  intros n. assert (n = (- p) mod 8) as E.
  { unfold n, wrapu. symmetry. apply Znumtheory.Zmod_div_mod; [lia|lia|by exists (2 ^ 61)]. }
  rewrite E. Z.to_euclidean_division_equations; lia.
Qed.

(** An address that is not aligned is [k] bytes after one that is. *)
Lemma split_ofs q : q mod 8 ≠ 0 → ∃ x k, q = x + Z.of_nat k ∧ x mod 8 = 0 ∧ (0 < k < 8)%nat ∧ (x + Z.of_nat k) mod 8 = Z.of_nat k.
Proof. intros E. exists (q - q mod 8), (Z.to_nat (q mod 8)). Z.to_euclidean_division_equations; lia. Qed.

Lemma ones_dec : 2 ^ 64 - 1 = dec_le (replicate 8 255).
Proof. done. Qed.

Lemma ones_has_zero m x k y :
  bytes_ok m → (0 < k < 8)%nat → first_hit m (x + Z.of_nat k) y is0 →
  has_zero (MERGE (word_at m x) (Z.of_nat k * 8) (2 ^ 64 - 1) (64 - Z.of_nat k * 8)) = bool_decide (y < 8 - k)%nat.
Proof.
  intros Hm Hk Hy. rewrite ones_dec. apply (fill_has_zero m Hm); try done; [lia|by apply Forall_replicate|].
  do 8 (destruct k as [|k]; [done|]). lia.
Qed.

(** From an aligned first address on. *)
Lemma strcmp_words m q1 q2 e y fuel :
  bytes_ok m → q1 mod 8 = 0 → stops m q1 q2 e → first_hit m q2 y is0 → readable m q1 (Z.of_nat e + 1) →
  readable m q2 (Z.of_nat y + 1) → (e <= y)%nat → (e / 8 < fuel)%nat →
  (w1 ← load_word q1;
   if q2 mod 8 =? 0 then strcmp_aligned_loop fuel (q1 + 8) q2 w1
   else strcmp_unaligned_loop fuel (q1 + 8) (q2 - q2 mod 8) w1 (q2 mod 8)) m = Some (diff m q1 q2 e, m).
Proof.
  intros Hm Ha Hs Hz Hr1 Hr2 Hle Hfuel.
  rewrite (W_step _ _ _ _ _ (load_word_reach m q1 q1 Ha ltac:(lia) ltac:(apply Hr1; lia))).
  destruct (Z.eqb_spec (q2 mod 8) 0) as [E|E].
  - unfold strcmp_aligned_loop. rewrite (W_step _ _ _ _ _ (load_word_reach m q2 q2 E ltac:(lia) ltac:(apply Hr2; lia))).
    apply (aligned_cmp_ok m Hm); try done. intros x Hx. apply Hr2. lia.
  - unfold strcmp_unaligned_loop. destruct (split_ofs q2 E) as (x2 & n & -> & Hx2 & Hn & En). rewrite En.
    replace (x2 + Z.of_nat n - Z.of_nat n) with x2 by lia.
    rewrite (W_step _ _ _ _ _ (load_word_reach m x2 (x2 + Z.of_nat n) Hx2 ltac:(lia) ltac:(apply Hr2; lia))). cbv zeta.
    rewrite (ones_has_zero m x2 n y Hm) by (done || lia). rewrite ones_dec.
    assert (bytes (replicate 8 255)) as H255 by by apply Forall_replicate.
    case_bool_decide as Hy; cbn [negb].
    + apply (final_cmp_fill m Hm); try done; lia.
    + eapply (unaligned_cmp_ok m Hm); try done; lia.
Qed.

Lemma strcmp_stops m p1 p2 d z fuel :
  bytes_ok m → stops m p1 p2 d → first_hit m p2 z is0 → readable m p1 (Z.of_nat d + 1) → readable m p2 (Z.of_nat z + 1) →
  (d / 8 < fuel)%nat → strcmp fuel p1 p2 m = Some (diff m p1 p2 d, m).
Proof.
  intros Hm Hs Hz Hr1 Hr2 Hfuel. unfold strcmp. destruct (to_align p1) as [Hk Ha]. set (k := u64 (- p1) mod 8) in *. cbv zeta.
  pose proof (stops_nul m Hm _ _ _ _ Hs Hz) as Hdz.
  erewrite W_step by (apply (cmp_bytes_ok m (Z.to_nat k) p1 p2 d Hs); intros x Hx; [apply Hr1|apply Hr2]; lia).
  destruct (decide _) as [Hlt|Hge]; [done|]. cbn beta iota.
  pose proof (stops_drop _ _ _ _ (Z.to_nat k) Hs ltac:(lia)) as Hs'. pose proof (first_hit_drop _ _ _ (Z.to_nat k) _ Hz ltac:(lia)) as Hz'.
  assert (diff m p1 p2 d = diff m (p1 + Z.of_nat (Z.to_nat k)) (p2 + Z.of_nat (Z.to_nat k)) (d - Z.to_nat k)) as -> by by rewrite diff_drop by lia.
  assert ((d - Z.to_nat k) / 8 < fuel)%nat as Hf by (eapply Nat.le_lt_trans; [|exact Hfuel]; apply Nat.Div0.div_le_mono; lia).
  assert (readable m (p1 + Z.of_nat (Z.to_nat k)) (Z.of_nat (d - Z.to_nat k) + 1)) as Hr1' by (intros x Hx; apply Hr1; lia).
  assert (readable m (p2 + Z.of_nat (Z.to_nat k)) (Z.of_nat (z - Z.to_nat k) + 1)) as Hr2' by (intros x Hx; apply Hr2; lia).
  assert (d - Z.to_nat k <= z - Z.to_nat k)%nat as Hdz' by lia.
  replace (p1 + k) with (p1 + Z.of_nat (Z.to_nat k)) in Ha by lia.
  by eapply (strcmp_words m).
Qed.

Lemma strcmp_ok m a b s t fuel :
  bytes_ok m → string_at m a s → string_at m b t → (length s / 8 < fuel)%nat → strcmp fuel a b m = Some (str_cmp s t, m).
Proof.
  intros Hm Hs Ht Hfuel. destruct (string_stops m a b s t Hs Ht) as (d & Hd & H1 & H2 & <-).
  apply (strcmp_stops m a b d (length t)); [done|done|by apply string_first_hit| |apply (sa_map _ _ _ Ht)|].
  - intros x Hx. apply (sa_map _ _ _ Hs). lia.
  - eapply Nat.le_lt_trans; [|exact Hfuel]. by apply Nat.Div0.div_le_mono.
Qed.

(** ** [strncmp]

    Where the words are equal and hold no NUL, [final_cmp] of [strncmp.c] calls
    [__builtin_ctzl (0)]; the result does not depend on the value it yields, as long as it
    yields one. *)

(** The value after at most [n] bytes. *)
Definition ndiff (m : mem) (p1 p2 : Z) (d : nat) (n : Z) : Z := if n <=? Z.of_nat d then 0 else diff m p1 p2 d.

Lemma final_ncmp_ok bs cs d b c n m :
  bytes bs → length bs = 8%nat → bytes cs → length cs = 8%nat →
  agree d bs cs → bs !! d = Some b → cs !! d = Some c → ne b c = true →
  final_ncmp (dec_le bs) (dec_le cs) n m = Some (if n <=? Z.of_nat d then 0 else b - c, m).
Proof.
  intros Hb Hl Hc Hm Ha Hbd Hcd Hne. unfold final_ncmp. rewrite (W_step _ _ _ (Z.of_nat d) m) by by eapply index_first_ne.
  by rewrite (extractbyte_dec bs d b), (extractbyte_dec cs d c).
Qed.

(** Either the lists are equal without a NUL, or there is a first place to stop. *)
Lemma agree_or_stop bs cs :
  length bs = length cs →
  bs = cs ∧ existsb is0 bs = false ∨ ∃ e b c, agree e bs cs ∧ bs !! e = Some b ∧ cs !! e = Some c ∧ ne b c = true.
Proof.
  revert cs. induction bs as [|b bs IH]; intros [|c cs] Hl; try done; [by left|]. destruct (ne b c) eqn:E.
  - right. exists 0%nat, b, c. split_and!; try done. intros i ? ? Hi. lia.
  - apply ne_false in E as [-> Hc]. destruct (IH cs) as [[-> H0]|(e & b' & c' & Ha & Hb & Hc' & Hn)]; [cbn in Hl; lia| |].
    + left. split; [done|]. cbn. rewrite H0. unfold is0. by rewrite (proj2 (Z.eqb_neq _ _)).
    + right. exists (S e), b', c'. split_and!; try done. intros [|i] ? ? Hi Hx Hy; [|by apply (Ha i); [lia|..]].
      injection Hx as <-. injection Hy as <-. by apply ne_false.
Qed.

Lemma index_first_0 m v : ctz0 m = Some v → index_first 0 m = Some (v / 8, m).
Proof. intros E. unfold index_first, ctz, mbind, W_bind. rewrite Z.eqb_refl, E. done. Qed.

(** Nothing to tell the words apart before position [k >= n]. *)
Lemma final_ncmp_zero bs cs k n v m :
  bytes bs → length bs = 8%nat → bytes cs → length cs = 8%nat → ctz0 m = Some v →
  agree k bs cs → n <= Z.of_nat k → final_ncmp (dec_le bs) (dec_le cs) n m = Some (0, m).
Proof.
  intros Hb Hl Hc Hm Hv Ha Hn. destruct (agree_or_stop bs cs) as [[<- H0]|(e & b & c & He & Hbe & Hce & Hne)]; [lia| |].
  - unfold final_ncmp, index_first_zero_ne. rewrite find_zero_ne_all_dec by done.
    assert (dec_le (zip_with nemask bs bs) = 0) as ->.
    { apply existsb_false in H0. clear - H0. induction H0 as [|b bs Hb Hbs IH]; [done|]. cbn. rewrite IH.
      unfold nemask. unfold is0 in Hb. by rewrite Hb, Z.eqb_refl. }
    rewrite (W_step _ _ _ _ _ (index_first_0 m v Hv)). rewrite Z.sub_diag. by destruct (_ <=? _).
  - rewrite (final_ncmp_ok bs cs e b c) by done. destruct (Nat.lt_ge_cases e k) as [Hlt|Hge].
    + by rewrite (Ha e b c) in Hne.
    + by rewrite (proj2 (Z.leb_le _ _)) by lia.
Qed.

Section nwords.
Context (m : mem) (v : Z).
Hypothesis m_ok : bytes_ok m.
Hypothesis ctz_ok : ctz0 m = Some v.
Set Default Proof Using "All".

(** [cs] agrees with the memory at [p2] on its first [k] bytes. *)
Lemma final_ncmp_part p1 p2 d n cs k :
  stops m p1 p2 d → bytes cs → length cs = 8%nat → (k <= 8)%nat → (∀ i, (i < k)%nat → cs !! i = Some (byte m (p2 + Z.of_nat i))) →
  (d < k)%nat ∨ n <= Z.of_nat k → final_ncmp (word_at m p1) (dec_le cs) n m = Some (ndiff m p1 p2 d n, m).
Proof.
  intros [H1 H2] Hc Hl Hk Hcs Hor. destruct (word_bytes m m_ok p1) as (E & Hb & Hlb). rewrite E.
  assert (∀ e, (e <= d)%nat → (e <= k)%nat → agree e (bytes_at m p1 8) cs) as Ha.
  { intros e Hed Hek i b c Hi Hbi Hci. rewrite bytes_at_lookup in Hbi by lia. rewrite Hcs in Hci by lia.
    injection Hbi as <-. injection Hci as <-. apply H1. lia. }
  unfold ndiff. destruct (Nat.lt_ge_cases d k) as [Hd|Hd].
  - apply final_ncmp_ok; try done; [apply Ha; lia|apply bytes_at_lookup; lia|by apply Hcs].
  - destruct Hor as [?|Hn]; [lia|]. rewrite (proj2 (Z.leb_le _ _)) by lia.
    apply (final_ncmp_zero _ _ k n v); try done. apply Ha; lia.
Qed.

Lemma final_ncmp_words p1 p2 d n :
  stops m p1 p2 d → (d < 8)%nat ∨ n <= 8 → final_ncmp (word_at m p1) (word_at m p2) n m = Some (ndiff m p1 p2 d n, m).
Proof.
  intros Hs Hor. destruct (word_bytes m m_ok p2) as (E & Hb & Hl). rewrite E.
  apply (final_ncmp_part p1 p2 d n _ 8); try done. intros i Hi. by apply bytes_at_lookup.
Qed.

Lemma ndiff_drop p1 p2 d n k :
  (k <= d)%nat → ndiff m (p1 + Z.of_nat k) (p2 + Z.of_nat k) (d - k) (n - Z.of_nat k) = ndiff m p1 p2 d n.
Proof. intros Hk. unfold ndiff. rewrite diff_drop by done. destruct (Z.leb_spec n (Z.of_nat d)); [rewrite (proj2 (Z.leb_le _ _))|rewrite (proj2 (Z.leb_gt _ _))]; lia. Qed.

Lemma aligned_ncmp_ok fuel a1 a2 d n :
  a1 mod 8 = 0 → a2 mod 8 = 0 → stops m a1 a2 d → readable m a1 (Z.of_nat d + 1) → readable m a2 (Z.of_nat d + 1) → (d / 8 < fuel)%nat →
  aligned_ncmp fuel (a1 + 8) (a2 + 8) (word_at m a1) (word_at m a2) n m = Some (ndiff m a1 a2 d n, m).
Proof.
  revert a1 a2 d n. induction fuel as [|fuel IH]; intros a1 a2 d n Ha1 Ha2 Hs Hr1 Hr2 Hfuel; [lia|]. cbn [aligned_ncmp].
  pose proof (stops_words m m_ok _ _ _ Hs) as Hw. destruct (word_at m a1 =? word_at m a2).
  2:{ apply final_ncmp_words; [done|]. left. apply Hw. }
  destruct (Z.leb_spec n 8). { apply final_ncmp_words; [done|by right]. }
  destruct (has_zero _).
  { destruct Hw as [Hd Hw]. unfold ndiff. by rewrite (proj2 (Z.leb_gt _ _)), Hw by lia. }
  rewrite (W_step _ _ _ _ _ (load_word_reach m (a1 + 8) (a1 + 8) ltac:(Z.to_euclidean_division_equations; lia) ltac:(lia) ltac:(apply Hr1; lia))).
  rewrite (W_step _ _ _ _ _ (load_word_reach m (a2 + 8) (a2 + 8) ltac:(Z.to_euclidean_division_equations; lia) ltac:(lia) ltac:(apply Hr2; lia))).
  rewrite (IH (a1 + 8) (a2 + 8) (d - 8)%nat).
  - by rewrite <- (ndiff_drop a1 a2 d n 8).
  - Z.to_euclidean_division_equations; lia.
  - Z.to_euclidean_division_equations; lia.
  - by apply (stops_drop m a1 a2 d 8).
  - intros x Hx. apply Hr1. lia.
  - intros x Hx. apply Hr2. lia.
  - replace d with (d - 8 + 1 * 8)%nat in Hfuel by lia. rewrite Nat.div_add in Hfuel by lia. lia.
Qed.

Lemma final_ncmp_fill p1 x k d cs n :
  (k < 8)%nat → bytes cs → length cs = 8%nat → stops m p1 (x + Z.of_nat k) d → (d < 8 - k)%nat ∨ n <= 8 - Z.of_nat k →
  final_ncmp (word_at m p1) (MERGE (word_at m x) (Z.of_nat k * 8) (dec_le cs) (64 - Z.of_nat k * 8)) n m =
  Some (ndiff m p1 (x + Z.of_nat k) d n, m).
Proof.
  intros Hn Hc Hl Hs Hd. rewrite (MERGE_fill m m_ok) by done. apply (final_ncmp_part _ _ _ _ _ (8 - k)); [done| | |lia| |lia].
  - apply Forall_app. split; [by apply bytes_at_range|by apply Forall_take].
  - rewrite length_app, length_bytes_at, length_take_le by lia. lia.
  - intros i Hi. rewrite lookup_app_l by (rewrite length_bytes_at; lia). apply bytes_at_lookup. lia.
Qed.

Lemma unaligned_ncmp_ok fuel a1 x2 k d z n :
  a1 mod 8 = 0 → x2 mod 8 = 0 → (k < 8)%nat → stops m a1 (x2 + Z.of_nat k) d → first_hit m (x2 + Z.of_nat k) z is0 → (8 - k <= z)%nat →
  readable m a1 (Z.of_nat d + 1) → readable m (x2 + Z.of_nat k) (Z.of_nat z + 1) → (d / 8 < fuel)%nat →
  unaligned_ncmp fuel (a1 + 8) (x2 + 8) (word_at m a1) (word_at m x2) (Z.of_nat k * 8) (64 - Z.of_nat k * 8) (Z.of_nat k) n m =
  Some (ndiff m a1 (x2 + Z.of_nat k) d n, m).
Proof.
  revert a1 x2 d z n. induction fuel as [|fuel IH]; intros a1 x2 d z n Ha1 Ha2 Hk Hs Hz Hz8 Hr1 Hr2 Hfuel; [lia|]. cbn [unaligned_ncmp].
  assert ((a1 + 8) mod 8 = 0 ∧ (x2 + 8) mod 8 = 0) as [Ha1' Ha2'] by (Z.to_euclidean_division_equations; lia).
  rewrite (W_step _ _ _ _ _ (load_word_reach m (x2 + 8) (x2 + 8) Ha2' ltac:(lia) ltac:(apply Hr2; lia))). cbv zeta.
  rewrite (MERGE_words m m_ok) by done. pose proof (stops_words m m_ok _ _ _ Hs) as Hw.
  destruct (Z.leb_spec n 8) as [Hn|Hn]; cbn [orb]. { apply final_ncmp_words; [done..|by right]. }
  destruct (_ =? _); cbn [negb]. 2:{ apply final_ncmp_words; [done..|]. left. apply Hw. }
  assert (first_hit m (x2 + 8) (z - (8 - k)) is0) as Hzb.
  { replace (x2 + 8) with (x2 + Z.of_nat k + Z.of_nat (8 - k)) by lia. by apply first_hit_drop. }
  rewrite (word_has_zero m m_ok _ _ Hzb). pose proof (stops_nul m m_ok _ _ _ _ Hs Hz) as Hdz.
  destruct (has_zero (word_at m a1)) eqn:Hz1.
  { destruct Hw as [Hd Hw]. assert (ndiff m a1 (x2 + Z.of_nat k) d n = 0) as -> by (unfold ndiff; by rewrite (proj2 (Z.leb_gt _ _)), Hw by lia).
    destruct (bool_decide _ || _) eqn:Hb; [done|]. exfalso. apply orb_false_iff in Hb as [Hb _]. apply bool_decide_eq_false in Hb.
    destruct Hs as [_ Hs]. unfold diff in Hw. unfold ne in Hs. destruct Hz as [Hz _]. specialize (Hz d ltac:(lia)). unfold is0 in Hz. lia. }
  pose proof (stops_drop _ _ _ _ 8 Hs Hw) as Hs'. pose proof (first_hit_drop _ _ _ 8 _ Hz ltac:(lia)) as Hz'.
  assert (ndiff m (a1 + 8) (x2 + 8 + Z.of_nat k) (d - 8) (n - 8) = ndiff m a1 (x2 + Z.of_nat k) d n) as <-.
  { rewrite <- (ndiff_drop a1 (x2 + Z.of_nat k) d n 8) by done. f_equal. lia. }
  replace (x2 + Z.of_nat k + Z.of_nat 8) with (x2 + 8 + Z.of_nat k) in Hs', Hz' by lia.
  assert (load_word (a1 + 8) m = Some (word_at m (a1 + 8), m)) as Hload by (apply (load_word_reach m _ (a1 + 8)); [done|lia|apply Hr1; lia]).
  case_bool_decide as Hzc; cbn [orb]; [|destruct (Z.leb_spec (n - 8) (8 - Z.of_nat k)) as [Hnk|Hnk]].
  - rewrite (W_step _ _ _ _ _ Hload). change 0 with (dec_le (replicate 8 0)) at 1.
    apply final_ncmp_fill; try done; [by apply Forall_replicate|]. left. lia.
  - rewrite (W_step _ _ _ _ _ Hload). change 0 with (dec_le (replicate 8 0)) at 1.
    apply final_ncmp_fill; try done; [by apply Forall_replicate|]. right. lia.
  - rewrite (W_step _ _ _ _ _ Hload). apply (IH (a1 + 8) (x2 + 8) (d - 8)%nat (z - 8)%nat); try done.
    + lia.
    + intros x Hx. apply Hr1. lia.
    + intros x Hx. apply Hr2. lia.
    + replace d with (d - 8 + 1 * 8)%nat in Hfuel by lia. rewrite Nat.div_add in Hfuel by lia. lia.
Qed.

(** From an aligned first address on. *)
Lemma strncmp_words q1 q2 e y n fuel :
  q1 mod 8 = 0 → stops m q1 q2 e → first_hit m q2 y is0 → readable m q1 (Z.of_nat e + 1) →
  readable m q2 (Z.of_nat y + 1) → (e <= y)%nat → (e / 8 < fuel)%nat →
  (w1 ← load_word q1;
   if q2 mod 8 =? 0 then strncmp_aligned_loop fuel (q1 + 8) q2 w1 n
   else strncmp_unaligned_loop fuel (q1 + 8) (q2 - q2 mod 8) w1 (q2 mod 8) n) m = Some (ndiff m q1 q2 e n, m).
Proof.
  intros Ha Hs Hz Hr1 Hr2 Hle Hfuel.
  rewrite (W_step _ _ _ _ _ (load_word_reach m q1 q1 Ha ltac:(lia) ltac:(apply Hr1; lia))).
  destruct (Z.eqb_spec (q2 mod 8) 0) as [E|E].
  - unfold strncmp_aligned_loop. rewrite (W_step _ _ _ _ _ (load_word_reach m q2 q2 E ltac:(lia) ltac:(apply Hr2; lia))).
    apply aligned_ncmp_ok; try done. intros x Hx. apply Hr2. lia.
  - unfold strncmp_unaligned_loop. destruct (split_ofs q2 E) as (x2 & k & -> & Hx2 & Hk & Ek). rewrite Ek.
    replace (x2 + Z.of_nat k - Z.of_nat k) with x2 by lia.
    rewrite (W_step _ _ _ _ _ (load_word_reach m x2 (x2 + Z.of_nat k) Hx2 ltac:(lia) ltac:(apply Hr2; lia))). cbv zeta.
    rewrite (ones_has_zero m x2 k y m_ok) by (done || lia). rewrite ones_dec.
    case_bool_decide as Hy; cbn [negb andb]; [|destruct (Z.ltb_spec (8 - Z.of_nat k) n)].
    + apply final_ncmp_fill; try done; [lia|by apply Forall_replicate|left; lia].
    + apply (unaligned_ncmp_ok fuel q1 x2 k e y n); try done; lia.
    + apply final_ncmp_fill; try done; [lia|by apply Forall_replicate|right; lia].
Qed.
End nwords.

Lemma string_ndiff m a b s t d n :
  string_at m a s → string_at m b t → stops m a b d → ndiff m a b d (Z.of_nat n) = str_ncmp n s t.
Proof.
  revert a b s t d. induction n as [|n IH]; intros a b s t d Hs Ht [H1 H2].
  { unfold ndiff. by rewrite (proj2 (Z.leb_le _ _)) by lia. }
  destruct (string_at_head _ _ _ Hs) as [E _]. destruct (string_at_head _ _ _ Ht) as [E' _].
  destruct d as [|d].
  - unfold ndiff, diff. rewrite (proj2 (Z.leb_gt _ _)), !Z.add_0_r in * by lia. rewrite E, E' in H2 |- *.
    destruct s as [|c s], t as [|e t]; cbn in H2 |- *; try lia. destruct (Z.eqb_spec c e) as [->|]; [|done].
    pose proof (sa_chars _ _ _ Hs) as [Hc _]%Forall_cons. unfold ne in H2. rewrite Z.eqb_refl in H2. cbn in H2. lia.
  - specialize (H1 0%nat ltac:(lia)) as H0. rewrite !Z.add_0_r, E, E' in H0. apply ne_false in H0 as [H0 Hne].
    destruct s as [|c s]; [done|]. cbn in H0, Hne. destruct t as [|e t]; [by cbn in H0|]. cbn in H0. subst e.
    cbn [str_ncmp]. rewrite Z.eqb_refl.
    rewrite <- (IH (a + 1) (b + 1) s t d); [|by eapply string_at_tail..|].
    + unfold ndiff. destruct (Z.leb_spec (Z.of_nat n) (Z.of_nat d)); [by rewrite (proj2 (Z.leb_le _ _)) by lia|].
      rewrite (proj2 (Z.leb_gt _ _)) by lia. unfold diff. do 2 f_equal; lia.
    + pose proof (stops_drop m a b (S d) 1 (conj H1 H2) ltac:(lia)) as Hd'. cbn [Nat.sub] in Hd'. by rewrite Nat.sub_0_r in Hd'.
Qed.

Lemma strncmp_ok m v a b s t n fuel :
  bytes_ok m → ctz0 m = Some v → string_at m a s → string_at m b t → (length s / 8 < fuel)%nat →
  strncmp fuel a b (Z.of_nat n) m = Some (str_ncmp n s t, m).
Proof.
  intros Hm Hv Hs Ht Hfuel. destruct (string_stops m a b s t Hs Ht) as (d & Hd & H1 & H2 & _).
  rewrite <- (string_ndiff m a b s t d n Hs Ht Hd). pose proof (string_first_hit _ _ _ Ht) as Hz.
  unfold strncmp. destruct (to_align a) as [Hk Ha]. set (k0 := u64 (- a) mod 8) in *. cbv zeta.
  pose proof (sa_map _ _ _ Hs) as Hr1. pose proof (sa_map _ _ _ Ht) as Hr2.
  set (k := Z.to_nat (Z.min k0 (Z.of_nat n))).
  erewrite W_step by (apply (cmp_bytes_ok m k a b d Hd); intros x Hx; [apply Hr1|apply Hr2]; lia).
  destruct (decide _) as [Hlt|Hge].
  { unfold ndiff. by rewrite (proj2 (Z.leb_gt _ _)) by lia. }
  destruct (Z.eqb_spec (Z.min k0 (Z.of_nat n)) (Z.of_nat n)) as [E|E].
  { unfold ndiff. by rewrite (proj2 (Z.leb_le _ _)) by lia. }
  assert (Z.of_nat k = k0 ∧ Z.min k0 (Z.of_nat n) = k0) as [Ek ->] by lia.
  rewrite <- (ndiff_drop m v Hm Hv a b d (Z.of_nat n) k), Ek by lia.
  apply (strncmp_words m v Hm Hv _ _ (d - k) (length t - k)); [done| | | | |lia|].
  - rewrite <- Ek. apply stops_drop; [done|lia].
  - rewrite <- Ek. apply first_hit_drop; [done|lia].
  - intros x Hx. apply Hr1. lia.
  - intros x Hx. apply Hr2. lia.
  - eapply Nat.le_lt_trans; [|exact Hfuel]. apply Nat.Div0.div_le_mono. lia.
Qed.
