(* ===== verification/StrCpySpec.v ===== *)
(** * StrCpySpec: [stpcpy], [strcpy] and [strcat] write the string and its NUL, nothing else *)

From S2P Require Import Prelude Mem Logic CStr Flat Fza FzaSpec WordStr WordStrSpec StrCmpSpec.
Local Open Scope Z_scope.

(** ** Memories that differ in one area *)

(** [m'] is [m] with [bs] written at [a]. *)
Record wrote (m m' : mem) (a : Z) (bs : list Z) : Prop := Wrote {
  wr_in : ∀ i c, bs !! i = Some c → byte m' (a + Z.of_nat i) = c;
  wr_out : ∀ x, ¬ (a <= x < a + len bs) → byte m' x = byte m x;
  wr_mapped : mapped m' = mapped m;
  wr_ctz0 : ctz0 m' = ctz0 m }.

Lemma wrote_nil m a : wrote m m a [].
Proof. by split. Qed.

Lemma wrote_app m m1 m2 a bs cs : wrote m m1 a bs → wrote m1 m2 (a + len bs) cs → wrote m m2 a (bs ++ cs).
Proof.
  intros [I1 O1 M1 C1] [I2 O2 M2 C2]. split; [| |congruence..].
  - intros i c [Hi|[Hl Hi]]%lookup_app_Some.
    + rewrite O2; [by apply I1|]. apply lookup_lt_Some in Hi. lia.
    + rewrite <- (I2 _ _ Hi). f_equal. lia.
  - intros x Hx. rewrite length_app in Hx. rewrite O2, O1 by lia. done.
Qed.

Lemma wrote_ok m m' a bs : bytes_ok m → bytes bs → wrote m m' a bs → bytes_ok m'.
Proof.
  intros Hm Hb [I O _ _] x. destruct (decide (a <= x < a + len bs)) as [Hx|Hx]; [|by rewrite O].
  destruct (bs !! Z.to_nat (x - a)) as [c|] eqn:E; [|apply lookup_ge_None in E; lia].
  pose proof (I _ _ E) as Hc. replace (a + Z.of_nat (Z.to_nat (x - a))) with x in Hc by lia. rewrite Hc.
  exact (Forall_lookup_1 _ _ _ _ Hb E).
Qed.

Lemma wrote_readable m m' a bs b n : wrote m m' a bs → readable m b n → readable m' b n.
Proof. intros H Hr x Hx. rewrite (wr_mapped _ _ _ _ H). by apply Hr. Qed.

(** Two areas that do not meet. *)
Definition apart (a n b k : Z) : Prop := a + n <= b ∨ b + k <= a.

Lemma wrote_string m m' a bs b s : wrote m m' a bs → apart a (len bs) b (len s + 1) → string_at m b s → string_at m' b s.
Proof.
  intros H Ha [H1 H2 H3 H4]. split; [|done| |by eapply wrote_readable].
  - intros i c Hi. rewrite (wr_out _ _ _ _ H); [by apply H1|]. apply lookup_lt_Some in Hi. unfold apart in Ha. lia.
  - rewrite (wr_out _ _ _ _ H); [done|]. unfold apart in Ha. lia.
Qed.

Lemma put_byte_wrote m a c : 0 <= c < 256 → wrote m (put_byte m a c) a [c].
Proof.
  intros Hc. split; [| |done..].
  - intros [|i] d Hd; [|done]. injection Hd as <-. cbn. rewrite Z.add_0_r, Z.eqb_refl. by apply wrapu_small.
  - intros x Hx. cbn in Hx |- *. by rewrite (proj2 (Z.eqb_neq _ _)) by lia.
Qed.

Lemma byte_of_dec bs i b : bytes bs → bs !! i = Some b → byte_of (dec_le bs) (Z.of_nat i) = b.
Proof.
  intros Hb Hi. etrans; [|exact (extractbyte_dec bs i b Hb Hi)]. unfold byte_of, extractbyte, wrapu.
  rewrite Z.shiftr_div_pow2 by lia. by rewrite (Z.mul_comm 8).
Qed.

Lemma put_word_wrote m a bs : bytes bs → length bs = 8%nat → wrote m (put_word m a (dec_le bs)) a bs.
Proof.
  intros Hb Hl. split; [| |done..].
  - intros i c Hi. pose proof (lookup_lt_Some _ _ _ Hi). cbn. rewrite (proj2 (Z.leb_le _ _)), (proj2 (Z.ltb_lt _ _)) by lia. cbn.
    replace (a + Z.of_nat i - a) with (Z.of_nat i) by lia. by apply byte_of_dec.
  - intros x Hx. cbn. destruct (Z.leb_spec a x), (Z.ltb_spec x (a + 8)); cbn; try done. lia.
Qed.

(** ** The last word *)

(** The bytes of the word from [i] on begin with the string and its NUL. *)
Lemma write_bytes_ok m bs s n d i :
  bytes bs → Forall (λ c, 0 < c < 256) s → (length s < n)%nat →
  (∀ j c, (s ++ [0]) !! j = Some c → bs !! (i + j)%nat = Some c) → readable m d (len s + 1) →
  ∃ m', write_bytes n d (Z.of_nat i) (dec_le bs) m = Some (d + len s, m') ∧ wrote m m' d (s ++ [0]).
Proof.
  intros Hb Hs. revert m n d i.
  induction Hs as [|c s Hc Hs IH]; intros m n d i Hn Hbs Hr; (destruct n as [|n]; [cbn in Hn; lia|]); cbn [write_bytes];
    pose proof (Hbs 0%nat _ eq_refl) as H0; rewrite Nat.add_0_r in H0; rewrite (extractbyte_dec bs i _ Hb H0); cbv zeta;
    rewrite (W_step _ _ _ _ _ (store_byte_ok m d _ ltac:(apply Hr; lia))).
  - eexists. split; [cbn; by rewrite Z.add_0_r|]. by apply put_byte_wrote.
  - rewrite (proj2 (Z.eqb_neq c 0)) by lia. pose proof (put_byte_wrote m d c ltac:(lia)) as Hw.
    replace (Z.of_nat i + 1) with (Z.of_nat (S i)) by lia.
    destruct (IH (put_byte m d c) n (d + 1) (S i)) as (m' & E & Hw').
    + cbn in Hn. lia.
    + intros j e Hj. replace (S i + j)%nat with (i + S j)%nat by lia. by apply Hbs.
    + intros x Hx. apply Hr. cbn. lia.
    + exists m'. rewrite E. split; [do 2 f_equal; cbn; lia|]. exact (wrote_app _ _ _ _ [c] _ Hw Hw').
Qed.

(** ** The loops *)

(** The word begins with the string: the string ends in it, or it is all in the string. *)
Record covers (ws s : list Z) : Prop := Covers {
  cv_bytes : bytes ws;
  cv_length : length ws = 8%nat;
  cv_chars : ∀ j c, (s ++ [0]) !! j = Some c → (j < 8)%nat → ws !! j = Some c }.

Lemma string_word m a s : bytes_ok m → string_at m a s → covers (bytes_at m a 8) s.
Proof.
  intros Hm Hs. split; [by apply bytes_at_range|apply length_bytes_at|].
  intros j c Hj Hj8. rewrite bytes_at_lookup by done. f_equal. rewrite (string_byte m a s j Hs).
  - apply lookup_app_Some in Hj as [->|[Hl Hj]]; [done|]. rewrite lookup_ge_None_2 by done.
    by apply list_lookup_singleton_Some in Hj as [_ <-].
  - apply lookup_lt_Some in Hj. rewrite length_app in Hj. cbn in Hj. lia.
Qed.

Lemma covers_full ws s : covers ws s → (8 <= length s)%nat → ws = take 8 s.
Proof.
  intros [Hb Hw Hc] Hl. apply list_eq_same_length with 8%nat; [by rewrite length_take_le|done|].
  intros i x y Hi Hx Hy. rewrite lookup_take_lt in Hy by done. rewrite (Hc i y) in Hx; [by injection Hx| |done].
  by rewrite lookup_app_l by lia.
Qed.

Lemma covers_has_zero ws s :
  Forall (λ c, 0 < c < 256) s → covers ws s → has_zero (dec_le ws) = bool_decide (length s < 8)%nat.
Proof.
  intros Hs Hc. rewrite has_zero_dec by apply Hc. case_bool_decide as Hl.
  - apply existsb_exists. exists 0. split; [|done]. apply list_elem_of_In. eapply (list_elem_of_lookup_2 _ (length s)).
    apply (cv_chars _ _ Hc); [|done]. by rewrite list_lookup_middle.
  - rewrite (covers_full ws s Hc) by lia. apply not_true_iff_false. rewrite existsb_exists.
    intros (x & Hx%list_elem_of_In & H0). apply (Forall_take _ 8) in Hs. rewrite Forall_forall in Hs.
    specialize (Hs x Hx). unfold is0 in H0. cbn in Hs. lia.
Qed.

Lemma write_word_ok m ws s d :
  Forall (λ c, 0 < c < 256) s → covers ws s → (length s < 8)%nat → readable m d (len s + 1) →
  ∃ m', write_byte_from_word d (dec_le ws) m = Some (d + len s, m') ∧ wrote m m' d (s ++ [0]).
Proof.
  intros Hs Hc Hl Hr. apply (write_bytes_ok m ws s 8 d 0); [apply Hc|done..| |done].
  intros j c Hj. apply (cv_chars _ _ Hc); [done|]. apply lookup_lt_Some in Hj. rewrite length_app in Hj. cbn in Hj. lia.
Qed.

Lemma split_word (s : list Z) : (8 <= length s)%nat → s ++ [0] = take 8 s ++ (drop 8 s ++ [0]).
Proof. intros. by rewrite (assoc_L (++)), take_drop. Qed.

Lemma string_word_ok m a s : string_at m a s → bytes (take 8 s).
Proof. intros Hs. apply Forall_take. eapply Forall_impl; [apply (sa_chars _ _ _ Hs)|]. cbn. lia. Qed.

(** What a copying loop does with a string of which the first word has been written. *)
Lemma copied_word m m1 d a s k :
  (8 <= length s)%nat → string_at m a s → apart d (len s + 1) a (len s + 1) → readable m d (len s + 1) → bytes_ok m →
  (length s / 8 < S k)%nat → m1 = put_word m d (dec_le (take 8 s)) →
  wrote m m1 d (take 8 s) ∧ string_at m1 (a + 8) (drop 8 s) ∧ readable m1 (d + 8) (len (drop 8 s) + 1) ∧ bytes_ok m1 ∧
  apart (d + 8) (len (drop 8 s) + 1) (a + 8) (len (drop 8 s) + 1) ∧ (length (drop 8 s) / 8 < k)%nat ∧ len (drop 8 s) = len s - 8.
Proof.
  intros Hl Hs Ha Hr Hm Hk ->. pose proof (put_word_wrote m d (take 8 s) (string_word_ok _ _ _ Hs) ltac:(by rewrite length_take_le)) as Hw.
  pose proof (length_take_le s 8 Hl) as Ht. rewrite length_drop. unfold apart in *. split_and!; [done| | | |lia| |lia].
  - eapply wrote_string; [exact Hw|unfold apart; rewrite Ht, length_drop; lia|]. by apply (string_at_drop m a s 8).
  - eapply wrote_readable; [exact Hw|]. intros x Hx. apply Hr. lia.
  - eapply wrote_ok; [exact Hm|by eapply string_word_ok|exact Hw].
  - replace (length s) with (length s - 8 + 1 * 8)%nat in Hk by lia. rewrite Nat.div_add in Hk by lia. lia.
Qed.

Lemma copied_rest m m1 m2 d s :
  (8 <= length s)%nat → wrote m m1 d (take 8 s) → wrote m1 m2 (d + 8) (drop 8 s ++ [0]) → wrote m m2 d (s ++ [0]).
Proof.
  intros Hl H1 H2. rewrite split_word by done. eapply wrote_app; [exact H1|]. by rewrite length_take_le.
Qed.

Lemma stpcpy_aligned_ok fuel m d a s :
  d mod 8 = 0 → a mod 8 = 0 → bytes_ok m → string_at m a s → apart d (len s + 1) a (len s + 1) → readable m d (len s + 1) →
  (length s / 8 < fuel)%nat → ∃ m', stpcpy_aligned_loop fuel d a m = Some (d + len s, m') ∧ wrote m m' d (s ++ [0]).
Proof.
  revert m d a s. induction fuel as [|fuel IH]; intros m d a s Hd Ha Hm Hs Hap Hr Hfuel; [lia|]. cbn [stpcpy_aligned_loop].
  rewrite (W_step _ _ _ _ _ (load_word_reach m a a Ha ltac:(lia) ltac:(apply (sa_map _ _ _ Hs); lia))).
  pose proof (string_word m a s Hm Hs) as Hc. unfold word_at. rewrite (covers_has_zero _ s) by (done || apply Hs).
  case_bool_decide as Hl; [by apply write_word_ok; [apply Hs|..]|].
  rewrite (W_step _ _ _ _ _ (store_word_ok m d _ Hd ltac:(apply Hr; lia))), (covers_full _ _ Hc) by lia.
  destruct (copied_word m _ d a s fuel ltac:(lia) Hs Hap Hr Hm Hfuel eq_refl) as (Hw & Hs' & Hr' & Hm' & Hap' & Hf' & El).
  destruct (IH (put_word m d (dec_le (take 8 s))) (d + 8) (a + 8) (drop 8 s)) as (m' & E & Hw');
    [Z.to_euclidean_division_equations; lia..|done|done|done|done|done|].
  exists m'. rewrite E, El. split; [do 2 f_equal; lia|]. eapply copied_rest; [lia|exact Hw|exact Hw'].
Qed.

(** Two words in a row, of which the first begins [n] bytes before the string. *)
Lemma covers_merge bs cs s n :
  bytes bs → length bs = 8%nat → (n < 8)%nat → drop n bs = take (8 - n) s → (8 - n <= length s)%nat → covers cs (drop (8 - n) s) →
  covers (drop n bs ++ take n cs) s.
Proof.
  intros Hb Hl Hn Hbs Hs [H1 H2 H3]. split.
  - apply Forall_app. split; [by apply Forall_drop|by apply Forall_take].
  - rewrite length_app, length_drop, length_take_le by lia. lia.
  - intros j c Hj Hj8. destruct (decide (j < 8 - n)%nat) as [Hlt|Hge].
    + rewrite lookup_app_l by (rewrite length_drop; lia). rewrite Hbs, lookup_take_lt by done.
      by rewrite lookup_app_l in Hj by lia.
    + rewrite lookup_app_r, length_drop, Hl, lookup_take_lt by (rewrite ?length_drop; lia). apply H3; [|lia].
      rewrite <- (take_drop (8 - n) s), <- (assoc_L (++)), lookup_app_r in Hj by (rewrite length_take_le; lia).
      by rewrite length_take_le in Hj by lia.
Qed.

(** The rest of a word, filled up with anything, when the string ends in it. *)
Lemma covers_rest bs fill s n :
  bytes bs → length bs = 8%nat → bytes fill → length fill = 8%nat → (n < 8)%nat → (length s < 8 - n)%nat →
  (∀ j c, (s ++ [0]) !! j = Some c → bs !! (n + j)%nat = Some c) → covers (drop n bs ++ take n fill) s.
Proof.
  intros Hb Hl Hf Hfl Hn Hs Hc. split.
  - apply Forall_app. split; [by apply Forall_drop|by apply Forall_take].
  - rewrite length_app, length_drop, length_take_le by lia. lia.
  - intros j c Hj _. assert (j < 8 - n)%nat by (apply lookup_lt_Some in Hj; rewrite length_app in Hj; cbn in Hj; lia).
    rewrite lookup_app_l, lookup_drop by (rewrite length_drop; lia). by apply Hc.
Qed.

Lemma unaligned_cpy_ok fuel m d x2 n bs s :
  d mod 8 = 0 → x2 mod 8 = 0 → (n < 8)%nat → bytes_ok m → string_at m (x2 + Z.of_nat n) s →
  apart d (len s + 1) (x2 + Z.of_nat n) (len s + 1) → readable m d (len s + 1) → bytes bs → length bs = 8%nat →
  drop n bs = take (8 - n) s → (8 - n <= length s)%nat → (length s / 8 < fuel)%nat →
  ∃ m', unaligned_cpy fuel d (x2 + 8) (dec_le bs) (Z.of_nat n * 8) (64 - Z.of_nat n * 8) m = Some (d + len s, m') ∧ wrote m m' d (s ++ [0]).
Proof.
  revert m d x2 bs s. induction fuel as [|fuel IH]; intros m d x2 bs s Hd Hx2 Hn Hm Hs Hap Hr Hb Hl Hbs Hns Hfuel; [lia|].
  cbn [unaligned_cpy]. assert (string_at m (x2 + 8) (drop (8 - n) s)) as Hs2.
  { replace (x2 + 8) with (x2 + Z.of_nat n + Z.of_nat (8 - n)) by lia. by apply string_at_drop. }
  assert ((x2 + 8) mod 8 = 0) as Hx2' by (Z.to_euclidean_division_equations; lia).
  rewrite (W_step _ _ _ _ _ (load_word_reach m (x2 + 8) (x2 + 8) Hx2' ltac:(lia) ltac:(apply (sa_map _ _ _ Hs2); lia))). cbv zeta.
  pose proof (string_word _ _ _ Hm Hs2) as Hc. unfold word_at. set (cs := bytes_at m (x2 + 8) 8) in *.
  rewrite (Z.mul_comm _ 8), MERGE_dec by (done || apply Hc). pose proof (covers_merge bs cs s n Hb Hl Hn Hbs Hns Hc) as Hws.
  rewrite (covers_has_zero _ s) by (done || apply Hs). case_bool_decide as Hlen; [by apply write_word_ok; [apply Hs|..]|].
  rewrite (W_step _ _ _ _ _ (store_word_ok m d _ Hd ltac:(apply Hr; lia))), (covers_full _ _ Hws) by lia.
  destruct (copied_word m _ d _ s fuel ltac:(lia) Hs Hap Hr Hm Hfuel eq_refl) as (Hw & Hs' & Hr' & Hm' & Hap' & Hf' & El).
  rewrite (covers_has_zero _ (drop (8 - n) s)) by (done || apply Hs2). rewrite length_drop. case_bool_decide as Hlen2.
  - change 0 with (dec_le (replicate 8 0)) at 1. rewrite MERGE_dec by (done || apply Hc || by apply Forall_replicate).
    destruct (write_word_ok (put_word m d (dec_le (take 8 s))) (drop n cs ++ take n (replicate 8 0)) (drop 8 s) (d + 8)) as (m' & E & Hw').
    + apply Hs'.
    + apply covers_rest; [apply Hc|apply Hc|by apply Forall_replicate|done|done|rewrite length_drop; lia|].
      intros j c Hj. apply (cv_chars _ _ Hc).
      * rewrite <- Hj. replace (drop (8 - n) s ++ [0]) with (drop (8 - n) (s ++ [0])) by by rewrite drop_app_le by lia.
        replace (drop 8 s ++ [0]) with (drop 8 (s ++ [0])) by by rewrite drop_app_le by lia. rewrite !lookup_drop. f_equal. lia.
      * apply lookup_lt_Some in Hj. rewrite length_app, length_drop in Hj. cbn in Hj. lia.
    + rewrite length_drop. lia.
    + done.
    + exists m'. rewrite E, El. split; [do 2 f_equal; lia|]. eapply copied_rest; [lia|exact Hw|exact Hw'].
  - replace (8 * Z.of_nat n) with (Z.of_nat n * 8) by lia.
    replace (x2 + Z.of_nat n + 8) with (x2 + 8 + Z.of_nat n) in Hs', Hap' by lia.
    destruct (IH (put_word m d (dec_le (take 8 s))) (d + 8) (x2 + 8) cs (drop 8 s)) as (m' & E & Hw'); try done.
    + Z.to_euclidean_division_equations; lia.
    + apply Hc.
    + rewrite (covers_full _ _ Hc) by (rewrite length_drop; lia). 
      replace (take 8 (drop (8 - n) s)) with (take (n + (8 - n)) (drop (8 - n) s)) by (f_equal; lia).
      rewrite <- take_drop_commute, drop_drop. do 2 f_equal; lia.
    + rewrite length_drop. lia.
    + exists m'. rewrite E, El. split; [do 2 f_equal; lia|]. eapply copied_rest; [lia|exact Hw|exact Hw'].
Qed.

Lemma stpcpy_unaligned_ok fuel m d x2 n s :
  d mod 8 = 0 → x2 mod 8 = 0 → (0 < n < 8)%nat → bytes_ok m → string_at m (x2 + Z.of_nat n) s →
  apart d (len s + 1) (x2 + Z.of_nat n) (len s + 1) → readable m d (len s + 1) → (length s / 8 < fuel)%nat →
  ∃ m', stpcpy_unaligned_loop fuel d x2 (Z.of_nat n) m = Some (d + len s, m') ∧ wrote m m' d (s ++ [0]).
Proof.
  intros Hd Hx2 Hn Hm Hs Hap Hr Hfuel. unfold stpcpy_unaligned_loop.
  rewrite (W_step _ _ _ _ _ (load_word_reach m x2 (x2 + Z.of_nat n) Hx2 ltac:(lia) ltac:(apply (sa_map _ _ _ Hs); lia))). cbv zeta.
  rewrite (ones_has_zero m x2 n (length s) Hm Hn (string_first_hit _ _ _ Hs)).
  destruct (word_bytes m Hm x2) as (E & Hb & Hl). rewrite E.
  assert (drop n (bytes_at m x2 8) = bytes_at m (x2 + Z.of_nat n) (8 - n)) as Edrop.
  { replace 8%nat with (n + (8 - n))%nat at 1 by lia. by rewrite bytes_at_app, drop_app_length' by by rewrite length_bytes_at. }
  pose proof (string_word _ _ _ Hm Hs) as Hc.
  assert (bytes_at m (x2 + Z.of_nat n) (8 - n) = take (8 - n) (bytes_at m (x2 + Z.of_nat n) 8)) as Etake.
  { replace 8%nat with (8 - n + n)%nat at 3 by lia. by rewrite bytes_at_app, take_app_length' by by rewrite length_bytes_at. }
  case_bool_decide as Hle; cbn [negb].
  - rewrite ones_dec, (Z.mul_comm _ 8), MERGE_dec by (done || lia || by apply Forall_replicate).
    apply write_word_ok; [apply Hs| |lia|done]. apply covers_rest; [done|done|by apply Forall_replicate|done|lia|done|].
    intros j c Hj. assert (j < 8 - n)%nat by (apply lookup_lt_Some in Hj; rewrite length_app in Hj; cbn in Hj; lia).
    rewrite <- lookup_drop, Edrop, Etake, lookup_take_lt by done. apply (cv_chars _ _ Hc); [done|lia].
  - apply unaligned_cpy_ok; try done; [lia| |lia]. rewrite Edrop, Etake.
    destruct (Nat.le_gt_cases 8 (length s)) as [H8|H8].
    + rewrite (covers_full _ _ Hc H8), take_take. f_equal. lia.
    + apply list_eq_same_length with (8 - n)%nat; [rewrite !length_take_le by (rewrite ?length_bytes_at; lia); done|rewrite length_take_le; rewrite ?length_bytes_at; lia|].
      intros i x y Hi Hx Hy. rewrite lookup_take_lt in Hx, Hy by done. rewrite (cv_chars _ _ Hc i y) in Hx; [by injection Hx| |lia].
      by rewrite lookup_app_l by lia.
Qed.

Lemma cpy_bytes_ok k m d a s :
  bytes_ok m → string_at m a s → apart d (len s + 1) a (len s + 1) → readable m d (len s + 1) →
  ∃ m', if decide (length s < k)%nat then cpy_bytes k d a m = Some (inl (d + len s), m') ∧ wrote m m' d (s ++ [0])
        else cpy_bytes k d a m = Some (inr (d + Z.of_nat k, a + Z.of_nat k), m') ∧ wrote m m' d (take k s).
Proof.
  revert m d a s. induction k as [|k IH]; intros m d a s Hm Hs Hap Hr.
  { exists m. rewrite decide_False by lia. cbn. rewrite !Z.add_0_r. by split; [|apply wrote_nil]. }
  cbn [cpy_bytes]. destruct (string_at_head _ _ _ Hs) as [E Hmap].
  rewrite (W_step _ _ _ _ _ (load_byte_ok m a Hmap)), (W_step _ _ _ _ _ (store_byte_ok m d _ ltac:(apply Hr; lia))), E.
  pose proof (put_byte_wrote m d (byte m a) (Hm a)) as Hw. rewrite E in Hw. destruct s as [|c s].
  - exists (put_byte m d 0). rewrite decide_True by (cbn; lia). cbn. rewrite Z.add_0_r. by split.
  - pose proof (sa_chars _ _ _ Hs) as [Hc _]%Forall_cons. cbn [head default id] in *. rewrite (proj2 (Z.eqb_neq c 0)) by lia.
    unfold apart in Hap. cbn [length] in Hap. destruct (IH (put_byte m d c) (d + 1) (a + 1) s) as (m' & H').
    + eapply wrote_ok; [exact Hm| |exact Hw]. constructor; [lia|done].
    + eapply wrote_string; [exact Hw|unfold apart; cbn; lia|by eapply string_at_tail].
    + unfold apart. lia.
    + eapply wrote_readable; [exact Hw|]. intros x Hx. apply Hr. cbn. lia.
    + exists m'. destruct (decide (length s < k)%nat).
      * rewrite decide_True by (cbn; lia). destruct H' as [-> H']. split; [do 3 f_equal; cbn; lia|].
        exact (wrote_app _ _ _ _ [c] _ Hw H').
      * rewrite decide_False by (cbn; lia). destruct H' as [-> H']. split; [do 4 f_equal; lia|].
        exact (wrote_app _ _ _ _ [c] _ Hw H').
Qed.

Lemma stpcpy_ok fuel m d a s :
  bytes_ok m → string_at m a s → apart d (len s + 1) a (len s + 1) → readable m d (len s + 1) → (length s / 8 < fuel)%nat →
  ∃ m', stpcpy fuel d a m = Some (d + len s, m') ∧ wrote m m' d (s ++ [0]).
Proof.
  intros Hm Hs Hap Hr Hfuel. unfold stpcpy. destruct (to_align d) as [Hk Ha]. cbv zeta. set (k := u64 (- d) mod 8) in *.
  destruct (cpy_bytes_ok (Z.to_nat k) m d a s Hm Hs Hap Hr) as (m1 & H1). destruct (decide _) as [Hlt|Hge].
  { destruct H1 as [E Hw]. rewrite (W_step _ _ _ _ _ E). by exists m1. }
  destruct H1 as [E Hw]. rewrite (W_step _ _ _ _ _ E). cbn beta iota. set (n := Z.to_nat k) in *.
  replace (d + k) with (d + Z.of_nat n) in Ha by lia. assert (n <= length s)%nat as Hn by lia.
  pose proof (length_take_le s n Hn) as Htl. unfold apart in Hap.
  assert (bytes_ok m1) as Hm1.
  { eapply wrote_ok; [exact Hm| |exact Hw]. apply Forall_take. eapply Forall_impl; [apply Hs|]. cbn. lia. }
  assert (string_at m1 (a + Z.of_nat n) (drop n s)) as Hs1.
  { apply string_at_drop; [done|]. eapply wrote_string; [exact Hw|unfold apart; lia|done]. }
  assert (∃ m', (if (a + Z.of_nat n) mod 8 =? 0 then stpcpy_aligned_loop fuel (d + Z.of_nat n) (a + Z.of_nat n)
                 else stpcpy_unaligned_loop fuel (d + Z.of_nat n) (a + Z.of_nat n - (a + Z.of_nat n) mod 8) ((a + Z.of_nat n) mod 8)) m1
                = Some (d + Z.of_nat n + len (drop n s), m') ∧ wrote m1 m' (d + Z.of_nat n) (drop n s ++ [0])) as (m' & E' & Hw').
  { assert (length (drop n s) / 8 < fuel)%nat.
    { eapply Nat.le_lt_trans; [|exact Hfuel]. apply Nat.Div0.div_le_mono. rewrite length_drop. lia. }
    assert (readable m1 (d + Z.of_nat n) (len (drop n s) + 1)).
    { eapply wrote_readable; [exact Hw|]. intros x Hx. apply Hr. rewrite length_drop in Hx. lia. }
    assert (apart (d + Z.of_nat n) (len (drop n s) + 1) (a + Z.of_nat n) (len (drop n s) + 1)) by (unfold apart; rewrite length_drop; lia).
    destruct (Z.eqb_spec ((a + Z.of_nat n) mod 8) 0) as [E0|E0]; [by apply stpcpy_aligned_ok|].
    destruct (split_ofs _ E0) as (x2 & j & Eq & Hx2 & Hj & Ej). rewrite Eq in *. rewrite Ej.
    replace (x2 + Z.of_nat j - Z.of_nat j) with x2 by lia. by apply stpcpy_unaligned_ok. }
  exists m'. rewrite E', length_drop. split; [do 2 f_equal; lia|]. rewrite <- (take_drop n s), <- (assoc_L (++)).
  eapply wrote_app; [exact Hw|]. by rewrite Htl.
Qed.

Lemma strcpy_ok fuel m d a s :
  bytes_ok m → string_at m a s → apart d (len s + 1) a (len s + 1) → readable m d (len s + 1) → (length s / 8 < fuel)%nat →
  ∃ m', strcpy fuel d a m = Some (d, m') ∧ wrote m m' d (s ++ [0]).
Proof.
  intros Hm Hs Hap Hr Hfuel. destruct (stpcpy_ok fuel m d a s Hm Hs Hap Hr Hfuel) as (m' & E & Hw).
  exists m'. split; [|done]. unfold strcpy. by rewrite (W_step _ _ _ _ _ E).
Qed.

(** What is written, when the area is the destination string and room after it. *)
Lemma wrote_string_at m m' d s : wrote m m' d (s ++ [0]) → Forall (λ c, 0 < c < 256) s → readable m d (len s + 1) → string_at m' d s.
Proof.
  intros Hw Hs Hr. split; [|done| |by eapply wrote_readable].
  - intros i c Hi. apply (wr_in _ _ _ _ Hw). by apply lookup_app_l_Some.
  - apply (wr_in _ _ _ _ Hw). by apply list_lookup_middle.
Qed.

Lemma strcat_ok fuel m d a s t :
  bytes_ok m → string_at m d s → string_at m a t → apart (d + len s) (len t + 1) a (len t + 1) → readable m d (len s + len t + 1) →
  (length s / 8 < fuel)%nat → (length t / 8 < fuel)%nat →
  ∃ m', strcat fuel d a m = Some (d, m') ∧ wrote m m' (d + len s) (t ++ [0]) ∧ string_at m' d (s ++ t).
Proof.
  intros Hm Hs Ht Hap Hr Hf1 Hf2. unfold strcat. rewrite (W_step _ _ _ _ _ (strlen_ok m d s fuel Hm Hs Hf1)).
  destruct (strcpy_ok fuel m (d + len s) a t Hm Ht Hap) as (m' & E & Hw); [intros x Hx; apply Hr; lia|done|].
  exists m'. rewrite (W_step _ _ _ _ _ E). split_and!; [done|done|].
  apply (wrote_string_at m).
  - rewrite <- (assoc_L (++)). apply (wrote_app m m); [|done]. split; [|done..]. apply (sa_bytes _ _ _ Hs).
  - apply Forall_app. split; [apply Hs|apply Ht].
  - rewrite length_app. intros x Hx. apply Hr. lia.
Qed.
