(* ===== verification/StrProps.v ===== *)
(** * StrProps: what the word-at-a-time functions promise

    The functions of [WordStr] against definitions that go byte by byte ([len], [first_pos],
    [CStr.str_cmp], appending).  A result also says that no unmapped word is read and that
    the loops end within the number of words given as fuel. *)

From S2P Require Import Prelude Mem Logic CStr Flat Fza FzaSpec WordStr WordStrSpec StrRchrSpec StrCmpSpec StrCpySpec.
Local Open Scope Z_scope.

(** ** Concrete memories *)

(** [bs] at [base] on mapped pages, zero bytes elsewhere. *)
Definition image (base : Z) (bs : list Z) : mem :=
  Memory (λ a, if base <=? a then u8 (default 0 (bs !! Z.to_nat (a - base))) else 0)
    (λ p, (page base <=? p) && (p <=? page (base + len bs - 1))) None.

Lemma image_ok base bs : bytes_ok (image base bs).
Proof. intros a. cbn. destruct (_ <=? _); [apply u8_range|lia]. Qed.

Lemma image_readable base bs a n : base <= a → a + n <= base + len bs → readable (image base bs) a n.
Proof.
  intros Ha Hn x Hx. cbn. apply andb_true_iff. unfold page. rewrite !Z.leb_le. split; apply Z.div_le_mono; lia.
Qed.

Lemma image_string base pre s post :
  Forall (λ c, 0 < c < 256) s → string_at (image base (pre ++ s ++ 0 :: post)) (base + len pre) s.
Proof.
  intros Hs. assert (∀ i, base <=? base + len pre + Z.of_nat i = true) as Hle by (intros; apply Z.leb_le; lia).
  assert (∀ i : nat, Z.to_nat (base + len pre + Z.of_nat i - base) = (length pre + i)%nat) as Hi by lia.
  split; [|done| |].
  - intros i c E. cbn. rewrite Hle, Hi, lookup_app_r, Nat.add_comm, Nat.add_sub by lia.
    rewrite lookup_app_l by by apply lookup_lt_Some in E. rewrite E. cbn. apply wrapu_small.
    pose proof (Forall_lookup_1 _ _ _ _ Hs E). cbn in *. lia.
  - cbn. rewrite Hle, Hi, lookup_app_r, Nat.add_comm, Nat.add_sub by lia. by rewrite list_lookup_middle.
  - apply image_readable; [lia|]. rewrite !length_app. cbn. lia.
Qed.

Definition some_ctz (v : Z) (m : mem) : mem := Memory (byte m) (mapped m) (Some v).

(** ** Searching *)

Lemma rawmemchr_ok m s str c fuel :
  bytes_ok m → string_at m s str → (length str / 8 < fuel)%nat → 0 <= s → s + len str < 2 ^ 63 → u8 c ∈ str ++ [0] →
  rawmemchr fuel s c m = Some (Some (s + Z.of_nat (first_pos (λ b, b =? u8 c) str)), m).
Proof.
  intros Hm Hs Hf Hs0 Hlt Hin. unfold rawmemchr. destruct (Z.eqb_spec (u8 c) 0) as [E|E]; cbn [negb].
  { rewrite (W_step _ _ _ _ _ (strlen_ok m s str fuel Hm Hs Hf)). unfold mret, W_ret. do 4 f_equal. rewrite E, first_pos_none; [done|].
    apply not_true_iff_false. rewrite existsb_exists. intros (x & Hx%list_elem_of_In & H0).
    pose proof (sa_chars _ _ _ Hs) as Hc. rewrite Forall_forall in Hc. specialize (Hc x Hx). cbn in Hc. lia. }
  assert (existsb (λ b, b =? u8 c) str = true) as Ex.
  { apply existsb_exists. exists (u8 c). split; [|apply Z.eqb_refl]. apply list_elem_of_In.
    by apply elem_of_app in Hin as [Hin|Hin%list_elem_of_singleton]. }
  destruct (first_pos_split _ _ Ex) as (pre & x & post & El & Hp & Hpre & Hx). pose proof (first_pos_lt _ _ Ex) as Hk.
  set (k := first_pos _ _) in *. assert (first_hit m s k (λ b, b =? u8 c)) as Hhit.
  { split.
    - intros i Hi. destruct (pre !! i) as [b|] eqn:Ei; [|apply lookup_ge_None in Ei; lia].
      rewrite (sa_bytes _ _ _ Hs i b) by (rewrite El; by apply lookup_app_l_Some). exact (Forall_lookup_1 _ _ _ _ Hpre Ei).
    - rewrite (sa_bytes _ _ _ Hs k x) by (rewrite El; by apply list_lookup_middle). done. }
  apply (memchr_hit m (u8 c) Hm (u8_range c)); try done; try lia.
  - intros y Hy. apply (sa_map _ _ _ Hs). lia.
  - eapply Nat.le_lt_trans; [|exact Hf]. apply Nat.Div0.div_le_mono. lia.
Qed.

(** C20. On a string, [strlen] is its length, [strchrnul] the first place of the character or
    of the NUL, [strchr] the same or null when the character is not there, and [strrchr] the
    last place, the NUL included, for any alignment; [rawmemchr] is the first place when there
    is one. None of them changes the memory. *)
Theorem string_search m s str c fuel :
  bytes_ok m → string_at m s str → (length str / 8 < fuel)%nat → 0 <= s → s + len str < 2 ^ 63 →
  strlen fuel s m = Some (len str, m) ∧
  strchrnul fuel s c m = Some (s + Z.of_nat (first_pos (λ b, b =? u8 c) str), m) ∧
  strchr fuel s c m = Some ((λ i, s + Z.of_nat i) <$> char_pos (u8 c) str, m) ∧
  (u8 c ∈ str ++ [0] → rawmemchr fuel s c m = Some (Some (s + Z.of_nat (first_pos (λ b, b =? u8 c) str)), m)) ∧
  ∃ r, strrchr fuel s c m = Some (r, m) ∧
    match r with
    | Some a => ∃ i, a = s + Z.of_nat i ∧ (str ++ [0]) !! i = Some (u8 c) ∧ ∀ j, (i < j)%nat → (str ++ [0]) !! j ≠ Some (u8 c)
    | None => u8 c ∉ str ++ [0]
    end.
Proof.
  intros Hm Hs Hf Hs0 Hlt. split_and!; [by apply strlen_ok|by apply strchrnul_ok|by apply strchr_ok|by apply rawmemchr_ok|].
  unfold strrchr. rewrite (W_step _ _ _ _ _ (strlen_ok m s str fuel Hm Hs Hf)).
  destruct (memrchr_ok m (u8 c) Hm (u8_range c) fuel c s (len str + 1)) as (r & E & Hr); [done|lia|apply Hs| |].
  { pose proof (Nat.div_mod_eq (length str) 8). pose proof (Nat.mod_upper_bound (length str) 8 ltac:(lia)). lia. }
  exists r. split; [done|]. clear E.
  assert (∀ i d, (str ++ [0]) !! i = Some d → byte m (s + Z.of_nat i) = d ∧ (i <= length str)%nat) as Hb.
  { intros i d Hi. pose proof (lookup_lt_Some _ _ _ Hi) as Hlen. rewrite length_app in Hlen. cbn in Hlen. split; [|lia].
    pose proof (string_at_bytes _ _ _ Hs) as Eb. pose proof (bytes_at_lookup m s (S (length str)) i ltac:(lia)) as Ei.
    rewrite Eb, Hi in Ei. by injection Ei. }
  destruct r as [a|]; cbn in Hr.
  - destruct Hr as (H1 & H2%Z.eqb_eq & H3). exists (Z.to_nat (a - s)).
    destruct ((str ++ [0]) !! Z.to_nat (a - s)) as [d|] eqn:Ei; [|apply lookup_ge_None in Ei; rewrite length_app in Ei; cbn in Ei; lia].
    split_and!; [lia| |].
    + destruct (Hb _ _ Ei) as [<- _]. rewrite <- H2. do 2 f_equal. lia.
    + intros j Hj Ej. destruct (Hb _ _ Ej) as [Eb Hlen]. specialize (H3 (s + Z.of_nat j) ltac:(lia)). lia.
  - intros (i & Ei)%list_elem_of_lookup. destruct (Hb _ _ Ei) as [Eb Hlen]. specialize (Hr (s + Z.of_nat i) ltac:(lia)). lia.
Qed.

(** "banana" eleven bytes after a page border, with bytes before and after it. *)
Definition banana : list Z := str "banana".

Lemma string_search_witness :
  let m := image 8192 (replicate 11 97 ++ banana ++ 0 :: replicate 7 97) in
  strchr 3 8203 110 m = Some (Some 8205, m) ∧ ∃ r, strrchr 3 8203 97 m = Some (r, m) ∧ r = Some 8208.
Proof.
  intros m. destruct (string_search m 8203 banana 110 3) as (_ & _ & E & _ & _);
    [apply image_ok|apply (image_string 8192 (replicate 11 97)); by repeat constructor|vm_compute; lia|lia|vm_compute; done|].
  split; [rewrite E; vm_compute; reflexivity|].
  destruct (string_search m 8203 banana 97 3) as (_ & _ & _ & _ & r & E' & Hr);
    [apply image_ok|apply (image_string 8192 (replicate 11 97)); by repeat constructor|vm_compute; lia|lia|vm_compute; done|].
  exists r. split; [exact E'|]. clear E E'. change (banana ++ [0]) with [98; 97; 110; 97; 110; 97; 0] in Hr. change (u8 97) with 97 in Hr. clear m.
  destruct r as [a|].
  - destruct Hr as (i & -> & Hi & Hlast). assert (i = 5)%nat as ->; [|reflexivity].
    do 7 (destruct i as [|i]; [try discriminate; try reflexivity; by destruct (Hlast 5%nat ltac:(lia))|]). discriminate.
  - destruct Hr. right. left.
Defined.

(** C21. Searching [n] bytes, which need not hold a NUL: [memchr] returns the first place of
    the byte among them and null if there is none, although it tests whole words, [memrchr]
    the last place. *)
Theorem memory_search m s c n fuel :
  bytes_ok m → 0 <= s → 0 <= n → s + n <= 2 ^ 64 → readable m s n → n <= 8 * Z.of_nat fuel →
  (∃ r, memchr fuel s c n m = Some (r, m) ∧
    match r with
    | Some a => s <= a < s + n ∧ byte m a = u8 c ∧ ∀ x, s <= x < a → byte m x ≠ u8 c
    | None => ∀ x, s <= x < s + n → byte m x ≠ u8 c
    end) ∧
  (∃ r, memrchr fuel s c n m = Some (r, m) ∧
    match r with
    | Some a => s <= a < s + n ∧ byte m a = u8 c ∧ ∀ x, a < x < s + n → byte m x ≠ u8 c
    | None => ∀ x, s <= x < s + n → byte m x ≠ u8 c
    end).
Proof.
  intros Hm Hs Hn Hlt Hr Hf. split.
  - destruct (existsb (λ b, b =? u8 c) (bytes_at m s (Z.to_nat n))) eqn:Ex.
    + destruct (first_pos_split _ _ Ex) as (pre & x & post & El & Hp & Hpre & Hx). set (k := first_pos _ _) in Hp.
      assert (length pre + S (length post) = Z.to_nat n)%nat as Hl.
      { rewrite <- (length_bytes_at m s (Z.to_nat n)), El, length_app. done. }
      assert (∀ i b, (i < Z.to_nat n)%nat → (pre ++ x :: post) !! i = Some b → byte m (s + Z.of_nat i) = b) as Hb.
      { intros i b Hi. rewrite <- El, bytes_at_lookup by done. by intros [=]. }
      assert (first_hit m s k (λ b, b =? u8 c)) as Hhit.
      { split.
        - intros i Hi. destruct (pre !! i) as [b|] eqn:Ei; [|apply lookup_ge_None in Ei; lia].
          rewrite (Hb i b) by (lia || by apply lookup_app_l_Some). exact (Forall_lookup_1 _ _ _ _ Hpre Ei).
        - rewrite (Hb k x) by (lia || by apply list_lookup_middle). done. }
      exists (Some (s + Z.of_nat k)). split.
      * apply (memchr_hit m (u8 c) Hm (u8_range c)); try done; try lia.
        -- intros y Hy. apply Hr. lia.
        -- apply Nat.Div0.div_lt_upper_bound. lia.
      * destruct Hhit as [H1 H2%Z.eqb_eq]. split_and!; [lia|lia|done|]. intros y Hy. apply Z.eqb_neq.
        rewrite <- (H1 (Z.to_nat (y - s))) by lia. do 2 f_equal. lia.
    + pose proof (none_bytes m (u8 c) Hm (u8_range c) _ _ Ex) as Hnone. exists None. rewrite Z2Nat.id in Hnone by done. split.
      * apply (memchr_none m (u8 c) Hm (u8_range c)); try done. apply Z.div_le_upper_bound; lia.
      * intros x Hx. apply Z.eqb_neq, Hnone, Hx.
  - destruct (memrchr_ok m (u8 c) Hm (u8_range c) fuel c s n eq_refl Hn Hr Hf) as (r & E & H). exists r. split; [done|].
    destruct r as [a|]; cbn in H.
    + destruct H as (H1 & H2%Z.eqb_eq & H3). split_and!; [lia|lia|done|]. intros x Hx. by apply Z.eqb_neq, H3.
    + intros x Hx. by apply Z.eqb_neq, H.
Qed.

(** The only 7s are outside the five bytes searched, in words that are read. *)
Lemma memory_search_witness :
  let m := image 4096 [7; 7; 7; 1; 2; 3; 2; 1; 7; 7] in memchr 2 4099 7 5 m = Some (None, m).
Proof.
  intros m. destruct (memory_search m 4099 7 5 2) as [(r & E & H) _];
    [apply image_ok|lia|lia|lia|apply image_readable; cbn; lia|lia|].
  destruct r as [a|]; [|done]. destruct H as (H1 & H2 & _). exfalso.
  assert (a = 4099 ∨ a = 4100 ∨ a = 4101 ∨ a = 4102 ∨ a = 4103) as Ha by lia.
  clear -H2 Ha. destruct Ha as [-> | [-> | [-> | [-> | ->]]]]; vm_compute in H2; discriminate.
Defined.

(** ** Comparing *)

(** C18. [strcmp] and [strncmp] of two strings are the byte-wise comparisons, at any two
    alignments; for [strncmp] whatever value [__builtin_ctzl (0)] yields. *)
Theorem string_compare m a b s t n v fuel :
  bytes_ok m → string_at m a s → string_at m b t → (length s / 8 < fuel)%nat →
  strcmp fuel a b m = Some (str_cmp s t, m) ∧
  (ctz0 m = Some v → strncmp fuel a b (Z.of_nat n) m = Some (str_ncmp n s t, m)).
Proof. intros Hm Hs Ht Hf. split; [by apply strcmp_ok|]. intros Hv. by apply (strncmp_ok m v). Qed.

(** "breakfast" at an odd address and "breakwater" at an even one. *)
Definition two_strings : list Z := [0] ++ str "breakfast" ++ 0 :: str "xyz" ++ str "breakwater" ++ [0].

Lemma string_compare_witness :
  let m := some_ctz 64 (image 4096 two_strings) in
  strcmp 2 4097 4110 m = Some (102 - 119, m) ∧ strncmp 2 4097 4110 5 m = Some (0, m).
Proof.
  intros m. assert (string_at m 4097 (str "breakfast")) as H1.
  { destruct (image_string 4096 [0] (str "breakfast") (str "xyz" ++ str "breakwater" ++ [0])) as [A B C D]; [by repeat constructor|by split]. }
  assert (string_at m 4110 (str "breakwater")) as H2.
  { destruct (image_string 4096 ([0] ++ str "breakfast" ++ 0 :: str "xyz") (str "breakwater") []) as [A B C D]; [by repeat constructor|by split]. }
  destruct (string_compare m 4097 4110 _ _ 5 64 2 (image_ok 4096 two_strings) H1 H2 ltac:(vm_compute; lia)) as [E1 E2].
  split; [exact E1|by apply E2].
Defined.

(** Comparing the eight bytes of a full word that are equal and hold no NUL, [strncmp]
    calls [__builtin_ctzl] on zero, which the compiler leaves undefined. *)
Theorem strncmp_counts_zeros :
  strncmp 5 4096 4104 8 (image 4096 (str "abcdefgh" ++ str "abcdefgh")) = None ∧
  strncmp 5 4096 4104 8 (some_ctz 64 (image 4096 (str "abcdefgh" ++ str "abcdefgh"))) =
  Some (0, some_ctz 64 (image 4096 (str "abcdefgh" ++ str "abcdefgh"))).
Proof. split; by vm_compute. Qed.

(** ** Copying *)

(** C19. [stpcpy], [strcpy] and [strcat] of strings that do not overlap write the bytes of the
    source with its NUL at the destination, and nothing else, at any two alignments; they
    return the address of the NUL written, and the destination. *)
Theorem string_copy m d a s t fuel :
  bytes_ok m → string_at m a t → apart d (len t + 1) a (len t + 1) → readable m d (len t + 1) → (length t / 8 < fuel)%nat →
  (∃ m', stpcpy fuel d a m = Some (d + len t, m') ∧ strcpy fuel d a m = Some (d, m') ∧
    (∀ x, ¬ (d <= x < d + len t + 1) → byte m' x = byte m x) ∧ string_at m' d t) ∧
  (∀ e, d = e + len s → string_at m e s → (length s / 8 < fuel)%nat →
    ∃ m', strcat fuel e a m = Some (e, m') ∧ (∀ x, ¬ (d <= x < d + len t + 1) → byte m' x = byte m x) ∧ string_at m' e (s ++ t)).
Proof.
  intros Hm Ht Hap Hr Hf. split.
  - destruct (stpcpy_ok fuel m d a t Hm Ht Hap Hr Hf) as (m' & E & Hw). exists m'. split_and!; [done| | |].
    + unfold strcpy. by rewrite (W_step _ _ _ _ _ E).
    + intros x Hx. apply (wr_out _ _ _ _ Hw). rewrite length_app. cbn. lia.
    + by eapply wrote_string_at; [|apply Ht|].
  - intros e -> Hs Hf2. destruct (strcat_ok fuel m e a s t Hm Hs Ht Hap) as (m' & E & Hw & Hst); [|done..|].
    + intros x Hx. destruct (Z.lt_ge_cases x (e + len s)); [apply (sa_map _ _ _ Hs)|apply Hr]; lia.
    + exists m'. split_and!; [done| |done]. intros x Hx. apply (wr_out _ _ _ _ Hw). rewrite length_app. cbn. lia.
Qed.

(** Appending "-directory" to "list" in a buffer of 24 bytes. *)
Lemma string_copy_witness :
  let m := image 4096 (str "-directory" ++ 0 :: str "list" ++ replicate 24 0) in
  ∃ m', strcat 2 4107 4096 m = Some (4107, m') ∧ string_at m' 4107 (str "list-directory").
Proof.
  intros m. destruct (string_copy m 4111 4096 (str "list") (str "-directory") 2) as [_ H].
  - apply image_ok.
  - apply (image_string 4096 [] (str "-directory") (str "list" ++ replicate 24 0)). by repeat constructor.
  - right. cbn. lia.
  - apply image_readable; [lia|]. cbn. lia.
  - vm_compute. lia.
  - destruct (H 4107) as (m' & E & _ & Hs); [reflexivity| |vm_compute; lia|exact (ex_intro _ m' (conj E Hs))].
    apply (image_string 4096 (str "-directory" ++ [0]) (str "list") (replicate 23 0)). by repeat constructor.
Defined.
