(* ===== verification/MoveSpec.v ===== *)
(** * MoveSpec: the word copies, [memcpy] and [memmove] move the bytes, overlapping or not

    A forward copy may go to lower addresses of the same block, a backward copy to higher
    ones.  The words around an unaligned source are read whole; their bytes outside the
    source may change while the copy runs, and do not matter. *)

From S2P Require Import Prelude Mem Logic CStr Flat Fza FzaSpec WordStr WordStrSpec StrCmpSpec StrCpySpec MemFn.
Local Open Scope Z_scope.

(** ** Copies *)

(** [m'] is [m] with the [n] bytes at [s] copied to [d]. *)
Record copied (m m' : mem) (d s n : Z) : Prop := Copied {
  cp_in : ∀ j, 0 <= j < n → byte m' (d + j) = byte m (s + j);
  cp_out : ∀ x, ¬ (d <= x < d + n) → byte m' x = byte m x;
  cp_mapped : mapped m' = mapped m;
  cp_ctz0 : ctz0 m' = ctz0 m }.

Lemma copied_0 m d s n : n <= 0 → copied m m d s n.
Proof. intros Hn. split; [lia|done..]. Qed.

Lemma copied_ok m m' d s n : bytes_ok m → copied m m' d s n → bytes_ok m'.
Proof.
  intros Hm [I O _ _] x. destruct (decide (d <= x < d + n)) as [Hx|Hx]; [|by rewrite O].
  replace x with (d + (x - d)) by lia. rewrite I by lia. apply Hm.
Qed.

Lemma copied_readable m m' d s n a k : copied m m' d s n → readable m a k → readable m' a k.
Proof. intros H Hr x Hx. rewrite (cp_mapped _ _ _ _ _ H). by apply Hr. Qed.

(** One copy after the other, upwards and downwards. *)
Lemma copied_fwd m m1 m2 d s n k :
  0 <= n → 0 <= k → d <= s ∨ s + n + k <= d → copied m m1 d s n → copied m1 m2 (d + n) (s + n) k → copied m m2 d s (n + k).
Proof.
  intros Hn Hk Hsafe [I1 O1 M1 C1] [I2 O2 M2 C2]. split; [| |congruence..].
  - intros j Hj. destruct (Z.lt_ge_cases j n).
    + rewrite O2 by lia. apply I1. lia.
    + replace (d + j) with (d + n + (j - n)) by lia. rewrite I2, O1 by lia. f_equal. lia.
  - intros x Hx. rewrite O2, O1 by lia. done.
Qed.

Lemma copied_bwd m m1 m2 d s n k :
  0 <= n → 0 <= k → s <= d → copied m m1 (d + n) (s + n) k → copied m1 m2 d s n → copied m m2 d s (n + k).
Proof.
  intros Hn Hk Hsafe [I1 O1 M1 C1] [I2 O2 M2 C2]. split; [| |congruence..].
  - intros j Hj. destruct (Z.lt_ge_cases j n).
    + rewrite I2, O1 by lia. done.
    + rewrite O2 by lia. replace (d + j) with (d + n + (j - n)) by lia. rewrite I1 by lia. f_equal. lia.
  - intros x Hx. rewrite O2, O1 by lia. done.
Qed.

Section words.
Context (m0 : mem) (D S n : Z).
Hypothesis m_ok : bytes_ok m0.
Hypothesis D_ok : D mod 8 = 0.
Hypothesis D_map : readable m0 D (8 * n).
Hypothesis S_map : readable m0 S (8 * n).
Set Default Proof Using "All".

(** Storing word [i] of the source, as it was in the beginning. *)
Lemma store_source i m lo hi :
  0 <= i < n → copied m0 m (D + 8 * lo) (S + 8 * lo) (8 * (hi - lo)) → (lo = 0 ∧ hi = i ∨ lo = i + 1 ∧ hi = n) →
  ∃ m', store_word (D + 8 * i) (word_at m0 (S + 8 * i)) m = Some ((), m') ∧
    copied m0 m' (D + 8 * Z.min lo i) (S + 8 * Z.min lo i) (8 * (Z.max hi (i + 1) - Z.min lo i)).
Proof.
  intros Hi [I O M C] Hlo. assert ((D + 8 * i) mod 8 = 0) as Ha by (Z.to_euclidean_division_equations; lia).
  exists (put_word m (D + 8 * i) (word_at m0 (S + 8 * i))). split.
  { apply store_word_ok; [done|]. rewrite M. apply D_map. lia. }
  destruct (word_bytes m0 m_ok (S + 8 * i)) as (E & Hb & Hl). rewrite E.
  destruct (put_word_wrote m (D + 8 * i) _ Hb Hl) as [I' O' M' C'].
  assert (∀ j, 0 <= j < 8 → byte (put_word m (D + 8 * i) (dec_le (bytes_at m0 (S + 8 * i) 8))) (D + 8 * i + j) = byte m0 (S + 8 * i + j)) as Iw.
  { intros j Hj. rewrite <- (I' (Z.to_nat j) (byte m0 (S + 8 * i + j))); [f_equal; lia|].
    rewrite bytes_at_lookup by lia. do 2 f_equal. lia. }
  split; [| |congruence..].
  - intros j Hj. set (y := D + 8 * Z.min lo i + j). destruct (decide (D + 8 * i <= y < D + 8 * i + 8)) as [Hy|Hy].
    + replace y with (D + 8 * i + (y - (D + 8 * i))) by lia. rewrite Iw by lia. f_equal. lia.
    + rewrite O' by (rewrite Hl; lia). replace y with (D + 8 * lo + (y - (D + 8 * lo))) by lia. rewrite I by lia. f_equal. lia.
  - intros x Hx. rewrite O' by (rewrite Hl; lia). apply O. lia.
Qed.
End words.

(** A case of the [switch]: the first load, then the label with the state it expects. *)
Ltac enter go label load :=
  rewrite (W_step _ _ _ _ _ load); eapply go; [exact label|Z.to_euclidean_division_equations; lia..].
Ltac enter2 go label load load' :=
  rewrite (W_step _ _ _ _ _ load), (W_step _ _ _ _ _ load'); eapply go; [exact label|try (Z.to_euclidean_division_equations; lia)..].

(** ** Forward, both aligned *)

Section fwd.
Context (m0 : mem) (D S n : Z).
Hypothesis m_ok : bytes_ok m0.
Hypothesis D_ok : D mod 8 = 0.
Hypothesis S_ok : S mod 8 = 0.
Hypothesis D_map : readable m0 D (8 * n).
Hypothesis S_map : readable m0 S (8 * n).
Hypothesis safe : D <= S ∨ S + 8 * n <= D.
Set Default Proof Using "All".

Lemma fwd_load i k m : 0 <= i <= k → k < n → copied m0 m D S (8 * i) → load_word (S + 8 * k) m = Some (word_at m0 (S + 8 * k), m).
Proof.
  intros Hi Hk [_ O M _]. rewrite (load_word_ok m) by (try (Z.to_euclidean_division_equations; lia); rewrite M; apply S_map; lia).
  do 2 f_equal. unfold word_at. f_equal. apply list_eq_same_length with 8%nat; [apply length_bytes_at..|].
  intros j x y Hj Hx Hy. rewrite bytes_at_lookup in Hx, Hy by done. injection Hx as <-. injection Hy as <-. apply O. lia.
Qed.

Lemma fwd_store i m :
  0 <= i < n → copied m0 m D S (8 * i) →
  ∃ m', store_word (D + 8 * i) (word_at m0 (S + 8 * i)) m = Some ((), m') ∧ copied m0 m' D S (8 * (i + 1)).
Proof.
  intros Hi Hc. destruct (store_source m0 D S n m_ok D_ok D_map S_map i m 0 i Hi) as (m' & E & H).
  - by rewrite Z.mul_0_r, !Z.add_0_r, Z.sub_0_r.
  - by left.
  - exists m'. split; [done|]. by rewrite Z.min_l, Z.max_r, Z.mul_0_r, !Z.add_0_r, Z.sub_0_r in H by lia.
Qed.

(** The state at label [j] with word [i] in the register. *)
Definition fwd_label (fuel : nat) (j : Z) (f : Z → Z → Z → Z → W unit) : Prop :=
  ∀ i m len, 0 <= i → copied m0 m D S (8 * i) → len = n - 1 - i + (8 - j) → len mod 8 = 0 → 0 < len <= 8 * Z.of_nat fuel →
  ∃ m', f (D + 8 * i - 8 * (8 - j)) (S + 8 * (i + 1) - 8 * (8 - j)) len (word_at m0 (S + 8 * i)) m = Some ((), m') ∧
    copied m0 m' D S (8 * n).

Lemma fwd_label_step fuel j f g :
  (∀ d s len a, f d s len a = (b ← ld s (8 - j); st d (8 - j) a;; g d s len b)) → 1 <= j <= 8 →
  fwd_label fuel (j - 1) g → fwd_label fuel j f.
Proof.
  intros Hf Hj Hg i m len Hi Hc Hlen H8 Hl. rewrite Hf. unfold ld, st.
  replace (S + 8 * (i + 1) - 8 * (8 - j) + (8 - j) * 8) with (S + 8 * (i + 1)) by lia.
  replace (D + 8 * i - 8 * (8 - j) + (8 - j) * 8) with (D + 8 * i) by lia.
  assert (i + 1 < n) by (Z.to_euclidean_division_equations; lia).
  rewrite (W_step _ _ _ _ _ (fwd_load i (i + 1) m ltac:(lia) ltac:(lia) Hc)).
  destruct (fwd_store i m ltac:(lia) Hc) as (m1 & E & H1). rewrite (W_step _ _ _ _ _ E).
  destruct (Hg (i + 1) m1 len ltac:(lia) H1 ltac:(lia) H8 Hl) as (m' & E' & H'). exists m'. split; [|done].
  rewrite <- E'. f_equal; lia.
Qed.

Lemma fwd_label_next fuel loop : fwd_label fuel 8 loop → fwd_label (Datatypes.S fuel) 0 (fwd_next loop).
Proof.
  intros Hg i m len Hi Hc Hlen H8 Hl. unfold fwd_next, OPSIZ. destruct (Z.eqb_spec (len - 8) 0) as [E|E]; cbn [negb].
  - assert (i = n - 1) as -> by lia. destruct (fwd_store (n - 1) m ltac:(lia) Hc) as (m1 & E1 & H1). exists m1.
    unfold st. replace (D + 8 * (n - 1) - 8 * (8 - 0) + 8 * 8 + 0 * 8) with (D + 8 * (n - 1)) by lia.
    replace (n - 1 + 1) with n in H1 by lia. done.
  - destruct (Hg i m (len - 8)) as (m' & E' & H'); try done; [lia|Z.to_euclidean_division_equations; lia..|].
    exists m'. split; [|done]. rewrite <- E'. f_equal; lia.
Qed.

Lemma fwd_labels fuel loop :
  fwd_label fuel 8 loop →
  fwd_label (Datatypes.S fuel) 1 (fwd_do1 loop) ∧ fwd_label (Datatypes.S fuel) 2 (fwd_do2 loop) ∧
  fwd_label (Datatypes.S fuel) 3 (fwd_do3 loop) ∧ fwd_label (Datatypes.S fuel) 4 (fwd_do4 loop) ∧
  fwd_label (Datatypes.S fuel) 5 (fwd_do5 loop) ∧ fwd_label (Datatypes.S fuel) 6 (fwd_do6 loop) ∧
  fwd_label (Datatypes.S fuel) 7 (fwd_do7 loop) ∧ fwd_label (Datatypes.S fuel) 8 (fwd_do8 loop).
Proof.
  intros H0%fwd_label_next.
  pose proof (fwd_label_step _ 1 (fwd_do1 loop) _ ltac:(done) ltac:(lia) H0) as H1.
  pose proof (fwd_label_step _ 2 (fwd_do2 loop) _ ltac:(done) ltac:(lia) H1) as H2.
  pose proof (fwd_label_step _ 3 (fwd_do3 loop) _ ltac:(done) ltac:(lia) H2) as H3.
  pose proof (fwd_label_step _ 4 (fwd_do4 loop) _ ltac:(done) ltac:(lia) H3) as H4.
  pose proof (fwd_label_step _ 5 (fwd_do5 loop) _ ltac:(done) ltac:(lia) H4) as H5.
  pose proof (fwd_label_step _ 6 (fwd_do6 loop) _ ltac:(done) ltac:(lia) H5) as H6.
  pose proof (fwd_label_step _ 7 (fwd_do7 loop) _ ltac:(done) ltac:(lia) H6) as H7.
  pose proof (fwd_label_step _ 8 (fwd_do8 loop) _ ltac:(done) ltac:(lia) H7) as H8. done.
Qed.

Lemma fwd_loop_ok fuel : fwd_label fuel 8 (fwd_loop fuel).
Proof.
  induction fuel as [|fuel IH]; [intros i m len Hi Hc Hlen H8 Hl; lia|]. apply fwd_labels, IH.
Qed.

Lemma wordcopy_fwd_aligned_ok fuel :
  0 <= n <= 8 * Z.of_nat fuel → ∃ m', wordcopy_fwd_aligned (Datatypes.S fuel) D S n m0 = Some ((), m') ∧ copied m0 m' D S (8 * n).
Proof.
  intros Hn. pose proof (fwd_loop_ok (Datatypes.S fuel)) as HL. destruct (fwd_labels _ _ (fwd_loop_ok (Datatypes.S fuel))) as (L1 & L2 & L3 & L4 & L5 & L6 & L7 & _).
  assert (copied m0 m0 D S (8 * 0)) as H0 by by apply copied_0.
  assert (0 < n → ld S 0 m0 = Some (word_at m0 (S + 8 * 0), m0)) as Hld.
  { intros. unfold ld. replace (S + 0 * 8) with (S + 8 * 0) by lia. apply (fwd_load 0 0 m0); [lia|lia|done]. }
  assert (n = 0 ∨ 0 < n) as [->|Hpos] by lia; [exists m0; by split|]. specialize (Hld Hpos).
  unfold wordcopy_fwd_aligned, OPSIZ. pose proof (Z.mod_pos_bound n 8 ltac:(lia)) as Hr.
  assert (∀ j f fuel' d s len, fwd_label fuel' j f → d = D + 8 * 0 - 8 * (8 - j) → s = S + 8 * (0 + 1) - 8 * (8 - j) →
    len = n - 1 - 0 + (8 - j) → len mod 8 = 0 → 0 < len <= 8 * Z.of_nat fuel' →
    ∃ m', f d s len (word_at m0 (S + 8 * 0)) m0 = Some ((), m') ∧ copied m0 m' D S (8 * n)) as Hgo.
  { intros j f fuel' d s len Hf -> -> -> Hm Hl. by apply Hf. }
  assert (n mod 8 = 0 ∨ n mod 8 = 1 ∨ n mod 8 = 2 ∨ n mod 8 = 3 ∨ n mod 8 = 4 ∨ n mod 8 = 5 ∨ n mod 8 = 6 ∨ n mod 8 = 7) as Hcase by lia.
  destruct Hcase as [E|[E|[E|[E|[E|[E|[E|E]]]]]]]; rewrite E; cbv beta iota zeta; cbn [andb Z.leb Z.compare Pos.compare Pos.compare_cont OP_T_THRES Z.mul].
  - rewrite (proj2 (Z.eqb_neq n 0)), andb_false_r by lia. enter (Hgo 7) L7 Hld.
  - destruct (Z.eqb_spec (n - 1) 0) as [E1|E1]; rewrite ?andb_true_r, ?andb_false_r; [|enter (Hgo 8) HL Hld].
    rewrite (W_step _ _ _ _ _ Hld). destruct (fwd_store 0 m0 ltac:(lia) H0) as (m1 & Es & H1). exists m1. unfold st.
    replace (D - 0 * 8 + 0 * 8) with (D + 8 * 0) by lia. replace n with (0 + 1) by lia. done.
  - enter (Hgo 1) L1 Hld.
  - enter (Hgo 2) L2 Hld.
  - enter (Hgo 3) L3 Hld.
  - enter (Hgo 4) L4 Hld.
  - enter (Hgo 5) L5 Hld.
  - enter (Hgo 6) L6 Hld.
Qed.
End fwd.

(** ** Words of an area that is not aligned *)

(** [ofs] bytes of the word at [X] come before the source. *)
Section regs.
Context (m0 : mem) (X ofs n : Z).
Hypothesis m_ok : bytes_ok m0.
Hypothesis X_ok : X mod 8 = 0.
Hypothesis ofs_ok : 0 < ofs < 8.
Hypothesis S_map : readable m0 (X + ofs) (8 * n).
Set Default Proof Using "All".

(** The word [a] was loaded from [X + 8 * k]: its bytes that belong to the source are right. *)
Definition reg (k a : Z) : Prop :=
  ∃ ws, a = dec_le ws ∧ bytes ws ∧ length ws = 8%nat ∧
    ∀ j : nat, (j < 8)%nat → X + ofs <= X + 8 * k + Z.of_nat j < X + ofs + 8 * n → ws !! j = Some (byte m0 (X + 8 * k + Z.of_nat j)).

Lemma load_reg k m :
  0 <= k <= n → 0 < n → bytes_ok m → mapped m = mapped m0 →
  (∀ y, X + 8 * k <= y < X + 8 * k + 8 → X + ofs <= y < X + ofs + 8 * n → byte m y = byte m0 y) →
  load_word (X + 8 * k) m = Some (word_at m (X + 8 * k), m) ∧ reg k (word_at m (X + 8 * k)).
Proof.
  intros Hk Hn Hm M Hy. split.
  - apply (load_word_reach m _ (Z.max (X + ofs) (X + 8 * k))); [Z.to_euclidean_division_equations; lia|lia|]. rewrite M. apply S_map. lia.
  - exists (bytes_at m (X + 8 * k) 8). split_and!; [done|by apply bytes_at_range|apply length_bytes_at|].
    intros j Hj Hr. rewrite bytes_at_lookup by done. f_equal. apply Hy; lia.
Qed.

Lemma merge_regs k u v :
  0 <= k < n → reg k u → reg (k + 1) v → MERGE u (8 * ofs) v (64 - 8 * ofs) = word_at m0 (X + ofs + 8 * k).
Proof.
  intros Hk (us & -> & Hub & Hul & Hu) (vs & -> & Hvb & Hvl & Hv). set (o := Z.to_nat ofs).
  replace ofs with (Z.of_nat o) by lia. rewrite MERGE_dec by (done || lia). unfold word_at. f_equal.
  apply list_eq_same_length with 8%nat; [apply length_bytes_at|rewrite length_app, length_drop, length_take_le by lia; lia|].
  intros i x y Hi Hx Hy. rewrite bytes_at_lookup in Hy by done. injection Hy as <-. destruct (decide (i < 8 - o)%nat) as [Hlt|Hge].
  - rewrite lookup_app_l, lookup_drop, Hu in Hx by (rewrite ?length_drop; lia). injection Hx as <-. f_equal. lia.
  - rewrite lookup_app_r, length_drop, Hul, lookup_take_lt, Hv in Hx by (rewrite ?length_drop; lia). injection Hx as <-. f_equal. lia.
Qed.
End regs.

(** ** Forward, the source not aligned *)

Section fwd_dest.
Context (m0 : mem) (D X ofs n : Z).
Hypothesis m_ok : bytes_ok m0.
Hypothesis D_ok : D mod 8 = 0.
Hypothesis X_ok : X mod 8 = 0.
Hypothesis ofs_ok : 0 < ofs < 8.
Local Notation S := (X + ofs).
Hypothesis D_map : readable m0 D (8 * n).
Hypothesis S_map : readable m0 S (8 * n).
Hypothesis safe : D <= S ∨ S + 8 * n <= D.
Set Default Proof Using "All".
Local Notation reg := (reg m0 X ofs n).
Local Notation sh_1 := (8 * ofs).
Local Notation sh_2 := (64 - 8 * ofs).

Lemma fwdd_load i k m :
  0 <= i <= k → k <= n → 0 < n → copied m0 m D S (8 * i) →
  load_word (X + 8 * k) m = Some (word_at m (X + 8 * k), m) ∧ reg k (word_at m (X + 8 * k)).
Proof.
  intros Hi Hk Hn Hc. apply load_reg; try done; [lia|by eapply copied_ok|apply Hc|].
  intros y Hy Hs. apply Hc. assert (D <= X ∨ S + 8 * n <= D) by (Z.to_euclidean_division_equations; lia). lia.
Qed.

Lemma fwdd_store i u v m :
  0 <= i < n → reg i u → reg (i + 1) v → copied m0 m D S (8 * i) →
  ∃ m', store_word (D + 8 * i) (MERGE u sh_1 v sh_2) m = Some ((), m') ∧ copied m0 m' D S (8 * (i + 1)).
Proof.
  intros Hi Hu Hv Hc. rewrite (merge_regs m0 X ofs n m_ok X_ok ofs_ok S_map i) by done.
  destruct (store_source m0 D S n m_ok D_ok D_map S_map i m 0 i Hi) as (m' & E & H).
  - by rewrite Z.mul_0_r, !Z.add_0_r, Z.sub_0_r.
  - by left.
  - exists m'. split; [done|]. by rewrite Z.min_l, Z.max_r, Z.mul_0_r, !Z.add_0_r, Z.sub_0_r in H by lia.
Qed.

(** The state at label [j] with words [i] and [i + 1] in the registers. *)
Definition fwdd_label (fuel : nat) (j : Z) (f : Z → Z → Z → Z → Z → W unit) : Prop :=
  ∀ i m len u v, 0 <= i → copied m0 m D S (8 * i) → reg i u → reg (i + 1) v →
  len = n - 1 - i + (4 - j) → len mod 4 = 0 → 0 < len <= 4 * Z.of_nat fuel →
  ∃ m', f (D + 8 * i - 8 * (4 - j)) (X + 8 * (i + 2) - 8 * (4 - j)) len u v m = Some ((), m') ∧ copied m0 m' D S (8 * n).

Lemma fwdd_label_step fuel j f g :
  (∀ d s len a b, f d s len a b = (c ← ld s (4 - j); st d (4 - j) (MERGE a sh_1 b sh_2);; g d s len b c)) → 1 <= j <= 4 →
  fwdd_label fuel (j - 1) g → fwdd_label fuel j f.
Proof.
  intros Hf Hj Hg i m len u v Hi Hc Hu Hv Hlen H4 Hl. rewrite Hf. unfold ld, st.
  replace (X + 8 * (i + 2) - 8 * (4 - j) + (4 - j) * 8) with (X + 8 * (i + 2)) by lia.
  replace (D + 8 * i - 8 * (4 - j) + (4 - j) * 8) with (D + 8 * i) by lia.
  assert (i + 1 < n) by (Z.to_euclidean_division_equations; lia).
  destruct (fwdd_load i (i + 2) m ltac:(lia) ltac:(lia) ltac:(lia) Hc) as [El Hr]. rewrite (W_step _ _ _ _ _ El).
  destruct (fwdd_store i u v m ltac:(lia) Hu Hv Hc) as (m1 & E & H1). rewrite (W_step _ _ _ _ _ E).
  replace (i + 2) with (i + 1 + 1) in Hr at 1 by lia.
  destruct (Hg (i + 1) m1 len _ _ ltac:(lia) H1 Hv Hr ltac:(lia) H4 Hl) as (m' & E' & H'). exists m'. split; [|done].
  rewrite <- E'. f_equal; lia.
Qed.

Lemma fwdd_label_next fuel loop : fwdd_label fuel 4 loop → fwdd_label (Datatypes.S fuel) 0 (fwdd_next loop sh_1 sh_2).
Proof.
  intros Hg i m len u v Hi Hc Hu Hv Hlen H4 Hl. unfold fwdd_next, OPSIZ. destruct (Z.eqb_spec (len - 4) 0) as [E|E]; cbn [negb].
  - assert (i = n - 1) as -> by lia. destruct (fwdd_store (n - 1) u v m ltac:(lia) Hu Hv Hc) as (m1 & E1 & H1). exists m1.
    unfold st. replace (D + 8 * (n - 1) - 8 * (4 - 0) + 4 * 8 + 0 * 8) with (D + 8 * (n - 1)) by lia.
    replace (n - 1 + 1) with n in H1 by lia. done.
  - destruct (Hg i m (len - 4) u v) as (m' & E' & H'); try done; [lia|Z.to_euclidean_division_equations; lia..|].
    exists m'. split; [|done]. rewrite <- E'. f_equal; lia.
Qed.

Lemma fwdd_labels fuel loop :
  fwdd_label fuel 4 loop →
  fwdd_label (Datatypes.S fuel) 1 (fwdd_do1 loop sh_1 sh_2) ∧ fwdd_label (Datatypes.S fuel) 2 (fwdd_do2 loop sh_1 sh_2) ∧
  fwdd_label (Datatypes.S fuel) 3 (fwdd_do3 loop sh_1 sh_2) ∧ fwdd_label (Datatypes.S fuel) 4 (fwdd_do4 loop sh_1 sh_2).
Proof.
  intros H0%fwdd_label_next.
  pose proof (fwdd_label_step _ 1 (fwdd_do1 loop sh_1 sh_2) _ ltac:(done) ltac:(lia) H0) as H1.
  pose proof (fwdd_label_step _ 2 (fwdd_do2 loop sh_1 sh_2) _ ltac:(done) ltac:(lia) H1) as H2.
  pose proof (fwdd_label_step _ 3 (fwdd_do3 loop sh_1 sh_2) _ ltac:(done) ltac:(lia) H2) as H3.
  pose proof (fwdd_label_step _ 4 (fwdd_do4 loop sh_1 sh_2) _ ltac:(done) ltac:(lia) H3) as H4. done.
Qed.

Lemma fwdd_loop_ok fuel : fwdd_label fuel 4 (fwdd_loop sh_1 sh_2 fuel).
Proof.
  induction fuel as [|fuel IH]; [intros i m len u v Hi Hc Hu Hv Hlen H4 Hl; lia|]. apply fwdd_labels, IH.
Qed.

Lemma wordcopy_fwd_dest_aligned_ok fuel :
  0 <= n <= 4 * Z.of_nat fuel → ∃ m', wordcopy_fwd_dest_aligned (Datatypes.S fuel) D S n m0 = Some ((), m') ∧ copied m0 m' D S (8 * n).
Proof.
  intros Hn. unfold wordcopy_fwd_dest_aligned, OPSIZ.
  assert (S mod 8 = ofs ∧ PTR_ALIGN_DOWN S = X) as [-> ->] by (unfold PTR_ALIGN_DOWN; Z.to_euclidean_division_equations; lia).
  change (8 * 8 - sh_1) with sh_2. pose proof (fwdd_loop_ok (Datatypes.S fuel)) as HL.
  destruct (fwdd_labels _ _ (fwdd_loop_ok (Datatypes.S fuel))) as (L1 & L2 & L3 & _).
  assert (copied m0 m0 D S (8 * 0)) as H0 by by apply copied_0.
  assert (n = 0 ∨ 0 < n) as [->|Hpos] by lia; [exists m0; by split|].
  destruct (fwdd_load 0 0 m0 ltac:(lia) ltac:(lia) Hpos H0) as [E0 R0]. destruct (fwdd_load 0 1 m0 ltac:(lia) ltac:(lia) Hpos H0) as [E1 R1].
  replace (X + 8 * 0) with (X + 0 * 8) in E0, R0 by lia. replace (X + 8 * 1) with (X + 1 * 8) in E1, R1 by lia.
  change (ld X 0 m0 = Some (word_at m0 (X + 0 * 8), m0)) in E0. change (ld X 1 m0 = Some (word_at m0 (X + 1 * 8), m0)) in E1.
  assert (∀ j f fuel' d s len, fwdd_label fuel' j f → d = D + 8 * 0 - 8 * (4 - j) → s = X + 8 * (0 + 2) - 8 * (4 - j) →
    len = n - 1 - 0 + (4 - j) → len mod 4 = 0 → 0 < len <= 4 * Z.of_nat fuel' →
    ∃ m', f d s len (word_at m0 (X + 0 * 8)) (word_at m0 (X + 1 * 8)) m0 = Some ((), m') ∧ copied m0 m' D S (8 * n)) as Hgo.
  { intros j f fuel' d s len Hf -> -> -> Hm Hl. by apply Hf. }
  pose proof (Z.mod_pos_bound n 4 ltac:(lia)) as Hr.
  assert (n mod 4 = 0 ∨ n mod 4 = 1 ∨ n mod 4 = 2 ∨ n mod 4 = 3) as Hcase by lia.
  destruct Hcase as [E|[E|[E|E]]]; rewrite E; cbv beta iota zeta; cbn [andb Z.leb Z.compare Pos.compare Pos.compare_cont OP_T_THRES Z.mul].
  - rewrite (proj2 (Z.eqb_neq n 0)), andb_false_r by lia. enter2 (Hgo 3) L3 E0 E1.
  - destruct (Z.eqb_spec (n - 1) 0) as [En|En]; rewrite ?andb_true_r, ?andb_false_r; [|enter2 (Hgo 4) HL E0 E1].
    rewrite (W_step _ _ _ _ _ E0), (W_step _ _ _ _ _ E1).
    destruct (fwdd_store 0 _ _ m0 ltac:(lia) R0 R1 H0) as (m1 & Es & H1). exists m1. unfold st.
    replace (D - 0 * 8 + 0 * 8) with (D + 8 * 0) by lia. replace (8 * (0 + 1)) with (8 * n) in H1 by lia. done.
  - enter2 (Hgo 1) L1 E0 E1.
  - enter2 (Hgo 2) L2 E0 E1.
Qed.
End fwd_dest.

(** ** Backward, both aligned *)

Section bwd.
Context (m0 : mem) (D S n : Z).
Hypothesis m_ok : bytes_ok m0.
Hypothesis D_ok : D mod 8 = 0.
Hypothesis S_ok : S mod 8 = 0.
Hypothesis D_map : readable m0 D (8 * n).
Hypothesis S_map : readable m0 S (8 * n).
Hypothesis safe : S <= D.
Set Default Proof Using "All".

(** The words above word [i] have been copied. *)
Local Notation above m i := (copied m0 m (D + 8 * i) (S + 8 * i) (8 * (n - i))).

Lemma bwd_load i k m : 0 <= k <= i → i <= n → k < n → above m i → load_word (S + 8 * k) m = Some (word_at m0 (S + 8 * k), m) ∨ k = i.
Proof.
  intros Hk Hi Hkn [_ O M _]. destruct (decide (k = i)); [by right|left].
  rewrite (load_word_ok m) by (try (Z.to_euclidean_division_equations; lia); rewrite M; apply S_map; lia).
  do 2 f_equal. unfold word_at. f_equal. apply list_eq_same_length with 8%nat; [apply length_bytes_at..|].
  intros j x y Hj Hx Hy. rewrite bytes_at_lookup in Hx, Hy by done. injection Hx as <-. injection Hy as <-. apply O. lia.
Qed.

Lemma bwd_store i m :
  0 <= i < n → above m (i + 1) → ∃ m', store_word (D + 8 * i) (word_at m0 (S + 8 * i)) m = Some ((), m') ∧ above m' i.
Proof.
  intros Hi Hc. destruct (store_source m0 D S n m_ok D_ok D_map S_map i m (i + 1) n Hi Hc) as (m' & E & H); [by right|].
  exists m'. split; [done|]. by rewrite Z.min_r, Z.max_l in H by lia.
Qed.

(** The state at label [j] with word [i] in the register. *)
Definition bwd_label (fuel : nat) (j : Z) (f : Z → Z → Z → Z → W unit) : Prop :=
  ∀ i m len, 0 <= i < n → above m (i + 1) → len = i + (8 - j) → len mod 8 = 0 → 0 < len <= 8 * Z.of_nat fuel →
  ∃ m', f (D + 8 * i - 8 * (j - 1)) (S + 8 * (i - 1) - 8 * (j - 1)) len (word_at m0 (S + 8 * i)) m = Some ((), m') ∧
    copied m0 m' D S (8 * n).

Lemma bwd_label_step fuel j f g :
  (∀ d s len a, f d s len a = (b ← ld s (j - 1); st d (j - 1) a;; g d s len b)) → 1 <= j <= 8 →
  bwd_label fuel (j - 1) g → bwd_label fuel j f.
Proof.
  intros Hf Hj Hg i m len Hi Hc Hlen H8 Hl. rewrite Hf. unfold ld, st.
  replace (S + 8 * (i - 1) - 8 * (j - 1) + (j - 1) * 8) with (S + 8 * (i - 1)) by lia.
  replace (D + 8 * i - 8 * (j - 1) + (j - 1) * 8) with (D + 8 * i) by lia.
  assert (1 <= i) by (Z.to_euclidean_division_equations; lia).
  destruct (bwd_load (i + 1) (i - 1) m ltac:(lia) ltac:(lia) ltac:(lia) Hc) as [El|?]; [|lia]. rewrite (W_step _ _ _ _ _ El).
  destruct (bwd_store i m Hi Hc) as (m1 & E & H1). rewrite (W_step _ _ _ _ _ E).
  replace (above m1 i) with (above m1 (i - 1 + 1)) in H1 by (f_equal; lia).
  destruct (Hg (i - 1) m1 len ltac:(lia) H1 ltac:(lia) H8 Hl) as (m' & E' & H'). exists m'. split; [|done].
  rewrite <- E'. f_equal; lia.
Qed.

Lemma bwd_label_next fuel loop : bwd_label fuel 8 loop → bwd_label (Datatypes.S fuel) 0 (bwd_next loop).
Proof.
  intros Hg i m len Hi Hc Hlen H8 Hl. unfold bwd_next, OPSIZ. destruct (Z.eqb_spec (len - 8) 0) as [E|E]; cbn [negb].
  - assert (i = 0) as -> by lia. destruct (bwd_store 0 m Hi Hc) as (m1 & E1 & H1). exists m1.
    unfold st. replace (D + 8 * 0 - 8 * (0 - 1) - 8 * 8 + 7 * 8) with (D + 8 * 0) by lia.
    split; [done|]. by rewrite Z.mul_0_r, !Z.add_0_r, Z.sub_0_r in H1.
  - destruct (Hg i m (len - 8)) as (m' & E' & H'); try done; [lia|Z.to_euclidean_division_equations; lia..|].
    exists m'. split; [|done]. rewrite <- E'. f_equal; lia.
Qed.

Lemma bwd_labels fuel loop :
  bwd_label fuel 8 loop →
  bwd_label (Datatypes.S fuel) 1 (bwd_do1 loop) ∧ bwd_label (Datatypes.S fuel) 2 (bwd_do2 loop) ∧
  bwd_label (Datatypes.S fuel) 3 (bwd_do3 loop) ∧ bwd_label (Datatypes.S fuel) 4 (bwd_do4 loop) ∧
  bwd_label (Datatypes.S fuel) 5 (bwd_do5 loop) ∧ bwd_label (Datatypes.S fuel) 6 (bwd_do6 loop) ∧
  bwd_label (Datatypes.S fuel) 7 (bwd_do7 loop) ∧ bwd_label (Datatypes.S fuel) 8 (bwd_do8 loop).
Proof.
  intros H0%bwd_label_next.
  pose proof (bwd_label_step _ 1 (bwd_do1 loop) _ ltac:(done) ltac:(lia) H0) as H1.
  pose proof (bwd_label_step _ 2 (bwd_do2 loop) _ ltac:(done) ltac:(lia) H1) as H2.
  pose proof (bwd_label_step _ 3 (bwd_do3 loop) _ ltac:(done) ltac:(lia) H2) as H3.
  pose proof (bwd_label_step _ 4 (bwd_do4 loop) _ ltac:(done) ltac:(lia) H3) as H4.
  pose proof (bwd_label_step _ 5 (bwd_do5 loop) _ ltac:(done) ltac:(lia) H4) as H5.
  pose proof (bwd_label_step _ 6 (bwd_do6 loop) _ ltac:(done) ltac:(lia) H5) as H6.
  pose proof (bwd_label_step _ 7 (bwd_do7 loop) _ ltac:(done) ltac:(lia) H6) as H7.
  pose proof (bwd_label_step _ 8 (bwd_do8 loop) _ ltac:(done) ltac:(lia) H7) as H8. done.
Qed.

Lemma bwd_loop_ok fuel : bwd_label fuel 8 (bwd_loop fuel).
Proof.
  induction fuel as [|fuel IH]; [intros i m len Hi Hc Hlen H8 Hl; lia|]. apply bwd_labels, IH.
Qed.

Lemma wordcopy_bwd_aligned_ok fuel :
  0 <= n <= 8 * Z.of_nat fuel →
  ∃ m', wordcopy_bwd_aligned (Datatypes.S fuel) (D + 8 * n) (S + 8 * n) n m0 = Some ((), m') ∧ copied m0 m' D S (8 * n).
Proof.
  intros Hn. pose proof (bwd_loop_ok (Datatypes.S fuel)) as HL.
  destruct (bwd_labels _ _ (bwd_loop_ok (Datatypes.S fuel))) as (L1 & L2 & L3 & L4 & L5 & L6 & L7 & _).
  assert (n = 0 ∨ 0 < n) as [->|Hpos] by lia; [exists m0; by split; [|apply copied_0]|].
  assert (above m0 (n - 1 + 1)) as H0 by (apply copied_0; lia).
  assert (∀ s k, s + k * 8 = S + 8 * (n - 1) → ld s k m0 = Some (word_at m0 (S + 8 * (n - 1)), m0)) as Hld.
  { intros s k E. unfold ld. rewrite E. apply load_word_ok; [Z.to_euclidean_division_equations; lia|]. apply S_map. lia. }
  unfold wordcopy_bwd_aligned, OPSIZ. pose proof (Z.mod_pos_bound n 8 ltac:(lia)) as Hr.
  assert (∀ j f fuel' d s len, bwd_label fuel' j f → d = D + 8 * (n - 1) - 8 * (j - 1) → s = S + 8 * (n - 1 - 1) - 8 * (j - 1) →
    len = n - 1 + (8 - j) → len mod 8 = 0 → 0 < len <= 8 * Z.of_nat fuel' →
    ∃ m', f d s len (word_at m0 (S + 8 * (n - 1))) m0 = Some ((), m') ∧ copied m0 m' D S (8 * n)) as Hgo.
  { intros j f fuel' d s len Hf -> -> -> Hm Hl. apply Hf; [lia|done..]. }
  assert (n mod 8 = 0 ∨ n mod 8 = 1 ∨ n mod 8 = 2 ∨ n mod 8 = 3 ∨ n mod 8 = 4 ∨ n mod 8 = 5 ∨ n mod 8 = 6 ∨ n mod 8 = 7) as Hcase by lia.
  destruct Hcase as [E|[E|[E|[E|[E|[E|[E|E]]]]]]]; rewrite E; cbv beta iota zeta; cbn [andb Z.leb Z.compare Pos.compare Pos.compare_cont OP_T_THRES Z.mul].
  - rewrite (proj2 (Z.eqb_neq n 0)), andb_false_r by lia. enter (Hgo 7) L7 (Hld (S + 8 * n - 8 * 8) 7 ltac:(lia)).
  - destruct (Z.eqb_spec (n - 1) 0) as [E1|E1]; rewrite ?andb_true_r, ?andb_false_r; [|enter (Hgo 8) HL (Hld (S + 8 * n - 9 * 8) 8 ltac:(lia))].
    rewrite (W_step _ _ _ _ _ (Hld (S + 8 * n - 9 * 8) 8 ltac:(lia))).
    destruct (bwd_store (n - 1) m0 ltac:(lia) H0) as (m1 & Es & H1). exists m1. unfold st.
    replace (D + 8 * n - 8 * 8 + 7 * 8) with (D + 8 * (n - 1)) by lia. split; [done|].
    by rewrite E1, Z.mul_0_r, !Z.add_0_r, Z.sub_0_r in H1.
  - enter (Hgo 1) L1 (Hld (S + 8 * n - 2 * 8) 1 ltac:(lia)).
  - enter (Hgo 2) L2 (Hld (S + 8 * n - 3 * 8) 2 ltac:(lia)).
  - enter (Hgo 3) L3 (Hld (S + 8 * n - 4 * 8) 3 ltac:(lia)).
  - enter (Hgo 4) L4 (Hld (S + 8 * n - 5 * 8) 4 ltac:(lia)).
  - enter (Hgo 5) L5 (Hld (S + 8 * n - 6 * 8) 5 ltac:(lia)).
  - enter (Hgo 6) L6 (Hld (S + 8 * n - 7 * 8) 6 ltac:(lia)).
Qed.
End bwd.

(** ** Backward, the source not aligned *)

Section bwd_dest.
Context (m0 : mem) (D X ofs n : Z).
Hypothesis m_ok : bytes_ok m0.
Hypothesis D_ok : D mod 8 = 0.
Hypothesis X_ok : X mod 8 = 0.
Hypothesis ofs_ok : 0 < ofs < 8.
Local Notation S := (X + ofs).
Hypothesis D_map : readable m0 D (8 * n).
Hypothesis S_map : readable m0 S (8 * n).
Hypothesis safe : S <= D.
Set Default Proof Using "All".
Local Notation reg := (reg m0 X ofs n).
Local Notation sh_1 := (8 * ofs).
Local Notation sh_2 := (64 - 8 * ofs).
Local Notation above m i := (copied m0 m (D + 8 * i) (S + 8 * i) (8 * (n - i))).

Lemma bwdd_load i k m :
  0 <= k < i → k <= n → 0 < n → above m i → load_word (X + 8 * k) m = Some (word_at m (X + 8 * k), m) ∧ reg k (word_at m (X + 8 * k)).
Proof.
  intros Hk Hkn Hn Hc. apply load_reg; try done; [lia|by eapply copied_ok|apply Hc|].
  intros y Hy Hs. apply Hc. lia.
Qed.

Lemma bwdd_store i u v m :
  0 <= i < n → reg i u → reg (i + 1) v → above m (i + 1) →
  ∃ m', store_word (D + 8 * i) (MERGE u sh_1 v sh_2) m = Some ((), m') ∧ above m' i.
Proof.
  intros Hi Hu Hv Hc. rewrite (merge_regs m0 X ofs n m_ok X_ok ofs_ok S_map i) by done.
  destruct (store_source m0 D S n m_ok D_ok D_map S_map i m (i + 1) n Hi Hc) as (m' & E & H); [by right|].
  exists m'. split; [done|]. by rewrite Z.min_r, Z.max_l in H by lia.
Qed.

(** The state at label [j] with words [i] and [i + 1] in the registers. *)
Definition bwdd_label (fuel : nat) (j : Z) (f : Z → Z → Z → Z → Z → W unit) : Prop :=
  ∀ i m len u v, 0 <= i < n → above m (i + 1) → reg i u → reg (i + 1) v →
  len = i + (4 - j) → len mod 4 = 0 → 0 < len <= 4 * Z.of_nat fuel →
  ∃ m', f (D + 8 * i - 8 * (j - 1)) (X + 8 * (i - 1) - 8 * (j - 1)) len u v m = Some ((), m') ∧ copied m0 m' D S (8 * n).

Lemma bwdd_label_step fuel j f g :
  (∀ d s len a b, f d s len a b = (c ← ld s (j - 1); st d (j - 1) (MERGE a sh_1 b sh_2);; g d s len c a)) → 1 <= j <= 4 →
  bwdd_label fuel (j - 1) g → bwdd_label fuel j f.
Proof.
  intros Hf Hj Hg i m len u v Hi Hc Hu Hv Hlen H4 Hl. rewrite Hf. unfold ld, st.
  replace (X + 8 * (i - 1) - 8 * (j - 1) + (j - 1) * 8) with (X + 8 * (i - 1)) by lia.
  replace (D + 8 * i - 8 * (j - 1) + (j - 1) * 8) with (D + 8 * i) by lia.
  assert (1 <= i) by (Z.to_euclidean_division_equations; lia).
  destruct (bwdd_load (i + 1) (i - 1) m ltac:(lia) ltac:(lia) ltac:(lia) Hc) as [El Hr]. rewrite (W_step _ _ _ _ _ El).
  destruct (bwdd_store i u v m Hi Hu Hv Hc) as (m1 & E & H1). rewrite (W_step _ _ _ _ _ E).
  replace (above m1 i) with (above m1 (i - 1 + 1)) in H1 by (f_equal; lia).
  replace i with (i - 1 + 1) in Hu by lia.
  destruct (Hg (i - 1) m1 len _ _ ltac:(lia) H1 Hr Hu ltac:(lia) H4 Hl) as (m' & E' & H'). exists m'. split; [|done].
  rewrite <- E'. f_equal; lia.
Qed.

Lemma bwdd_label_next fuel loop : bwdd_label fuel 4 loop → bwdd_label (Datatypes.S fuel) 0 (bwdd_next loop sh_1 sh_2).
Proof.
  intros Hg i m len u v Hi Hc Hu Hv Hlen H4 Hl. unfold bwdd_next, OPSIZ. destruct (Z.eqb_spec (len - 4) 0) as [E|E]; cbn [negb].
  - assert (i = 0) as -> by lia. destruct (bwdd_store 0 u v m Hi Hu Hv Hc) as (m1 & E1 & H1). exists m1.
    unfold st. replace (D + 8 * 0 - 8 * (0 - 1) - 4 * 8 + 3 * 8) with (D + 8 * 0) by lia.
    split; [done|]. by rewrite Z.mul_0_r, !Z.add_0_r, Z.sub_0_r in H1.
  - destruct (Hg i m (len - 4) u v) as (m' & E' & H'); try done; [lia|Z.to_euclidean_division_equations; lia..|].
    exists m'. split; [|done]. rewrite <- E'. f_equal; lia.
Qed.

Lemma bwdd_labels fuel loop :
  bwdd_label fuel 4 loop →
  bwdd_label (Datatypes.S fuel) 1 (bwdd_do1 loop sh_1 sh_2) ∧ bwdd_label (Datatypes.S fuel) 2 (bwdd_do2 loop sh_1 sh_2) ∧
  bwdd_label (Datatypes.S fuel) 3 (bwdd_do3 loop sh_1 sh_2) ∧ bwdd_label (Datatypes.S fuel) 4 (bwdd_do4 loop sh_1 sh_2).
Proof.
  intros H0%bwdd_label_next.
  pose proof (bwdd_label_step _ 1 (bwdd_do1 loop sh_1 sh_2) _ ltac:(done) ltac:(lia) H0) as H1.
  pose proof (bwdd_label_step _ 2 (bwdd_do2 loop sh_1 sh_2) _ ltac:(done) ltac:(lia) H1) as H2.
  pose proof (bwdd_label_step _ 3 (bwdd_do3 loop sh_1 sh_2) _ ltac:(done) ltac:(lia) H2) as H3.
  pose proof (bwdd_label_step _ 4 (bwdd_do4 loop sh_1 sh_2) _ ltac:(done) ltac:(lia) H3) as H4. done.
Qed.

Lemma bwdd_loop_ok fuel : bwdd_label fuel 4 (bwdd_loop sh_1 sh_2 fuel).
Proof.
  induction fuel as [|fuel IH]; [intros i m len u v Hi Hc Hu Hv Hlen H4 Hl; lia|]. apply bwdd_labels, IH.
Qed.

Lemma wordcopy_bwd_dest_aligned_ok fuel :
  0 <= n <= 4 * Z.of_nat fuel →
  ∃ m', wordcopy_bwd_dest_aligned (Datatypes.S fuel) (D + 8 * n) (S + 8 * n) n m0 = Some ((), m') ∧ copied m0 m' D S (8 * n).
Proof.
  intros Hn. unfold wordcopy_bwd_dest_aligned, OPSIZ.
  assert ((S + 8 * n) mod 8 = ofs ∧ PTR_ALIGN_DOWN (S + 8 * n) = X + 8 * n) as [-> ->] by (unfold PTR_ALIGN_DOWN; Z.to_euclidean_division_equations; lia).
  change (8 * 8 - sh_1) with sh_2. pose proof (bwdd_loop_ok (Datatypes.S fuel)) as HL.
  destruct (bwdd_labels _ _ (bwdd_loop_ok (Datatypes.S fuel))) as (L1 & L2 & L3 & _).
  assert (n = 0 ∨ 0 < n) as [->|Hpos] by lia; [exists m0; by split; [|apply copied_0]|].
  assert (above m0 (n - 1 + 1)) as H0 by (apply copied_0; lia). assert (above m0 (n + 1)) as H0' by (apply copied_0; lia).
  destruct (bwdd_load (n + 1) n m0 ltac:(lia) ltac:(lia) Hpos H0') as [_ R1]. replace n with (n - 1 + 1) in R1 at 2 by lia.
  destruct (bwdd_load (n + 1) (n - 1) m0 ltac:(lia) ltac:(lia) Hpos H0') as [_ R0].
  assert (∀ k i s, 0 <= k <= n → s + i * 8 = X + 8 * k → ld s i m0 = Some (word_at m0 (X + 8 * k), m0)) as Hld.
  { intros k i s Hk E. unfold ld. rewrite E. apply (bwdd_load (n + 1)); [lia..|done]. }
  assert (∀ j f fuel' d s len, bwdd_label fuel' j f → d = D + 8 * (n - 1) - 8 * (j - 1) → s = X + 8 * (n - 1 - 1) - 8 * (j - 1) →
    len = n - 1 + (4 - j) → len mod 4 = 0 → 0 < len <= 4 * Z.of_nat fuel' →
    ∃ m', f d s len (word_at m0 (X + 8 * (n - 1))) (word_at m0 (X + 8 * n)) m0 = Some ((), m') ∧ copied m0 m' D S (8 * n)) as Hgo.
  { intros j f fuel' d s len Hf -> -> -> Hm Hl. apply Hf; [lia|done..]. }
  pose proof (Z.mod_pos_bound n 4 ltac:(lia)) as Hr.
  assert (n mod 4 = 0 ∨ n mod 4 = 1 ∨ n mod 4 = 2 ∨ n mod 4 = 3) as Hcase by lia.
  destruct Hcase as [E|[E|[E|E]]]; rewrite E; cbv beta iota zeta; cbn [andb Z.leb Z.compare Pos.compare Pos.compare_cont OP_T_THRES Z.mul].
  - rewrite (proj2 (Z.eqb_neq n 0)), andb_false_r by lia.
    enter2 (Hgo 3) L3 (Hld n 4 (X + 8 * n + 8 - 5 * 8) ltac:(lia) ltac:(lia)) (Hld (n - 1) 3 (X + 8 * n + 8 - 5 * 8) ltac:(lia) ltac:(lia)).
  - rewrite (W_step _ _ _ _ _ (Hld n 5 (X + 8 * n + 8 - 6 * 8) ltac:(lia) ltac:(lia))).
    rewrite (W_step _ _ _ _ _ (Hld (n - 1) 4 (X + 8 * n + 8 - 6 * 8) ltac:(lia) ltac:(lia))).
    destruct (Z.eqb_spec (n - 1) 0) as [En|En]; rewrite ?andb_true_r, ?andb_false_r;
      [|eapply (Hgo 4); [exact HL|Z.to_euclidean_division_equations; lia..]].
    destruct (bwdd_store (n - 1) _ _ m0 ltac:(lia) R0 R1 H0) as (m1 & Es & H1). exists m1. unfold st.
    replace (D + 8 * n - 4 * 8 + 3 * 8) with (D + 8 * (n - 1)) by lia. split; [done|].
    by rewrite En, Z.mul_0_r, !Z.add_0_r, Z.sub_0_r in H1.
  - enter2 (Hgo 1) L1 (Hld n 2 (X + 8 * n + 8 - 3 * 8) ltac:(lia) ltac:(lia)) (Hld (n - 1) 1 (X + 8 * n + 8 - 3 * 8) ltac:(lia) ltac:(lia)).
  - enter2 (Hgo 2) L2 (Hld n 3 (X + 8 * n + 8 - 4 * 8) ltac:(lia) ltac:(lia)) (Hld (n - 1) 2 (X + 8 * n + 8 - 4 * 8) ltac:(lia) ltac:(lia)).
Qed.
End bwd_dest.

(** ** The bytes before and after *)

Lemma copied_byte m d s : bytes_ok m → copied m (put_byte m d (byte m s)) d s 1.
Proof.
  intros Hm. destruct (put_byte_wrote m d (byte m s) (Hm s)) as [I O M C]. split; [| |done..].
  - intros j Hj. assert (j = 0) as -> by lia. rewrite (Z.add_0_r s). exact (I 0%nat (byte m s) eq_refl).
  - intros x Hx. by apply O.
Qed.

Lemma byte_copy_fwd_ok k m d s :
  bytes_ok m → readable m d (Z.of_nat k) → readable m s (Z.of_nat k) → d <= s ∨ s + Z.of_nat k <= d →
  ∃ m', BYTE_COPY_FWD k d s m = Some ((d + Z.of_nat k, s + Z.of_nat k), m') ∧ copied m m' d s (Z.of_nat k).
Proof.
  revert m d s. induction k as [|k IH]; intros m d s Hm Hd Hs Hsafe.
  { exists m. rewrite !Z.add_0_r. split; [done|]. by apply copied_0. }
  cbn [BYTE_COPY_FWD]. rewrite (W_step _ _ _ _ _ (load_byte_ok m s ltac:(apply Hs; lia))).
  rewrite (W_step _ _ _ _ _ (store_byte_ok m d _ ltac:(apply Hd; lia))). pose proof (copied_byte m d s Hm) as H1.
  destruct (IH (put_byte m d (byte m s)) (d + 1) (s + 1)) as (m' & E & H2).
  - by eapply copied_ok.
  - eapply copied_readable; [exact H1|]. intros x Hx. apply Hd. lia.
  - eapply copied_readable; [exact H1|]. intros x Hx. apply Hs. lia.
  - lia.
  - exists m'. rewrite E. split; [do 3 f_equal; lia|]. replace (Z.of_nat (S k)) with (1 + Z.of_nat k) by lia.
    eapply copied_fwd; [lia..|exact H1|exact H2].
Qed.

Lemma byte_copy_bwd_ok k m d s :
  bytes_ok m → readable m d (Z.of_nat k) → readable m s (Z.of_nat k) → s <= d →
  ∃ m', BYTE_COPY_BWD k (d + Z.of_nat k) (s + Z.of_nat k) m = Some ((d, s), m') ∧ copied m m' d s (Z.of_nat k).
Proof.
  revert m. induction k as [|k IH]; intros m Hm Hd Hs Hsafe.
  { exists m. rewrite !Z.add_0_r. split; [done|]. by apply copied_0. }
  cbn [BYTE_COPY_BWD]. replace (d + Z.of_nat (S k) - 1) with (d + Z.of_nat k) by lia. replace (s + Z.of_nat (S k) - 1) with (s + Z.of_nat k) by lia.
  rewrite (W_step _ _ _ _ _ (load_byte_ok m (s + Z.of_nat k) ltac:(apply Hs; lia))).
  rewrite (W_step _ _ _ _ _ (store_byte_ok m (d + Z.of_nat k) _ ltac:(apply Hd; lia))).
  pose proof (copied_byte m (d + Z.of_nat k) (s + Z.of_nat k) Hm) as H1.
  destruct (IH (put_byte m (d + Z.of_nat k) (byte m (s + Z.of_nat k)))) as (m' & E & H2).
  - by eapply copied_ok.
  - eapply copied_readable; [exact H1|]. intros x Hx. apply Hd. lia.
  - eapply copied_readable; [exact H1|]. intros x Hx. apply Hs. lia.
  - done.
  - exists m'. split; [done|]. replace (Z.of_nat (S k)) with (Z.of_nat k + 1) by lia.
    eapply copied_bwd; [lia..|exact H1|exact H2].
Qed.

(** ** The words between them *)

Lemma align_down_div n : PTR_ALIGN_DOWN n = 8 * (n / 8).
Proof. done. Qed.

Lemma word_copy_fwd_ok fuel m d s n :
  bytes_ok m → d mod 8 = 0 → 0 <= n <= 32 * Z.of_nat fuel → readable m d n → readable m s n → d <= s ∨ s + n <= d →
  ∃ m', WORD_COPY_FWD (Datatypes.S fuel) d s n m = Some ((d + 8 * (n / 8), s + 8 * (n / 8), n mod 8), m') ∧ copied m m' d s (8 * (n / 8)).
Proof.
  intros Hm Hd Hn Hrd Hrs Hsafe. unfold WORD_COPY_FWD, OPSIZ. rewrite align_down_div.
  assert (0 <= n / 8 <= 4 * Z.of_nat fuel ∧ 8 * (n / 8) <= n) as [Hq Hqn] by (Z.to_euclidean_division_equations; lia).
  set (q := n / 8) in *.
  assert (readable m d (8 * q)) as Hrd' by (intros x Hx; apply Hrd; lia). assert (readable m s (8 * q)) as Hrs' by (intros x Hx; apply Hrs; lia).
  assert (d <= s ∨ s + 8 * q <= d) as Hsafe' by lia.
  assert (∃ m', (if s mod 8 =? 0 then wordcopy_fwd_aligned (Datatypes.S fuel) d s q else wordcopy_fwd_dest_aligned (Datatypes.S fuel) d s q) m =
    Some ((), m') ∧ copied m m' d s (8 * q)) as (m' & E & H); [|exists m'; by rewrite (W_step _ _ _ _ _ E)].
  destruct (Z.eqb_spec (s mod 8) 0) as [E|E].
  - apply wordcopy_fwd_aligned_ok; try done. lia.
  - destruct (split_ofs s E) as (X & k & -> & HX & Hk & _). apply wordcopy_fwd_dest_aligned_ok; try done; lia.
Qed.

Lemma word_copy_bwd_ok fuel m d s n :
  bytes_ok m → (d + n) mod 8 = 0 → 0 <= n <= 32 * Z.of_nat fuel → readable m d n → readable m s n → s <= d →
  let r := n mod 8 in
  ∃ m', WORD_COPY_BWD (Datatypes.S fuel) (d + n) (s + n) n m = Some ((d + r, s + r, r), m') ∧ copied m m' (d + r) (s + r) (n - r).
Proof.
  intros Hm Hd Hn Hrd Hrs Hsafe r. unfold WORD_COPY_BWD, OPSIZ. rewrite align_down_div. fold r.
  assert (0 <= n / 8 <= 4 * Z.of_nat fuel ∧ n = 8 * (n / 8) + r ∧ 0 <= r < 8) as (Hq & Hqn & Hr) by (unfold r; Z.to_euclidean_division_equations; lia).
  set (q := n / 8) in *. replace (d + n) with (d + r + 8 * q) by lia. replace (s + n) with (s + r + 8 * q) by lia. replace (n - r) with (8 * q) by lia.
  assert (readable m (d + r) (8 * q)) as Hrd' by (intros x Hx; apply Hrd; lia). assert (readable m (s + r) (8 * q)) as Hrs' by (intros x Hx; apply Hrs; lia).
  assert ((d + r) mod 8 = 0) as Hdr by (Z.to_euclidean_division_equations; lia).
  assert (∃ m', (if (s + r + 8 * q) mod 8 =? 0 then wordcopy_bwd_aligned (Datatypes.S fuel) (d + r + 8 * q) (s + r + 8 * q) q
                 else wordcopy_bwd_dest_aligned (Datatypes.S fuel) (d + r + 8 * q) (s + r + 8 * q) q) m =
    Some ((), m') ∧ copied m m' (d + r) (s + r) (8 * q)) as (m' & E & H).
  2:{ exists m'. rewrite (W_step _ _ _ _ _ E). split; [|done]. unfold mret, W_ret. do 3 f_equal; f_equal; lia. }
  destruct (Z.eqb_spec ((s + r + 8 * q) mod 8) 0) as [E|E].
  - apply wordcopy_bwd_aligned_ok; try done; [Z.to_euclidean_division_equations; lia|lia..].
  - destruct (split_ofs (s + r)) as (X & k & E' & HX & Hk & _); [Z.to_euclidean_division_equations; lia|]. rewrite E' in *.
    apply wordcopy_bwd_dest_aligned_ok; try done; lia.
Qed.

(** ** The functions *)

Section copy.
Context (m : mem) (d s n : Z) (fuel : nat).
Hypothesis m_ok : bytes_ok m.
Hypothesis n_ok : 0 <= n <= 32 * Z.of_nat fuel.
Hypothesis d_map : readable m d n.
Hypothesis s_map : readable m s n.
Set Default Proof Using "All".

Lemma copy_fwd_ok : d <= s ∨ s + n <= d → ∃ m', copy_fwd (S fuel) d s n m = Some ((), m') ∧ copied m m' d s n.
Proof.
  intros Hsafe. unfold copy_fwd, OP_T_THRES, OPSIZ.
  assert (∀ m1 k, 0 <= k <= n → copied m m1 d s k →
    ∃ m', (BYTE_COPY_FWD (Z.to_nat (n - k)) (d + k) (s + k);; mret ()) m1 = Some ((), m') ∧ copied m m' d s n) as Htail.
  { intros m1 k Hk H1. destruct (byte_copy_fwd_ok (Z.to_nat (n - k)) m1 (d + k) (s + k)) as (m' & E & H2).
    - by eapply copied_ok.
    - eapply copied_readable; [exact H1|]. intros x Hx. apply d_map. lia.
    - eapply copied_readable; [exact H1|]. intros x Hx. apply s_map. lia.
    - lia.
    - exists m'. rewrite (W_step _ _ _ _ _ E). split; [done|]. rewrite Z2Nat.id in H2 by lia. replace n with (k + (n - k)) by lia.
      eapply copied_fwd; [lia..|exact H1|exact H2]. }
  destruct (Z.leb_spec 16 n) as [H16|H16].
  2:{ rewrite (W_step _ _ _ (d, s, n) m eq_refl). cbn beta iota.
      specialize (Htail m 0 ltac:(lia) ltac:(by apply copied_0)). by rewrite Z.sub_0_r, !Z.add_0_r in Htail. }
  destruct (to_align d) as [Hk Ha]. set (k := u64 (- d) mod 8) in *. cbv zeta.
  destruct (byte_copy_fwd_ok (Z.to_nat k) m d s) as (m1 & E1 & H1); [done|intros x Hx; apply d_map; lia|intros x Hx; apply s_map; lia|lia|].
  rewrite Z2Nat.id in E1, H1 by lia.
  destruct (word_copy_fwd_ok fuel m1 (d + k) (s + k) (n - k)) as (m2 & E2 & H2); [by eapply copied_ok|done|lia| | |lia|].
  { eapply copied_readable; [exact H1|]. intros x Hx. apply d_map. lia. }
  { eapply copied_readable; [exact H1|]. intros x Hx. apply s_map. lia. }
  rewrite W_assoc, (W_step _ _ _ _ _ E1). cbn beta iota. rewrite (W_step _ _ _ _ _ E2). cbn beta iota.
  assert (n - k = 8 * ((n - k) / 8) + (n - k) mod 8 ∧ 0 <= (n - k) / 8 ∧ 0 <= (n - k) mod 8) as (Eq & Hq & Hr) by (Z.to_euclidean_division_equations; lia).
  set (q := (n - k) / 8) in *. destruct (Htail m2 (k + 8 * q)) as (m' & E' & H'); [lia| |].
  - eapply copied_fwd; [lia..| |exact H1|exact H2]. lia.
  - exists m'. split; [|done]. rewrite <- E'. replace (n - (k + 8 * q)) with ((n - k) mod 8) by lia.
    replace (d + (k + 8 * q)) with (d + k + 8 * q) by lia. by replace (s + (k + 8 * q)) with (s + k + 8 * q) by lia.
Qed.

Lemma copy_bwd_ok : s <= d → ∃ m', copy_bwd (S fuel) d s n m = Some ((), m') ∧ copied m m' d s n.
Proof.
  intros Hsafe. unfold copy_bwd, OP_T_THRES, OPSIZ. cbv zeta.
  assert (∀ m1 k, 0 <= k <= n → copied m m1 (d + k) (s + k) (n - k) →
    ∃ m', (BYTE_COPY_BWD (Z.to_nat k) (d + k) (s + k);; mret ()) m1 = Some ((), m') ∧ copied m m' d s n) as Htail.
  { intros m1 k Hk H1. destruct (byte_copy_bwd_ok (Z.to_nat k) m1 d s) as (m' & E & H2).
    - by eapply copied_ok.
    - eapply copied_readable; [exact H1|]. intros x Hx. apply d_map. lia.
    - eapply copied_readable; [exact H1|]. intros x Hx. apply s_map. lia.
    - lia.
    - exists m'. rewrite Z2Nat.id in E, H2 by lia. rewrite (W_step _ _ _ _ _ E). split; [done|]. replace n with (k + (n - k)) by lia.
      eapply copied_bwd; [lia..|exact H1|exact H2]. }
  destruct (Z.leb_spec 16 n) as [H16|H16].
  2:{ rewrite (W_step _ _ _ (d + n, s + n, n) m eq_refl). cbn beta iota. apply Htail; [lia|]. apply copied_0. lia. }
  assert (0 <= (d + n) mod 8 < 8) as Hk by (apply Z.mod_pos_bound; lia). set (k := (d + n) mod 8) in *.
  destruct (byte_copy_bwd_ok (Z.to_nat k) m (d + (n - k)) (s + (n - k))) as (m1 & E1 & H1);
    [done|intros x Hx; apply d_map; lia|intros x Hx; apply s_map; lia|lia|].
  rewrite Z2Nat.id in E1, H1 by lia. replace (d + (n - k) + k) with (d + n) in E1 by lia. replace (s + (n - k) + k) with (s + n) in E1 by lia.
  destruct (word_copy_bwd_ok fuel m1 d s (n - k)) as (m2 & E2 & H2); [by eapply copied_ok| |lia| | |lia|].
  { unfold k. Z.to_euclidean_division_equations; lia. }
  { eapply copied_readable; [exact H1|]. intros x Hx. apply d_map. lia. }
  { eapply copied_readable; [exact H1|]. intros x Hx. apply s_map. lia. }
  rewrite W_assoc, (W_step _ _ _ _ _ E1). cbn beta iota. rewrite (W_step _ _ _ _ _ E2). cbn beta iota.
  assert (0 <= (n - k) mod 8 <= n - k) as Hr by (Z.to_euclidean_division_equations; lia). set (r := (n - k) mod 8) in *.
  apply Htail; [lia|]. replace (n - r) with (n - k - r + k) by lia.
  eapply copied_bwd; [lia..| |exact H2]. replace (d + r + (n - k - r)) with (d + (n - k)) by lia. by replace (s + r + (n - k - r)) with (s + (n - k)) by lia.
Qed.

Lemma memmove_ok :
  0 <= d → d + n <= 2 ^ 64 → 0 <= s → s + n <= 2 ^ 64 → ∃ m', memmove (S fuel) d s n m = Some (d, m') ∧ copied m m' d s n.
Proof.
  intros Hd Hdn Hs Hsn. unfold memmove.
  assert (n = 0 ∨ 0 < n) as [Hn0|Hpos] by lia.
  { destruct (Z.leb_spec n (u64 (d - s))) as [_|Hlt]; [|pose proof (u64_range (d - s)) as [? _]; lia].
    destruct copy_fwd_ok as (m' & E & H); [lia|]. exists m'. by rewrite (W_step _ _ _ _ _ E). }
  assert ((n <=? u64 (d - s)) = bool_decide (d < s ∨ s + n <= d)) as ->.
  { destruct (Z.le_gt_cases s d).
    - rewrite u64_small by (unfold is_u64; lia). case_bool_decide; [apply Z.leb_le|apply Z.leb_gt]; lia.
    - rewrite bool_decide_eq_true_2 by lia. apply Z.leb_le.
      assert (u64 (d - s) = d - s + 2 ^ 64) as ->; [|lia]. unfold wrapu. rewrite <- (Z_mod_plus_full _ 1). rewrite Z.mod_small; lia. }
  case_bool_decide as Hc.
  - destruct copy_fwd_ok as (m' & E & H); [lia|]. exists m'. by rewrite (W_step _ _ _ _ _ E).
  - destruct copy_bwd_ok as (m' & E & H); [lia|]. exists m'. by rewrite (W_step _ _ _ _ _ E).
Qed.

Lemma memcpy_ok : s + n <= d ∨ d + n <= s → ∃ m', memcpy (S fuel) d s n m = Some (d, m') ∧ copied m m' d s n.
Proof.
  intros Hsafe. unfold memcpy. destruct copy_fwd_ok as (m' & E & H); [lia|]. exists m'. by rewrite (W_step _ _ _ _ _ E).
Qed.
End copy.
