(* ===== verification/MemSpec.v ===== *)
(** * MemSpec: [memset] fills, [memcmp] compares byte by byte *)

From S2P Require Import Prelude Mem Logic CStr Flat Fza FzaSpec WordStr WordStrSpec StrCmpSpec StrCpySpec MemFn MoveSpec.
Local Open Scope Z_scope.

(** ** [memset] *)

Lemma spread_bytes c : spread c = dec_le (replicate 8 (u8 c)).
Proof.
  rewrite <- repeat_bytes_dec by apply u8_range.
  assert (spread (u8 c) = repeat_bytes (u8 c)) as E.
  { apply Z.eqb_eq. pose proof (u8_range c) as Hr. revert Hr. generalize (u8 c). intros b Hb. revert b Hb.
    apply (byte_cases (λ b, spread b =? repeat_bytes b)). by vm_compute. }
  rewrite <- E. unfold spread. assert (u8 (u8 c) = u8 c) as -> by (apply (wrapu_small 8), u8_range). done.
Qed.

Section set.
Context (c : Z).
Local Notation b := (u8 c).

Lemma fill_ok n : bytes (replicate n b).
Proof. apply Forall_replicate, u8_range. Qed.

Lemma set_byte_ok m d : mapped m (page d) = true → ∃ m', store_byte d c m = Some ((), m') ∧ wrote m m' d [b].
Proof.
  intros Hd. exists (put_byte m d c). split; [by apply store_byte_ok|].
  assert (put_byte m d c = put_byte m d b) as -> by (unfold put_byte; by rewrite (wrapu_small 8 b) by apply u8_range).
  apply put_byte_wrote, u8_range.
Qed.

Lemma wrote_fill m m1 m2 d n k :
  wrote m m1 d (replicate n b) → wrote m1 m2 (d + Z.of_nat n) (replicate k b) → wrote m m2 d (replicate (n + k) b).
Proof. intros H1 H2. rewrite replicate_add. eapply wrote_app; [exact H1|]. by rewrite length_replicate. Qed.

Lemma set_bytes_ok n m d :
  readable m d (Z.of_nat n) → ∃ m', set_bytes n d c m = Some ((), m') ∧ wrote m m' d (replicate n b).
Proof.
  revert m d. induction n as [|n IH]; intros m d Hd; [exists m; split; [done|apply wrote_nil]|]. cbn [set_bytes].
  destruct (set_byte_ok m d) as (m1 & E & H1); [apply Hd; lia|]. rewrite (W_step _ _ _ _ _ E).
  destruct (IH m1 (d + 1)) as (m' & E' & H'); [eapply wrote_readable; [exact H1|]; intros x Hx; apply Hd; lia|].
  exists m'. split; [done|]. by apply (wrote_fill m m1 m' d 1 n).
Qed.

Lemma set_align_ok fuel m d len :
  (- d) mod 8 <= Z.of_nat fuel → readable m d ((- d) mod 8) →
  ∃ m', set_align fuel d len c m = Some ((d + (- d) mod 8, len - (- d) mod 8), m') ∧ wrote m m' d (replicate (Z.to_nat ((- d) mod 8)) b).
Proof.
  revert m d len. induction fuel as [|fuel IH]; intros m d len Hf Hd; cbn [set_align]; unfold OPSIZ.
  { assert ((- d) mod 8 = 0 ∧ d mod 8 = 0) as [-> ->] by (Z.to_euclidean_division_equations; lia).
    exists m. rewrite Z.add_0_r, Z.sub_0_r. split; [done|apply wrote_nil]. }
  destruct (Z.eqb_spec (d mod 8) 0) as [E|E].
  { assert ((- d) mod 8 = 0) as -> by (Z.to_euclidean_division_equations; lia).
    exists m. rewrite Z.add_0_r, Z.sub_0_r. split; [done|apply wrote_nil]. }
  assert ((- d) mod 8 = 1 + (- (d + 1)) mod 8 ∧ 0 <= (- (d + 1)) mod 8) as [Ek Hk] by (Z.to_euclidean_division_equations; lia).
  destruct (set_byte_ok m d) as (m1 & E1 & H1); [apply Hd; lia|]. rewrite (W_step _ _ _ _ _ E1).
  destruct (IH m1 (d + 1) (len - 1)) as (m' & E' & H'); [lia|eapply wrote_readable; [exact H1|]; intros x Hx; apply Hd; lia|].
  exists m'. rewrite E', Ek. split; [do 3 f_equal; lia|].
  replace (Z.to_nat (1 + (- (d + 1)) mod 8)) with (1 + Z.to_nat ((- (d + 1)) mod 8))%nat by lia. by apply (wrote_fill m m1 m' d 1).
Qed.

(** One more word of the same byte. *)
Lemma set_word_ok m m1 d k :
  d mod 8 = 0 → readable m d (8 * k + 8) → 0 <= k → wrote m m1 d (replicate (Z.to_nat (8 * k)) b) →
  ∃ m2, st d k (spread c) m1 = Some ((), m2) ∧ wrote m m2 d (replicate (Z.to_nat (8 * (k + 1))) b).
Proof.
  intros Hd Hr Hk H1. unfold st. exists (put_word m1 (d + k * 8) (spread c)). split.
  { apply store_word_ok; [Z.to_euclidean_division_equations; lia|]. rewrite (wr_mapped _ _ _ _ H1). apply Hr. lia. }
  rewrite spread_bytes. replace (Z.to_nat (8 * (k + 1))) with (Z.to_nat (8 * k) + 8)%nat by lia.
  eapply wrote_fill; [exact H1|]. replace (d + k * 8) with (d + Z.of_nat (Z.to_nat (8 * k))) by lia.
  apply put_word_wrote; [apply fill_ok|apply length_replicate].
Qed.

Lemma set_words_ok n m d :
  d mod 8 = 0 → readable m d (8 * Z.of_nat n) →
  ∃ m', set_words n d (spread c) m = Some (d + 8 * Z.of_nat n, m') ∧ wrote m m' d (replicate (8 * n) b).
Proof.
  revert m d. induction n as [|n IH]; intros m d Hd Hr; [exists m; rewrite Z.add_0_r; split; [done|apply wrote_nil]|]. cbn [set_words].
  destruct (set_word_ok m m d 0 Hd) as (m1 & E1 & H1); [intros x Hx; apply Hr; lia|lia|apply wrote_nil|]. rewrite (W_step _ _ _ _ _ E1).
  destruct (IH m1 (d + OPSIZ)) as (m' & E' & H'); unfold OPSIZ in *.
  - Z.to_euclidean_division_equations; lia.
  - eapply wrote_readable; [exact H1|]. intros x Hx. apply Hr. lia.
  - exists m'. rewrite E'. split; [do 2 f_equal; lia|]. replace (8 * S n)%nat with (8 + 8 * n)%nat by lia. by eapply wrote_fill.
Qed.

Lemma set_words8_ok n m d :
  d mod 8 = 0 → readable m d (64 * Z.of_nat n) →
  ∃ m', set_words8 n d (spread c) m = Some (d + 64 * Z.of_nat n, m') ∧ wrote m m' d (replicate (64 * n) b).
Proof.
  revert m d. induction n as [|n IH]; intros m d Hd Hr; [exists m; rewrite Z.add_0_r; split; [done|apply wrote_nil]|]. cbn [set_words8].
  assert (∀ k m1, 0 <= k < 8 → wrote m m1 d (replicate (Z.to_nat (8 * k)) b) →
    ∃ m2, st d k (spread c) m1 = Some ((), m2) ∧ wrote m m2 d (replicate (Z.to_nat (8 * (k + 1))) b)) as Hst.
  { intros k m1 Hk H1. apply set_word_ok; try done; [|lia]. intros x Hx. apply Hr. lia. }
  assert (wrote m m d (replicate (Z.to_nat (8 * 0)) b)) as H0 by apply wrote_nil.
  destruct (Hst 0 m ltac:(lia) H0) as (m1 & E1 & H1). destruct (Hst 1 m1 ltac:(lia) H1) as (m2 & E2 & H2).
  destruct (Hst 2 m2 ltac:(lia) H2) as (m3 & E3 & H3). destruct (Hst 3 m3 ltac:(lia) H3) as (m4 & E4 & H4).
  destruct (Hst 4 m4 ltac:(lia) H4) as (m5 & E5 & H5). destruct (Hst 5 m5 ltac:(lia) H5) as (m6 & E6 & H6).
  destruct (Hst 6 m6 ltac:(lia) H6) as (m7 & E7 & H7). destruct (Hst 7 m7 ltac:(lia) H7) as (m8 & E8 & H8).
  rewrite (W_step _ _ _ _ _ E1), (W_step _ _ _ _ _ E2), (W_step _ _ _ _ _ E3), (W_step _ _ _ _ _ E4),
    (W_step _ _ _ _ _ E5), (W_step _ _ _ _ _ E6), (W_step _ _ _ _ _ E7), (W_step _ _ _ _ _ E8).
  destruct (IH m8 (d + 8 * OPSIZ)) as (m' & E' & H'); unfold OPSIZ in *.
  - Z.to_euclidean_division_equations; lia.
  - eapply wrote_readable; [exact H8|]. intros x Hx. apply Hr. lia.
  - exists m'. rewrite E'. split; [do 2 f_equal; lia|]. replace (64 * S n)%nat with (64 + 64 * n)%nat by lia. by eapply wrote_fill.
Qed.
End set.

Lemma memset_ok m d c n :
  0 <= n → readable m d n → ∃ m', memset d c n m = Some (d, m') ∧ wrote m m' d (replicate (Z.to_nat n) (u8 c)).
Proof.
  intros Hn Hr. unfold memset, OPSIZ.
  assert (∀ m1 k, 0 <= k <= n → wrote m m1 d (replicate (Z.to_nat k) (u8 c)) →
    ∃ m', (set_bytes (Z.to_nat (n - k)) (d + k) c;; mret d) m1 = Some (d, m') ∧ wrote m m' d (replicate (Z.to_nat n) (u8 c))) as Htail.
  { intros m1 k Hk H1. destruct (set_bytes_ok c (Z.to_nat (n - k)) m1 (d + k)) as (m' & E & H2).
    { eapply wrote_readable; [exact H1|]. intros x Hx. apply Hr. lia. }
    exists m'. rewrite (W_step _ _ _ _ _ E). split; [done|]. replace (Z.to_nat n) with (Z.to_nat k + Z.to_nat (n - k))%nat by lia.
    eapply wrote_fill; [exact H1|]. by rewrite Z2Nat.id by lia. }
  destruct (Z.leb_spec 8 n) as [H8|H8].
  2:{ rewrite (W_step _ _ _ (d, n) m eq_refl). cbn beta iota. specialize (Htail m 0 ltac:(lia) (wrote_nil _ _)).
      by rewrite Z.sub_0_r, Z.add_0_r in Htail. }
  cbv zeta. set (k := (- d) mod 8). assert (0 <= k < 8 ∧ (d + k) mod 8 = 0) as [Hk Ha] by (unfold k; Z.to_euclidean_division_equations; lia).
  destruct (set_align_ok c 7 m d n) as (m1 & E1 & H1); fold k; [lia|intros x Hx; apply Hr; lia|]. fold k in E1, H1.
  change (8 * 8) with 64. set (x8 := (n - k) / 64). set (x1 := (n - k) mod 64 / 8). set (r := (n - k) mod 64 mod 8).
  assert (n - k = 64 * x8 + 8 * x1 + r ∧ 0 <= x8 ∧ 0 <= x1 ∧ 0 <= r) as (Eq & Hx8 & Hx1 & Hr0)
    by (unfold x8, x1, r; Z.to_euclidean_division_equations; lia).
  destruct (set_words8_ok c (Z.to_nat x8) m1 (d + k) Ha) as (m2 & E2 & H2).
  { eapply wrote_readable; [exact H1|]. intros x Hx. apply Hr. lia. }
  rewrite Z2Nat.id in E2 by done. pose proof (wrote_fill c m m1 m2 d (Z.to_nat k) (64 * Z.to_nat x8) H1) as H12. rewrite Z2Nat.id in H12 by lia. specialize (H12 H2).
  destruct (set_words_ok c (Z.to_nat x1) m2 (d + k + 64 * x8)) as (m3 & E3 & H3).
  { Z.to_euclidean_division_equations; lia. }
  { eapply wrote_readable; [exact H12|]. intros x Hx. apply Hr. lia. }
  rewrite Z2Nat.id in E3 by done. rewrite !W_assoc, (W_step _ _ _ _ _ E1). cbn beta iota.
  rewrite W_assoc. fold x8. rewrite (W_step _ _ _ _ _ E2). cbn beta. rewrite W_assoc. fold x1. rewrite (W_step _ _ _ _ _ E3). cbn beta.
  rewrite (W_step _ _ _ (d + k + 64 * x8 + 8 * x1, r) m3 eq_refl). cbn beta iota.
  destruct (Htail m3 (k + 64 * x8 + 8 * x1)) as (m' & E' & H'); [lia| |].
  - replace (Z.to_nat (k + 64 * x8 + 8 * x1)) with (Z.to_nat k + 64 * Z.to_nat x8 + 8 * Z.to_nat x1)%nat by lia.
    eapply wrote_fill; [exact H12|]. by replace (d + Z.of_nat (Z.to_nat k + 64 * Z.to_nat x8)) with (d + k + 64 * x8) by lia.
  - exists m'. split; [|done]. rewrite <- E'. replace (n - (k + 64 * x8 + 8 * x1)) with r by lia.
    by replace (d + (k + 64 * x8 + 8 * x1)) with (d + k + 64 * x8 + 8 * x1) by lia.
Qed.

(** ** [memcmp] *)

(** The difference at the first place where two lists differ. *)
Fixpoint list_diff (bs cs : list Z) : Z :=
  match bs, cs with
  | b :: bs, c :: cs => if b =? c then list_diff bs cs else b - c
  | _, _ => 0
  end.

Lemma list_diff_refl bs : list_diff bs bs = 0.
Proof. induction bs as [|b bs IH]; [done|]. cbn. by rewrite Z.eqb_refl. Qed.

Lemma list_diff_0 bs cs : length bs = length cs → list_diff bs cs = 0 → bs = cs.
Proof.
  revert cs. induction bs as [|b bs IH]; intros [|c cs] Hl; try done. cbn. destruct (Z.eqb_spec b c) as [->|]; [|lia].
  intros E. f_equal. apply IH; [by injection Hl|done].
Qed.

Lemma list_diff_app bs cs bs' cs' :
  length bs = length cs → list_diff (bs ++ bs') (cs ++ cs') = if list_diff bs cs =? 0 then list_diff bs' cs' else list_diff bs cs.
Proof.
  revert cs. induction bs as [|b bs IH]; intros [|c cs] Hl; try done. cbn. destruct (Z.eqb_spec b c) as [->|].
  - apply IH. by injection Hl.
  - by rewrite (proj2 (Z.eqb_neq _ 0)) by lia.
Qed.

Lemma int_diff b c : 0 <= b < 256 → 0 <= c < 256 → i32 (u64 (b - c)) = b - c.
Proof.
  intros Hb Hc. unfold wrapu, wraps. assert (∀ z, -255 <= z <= 255 → (z mod 2 ^ 64 + 2 ^ (32 - 1)) mod 2 ^ 32 - 2 ^ (32 - 1) = z) as E; [|apply E; lia].
  intros z Hz. destruct (Z.lt_ge_cases z 0).
  - rewrite <- (Z_mod_plus_full z 1), (Z.mod_small (z + 1 * 2 ^ 64)) by lia.
    replace (z + 1 * 2 ^ 64 + 2 ^ (32 - 1)) with (z + 2 ^ 31 + 2 ^ 32 * 2 ^ 32) by lia. rewrite Z_mod_plus_full, Z.mod_small by lia. lia.
  - rewrite (Z.mod_small z), Z.mod_small by lia. lia.
Qed.

Lemma int_diff_ne b c : 0 <= b < 256 → 0 <= c < 256 → b ≠ c → u64 (b - c) ≠ 0.
Proof. intros Hb Hc Hne H0. pose proof (int_diff b c Hb Hc) as E. rewrite H0 in E. change (i32 0) with 0 in E. lia. Qed.

Lemma bytes_differ_ok m bs cs k fuel :
  bytes bs → length bs = 8%nat → bytes cs → length cs = 8%nat → (k + fuel = 8)%nat →
  (∀ i, (i < k)%nat → bs !! i = cs !! i) → bs ≠ cs →
  bytes_differ fuel (Z.of_nat k) (dec_le bs) (dec_le cs) m = Some (list_diff (drop k bs) (drop k cs), m).
Proof.
  intros Hb Hl Hc Hm. revert k. induction fuel as [|fuel IH]; intros k Hk Heq Hne.
  { exfalso. apply Hne, list_eq. intros i. destruct (decide (i < 8)%nat); [apply Heq; lia|]. by rewrite !lookup_ge_None_2 by lia. }
  cbn [bytes_differ]. destruct (lookup_lt_is_Some_2 bs k) as [b Eb]; [lia|]. destruct (lookup_lt_is_Some_2 cs k) as [c Ec]; [lia|].
  rewrite (extractbyte_dec bs k b), (extractbyte_dec cs k c) by done. cbv zeta.
  rewrite (drop_S bs b k Eb), (drop_S cs c k Ec). cbn [list_diff]. destruct (Z.eqb_spec b c) as [->|Hbc].
  - replace (Z.of_nat k + 1) with (Z.of_nat (S k)) by lia. apply IH; [lia| |done].
    intros i Hi. destruct (decide (i = k)) as [->|]; [congruence|]. apply Heq. lia.
  - unfold mret, W_ret. do 2 f_equal. apply int_diff; [exact (Forall_lookup_1 _ _ _ _ Hb Eb)|exact (Forall_lookup_1 _ _ _ _ Hc Ec)].
Qed.

(** The difference of [n] bytes at two addresses. *)
Definition memdiff (m : mem) (p q : Z) (n : Z) : Z := list_diff (bytes_at m p (Z.to_nat n)) (bytes_at m q (Z.to_nat n)).

Lemma memdiff_add m p q a n :
  0 <= a → 0 <= n → memdiff m p q (a + n) = if memdiff m p q a =? 0 then memdiff m (p + a) (q + a) n else memdiff m p q a.
Proof.
  intros Ha Hn. unfold memdiff. rewrite Z2Nat.inj_add by done. rewrite !bytes_at_app, list_diff_app by by rewrite !length_bytes_at.
  by rewrite Z2Nat.id by done.
Qed.

Section cmp.
Context (m : mem).
Hypothesis m_ok : bytes_ok m.
Set Default Proof Using "All".

(** A word is compared, then the rest. *)
Lemma cmp_word (p q n : Z) (k : W Z) :
  0 <= n → k m = Some (memdiff m (p + 8) (q + 8) n, m) →
  (if negb (word_at m p =? word_at m q) then CMP_LT_OR_GT (word_at m p) (word_at m q) else k) m = Some (memdiff m p q (8 + n), m).
Proof.
  intros Hn Hk. destruct (word_bytes m m_ok p) as (E1 & Hb1 & Hl1). destruct (word_bytes m m_ok q) as (E2 & Hb2 & Hl2).
  rewrite memdiff_add by lia. change (memdiff m p q 8) with (list_diff (bytes_at m p 8) (bytes_at m q 8)).
  destruct (Z.eqb_spec (word_at m p) (word_at m q)) as [E|E]; cbn [negb].
  - rewrite E1, E2 in E. apply dec_inj in E; [|done|done|congruence]. by rewrite E, list_diff_refl.
  - assert (bytes_at m p 8 ≠ bytes_at m q 8) as Hne by (intros Heq; apply E; unfold word_at; by rewrite Heq).
    rewrite (proj2 (Z.eqb_neq _ 0)) by (intros H0; apply Hne, list_diff_0; [congruence|done]).
    unfold CMP_LT_OR_GT, memcmp_bytes. rewrite E1, E2. apply (bytes_differ_ok m _ _ 0 8); try done. lia.
Qed.

Lemma cmp_tail_ok n p q :
  readable m p (Z.of_nat n) → readable m q (Z.of_nat n) → cmp_tail n p q m = Some (memdiff m p q (Z.of_nat n), m).
Proof.
  revert p q. induction n as [|n IH]; intros p q Hp Hq; [done|]. cbn [cmp_tail].
  rewrite (W_step _ _ _ _ _ (load_byte_ok m p ltac:(apply Hp; lia))), (W_step _ _ _ _ _ (load_byte_ok m q ltac:(apply Hq; lia))). cbv zeta.
  unfold memdiff. rewrite Nat2Z.id, !bytes_at_S. cbn [list_diff]. pose proof (m_ok p) as Hbp. pose proof (m_ok q) as Hbq.
  destruct (Z.eqb_spec (byte m p) (byte m q)) as [E|E].
  - rewrite E, Z.sub_diag. cbn [negb Z.eqb]. change (u64 0 =? 0) with true. cbn [negb].
    rewrite IH by (intros x Hx; first [apply Hp; lia|apply Hq; lia]). unfold memdiff. by rewrite Nat2Z.id.
  - rewrite (proj2 (Z.eqb_neq _ 0) (int_diff_ne _ _ Hbp Hbq E)). cbn [negb]. unfold mret, W_ret. by rewrite int_diff.
Qed.

Lemma cmp_align_ok fuel p q len :
  (- q) mod 8 <= Z.of_nat fuel → let k := (- q) mod 8 in readable m p k → readable m q k →
  cmp_align fuel p q len m = Some (if memdiff m p q k =? 0 then inr (p + k, q + k, len - k) else inl (memdiff m p q k), m).
Proof.
  revert p q len. induction fuel as [|fuel IH]; intros p q len Hf; cbn [cmp_align]; unfold OPSIZ.
  { assert ((- q) mod 8 = 0 ∧ q mod 8 = 0) as [-> ->] by (Z.to_euclidean_division_equations; lia). cbn. by rewrite !Z.add_0_r, Z.sub_0_r. }
  destruct (Z.eqb_spec (q mod 8) 0) as [E|E].
  { assert ((- q) mod 8 = 0) as -> by (Z.to_euclidean_division_equations; lia). cbn. by rewrite !Z.add_0_r, Z.sub_0_r. }
  assert ((- q) mod 8 = 1 + (- (q + 1)) mod 8 ∧ 0 <= (- (q + 1)) mod 8) as [Ek Hk0] by (Z.to_euclidean_division_equations; lia).
  rewrite Ek in Hf |- *. intros Hp Hq. rewrite (W_step _ _ _ _ _ (load_byte_ok m p ltac:(apply Hp; lia))), (W_step _ _ _ _ _ (load_byte_ok m q ltac:(apply Hq; lia))). cbv zeta.
  rewrite memdiff_add by lia. change (memdiff m p q 1) with (list_diff (bytes_at m p 1) (bytes_at m q 1)).
  rewrite !bytes_at_S. cbn [list_diff bytes_at seq fmap list_fmap]. pose proof (m_ok p) as Hbp. pose proof (m_ok q) as Hbq.
  destruct (Z.eqb_spec (byte m p) (byte m q)) as [E1|E1].
  - rewrite E1, Z.sub_diag. change (u64 0 =? 0) with true. change (0 =? 0) with true. cbn [negb].
    pose proof (IH (p + 1) (q + 1) (len - 1)) as IH'. cbv zeta in IH'.
    rewrite IH' by first [lia|intros x Hx; apply Hp; lia|intros x Hx; apply Hq; lia]. destruct (_ =? 0); [|done].
    replace (p + 1 + (- (q + 1)) mod 8) with (p + (1 + (- (q + 1)) mod 8)) by lia.
    replace (q + 1 + (- (q + 1)) mod 8) with (q + (1 + (- (q + 1)) mod 8)) by lia. do 4 f_equal. lia.
  - assert (byte m p - byte m q =? 0 = false) as E0 by (apply Z.eqb_neq; lia).
    rewrite (proj2 (Z.eqb_neq _ 0) (int_diff_ne _ _ Hbp Hbq E1)), E0. cbn [negb]. rewrite E0.
    unfold mret, W_ret. by rewrite int_diff.
Qed.
End cmp.

(** *** Whole words, both aligned *)

Lemma load_pair m n a k i s : a mod 8 = 0 → readable m a (8 * n) → 0 <= i < n → s + k * 8 = a + 8 * i → ld s k m = Some (word_at m (a + 8 * i), m).
Proof.
  intros Ha Hr Hi E. unfold ld. rewrite E. apply load_word_ok; [Z.to_euclidean_division_equations; lia|]. apply Hr. lia.
Qed.

Section common.
Context (m : mem) (P Q n : Z).
Hypothesis m_ok : bytes_ok m.
Hypothesis P_ok : P mod 8 = 0.
Hypothesis Q_ok : Q mod 8 = 0.
Hypothesis P_map : readable m P (8 * n).
Hypothesis Q_map : readable m Q (8 * n).
Set Default Proof Using "All".

(** The comparison from word [i] on. *)
Local Notation rest i := (memdiff m (P + 8 * i) (Q + 8 * i) (8 * (n - i))).

Lemma rest_word i (k : W Z) :
  0 <= i < n → k m = Some (rest (i + 1), m) →
  (if negb (word_at m (P + 8 * i) =? word_at m (Q + 8 * i)) then CMP_LT_OR_GT (word_at m (P + 8 * i)) (word_at m (Q + 8 * i)) else k) m = Some (rest i, m).
Proof.
  intros Hi Hk. replace (8 * (n - i)) with (8 + 8 * (n - (i + 1))) by lia. apply (cmp_word m m_ok); [lia|].
  rewrite Hk. do 2 f_equal. f_equal; lia.
Qed.

Definition cmp_label (fuel : nat) (j : Z) (f : Z → Z → Z → Z → Z → W Z) : Prop :=
  ∀ i len, 0 <= i → len = n - 1 - i + (4 - j) → len mod 4 = 0 → 0 < len <= 4 * Z.of_nat fuel →
  f (P + 8 * (i + 1) - 8 * (4 - j)) (Q + 8 * (i + 1) - 8 * (4 - j)) len (word_at m (P + 8 * i)) (word_at m (Q + 8 * i)) m = Some (rest i, m).

Lemma cmp_label_step fuel j f g :
  (∀ p q len a b, f p q len a b = (a' ← ld p (4 - j); b' ← ld q (4 - j); if negb (a =? b) then CMP_LT_OR_GT a b else g p q len a' b')) →
  1 <= j <= 4 → cmp_label fuel (j - 1) g → cmp_label fuel j f.
Proof.
  intros Hf Hj Hg i len Hi Hlen H4 Hl. rewrite Hf. assert (i + 1 < n) by (Z.to_euclidean_division_equations; lia).
  rewrite (W_step _ _ _ _ _ (load_pair m n P (4 - j) (i + 1) (P + 8 * (i + 1) - 8 * (4 - j)) P_ok P_map ltac:(lia) ltac:(lia))).
  rewrite (W_step _ _ _ _ _ (load_pair m n Q (4 - j) (i + 1) (Q + 8 * (i + 1) - 8 * (4 - j)) Q_ok Q_map ltac:(lia) ltac:(lia))).
  apply rest_word; [lia|]. rewrite <- (Hg (i + 1) len) by lia. f_equal; lia.
Qed.

Lemma cmp_do0_ok : 0 < n → cmp_do0 (word_at m (P + 8 * (n - 1))) (word_at m (Q + 8 * (n - 1))) m = Some (rest (n - 1), m).
Proof. intros Hn. unfold cmp_do0. apply rest_word; [lia|]. by replace (n - (n - 1 + 1)) with 0 by lia. Qed.

Lemma cmp_label_next fuel loop : cmp_label fuel 4 loop → cmp_label (S fuel) 0 (cmp_next loop).
Proof.
  intros Hg i len Hi Hlen H4 Hl. unfold cmp_next, OPSIZ. destruct (Z.eqb_spec (len - 4) 0) as [E|E]; cbn [negb].
  - assert (i = n - 1) as -> by lia. apply cmp_do0_ok. lia.
  - rewrite <- (Hg i (len - 4)) by (Z.to_euclidean_division_equations; lia). f_equal; lia.
Qed.

Lemma cmp_labels fuel loop :
  cmp_label fuel 4 loop →
  cmp_label (S fuel) 1 (cmp_do1 loop) ∧ cmp_label (S fuel) 2 (cmp_do2 loop) ∧ cmp_label (S fuel) 3 (cmp_do3 loop) ∧ cmp_label (S fuel) 4 (cmp_do4 loop).
Proof.
  intros H0%cmp_label_next. pose proof (cmp_label_step _ 1 (cmp_do1 loop) _ ltac:(done) ltac:(lia) H0) as H1.
  pose proof (cmp_label_step _ 2 (cmp_do2 loop) _ ltac:(done) ltac:(lia) H1) as H2.
  pose proof (cmp_label_step _ 3 (cmp_do3 loop) _ ltac:(done) ltac:(lia) H2) as H3.
  pose proof (cmp_label_step _ 4 (cmp_do4 loop) _ ltac:(done) ltac:(lia) H3) as H4. done.
Qed.

Lemma cmp_loop_ok fuel : cmp_label fuel 4 (cmp_loop fuel).
Proof. induction fuel as [|fuel IH]; [intros i len Hi Hlen H4 Hl; lia|]. apply cmp_labels, IH. Qed.

Lemma memcmp_common_ok fuel :
  0 <= n <= 4 * Z.of_nat fuel → memcmp_common_alignment (S fuel) P Q n m = Some (memdiff m P Q (8 * n), m).
Proof.
  intros Hn. unfold memcmp_common_alignment, OPSIZ. pose proof (cmp_loop_ok (S fuel)) as HL.
  destruct (cmp_labels _ _ (cmp_loop_ok (S fuel))) as (L1 & L2 & L3 & _).
  assert (n = 0 ∨ 0 < n) as [->|Hpos] by lia; [done|].
  pose proof (load_pair m n P 0 0 P P_ok P_map ltac:(lia) ltac:(lia)) as E1. pose proof (load_pair m n Q 0 0 Q Q_ok Q_map ltac:(lia) ltac:(lia)) as E2.
  assert (∀ j f fuel' p q len, cmp_label fuel' j f → p = P + 8 * (0 + 1) - 8 * (4 - j) → q = Q + 8 * (0 + 1) - 8 * (4 - j) →
    len = n - 1 - 0 + (4 - j) → len mod 4 = 0 → 0 < len <= 4 * Z.of_nat fuel' →
    f p q len (word_at m (P + 8 * 0)) (word_at m (Q + 8 * 0)) m = Some (memdiff m P Q (8 * n), m)) as Hgo.
  { intros j f fuel' p q len Hf -> -> -> Hm Hl. rewrite Hf by done. do 2 f_equal. f_equal; lia. }
  pose proof (Z.mod_pos_bound n 4 ltac:(lia)) as Hr.
  assert (n mod 4 = 0 ∨ n mod 4 = 1 ∨ n mod 4 = 2 ∨ n mod 4 = 3) as Hcase by lia.
  destruct Hcase as [E|[E|[E|E]]]; rewrite E; cbv beta iota zeta; cbn [andb Z.leb Z.compare Pos.compare Pos.compare_cont OP_T_THRES Z.mul].
  - rewrite (proj2 (Z.eqb_neq n 0)), andb_false_r by lia. enter2 (Hgo 3) L3 E1 E2.
  - destruct (Z.eqb_spec (n - 1) 0) as [En|En]; rewrite ?andb_true_r, ?andb_false_r; [|enter2 (Hgo 4) HL E1 E2].
    rewrite (W_step _ _ _ _ _ E1), (W_step _ _ _ _ _ E2). pose proof (cmp_do0_ok Hpos) as E0. rewrite En in E0. etrans; [exact E0|]. do 2 f_equal. f_equal; lia.
  - enter2 (Hgo 1) L1 E1 E2.
  - enter2 (Hgo 2) L2 E1 E2.
Qed.
End common.

(** *** Whole words, the first block not aligned *)

Section not_common.
Context (m : mem) (X Q ofs n : Z).
Hypothesis m_ok : bytes_ok m.
Hypothesis X_ok : X mod 8 = 0.
Hypothesis Q_ok : Q mod 8 = 0.
Hypothesis ofs_ok : 0 < ofs < 8.
Local Notation P := (X + ofs).
Hypothesis P_map : readable m P (8 * n).
Hypothesis Q_map : readable m Q (8 * n).
Set Default Proof Using "All".
Local Notation shl := (8 * ofs).
Local Notation shr := (64 - 8 * ofs).
Local Notation rest i := (memdiff m (P + 8 * i) (Q + 8 * i) (8 * (n - i))).

Lemma load_partial k i s : 0 <= i <= n → 0 < n → s + k * 8 = X + 8 * i → ld s k m = Some (word_at m (X + 8 * i), m).
Proof.
  intros Hi Hn E. unfold ld. rewrite E. apply (load_word_reach m _ (Z.max P (X + 8 * i))); [Z.to_euclidean_division_equations; lia|lia|]. apply P_map. lia.
Qed.

Lemma rest_merge i (k : W Z) :
  0 <= i < n → k m = Some (rest (i + 1), m) →
  (let x := MERGE (word_at m (X + 8 * i)) shl (word_at m (X + 8 * (i + 1))) shr in
   if negb (x =? word_at m (Q + 8 * i)) then CMP_LT_OR_GT x (word_at m (Q + 8 * i)) else k) m = Some (rest i, m).
Proof.
  intros Hi Hk. pose proof (MERGE_words m m_ok (X + 8 * i) (Z.to_nat ofs) ltac:(lia)) as E. rewrite Z2Nat.id in E by lia.
  replace (X + 8 * (i + 1)) with (X + 8 * i + 8) by lia. rewrite (Z.mul_comm 8 ofs), E. cbv zeta.
  replace (X + 8 * i + ofs) with (P + 8 * i) by lia. replace (8 * (n - i)) with (8 + 8 * (n - (i + 1))) by lia.
  apply (cmp_word m m_ok); [lia|]. rewrite Hk. do 2 f_equal. f_equal; lia.
Qed.

Definition cmpn_label (fuel : nat) (j : Z) (f : Z → Z → Z → Z → Z → Z → W Z) : Prop :=
  ∀ i len, 0 <= i → len = n - 1 - i + (4 - j) → len mod 4 = 0 → 0 < len <= 4 * Z.of_nat fuel →
  f (X + 8 * (i + 2) - 8 * (4 - j)) (Q + 8 * (i + 1) - 8 * (4 - j)) len (word_at m (X + 8 * i)) (word_at m (X + 8 * (i + 1))) (word_at m (Q + 8 * i)) m =
  Some (rest i, m).

Lemma cmpn_label_step fuel j f g :
  (∀ p q len a b c, f p q len a b c = (a' ← ld p (4 - j); c' ← ld q (4 - j); let x := MERGE a shl b shr in
     if negb (x =? c) then CMP_LT_OR_GT x c else g p q len b a' c')) →
  1 <= j <= 4 → cmpn_label fuel (j - 1) g → cmpn_label fuel j f.
Proof.
  intros Hf Hj Hg i len Hi Hlen H4 Hl. rewrite Hf. assert (i + 1 < n) by (Z.to_euclidean_division_equations; lia).
  rewrite (W_step _ _ _ _ _ (load_partial (4 - j) (i + 2) (X + 8 * (i + 2) - 8 * (4 - j)) ltac:(lia) ltac:(lia) ltac:(lia))).
  rewrite (W_step _ _ _ _ _ (load_pair m n Q (4 - j) (i + 1) (Q + 8 * (i + 1) - 8 * (4 - j)) Q_ok Q_map ltac:(lia) ltac:(lia))).
  apply rest_merge; [lia|]. rewrite <- (Hg (i + 1) len) by lia. replace (X + 8 * (i + 1 + 1)) with (X + 8 * (i + 2)) by lia. f_equal; lia.
Qed.

Lemma cmpn_do0_ok :
  0 < n → cmpn_do0 shl shr (word_at m (X + 8 * (n - 1))) (word_at m (X + 8 * (n - 1 + 1))) (word_at m (Q + 8 * (n - 1))) m = Some (rest (n - 1), m).
Proof. intros Hn. unfold cmpn_do0. apply rest_merge; [lia|]. by replace (n - (n - 1 + 1)) with 0 by lia. Qed.

Lemma cmpn_label_next fuel loop : cmpn_label fuel 4 loop → cmpn_label (S fuel) 0 (cmpn_next loop shl shr).
Proof.
  intros Hg i len Hi Hlen H4 Hl. unfold cmpn_next, OPSIZ. destruct (Z.eqb_spec (len - 4) 0) as [E|E]; cbn [negb].
  - assert (i = n - 1) as -> by lia. apply cmpn_do0_ok. lia.
  - rewrite <- (Hg i (len - 4)) by (Z.to_euclidean_division_equations; lia). f_equal; lia.
Qed.

Lemma cmpn_labels fuel loop :
  cmpn_label fuel 4 loop →
  cmpn_label (S fuel) 1 (cmpn_do1 loop shl shr) ∧ cmpn_label (S fuel) 2 (cmpn_do2 loop shl shr) ∧
  cmpn_label (S fuel) 3 (cmpn_do3 loop shl shr) ∧ cmpn_label (S fuel) 4 (cmpn_do4 loop shl shr).
Proof.
  intros H0%cmpn_label_next. pose proof (cmpn_label_step _ 1 (cmpn_do1 loop shl shr) _ ltac:(done) ltac:(lia) H0) as H1.
  pose proof (cmpn_label_step _ 2 (cmpn_do2 loop shl shr) _ ltac:(done) ltac:(lia) H1) as H2.
  pose proof (cmpn_label_step _ 3 (cmpn_do3 loop shl shr) _ ltac:(done) ltac:(lia) H2) as H3.
  pose proof (cmpn_label_step _ 4 (cmpn_do4 loop shl shr) _ ltac:(done) ltac:(lia) H3) as H4. done.
Qed.

Lemma cmpn_loop_ok fuel : cmpn_label fuel 4 (cmpn_loop shl shr fuel).
Proof. induction fuel as [|fuel IH]; [intros i len Hi Hlen H4 Hl; lia|]. apply cmpn_labels, IH. Qed.

Lemma memcmp_not_common_ok fuel :
  0 <= n <= 4 * Z.of_nat fuel → memcmp_not_common_alignment (S fuel) P Q n m = Some (memdiff m P Q (8 * n), m).
Proof.
  intros Hn. unfold memcmp_not_common_alignment, OPSIZ.
  assert (P mod 8 = ofs ∧ PTR_ALIGN_DOWN P = X) as [-> ->] by (unfold PTR_ALIGN_DOWN; Z.to_euclidean_division_equations; lia).
  change (8 * 8 - shl) with shr. pose proof (cmpn_loop_ok (S fuel)) as HL. destruct (cmpn_labels _ _ (cmpn_loop_ok (S fuel))) as (L1 & L2 & L3 & _).
  assert (n = 0 ∨ 0 < n) as [->|Hpos] by lia; [done|].
  pose proof (load_partial 0 0 X ltac:(lia) Hpos ltac:(lia)) as E1. pose proof (load_partial 1 1 X ltac:(lia) Hpos ltac:(lia)) as E2.
  pose proof (load_pair m n Q 0 0 Q Q_ok Q_map ltac:(lia) ltac:(lia)) as E3.
  assert (∀ j f fuel' p q len, cmpn_label fuel' j f → p = X + 8 * (0 + 2) - 8 * (4 - j) → q = Q + 8 * (0 + 1) - 8 * (4 - j) →
    len = n - 1 - 0 + (4 - j) → len mod 4 = 0 → 0 < len <= 4 * Z.of_nat fuel' →
    f p q len (word_at m (X + 8 * 0)) (word_at m (X + 8 * 1)) (word_at m (Q + 8 * 0)) m = Some (memdiff m P Q (8 * n), m)) as Hgo.
  { intros j f fuel' p q len Hf -> -> -> Hm Hl. rewrite (Hf 0) by done. do 2 f_equal. f_equal; lia. }
  pose proof (Z.mod_pos_bound n 4 ltac:(lia)) as Hr.
  assert (n mod 4 = 0 ∨ n mod 4 = 1 ∨ n mod 4 = 2 ∨ n mod 4 = 3) as Hcase by lia.
  destruct Hcase as [E|[E|[E|E]]]; rewrite E; cbv beta iota zeta; cbn [andb Z.leb Z.compare Pos.compare Pos.compare_cont OP_T_THRES Z.mul].
  - rewrite (proj2 (Z.eqb_neq n 0)), andb_false_r by lia. rewrite (W_step _ _ _ _ _ E1). enter2 (Hgo 3) L3 E2 E3.
  - rewrite (W_step _ _ _ _ _ E1). destruct (Z.eqb_spec (n - 1) 0) as [En|En]; rewrite ?andb_true_r, ?andb_false_r; [|enter2 (Hgo 4) HL E2 E3].
    rewrite (W_step _ _ _ _ _ E2), (W_step _ _ _ _ _ E3). pose proof (cmpn_do0_ok Hpos) as E0. rewrite En in E0. etrans; [exact E0|]. do 2 f_equal. f_equal; lia.
  - rewrite (W_step _ _ _ _ _ E1). enter2 (Hgo 1) L1 E2 E3.
  - rewrite (W_step _ _ _ _ _ E1). enter2 (Hgo 2) L2 E2 E3.
Qed.
End not_common.

Lemma memcmp_ok m p q n fuel :
  bytes_ok m → 0 <= n <= 32 * Z.of_nat fuel → readable m p n → readable m q n → memcmp (S fuel) p q n m = Some (memdiff m p q n, m).
Proof.
  intros Hm Hn Hp Hq. unfold memcmp, OP_T_THRES, OPSIZ. destruct (Z.leb_spec 16 n) as [H16|H16].
  2:{ rewrite <- (Z2Nat.id n) at 2 by lia. apply cmp_tail_ok; [done|intros x Hx; apply Hp; lia|intros x Hx; apply Hq; lia]. }
  assert (0 <= (- q) mod 8 < 8 ∧ (q + (- q) mod 8) mod 8 = 0) as [Hk Ha] by (Z.to_euclidean_division_equations; lia).
  pose proof (cmp_align_ok m Hm 7 p q n ltac:(lia)) as E. cbv zeta in E.
  rewrite (W_step _ _ _ _ _ (E ltac:(intros x Hx; apply Hp; lia) ltac:(intros x Hx; apply Hq; lia))). clear E.
  set (k := (- q) mod 8) in *. pose proof (memdiff_add m p q k (n - k) ltac:(lia) ltac:(lia)) as Ea.
  replace (k + (n - k)) with n in Ea by lia. rewrite Ea. clear Ea.
  destruct (memdiff m p q k =? 0); [|done]. rewrite align_down_div. set (x := (n - k) / 8).
  assert (n - k = 8 * x + (n - k) mod 8 ∧ 0 <= x ∧ 0 <= (n - k) mod 8 < 8) as (Ex & Hx & Hr) by (unfold x; Z.to_euclidean_division_equations; lia).
  set (r := (n - k) mod 8) in *. rewrite Ex, memdiff_add by lia.
  assert ((if (p + k) mod 8 =? 0 then memcmp_common_alignment (S fuel) (p + k) (q + k) x else memcmp_not_common_alignment (S fuel) (p + k) (q + k) x) m =
    Some (memdiff m (p + k) (q + k) (8 * x), m)) as E.
  { assert (readable m (q + k) (8 * x)) by (intros y Hy; apply Hq; lia). assert (readable m (p + k) (8 * x)) by (intros y Hy; apply Hp; lia).
    destruct (Z.eqb_spec ((p + k) mod 8) 0) as [E0|E0]; [apply memcmp_common_ok; try done; lia|].
    destruct (split_ofs _ E0) as (X & o & E' & HX & Ho & _). rewrite E' in *. apply memcmp_not_common_ok; try done; lia. }
  rewrite (W_step _ _ _ _ _ E). destruct (memdiff m (p + k) (q + k) (8 * x) =? 0); cbn [negb]; [|done].
  rewrite <- (Z2Nat.id r) at 2 by lia. apply cmp_tail_ok; [done|intros y Hy; apply Hp; lia|intros y Hy; apply Hq; lia].
Qed.
