(* ===== verification/MemProps.v ===== *)
(** * MemProps: what the memory functions promise *)

From S2P Require Import Prelude Mem Logic CStr Flat Fza FzaSpec WordStr WordStrSpec StrCmpSpec StrCpySpec StrProps MemFn MoveSpec MemSpec.
Local Open Scope Z_scope.

(** C22. [memmove] copies the bytes as they were, whatever the overlap and the alignments of
    the two areas, returns the destination and changes no byte outside it; [memcpy] does the
    same for areas that do not overlap. *)
Theorem memmove_moves m d s n fuel :
  bytes_ok m → 0 <= n <= 32 * Z.of_nat fuel → readable m d n → readable m s n →
  0 <= d → d + n <= 2 ^ 64 → 0 <= s → s + n <= 2 ^ 64 →
  ∃ m', memmove (S fuel) d s n m = Some (d, m') ∧
    (∀ j, 0 <= j < n → byte m' (d + j) = byte m (s + j)) ∧ (∀ x, ¬ (d <= x < d + n) → byte m' x = byte m x) ∧
    (s + n <= d ∨ d + n <= s → ∃ m2, memcpy (S fuel) d s n m = Some (d, m2) ∧ ∀ x, byte m2 x = byte m' x).
Proof.
  intros Hm Hn Hd Hs H1 H2 H3 H4. destruct (memmove_ok m d s n fuel Hm Hn Hd Hs H1 H2 H3 H4) as (m' & E & [I O _ _]).
  exists m'. split_and!; [done..|]. intros Hdis.
  destruct (memcpy_ok m d s n fuel Hm Hn Hd Hs Hdis) as (m2 & E2 & [I2 O2 _ _]). exists m2. split; [done|]. intros x.
  destruct (decide (d <= x < d + n)); [|by rewrite O, O2].
  replace x with (d + (x - d)) by lia. by rewrite I, I2 by lia.
Qed.

(** Fifty bytes moved up by three and down by five over themselves. *)
Definition fifty : list Z := seqZ 1 50.

Lemma memmove_moves_witness :
  let m := image 4096 (replicate 8 0 ++ fifty ++ replicate 8 0) in
  (∃ m', memmove 3 4107 4104 50 m = Some (4107, m') ∧ byte m' 4107 = 1 ∧ byte m' 4156 = 50) ∧
  (∃ m', memmove 3 4099 4104 50 m = Some (4099, m') ∧ byte m' 4099 = 1 ∧ byte m' 4148 = 50 ∧ byte m' 4149 = 46).
Proof.
  intros m. split.
  - destruct (memmove_moves m 4107 4104 50 2) as (m' & E & H1 & H2 & _); [apply image_ok|lia|apply image_readable; by vm_compute..|lia|lia|lia|lia|].
    exists m'. split_and!; [done|apply (H1 0); lia|apply (H1 49); lia].
  - destruct (memmove_moves m 4099 4104 50 2) as (m' & E & H1 & H2 & _); [apply image_ok|lia|apply image_readable; by vm_compute..|lia|lia|lia|lia|].
    exists m'. split_and!; [done|apply (H1 0); lia|apply (H1 49); lia|rewrite H2 by lia; by vm_compute].
Defined.

(** C23. [memcmp] of two areas of [n] bytes is the difference of the first bytes that differ,
    0 if there are none, at any two alignments. *)
Theorem memcmp_compares m p q n fuel :
  bytes_ok m → 0 <= n <= 32 * Z.of_nat fuel → readable m p n → readable m q n →
  ∃ r, memcmp (S fuel) p q n m = Some (r, m) ∧ (r = 0 ↔ ∀ j, 0 <= j < n → byte m (p + j) = byte m (q + j)) ∧
    ∀ j, 0 <= j < n → (∀ i, 0 <= i < j → byte m (p + i) = byte m (q + i)) → byte m (p + j) ≠ byte m (q + j) →
      r = byte m (p + j) - byte m (q + j).
Proof.
  intros Hm Hn Hp Hq. exists (memdiff m p q n). split; [by apply memcmp_ok|].
  assert (∀ j, 0 <= j <= n → (∀ i, 0 <= i < j → byte m (p + i) = byte m (q + i)) → memdiff m p q j = 0) as Hz.
  { intros j Hj Heq. unfold memdiff. assert (bytes_at m p (Z.to_nat j) = bytes_at m q (Z.to_nat j)) as ->; [|apply list_diff_refl].
    apply list_eq_same_length with (Z.to_nat j); [apply length_bytes_at..|]. intros i x y Hi Hx Hy.
    rewrite bytes_at_lookup in Hx, Hy by done. injection Hx as <-. injection Hy as <-. apply Heq. lia. }
  assert (∀ j, 0 <= j < n → (∀ i, 0 <= i < j → byte m (p + i) = byte m (q + i)) → byte m (p + j) ≠ byte m (q + j) →
    memdiff m p q n = byte m (p + j) - byte m (q + j)) as Hfirst.
  { intros j Hj Heq Hne. replace n with (j + (1 + (n - j - 1))) by lia. rewrite memdiff_add, Hz by (lia || done). cbn [Z.eqb].
    rewrite memdiff_add by lia. unfold memdiff at 1 3. change (Z.to_nat 1) with 1%nat. rewrite !bytes_at_S.
    cbn [list_diff bytes_at seq fmap list_fmap]. rewrite (proj2 (Z.eqb_neq _ _) Hne). by rewrite (proj2 (Z.eqb_neq _ 0)) by lia. }
  split; [|done]. split; [|by intros; apply Hz; [lia|]].
  intros H0 j Hj. unfold memdiff in H0. apply list_diff_0 in H0; [|by rewrite !length_bytes_at].
  pose proof (bytes_at_lookup m p (Z.to_nat n) (Z.to_nat j) ltac:(lia)) as E. rewrite H0, bytes_at_lookup in E by lia.
  injection E. by rewrite Z2Nat.id by lia.
Qed.

Lemma memcmp_compares_witness :
  let m := image 4096 ([9; 9; 9] ++ fifty ++ fifty) in
  ∃ r, memcmp 3 4099 4149 50 m = Some (r, m) ∧ r = 0.
Proof.
  intros m. destruct (memcmp_compares m 4099 4149 50 2) as (r & E & [_ H] & _); [apply image_ok|lia|apply image_readable; by vm_compute..|].
  exists r. split; [done|]. apply H. intros j Hj.
  assert (Forall (λ j, byte m (4099 + j) = byte m (4149 + j)) (seqZ 0 50)) as Hall by (apply (bool_decide_unpack _); by vm_compute).
  rewrite Forall_forall in Hall. apply Hall, elem_of_seqZ. lia.
Defined.

(** C24. [memset] writes the byte, taken modulo 256, at every place of the area and nowhere else. *)
Theorem memset_fills m d c n :
  0 <= n → readable m d n →
  ∃ m', memset d c n m = Some (d, m') ∧ (∀ x, byte m' x = if decide (d <= x < d + n) then u8 c else byte m x).
Proof.
  intros Hn Hr. destruct (memset_ok m d c n Hn Hr) as (m' & E & [I O _ _]). exists m'. split; [done|]. intros x. case_decide as Hx.
  - rewrite <- (I (Z.to_nat (x - d)) (u8 c)); [f_equal; lia|]. apply lookup_replicate_2. lia.
  - apply O. rewrite length_replicate. lia.
Qed.

Lemma memset_fills_witness :
  ∃ m', memset 4099 (-1) 100 (image 4096 (replicate 120 0)) = Some (4099, m') ∧ byte m' 4098 = 0 ∧ byte m' 4198 = 255 ∧ byte m' 4199 = 0.
Proof.
  destruct (memset_fills (image 4096 (replicate 120 0)) 4099 (-1) 100) as (m' & E & H); [lia|apply image_readable; by vm_compute|].
  exists m'. split; [done|]. rewrite !H. split_and!; by vm_compute.
Defined.
