(* ===== verification/Mpn.v ===== *)
(** * Mpn: multiple-precision arithmetic on limbs (stdlib/add_n.c, sub_n.c, cmp.c, mul_1.c,
      addmul_1.c, submul_1.c, lshift.c, rshift.c, mul.c, mul_n.c, gmp.h, gmp-impl.h)

    A number is an array of 64-bit limbs, the least significant first, in the byte memory
    of [Flat].  An [mp_ptr] is 8-byte aligned and is modelled by the number of the limb it
    points to: limb [p] is at the byte address [8 * p], so pointer arithmetic reads as in
    the code.  A loop is run for as many rounds as its size argument grants; where the code
    would run on (a [do] loop started with size 0) the model has no result.

    The two-limb primitives [umul_ppmm], [udiv_qrnnd], [add_ssaaaa] and [sub_ddmmss] come
    from GCC's longlong.h, which is not in the tree: they are the operations of the class
    [LongLong], their documented behaviour is [LongLongLaws]. *)

From S2P Require Import Prelude Mem Logic Flat.
Local Open Scope Z_scope.

(** ** longlong.h *)

Notation B := (2 ^ 64).

Class LongLong := {
  umul_ppmm : Z → Z → Z * Z;
  udiv_qrnnd : Z → Z → Z → Z * Z;
  add_ssaaaa : Z → Z → Z → Z → Z * Z;
  sub_ddmmss : Z → Z → Z → Z → Z * Z }.

(** The value of a pair of limbs, the high one first. *)
Definition pair_val (hl : Z * Z) : Z := hl.1 * B + hl.2.
Definition limb_pair (hl : Z * Z) : Prop := is_u64 hl.1 ∧ is_u64 hl.2.

Class LongLongLaws (L : LongLong) : Prop := {
  umul_val u v : is_u64 u → is_u64 v → limb_pair (umul_ppmm u v) ∧ pair_val (umul_ppmm u v) = u * v;
  udiv_val n1 n0 d : is_u64 n1 → is_u64 n0 → is_u64 d → n1 < d →
    udiv_qrnnd n1 n0 d = ((n1 * B + n0) / d, (n1 * B + n0) mod d);
  add_val ah al bh bl : limb_pair (add_ssaaaa ah al bh bl) ∧
    pair_val (add_ssaaaa ah al bh bl) = (pair_val (ah, al) + pair_val (bh, bl)) mod (B * B);
  sub_val ah al bh bl : limb_pair (sub_ddmmss ah al bh bl) ∧
    pair_val (sub_ddmmss ah al bh bl) = (pair_val (ah, al) - pair_val (bh, bl)) mod (B * B) }.

(** ** Access *)

Definition limb (p : Z) : W Z := load_word (8 * p).
Definition set_limb (p w : Z) : W unit := store_word (8 * p) w.

Fixpoint for_up (n : nat) (i : Z) (body : Z → W unit) : W unit :=
  match n with O => mret () | S n => body i;; for_up n (i + 1) body end.

Fixpoint for_down (n : nat) (i : Z) (body : Z → W unit) : W unit :=
  match n with O => mret () | S n => body i;; for_down n (i - 1) body end.

Definition MPN_COPY_INCR (dst src n : Z) : W unit :=
  for_up (Z.to_nat n) 0 (λ i, x ← limb (src + i); set_limb (dst + i) x).
Definition MPN_COPY_DECR (dst src n : Z) : W unit :=
  for_down (Z.to_nat n) (n - 1) (λ i, x ← limb (src + i); set_limb (dst + i) x).
Notation MPN_COPY := MPN_COPY_INCR.
Definition MPN_ZERO (dst n : Z) : W unit :=
  for_up (Z.to_nat n) 0 (λ i, set_limb (dst + i) 0).

(** [do { body } while (++j != 0)], with the carry as the state of the loop. *)
Fixpoint do_limbs (fuel : nat) (j cy : Z) (body : Z → Z → W Z) : W Z :=
  match fuel with
  | O => undefined
  | S fuel => cy ← body j cy; if j + 1 =? 0 then mret cy else do_limbs fuel (j + 1) cy body
  end.

(** ** Comparison, addition, subtraction *)

Fixpoint cmp_loop (n : nat) (op1_ptr op2_ptr i : Z) : W Z :=
  match n with
  | O => mret 0
  | S n =>
      op1_word ← limb (op1_ptr + i);
      op2_word ← limb (op2_ptr + i);
      if negb (op1_word =? op2_word) then mret (if op2_word <? op1_word then 1 else -1)
      else cmp_loop n op1_ptr op2_ptr (i - 1)
  end.

Definition mpn_cmp (op1_ptr op2_ptr size : Z) : W Z :=
  cmp_loop (Z.to_nat size) op1_ptr op2_ptr (size - 1).

Definition add_n_body (res_ptr s1_ptr s2_ptr j cy : Z) : W Z :=
  y ← limb (s2_ptr + j);
  x ← limb (s1_ptr + j);
  let y := u64 (y + cy) in
  let cy := Z.b2z (y <? cy) in
  let y := u64 (x + y) in
  let cy := u64 (Z.b2z (y <? x) + cy) in
  set_limb (res_ptr + j) y;;
  mret cy.

Definition mpn_add_n (res_ptr s1_ptr s2_ptr size : Z) : W Z :=
  let j := - size in
  let s1_ptr := s1_ptr - j in
  let s2_ptr := s2_ptr - j in
  let res_ptr := res_ptr - j in
  do_limbs (Z.to_nat size) j 0 (add_n_body res_ptr s1_ptr s2_ptr).

Definition sub_n_body (res_ptr s1_ptr s2_ptr j cy : Z) : W Z :=
  y ← limb (s2_ptr + j);
  x ← limb (s1_ptr + j);
  let y := u64 (y + cy) in
  let cy := Z.b2z (y <? cy) in
  let y := u64 (x - y) in
  let cy := u64 (Z.b2z (x <? y) + cy) in
  set_limb (res_ptr + j) y;;
  mret cy.

Definition mpn_sub_n (res_ptr s1_ptr s2_ptr size : Z) : W Z :=
  let j := - size in
  let s1_ptr := s1_ptr - j in
  let s2_ptr := s2_ptr - j in
  let res_ptr := res_ptr - j in
  do_limbs (Z.to_nat size) j 0 (sub_n_body res_ptr s1_ptr s2_ptr).

(** The [while (--s1_size != 0)] loop of [mpn_add_1]: [None] for [return 1], otherwise the
    variables at the label [fin]. *)
Fixpoint add_1_while (fuel : nat) (res_ptr s1_ptr s1_size : Z) : W (option (Z * Z * Z)) :=
  match fuel with
  | O => undefined
  | S fuel =>
      let s1_size := s1_size - 1 in
      if s1_size =? 0 then mret None
      else
        x ← limb s1_ptr;
        let x := u64 (x + 1) in
        set_limb res_ptr x;;
        if negb (x =? 0) then mret (Some (res_ptr + 1, s1_ptr + 1, s1_size))
        else add_1_while fuel (res_ptr + 1) (s1_ptr + 1) s1_size
  end.

(** The label [fin], which [mpn_add_1] and [mpn_sub_1] share. *)
Definition fin (res_ptr s1_ptr s1_size : Z) : W Z :=
  (if negb (res_ptr =? s1_ptr)
   then for_up (Z.to_nat (s1_size - 1)) 0 (λ i, x ← limb (s1_ptr + i); set_limb (res_ptr + i) x)
   else mret ());;
  mret 0.

Definition mpn_add_1 (res_ptr s1_ptr s1_size s2_limb : Z) : W Z :=
  x ← limb s1_ptr;
  let s2_limb := u64 (x + s2_limb) in
  set_limb res_ptr s2_limb;;
  if s2_limb <? x then
    r ← add_1_while (Z.to_nat s1_size) (res_ptr + 1) (s1_ptr + 1) s1_size;
    match r with
    | None => mret 1
    | Some (res_ptr, s1_ptr, s1_size) => fin res_ptr s1_ptr s1_size
    end
  else fin (res_ptr + 1) (s1_ptr + 1) s1_size.

Fixpoint sub_1_while (fuel : nat) (res_ptr s1_ptr s1_size : Z) : W (option (Z * Z * Z)) :=
  match fuel with
  | O => undefined
  | S fuel =>
      let s1_size := s1_size - 1 in
      if s1_size =? 0 then mret None
      else
        x ← limb s1_ptr;
        set_limb res_ptr (u64 (x - 1));;
        if negb (x =? 0) then mret (Some (res_ptr + 1, s1_ptr + 1, s1_size))
        else sub_1_while fuel (res_ptr + 1) (s1_ptr + 1) s1_size
  end.

Definition mpn_sub_1 (res_ptr s1_ptr s1_size s2_limb : Z) : W Z :=
  x ← limb s1_ptr;
  let s2_limb := u64 (x - s2_limb) in
  set_limb res_ptr s2_limb;;
  if x <? s2_limb then
    r ← sub_1_while (Z.to_nat s1_size) (res_ptr + 1) (s1_ptr + 1) s1_size;
    match r with
    | None => mret 1
    | Some (res_ptr, s1_ptr, s1_size) => fin res_ptr s1_ptr s1_size
    end
  else fin (res_ptr + 1) (s1_ptr + 1) s1_size.

Definition mpn_add (res_ptr s1_ptr s1_size s2_ptr s2_size : Z) : W Z :=
  cy_limb ← (if negb (s2_size =? 0) then mpn_add_n res_ptr s1_ptr s2_ptr s2_size else mret 0);
  if negb (s1_size - s2_size =? 0)
  then mpn_add_1 (res_ptr + s2_size) (s1_ptr + s2_size) (s1_size - s2_size) cy_limb
  else mret cy_limb.

Definition mpn_sub (res_ptr s1_ptr s1_size s2_ptr s2_size : Z) : W Z :=
  cy_limb ← (if negb (s2_size =? 0) then mpn_sub_n res_ptr s1_ptr s2_ptr s2_size else mret 0);
  if negb (s1_size - s2_size =? 0)
  then mpn_sub_1 (res_ptr + s2_size) (s1_ptr + s2_size) (s1_size - s2_size) cy_limb
  else mret cy_limb.

(** ** Shifts *)

Fixpoint lshift_loop (n : nat) (wp up sh_1 sh_2 i high_limb : Z) : W Z :=
  match n with
  | O => mret high_limb
  | S n =>
      let i := i - 1 in
      low_limb ← limb (up + i);
      set_limb (wp + i) (Z.lor (u64 (high_limb ≪ sh_1)) (low_limb ≫ sh_2));;
      lshift_loop n wp up sh_1 sh_2 i low_limb
  end.

Definition mpn_lshift (wp up usize cnt : Z) : W Z :=
  let sh_1 := cnt in
  let wp := wp + 1 in
  let sh_2 := 64 - sh_1 in
  let i := usize - 1 in
  low_limb ← limb (up + i);
  let retval := low_limb ≫ sh_2 in
  high_limb ← lshift_loop (Z.to_nat i) wp up sh_1 sh_2 i low_limb;
  set_limb (wp + Z.min (-1) (i - 1)) (u64 (high_limb ≪ sh_1));;
  mret retval.

Fixpoint rshift_loop (n : nat) (wp up sh_1 sh_2 i low_limb : Z) : W Z :=
  match n with
  | O => mret low_limb
  | S n =>
      high_limb ← limb (up + i);
      set_limb (wp + i) (Z.lor (low_limb ≫ sh_1) (u64 (high_limb ≪ sh_2)));;
      rshift_loop n wp up sh_1 sh_2 (i + 1) high_limb
  end.

Definition mpn_rshift (wp up usize cnt : Z) : W Z :=
  if (usize =? 0) || (cnt =? 0) then undefined
  else
    let sh_1 := cnt in
    let wp := wp - 1 in
    let sh_2 := 64 - sh_1 in
    high_limb ← limb up;
    let retval := u64 (high_limb ≪ sh_2) in
    low_limb ← rshift_loop (Z.to_nat (usize - 1)) wp up sh_1 sh_2 1 high_limb;
    set_limb (wp + Z.max 1 usize) (low_limb ≫ sh_1);;
    mret retval.

(** ** Multiplication *)

Section mul.
Context `{LongLong}.

Definition mul_1_body (res_ptr s1_ptr s2_limb j cy_limb : Z) : W Z :=
  x ← limb (s1_ptr + j);
  let '(prod_high, prod_low) := umul_ppmm x s2_limb in
  let prod_low := u64 (prod_low + cy_limb) in
  let cy_limb := u64 (Z.b2z (prod_low <? cy_limb) + prod_high) in
  set_limb (res_ptr + j) prod_low;;
  mret cy_limb.

Definition mpn_mul_1 (res_ptr s1_ptr s1_size s2_limb : Z) : W Z :=
  let j := - s1_size in
  let s1_ptr := s1_ptr - j in
  let res_ptr := res_ptr - j in
  do_limbs (Z.to_nat s1_size) j 0 (mul_1_body res_ptr s1_ptr s2_limb).

Definition addmul_1_body (res_ptr s1_ptr s2_limb j cy_limb : Z) : W Z :=
  x ← limb (s1_ptr + j);
  let '(prod_high, prod_low) := umul_ppmm x s2_limb in
  let prod_low := u64 (prod_low + cy_limb) in
  let cy_limb := u64 (Z.b2z (prod_low <? cy_limb) + prod_high) in
  x ← limb (res_ptr + j);
  let prod_low := u64 (x + prod_low) in
  let cy_limb := u64 (cy_limb + Z.b2z (prod_low <? x)) in
  set_limb (res_ptr + j) prod_low;;
  mret cy_limb.

Definition mpn_addmul_1 (res_ptr s1_ptr s1_size s2_limb : Z) : W Z :=
  let j := - s1_size in
  let res_ptr := res_ptr - j in
  let s1_ptr := s1_ptr - j in
  do_limbs (Z.to_nat s1_size) j 0 (addmul_1_body res_ptr s1_ptr s2_limb).

Definition submul_1_body (res_ptr s1_ptr s2_limb j cy_limb : Z) : W Z :=
  x ← limb (s1_ptr + j);
  let '(prod_high, prod_low) := umul_ppmm x s2_limb in
  let prod_low := u64 (prod_low + cy_limb) in
  let cy_limb := u64 (Z.b2z (prod_low <? cy_limb) + prod_high) in
  x ← limb (res_ptr + j);
  let prod_low := u64 (x - prod_low) in
  let cy_limb := u64 (cy_limb + Z.b2z (x <? prod_low)) in
  set_limb (res_ptr + j) prod_low;;
  mret cy_limb.

Definition mpn_submul_1 (res_ptr s1_ptr s1_size s2_limb : Z) : W Z :=
  let j := - s1_size in
  let res_ptr := res_ptr - j in
  let s1_ptr := s1_ptr - j in
  do_limbs (Z.to_nat s1_size) j 0 (submul_1_body res_ptr s1_ptr s2_limb).

Definition KARATSUBA_THRESHOLD : Z := 32.

(** The rows after the first of the schoolbook product: from limb [i] of [vp], [n] rows. *)
Fixpoint mul_rows (n : nat) (prodp up usize vp i cy_limb : Z) : W Z :=
  match n with
  | O => mret cy_limb
  | S n =>
      v_limb ← limb (vp + i);
      cy_limb ← (if v_limb <=? 1
                 then if v_limb =? 1 then mpn_add_n prodp prodp up usize else mret 0
                 else mpn_addmul_1 prodp up usize v_limb);
      set_limb (prodp + usize) cy_limb;;
      mul_rows n (prodp + 1) up usize vp (i + 1) cy_limb
  end.

(** The first row: [vp[0]] times [up], stored. *)
Definition mul_row0 (prodp up usize vp : Z) : W Z :=
  v_limb ← limb vp;
  cy_limb ← (if v_limb <=? 1
             then (if v_limb =? 1 then MPN_COPY prodp up usize else MPN_ZERO prodp usize);; mret 0
             else mpn_mul_1 prodp up usize v_limb);
  set_limb (prodp + usize) cy_limb;;
  mret cy_limb.

Definition impn_mul_n_basecase (prodp up vp size : Z) : W unit :=
  cy_limb ← mul_row0 prodp up size vp;
  mul_rows (Z.to_nat (size - 1)) (prodp + 1) up size vp 1 cy_limb;;
  mret ().

(** [MPN_MUL_N_RECURSE] and [impn_mul_n], which call each other. *)
Definition MPN_MUL_N_RECURSE (impn_mul_n : Z → Z → Z → Z → Z → W unit) (prodp up vp size tspace : Z) : W unit :=
  if size <? KARATSUBA_THRESHOLD then impn_mul_n_basecase prodp up vp size
  else impn_mul_n prodp up vp size tspace.

(** The subtraction [|a - b|] of two halves, and whether [a >= b]. *)
Definition abs_diff (dst a b hsize : Z) : W bool :=
  c ← mpn_cmp a b hsize;
  if 0 <=? c then mpn_sub_n dst a b hsize;; mret true
  else mpn_sub_n dst b a hsize;; mret false.

(** Adding the products H, M and L together; [negflg] says that M is negative. *)
Definition karatsuba_H (prodp size hsize : Z) : W Z :=
  MPN_COPY (prodp + hsize) (prodp + size) hsize;;
  mpn_add_n (prodp + size) (prodp + size) (prodp + size + hsize) hsize.

Definition karatsuba_M (prodp tspace size hsize cy : Z) (negflg : bool) : W Z :=
  if negflg
  then c ← mpn_sub_n (prodp + hsize) (prodp + hsize) tspace size; mret (u64 (cy - c))
  else c ← mpn_add_n (prodp + hsize) (prodp + hsize) tspace size; mret (u64 (cy + c)).

Definition karatsuba_L (prodp tspace size hsize cy : Z) : W unit :=
  c ← mpn_add_n (prodp + hsize) (prodp + hsize) tspace size;
  let cy := u64 (cy + c) in
  (if negb (cy =? 0) then mpn_add_1 (prodp + hsize + size) (prodp + hsize + size) hsize cy else mret 0);;
  MPN_COPY prodp tspace hsize;;
  cy ← mpn_add_n (prodp + hsize) (prodp + hsize) (tspace + hsize) hsize;
  (if negb (cy =? 0) then mpn_add_1 (prodp + size) (prodp + size) size 1 else mret 0);;
  mret ().

Fixpoint impn_mul_n (fuel : nat) (prodp up vp size tspace : Z) : W unit :=
  match fuel with
  | O => undefined
  | S fuel =>
      if negb (Z.land size 1 =? 0) then
        let esize := size - 1 in
        MPN_MUL_N_RECURSE (impn_mul_n fuel) prodp up vp esize tspace;;
        v ← limb (vp + esize);
        cy_limb ← mpn_addmul_1 (prodp + esize) up esize v;
        set_limb (prodp + (esize + esize)) cy_limb;;
        u ← limb (up + esize);
        cy_limb ← mpn_addmul_1 (prodp + esize) vp size u;
        set_limb (prodp + (esize + size)) cy_limb
      else
        let hsize := size ≫ 1 in
        MPN_MUL_N_RECURSE (impn_mul_n fuel) (prodp + size) (up + hsize) (vp + hsize) hsize tspace;;
        u1 ← abs_diff prodp (up + hsize) up hsize;
        v1 ← abs_diff (prodp + hsize) (vp + hsize) vp hsize;
        let negflg := xorb (negb u1) v1 in
        MPN_MUL_N_RECURSE (impn_mul_n fuel) tspace prodp (prodp + hsize) hsize (tspace + size);;
        cy ← karatsuba_H prodp size hsize;
        cy ← karatsuba_M prodp tspace size hsize cy negflg;
        MPN_MUL_N_RECURSE (impn_mul_n fuel) tspace up vp hsize (tspace + size);;
        karatsuba_L prodp tspace size hsize cy
  end.

Definition impn_sqr_n_basecase (prodp up size : Z) : W unit :=
  cy_limb ← mul_row0 prodp up size up;
  mul_rows (Z.to_nat (size - 1)) (prodp + 1) up size up 1 cy_limb;;
  mret ().

Definition MPN_SQR_N_RECURSE (impn_sqr_n : Z → Z → Z → Z → W unit) (prodp up size tspace : Z) : W unit :=
  if size <? KARATSUBA_THRESHOLD then impn_sqr_n_basecase prodp up size
  else impn_sqr_n prodp up size tspace.

Fixpoint impn_sqr_n (fuel : nat) (prodp up size tspace : Z) : W unit :=
  match fuel with
  | O => undefined
  | S fuel =>
      if negb (Z.land size 1 =? 0) then
        let esize := size - 1 in
        MPN_SQR_N_RECURSE (impn_sqr_n fuel) prodp up esize tspace;;
        u ← limb (up + esize);
        cy_limb ← mpn_addmul_1 (prodp + esize) up esize u;
        set_limb (prodp + (esize + esize)) cy_limb;;
        u ← limb (up + esize);
        cy_limb ← mpn_addmul_1 (prodp + esize) up size u;
        set_limb (prodp + (esize + size)) cy_limb
      else
        let hsize := size ≫ 1 in
        MPN_SQR_N_RECURSE (impn_sqr_n fuel) (prodp + size) (up + hsize) hsize tspace;;
        abs_diff prodp (up + hsize) up hsize;;
        MPN_SQR_N_RECURSE (impn_sqr_n fuel) tspace prodp hsize (tspace + size);;
        cy ← karatsuba_H prodp size hsize;
        cy ← karatsuba_M prodp tspace size hsize cy true;
        MPN_SQR_N_RECURSE (impn_sqr_n fuel) tspace up hsize (tspace + size);;
        karatsuba_L prodp tspace size hsize cy
  end.

(** [TMP_ALLOC (n)] is [alloca]: the stack grows down from [sp] (in limbs). *)
Definition TMP_ALLOC (sp n : Z) : Z := sp - n.

Definition mpn_mul_n (sp prodp up vp size : Z) : W unit :=
  if up =? vp then
    if size <? KARATSUBA_THRESHOLD then impn_sqr_n_basecase prodp up size
    else impn_sqr_n (Z.to_nat size) prodp up size (TMP_ALLOC sp (2 * size))
  else
    if size <? KARATSUBA_THRESHOLD then impn_mul_n_basecase prodp up vp size
    else impn_mul_n (Z.to_nat size) prodp up vp size (TMP_ALLOC sp (2 * size)).

(** The [do ... while (usize >= vsize)] loop of [mpn_mul], with the variables it leaves. *)
Fixpoint mul_blocks (fuel : nat) (prodp up usize vp vsize tp tspace : Z) : W (Z * Z * Z) :=
  match fuel with
  | O => undefined
  | S fuel =>
      MPN_MUL_N_RECURSE (impn_mul_n (Z.to_nat vsize)) tp up vp vsize tspace;;
      cy ← mpn_add_n prodp prodp tp vsize;
      mpn_add_1 (prodp + vsize) (tp + vsize) vsize cy;;
      let prodp := prodp + vsize in
      let up := up + vsize in
      let usize := usize - vsize in
      if vsize <=? usize then mul_blocks fuel prodp up usize vp vsize tp tspace
      else mret (prodp, up, usize)
  end.

Fixpoint mpn_mul (fuel : nat) (sp prodp up usize vp vsize : Z) : W Z :=
  match fuel with
  | O => undefined
  | S fuel =>
      let prod_endp := prodp + usize + vsize - 1 in
      if vsize <? KARATSUBA_THRESHOLD then
        if vsize =? 0 then mret 0
        else
          cy_limb ← mul_row0 prodp up usize vp;
          mul_rows (Z.to_nat (vsize - 1)) (prodp + 1) up usize vp 1 cy_limb
      else
        let tspace := TMP_ALLOC sp (2 * vsize) in
        MPN_MUL_N_RECURSE (impn_mul_n (Z.to_nat vsize)) prodp up vp vsize tspace;;
        let prodp := prodp + vsize in
        let up := up + vsize in
        let usize := usize - vsize in
        s ← (if vsize <=? usize then
               let tp := TMP_ALLOC tspace (2 * vsize) in
               s ← mul_blocks (Z.to_nat usize) prodp up usize vp vsize tp tspace;
               mret (s, tp)
             else mret (prodp, up, usize, tspace));
        let '(prodp, up, usize, sp) := s in
        (if negb (usize =? 0) then
           mpn_mul fuel sp tspace vp vsize up usize;;
           cy ← mpn_add_n prodp prodp tspace vsize;
           mpn_add_1 (prodp + vsize) (tspace + vsize) usize cy;;
           mret ()
         else mret ());;
        limb prod_endp
  end.
End mul.
