(* ===== verification/MpnSpec.v ===== *)
(** * MpnSpec: the value of limbs in memory, and what the limb loops compute *)

From S2P Require Import Prelude Mem Logic Flat Fza FzaSpec StrCpySpec Mpn.
Local Open Scope Z_scope.

(** ** Sums of limbs *)

(** [f 0 + B * f 1 + ... + B^(n-1) * f (n-1)]. *)
Fixpoint nsum (f : Z → Z) (n : nat) : Z :=
  match n with O => 0 | S n => nsum f n + B ^ Z.of_nat n * f (Z.of_nat n) end.
Definition vsum (f : Z → Z) (n : Z) : Z := nsum f (Z.to_nat n).

Lemma vsum_0 f n : n <= 0 → vsum f n = 0.
Proof. intros. unfold vsum. by replace (Z.to_nat n) with 0%nat by lia. Qed.

Lemma vsum_S f n : 0 <= n → vsum f (n + 1) = vsum f n + B ^ n * f n.
Proof. intros. unfold vsum. rewrite Z2Nat.inj_add, Nat.add_1_r by lia. cbn [nsum]. by rewrite Z2Nat.id. Qed.

(** Induction on the number of limbs. *)
Lemma limbs_ind (P : Z → Prop) : P 0 → (∀ n, 0 <= n → P n → P (n + 1)) → ∀ n, 0 <= n → P n.
Proof. intros H0 HS n Hn. revert n Hn. apply natlike_ind; [done|]. intros n Hn. rewrite <- Z.add_1_r. auto. Qed.

Lemma B_pos n : 0 <= n → 0 < B ^ n.
Proof. intros. by apply Z.pow_pos_nonneg. Qed.

Lemma B_succ n : 0 <= n → B ^ (n + 1) = B * B ^ n.
Proof. intros. by rewrite Z.add_1_r, Z.pow_succ_r. Qed.

Lemma B_add a b : 0 <= a → 0 <= b → B ^ (a + b) = B ^ a * B ^ b.
Proof. intros. by apply Z.pow_add_r. Qed.

Lemma vsum_ext f g n : (∀ i, 0 <= i < n → f i = g i) → vsum f n = vsum g n.
Proof.
  unfold vsum. intros H. assert (∀ k, (k <= Z.to_nat n)%nat → nsum f k = nsum g k) as Hk; [|by apply Hk].
  induction k as [|k IH]; intros Hk; [done|]. cbn [nsum]. by rewrite IH, H by lia.
Qed.

Lemma vsum_add f g n : vsum (λ i, f i + g i) n = vsum f n + vsum g n.
Proof. unfold vsum. induction (Z.to_nat n) as [|k IH]; [done|]. cbn [nsum]. rewrite IH. ring. Qed.

Lemma vsum_scale c f n : vsum (λ i, c * f i) n = c * vsum f n.
Proof. unfold vsum. induction (Z.to_nat n) as [|k IH]; cbn [nsum]; [ring|]. rewrite IH. ring. Qed.

Lemma vsum_split f a b : 0 <= a → 0 <= b → vsum f (a + b) = vsum f a + B ^ a * vsum (λ i, f (a + i)) b.
Proof.
  intros Ha. revert b. apply limbs_ind; [rewrite Z.add_0_r, (vsum_0 (λ i, f (a + i))) by done; lia|].
  intros b Hb IH. rewrite Z.add_assoc, !vsum_S, IH, B_add by lia. ring.
Qed.

Lemma vsum_range f n : 0 <= n → (∀ i, 0 <= i < n → is_u64 (f i)) → 0 <= vsum f n < B ^ n.
Proof.
  revert n. apply (limbs_ind (λ n, (∀ i, 0 <= i < n → is_u64 (f i)) → 0 <= vsum f n < B ^ n)); [done|].
  intros n Hn IH H. rewrite vsum_S, B_succ by done. pose proof (B_pos n Hn).
  assert (0 <= vsum f n < B ^ n) by (apply IH; intros; apply H; lia).
  assert (is_u64 (f n)) as Hf by (apply H; lia). unfold is_u64 in Hf. nia.
Qed.

(** ** Limbs in memory *)

Definition lim (m : mem) (p : Z) : Z := word_at m (8 * p).

(** The number in the [n] limbs at [p]. *)
Definition val (m : mem) (p n : Z) : Z := vsum (λ i, lim m (p + i)) n.

(** The pages of the [n] limbs at [p] are mapped. *)
Definition avail (m : mem) (p n : Z) : Prop := ∀ q, p <= q < p + n → mapped m (page (8 * q)) = true.

(** [m'] is [m] but for the limbs in [P]. *)
Record frame (P : Z → Prop) (m m' : mem) : Prop := Frame {
  fr_out : ∀ q, ¬ P q → lim m' q = lim m q;
  fr_map : mapped m' = mapped m;
  fr_ctz : ctz0 m' = ctz0 m;
  fr_ok : bytes_ok m → bytes_ok m' }.

Definition seg (p n q : Z) : Prop := p <= q < p + n.

Lemma lim_range m p : bytes_ok m → is_u64 (lim m p).
Proof.
  intros Hm. unfold lim, word_at. pose proof (dec_le_range _ (bytes_at_range m (8 * p) 8 Hm)) as H.
  rewrite length_bytes_at in H. exact H.
Qed.

Lemma val_0 m p n : n <= 0 → val m p n = 0.
Proof. apply vsum_0. Qed.

Lemma val_1 m p : val m p 1 = lim m p.
Proof. unfold val, vsum. change (Z.to_nat 1) with 1%nat. cbn [nsum]. rewrite Z.add_0_r. lia. Qed.

Lemma val_S m p n : 0 <= n → val m p (n + 1) = val m p n + B ^ n * lim m (p + n).
Proof. intros. unfold val. by rewrite vsum_S. Qed.

Lemma val_range m p n : bytes_ok m → 0 <= n → 0 <= val m p n < B ^ n.
Proof. intros Hm Hn. apply vsum_range; [done|]. intros. by apply lim_range. Qed.

Lemma val_split m p a b : 0 <= a → 0 <= b → val m p (a + b) = val m p a + B ^ a * val m (p + a) b.
Proof. intros. unfold val. rewrite vsum_split by done. do 2 f_equal. apply vsum_ext. intros. f_equal. lia. Qed.

Lemma val_first m p n : 0 <= n → val m p (1 + n) = lim m p + B * val m (p + 1) n.
Proof. intros. by rewrite val_split, val_1, Z.pow_1_r by lia. Qed.

Lemma frame_refl P m : frame P m m.
Proof. done. Qed.

Lemma frame_weaken (P Q : Z → Prop) m m' : (∀ q, P q → Q q) → frame P m m' → frame Q m m'.
Proof. intros H [O M C K]. split; [|done..]. intros q Hq. apply O. auto. Qed.

Lemma frame_trans P m m1 m2 : frame P m m1 → frame P m1 m2 → frame P m m2.
Proof. intros [O M C K] [O' M' C' K']. split; [|congruence..|auto]. intros q Hq. by rewrite O', O. Qed.

(** Composing steps that stay within [Q]. *)
Lemma frame_step (P P' Q : Z → Prop) m m1 m2 :
  frame P m m1 → frame P' m1 m2 → (∀ q, P q → Q q) → (∀ q, P' q → Q q) → frame Q m m2.
Proof. intros H1 H2 HP HQ. exact (frame_trans _ _ _ _ (frame_weaken _ _ _ _ HP H1) (frame_weaken _ _ _ _ HQ H2)). Qed.

Lemma frame_val P m m' p n : frame P m m' → (∀ q, seg p n q → ¬ P q) → val m' p n = val m p n.
Proof. intros H HP. apply vsum_ext. intros i Hi. apply (fr_out _ _ _ H). apply HP. unfold seg. lia. Qed.

Lemma frame_avail P m m' p n : frame P m m' → avail m p n → avail m' p n.
Proof. intros H Ha q Hq. rewrite (fr_map _ _ _ H). by apply Ha. Qed.

Lemma avail_sub m p n q k : avail m p n → p <= q → q + k <= p + n → avail m q k.
Proof. intros H ?? x Hx. apply H. lia. Qed.

(** ** Accesses *)

Lemma limb_ok m p : mapped m (page (8 * p)) = true → limb p m = Some (lim m p, m).
Proof. intros. apply load_word_ok; [|done]. by rewrite Z.mul_comm, Z_mod_mult. Qed.

Lemma limb_at m p n q : avail m p n → seg p n q → limb q m = Some (lim m q, m).
Proof. intros H Hq. apply limb_ok. by apply H. Qed.

Lemma bytes_of_word w : is_u64 w → dec_le ((λ k, byte_of w (Z.of_nat k)) <$> seq 0 8) = w.
Proof.
  intros Hw. unfold is_u64 in Hw. cbn. unfold byte_of. cbn -[Z.mul Z.add Z.div Z.modulo].
  Z.to_euclidean_division_equations; lia.
Qed.

Lemma put_word_frame m p w : frame (λ q, q = p) m (put_word m (8 * p) w).
Proof.
  split; [|done..|].
  - intros q Hq. unfold lim, word_at. f_equal. apply list_fmap_ext. intros i k Hk.
    apply lookup_seq in Hk as [-> Hi]. cbn.
    by rewrite (proj2 (andb_false_iff _ _)) by (rewrite Z.leb_gt, Z.ltb_ge; lia).
  - intros Hm x. cbn. case_match; [apply Z.mod_pos_bound; lia|apply Hm].
Qed.

Lemma put_word_lim m p w : is_u64 w → lim (put_word m (8 * p) w) p = w.
Proof.
  intros Hw. rewrite <- (bytes_of_word w Hw) at 2. unfold lim, word_at. f_equal. apply list_fmap_ext. intros i k Hk.
  apply lookup_seq in Hk as [-> Hi]. cbn. rewrite (proj2 (andb_true_iff _ _)) by (rewrite Z.leb_le, Z.ltb_lt; lia).
  f_equal. lia.
Qed.

Lemma set_limb_ok m p w :
  mapped m (page (8 * p)) = true → is_u64 w →
  ∃ m', set_limb p w m = Some (tt, m') ∧ frame (λ q, q = p) m m' ∧ lim m' p = w.
Proof.
  intros Hp Hw. exists (put_word m (8 * p) w). split; [|split; [apply put_word_frame|by apply put_word_lim]].
  apply store_word_ok; [by rewrite Z.mul_comm, Z_mod_mult|done].
Qed.

(** ** The limb loops

    A round of a loop at limb [i] reads what the earlier rounds left alone, writes limb [i]
    of the result and passes a carry on, so that [w + B * (sg * cy')] is what it read plus
    the carry it got ([sg] is -1 for a borrow). *)

Section loop.
Context (n res sg : Z) (g : Z → Z) (R : Z → Prop) (body : Z → Z → W Z) (m0 : mem).

Definition round : Prop := ∀ i cy m,
  0 <= i < n → R cy → frame (seg res i) m0 m →
  ∃ cy' m', body (i - n) cy m = Some (cy', m') ∧ frame (λ q, q = res + i) m m' ∧ R cy' ∧
    lim m' (res + i) + B * (sg * cy') = g i + sg * cy.

Lemma do_limbs_from k i cy m :
  round → 0 <= i → Z.of_nat k = n - i → 0 < Z.of_nat k → R cy → frame (seg res i) m0 m →
  ∃ cy' m', do_limbs k (i - n) cy body m = Some (cy', m') ∧ frame (seg res n) m0 m' ∧ R cy' ∧
    val m' res n + B ^ n * (sg * cy') = val m res i + B ^ i * (vsum (λ j, g (i + j)) (n - i) + sg * cy).
Proof.
  intros Hb. revert i cy m. induction k as [|k IH]; intros i cy m Hi Hk Hk0 HR Hf; [lia|].
  destruct (Hb i cy m ltac:(lia) HR Hf) as (cy1 & m1 & E & F & HR1 & Hv). cbn [do_limbs]. rewrite (W_step _ _ _ _ _ E).
  assert (frame (seg res (i + 1)) m0 m1) as Hf1.
  { eapply frame_step; [exact Hf|exact F|unfold seg; lia|unfold seg; lia]. }
  assert (val m1 res (i + 1) = val m res i + B ^ i * lim m1 (res + i)) as Hval.
  { rewrite val_S by done. rewrite (frame_val _ m m1 _ _ F) by (unfold seg; lia). done. }
  assert (vsum (λ j, g (i + j)) (n - i) = g i + B * vsum (λ j, g (i + 1 + j)) (n - (i + 1))) as Hs.
  { replace (n - i) with (1 + (n - (i + 1))) by lia. rewrite vsum_split by lia. f_equal.
    - unfold vsum. change (Z.to_nat 1) with 1%nat. cbn [nsum]. rewrite Z.add_0_r. change (B ^ Z.of_nat 0) with 1. lia.
    - rewrite Z.pow_1_r. f_equal. apply vsum_ext. intros. f_equal. lia. }
  assert (lim m1 (res + i) = g i + sg * cy - B * (sg * cy1)) as HL by lia.
  pose proof (B_succ i Hi) as HB. destruct (i - n + 1 =? 0) eqn:Ej; zb.
  - exists cy1, m1. replace n with (i + 1) in * by lia. split; [done|]. split; [done|]. split; [done|].
    rewrite Hval, Hs, (vsum_0 _ (i + 1 - (i + 1))), HB, HL by lia. ring.
  - replace (i - n + 1) with (i + 1 - n) by lia.
    destruct (IH (i + 1) cy1 m1 ltac:(lia) ltac:(lia) ltac:(lia) HR1 Hf1) as (cy' & m' & E' & F' & HR' & Hv').
    exists cy', m'. split; [done|]. split; [done|]. split; [done|]. rewrite Hv', Hval, Hs, HB, HL. ring.
Qed.

Lemma do_limbs_ok cy :
  round → 0 < n → R cy →
  ∃ cy' m', do_limbs (Z.to_nat n) (- n) cy body m0 = Some (cy', m') ∧ frame (seg res n) m0 m' ∧ R cy' ∧
    val m' res n + B ^ n * (sg * cy') = vsum g n + sg * cy.
Proof.
  intros Hb Hn HR. destruct (do_limbs_from (Z.to_nat n) 0 cy m0 Hb ltac:(lia) ltac:(lia) ltac:(lia) HR (frame_refl _ _))
    as (cy' & m' & E & F & HR' & Hv). exists cy', m'. split; [exact E|]. split; [done|]. split; [done|].
  rewrite Hv, val_0 by lia. rewrite Z.sub_0_r, Z.pow_0_r, Z.mul_1_l, (vsum_ext (λ j, g (0 + j)) g) by done. done.
Qed.
End loop.

(** The operand at [s] is read before the result at [res] overwrites it. *)
Definition behind (res s n : Z) : Prop := res <= s ∨ s + n <= res.

Definition is_carry (cy : Z) : Prop := cy = 0 ∨ cy = 1.

Lemma behind_lim res s n i m0 m : behind res s n → 0 <= i < n → frame (seg res i) m0 m → lim m (s + i) = lim m0 (s + i).
Proof. intros Hb Hi Hf. apply (fr_out _ _ _ Hf). unfold seg, behind in *. lia. Qed.

(** The accesses of round [j], through a pointer moved by [n] and a negative index. *)
Lemma round_limb m0 m P p n j :
  avail m0 p n → frame P m0 m → 0 <= j < n → limb (p + n + (j - n)) m = Some (lim m (p + j), m).
Proof.
  intros Ha Hf Hj. replace (p + n + (j - n)) with (p + j) by lia.
  apply (limb_at m p n); [by eapply frame_avail|unfold seg; lia].
Qed.

Lemma round_set m0 m P p n j w :
  avail m0 p n → frame P m0 m → 0 <= j < n → is_u64 w →
  ∃ m', set_limb (p + n + (j - n)) w m = Some (tt, m') ∧ frame (λ x, x = p + j) m m' ∧ lim m' (p + j) = w.
Proof.
  intros Ha Hf Hj Hw. replace (p + n + (j - n)) with (p + j) by lia.
  apply set_limb_ok; [|done]. rewrite (fr_map _ _ _ Hf). apply Ha. lia.
Qed.

Section two.
Context (m0 : mem) (res s1 s2 n : Z).
Context (Hm : bytes_ok m0) (H1 : avail m0 s1 n) (H2 : avail m0 s2 n) (Hr : avail m0 res n).
Context (B1 : behind res s1 n) (B2 : behind res s2 n) (Hn : 0 < n).
Set Default Proof Using "All".

Lemma add_round : round n res 1 (λ i, lim m0 (s1 + i) + lim m0 (s2 + i)) is_carry (add_n_body (res + n) (s1 + n) (s2 + n)) m0.
Proof.
  intros i cy m Hi Hcy Hf. unfold add_n_body.
  rewrite (W_step _ _ _ _ _ (round_limb _ _ _ _ _ i H2 Hf Hi)), (W_step _ _ _ _ _ (round_limb _ _ _ _ _ i H1 Hf Hi)).
  rewrite (behind_lim _ _ _ _ _ _ B1 Hi Hf), (behind_lim _ _ _ _ _ _ B2 Hi Hf).
  pose proof (lim_range m0 (s1 + i) Hm). pose proof (lim_range m0 (s2 + i) Hm).
  set (x := lim m0 (s1 + i)) in *. set (y := lim m0 (s2 + i)) in *. cbv zeta.
  destruct (round_set _ _ _ _ _ i (u64 (x + u64 (y + cy))) Hr Hf Hi (u64_range _)) as (m' & E & F & L).
  rewrite (W_step _ _ _ _ _ E). eexists _, m'. split; [done|]. split; [done|]. rewrite L. clear - H H0 Hcy.
  unfold is_carry, is_u64, wrapu in *.
  destruct (_ <? cy) eqn:E1, (_ <? x) eqn:E2; cbn [Z.b2z]; zb; Z.to_euclidean_division_equations; lia.
Qed.

Lemma sub_round : round n res (-1) (λ i, lim m0 (s1 + i) + -1 * lim m0 (s2 + i)) is_carry (sub_n_body (res + n) (s1 + n) (s2 + n)) m0.
Proof.
  intros i cy m Hi Hcy Hf. unfold sub_n_body.
  rewrite (W_step _ _ _ _ _ (round_limb _ _ _ _ _ i H2 Hf Hi)), (W_step _ _ _ _ _ (round_limb _ _ _ _ _ i H1 Hf Hi)).
  rewrite (behind_lim _ _ _ _ _ _ B1 Hi Hf), (behind_lim _ _ _ _ _ _ B2 Hi Hf).
  pose proof (lim_range m0 (s1 + i) Hm). pose proof (lim_range m0 (s2 + i) Hm).
  set (x := lim m0 (s1 + i)) in *. set (y := lim m0 (s2 + i)) in *. cbv zeta.
  destruct (round_set _ _ _ _ _ i (u64 (x - u64 (y + cy))) Hr Hf Hi (u64_range _)) as (m' & E & F & L).
  rewrite (W_step _ _ _ _ _ E). eexists _, m'. split; [done|]. split; [done|]. rewrite L. clear - H H0 Hcy.
  unfold is_carry, is_u64, wrapu in *.
  destruct (_ <? cy) eqn:E1, (x <? _) eqn:E2; cbn [Z.b2z]; zb; Z.to_euclidean_division_equations; lia.
Qed.

Lemma mpn_add_n_ok :
  ∃ cy m', mpn_add_n res s1 s2 n m0 = Some (cy, m') ∧ frame (seg res n) m0 m' ∧ is_carry cy ∧
    val m' res n + B ^ n * cy = val m0 s1 n + val m0 s2 n.
Proof.
  destruct (do_limbs_ok n res 1 _ is_carry _ m0 0 add_round Hn (or_introl eq_refl)) as (cy & m' & E & F & R & V).
  exists cy, m'. unfold mpn_add_n. rewrite !Z.sub_opp_r. split; [exact E|]. split; [done|]. split; [done|].
  rewrite vsum_add in V. unfold val at 2 3. lia.
Qed.

Lemma mpn_sub_n_ok :
  ∃ cy m', mpn_sub_n res s1 s2 n m0 = Some (cy, m') ∧ frame (seg res n) m0 m' ∧ is_carry cy ∧
    val m' res n = val m0 s1 n - val m0 s2 n + B ^ n * cy.
Proof.
  destruct (do_limbs_ok n res (-1) _ is_carry _ m0 0 sub_round Hn (or_introl eq_refl)) as (cy & m' & E & F & R & V).
  exists cy, m'. unfold mpn_sub_n. rewrite !Z.sub_opp_r. split; [exact E|]. split; [done|]. split; [done|].
  rewrite vsum_add, vsum_scale in V. unfold val at 2 3. lia.
Qed.
End two.

Section one.
Context `{LongLong, !LongLongLaws _} (m0 : mem) (res s1 n v : Z).
Context (Hm : bytes_ok m0) (H1 : avail m0 s1 n) (Hr : avail m0 res n).
Context (B1 : behind res s1 n) (Hn : 0 < n) (Hv : is_u64 v).
Set Default Proof Using "All".

(** The product and the carry: no overflow in the high limb. *)
Lemma mul_carry x cy :
  is_u64 x → is_u64 cy → ∃ h l, umul_ppmm x v = (h, l) ∧
    let l' := u64 (l + cy) in let cy' := u64 (Z.b2z (l' <? cy) + h) in
    is_u64 l' ∧ is_u64 cy' ∧ l' + B * cy' = x * v + cy.
Proof.
  intros Hx Hc. destruct (umul_val x v Hx Hv) as [[Hh Hl] Hp]. destruct (umul_ppmm x v) as [h l]. exists h, l.
  split; [done|]. unfold pair_val in Hp. cbn in Hh, Hl, Hp. cbv zeta. split; [apply u64_range|]. split; [apply u64_range|].
  assert (x * v <= (2 ^ 64 - 1) * (2 ^ 64 - 1)) as Hle by (unfold is_u64 in *; nia).
  clear - Hp Hh Hl Hc Hle. unfold is_u64, wrapu in *.
  destruct (_ <? cy) eqn:E1; cbn [Z.b2z]; zb; Z.to_euclidean_division_equations; lia.
Qed.

Lemma mul_round : round n res 1 (λ i, v * lim m0 (s1 + i)) is_u64 (mul_1_body (res + n) (s1 + n) v) m0.
Proof.
  intros i cy m Hi Hcy Hf. unfold mul_1_body. rewrite (W_step _ _ _ _ _ (round_limb _ _ _ _ _ i H1 Hf Hi)).
  rewrite (behind_lim _ _ _ _ _ _ B1 Hi Hf). pose proof (lim_range m0 (s1 + i) Hm) as Hx.
  destruct (mul_carry _ cy Hx Hcy) as (h & l & -> & Hl' & Hc' & Hp). cbv zeta in Hl', Hc', Hp |- *.
  destruct (round_set _ _ _ _ _ i _ Hr Hf Hi Hl') as (m' & E & F & L). rewrite (W_step _ _ _ _ _ E).
  eexists _, m'. split; [done|]. split; [done|]. split; [done|]. rewrite L. lia.
Qed.

Lemma mpn_mul_1_ok :
  ∃ cy m', mpn_mul_1 res s1 n v m0 = Some (cy, m') ∧ frame (seg res n) m0 m' ∧ is_u64 cy ∧
    val m' res n + B ^ n * cy = v * val m0 s1 n.
Proof.
  destruct (do_limbs_ok n res 1 _ is_u64 _ m0 0 mul_round Hn ltac:(done)) as (cy & m' & E & F & R & V).
  exists cy, m'. unfold mpn_mul_1. rewrite !Z.sub_opp_r. split; [exact E|]. split; [done|]. split; [done|].
  rewrite vsum_scale in V. unfold val at 2. lia.
Qed.

Lemma addmul_round :
  round n res 1 (λ i, lim m0 (res + i) + v * lim m0 (s1 + i)) is_u64 (addmul_1_body (res + n) (s1 + n) v) m0.
Proof.
  intros i cy m Hi Hcy Hf. unfold addmul_1_body. rewrite (W_step _ _ _ _ _ (round_limb _ _ _ _ _ i H1 Hf Hi)).
  rewrite (behind_lim _ _ _ _ _ _ B1 Hi Hf). pose proof (lim_range m0 (s1 + i) Hm) as Hx.
  destruct (mul_carry _ cy Hx Hcy) as (h & l & -> & Hl & Hc & Hp). cbv zeta in Hl, Hc, Hp |- *.
  rewrite (W_step _ _ _ _ _ (round_limb _ _ _ _ _ i Hr Hf Hi)), (fr_out _ _ _ Hf) by (unfold seg; lia).
  pose proof (lim_range m0 (res + i) Hm) as Hy. set (l' := u64 (l + cy)) in *. set (c' := u64 _) in Hc, Hp |- *.
  destruct (round_set _ _ _ _ _ i (u64 (lim m0 (res + i) + l')) Hr Hf Hi (u64_range _)) as (m' & E & F & L).
  rewrite (W_step _ _ _ _ _ E). eexists _, m'. split; [done|]. split; [done|]. rewrite L.
  set (x := lim m0 (s1 + i)) in *. set (y := lim m0 (res + i)) in *.
  assert (x * v <= (2 ^ 64 - 1) * (2 ^ 64 - 1)) as Hle by (unfold is_u64 in *; nia).
  rewrite (Z.mul_comm v). clearbody l' c' x y. clear - Hle Hp Hl Hc Hy Hcy. unfold is_u64, wrapu in *.
  destruct (_ <? y) eqn:E1; cbn [Z.b2z]; zb; Z.to_euclidean_division_equations; lia.
Qed.

Lemma submul_round :
  round n res (-1) (λ i, lim m0 (res + i) + - v * lim m0 (s1 + i)) is_u64 (submul_1_body (res + n) (s1 + n) v) m0.
Proof.
  intros i cy m Hi Hcy Hf. unfold submul_1_body. rewrite (W_step _ _ _ _ _ (round_limb _ _ _ _ _ i H1 Hf Hi)).
  rewrite (behind_lim _ _ _ _ _ _ B1 Hi Hf). pose proof (lim_range m0 (s1 + i) Hm) as Hx.
  destruct (mul_carry _ cy Hx Hcy) as (h & l & -> & Hl & Hc & Hp). cbv zeta in Hl, Hc, Hp |- *.
  rewrite (W_step _ _ _ _ _ (round_limb _ _ _ _ _ i Hr Hf Hi)), (fr_out _ _ _ Hf) by (unfold seg; lia).
  pose proof (lim_range m0 (res + i) Hm) as Hy. set (l' := u64 (l + cy)) in *. set (c' := u64 _) in Hc, Hp |- *.
  destruct (round_set _ _ _ _ _ i (u64 (lim m0 (res + i) - l')) Hr Hf Hi (u64_range _)) as (m' & E & F & L).
  rewrite (W_step _ _ _ _ _ E). eexists _, m'. split; [done|]. split; [done|]. rewrite L.
  set (x := lim m0 (s1 + i)) in *. set (y := lim m0 (res + i)) in *.
  assert (x * v <= (2 ^ 64 - 1) * (2 ^ 64 - 1)) as Hle by (unfold is_u64 in *; nia).
  rewrite (Z.mul_comm (- v)), Z.mul_opp_r. clearbody l' c' x y. clear - Hle Hp Hl Hc Hy Hcy. unfold is_u64, wrapu in *.
  destruct (y <? _) eqn:E1; cbn [Z.b2z]; zb; Z.to_euclidean_division_equations; lia.
Qed.

Lemma mpn_addmul_1_ok :
  ∃ cy m', mpn_addmul_1 res s1 n v m0 = Some (cy, m') ∧ frame (seg res n) m0 m' ∧ is_u64 cy ∧
    val m' res n + B ^ n * cy = val m0 res n + v * val m0 s1 n.
Proof.
  destruct (do_limbs_ok n res 1 _ is_u64 _ m0 0 addmul_round Hn ltac:(done)) as (cy & m' & E & F & R & V).
  exists cy, m'. unfold mpn_addmul_1. rewrite !Z.sub_opp_r. split; [exact E|]. split; [done|]. split; [done|].
  rewrite vsum_add, vsum_scale in V. unfold val at 2 3. lia.
Qed.

Lemma mpn_submul_1_ok :
  ∃ cy m', mpn_submul_1 res s1 n v m0 = Some (cy, m') ∧ frame (seg res n) m0 m' ∧ is_u64 cy ∧
    val m' res n = val m0 res n - v * val m0 s1 n + B ^ n * cy.
Proof.
  destruct (do_limbs_ok n res (-1) _ is_u64 _ m0 0 submul_round Hn ltac:(done)) as (cy & m' & E & F & R & V).
  exists cy, m'. unfold mpn_submul_1. rewrite !Z.sub_opp_r. split; [exact E|]. split; [done|]. split; [done|].
  rewrite vsum_add, vsum_scale in V. unfold val at 2 3. lia.
Qed.
End one.

(** ** Comparison *)

Lemma limbs_cmp_loop_ok m a b k n :
  bytes_ok m → avail m a n → avail m b n → Z.of_nat k <= n →
  cmp_loop k a b (Z.of_nat k - 1) m =
    Some (match val m a (Z.of_nat k) ?= val m b (Z.of_nat k) with Lt => -1 | Eq => 0 | Gt => 1 end, m).
Proof.
  intros Hm Ha Hb. induction k as [|k IH]; intros Hk; [by rewrite !val_0|]. cbn [cmp_loop].
  replace (Z.of_nat (S k) - 1) with (Z.of_nat k) by lia.
  rewrite (W_step _ _ _ _ _ (limb_at m a n (a + Z.of_nat k) Ha ltac:(unfold seg; lia))).
  rewrite (W_step _ _ _ _ _ (limb_at m b n (b + Z.of_nat k) Hb ltac:(unfold seg; lia))).
  replace (Z.of_nat (S k)) with (Z.of_nat k + 1) by lia. rewrite !val_S by lia.
  pose proof (val_range m a (Z.of_nat k) Hm ltac:(lia)). pose proof (val_range m b (Z.of_nat k) Hm ltac:(lia)).
  pose proof (B_pos (Z.of_nat k) ltac:(lia)). destruct (lim m (a + _) =? lim m (b + _)) eqn:E; cbn [negb]; zb.
  - rewrite E, IH by lia. do 2 f_equal. destruct (Z.compare_spec (val m a (Z.of_nat k)) (val m b (Z.of_nat k))) as [e|l|g].
    + by rewrite e, Z.compare_refl.
    + symmetry. rewrite (proj2 (Z.compare_lt_iff _ _)) by lia. done.
    + symmetry. rewrite (proj2 (Z.compare_gt_iff _ _)) by lia. done.
  - do 2 f_equal. destruct (_ <? _) eqn:E2; zb.
    + rewrite (proj2 (Z.compare_gt_iff _ _)) by nia. done.
    + rewrite (proj2 (Z.compare_lt_iff _ _)) by nia. done.
Qed.

Lemma mpn_cmp_ok m a b n :
  bytes_ok m → avail m a n → avail m b n → 0 <= n →
  mpn_cmp a b n m = Some (match val m a n ?= val m b n with Lt => -1 | Eq => 0 | Gt => 1 end, m).
Proof.
  intros Hm Ha Hb Hn. unfold mpn_cmp. rewrite <- (Z2Nat.id n) at 2 by done.
  rewrite (limbs_cmp_loop_ok m a b _ n), Z2Nat.id by (done || lia). done.
Qed.

(** ** Copies *)

Lemma copy_loop_ok k m0 m dst src n i :
  avail m0 src n → avail m0 dst n → behind dst src n → bytes_ok m0 → 0 <= i → Z.of_nat k = n - i → frame (seg dst i) m0 m →
  (∀ j, 0 <= j < i → lim m (dst + j) = lim m0 (src + j)) →
  ∃ m', for_up k i (λ i, x ← limb (src + i); set_limb (dst + i) x) m = Some (tt, m') ∧ frame (seg dst n) m0 m' ∧
    ∀ j, 0 <= j < n → lim m' (dst + j) = lim m0 (src + j).
Proof.
  intros Hs Hd Hb Hm. revert i m. induction k as [|k IH]; intros i m Hi Hk Hf Hv.
  { exists m. replace n with i in * by lia. done. }
  cbn [for_up]. rewrite W_assoc.
  rewrite (W_step _ _ _ _ _ (limb_at m src n (src + i) (frame_avail _ _ _ _ _ Hf Hs) ltac:(unfold seg; lia))).
  rewrite (behind_lim dst src n i _ _ Hb ltac:(lia) Hf).
  destruct (set_limb_ok m (dst + i) (lim m0 (src + i))) as (m1 & E & F & L).
  { rewrite (fr_map _ _ _ Hf). apply Hd. lia. }
  { by apply lim_range. }
  rewrite (W_step _ _ _ _ _ E). apply IH; [lia..| |].
  - eapply frame_step; [exact Hf|exact F|unfold seg; lia..].
  - intros j Hj. destruct (decide (j = i)) as [->|]; [done|]. rewrite (fr_out _ _ _ F) by lia. apply Hv. lia.
Qed.

Lemma MPN_COPY_ok m dst src n :
  avail m src n → avail m dst n → behind dst src n → bytes_ok m → 0 <= n →
  ∃ m', MPN_COPY dst src n m = Some (tt, m') ∧ frame (seg dst n) m m' ∧ val m' dst n = val m src n.
Proof.
  intros Hs Hd Hb Hm Hn.
  destruct (copy_loop_ok (Z.to_nat n) m m dst src n 0 Hs Hd Hb Hm ltac:(lia) ltac:(lia) (frame_refl _ _) ltac:(lia)) as (m' & E & F & L).
  exists m'. split; [done|]. split; [done|]. by apply vsum_ext.
Qed.

Lemma zero_loop_ok k m0 m dst n i :
  avail m0 dst n → 0 <= i → Z.of_nat k = n - i → frame (seg dst i) m0 m → (∀ j, 0 <= j < i → lim m (dst + j) = 0) →
  ∃ m', for_up k i (λ i, set_limb (dst + i) 0) m = Some (tt, m') ∧ frame (seg dst n) m0 m' ∧
    ∀ j, 0 <= j < n → lim m' (dst + j) = 0.
Proof.
  intros Hd. revert i m. induction k as [|k IH]; intros i m Hi Hk Hf Hv.
  { exists m. replace n with i in * by lia. done. }
  cbn [for_up]. destruct (set_limb_ok m (dst + i) 0) as (m1 & E & F & L); [|done|].
  { rewrite (fr_map _ _ _ Hf). apply Hd. lia. }
  rewrite (W_step _ _ _ _ _ E). apply IH; [lia..| |].
  - eapply frame_step; [exact Hf|exact F|unfold seg; lia..].
  - intros j Hj. destruct (decide (j = i)) as [->|]; [done|]. rewrite (fr_out _ _ _ F) by lia. apply Hv. lia.
Qed.

Lemma vsum_zero n : vsum (λ _, 0) n = 0.
Proof. unfold vsum. induction (Z.to_nat n) as [|k IH]; cbn [nsum]; lia. Qed.

Lemma MPN_ZERO_ok m dst n :
  avail m dst n → 0 <= n → ∃ m', MPN_ZERO dst n m = Some (tt, m') ∧ frame (seg dst n) m m' ∧ val m' dst n = 0.
Proof.
  intros Hd Hn.
  destruct (zero_loop_ok (Z.to_nat n) m m dst n 0 Hd ltac:(lia) ltac:(lia) (frame_refl _ _) ltac:(lia)) as (m' & E & F & L).
  exists m'. split; [done|]. split; [done|]. rewrite <- (vsum_zero n). by apply vsum_ext.
Qed.
