(* ===== verification/MpnMul.v ===== *)
(** * MpnMul: adding and subtracting one limb, operands of different sizes, and the schoolbook product *)

From S2P Require Import Prelude Mem Logic Flat StrCpySpec Mpn MpnSpec.
Local Open Scope Z_scope.

Section carry.
Context (m0 : mem) (res s1 n : Z).
Context (Hm : bytes_ok m0) (H1 : avail m0 s1 n) (Hr : avail m0 res n) (B1 : behind res s1 n).
Set Default Proof Using "All".

(** The label [fin] with [i] limbs done: the others are copied, unless they are in place. *)
Lemma fin_ok i m :
  0 <= i <= n → frame (seg res i) m0 m →
  ∃ m', fin (res + i) (s1 + i) (n - i + 1) m = Some (0, m') ∧ frame (seg res n) m0 m' ∧
    val m' res n = val m res i + B ^ i * val m0 (s1 + i) (n - i).
Proof.
  intros Hi Hf. unfold fin. replace (n - i + 1 - 1) with (n - i) by lia.
  assert (val m (s1 + i) (n - i) = val m0 (s1 + i) (n - i)) as Hv.
  { apply (frame_val _ _ _ _ _ Hf). unfold seg, behind in *. lia. }
  assert (∀ m', val m' res n = val m' res i + B ^ i * val m' (res + i) (n - i)) as Hs.
  { intros m'. rewrite <- val_split by lia. f_equal. lia. }
  destruct (res + i =? s1 + i) eqn:E; cbn [negb]; zb.
  - exists m. split; [done|]. split; [eapply frame_weaken; [|exact Hf]; unfold seg; lia|].
    rewrite Hs. by rewrite <- Hv, E.
  - pose proof (MPN_COPY_ok m (res + i) (s1 + i) (n - i)) as HC.
    destruct HC as (m' & EC & FC & VC).
    + eapply frame_avail; [exact Hf|]. eapply avail_sub; [exact H1|lia..].
    + eapply frame_avail; [exact Hf|]. eapply avail_sub; [exact Hr|lia..].
    + unfold behind in *. lia.
    + by apply (fr_ok _ _ _ Hf).
    + lia.
    + exists m'. unfold MPN_COPY_INCR in EC. rewrite (W_step _ _ _ _ _ EC). split; [done|].
      split; [eapply frame_step; [exact Hf|exact FC|unfold seg; lia..]|].
      rewrite Hs, VC, Hv, (frame_val _ _ _ res i FC) by (unfold seg; lia). done.
Qed.

(** A round of the two [while] loops: limb [i] is read and replaced. *)
Lemma carry_round i m w :
  0 <= i < n → frame (seg res i) m0 m → is_u64 w →
  limb (s1 + i) m = Some (lim m0 (s1 + i), m) ∧
  ∃ m', set_limb (res + i) w m = Some (tt, m') ∧ frame (seg res (i + 1)) m0 m' ∧ val m' res (i + 1) = val m res i + B ^ i * w.
Proof.
  intros Hi Hf Hw. split.
  - rewrite (limb_at m s1 n (s1 + i)); [|by eapply frame_avail|unfold seg; lia]. by rewrite (behind_lim _ _ _ _ _ _ B1 Hi Hf).
  - destruct (set_limb_ok m (res + i) w) as (m' & E & F & L); [rewrite (fr_map _ _ _ Hf); apply Hr; lia|done|].
    exists m'. split; [done|]. split; [eapply frame_step; [exact Hf|exact F|unfold seg; lia..]|].
    rewrite val_S, L, (frame_val _ _ _ _ _ F) by (unfold seg; lia). done.
Qed.

(** The end of [mpn_add_1] and [mpn_sub_1] from the state the [while] loop leaves. *)
Lemma carry_end (x : option (Z * Z * Z)) m (V : Z → Z) c :
  match x with
  | None => frame (seg res n) m0 m ∧ val m res n = V n + B ^ n * c
  | Some (r, s, k) => ∃ i, 0 <= i <= n ∧ r = res + i ∧ s = s1 + i ∧ k = n - i + 1 ∧ frame (seg res i) m0 m ∧ val m res i = V i
  end → (∀ i, 0 <= i <= n → V n = V i + B ^ i * val m0 (s1 + i) (n - i)) →
  ∃ cy m', match x with None => mret 1 | Some (r, s, k) => fin r s k end m = Some (cy, m') ∧ frame (seg res n) m0 m' ∧
    (cy = 0 ∨ cy = 1) ∧ val m' res n = V n + B ^ n * (c * cy).
Proof.
  intros Hx HV. destruct x as [[[r s] k]|].
  - destruct Hx as (i & Hi & -> & -> & -> & Hf & Hv). destruct (fin_ok i m Hi Hf) as (m' & E & F & Ve).
    exists 0, m'. split; [done|]. split; [done|]. split; [by left|]. rewrite Ve, Hv, (HV i) by done. lia.
  - destruct Hx as [Hf Hv]. exists 1, m. split; [done|]. split; [done|]. split; [by right|]. by rewrite Z.mul_1_r.
Qed.

(** The operand [s1] with [v] added at the bottom, in pieces. *)
Lemma val_piece v i : 0 <= i <= n → val m0 s1 n + v = val m0 s1 i + v + B ^ i * val m0 (s1 + i) (n - i).
Proof. intros Hi. replace (val m0 s1 n) with (val m0 s1 (i + (n - i))) by (f_equal; lia). rewrite val_split by lia. lia. Qed.

Lemma add_1_while_ok k i m v :
  1 <= i <= n → Z.of_nat k >= n - i + 1 → frame (seg res i) m0 m → val m res i = val m0 s1 i + v - B ^ i →
  ∃ x m', add_1_while k (res + i) (s1 + i) (n - i + 1) m = Some (x, m') ∧
    match x with
    | None => frame (seg res n) m0 m' ∧ val m' res n = val m0 s1 n + v + B ^ n * -1
    | Some (r, s, k) => ∃ i, 0 <= i <= n ∧ r = res + i ∧ s = s1 + i ∧ k = n - i + 1 ∧ frame (seg res i) m0 m' ∧ val m' res i = val m0 s1 i + v
    end.
Proof.
  revert i m. induction k as [|k IH]; intros i m Hi Hk Hf Hv; [lia|]. cbn [add_1_while].
  replace (n - i + 1 - 1) with (n - i) by lia. destruct (n - i =? 0) eqn:E; zb.
  - exists None, m. split; [done|]. replace n with i by lia. split; [done|]. lia.
  - pose proof (lim_range m0 (s1 + i) Hm) as Hx.
    destruct (carry_round i m (u64 (lim m0 (s1 + i) + 1)) ltac:(lia) Hf (u64_range _)) as (El & m' & Es & F & V).
    rewrite (W_step _ _ _ _ _ El), (W_step _ _ _ _ _ Es). rewrite Hv in V. unfold is_u64 in Hx.
    destruct (u64 (lim m0 (s1 + i) + 1) =? 0) eqn:Ew; cbn [negb]; zb.
    + replace (res + i + 1) with (res + (i + 1)) by lia. replace (s1 + i + 1) with (s1 + (i + 1)) by lia.
      replace (n - i) with (n - (i + 1) + 1) by lia. apply IH; [lia..|done|].
      rewrite V, val_S, B_succ, Ew by lia. replace (lim m0 (s1 + i)) with (B - 1); [ring|].
      unfold wrapu in Ew. Z.to_euclidean_division_equations; lia.
    + exists (Some (res + i + 1, s1 + i + 1, n - i)), m'. split; [done|]. exists (i + 1). split; [lia|].
      split; [lia|]. split; [lia|]. split; [lia|]. split; [done|]. rewrite V, val_S by lia.
      replace (u64 (lim m0 (s1 + i) + 1)) with (lim m0 (s1 + i) + 1); [ring|].
      unfold wrapu in *. Z.to_euclidean_division_equations; lia.
Qed.

Lemma sub_1_while_ok k i m v :
  1 <= i <= n → Z.of_nat k >= n - i + 1 → frame (seg res i) m0 m → val m res i = val m0 s1 i + v + B ^ i →
  ∃ x m', sub_1_while k (res + i) (s1 + i) (n - i + 1) m = Some (x, m') ∧
    match x with
    | None => frame (seg res n) m0 m' ∧ val m' res n = val m0 s1 n + v + B ^ n * 1
    | Some (r, s, k) => ∃ i, 0 <= i <= n ∧ r = res + i ∧ s = s1 + i ∧ k = n - i + 1 ∧ frame (seg res i) m0 m' ∧ val m' res i = val m0 s1 i + v
    end.
Proof.
  revert i m. induction k as [|k IH]; intros i m Hi Hk Hf Hv; [lia|]. cbn [sub_1_while].
  replace (n - i + 1 - 1) with (n - i) by lia. destruct (n - i =? 0) eqn:E; zb.
  - exists None, m. split; [done|]. replace n with i by lia. split; [done|]. lia.
  - pose proof (lim_range m0 (s1 + i) Hm) as Hx.
    destruct (carry_round i m (u64 (lim m0 (s1 + i) - 1)) ltac:(lia) Hf (u64_range _)) as (El & m' & Es & F & V).
    rewrite (W_step _ _ _ _ _ El), (W_step _ _ _ _ _ Es). rewrite Hv in V. unfold is_u64 in Hx.
    destruct (lim m0 (s1 + i) =? 0) eqn:Ew; cbn [negb]; zb.
    + replace (res + i + 1) with (res + (i + 1)) by lia. replace (s1 + i + 1) with (s1 + (i + 1)) by lia.
      replace (n - i) with (n - (i + 1) + 1) by lia. apply IH; [lia..|done|].
      rewrite V, val_S, B_succ, Ew by lia. change (u64 (0 - 1)) with (B - 1). ring.
    + exists (Some (res + i + 1, s1 + i + 1, n - i)), m'. split; [done|]. exists (i + 1). split; [lia|].
      split; [lia|]. split; [lia|]. split; [lia|]. split; [done|]. rewrite V, val_S by lia.
      replace (u64 (lim m0 (s1 + i) - 1)) with (lim m0 (s1 + i) - 1); [ring|].
      unfold wrapu in *. Z.to_euclidean_division_equations; lia.
Qed.

Lemma mpn_add_1_ok v :
  1 <= n → is_u64 v →
  ∃ cy m', mpn_add_1 res s1 n v m0 = Some (cy, m') ∧ frame (seg res n) m0 m' ∧ is_carry cy ∧
    val m' res n + B ^ n * cy = val m0 s1 n + v.
Proof.
  intros Hn Hv. unfold mpn_add_1. pose proof (lim_range m0 s1 Hm) as Hx.
  destruct (carry_round 0 m0 (u64 (lim m0 s1 + v)) ltac:(lia) (frame_refl _ _) (u64_range _)) as (El & m' & Es & F & V).
  rewrite !Z.add_0_r in El, Es. rewrite (val_0 m0 res 0), Z.pow_0_r, Z.mul_1_l, Z.add_0_l in V by lia. change (0 + 1) with 1 in F, V.
  rewrite (W_step _ _ _ _ _ El), (W_step _ _ _ _ _ Es). destruct (_ <? lim m0 s1) eqn:E; zb.
  - destruct (add_1_while_ok (Z.to_nat n) 1 m' v ltac:(lia) ltac:(lia) F) as (x & m1 & Ew & Hw).
    { rewrite V, val_1, Z.pow_1_r. unfold is_u64, wrapu in *. Z.to_euclidean_division_equations; lia. }
    replace (n - 1 + 1) with n in Ew by lia. rewrite (W_step _ _ _ _ _ Ew).
    destruct (carry_end x m1 (λ i, val m0 s1 i + v) (-1) Hw (val_piece v)) as (cy & m2 & E2 & F2 & C2 & V2).
    exists cy, m2. split; [exact E2|]. split; [done|]. split; [done|]. lia.
  - destruct (fin_ok 1 m' ltac:(lia) F) as (m2 & E2 & F2 & V2). exists 0, m2.
    replace (n - 1 + 1) with n in E2 by lia. split; [exact E2|]. split; [done|]. split; [by left|].
    rewrite V2, V, (val_piece v 1), val_1 by lia. unfold is_u64, wrapu in *.
    replace ((lim m0 s1 + v) mod 2 ^ 64) with (lim m0 s1 + v) by (Z.to_euclidean_division_equations; lia). lia.
Qed.

Lemma mpn_sub_1_ok v :
  1 <= n → is_u64 v →
  ∃ cy m', mpn_sub_1 res s1 n v m0 = Some (cy, m') ∧ frame (seg res n) m0 m' ∧ is_carry cy ∧
    val m' res n = val m0 s1 n - v + B ^ n * cy.
Proof.
  intros Hn Hv. unfold mpn_sub_1. pose proof (lim_range m0 s1 Hm) as Hx.
  destruct (carry_round 0 m0 (u64 (lim m0 s1 - v)) ltac:(lia) (frame_refl _ _) (u64_range _)) as (El & m' & Es & F & V).
  rewrite !Z.add_0_r in El, Es. rewrite (val_0 m0 res 0), Z.pow_0_r, Z.mul_1_l, Z.add_0_l in V by lia. change (0 + 1) with 1 in F, V.
  rewrite (W_step _ _ _ _ _ El), (W_step _ _ _ _ _ Es). destruct (lim m0 s1 <? _) eqn:E; zb.
  - destruct (sub_1_while_ok (Z.to_nat n) 1 m' (- v) ltac:(lia) ltac:(lia) F) as (x & m1 & Ew & Hw).
    { rewrite V, val_1, Z.pow_1_r. unfold is_u64, wrapu in *. Z.to_euclidean_division_equations; lia. }
    replace (n - 1 + 1) with n in Ew by lia. rewrite (W_step _ _ _ _ _ Ew).
    destruct (carry_end x m1 (λ i, val m0 s1 i + - v) 1 Hw (val_piece (- v))) as (cy & m2 & E2 & F2 & C2 & V2).
    exists cy, m2. split; [exact E2|]. split; [done|]. split; [done|]. lia.
  - destruct (fin_ok 1 m' ltac:(lia) F) as (m2 & E2 & F2 & V2). exists 0, m2.
    replace (n - 1 + 1) with n in E2 by lia. split; [exact E2|]. split; [done|]. split; [by left|].
    pose proof (val_piece (- v) 1 ltac:(lia)) as Hp. rewrite val_1, Z.pow_1_r in Hp. rewrite V2, V, Z.pow_1_r. unfold is_u64, wrapu in *.
    replace ((lim m0 s1 - v) mod 2 ^ 64) with (lim m0 s1 - v) by (Z.to_euclidean_division_equations; lia). lia.
Qed.
End carry.

(** Inclusions and disjointness of segments. *)
Ltac segs := unfold seg, apart, behind in *; lia.

(** ** Rows *)

Lemma behind_self p n : behind p p n.
Proof. left. lia. Qed.

Lemma apart_behind p k u n : apart p k u n → n <= k → behind p u n.
Proof. segs. Qed.

(** [cy] is stored above the [n] limbs at [p]. *)
Lemma store_carry m m1 p n cy :
  avail m p (n + 1) → 0 <= n → frame (seg p n) m m1 → is_u64 cy →
  ∃ m2, set_limb (p + n) cy m1 = Some (tt, m2) ∧ frame (seg p (n + 1)) m m2 ∧ val m2 p (n + 1) = val m1 p n + B ^ n * cy.
Proof.
  intros Ha Hn Hf Hc. destruct (set_limb_ok m1 (p + n) cy) as (m2 & E & F & L); [|done|].
  { rewrite (fr_map _ _ _ Hf). apply Ha. lia. }
  exists m2. split; [done|]. split; [eapply frame_step; [exact Hf|exact F|segs..]|].
  rewrite val_S, L, (frame_val _ _ _ _ _ F) by segs. done.
Qed.

Section rows.
Context `{LongLong, !LongLongLaws _}.
Set Default Proof Using "All".

Lemma mul_row0_ok m p u n v :
  bytes_ok m → avail m p (n + 1) → avail m u n → mapped m (page (8 * v)) = true → apart p (n + 1) u n → 1 <= n →
  ∃ cy m', mul_row0 p u n v m = Some (cy, m') ∧ frame (seg p (n + 1)) m m' ∧
    val m' p (n + 1) = val m u n * lim m v ∧ cy = lim m' (p + n).
Proof.
  intros Hm Hp Hu Hv Ha Hn. unfold mul_row0. rewrite (W_step _ _ _ _ _ (limb_ok m v Hv)).
  pose proof (lim_range m v Hm) as Hr. pose proof (avail_sub _ _ _ p n Hp ltac:(lia) ltac:(lia)) as Hp'.
  assert (∃ cy m1, (if lim m v <=? 1
     then (if lim m v =? 1 then MPN_COPY p u n else MPN_ZERO p n);; mret 0 else mpn_mul_1 p u n (lim m v)) m = Some (cy, m1) ∧
     frame (seg p n) m m1 ∧ is_u64 cy ∧ val m1 p n + B ^ n * cy = val m u n * lim m v) as (cy & m1 & E & F & C & V).
  { destruct (lim m v <=? 1) eqn:E1; zb.
    - destruct (lim m v =? 1) eqn:E2; zb.
      + destruct (MPN_COPY_ok m p u n Hu Hp' (apart_behind _ _ _ _ Ha ltac:(lia)) Hm ltac:(lia)) as (m1 & E & F & V).
        exists 0, m1. rewrite (W_step _ _ _ _ _ E). do 3 (split; [done|]). rewrite V, E2. lia.
      + destruct (MPN_ZERO_ok m p n Hp' ltac:(lia)) as (m1 & E & F & V).
        exists 0, m1. rewrite (W_step _ _ _ _ _ E). do 3 (split; [done|]). unfold is_u64 in Hr. replace (lim m v) with 0 by lia. lia.
    - destruct (mpn_mul_1_ok m p u n (lim m v) Hm Hu Hp' (apart_behind _ _ _ _ Ha ltac:(lia)) ltac:(lia) Hr) as (cy & m1 & E & F & C & V).
      exists cy, m1. do 3 (split; [done|]). lia. }
  rewrite (W_step _ _ _ _ _ E). destruct (store_carry m m1 p n cy Hp ltac:(lia) F C) as (m2 & E2 & F2 & V2).
  rewrite (W_step _ _ _ _ _ E2). exists cy, m2. split; [done|]. split; [done|]. split; [by rewrite V2|].
  destruct (set_limb_ok m1 (p + n) cy) as (m3 & E3 & _ & L3); [rewrite (fr_map _ _ _ F); apply Hp; lia|done|].
  congruence.
Qed.

(** A further row adds [v] times [u] at [p]. *)
Lemma mul_row_ok m p u n v :
  bytes_ok m → avail m p (n + 1) → avail m u n → apart p (n + 1) u n → 1 <= n → is_u64 v →
  ∃ cy m1, (if v <=? 1 then if v =? 1 then mpn_add_n p p u n else mret 0 else mpn_addmul_1 p u n v) m = Some (cy, m1) ∧
    frame (seg p n) m m1 ∧ is_u64 cy ∧ val m1 p n + B ^ n * cy = val m p n + v * val m u n.
Proof.
  intros Hm Hp Hu Ha Hn Hv. pose proof (avail_sub _ _ _ p n Hp ltac:(lia) ltac:(lia)) as Hp'.
  pose proof (apart_behind _ _ _ _ Ha ltac:(lia)) as Hb. destruct (v <=? 1) eqn:E1; zb.
  - destruct (v =? 1) eqn:E2; zb.
    + destruct (mpn_add_n_ok m p p u n Hm Hp' Hu Hp' (behind_self p n) Hb ltac:(lia)) as (cy & m1 & E & F & C & V).
      exists cy, m1. split; [done|]. split; [done|]. split; [unfold is_carry in C; unfold is_u64; lia|]. rewrite V, E2. lia.
    + exists 0, m. split; [done|]. split; [done|]. split; [done|]. unfold is_u64 in Hv. replace v with 0 by lia. lia.
  - apply mpn_addmul_1_ok; done || lia.
Qed.

Lemma mul_rows_ok k m p u n v nv i cy :
  bytes_ok m → avail m p (n + nv) → avail m u n → avail m v nv → apart p (n + nv) u n → apart p (n + nv) v nv →
  1 <= n → 1 <= i → Z.of_nat k = nv - i → cy = lim m (p + i + n - 1) →
  val m p (n + i) = val m u n * val m v i →
  ∃ cy' m', mul_rows k (p + i) u n v i cy m = Some (cy', m') ∧ frame (seg p (n + nv)) m m' ∧
    val m' p (n + nv) = val m u n * val m v nv ∧ cy' = lim m' (p + n + nv - 1).
Proof.
  intros Hm Hp Hu Hv Hau Hav Hn. revert m i cy Hm Hp Hu Hv. induction k as [|k IH]; intros m i cy Hm Hp Hu Hv Hi Hk Hcy Hval.
  { replace i with nv in * by lia. exists cy, m. split; [done|]. split; [done|]. split; [done|]. rewrite Hcy. f_equal. lia. }
  cbn [mul_rows]. pose proof (lim_range m (v + i) Hm) as Hr.
  rewrite (W_step _ _ _ _ _ (limb_at m v nv (v + i) Hv ltac:(segs))).
  assert (avail m (p + i) (n + 1)) as Hp1 by (eapply avail_sub; [exact Hp|lia..]).
  destruct (mul_row_ok m (p + i) u n (lim m (v + i)) Hm Hp1 Hu ltac:(segs) Hn Hr) as (c & m1 & E & F & C & V).
  rewrite (W_step _ _ _ _ _ E). destruct (store_carry m m1 (p + i) n c Hp1 ltac:(lia) F C) as (m2 & E2 & F2 & V2).
  rewrite (W_step _ _ _ _ _ E2).
  assert (val m2 u n = val m u n) as HU by (apply (frame_val _ _ _ _ _ F2); segs).
  assert (∀ j, j <= nv → val m2 v j = val m v j) as HV by (intros j Hj; apply (frame_val _ _ _ _ _ F2); segs).
  destruct (IH m2 (i + 1) c) as (cy' & m' & E' & F' & V' & C'); try lia.
  - by apply (fr_ok _ _ _ F2).
  - by eapply frame_avail.
  - by eapply frame_avail.
  - by eapply frame_avail.
  - destruct (set_limb_ok m1 (p + i + n) c) as (m3 & E3 & _ & L3); [rewrite (fr_map _ _ _ F); apply Hp; lia|done|].
    replace (p + (i + 1) + n - 1) with (p + i + n) by lia. congruence.
  - replace (n + (i + 1)) with (i + (n + 1)) by lia. rewrite val_split by lia.
    rewrite (frame_val _ _ _ p i F2) by segs. rewrite V2, V, HU, (HV (i + 1)), val_S by lia.
    replace (n + i) with (i + n) in Hval by lia. rewrite val_split in Hval by lia. lia.
  - exists cy', m'. replace (p + i + 1) with (p + (i + 1)) by lia. split; [exact E'|].
    split; [eapply frame_step; [exact F2|exact F'|segs..]|]. rewrite V', HU, (HV nv) by lia. done.
Qed.
End rows.

(** What a multiplication promises: the product at [p], nothing else written but [P]. *)
Definition product (P : Z → Prop) (f : W unit) (m : mem) (p n x : Z) : Prop :=
  ∃ m', f m = Some (tt, m') ∧ frame P m m' ∧ val m' p n = x.

Section base.
Context `{LongLong, !LongLongLaws _}.
Set Default Proof Using "All".

Lemma mul_basecase_ok m p u n v nv :
  bytes_ok m → avail m p (n + nv) → avail m u n → avail m v nv → apart p (n + nv) u n → apart p (n + nv) v nv →
  1 <= n → 1 <= nv →
  ∃ cy m', (cy ← mul_row0 p u n v; mul_rows (Z.to_nat (nv - 1)) (p + 1) u n v 1 cy) m = Some (cy, m') ∧
    frame (seg p (n + nv)) m m' ∧ val m' p (n + nv) = val m u n * val m v nv ∧ cy = lim m' (p + n + nv - 1).
Proof.
  intros Hm Hp Hu Hv Hau Hav Hn Hnv.
  destruct (mul_row0_ok m p u n v Hm) as (c & m1 & E & F & V & C); [eapply avail_sub; [exact Hp|lia..]|done| |segs|done|].
  { apply Hv. lia. }
  rewrite (W_step _ _ _ _ _ E).
  assert (val m1 u n = val m u n) as HU by (apply (frame_val _ _ _ _ _ F); segs).
  assert (∀ j, j <= nv → val m1 v j = val m v j) as HV by (intros j Hj; apply (frame_val _ _ _ _ _ F); segs).
  destruct (mul_rows_ok (Z.to_nat (nv - 1)) m1 p u n v nv 1 c) as (c' & m2 & E2 & F2 & V2 & C2); try (done || lia).
  - by apply (fr_ok _ _ _ F).
  - by eapply frame_avail.
  - by eapply frame_avail.
  - by eapply frame_avail.
  - rewrite C. f_equal. lia.
  - rewrite V, HU, (HV 1), val_1 by lia. done.
  - exists c', m2. split; [exact E2|]. split; [eapply frame_step; [exact F|exact F2|segs..]|].
    rewrite V2, HU, (HV nv) by lia. done.
Qed.

Lemma impn_mul_n_basecase_ok m p u v n :
  bytes_ok m → avail m p (n + n) → avail m u n → avail m v n → apart p (n + n) u n → apart p (n + n) v n → 1 <= n →
  product (seg p (n + n)) (impn_mul_n_basecase p u v n) m p (n + n) (val m u n * val m v n).
Proof.
  intros Hm Hp Hu Hv Hau Hav Hn. destruct (mul_basecase_ok m p u n v n) as (cy & m' & E & F & V & _); try done.
  exists m'. split; [|done]. unfold impn_mul_n_basecase. rewrite <- W_assoc. by rewrite (W_step _ _ _ _ _ E).
Qed.
End base.
