(* ===== verification/MpnKara.v ===== *)
(** * MpnKara: Karatsuba's recursion computes the product *)

From S2P Require Import Prelude Mem Logic Flat StrCpySpec Mpn MpnSpec MpnMul.
Local Open Scope Z_scope.

Lemma frame_avail' P m m' p n : avail m p n → frame P m m' → avail m' p n.
Proof. intros ? H. by eapply frame_avail. Qed.

Lemma frame_bytes P m m' : bytes_ok m → frame P m m' → bytes_ok m'.
Proof. intros ? H. by apply (fr_ok _ _ _ H). Qed.

(** A step within a larger area. *)
Ltac widen F := eapply frame_weaken; [|exact F]; intros; segs.

(** The difference of two numbers, its sign apart. *)
Lemma abs_diff_ok m dst a b n :
  bytes_ok m → avail m a n → avail m b n → avail m dst n → behind dst a n → behind dst b n → 1 <= n →
  ∃ m', abs_diff dst a b n m = Some (val m b n <=? val m a n, m') ∧ frame (seg dst n) m m' ∧
    val m' dst n = Z.abs (val m a n - val m b n).
Proof.
  intros Hm Ha Hb Hd Ba Bb Hn. unfold abs_diff. rewrite (W_step _ _ _ _ _ (mpn_cmp_ok m a b n Hm Ha Hb ltac:(lia))).
  pose proof (val_range m a n Hm ltac:(lia)). pose proof (val_range m b n Hm ltac:(lia)).
  assert (∀ m' x y cy, bytes_ok m' → is_carry cy → val m' dst n = x - y + B ^ n * cy → 0 <= y <= x → x < B ^ n → cy = 0 ∧ val m' dst n = x - y) as Hc.
  { intros m' x y cy Hm' Hcy Hv Hxy Hx. pose proof (val_range m' dst n Hm' ltac:(lia)). destruct Hcy as [-> | ->]; lia. }
  destruct (Z.compare_spec (val m a n) (val m b n)) as [e|l|g]; cbn [Z.leb Z.compare].
  - destruct (mpn_sub_n_ok m dst a b n Hm Ha Hb Hd Ba Bb ltac:(lia)) as (cy & m' & E & F & C & V).
    rewrite (W_step _ _ _ _ _ E). exists m'. destruct (Hc m' _ _ _ (frame_bytes _ _ _ Hm F) C V) as [_ V']; [lia..|].
    rewrite (proj2 (Z.leb_le _ _)) by lia. split; [done|]. split; [done|]. lia.
  - destruct (mpn_sub_n_ok m dst b a n Hm Hb Ha Hd Bb Ba ltac:(lia)) as (cy & m' & E & F & C & V).
    rewrite (W_step _ _ _ _ _ E). exists m'. destruct (Hc m' _ _ _ (frame_bytes _ _ _ Hm F) C V) as [_ V']; [lia..|].
    rewrite (proj2 (Z.leb_gt _ _)) by lia. split; [done|]. split; [done|]. lia.
  - destruct (mpn_sub_n_ok m dst a b n Hm Ha Hb Hd Ba Bb ltac:(lia)) as (cy & m' & E & F & C & V).
    rewrite (W_step _ _ _ _ _ E). exists m'. destruct (Hc m' _ _ _ (frame_bytes _ _ _ Hm F) C V) as [_ V']; [lia..|].
    rewrite (proj2 (Z.leb_le _ _)) by lia. split; [done|]. split; [done|]. lia.
Qed.

(** Carries are added up modulo the limb. *)
Lemma u64_add a b : u64 (u64 a + b) = u64 (a + b).
Proof. unfold wrapu. by rewrite Zplus_mod_idemp_l. Qed.

Lemma u64_sub a b : u64 (u64 a - b) = u64 (a - b).
Proof. unfold wrapu. by rewrite Zminus_mod_idemp_l. Qed.

(** ** The sum of the three products

    [P] and [T] are the result and the scratch space of [4 * h] limbs, [h] half the size
    of the operands. *)
Section tail.
Context (P T h : Z) (Hh : 1 <= h) (HPT : apart P (4 * h) T (4 * h)).
Set Default Proof Using "All".

Notation size := (2 * h).

(** What lies above the low half of the low product. *)
Definition mid (m : mem) : Z := val m (P + h) (3 * h).

Lemma mid_split m : mid m = val m (P + h) size + B ^ size * val m (P + h + size) h.
Proof. unfold mid. rewrite <- val_split by lia. f_equal. lia. Qed.

Lemma karatsuba_H_ok m :
  bytes_ok m → avail m P (4 * h) →
  ∃ cy m', karatsuba_H P size h m = Some (cy, m') ∧ frame (seg (P + h) size) m m' ∧ is_carry cy ∧
    mid m' + B ^ size * cy = val m (P + size) size * (1 + B ^ h).
Proof.
  intros Hm Ha. unfold karatsuba_H.
  destruct (MPN_COPY_ok m (P + h) (P + size) h) as (m1 & E1 & F1 & V1); [eapply avail_sub; [exact Ha|lia..]|eapply avail_sub; [exact Ha|lia..]|segs|done|lia|].
  rewrite (W_step _ _ _ _ _ E1). pose proof (frame_bytes _ _ _ Hm F1) as Hm1. pose proof (frame_avail' _ _ _ _ _ Ha F1) as Ha1.
  destruct (mpn_add_n_ok m1 (P + size) (P + size) (P + size + h) h) as (cy & m2 & E2 & F2 & C & V2);
    [done|eapply avail_sub; [exact Ha1|lia..]|eapply avail_sub; [exact Ha1|lia..]|eapply avail_sub; [exact Ha1|lia..]|segs|segs|lia|].
  exists cy, m2. split; [done|]. split; [eapply frame_step; [exact F1|exact F2|segs..]|]. split; [done|].
  rewrite (frame_val _ _ _ (P + size) h F1), (frame_val _ _ _ (P + size + h) h F1) in V2 by segs.
  unfold mid. replace (3 * h) with (h + (h + h)) by lia. rewrite !val_split by lia.
  rewrite (frame_val _ _ _ (P + h) h F2), V1 by segs. replace (P + h + h) with (P + size) by lia.
  rewrite (frame_val _ _ _ (P + size + h) h F2), (frame_val _ _ _ (P + size + h) h F1) by segs.
  replace (val m (P + size) size) with (val m (P + size) h + B ^ h * val m (P + size + h) h) by (rewrite <- val_split by lia; f_equal; lia).
  replace (B ^ size) with (B ^ h * B ^ h) by (rewrite <- B_add by lia; f_equal; lia).
  replace (val m2 (P + size) h) with (val m (P + size) h + val m (P + size + h) h - B ^ h * cy) by lia. ring.
Qed.

(** The product M is added or subtracted; the carry [k] may be negative for now. *)
Lemma karatsuba_M_ok m cy (neg : bool) :
  bytes_ok m → avail m P (4 * h) → avail m T (4 * h) →
  ∃ k m', karatsuba_M P T size h (u64 cy) neg m = Some (u64 k, m') ∧ frame (seg (P + h) size) m m' ∧ Z.abs (k - cy) <= 1 ∧
    mid m' + B ^ size * k = mid m + B ^ size * cy + (if neg then - val m T size else val m T size).
Proof.
  intros Hm Ha Hb. unfold karatsuba_M. rewrite mid_split.
  assert (avail m (P + h) size) as Ha' by (eapply avail_sub; [exact Ha|lia..]).
  assert (avail m T size) as Hb' by (eapply avail_sub; [exact Hb|lia..]). destruct neg.
  - destruct (mpn_sub_n_ok m (P + h) (P + h) T size Hm Ha' Hb' Ha' (behind_self _ _) ltac:(segs) ltac:(lia)) as (c & m' & E & F & C & V).
    exists (cy - c), m'. rewrite (W_step _ _ _ _ _ E), u64_sub. split; [done|]. split; [done|]. split; [unfold is_carry in C; lia|].
    rewrite mid_split, V, (frame_val _ _ _ (P + h + size) h F) by segs. lia.
  - destruct (mpn_add_n_ok m (P + h) (P + h) T size Hm Ha' Hb' Ha' (behind_self _ _) ltac:(segs) ltac:(lia)) as (c & m' & E & F & C & V).
    exists (cy + c), m'. rewrite (W_step _ _ _ _ _ E), u64_add. split; [done|]. split; [done|]. split; [unfold is_carry in C; lia|].
    rewrite mid_split, (frame_val _ _ _ (P + h + size) h F) by segs. lia.
Qed.

(** Adding a carry to the [n] limbs at [q], when it is not 0. *)
Lemma add_carry m q n c :
  bytes_ok m → avail m q n → 1 <= n → is_u64 c → val m q n + c < B ^ n →
  ∃ r m', (if negb (c =? 0) then mpn_add_1 q q n c else mret 0) m = Some (r, m') ∧ frame (seg q n) m m' ∧
    val m' q n = val m q n + c.
Proof.
  intros Hm Ha Hn Hc Hlt. destruct (c =? 0) eqn:E; cbn [negb]; zb.
  - exists 0, m. split; [done|]. split; [done|]. lia.
  - destruct (mpn_add_1_ok m q q n Hm Ha Ha (behind_self _ _) c Hn Hc) as (cy & m' & E' & F & C & V).
    exists cy, m'. split; [done|]. split; [done|]. pose proof (val_range m' q n (frame_bytes _ _ _ Hm F) ltac:(lia)).
    destruct C as [-> | ->]; lia.
Qed.

Lemma karatsuba_L_ok m k :
  bytes_ok m → avail m P (4 * h) → avail m T (4 * h) → -1 <= k <= 2 →
  let L := val m T size in let S := mid m + B ^ size * k + L in
  B ^ size * val m (P + h + size) h <= S → L + B ^ h * S < B ^ (4 * h) →
  ∃ m', karatsuba_L P T size h (u64 k) m = Some (tt, m') ∧ frame (seg P (4 * h)) m m' ∧ val m' P (4 * h) = L + B ^ h * S.
Proof.
  intros Hm Ha Hb Hk L S Hlo Hhi. unfold karatsuba_L.
  assert (avail m (P + h) size) as Ha' by (eapply avail_sub; [exact Ha|lia..]).
  assert (avail m T size) as Hb' by (eapply avail_sub; [exact Hb|lia..]).
  assert (B ^ (4 * h) = B ^ h * (B ^ size * B ^ h)) as HB4 by (rewrite <- !B_add by lia; f_equal; lia).
  pose proof (B_pos h ltac:(lia)) as Hp. pose proof (B_pos size ltac:(lia)) as Hps.
  pose proof (val_range m T size Hm ltac:(lia)) as HL. fold L in HL.
  (* L is added at the middle *)
  destruct (mpn_add_n_ok m (P + h) (P + h) T size Hm Ha' Hb' Ha' (behind_self _ _) ltac:(segs) ltac:(lia)) as (c & m1 & E1 & F1 & C1 & V1).
  rewrite (W_step _ _ _ _ _ E1). pose proof (frame_bytes _ _ _ Hm F1) as Hm1. pose proof (frame_avail' _ _ _ _ _ Ha F1) as Ha1.
  assert (val m1 (P + h + size) h = val m (P + h + size) h) as Hv1 by (apply (frame_val _ _ _ _ _ F1); segs).
  assert (val m1 (P + h) size + B ^ size * (val m (P + h + size) h + (k + c)) = S) as HS by (unfold S; rewrite mid_split; fold L in V1; lia).
  pose proof (val_range m1 (P + h) size Hm1 ltac:(lia)) as Hr1. pose proof (val_range m (P + h + size) h Hm ltac:(lia)) as Hr2.
  assert (0 <= k + c) as Hkc by nia. assert (val m (P + h + size) h + (k + c) < B ^ h) as Hkh by nia.
  assert (is_u64 (k + c)) as Hu by (unfold is_carry in C1; unfold is_u64; lia).
  cbv zeta. rewrite u64_add, (u64_small _ Hu).
  (* its carry goes to the top *)
  destruct (add_carry m1 (P + h + size) h (k + c) Hm1) as (r & m2 & E2 & F2 & V2); [eapply avail_sub; [exact Ha1|lia..]|lia|done|lia|].
  rewrite (W_step _ _ _ _ _ E2). pose proof (frame_bytes _ _ _ Hm1 F2) as Hm2. pose proof (frame_avail' _ _ _ _ _ Ha1 F2) as Ha2.
  assert (mid m2 = S) as HS2. { rewrite mid_split, V2, Hv1, (frame_val _ _ _ (P + h) size F2) by segs. lia. }
  (* the low half of L is copied *)
  assert (avail m2 T (4 * h)) as Hb2 by (eapply frame_avail'; [eapply frame_avail'; [exact Hb|exact F1]|exact F2]).
  assert (∀ q n, T <= q → q + n <= T + size → val m2 q n = val m q n) as HT.
  { intros q n ??. rewrite (frame_val _ _ _ _ _ F2), (frame_val _ _ _ _ _ F1) by segs. done. }
  destruct (MPN_COPY_ok m2 P T h) as (m3 & E3 & F3 & V3); [eapply avail_sub; [exact Hb2|lia..]|eapply avail_sub; [exact Ha2|lia..]|segs|done|lia|].
  rewrite (W_step _ _ _ _ _ E3). pose proof (frame_bytes _ _ _ Hm2 F3) as Hm3. pose proof (frame_avail' _ _ _ _ _ Ha2 F3) as Ha3.
  (* its high half is added, and the carry *)
  destruct (mpn_add_n_ok m3 (P + h) (P + h) (T + h) h) as (c4 & m4 & E4 & F4 & C4 & V4);
    [done|eapply avail_sub; [exact Ha3|lia..]|eapply avail_sub; [eapply frame_avail'; [exact Hb2|exact F3]|lia..]|eapply avail_sub; [exact Ha3|lia..]|segs|segs|lia|].
  rewrite (W_step _ _ _ _ _ E4). pose proof (frame_bytes _ _ _ Hm3 F4) as Hm4. pose proof (frame_avail' _ _ _ _ _ Ha3 F4) as Ha4.
  assert (mid m3 = S) as HS3 by (rewrite <- HS2; apply (frame_val _ _ _ _ _ F3); segs).
  rewrite (frame_val _ _ _ (T + h) h F3) in V4 by segs. rewrite HT in V3, V4 by lia.
  assert (L = val m T h + B ^ h * val m (T + h) h) as HLs by (unfold L; rewrite <- val_split by lia; f_equal; lia).
  assert (∀ m, mid m = val m (P + h) h + B ^ h * val m (P + size) size) as Hms.
  { intros m'. unfold mid. replace (P + size) with (P + h + h) by lia. rewrite <- val_split by lia. f_equal. lia. }
  assert (val m4 (P + h) h + B ^ h * (val m3 (P + size) size + c4) = S + val m (T + h) h) as H4 by (rewrite <- HS3, Hms; lia).
  pose proof (val_range m4 (P + h) h Hm4 ltac:(lia)) as Hr4. pose proof (val_range m T h Hm ltac:(lia)) as Hr5.
  assert (val m3 (P + size) size + c4 < B ^ size) as Hc4.
  { assert (S + val m (T + h) h < B ^ size * B ^ h) by nia. nia. }
  assert (val m4 (P + size) size = val m3 (P + size) size) as H43 by (apply (frame_val _ _ _ _ _ F4); segs).
  destruct (add_carry m4 (P + size) size c4 Hm4) as (r5 & m5 & E5 & F5 & V5);
    [eapply avail_sub; [exact Ha4|lia..]|lia|unfold is_carry in C4; unfold is_u64; lia|lia|].
  assert ((if negb (c4 =? 0) then mpn_add_1 (P + size) (P + size) size 1 else mret 0) m4 = Some (r5, m5)) as E5'.
  { destruct C4 as [-> | ->]; exact E5. }
  rewrite (W_step _ _ _ _ _ E5'). exists m5. split; [done|]. split.
  { eapply frame_trans; [by widen F1|]. eapply frame_trans; [by widen F2|]. eapply frame_trans; [by widen F3|].
    eapply frame_trans; [by widen F4|]. by widen F5. }
  replace (4 * h) with (h + 3 * h) by lia. rewrite val_split by lia. fold (mid m5). rewrite Hms.
  rewrite V5, H43, (frame_val _ _ _ P h F5), (frame_val _ _ _ P h F4), (frame_val _ _ _ (P + h) h F5) by segs. rewrite V3. nia.
Qed.

Lemma karatsuba_tail_ok m (neg : bool) U0 U1 V0 V1 (rec : W unit) :
  bytes_ok m → avail m P (4 * h) → avail m T (4 * h) →
  0 <= U0 < B ^ h → 0 <= U1 < B ^ h → 0 <= V0 < B ^ h → 0 <= V1 < B ^ h →
  val m (P + size) size = U1 * V1 →
  (if neg then - val m T size else val m T size) = (U1 - U0) * (V0 - V1) →
  (∀ m', frame (seg P (4 * h)) m m' → product (seg T (4 * h)) rec m' T size (U0 * V0)) →
  product (λ q, seg P (4 * h) q ∨ seg T (4 * h) q)
    (cy ← karatsuba_H P size h; cy ← karatsuba_M P T size h cy neg; rec;; karatsuba_L P T size h cy)
    m P (4 * h) ((U0 + B ^ h * U1) * (V0 + B ^ h * V1)).
Proof.
  intros Hm Ha Hb HU0 HU1 HV0 HV1 HH HM Hrec.
  destruct (karatsuba_H_ok m Hm Ha) as (cy & m1 & E1 & F1 & C1 & V1').
  assert (frame (seg P (4 * h)) m m1) as G1 by widen F1.
  rewrite <- (u64_small cy) in E1 by (unfold is_carry in C1; unfold is_u64; lia). unfold product. rewrite (W_step _ _ _ _ _ E1).
  destruct (karatsuba_M_ok m1 cy neg (frame_bytes _ _ _ Hm F1) (frame_avail' _ _ _ _ _ Ha F1) (frame_avail' _ _ _ _ _ Hb F1))
    as (k & m2 & E2 & F2 & Hk & V2').
  assert (frame (seg P (4 * h)) m m2) as G2 by (eapply frame_trans; [exact G1|widen F2]). rewrite (W_step _ _ _ _ _ E2).
  destruct (Hrec m2 G2) as (m3 & E3 & F3 & V3'). rewrite (W_step _ _ _ _ _ E3).
  rewrite (frame_val _ _ _ T size G1), HM in V2' by segs. rewrite HH in V1'.
  assert (mid m3 = mid m2) as Hmid by (apply (frame_val _ _ _ _ _ F3); segs).
  pose proof (B_pos h ltac:(lia)) as Hp.
  assert (val m3 (P + h + size) h = val m (P + h + size) h) as Htop.
  { rewrite (frame_val _ _ _ _ _ F3), (frame_val _ _ _ _ _ F2), (frame_val _ _ _ _ _ F1) by segs. done. }
  assert (U1 * V1 = val m (P + size) h + B ^ h * val m (P + h + size) h) as Hsplit.
  { rewrite <- HH. replace (P + h + size) with (P + size + h) by lia. rewrite <- val_split by lia. f_equal. lia. }
  pose proof (val_range m (P + size) h Hm ltac:(lia)) as Hr.
  assert (mid m3 + B ^ size * k + U0 * V0 = B ^ h * (U1 * V1) + U1 * V0 + U0 * V1) as HS by (rewrite Hmid, V2', V1'; ring).
  assert (B ^ size = B ^ h * B ^ h) as Hb2 by (rewrite <- B_add by lia; f_equal; lia).
  destruct (karatsuba_L_ok m3 k) as (m4 & E4 & F4 & V4').
  - eapply frame_bytes; [eapply frame_bytes; [exact Hm|exact G2]|exact F3].
  - eapply frame_avail'; [eapply frame_avail'; [exact Ha|exact G2]|exact F3].
  - eapply frame_avail'; [eapply frame_avail'; [exact Hb|exact G2]|exact F3].
  - unfold is_carry in C1. lia.
  - rewrite V3', HS, Htop, Hb2. nia.
  - rewrite V3', HS. replace (4 * h) with (h + h + (h + h)) by lia. rewrite !B_add by lia.
    assert (U0 + B ^ h * U1 < B ^ h * B ^ h) by nia. assert (V0 + B ^ h * V1 < B ^ h * B ^ h) by nia.
    replace (U0 * V0 + B ^ h * (B ^ h * (U1 * V1) + U1 * V0 + U0 * V1)) with ((U0 + B ^ h * U1) * (V0 + B ^ h * V1)) by ring.
    apply Z.mul_lt_mono_nonneg; nia.
  - exists m4. split; [exact E4|]. split.
    + eapply frame_trans; [widen G2|]. eapply frame_trans; [widen F3|]. widen F4.
    + rewrite V4', V3', HS. ring.
Qed.
End tail.

(** ** The recursion *)

(** What a product of two [n]-limb numbers works on: the operands at [u] and [v], the
    result at [p], scratch space at [t]. *)
Record operands (m : mem) (p u v n t : Z) : Prop := Operands {
  op_bytes : bytes_ok m;
  op_p : avail m p (2 * n);
  op_u : avail m u n;
  op_v : avail m v n;
  op_t : avail m t (2 * n);
  op_pu : apart p (2 * n) u n;
  op_pv : apart p (2 * n) v n;
  op_pt : apart p (2 * n) t (2 * n);
  op_tu : apart t (2 * n) u n;
  op_tv : apart t (2 * n) v n }.

Definition within (p t n q : Z) : Prop := seg p (2 * n) q ∨ seg t (2 * n) q.

Definition multiplies (f : Z → Z → Z → Z → Z → W unit) (n : Z) : Prop := ∀ m p u v t,
  operands m p u v n t → product (within p t n) (f p u v n t) m p (2 * n) (val m u n * val m v n).

Lemma operands_frame P m m' p u v n t : operands m p u v n t → frame P m m' → operands m' p u v n t.
Proof. intros [] F. split; try done; [by eapply frame_bytes|by eapply frame_avail'..]. Qed.

(** The operands of a smaller product, given where they lie. *)
Lemma operands_sub m p u v n t p' u' v' n' t' :
  operands m p u v n t →
  avail m p' (2 * n') → avail m u' n' → avail m v' n' → avail m t' (2 * n') →
  apart p' (2 * n') u' n' → apart p' (2 * n') v' n' → apart p' (2 * n') t' (2 * n') → apart t' (2 * n') u' n' → apart t' (2 * n') v' n' →
  operands m p' u' v' n' t'.
Proof. intros []. by split. Qed.

(** A part of an area that is mapped. *)
Ltac part := match goal with H : avail ?m ?p ?n |- avail ?m ?q ?k => solve [apply (avail_sub m p n q k H); lia] end.

(** Disjointness facts out of [operands]. *)
Ltac ops H := destruct H; unfold within, seg, apart, behind in *; lia.

Section recursion.
Context `{LongLong, !LongLongLaws _}.
Set Default Proof Using "All".

Lemma recurse_ok f n : 1 <= n → (KARATSUBA_THRESHOLD <= n → multiplies f n) → multiplies (MPN_MUL_N_RECURSE f) n.
Proof.
  intros Hn Hf m p u v t Ho. unfold MPN_MUL_N_RECURSE, KARATSUBA_THRESHOLD in *. destruct (n <? 32) eqn:E; zb; [|by apply Hf].
  replace (2 * n) with (n + n) by lia. destruct (impn_mul_n_basecase_ok m p u v n) as (m' & E' & F & V).
  1,3,4: apply Ho. 2-3: destruct Ho; unfold apart in *; lia. 2: done.
  { destruct Ho. part. }
  exists m'. split; [done|]. split; [|done]. eapply frame_weaken; [|exact F]. unfold within, seg. lia.
Qed.

(** The first limb above the even part, for an odd size [n = e + 1]. *)
Lemma odd_ok (rec : W unit) e m p u v t :
  1 <= e → operands m p u v (e + 1) t →
  (operands m p u v e t → product (within p t e) rec m p (2 * e) (val m u e * val m v e)) →
  product (within p t (e + 1))
    (rec;;
     x ← limb (v + e);
     cy_limb ← mpn_addmul_1 (p + e) u e x;
     set_limb (p + (e + e)) cy_limb;;
     y ← limb (u + e);
     cy_limb ← mpn_addmul_1 (p + e) v (e + 1) y;
     set_limb (p + (e + (e + 1))) cy_limb) m p (2 * (e + 1)) (val m u (e + 1) * val m v (e + 1)).
Proof.
  intros He Ho Hf. pose proof (op_bytes _ _ _ _ _ _ Ho) as Hm.
  assert (operands m p u v e t) as Ho'.
  { destruct Ho. split; [done|part..| | | | |]; segs. }
  destruct (Hf Ho') as (m1 & E1 & F1 & V1). unfold product. rewrite (W_step _ _ _ _ _ E1). clear Ho'.
  pose proof (operands_frame _ _ _ _ _ _ _ _ Ho F1) as Ho1. 
  assert (∀ q k, u <= q → q + k <= u + (e + 1) → val m1 q k = val m q k) as HU1.
  { intros q k ??. apply (frame_val _ _ _ _ _ F1). intros x ??. ops Ho. }
  assert (∀ q k, v <= q → q + k <= v + (e + 1) → val m1 q k = val m q k) as HV1.
  { intros q k ??. apply (frame_val _ _ _ _ _ F1). intros x ??. ops Ho. }
  (* the top limb of [v] times the low part of [u] *)
  rewrite (W_step _ _ _ _ _ (limb_at m1 v (e + 1) (v + e) (op_v _ _ _ _ _ _ Ho1) ltac:(segs))).
  rewrite <- val_1, HV1, val_1 by lia. set (y := lim m (v + e)). assert (is_u64 y) as Hy by by apply lim_range.
  destruct (mpn_addmul_1_ok m1 (p + e) u e y) as (c2 & m2 & E2 & F2 & C2 & V2); try done.
  1: apply Ho1. 1-2: destruct Ho1; part. 1: ops Ho. 1: lia.
  rewrite (W_step _ _ _ _ _ E2).
  destruct (store_carry m1 m2 (p + e) e c2) as (m3 & E3 & F3 & V3); try done. 1: destruct Ho1; part. 1: lia.
  replace (p + (e + e)) with (p + e + e) by lia. rewrite (W_step _ _ _ _ _ E3).
  pose proof (operands_frame _ _ _ _ _ _ _ _ Ho1 F3) as Ho3.
  assert (∀ q k, u <= q → q + k <= u + (e + 1) → val m3 q k = val m q k) as HU3.
  { intros q k ??. rewrite <- HU1 by done. apply (frame_val _ _ _ _ _ F3). intros x ??. ops Ho. }
  assert (∀ q k, v <= q → q + k <= v + (e + 1) → val m3 q k = val m q k) as HV3.
  { intros q k ??. rewrite <- HV1 by done. apply (frame_val _ _ _ _ _ F3). intros x ??. ops Ho. }
  (* the top limb of [u] times [v] *)
  rewrite (W_step _ _ _ _ _ (limb_at m3 u (e + 1) (u + e) (op_u _ _ _ _ _ _ Ho3) ltac:(segs))).
  rewrite <- val_1, HU3, val_1 by lia. set (x := lim m (u + e)). assert (is_u64 x) as Hx by by apply lim_range.
  destruct (mpn_addmul_1_ok m3 (p + e) v (e + 1) x) as (c4 & m4 & E4 & F4 & C4 & V4); try done.
  1: apply Ho3. 1-2: destruct Ho3; part. 1: ops Ho. 1: lia.
  rewrite (W_step _ _ _ _ _ E4).
  destruct (store_carry m3 m4 (p + e) (e + 1) c4) as (m5 & E5 & F5 & V5); try done. 1: destruct Ho3; part. 1: lia.
  replace (p + (e + (e + 1))) with (p + e + (e + 1)) by lia. exists m5. split; [exact E5|]. split.
  - eapply frame_trans; [eapply frame_weaken; [|exact F1]; unfold within, seg; lia|].
    eapply frame_trans; [eapply frame_weaken; [|exact F3]|eapply frame_weaken; [|exact F5]]; unfold within, seg; lia.
  - rewrite (HU1 u e) in V2 by lia. rewrite (HV3 v (e + 1)) in V4 by lia.
    replace (2 * (e + 1)) with (e + (e + 1 + 1)) by lia. rewrite val_split, V5, V4, V3, V2 by lia.
    rewrite (frame_val _ _ _ p e F5), (frame_val _ _ _ p e F3) by segs.
    replace (2 * e) with (e + e) in V1 by lia. rewrite val_split in V1 by lia.
    rewrite (val_S m u e), (val_S m v e) by lia. fold x y.
    replace (val m1 p e) with (val m u e * val m v e - B ^ e * val m1 (p + e) e) by lia. ring.
Qed.

(** The even case, up to the sum: [m4] holds the products H and M. *)
Lemma even_ok (rec : W unit) h m m4 p u v t (neg : bool) :
  1 <= h → operands m p u v (2 * h) t → frame (within p t (2 * h)) m m4 →
  val m4 (p + 2 * h) (2 * h) = val m (u + h) h * val m (v + h) h →
  (if neg then - val m4 t (2 * h) else val m4 t (2 * h)) = (val m (u + h) h - val m u h) * (val m v h - val m (v + h) h) →
  (∀ m', frame (within p t (2 * h)) m m' → product (within t (t + 2 * h) h) rec m' t (2 * h) (val m u h * val m v h)) →
  product (within p t (2 * h))
    (cy ← karatsuba_H p (2 * h) h; cy ← karatsuba_M p t (2 * h) h cy neg; rec;; karatsuba_L p t (2 * h) h cy)
    m4 p (2 * (2 * h)) (val m u (2 * h) * val m v (2 * h)).
Proof.
  intros Hh Ho F HH HM Hrec. pose proof (op_bytes _ _ _ _ _ _ Ho) as Hm.
  pose proof (operands_frame _ _ _ _ _ _ _ _ Ho F) as Ho4.
  assert (∀ q, 0 <= val m q h < B ^ h) as Hr by (intros; apply val_range; [done|lia]).
  assert (∀ q, val m q (2 * h) = val m q h + B ^ h * val m (q + h) h) as Hs.
  { intros q. rewrite <- val_split by lia. f_equal. lia. }
  destruct (karatsuba_tail_ok p t h Hh ltac:(ops Ho) m4 neg (val m u h) (val m (u + h) h) (val m v h) (val m (v + h) h) rec) as (m' & E' & F' & V');
    [apply Ho4|destruct Ho4; part..|done|done|done|done|done|done| |].
  - intros m' G. destruct (Hrec m') as (m'' & E & F'' & V); [eapply frame_trans; [exact F|]; eapply frame_weaken; [|exact G]; unfold within, seg; lia|].
    exists m''. split; [done|]. split; [|done]. eapply frame_weaken; [|exact F'']. unfold within, seg. lia.
  - exists m'. split; [exact E'|]. split; [eapply frame_weaken; [|exact F']; unfold within, seg; lia|].
    rewrite !Hs, <- V'. f_equal. lia.
Qed.

Lemma mul_even_ok f h m p u v t :
  1 <= h → multiplies f h → operands m p u v (2 * h) t →
  product (within p t (2 * h))
    (f (p + 2 * h) (u + h) (v + h) h t;;
     u1 ← abs_diff p (u + h) u h;
     v1 ← abs_diff (p + h) (v + h) v h;
     f t p (p + h) h (t + 2 * h);;
     cy ← karatsuba_H p (2 * h) h;
     cy ← karatsuba_M p t (2 * h) h cy (xorb (negb u1) v1);
     f t u v h (t + 2 * h);;
     karatsuba_L p t (2 * h) h cy) m p (2 * (2 * h)) (val m u (2 * h) * val m v (2 * h)).
Proof.
  intros Hh Hf Ho. pose proof (op_bytes _ _ _ _ _ _ Ho) as Hm.
  (* H *)
  destruct (Hf m (p + 2 * h) (u + h) (v + h) t) as (m1 & E1 & F1 & V1).
  { eapply operands_sub; [exact Ho|destruct Ho; part..| | | | |]; ops Ho. }
  unfold product. rewrite (W_step _ _ _ _ _ E1).
  assert (frame (within p t (2 * h)) m m1) as G1 by (eapply frame_weaken; [|exact F1]; unfold within, seg; lia).
  pose proof (operands_frame _ _ _ _ _ _ _ _ Ho G1) as Ho1.
  (* the differences *)
  destruct (abs_diff_ok m1 p (u + h) u h) as (m2 & E2 & F2 & V2); [apply Ho1|destruct Ho1; part..|ops Ho|ops Ho|done|].
  rewrite (W_step _ _ _ _ _ E2).
  assert (frame (within p t (2 * h)) m m2) as G2 by (eapply frame_trans; [exact G1|eapply frame_weaken; [|exact F2]; unfold within, seg; lia]).
  pose proof (operands_frame _ _ _ _ _ _ _ _ Ho G2) as Ho2.
  destruct (abs_diff_ok m2 (p + h) (v + h) v h) as (m3 & E3 & F3 & V3); [apply Ho2|destruct Ho2; part..|ops Ho|ops Ho|done|].
  rewrite (W_step _ _ _ _ _ E3).
  assert (frame (within p t (2 * h)) m m3) as G3 by (eapply frame_trans; [exact G2|eapply frame_weaken; [|exact F3]; unfold within, seg; lia]).
  pose proof (operands_frame _ _ _ _ _ _ _ _ Ho G3) as Ho3.
  (* M *)
  destruct (Hf m3 t p (p + h) (t + 2 * h)) as (m4 & E4 & F4 & V4).
  { eapply operands_sub; [exact Ho3|destruct Ho3; part..| | | | |]; ops Ho. }
  rewrite (W_step _ _ _ _ _ E4).
  assert (frame (within p t (2 * h)) m m4) as G4 by (eapply frame_trans; [exact G3|eapply frame_weaken; [|exact F4]; unfold within, seg; lia]).
  assert (∀ m' q, frame (within p t (2 * h)) m m' → u <= q <= u + h → val m' q h = val m q h) as HU.
  { intros m' q G ?. apply (frame_val _ _ _ _ _ G). intros x ??. ops Ho. }
  assert (∀ m' q, frame (within p t (2 * h)) m m' → v <= q <= v + h → val m' q h = val m q h) as HV.
  { intros m' q G ?. apply (frame_val _ _ _ _ _ G). intros x ??. ops Ho. }
  rewrite !(HU m1) in V2 |- * by (done || lia). rewrite !(HV m2) in V3 |- * by (done || lia).
  rewrite (frame_val _ _ _ p h F3), V2, V3 in V4 by segs.
  destruct (even_ok (f t u v h (t + 2 * h)) h m m4 p u v t (xorb (negb (val m u h <=? val m (u + h) h)) (val m v h <=? val m (v + h) h))) as (m' & E' & F' & V');
    try done.
  - rewrite <- V1. transitivity (val m3 (p + 2 * h) (2 * h)); [apply (frame_val _ _ _ _ _ F4); intros x ??; ops Ho|].
    rewrite (frame_val _ _ _ _ _ F3), (frame_val _ _ _ _ _ F2) by segs. done.
  - rewrite V4. destruct (val m u h <=? _) eqn:B1, (val m v h <=? _) eqn:B2; cbn [negb xorb]; zb; rewrite <- Z.abs_mul; nia.
  - intros m' G. destruct (Hf m' t u v (t + 2 * h)) as (m'' & E & F & V).
    { pose proof (operands_frame _ _ _ _ _ _ _ _ Ho G) as Ho'. eapply operands_sub; [exact Ho'|destruct Ho'; part..| | | | |]; ops Ho. }
    exists m''. split; [done|]. split; [done|]. rewrite V, (HU m' u), (HV m' v) by (done || lia). done.
  - exists m'. split; [done|]. split; [by eapply frame_trans|done].
Qed.

Lemma sqr_even_ok (f : Z → Z → Z → Z → W unit) h m p u t :
  1 <= h → (∀ m p u t, operands m p u u h t → product (within p t h) (f p u h t) m p (2 * h) (val m u h * val m u h)) →
  operands m p u u (2 * h) t →
  product (within p t (2 * h))
    (f (p + 2 * h) (u + h) h t;;
     abs_diff p (u + h) u h;;
     f t p h (t + 2 * h);;
     cy ← karatsuba_H p (2 * h) h;
     cy ← karatsuba_M p t (2 * h) h cy true;
     f t u h (t + 2 * h);;
     karatsuba_L p t (2 * h) h cy) m p (2 * (2 * h)) (val m u (2 * h) * val m u (2 * h)).
Proof.
  intros Hh Hf Ho. pose proof (op_bytes _ _ _ _ _ _ Ho) as Hm.
  destruct (Hf m (p + 2 * h) (u + h) t) as (m1 & E1 & F1 & V1).
  { eapply operands_sub; [exact Ho|destruct Ho; part..| | | | |]; ops Ho. }
  unfold product. rewrite (W_step _ _ _ _ _ E1).
  assert (frame (within p t (2 * h)) m m1) as G1 by (eapply frame_weaken; [|exact F1]; unfold within, seg; lia).
  pose proof (operands_frame _ _ _ _ _ _ _ _ Ho G1) as Ho1.
  destruct (abs_diff_ok m1 p (u + h) u h) as (m3 & E3 & F3 & V3); [apply Ho1|destruct Ho1; part..|ops Ho|ops Ho|done|].
  rewrite (W_step _ _ _ _ _ E3).
  assert (frame (within p t (2 * h)) m m3) as G3 by (eapply frame_trans; [exact G1|eapply frame_weaken; [|exact F3]; unfold within, seg; lia]).
  pose proof (operands_frame _ _ _ _ _ _ _ _ Ho G3) as Ho3.
  destruct (Hf m3 t p (t + 2 * h)) as (m4 & E4 & F4 & V4).
  { eapply operands_sub; [exact Ho3|destruct Ho3; part..| | | | |]; ops Ho. }
  rewrite (W_step _ _ _ _ _ E4).
  assert (frame (within p t (2 * h)) m m4) as G4 by (eapply frame_trans; [exact G3|eapply frame_weaken; [|exact F4]; unfold within, seg; lia]).
  assert (∀ m' q, frame (within p t (2 * h)) m m' → u <= q <= u + h → val m' q h = val m q h) as HU.
  { intros m' q G ?. apply (frame_val _ _ _ _ _ G). intros x ??. ops Ho. }
  rewrite !(HU m1) in V3 by (done || lia). rewrite V3 in V4.
  destruct (even_ok (f t u h (t + 2 * h)) h m m4 p u u t true) as (m' & E' & F' & V'); try done.
  - rewrite <- V1. transitivity (val m3 (p + 2 * h) (2 * h)); [apply (frame_val _ _ _ _ _ F4); intros x ??; ops Ho|].
    rewrite (frame_val _ _ _ _ _ F3) by segs. done.
  - rewrite V4, <- Z.abs_mul. nia.
  - intros m' G. destruct (Hf m' t u (t + 2 * h)) as (m'' & E & F & V).
    { pose proof (operands_frame _ _ _ _ _ _ _ _ Ho G) as Ho'. eapply operands_sub; [exact Ho'|destruct Ho'; part..| | | | |]; ops Ho. }
    exists m''. split; [done|]. split; [done|]. rewrite V, (HU m' u) by (done || lia). done.
  - exists m'. split; [done|]. split; [by eapply frame_trans|done].
Qed.

(** An odd size is [e + 1], an even one [2 * h]. *)
Lemma size_cases n : 2 <= n →
  Z.land n 1 = 1 ∧ 1 <= n - 1 ∨ Z.land n 1 = 0 ∧ n = 2 * (n ≫ 1) ∧ 1 <= n ≫ 1.
Proof.
  intros Hn. assert (Z.land n 1 = n mod 2) as -> by exact (Z.land_ones n 1 ltac:(lia)).
  rewrite Z.shiftr_div_pow2 by lia. change (2 ^ 1) with 2. Z.to_euclidean_division_equations; lia.
Qed.

Lemma impn_mul_n_ok fuel n : 2 <= n → n <= Z.of_nat fuel → multiplies (impn_mul_n fuel) n.
Proof.
  revert n. induction fuel as [|fuel IH]; intros n Hn Hfuel; [lia|]. intros m p u v t Ho. cbn [impn_mul_n].
  assert (∀ k, 1 <= k < n → multiplies (MPN_MUL_N_RECURSE (impn_mul_n fuel)) k) as Hrec.
  { intros k Hk. apply recurse_ok; [lia|]. unfold KARATSUBA_THRESHOLD. intros. apply IH; lia. }
  destruct (size_cases n Hn) as [[-> He]|(-> & Heq & Hh)]; cbn [Z.eqb negb Pos.eqb].
  - remember (n - 1) as e eqn:Ee. replace n with (e + 1) in * by lia. apply odd_ok; [done|done|]. apply Hrec. lia.
  - remember (n ≫ 1) as h eqn:Eh. clear Eh. subst n. apply mul_even_ok; [done| |done]. apply Hrec. lia.
Qed.

Lemma sqr_recurse_ok f n : 1 <= n →
  (KARATSUBA_THRESHOLD <= n → ∀ m p u t, operands m p u u n t → product (within p t n) (f p u n t) m p (2 * n) (val m u n * val m u n)) →
  ∀ m p u t, operands m p u u n t → product (within p t n) (MPN_SQR_N_RECURSE f p u n t) m p (2 * n) (val m u n * val m u n).
Proof.
  intros Hn Hf m p u t Ho. unfold MPN_SQR_N_RECURSE, KARATSUBA_THRESHOLD in *. destruct (n <? 32) eqn:E; zb; [|by apply Hf].
  replace (2 * n) with (n + n) by lia. destruct (impn_mul_n_basecase_ok m p u u n) as (m' & E' & F & V).
  1,3,4: apply Ho. 2-3: destruct Ho; unfold apart in *; lia. 2: done.
  { destruct Ho. part. }
  exists m'. split; [done|]. split; [|done]. eapply frame_weaken; [|exact F]. unfold within, seg. lia.
Qed.

Lemma impn_sqr_n_ok fuel n : 2 <= n → n <= Z.of_nat fuel → ∀ m p u t, operands m p u u n t →
  product (within p t n) (impn_sqr_n fuel p u n t) m p (2 * n) (val m u n * val m u n).
Proof.
  revert n. induction fuel as [|fuel IH]; intros n Hn Hfuel; [lia|]. intros m p u t Ho. cbn [impn_sqr_n].
  assert (∀ k, 1 <= k < n → ∀ m p u t, operands m p u u k t →
    product (within p t k) (MPN_SQR_N_RECURSE (impn_sqr_n fuel) p u k t) m p (2 * k) (val m u k * val m u k)) as Hrec.
  { intros k Hk. apply sqr_recurse_ok; [lia|]. unfold KARATSUBA_THRESHOLD. intros. apply IH; [lia..|done]. }
  destruct (size_cases n Hn) as [[-> He]|(-> & Heq & Hh)]; cbn [Z.eqb negb Pos.eqb].
  - remember (n - 1) as e eqn:Ee. replace n with (e + 1) in * by lia. apply odd_ok; [done|done|]. apply Hrec. lia.
  - remember (n ≫ 1) as h eqn:Eh. clear Eh. subst n. apply (sqr_even_ok (MPN_SQR_N_RECURSE (impn_sqr_n fuel))); [done| |done]. apply Hrec. lia.
Qed.

(** ** [mpn_mul_n]: the scratch space is on the stack *)

Lemma mpn_mul_n_ok sp m p u v n :
  1 <= n → operands m p u v n (sp - 2 * n) →
  product (within p (sp - 2 * n) n) (mpn_mul_n sp p u v n) m p (2 * n) (val m u n * val m v n).
Proof.
  intros Hn Ho. unfold mpn_mul_n, TMP_ALLOC. destruct (u =? v) eqn:E; zb.
  - subst v. apply (sqr_recurse_ok (impn_sqr_n (Z.to_nat n))); [done| |done]. unfold KARATSUBA_THRESHOLD.
    intros. apply impn_sqr_n_ok; [lia..|done].
  - apply (recurse_ok (impn_mul_n (Z.to_nat n))); [done| |done]. unfold KARATSUBA_THRESHOLD. intros. apply impn_mul_n_ok; lia.
Qed.
End recursion.
