(* ===== verification/MpnMulFull.v ===== *)
(** * MpnMulFull: [mpn_mul] computes the product of numbers of different sizes *)

From S2P Require Import Prelude Mem Logic Flat StrCpySpec Mpn MpnSpec MpnMul MpnKara.
Local Open Scope Z_scope.

(** Limbs of stack that a call with these sizes may use. *)
Definition stack_need (usize vsize : Z) : Z := 4 * (usize + vsize).

(** What a call works on: the operands, the result, the stack below [sp]. *)
Record arguments (m : mem) (sp p u nu v nv : Z) : Prop := Arguments {
  ar_bytes : bytes_ok m;
  ar_p : avail m p (nu + nv);
  ar_u : avail m u nu;
  ar_v : avail m v nv;
  ar_s : avail m (sp - stack_need nu nv) (stack_need nu nv);
  ar_pu : apart p (nu + nv) u nu;
  ar_pv : apart p (nu + nv) v nv;
  ar_ps : apart p (nu + nv) (sp - stack_need nu nv) (stack_need nu nv);
  ar_us : apart u nu (sp - stack_need nu nv) (stack_need nu nv);
  ar_vs : apart v nv (sp - stack_need nu nv) (stack_need nu nv) }.

Definition mul_area (sp p nu nv q : Z) : Prop :=
  seg p (nu + nv) q ∨ seg (sp - stack_need nu nv) (stack_need nu nv) q.

Lemma arguments_frame P m m' sp p u nu v nv : arguments m sp p u nu v nv → frame P m m' → arguments m' sp p u nu v nv.
Proof. intros [] F. split; try done; [by eapply frame_bytes|by eapply frame_avail'..]. Qed.

Ltac args H := destruct H; unfold mul_area, within, stack_need, seg, apart, behind in *; lia.
Ltac args_part H := destruct H; unfold stack_need in *; part.

(** A product of [n + k] limbs at [t] is added to the [n] limbs at [p]. *)
Lemma add_block_ok {A} m p t n k (f : Z → W A) :
  bytes_ok m → avail m p (n + k) → avail m t (n + k) → apart p (n + k) t (n + k) → 1 <= n → 1 <= k →
  val m p n + val m t (n + k) < B ^ (n + k) →
  ∃ c m', (cy ← mpn_add_n p p t n; c ← mpn_add_1 (p + n) (t + n) k cy; f c) m = f c m' ∧ frame (seg p (n + k)) m m' ∧
    val m' p (n + k) = val m p n + val m t (n + k).
Proof.
  intros Hm Hp Ht Ha Hn Hk Hlt.
  destruct (mpn_add_n_ok m p p t n) as (cy & m1 & E1 & F1 & C1 & V1);
    [done|eapply avail_sub; [exact Hp|lia..]|eapply avail_sub; [exact Ht|lia..]|eapply avail_sub; [exact Hp|lia..]|segs|segs|lia|].
  destruct (mpn_add_1_ok m1 (p + n) (t + n) k) with (v := cy) as (c & m2 & E2 & F2 & C2 & V2).
  1: by eapply frame_bytes. 1: eapply avail_sub; [by eapply frame_avail'|lia..].
  1: eapply avail_sub; [exact (frame_avail' _ _ _ _ _ Hp F1)|lia..]. 1: segs. 1: lia.
  1: unfold is_carry in C1; unfold is_u64; lia.
  exists c, m2. rewrite (W_step _ _ _ _ _ E1), (W_step _ _ _ _ _ E2). split; [done|].
  split; [eapply frame_trans; [widen F1|widen F2]|].
  pose proof (frame_bytes _ _ _ (frame_bytes _ _ _ Hm F1) F2) as Hm2.
  rewrite val_split in Hlt |- * by lia. rewrite (frame_val _ _ _ p n F2) by segs.
  rewrite (frame_val _ _ _ (t + n) k F1) in V2 by segs.
  rewrite (B_add n k) in Hlt by lia. rewrite (val_split m t) by lia.
  pose proof (B_pos n ltac:(lia)). pose proof (B_pos k ltac:(lia)).
  pose proof (val_range m1 p n (frame_bytes _ _ _ Hm F1) ltac:(lia)). pose proof (val_range m2 (p + n) k Hm2 ltac:(lia)).
  assert (c = 0) as -> by (destruct C2 as [-> | ->]; [done|nia]). nia.
Qed.

Section full.
Context `{LongLong, !LongLongLaws _}.
Set Default Proof Using "All".

(** No carry leaves the block: the product of [n] and [k] limbs is small enough. *)
Lemma block_bound m p n x y k : bytes_ok m → 0 <= n → 0 <= k → 0 <= x < B ^ k → 0 <= y < B ^ n → val m p n + x * y < B ^ (n + k).
Proof.
  intros Hm Hn Hk Hx Hy. pose proof (val_range m p n Hm Hn). rewrite B_add by done. pose proof (B_pos n Hn). pose proof (B_pos k Hk). nia.
Qed.

Lemma mul_blocks_ok fuel m0 m p u nu v nv ts q :
  1 <= nv → nu - q <= Z.of_nat fuel → nv <= q → nv <= nu - q →
  operands m0 (ts - 2 * nv) u v nv ts → avail m0 p (nu + nv) → avail m0 u nu →
  apart p (nu + nv) u nu → apart p (nu + nv) v nv → apart p (nu + nv) (ts - 2 * nv) (4 * nv) → apart u nu (ts - 2 * nv) (4 * nv) →
  frame (λ x, seg p (nu + nv) x ∨ within (ts - 2 * nv) ts nv x) m0 m → val m p (q + nv) = val m0 u q * val m0 v nv →
  ∃ r m', mul_blocks fuel (p + q) (u + q) (nu - q) v nv (ts - 2 * nv) ts m = Some ((p + (nu - r), u + (nu - r), r), m') ∧
    0 <= r < nv ∧ 2 * nv + r <= nu ∧ frame (λ x, seg p (nu + nv) x ∨ within (ts - 2 * nv) ts nv x) m0 m' ∧
    val m' p (nu - r + nv) = val m0 u (nu - r) * val m0 v nv.
Proof.
  intros Hnv Hfuel Hq Hqn Ho Hp Hu Apu Apv Apt Aut. revert m q Hfuel Hq Hqn.
  induction fuel as [|fuel IH]; intros m q Hfuel Hq Hqn F V; [lia|]. cbn [mul_blocks].
  pose proof (frame_bytes _ _ _ (op_bytes _ _ _ _ _ _ Ho) F) as Hm.
  assert (∀ a n, u <= a → a + n <= u + nu → val m a n = val m0 a n) as HU.
  { intros a n ??. apply (frame_val _ _ _ _ _ F). intros x ??. ops Ho. }
  assert (val m v nv = val m0 v nv) as HV by (apply (frame_val _ _ _ _ _ F); intros x ??; ops Ho).
  destruct (recurse_ok (impn_mul_n (Z.to_nat nv)) nv Hnv) with (m := m) (p := ts - 2 * nv) (u := u + q) (v := v) (t := ts) as (m1 & E1 & F1 & V1).
  { unfold KARATSUBA_THRESHOLD. intros. apply impn_mul_n_ok; lia. }
  { pose proof (operands_frame _ _ _ _ _ _ _ _ Ho F) as Ho'. pose proof (frame_avail' _ _ _ _ _ Hu F).
    destruct Ho'. split; try done; [part|segs|segs]. }
  rewrite (W_step _ _ _ _ _ E1). pose proof (frame_bytes _ _ _ Hm F1) as Hm1.
  assert (frame (λ x, seg p (nu + nv) x ∨ within (ts - 2 * nv) ts nv x) m0 m1) as G1.
  { eapply frame_trans; [exact F|]. eapply frame_weaken; [|exact F1]. by right. }
  replace (2 * nv) with (nv + nv) in V1 at 2 by lia.
  rewrite HU, HV in V1 by lia.
  destruct (add_block_ok m1 (p + q) (ts - 2 * nv) nv nv (λ _, 
      if nv <=? nu - q - nv then mul_blocks fuel (p + q + nv) (u + q + nv) (nu - q - nv) v nv (ts - 2 * nv) ts
      else mret (p + q + nv, u + q + nv, nu - q - nv)))
    as (c & m2 & E2 & F2 & V2); [done| | |segs|done|done| |].
  { eapply avail_sub; [exact (frame_avail' _ _ _ _ _ Hp G1)|lia..]. }
  { replace (nv + nv) with (2 * nv) by lia. exact (frame_avail' _ _ _ _ _ (op_p _ _ _ _ _ _ Ho) G1). }
  { rewrite V1. apply block_bound; [done|lia|lia|apply val_range; [apply Ho|lia]..]. }
  rewrite E2. clear E2. rewrite V1 in V2.
  assert (frame (λ x, seg p (nu + nv) x ∨ within (ts - 2 * nv) ts nv x) m0 m2) as G2.
  { eapply frame_trans; [exact G1|]. eapply frame_weaken; [|exact F2]. unfold seg. lia. }
  assert (val m2 p (q + nv + nv) = val m0 u (q + nv) * val m0 v nv) as V3.
  { replace (q + nv + nv) with (q + (nv + nv)) by lia. rewrite val_split, V2 by lia.
    rewrite (frame_val _ _ _ p q F2), (frame_val _ _ _ p q F1), (frame_val _ _ _ (p + q) nv F1) by (ops Ho || (intros x ??; ops Ho)).
    rewrite val_split in V by lia. rewrite (val_split m0 u) by lia. lia. }
  destruct (nv <=? nu - q - nv) eqn:E; zb.
  - destruct (IH m2 (q + nv)) as (r & m' & E' & Hr & Hr' & F' & V'); try done; try lia.
    exists r, m'. replace (p + q + nv) with (p + (q + nv)) by lia. replace (u + q + nv) with (u + (q + nv)) by lia.
    replace (nu - q - nv) with (nu - (q + nv)) by lia. done.
  - exists (nu - q - nv), m2. replace (nu - (nu - q - nv)) with (q + nv) by lia. rewrite !Z.add_assoc.
    split; [done|]. split; [lia|]. split; [lia|]. split; [done|exact V3].
Qed.

Definition computes (f : W Z) m sp p u nu v nv : Prop :=
  ∃ c m', f m = Some (c, m') ∧ frame (mul_area sp p nu nv) m m' ∧ val m' p (nu + nv) = val m u nu * val m v nv ∧
    c = lim m' (p + nu + nv - 1).

(** The last [r = nu - q] limbs of [u]: their product with [v] is computed on the stack and added. *)
Lemma mul_rest_ok fuel m sp p u nu v nv sp2 q :
  arguments m sp p u nu v nv → 1 <= nv → nv <= q <= nu → nu - q < nv → sp2 <= sp - 2 * nv →
  sp - stack_need nu nv <= sp2 - stack_need nv (nu - q) →
  (0 < nu - q → arguments m sp2 (sp - 2 * nv) v nv (u + q) (nu - q) →
     computes (mpn_mul fuel sp2 (sp - 2 * nv) v nv (u + q) (nu - q)) m sp2 (sp - 2 * nv) v nv (u + q) (nu - q)) →
  val m p (q + nv) = val m u q * val m v nv →
  computes ((if negb (nu - q =? 0) then
      mpn_mul fuel sp2 (sp - 2 * nv) v nv (u + q) (nu - q);;
      cy ← mpn_add_n (p + q) (p + q) (sp - 2 * nv) nv;
      mpn_add_1 (p + q + nv) (sp - 2 * nv + nv) (nu - q) cy;;
      mret ()
    else mret ());; limb (p + nu + nv - 1)) m sp p u nu v nv.
Proof.
  intros Ho Hnv Hq Hr Hsp Hst IH V. destruct (nu - q =? 0) eqn:E; cbn [negb]; zb.
  { replace q with nu in V by lia. exists (lim m (p + nu + nv - 1)), m. split; [|done].
    rewrite (W_step _ _ m () m eq_refl). apply (limb_at m p (nu + nv)); [apply Ho|segs]. }
  pose proof (ar_bytes _ _ _ _ _ _ _ Ho) as Hm. set (ts := sp - 2 * nv) in *.
  destruct (IH ltac:(lia)) as (c1 & m1 & E1 & F1 & V1 & _).
  { destruct Ho. split; try done; unfold ts in *; unfold stack_need, apart in *; try part; lia. }
  assert (frame (mul_area sp p nu nv) m m1) as G1.
  { eapply frame_weaken; [|exact F1]. intros x Hx. unfold ts in *. args Ho. }
  unfold computes. rewrite W_assoc, (W_step _ _ _ _ _ E1), W_assoc.
  pose proof (arguments_frame _ _ _ _ _ _ _ _ _ Ho G1) as Ho1.
  destruct (add_block_ok m1 (p + q) ts nv (nu - q) (λ _, mret () ;; limb (p + nu + nv - 1))) as (c & m2 & E2 & F2 & V2);
    [apply Ho1|args_part Ho1|unfold ts; args_part Ho1|unfold ts; args Ho1|done|lia| |].
  { rewrite V1. replace (nv + (nu - q)) with (nv + (nu - q)) by lia. rewrite Z.mul_comm.
    apply block_bound; [apply Ho1|lia|lia|apply val_range; [done|lia]..]. }
  assert (∀ f : Z → W Z, (cy ← mpn_add_n (p + q) (p + q) ts nv; (mpn_add_1 (p + q + nv) (ts + nv) (nu - q) cy;; mret ()) ≫= λ _, f 0) m1 =
    (cy ← mpn_add_n (p + q) (p + q) ts nv; c ← mpn_add_1 (p + q + nv) (ts + nv) (nu - q) cy; mret ();; f 0) m1) as Eq.
  { intros f. unfold mbind, W_bind. destruct (mpn_add_n _ _ _ _ m1) as [[? ?]|]; [|done]. by destruct (mpn_add_1 _ _ _ _ _) as [[? ?]|]. }
  rewrite (Eq (λ _, limb (p + nu + nv - 1))), E2. clear Eq E2.
  assert (frame (mul_area sp p nu nv) m m2) as G2.
  { eapply frame_trans; [exact G1|]. eapply frame_weaken; [|exact F2]. unfold mul_area, seg. lia. }
  exists (lim m2 (p + nu + nv - 1)), m2. split.
  { rewrite (W_step _ _ m2 () m2 eq_refl). apply (limb_at m2 p (nu + nv)); [exact (frame_avail' _ _ _ _ _ (ar_p _ _ _ _ _ _ _ Ho) G2)|segs]. }
  split; [done|]. split; [|done].
  replace (nu + nv) with (q + (nv + (nu - q))) by lia. rewrite val_split, V2, V1 by lia.
  assert (∀ a n, p <= a → a + n <= p + (nu + nv) → val m1 a n = val m a n) as HP.
  { intros a n ??. apply (frame_val _ _ _ _ _ F1). intros x ??. unfold ts in *. args Ho. }
  rewrite (frame_val _ _ _ p q F2), !HP by segs. rewrite val_split in V by lia.
  replace (val m u nu) with (val m u q + B ^ q * val m (u + q) (nu - q)) by (rewrite <- val_split by lia; f_equal; lia). lia.
Qed.

Lemma mpn_mul_ok fuel m sp p u nu v nv :
  1 <= nv <= nu → nv < Z.of_nat fuel → arguments m sp p u nu v nv → computes (mpn_mul fuel sp p u nu v nv) m sp p u nu v nv.
Proof.
  revert m sp p u nu v nv. induction fuel as [|fuel IH]; intros m sp p u nu v nv Hn Hfuel Ho; [lia|].
  cbn [mpn_mul]. unfold KARATSUBA_THRESHOLD, TMP_ALLOC. destruct (nv <? 32) eqn:E; zb.
  { rewrite (proj2 (Z.eqb_neq nv 0)) by lia.
    destruct (mul_basecase_ok m p u nu v nv) as (cy & m' & E' & F & V & C); [apply Ho..|lia|lia|].
    exists cy, m'. split; [done|]. split; [eapply frame_weaken; [|exact F]; by left|done]. }
  destruct (recurse_ok (impn_mul_n (Z.to_nat nv)) nv ltac:(lia)) with (m := m) (p := p) (u := u) (v := v) (t := sp - 2 * nv) as (m1 & E1 & F1 & V1).
  { unfold KARATSUBA_THRESHOLD. intros. apply impn_mul_n_ok; lia. }
  { destruct Ho. unfold stack_need in *. split; try done; try part; unfold apart in *; lia. }
  unfold computes. rewrite (W_step _ _ _ _ _ E1).
  assert (frame (mul_area sp p nu nv) m m1) as G1.
  { eapply frame_weaken; [|exact F1]. unfold within, mul_area, stack_need, seg. lia. }
  pose proof (arguments_frame _ _ _ _ _ _ _ _ _ Ho G1) as Ho1.
  assert (∀ a n, u <= a → a + n <= u + nu → val m1 a n = val m a n) as HU.
  { intros a n ??. apply (frame_val _ _ _ _ _ G1). intros x ??. args Ho. }
  assert (val m1 v nv = val m v nv) as HV by (apply (frame_val _ _ _ _ _ G1); intros x ??; args Ho).
  assert (∃ q sp2 m2, (if nv <=? nu - nv then
       s ← mul_blocks (Z.to_nat (nu - nv)) (p + nv) (u + nv) (nu - nv) v nv (sp - 2 * nv - 2 * nv) (sp - 2 * nv); mret (s, sp - 2 * nv - 2 * nv)
     else mret (p + nv, u + nv, nu - nv, sp - 2 * nv)) m1 = Some ((p + q, u + q, nu - q, sp2), m2) ∧
     nv <= q <= nu ∧ nu - q < nv ∧ sp2 <= sp - 2 * nv ∧ sp - stack_need nu nv <= sp2 - stack_need nv (nu - q) ∧
     frame (mul_area sp p nu nv) m1 m2 ∧ val m2 p (q + nv) = val m1 u q * val m1 v nv)
    as (q & sp2 & m2 & E2 & Hq & Hr & Hsp & Hst & F2 & V2).
  { destruct (nv <=? nu - nv) eqn:Eq; zb.
    - destruct (mul_blocks_ok (Z.to_nat (nu - nv)) m1 m1 p u nu v nv (sp - 2 * nv) nv) as (r & m2 & E2 & Hr & Hr2 & F2 & V2); try lia.
      1: destruct Ho1; unfold stack_need in *; split; try done; try part; unfold apart in *; lia. 1-4: apply Ho1.
      1-2: args Ho1. 1: apply frame_refl. 1: rewrite (HU u nv), HV, <- V1 by lia; f_equal; lia.
      exists (nu - r), (sp - 2 * nv - 2 * nv), m2. rewrite (W_step _ _ _ _ _ E2).
      replace (nu - (nu - r)) with r by lia. split; [done|]. split; [lia|]. split; [lia|]. split; [lia|].
      split; [unfold stack_need; lia|]. split; [|done]. eapply frame_weaken; [|exact F2]. unfold within, mul_area, stack_need, seg. lia.
    - exists nv, (sp - 2 * nv), m1. split; [done|]. split; [lia|]. split; [lia|]. split; [lia|]. split; [unfold stack_need; lia|].
      split; [done|]. rewrite (HU u nv), HV by lia. rewrite <- V1. f_equal. lia. }
  rewrite (W_step _ _ _ _ _ E2). cbv beta iota.
  assert (frame (mul_area sp p nu nv) m m2) as G2 by by eapply frame_trans.
  destruct (mul_rest_ok fuel m2 sp p u nu v nv sp2 q) as (c & m' & E' & F' & V' & C'); try (done || lia).
  - by eapply arguments_frame.
  - intros Hpos Ha. apply IH; [lia..|done].
  - rewrite V2. f_equal; symmetry; apply (frame_val _ _ _ _ _ F2); intros x ??; args Ho.
  - exists c, m'. split; [exact E'|]. split; [by eapply frame_trans|]. split; [|done]. rewrite V'.
    f_equal; apply (frame_val _ _ _ _ _ G2); intros x ??; args Ho.
Qed.
End full.
