(* ===== verification/Divrem.v ===== *)
(** * Divrem: division of limb numbers (stdlib/divrem.c)

    [mpn_divrem] divides by a normalised divisor: one limb, two limbs, or Knuth's
    algorithm D.  The inner loops of the last two correct an estimated quotient limb at
    most twice; three rounds of fuel are always enough ([DivremSpec]). *)

From S2P Require Import Prelude Mem Logic Flat Mpn.
Local Open Scope Z_scope.

Section divrem.
Context `{LongLong}.

(** ** [case 1] *)

(** [for (i = k - 1; i >= 0; i--) udiv_qrnnd (qp[i], n1, n1, np[i], d)]; without [np], the
    loop over the extra limbs, where the dividend has zeros. *)
Fixpoint div1_loop (k : nat) (qp : Z) (np : option Z) (d i n1 : Z) : W Z :=
  match k with
  | O => mret n1
  | S k =>
      n0 ← match np with Some np => limb (np + i) | None => mret 0 end;
      let '(q, n1) := udiv_qrnnd n1 n0 d in
      set_limb (qp + i) q;;
      div1_loop k qp np d (i - 1) n1
  end.

Definition divrem_1 (qp qextra_limbs np nsize dp : Z) : W Z :=
  d ← limb dp;
  n1 ← limb (np + (nsize - 1));
  let '(n1, most_significant_q_limb) := if d <=? n1 then (u64 (n1 - d), 1) else (n1, 0) in
  n1 ← div1_loop (Z.to_nat (nsize - 1)) (qp + qextra_limbs) (Some np) d (nsize - 2) n1;
  n1 ← div1_loop (Z.to_nat qextra_limbs) qp None d (qextra_limbs - 1) n1;
  set_limb np n1;;
  mret most_significant_q_limb.

(** ** [case 2] *)

(** The code from the label [q_test] on. *)
Fixpoint q_test (fuel : nat) (d1 d0 n2 q r n1 n0 : Z) : option (Z * Z * Z * Z) :=
  match fuel with
  | O => None
  | S fuel =>
      if (r <? n1) || ((n1 =? r) && (n2 <? n0)) then
        let q := u64 (q - 1) in
        let '(n1, n0) := sub_ddmmss n1 n0 0 d0 in
        let r := u64 (r + d1) in
        if d1 <=? r then q_test fuel d1 d0 n2 q r n1 n0 else Some (q, r, n1, n0)
      else Some (q, r, n1, n0)
  end.

(** One quotient limb: the remainder [(n1, n0)] and the next limb [n2 = np[0]] of the
    dividend give the limb and the next remainder. *)
Definition div2_limb (d1 d0 n1 n0 n2 : Z) : option (Z * Z * Z) :=
  let finish q r n1 n0 :=
    '(q, r, n1, n0) ← q_test 3 d1 d0 n2 q r n1 n0;
    let '(n1, n0) := sub_ddmmss r n2 n1 n0 in
    Some (q, n1, n0) in
  if n1 =? d1 then
    let q := u64 (Z.lnot 0) in
    let r := u64 (n0 + d1) in
    if r <? d1 then
      let '(n1, n0) := add_ssaaaa (u64 (r - d0)) n2 0 d0 in
      Some (q, n1, n0)
    else finish q r (u64 (d0 - Z.b2z (negb (d0 =? 0)))) (u64 (- d0))
  else
    let '(q, r) := udiv_qrnnd n1 n0 d1 in
    let '(n1, n0) := umul_ppmm d0 q in
    finish q r n1 n0.

Fixpoint div2_loop (k : nat) (qp qextra_limbs d1 d0 np i n1 n0 : Z) : W (Z * Z * Z) :=
  match k with
  | O => mret (np, n1, n0)
  | S k =>
      np ← (if qextra_limbs <=? i then mret (np - 1) else set_limb np 0;; mret np);
      n2 ← limb np;
      match div2_limb d1 d0 n1 n0 n2 with
      | None => undefined
      | Some (q, n1, n0) =>
          set_limb (qp + i) q;;
          div2_loop k qp qextra_limbs d1 d0 np (i - 1) n1 n0
      end
  end.

Definition divrem_2 (qp qextra_limbs np nsize dp : Z) : W Z :=
  let np := np + (nsize - 2) in
  d1 ← limb (dp + 1);
  d0 ← limb dp;
  n1 ← limb (np + 1);
  n0 ← limb np;
  let '(n1, n0, most_significant_q_limb) :=
    if (d1 <=? n1) && ((d1 <? n1) || (d0 <=? n0))
    then let '(n1, n0) := sub_ddmmss n1 n0 d1 d0 in (n1, n0, 1) else (n1, n0, 0) in
  '(np, n1, n0) ← div2_loop (Z.to_nat (qextra_limbs + nsize - 2)) qp qextra_limbs d1 d0 np (qextra_limbs + nsize - 2 - 1) n1 n0;
  set_limb (np + 1) n1;;
  set_limb np n0;;
  mret most_significant_q_limb.

(** ** [default] *)

(** The [while] loop that corrects the estimate with the second limb of the divisor. *)
Fixpoint q_while (fuel : nat) (dX d1 nd q r n1 n0 : Z) : option Z :=
  match fuel with
  | O => None
  | S fuel =>
      if (r <? n1) || ((n1 =? r) && (nd <? n0)) then
        let q := u64 (q - 1) in
        let r := u64 (r + dX) in
        if r <? dX then Some q
        else q_while fuel dX d1 nd q r (u64 (n1 - Z.b2z (n0 <? d1))) (u64 (n0 - d1))
      else Some q
  end.

(** The estimate from the three leading limbs. *)
Definition div_estimate (dX d1 n0 nd1 nd2 : Z) : option Z :=
  if n0 =? dX then Some (u64 (Z.lnot 0))
  else
    let '(q, r) := udiv_qrnnd n0 nd1 dX in
    let '(n1, n0) := umul_ppmm d1 q in
    q_while 3 dX d1 nd2 q r n1 n0.

(** Bringing the next limb of the dividend into the window: the new window and the limb
    above it. *)
Definition div_window (qextra_limbs dsize np i : Z) : W (Z * Z) :=
  if qextra_limbs <=? i then
    let np := np - 1 in
    n2 ← limb (np + dsize);
    mret (np, n2)
  else
    n2 ← limb (np + (dsize - 1));
    MPN_COPY_DECR (np + 1) np dsize;;
    set_limb np 0;;
    mret (np, n2).

Definition div_round (qp qextra_limbs dp dsize dX d1 np i n0 : Z) : W (Z * Z) :=
  '(np, n2) ← div_window qextra_limbs dsize np i;
  nd1 ← limb (np + (dsize - 1));
  nd2 ← limb (np + (dsize - 2));
  match div_estimate dX d1 n0 nd1 nd2 with
  | None => undefined
  | Some q =>
      cy_limb ← mpn_submul_1 np dp dsize q;
      q ← (if negb (n2 =? cy_limb) then mpn_add_n np np dp dsize;; mret (u64 (q - 1)) else mret q);
      set_limb (qp + i) q;;
      n0 ← limb (np + (dsize - 1));
      mret (np, n0)
  end.

Fixpoint divn_loop (k : nat) (qp qextra_limbs dp dsize dX d1 np i n0 : Z) : W unit :=
  match k with
  | O => mret ()
  | S k =>
      '(np, n0) ← div_round qp qextra_limbs dp dsize dX d1 np i n0;
      divn_loop k qp qextra_limbs dp dsize dX d1 np (i - 1) n0
  end.

Definition divrem_n (qp qextra_limbs np nsize dp dsize : Z) : W Z :=
  let np := np + (nsize - dsize) in
  dX ← limb (dp + (dsize - 1));
  d1 ← limb (dp + (dsize - 2));
  n0 ← limb (np + (dsize - 1));
  '(n0, most_significant_q_limb) ←
    (if dX <=? n0 then
       ge ← (if dX <? n0 then mret true else c ← mpn_cmp np dp (dsize - 1); mret (0 <=? c));
       if (ge : bool) then mpn_sub_n np np dp dsize;; n0 ← limb (np + (dsize - 1)); mret (n0, 1)
       else mret (n0, 0)
     else mret (n0, 0));
  divn_loop (Z.to_nat (qextra_limbs + nsize - dsize)) qp qextra_limbs dp dsize dX d1 np (qextra_limbs + nsize - dsize - 1) n0;;
  mret most_significant_q_limb.

Definition mpn_divrem (qp qextra_limbs np nsize dp dsize : Z) : W Z :=
  if dsize =? 0 then undefined
  else if dsize =? 1 then divrem_1 qp qextra_limbs np nsize dp
  else if dsize =? 2 then divrem_2 qp qextra_limbs np nsize dp
  else divrem_n qp qextra_limbs np nsize dp dsize.
End divrem.
