(* ===== verification/DivremSpec.v ===== *)
(** * DivremSpec: the quotient limbs that [mpn_divrem] estimates *)

From S2P Require Import Prelude Mem Logic Flat Mpn MpnSpec Divrem.
Local Open Scope Z_scope.

(** A divisor limb with its highest bit set. *)
Definition normalised (d : Z) : Prop := 2 ^ 63 <= d < B.

(** Comparing two pairs of limbs. *)
Definition pair_gt (n1 n0 r n2 : Z) : bool := (r <? n1) || ((n1 =? r) && (n2 <? n0)).

Lemma pair_gt_ok n1 n0 r n2 :
  is_u64 n0 → is_u64 n2 → pair_gt n1 n0 r n2 = (r * B + n2 <? n1 * B + n0).
Proof.
  intros H0 H2. unfold pair_gt, is_u64 in *. apply eq_bool_prop_intro. rewrite !Is_true_true, orb_true_iff, andb_true_iff.
  rewrite !Z.ltb_lt, Z.eqb_eq. lia.
Qed.

Section laws.
Context `{LongLong, !LongLongLaws _}.
Set Default Proof Using "All".

Lemma umul_pair u v : is_u64 u → is_u64 v →
  ∃ h l, umul_ppmm u v = (h, l) ∧ is_u64 h ∧ is_u64 l ∧ h * B + l = u * v.
Proof. intros Hu Hv. destruct (umul_val u v Hu Hv) as [[Hh Hl] Hp]. destruct (umul_ppmm u v) as [h l]. eauto 10. Qed.

Lemma sub_pair ah al bh bl : 0 <= pair_val (ah, al) - pair_val (bh, bl) < B * B →
  ∃ h l, sub_ddmmss ah al bh bl = (h, l) ∧ is_u64 h ∧ is_u64 l ∧ h * B + l = pair_val (ah, al) - pair_val (bh, bl).
Proof.
  intros Hr. destruct (sub_val ah al bh bl) as [[Hh Hl] Hp]. destruct (sub_ddmmss ah al bh bl) as [h l].
  rewrite Z.mod_small in Hp by done. eauto 10.
Qed.

(** The same when the high limb of the minuend has lost a carry. *)
Lemma sub_pair_wrap r n2 bh bl x : r = u64 x → 0 <= x * B + n2 - (bh * B + bl) < B * B →
  ∃ h l, sub_ddmmss r n2 bh bl = (h, l) ∧ is_u64 h ∧ is_u64 l ∧ h * B + l = x * B + n2 - (bh * B + bl).
Proof.
  intros -> Hr. destruct (sub_val (u64 x) n2 bh bl) as [[Hh Hl] Hp]. destruct (sub_ddmmss (u64 x) n2 bh bl) as [h l].
  exists h, l. split; [done|]. split; [done|]. split; [done|]. unfold pair_val in Hp. cbn [fst snd] in Hp. rewrite Hp.
  unfold wrapu. rewrite <- (Z.mod_small (x * B + n2 - (bh * B + bl)) (B * B)) by done.
  rewrite (Z.div_mod x B) at 2 by done.
  replace ((B * (x / B) + x mod B) * B + n2 - (bh * B + bl)) with (x mod B * B + n2 - (bh * B + bl) + (x / B) * (B * B)) by ring.
  by rewrite Z_mod_plus_full.
Qed.

Lemma add_pair ah al bh bl : 0 <= pair_val (ah, al) + pair_val (bh, bl) < B * B →
  ∃ h l, add_ssaaaa ah al bh bl = (h, l) ∧ is_u64 h ∧ is_u64 l ∧ h * B + l = pair_val (ah, al) + pair_val (bh, bl).
Proof.
  intros Hr. destruct (add_val ah al bh bl) as [[Hh Hl] Hp]. destruct (add_ssaaaa ah al bh bl) as [h l].
  rewrite Z.mod_small in Hp by done. eauto 10.
Qed.

Lemma udiv_pair n1 n0 d : is_u64 n1 → is_u64 n0 → is_u64 d → n1 < d →
  ∃ q r, udiv_qrnnd n1 n0 d = (q, r) ∧ is_u64 q ∧ 0 <= r < d ∧ n1 * B + n0 = q * d + r.
Proof.
  intros H1 H0 Hd Hlt. exists ((n1 * B + n0) / d), ((n1 * B + n0) mod d). rewrite udiv_val by done. unfold is_u64 in *.
  pose proof (Z.mod_pos_bound (n1 * B + n0) d ltac:(lia)). pose proof (Z.div_mod (n1 * B + n0) d ltac:(lia)).
  split; [done|]. split; [|lia]. split; [apply Z.div_pos; lia|]. apply Z.div_lt_upper_bound; nia.
Qed.

(** ** Two-limb divisors *)

Section two.
Context (d1 d0 n2 N : Z) (Hd1 : normalised d1) (Hd0 : is_u64 d0) (Hn2 : is_u64 n2).
Notation D := (d1 * B + d0).
Set Default Proof Using "All".

(** The estimate [q] with [r] what is left of the upper limbs: never too small. *)
Record estimate (q r : Z) : Prop := Estimate {
  es_q : 0 <= q < B;
  es_r : 0 <= r;
  es_N : N = (q * d1 + r) * B + n2;
  es_hi : N < (q + 1) * D }.

Lemma q_test_ok fuel q r n1 n0 :
  is_u64 n1 → is_u64 n0 → n1 * B + n0 = q * d0 → estimate q r → r < B → B <= r + (Z.of_nat fuel - 1) * d1 →
  ∃ q' r' n1' n0', q_test fuel d1 d0 n2 q r n1 n0 = Some (q', u64 r', n1', n0') ∧ n1' * B + n0' = q' * d0 ∧
    estimate q' r' ∧ q' * d0 <= r' * B + n2 ∧ q' <= q.
Proof.
  unfold normalised, is_u64 in *. revert q r n1 n0. induction fuel as [|fuel IH]; intros q r n1 n0 H1 H0 Hp He Hr Hf; [lia|].
  cbn [q_test]. fold (pair_gt n1 n0 r n2). rewrite pair_gt_ok by done. pose proof He as [Hq Hr0 HN Hhi].
  destruct (_ <? _) eqn:E; zb.
  - assert (1 <= q) as Hq1 by nia.
    destruct (sub_pair n1 n0 0 d0) as (h & l & -> & Hh & Hl & Hhl); [unfold pair_val; cbn [fst snd]; nia|].
    unfold pair_val in Hhl. cbn [fst snd] in Hhl. rewrite (u64_small (q - 1)) by (unfold is_u64; lia).
    assert (estimate (q - 1) (r + d1)) as He'.
    { split; [lia|lia| |]; [rewrite HN; ring|]. replace (q - 1 + 1) with q by lia. nia. }
    destruct (d1 <=? u64 (r + d1)) eqn:Ec; zb.
    + assert (r + d1 < B) as Hlt by (unfold wrapu in Ec; Z.to_euclidean_division_equations; lia).
      rewrite u64_small by (unfold is_u64; lia).
      destruct (IH (q - 1) (r + d1) h l) as (q' & r' & n1' & n0' & E' & ? & ? & ? & ?); try done; try lia.
      exists q', r', n1', n0'. split; [done|]. split; [done|]. split; [done|]. split; [done|]. lia.
    + assert (B <= r + d1) as Hge.
      { destruct (Z.lt_ge_cases (r + d1) B) as [Hlt|]; [|done]. rewrite u64_small in Ec by (unfold is_u64; lia). lia. }
      exists (q - 1), (r + d1), h, l. split; [done|]. split; [lia|]. split; [done|]. split; [|lia]. nia.
  - exists q, r, n1, n0. rewrite u64_small by (unfold is_u64; lia). split; [done|]. split; [done|]. split; [done|]. split; lia.
Qed.
End two.

Lemma div2_limb_ok d1 d0 n1 n0 n2 :
  normalised d1 → is_u64 d0 → is_u64 n1 → is_u64 n0 → is_u64 n2 → n1 * B + n0 < d1 * B + d0 →
  ∃ q m1 m0, div2_limb d1 d0 n1 n0 n2 = Some (q, m1, m0) ∧ is_u64 q ∧ is_u64 m1 ∧ is_u64 m0 ∧
    (n1 * B + n0) * B + n2 = q * (d1 * B + d0) + (m1 * B + m0) ∧ m1 * B + m0 < d1 * B + d0.
Proof.
  intros Hd1 Hd0 H1 H0 H2 Hlt. set (N := (n1 * B + n0) * B + n2).
  (* what is left to do after the estimate *)
  assert (∀ q r h l, 0 <= r < B → is_u64 h → is_u64 l → h * B + l = q * d0 → estimate d1 d0 n2 N q r →
    ∃ q' m1 m0, ('(q, r, n1, n0) ← q_test 3 d1 d0 n2 q r h l; let '(n1, n0) := sub_ddmmss r n2 n1 n0 in Some (q, n1, n0)) = Some (q', m1, m0) ∧
      is_u64 q' ∧ is_u64 m1 ∧ is_u64 m0 ∧ N = q' * (d1 * B + d0) + (m1 * B + m0) ∧ m1 * B + m0 < d1 * B + d0) as Hfin.
  { intros q r h l Hr Hh Hl Hp He.
    destruct (q_test_ok d1 d0 n2 N Hd1 Hd0 H2 3 q r h l Hh Hl Hp He) as (q' & r' & n1' & n0' & E & Hp' & [Hq Hr' HN Hhi] & Hle & _);
      [lia|unfold normalised in Hd1; lia|].
    rewrite E. cbn [mbind option_bind]. unfold normalised, is_u64 in *.
    destruct (sub_pair_wrap (u64 r') n2 n1' n0' r' eq_refl) as (m1 & m0 & -> & Hm1 & Hm0 & Hm); [rewrite Hp'; nia|].
    exists q', m1, m0. unfold is_u64 in *. rewrite Hm, Hp'. split; [done|]. split; [done|]. split; [done|]. split; [done|]. nia. }
  unfold div2_limb. change (u64 (Z.lnot 0)) with (B - 1). destruct (n1 =? d1) eqn:E; zb.
  - subst n1. assert (n0 < d0) as Hn0 by lia. destruct (u64 (n0 + d1) <? d1) eqn:Ec; zb.
    + assert (B <= n0 + d1) as Hge.
      { unfold normalised, is_u64 in *. destruct (Z.lt_ge_cases (n0 + d1) B); [|done]. rewrite u64_small in Ec by (unfold is_u64; lia). lia. }
      unfold normalised, is_u64 in *.
      assert (u64 (u64 (n0 + d1) - d0) = n0 + d1 - d0) as -> by (unfold wrapu; Z.to_euclidean_division_equations; lia).
      destruct (add_pair (n0 + d1 - d0) n2 0 d0) as (m1 & m0 & -> & Hm1 & Hm0 & Hm); [unfold pair_val; cbn [fst snd]; nia|].
      unfold pair_val in Hm. cbn [fst snd] in Hm. exists (B - 1), m1, m0. unfold is_u64 in *. split; [done|]. split; [lia|]. split; [done|].
      split; [done|]. unfold N. rewrite Hm. nia.
    + assert (n0 + d1 < B) as Hlt2 by (unfold normalised, is_u64, wrapu in *; Z.to_euclidean_division_equations; lia).
      unfold normalised, is_u64 in *. rewrite (u64_small (n0 + d1)) by (unfold is_u64; lia).
      apply Hfin; [lia|apply u64_range|apply u64_range| |].
      * destruct (d0 =? 0) eqn:Ed; cbn [negb Z.b2z]; zb; [lia|].
        rewrite (u64_small (d0 - 1)) by (unfold is_u64; lia). replace (u64 (- d0)) with (B - d0); [ring|].
        unfold wrapu. Z.to_euclidean_division_equations; lia.
      * split; [lia|lia| |]; unfold N; [ring|nia].
  - assert (n1 < d1) as Hn1 by (unfold is_u64 in *; lia).
    destruct (udiv_pair n1 n0 d1) as (q & r & -> & Hq & Hr & Hqr); try done; [unfold normalised, is_u64 in *; lia|].
    destruct (umul_pair d0 q) as (h & l & -> & Hh & Hl & Hhl); try done.
    apply Hfin; [unfold normalised in *; lia|done|done|lia|].
    split; [done|lia| |]; unfold N; [rewrite Hqr; ring|]. unfold is_u64, normalised in *. nia.
Qed.

(** ** Longer divisors

    The divisor is [(dX * B + d1) * P + Dlow] and the dividend of a round
    [((n2 * B + nd1) * B + nd2) * P + Nlow], [P] the weight of the limbs not looked at. *)
Section many.
Context (P dX d1 Dlow n2 nd1 nd2 Nlow : Z).
Context (HP : 0 < P) (HdX : normalised dX) (Hd1 : is_u64 d1) (HDlow : 0 <= Dlow < P).
Context (Hn2 : is_u64 n2) (Hnd1 : is_u64 nd1) (Hnd2 : is_u64 nd2) (HNlow : 0 <= Nlow < P).
Notation D := ((dX * B + d1) * P + Dlow).
Notation N := (((n2 * B + nd1) * B + nd2) * P + Nlow).
Context (Hlt : N < D * B).
Set Default Proof Using "All".

(** The invariant of the correction: [q] is not too small. *)
Record guess (q r : Z) : Prop := Guess {
  gu_q : 0 <= q < B;
  gu_r : 0 <= r;
  gu_top : n2 * B + nd1 = q * dX + r;
  gu_hi : N < (q + 1) * D }.

(** When the second limb agrees, [q] is at most one too large. *)
Lemma guess_lo q r : guess q r → q * d1 <= r * B + nd2 → (q - 1) * D <= N.
Proof.
  intros [Hq Hr Ht Hhi] Hle. unfold normalised, is_u64 in *. rewrite Ht.
  assert (q * Dlow <= B * P) by (apply Z.mul_le_mono_nonneg; lia).
  assert (1 * (B * P) <= dX * (B * P)) by (apply Z.mul_le_mono_nonneg_r; lia).
  assert (0 <= (r * B + nd2 - q * d1) * P) by (apply Z.mul_nonneg_nonneg; lia).
  assert (0 <= d1 * P) by (apply Z.mul_nonneg_nonneg; lia).
  apply Z.le_0_sub. replace (_ - _) with ((r * B + nd2 - q * d1) * P + Nlow + dX * (B * P) + d1 * P + Dlow - q * Dlow) by ring. lia.
Qed.

Lemma guess_dec q r : guess q r → r * B + nd2 < q * d1 → 1 <= q ∧ guess (q - 1) (r + dX).
Proof.
  intros [Hq Hr Ht Hhi] Hgt. unfold normalised, is_u64 in *. assert (1 <= q) as Hq1 by nia. split; [done|].
  split; [lia|lia|lia|]. replace (q - 1 + 1) with q by lia. rewrite Ht.
  assert ((r * B + nd2 - q * d1 + 1) * P <= 0) by (apply Z.mul_nonpos_nonneg; lia).
  assert (0 <= q * Dlow) by (apply Z.mul_nonneg_nonneg; lia).
  apply Z.lt_0_sub. replace (_ - _) with (q * Dlow - (r * B + nd2 - q * d1 + 1) * P + P - Nlow) by ring. lia.
Qed.

Lemma q_while_ok fuel q r h l :
  is_u64 h → is_u64 l → h * B + l = q * d1 → guess q r → r < B → B <= r + (Z.of_nat fuel - 1) * dX →
  ∃ q', q_while fuel dX d1 nd2 q r h l = Some q' ∧ is_u64 q' ∧ (q' - 1) * D <= N < (q' + 1) * D.
Proof.
  unfold normalised, is_u64 in *. revert q r h l. induction fuel as [|fuel IH]; intros q r h l Hh Hl Hp Hg Hr Hf; [lia|].
  cbn [q_while]. fold (pair_gt h l r nd2). rewrite pair_gt_ok by done. pose proof Hg as [Hq Hr0 Ht Hhi].
  destruct (_ <? _) eqn:E; zb.
  - destruct (guess_dec q r Hg ltac:(lia)) as [Hq1 Hg']. rewrite (u64_small (q - 1)) by (unfold is_u64; lia).
    destruct (u64 (r + dX) <? dX) eqn:Ec; zb.
    + assert (B <= r + dX) as Hge.
      { destruct (Z.lt_ge_cases (r + dX) B) as [Hlt2|]; [|done]. rewrite u64_small in Ec by (unfold is_u64; lia). lia. }
      exists (q - 1). split; [done|]. split; [lia|]. split; [|apply Hg']. apply (guess_lo _ _ Hg'). lia.
    + assert (r + dX < B) as Hlt2 by (unfold wrapu in Ec; Z.to_euclidean_division_equations; lia).
      rewrite (u64_small (r + dX)) by (unfold is_u64; lia). apply IH; [apply u64_range|apply u64_range| |done|done|lia].
      assert (1 * d1 <= q * d1) by (apply Z.mul_le_mono_nonneg_r; lia). unfold wrapu. destruct (l <? d1) eqn:Eb; cbn [Z.b2z]; zb.
      * rewrite (Z.mod_small (h - 1)) by lia. replace ((l - d1) mod 2 ^ 64) with (l - d1 + B); [lia|].
        Z.to_euclidean_division_equations; lia.
      * rewrite !Z.mod_small by lia. lia.
  - exists q. split; [done|]. split; [lia|]. split; [|done]. apply (guess_lo _ _ Hg). lia.
Qed.

Lemma div_estimate_ok : ∃ q, div_estimate dX d1 n2 nd1 nd2 = Some q ∧ is_u64 q ∧ (q - 1) * D <= N < (q + 1) * D.
Proof.
  unfold div_estimate. change (u64 (Z.lnot 0)) with (B - 1). unfold normalised, is_u64 in *.
  assert (d1 * P <= (B - 1) * P) by (apply Z.mul_le_mono_nonneg_r; lia).
  assert (0 <= nd1 * P) by (apply Z.mul_nonneg_nonneg; lia). assert (0 <= nd2 * P) by (apply Z.mul_nonneg_nonneg; lia).
  assert (n2 <= dX) as Hle.
  { destruct (Z.le_gt_cases n2 dX); [done|]. assert ((dX + 1) * (B * B * P) <= n2 * (B * B * P)) by (apply Z.mul_le_mono_nonneg_r; lia). lia. }
  destruct (n2 =? dX) eqn:E; zb.
  - exists (B - 1). split; [done|]. split; [lia|]. split; [|lia]. subst n2.
    assert (2 ^ 63 * (B * P) <= dX * (B * P)) by (apply Z.mul_le_mono_nonneg_r; lia). lia.
  - destruct (udiv_pair n2 nd1 dX) as (q & r & -> & Hq & Hr & Hqr); try (unfold is_u64; lia).
    destruct (umul_pair d1 q) as (h & l & -> & Hh & Hl & Hhl); try (unfold is_u64 in *; lia).
    apply (q_while_ok 3 q r h l); [done|done|lia| |lia|lia]. unfold is_u64 in *. split; [lia|lia|done|].
    assert (r * (B * P) <= (dX - 1) * (B * P)) by (apply Z.mul_le_mono_nonneg_r; lia).
    assert (nd2 * P <= (B - 1) * P) by (apply Z.mul_le_mono_nonneg_r; lia).
    assert (0 <= (q + 1) * (d1 * P + Dlow)) by (apply Z.mul_nonneg_nonneg; [lia|]; assert (0 <= d1 * P) by (apply Z.mul_nonneg_nonneg; lia); lia).
    replace (n2 * B + nd1) with (q * dX + r) by lia. lia.
Qed.
End many.
End laws.
