(* ===== verification/DivremMem.v ===== *)
(** * DivremMem: [mpn_divrem] leaves the quotient and the remainder in memory *)

From S2P Require Import Prelude Mem Logic Flat StrCpySpec Mpn MpnSpec MpnMul MpnKara Divrem DivremSpec.
Local Open Scope Z_scope.

Lemma vsum_scaled_0 f n : (∀ i, 0 <= i < n → f i = 0) → vsum f n = 0.
Proof. intros H. rewrite (vsum_ext f (λ _, 0)) by done. apply vsum_zero. Qed.

(** Copying upwards, from the top. *)
Lemma copy_decr_loop_ok k m0 m dst src n :
  avail m0 src n → avail m0 dst n → src <= dst → bytes_ok m0 → Z.of_nat k <= n → frame (λ x, dst + Z.of_nat k <= x < dst + n) m0 m →
  (∀ j, Z.of_nat k <= j < n → lim m (dst + j) = lim m0 (src + j)) →
  ∃ m', for_down k (Z.of_nat k - 1) (λ i, x ← limb (src + i); set_limb (dst + i) x) m = Some (tt, m') ∧ frame (seg dst n) m0 m' ∧
    ∀ j, 0 <= j < n → lim m' (dst + j) = lim m0 (src + j).
Proof.
  intros Hs Hd Hle Hm. revert m. induction k as [|k IH]; intros m Hk Hf Hv.
  { exists m. split; [done|]. split; [|exact Hv]. eapply frame_weaken; [|exact Hf]. segs. }
  cbn [for_down]. rewrite W_assoc. replace (Z.of_nat (S k) - 1) with (Z.of_nat k) by lia.
  rewrite (W_step _ _ _ _ _ (limb_at m src n (src + Z.of_nat k) (frame_avail _ _ _ _ _ Hf Hs) ltac:(segs))).
  rewrite (fr_out _ _ _ Hf) by lia.
  destruct (set_limb_ok m (dst + Z.of_nat k) (lim m0 (src + Z.of_nat k))) as (m1 & E & F & L).
  { rewrite (fr_map _ _ _ Hf). apply Hd. lia. }
  { by apply lim_range. }
  rewrite (W_step _ _ _ _ _ E). apply IH; [lia| |].
  - eapply frame_step; [exact Hf|exact F|cbn; lia..].
  - intros j Hj. destruct (decide (j = Z.of_nat k)) as [->|]; [done|]. rewrite (fr_out _ _ _ F) by lia. apply Hv. lia.
Qed.

Lemma MPN_COPY_DECR_ok m dst src n :
  avail m src n → avail m dst n → src <= dst → bytes_ok m → 0 <= n →
  ∃ m', MPN_COPY_DECR dst src n m = Some (tt, m') ∧ frame (seg dst n) m m' ∧ ∀ j, 0 <= j < n → lim m' (dst + j) = lim m (src + j).
Proof.
  intros Hs Hd Hb Hm Hn. pose proof (copy_decr_loop_ok (Z.to_nat n) m m dst src n) as H. rewrite Z2Nat.id in H by done.
  apply H; try (done || lia).
Qed.

Section divrem.
Context `{LongLong, !LongLongLaws _}.
Set Default Proof Using "All".

(** ** One-limb divisors *)

Lemma div1_loop_ok k m qp np d n1 (y : Z → Z) :
  bytes_ok m → avail m qp (Z.of_nat k) → is_u64 d → 0 <= n1 < d → (∀ i, is_u64 (y i)) →
  (∀ i m', 0 <= i < Z.of_nat k → frame (seg qp (Z.of_nat k)) m m' →
    match np with Some np => limb (np + i) | None => mret 0 end m' = Some (y i, m')) →
  ∃ n1' m', div1_loop k qp np d (Z.of_nat k - 1) n1 m = Some (n1', m') ∧ frame (seg qp (Z.of_nat k)) m m' ∧ 0 <= n1' < d ∧
    n1 * B ^ Z.of_nat k + vsum y (Z.of_nat k) = val m' qp (Z.of_nat k) * d + n1'.
Proof.
  intros Hm Hq Hd. revert m n1 Hm Hq. induction k as [|k IH]; intros m n1 Hm Hq Hn1 Hy Hdig.
  { exists n1, m. split; [done|]. split; [done|]. split; [done|]. rewrite vsum_0, val_0 by done. cbn. lia. }
  cbn [div1_loop]. replace (Z.of_nat (S k) - 1) with (Z.of_nat k) by lia. replace (Z.of_nat (S k)) with (Z.of_nat k + 1) in * by lia.
  rewrite (W_step _ _ _ _ _ (Hdig (Z.of_nat k) m ltac:(lia) (frame_refl _ _))).
  destruct (udiv_pair n1 (y (Z.of_nat k)) d) as (q & r & -> & Hqu & Hr & Hqr); try done; try (unfold is_u64 in *; lia).
  destruct (set_limb_ok m (qp + Z.of_nat k) q) as (m1 & E & F & L); [apply Hq; lia|done|]. rewrite (W_step _ _ _ _ _ E).
  destruct (IH m1 r) as (n1' & m' & E' & F' & Hn' & V'); try done.
  - by apply (fr_ok _ _ _ F).
  - eapply avail_sub; [exact (frame_avail' _ _ _ _ _ Hq F)|lia..].
  - intros i m' Hi G. apply Hdig; [lia|]. eapply frame_trans; [widen F|widen G].
  - exists n1', m'. split; [exact E'|]. split; [eapply frame_trans; [widen F|widen F']|]. split; [done|].
    rewrite vsum_S, val_S, B_succ, (fr_out _ _ _ F'), L by (lia || segs). 
    transitivity (B ^ Z.of_nat k * (n1 * B + y (Z.of_nat k)) + vsum y (Z.of_nat k)); [ring|]. rewrite Hqr. lia.
Qed.

(** ** The promise *)

(** The quotient has [k] limbs at [qp] and a most significant one that is returned; the
    remainder has [d] limbs at [np].  [P] is what may be written. *)
Definition divides (f : W Z) (P : Z → Prop) (m : mem) (qp k np dp d N : Z) : Prop :=
  ∃ h m', f m = Some (h, m') ∧ frame P m m' ∧ is_carry h ∧
    (h * B ^ k + val m' qp k) * val m dp d + val m' np d = N ∧ val m' np d < val m dp d.

Lemma divrem_1_ok m qp E np n dp :
  bytes_ok m → 0 <= E → 1 <= n → avail m np n → avail m dp 1 → avail m qp (E + n - 1) → normalised (lim m dp) →
  apart qp (E + n - 1) np n →
  divides (divrem_1 qp E np n dp) (λ x, seg qp (E + n - 1) x ∨ seg np 1 x) m qp (E + n - 1) np dp 1 (val m np n * B ^ E).
Proof.
  intros Hm HE Hn Hnp Hdp Hqp Hd Ha. unfold divrem_1, divides.
  rewrite (W_step _ _ _ _ _ (limb_at m dp 1 dp Hdp ltac:(segs))), (W_step _ _ _ _ _ (limb_at m np n (np + (n - 1)) Hnp ltac:(segs))).
  rewrite !val_1. set (d := lim m dp) in *. pose proof (lim_range m (np + (n - 1)) Hm) as Hx. set (x := lim m (np + (n - 1))) in *.
  assert (∃ h n1, (if d <=? x then (u64 (x - d), 1) else (x, 0)) = (n1, h) ∧ is_carry h ∧ 0 <= n1 < d ∧ x = h * d + n1) as (h & n1 & -> & Hh & Hn1 & Hxh).
  { unfold normalised, is_u64 in *. destruct (d <=? x) eqn:Ed; zb.
    - exists 1, (x - d). rewrite u64_small by (unfold is_u64; lia). split; [done|]. split; [by right|]. lia.
    - exists 0, x. split; [done|]. split; [by left|]. lia. }
  (* the limbs of the dividend *)
  destruct (div1_loop_ok (Z.to_nat (n - 1)) m (qp + E) (Some np) d n1 (λ i, lim m (np + i))) as (n2 & m1 & E1 & F1 & Hn2 & V1);
    rewrite ?Z2Nat.id in * by lia; try done.
  1: eapply avail_sub; [exact Hqp|lia..]. 1: unfold normalised, is_u64 in *; lia. 1: intros; by apply lim_range.
  { intros i m' Hi G. rewrite (limb_at m' np n (np + i)); [|by eapply frame_avail'|segs]. by rewrite (fr_out _ _ _ G) by segs. }
  replace (n - 1 - 1) with (n - 2) in E1 by lia. rewrite (W_step _ _ _ _ _ E1).
  (* the extra limbs *)
  destruct (div1_loop_ok (Z.to_nat E) m1 qp None d n2 (λ _, 0)) as (n3 & m2 & E2 & F2 & Hn3 & V2); rewrite ?Z2Nat.id in * by lia; try done.
  1: by eapply frame_bytes. 1: eapply avail_sub; [exact (frame_avail' _ _ _ _ _ Hqp F1)|lia..]. 1: unfold normalised, is_u64 in *; lia.
  rewrite (W_step _ _ _ _ _ E2), vsum_zero, Z.add_0_r in *.
  destruct (set_limb_ok m2 np n3) as (m3 & E3 & F3 & L3); [rewrite (fr_map _ _ _ F2), (fr_map _ _ _ F1); apply Hnp; lia|unfold normalised, is_u64 in *; lia|].
  rewrite (W_step _ _ _ _ _ E3). exists h, m3. split; [done|].
  split; [eapply frame_trans; [widen F1|]; eapply frame_trans; [widen F2|widen F3]|]. split; [done|]. rewrite val_1, L3. split; [|lia].
  assert (val m np n = vsum (λ i, lim m (np + i)) (n - 1) + B ^ (n - 1) * x) as HN.
  { replace n with (n - 1 + 1) at 1 by lia. by rewrite val_S by lia. }
  replace (E + n - 1) with (E + (n - 1)) by lia.
  rewrite (frame_val _ _ _ qp _ F3), val_split, (frame_val _ _ _ (qp + E) _ F2), B_add, HN, Hxh by segs.
  transitivity (B ^ E * (n1 * B ^ (n - 1) + vsum (λ i, lim m (np + i)) (n - 1)) + h * d * (B ^ E * B ^ (n - 1))); [|ring].
  rewrite V1. transitivity (B ^ E * val m1 (qp + E) (n - 1) * d + (n2 * B ^ E) + h * d * (B ^ E * B ^ (n - 1))); [|ring]. rewrite V2. ring.
Qed.

(** ** The limbs of the extended dividend

    [y i]: below the [E] zeros, above them the limbs of the dividend at [np]. *)
Definition digit (m : mem) (np E i : Z) : Z := if i <? E then 0 else lim m (np + i - E).

Lemma digit_range m np E i : bytes_ok m → is_u64 (digit m np E i).
Proof. intros. unfold digit. case_match; [done|by apply lim_range]. Qed.

Lemma digits_val m np E n : 0 <= E → 0 <= n → vsum (digit m np E) (E + n) = B ^ E * val m np n.
Proof.
  intros. rewrite vsum_split, (vsum_scaled_0 (digit m np E) E) by (done || intros; unfold digit; by rewrite (proj2 (Z.ltb_lt _ _)) by lia).
  rewrite Z.add_0_l. f_equal. apply vsum_ext. intros i Hi. unfold digit. rewrite (proj2 (Z.ltb_ge _ _)) by lia. f_equal. lia.
Qed.

(** The limbs still to be read are as in the beginning. *)
Definition unread (m0 m : mem) (np E k : Z) : Prop := ∀ i, E <= i < k → lim m (np + i - E) = lim m0 (np + i - E).

(** ** Two-limb divisors *)

Lemma div2_loop_ok m0 k m qp E np n d1 d0 n1 n0 :
  bytes_ok m0 → bytes_ok m → 0 <= E → 2 <= n → Z.of_nat k <= E + n - 2 → avail m np n → avail m qp (Z.of_nat k) →
  apart qp (Z.of_nat k) np n → normalised d1 → is_u64 d0 → is_u64 n1 → is_u64 n0 → n1 * B + n0 < d1 * B + d0 →
  unread m0 m np E (Z.of_nat k) →
  ∃ n1' n0' m', div2_loop k qp E d1 d0 (np + Z.max 0 (Z.of_nat k - E)) (Z.of_nat k - 1) n1 n0 m = Some ((np, n1', n0'), m') ∧
    frame (λ x, seg qp (Z.of_nat k) x ∨ x = np) m m' ∧ is_u64 n1' ∧ is_u64 n0' ∧ n1' * B + n0' < d1 * B + d0 ∧
    (n1 * B + n0) * B ^ Z.of_nat k + vsum (digit m0 np E) (Z.of_nat k) = val m' qp (Z.of_nat k) * (d1 * B + d0) + (n1' * B + n0').
Proof.
  intros Hm0 Hm HE Hn. revert m n1 n0 Hm. induction k as [|k IH]; intros m n1 n0 Hm Hk Hnp Hqp Ha Hd1 Hd0 H1 H0 Hlt Hu.
  { exists n1, n0, m. cbn [div2_loop]. replace (np + Z.max 0 (Z.of_nat 0 - E)) with np by lia.
    do 5 (split; [done|]). rewrite vsum_0, val_0 by done. cbn -[Z.mul Z.add Z.pow]. lia. }
  cbn [div2_loop]. replace (Z.of_nat (S k) - 1) with (Z.of_nat k) by lia. replace (Z.of_nat (S k)) with (Z.of_nat k + 1) in * by lia.
  set (y := digit m0 np E (Z.of_nat k)). assert (is_u64 y) as Hy by by apply digit_range.
  (* the next limb *)
  assert (∃ m1, (if E <=? Z.of_nat k then mret (np + Z.max 0 (Z.of_nat k + 1 - E) - 1)
      else set_limb (np + Z.max 0 (Z.of_nat k + 1 - E)) 0;; mret (np + Z.max 0 (Z.of_nat k + 1 - E))) m =
      Some (np + Z.max 0 (Z.of_nat k - E), m1) ∧ frame (λ x, x = np ∧ Z.of_nat k < E) m m1 ∧ lim m1 (np + Z.max 0 (Z.of_nat k - E)) = y)
    as (m1 & E1 & F1 & L1).
  { unfold y, digit. destruct (E <=? Z.of_nat k) eqn:Ek; zb.
    - exists m. split; [unfold mret, W_ret; do 2 f_equal; lia|]. split; [done|]. rewrite (proj2 (Z.ltb_ge _ _)) by lia.
      rewrite <- Hu by lia. f_equal. lia.
    - replace (np + Z.max 0 (Z.of_nat k + 1 - E)) with np by lia. replace (np + Z.max 0 (Z.of_nat k - E)) with np by lia.
      destruct (set_limb_ok m np 0) as (m1 & E1 & F1 & L1); [apply Hnp; lia|done|].
      exists m1. rewrite (W_step _ _ _ _ _ E1). split; [done|]. split; [eapply frame_weaken; [|exact F1]; cbn; lia|].
      by rewrite (proj2 (Z.ltb_lt _ _)) by lia. }
  rewrite (W_step _ _ _ _ _ E1). pose proof (frame_bytes _ _ _ Hm F1) as Hm1.
  rewrite (W_step _ _ _ _ _ (limb_at m1 np n (np + Z.max 0 (Z.of_nat k - E)) (frame_avail' _ _ _ _ _ Hnp F1) ltac:(segs))), L1.
  destruct (div2_limb_ok d1 d0 n1 n0 y) as (q & r1 & r0 & -> & Hq & Hr1 & Hr0 & Hqr & Hlt'); try done.
  destruct (set_limb_ok m1 (qp + Z.of_nat k) q) as (m2 & E2 & F2 & L2); [rewrite (fr_map _ _ _ F1); apply Hqp; lia|done|].
  rewrite (W_step _ _ _ _ _ E2).
  destruct (IH m2 r1 r0) as (n1' & n0' & m' & E' & F' & H1' & H0' & Hlt2 & V'); try done; try lia.
  1: by eapply frame_bytes. 1: exact (frame_avail' _ _ _ _ _ (frame_avail' _ _ _ _ _ Hnp F1) F2).
  1: eapply avail_sub; [exact (frame_avail' _ _ _ _ _ (frame_avail' _ _ _ _ _ Hqp F1) F2)|lia..]. 1: segs.
  { intros i Hi. rewrite (fr_out _ _ _ F2) by segs. rewrite (fr_out _ _ _ F1) by lia. apply Hu. lia. }
  exists n1', n0', m'. split; [exact E'|]. split.
  { eapply frame_trans; [widen F1|]. eapply frame_trans; [widen F2|widen F']. }
  split; [done|]. split; [done|]. split; [done|].
  rewrite vsum_S, val_S, B_succ, (fr_out _ _ _ F'), L2 by (lia || segs). fold y.
  transitivity (B ^ Z.of_nat k * ((n1 * B + n0) * B + y) + vsum (digit m0 np E) (Z.of_nat k)); [ring|]. rewrite Hqr.
  transitivity (B ^ Z.of_nat k * q * (d1 * B + d0) + ((r1 * B + r0) * B ^ Z.of_nat k + vsum (digit m0 np E) (Z.of_nat k))); [ring|].
  rewrite V'. ring.
Qed.

Lemma val_2 m p : val m p 2 = lim m (p + 1) * B + lim m p.
Proof. change 2 with (1 + 1). rewrite val_S, val_1, Z.pow_1_r by lia. lia. Qed.

Lemma divrem_2_ok m qp E np n dp :
  bytes_ok m → 0 <= E → 2 <= n → avail m np n → avail m dp 2 → avail m qp (E + n - 2) → normalised (lim m (dp + 1)) →
  apart qp (E + n - 2) np n →
  divides (divrem_2 qp E np n dp) (λ x, seg qp (E + n - 2) x ∨ seg np 2 x) m qp (E + n - 2) np dp 2 (val m np n * B ^ E).
Proof.
  intros Hm HE Hn Hnp Hdp Hqp Hd Ha. unfold divrem_2, divides.
  rewrite (W_step _ _ _ _ _ (limb_at m dp 2 (dp + 1) Hdp ltac:(segs))), (W_step _ _ _ _ _ (limb_at m dp 2 dp Hdp ltac:(segs))).
  rewrite (W_step _ _ _ _ _ (limb_at m np n (np + (n - 2) + 1) Hnp ltac:(segs))), (W_step _ _ _ _ _ (limb_at m np n (np + (n - 2)) Hnp ltac:(segs))).
  rewrite (val_2 m dp). pose proof (lim_range m dp Hm) as Hd0. set (d1 := lim m (dp + 1)) in *. set (d0 := lim m dp) in *.
  pose proof (lim_range m (np + (n - 2) + 1) Hm) as Hx1. pose proof (lim_range m (np + (n - 2)) Hm) as Hx0.
  set (x1 := lim m (np + (n - 2) + 1)) in *. set (x0 := lim m (np + (n - 2))) in *.
  assert (∃ h n1 n0, (if (d1 <=? x1) && ((d1 <? x1) || (d0 <=? x0)) then let '(n1, n0) := sub_ddmmss x1 x0 d1 d0 in (n1, n0, 1) else (x1, x0, 0)) =
      (n1, n0, h) ∧ is_carry h ∧ is_u64 n1 ∧ is_u64 n0 ∧ n1 * B + n0 < d1 * B + d0 ∧ x1 * B + x0 = h * (d1 * B + d0) + (n1 * B + n0))
    as (h & n1 & n0 & -> & Hh & Hn1 & Hn0 & Hlt & Hxh).
  { unfold normalised, is_u64 in *. destruct (_ && _) eqn:Ec.
    - zb. assert (d1 * B + d0 <= x1 * B + x0) as Hge by (destruct (d1 <? x1) eqn:E1; cbn [orb] in *; zb; lia).
      destruct (sub_pair x1 x0 d1 d0) as (n1 & n0 & -> & ? & ? & Hv); [unfold pair_val; cbn [fst snd]; lia|]. unfold pair_val in Hv. cbn [fst snd] in Hv.
      exists 1, n1, n0. unfold is_u64 in *. split; [done|]. split; [by right|]. lia.
    - exists 0, x1, x0. split; [done|]. split; [by left|]. assert (x1 * B + x0 < d1 * B + d0); [|lia].
      apply andb_false_iff in Ec as [Ec|Ec]; zb; lia. }
  destruct (div2_loop_ok m (Z.to_nat (E + n - 2)) m qp E np n d1 d0 n1 n0) as (n1' & n0' & m1 & E1 & F1 & H1' & H0' & Hlt' & V1);
    rewrite ?Z2Nat.id in * by lia; try done.
  replace (np + Z.max 0 (E + n - 2 - E)) with (np + (n - 2)) in E1 by lia. rewrite (W_step _ _ _ _ _ E1).
  destruct (set_limb_ok m1 (np + 1) n1') as (m2 & E2 & F2 & L2); [rewrite (fr_map _ _ _ F1); apply Hnp; lia|done|].
  destruct (set_limb_ok m2 np n0') as (m3 & E3 & F3 & L3); [rewrite (fr_map _ _ _ F2), (fr_map _ _ _ F1); apply Hnp; lia|done|].
  rewrite (W_step _ _ _ _ _ E2), (W_step _ _ _ _ _ E3). exists h, m3. split; [done|].
  split; [eapply frame_trans; [widen F1|]; eapply frame_trans; [widen F2|widen F3]|]. split; [done|].
  rewrite val_2, L3, (fr_out _ _ _ F3), L2 by lia. split; [|done].
  rewrite (frame_val _ _ _ qp _ F3), (frame_val _ _ _ qp _ F2) by segs.
  assert (val m np n * B ^ E = vsum (digit m np E) (E + n)) as -> by (rewrite digits_val by lia; ring).
  assert (vsum (digit m np E) (E + n) = vsum (digit m np E) (E + n - 2) + B ^ (E + n - 2) * (x1 * B + x0)) as ->.
  { replace (E + n) with (E + n - 2 + 2) at 1 by lia. rewrite vsum_split by lia. do 2 f_equal.
    unfold vsum at 1. change (Z.to_nat 2) with 2%nat. cbn [nsum]. change (Z.of_nat 1) with 1. change (Z.of_nat 0) with 0. unfold digit.
    rewrite !(proj2 (Z.ltb_ge _ _)) by lia. replace (np + (E + n - 2 + 0) - E) with (np + (n - 2)) by lia.
    replace (np + (E + n - 2 + 1) - E) with (np + (n - 2) + 1) by lia. fold x0 x1. rewrite Z.pow_0_r, Z.pow_1_r. lia. }
  rewrite Hxh. transitivity (h * B ^ (E + n - 2) * (d1 * B + d0) + (val m1 qp (E + n - 2) * (d1 * B + d0) + (n1' * B + n0'))); [ring|].
  rewrite <- V1. ring.
Qed.
End divrem.
