(* ===== verification/DivremN.v ===== *)
(** * DivremN: Knuth's algorithm D, and [mpn_divrem] as a whole *)

From S2P Require Import Prelude Mem Logic Flat StrCpySpec Mpn MpnSpec MpnMul MpnKara Divrem DivremSpec DivremMem.
Local Open Scope Z_scope.

Section longer.
Context `{LongLong, !LongLongLaws _}.
Context (m0 : mem) (qp np dp E n K top : Z).
Context (Hm0 : bytes_ok m0) (HE : 0 <= E) (HK : 3 <= K) (Hn : K <= n) (Htop : n <= top) (Htop' : 0 < E → K + 1 <= top).
Context (Hnp : avail m0 np top) (Hdp : avail m0 dp K) (Hqp : avail m0 qp (E + n - K)).
Context (Hnorm : normalised (lim m0 (dp + (K - 1)))).
Context (Aqn : apart qp (E + n - K) np top) (Aqd : apart qp (E + n - K) dp K) (And : apart np top dp K).
Notation D := (val m0 dp K).
Notation dX := (lim m0 (dp + (K - 1))).
Notation d1 := (lim m0 (dp + (K - 2))).

(** What may have been written. *)
Definition area (x : Z) : Prop := seg qp (E + n - K) x ∨ seg np top x.

(** The window on the remainder before round [k - 1]. *)
Definition window (k : Z) : Z := np + Z.max 0 (k - E).

(** The state between rounds: [k] quotient limbs are missing. *)
Record state (m : mem) (k n0 R : Z) : Prop := State {
  st_k : 0 <= k <= E + n - K;
  st_frame : frame area m0 m;
  st_unread : unread m0 m np E k;
  st_R : val m (window k) K = R;
  st_n0 : n0 = lim m (window k + (K - 1));
  st_lt : R < D }.
Set Default Proof Using "All".

Lemma three_limbs m p : val m p K = ((lim m (p + (K - 1)) * B + lim m (p + (K - 2))) * B ^ (K - 2)) + val m p (K - 2).
Proof.
  replace K with (K - 2 + 1 + 1) at 1 by lia. rewrite !val_S, B_succ by lia.
  replace (p + (K - 2 + 1)) with (p + (K - 1)) by lia. ring.
Qed.

Lemma D_range : 2 ^ 63 * B ^ (K - 1) <= D < B ^ K.
Proof.
  split; [|by apply val_range; [|lia]]. rewrite three_limbs. replace (K - 1) with (K - 2 + 1) at 1 by lia. rewrite B_succ by lia.
  pose proof (val_range m0 dp (K - 2) Hm0 ltac:(lia)). pose proof (lim_range m0 (dp + (K - 2)) Hm0) as Hd1.
  pose proof (B_pos (K - 2) ltac:(lia)) as HP. unfold normalised, is_u64 in *.
  assert (2 ^ 63 * (B * B ^ (K - 2)) <= dX * (B * B ^ (K - 2))) by (apply Z.mul_le_mono_nonneg_r; lia).
  assert (0 <= d1 * B ^ (K - 2)) by (apply Z.mul_nonneg_nonneg; lia). lia.
Qed.

Lemma D_kept m : frame area m0 m → val m dp K = D.
Proof. intros F. apply (frame_val _ _ _ _ _ F). intros x ??. unfold area, seg, apart in *. lia. Qed.

(** The next limb is brought into the window. *)
Lemma div_window_ok m k n0 R :
  state m (k + 1) n0 R → 0 <= k →
  ∃ m1, div_window E K (window (k + 1)) k m = Some ((window k, n0), m1) ∧ frame area m0 m1 ∧ unread m0 m1 np E k ∧
    frame (seg np top) m m1 ∧ B ^ K * n0 + val m1 (window k) K = R * B + digit m0 np E k.
Proof.
  intros [Hk F Hu HR Hn0 Hlt] Hk0. unfold div_window, digit. pose proof (frame_bytes _ _ _ Hm0 F) as Hm.
  pose proof (frame_avail' _ _ _ _ _ Hnp F) as Hnp'. unfold window in *. destruct (E <=? k) eqn:Ek; zb.
  - replace (np + Z.max 0 (k + 1 - E)) with (np + (k + 1 - E)) in * by lia. replace (np + Z.max 0 (k - E)) with (np + (k - E)) in * by lia.
    replace (np + (k + 1 - E) - 1) with (np + (k - E)) by lia.
    rewrite (W_step _ _ _ _ _ (limb_at m np top (np + (k - E) + K) Hnp' ltac:(segs))).
    replace (np + (k - E) + K) with (np + (k + 1 - E) + (K - 1)) by lia. rewrite <- Hn0.
    exists m. split; [done|]. split; [done|]. split; [intros i Hi; apply Hu; lia|]. split; [done|].
    rewrite (proj2 (Z.ltb_ge _ _)) by lia.
    assert (val m (np + (k - E)) (K + 1) = val m (np + (k - E)) K + B ^ K * n0) as Hs.
    { rewrite val_S by lia. do 2 f_equal. rewrite Hn0. f_equal. lia. }
    assert (val m (np + (k - E)) (1 + K) = lim m (np + (k - E)) + B * R) as Hf.
    { rewrite val_first by lia. rewrite <- HR. do 2 f_equal. f_equal. lia. }
    rewrite (Z.add_comm 1) in Hf. replace (np + (k - E)) with (np + k - E) in * by lia. rewrite (Hu k) in Hf by lia. lia.
  - replace (np + Z.max 0 (k + 1 - E)) with np in * by lia. replace (np + Z.max 0 (k - E)) with np by lia.
    rewrite (W_step _ _ _ _ _ (limb_at m np top (np + (K - 1)) Hnp' ltac:(segs))), <- Hn0.
    destruct (MPN_COPY_DECR_ok m (np + 1) np K) as (m1 & E1 & F1 & L1); [eapply avail_sub; [exact Hnp'|lia..]|eapply avail_sub; [exact Hnp'|lia..]|lia|done|lia|].
    rewrite (W_step _ _ _ _ _ E1).
    destruct (set_limb_ok m1 np 0) as (m2 & E2 & F2 & L2); [rewrite (fr_map _ _ _ F1); apply Hnp'; lia|done|].
    rewrite (W_step _ _ _ _ _ E2). exists m2. split; [done|].
    assert (frame (seg np top) m m2) as G by (eapply frame_trans; [widen F1|widen F2]).
    split; [eapply frame_trans; [exact F|]; eapply frame_weaken; [|exact G]; by right|].
    split; [intros i Hi; lia|]. split; [done|]. rewrite (proj2 (Z.ltb_lt _ _)) by lia.
    assert (val m2 np (1 + K) = B * R) as Hf.
    { rewrite val_first, L2, Z.add_0_l by lia. f_equal. rewrite (frame_val _ _ _ _ _ F2) by segs. rewrite <- HR. apply vsum_ext.
      intros i Hi. by rewrite L1. }
    assert (lim m2 (np + K) = n0) as Ht.
    { rewrite (fr_out _ _ _ F2) by lia. replace (np + K) with (np + 1 + (K - 1)) by lia. by rewrite L1 by lia. }
    rewrite (Z.add_comm 1), val_S, Ht in Hf by lia. lia.
Qed.

(** The limb of the quotient is subtracted off, and corrected. *)
Lemma correct_ok m w n2 q N :
  frame area m0 m → np <= w → w + K <= np + top → is_u64 q → is_u64 n2 → B ^ K * n2 + val m w K = N → (q - 1) * D <= N < (q + 1) * D →
  ∃ q' m', (cy_limb ← mpn_submul_1 w dp K q;
      (if negb (n2 =? cy_limb) then mpn_add_n w w dp K;; mret (u64 (q - 1)) else mret q)) m = Some (q', m') ∧
    frame (seg w K) m m' ∧ is_u64 q' ∧ N = q' * D + val m' w K ∧ val m' w K < D.
Proof.
  intros F Hw1 Hw2 Hq Hn2 HN Hqq. pose proof (frame_bytes _ _ _ Hm0 F) as Hm. pose proof D_range as HD.
  assert (avail m w K) as Hw by (eapply avail_sub; [exact (frame_avail' _ _ _ _ _ Hnp F)|lia..]).
  assert (avail m dp K) as Hd by exact (frame_avail' _ _ _ _ _ Hdp F).
  destruct (mpn_submul_1_ok m w dp K q) as (cy & m1 & E1 & F1 & C1 & V1); try done; [segs|lia|].
  rewrite (W_step _ _ _ _ _ E1), (D_kept m F) in *. pose proof (frame_bytes _ _ _ Hm F1) as Hm1.
  pose proof (val_range m1 w K Hm1 ltac:(lia)) as Hr1. pose proof (B_pos (K - 1) ltac:(lia)) as HB1.
  assert (N - q * D = val m1 w K + B ^ K * (n2 - cy)) as Hdiff by lia.
  destruct (n2 =? cy) eqn:En; cbn [negb]; zb.
  - exists q, m1. split; [done|]. split; [done|]. split; [done|]. subst cy. lia.
  - assert (N < q * D) as Hneg.
    { destruct (Z.lt_ge_cases N (q * D)) as [|Hge]; [done|]. assert (n2 - cy = 0); [|lia].
      assert (0 <= val m1 w K + B ^ K * (n2 - cy) < B ^ K) by lia. nia. }
    assert (n2 - cy = -1) as Hn1 by nia.
    destruct (mpn_add_n_ok m1 w w dp K) as (c & m2 & E2 & F2 & C2 & V2); try done.
    1: exact (frame_avail' _ _ _ _ _ Hw F1). 1: exact (frame_avail' _ _ _ _ _ Hd F1). 1: exact (frame_avail' _ _ _ _ _ Hw F1).
    1: apply behind_self. 1: segs. 1: lia.
    assert (frame area m0 m1) as G1 by (eapply frame_trans; [exact F|]; eapply frame_weaken; [|exact F1]; unfold area, seg; lia).
    rewrite (D_kept m1 G1) in V2. rewrite (W_step _ _ _ _ _ E2). exists (u64 (q - 1)), m2. split; [done|].
    split; [by eapply frame_trans|]. split; [apply u64_range|].
    pose proof (val_range m2 w K (frame_bytes _ _ _ Hm1 F2) ltac:(lia)) as Hr2.
    assert (1 <= q) as Hq1.
    { pose proof (val_range m w K Hm ltac:(lia)). unfold is_u64 in Hq, Hn2. assert (0 <= B ^ K * n2) by (apply Z.mul_nonneg_nonneg; lia). nia. }
    unfold is_u64 in Hq. rewrite u64_small by (unfold is_u64; lia).
    assert (c = 1) as -> by (destruct C2 as [-> | ->]; [nia|done]). nia.
Qed.

Lemma div_round_ok m k n0 R :
  state m (k + 1) n0 R → 0 <= k →
  ∃ n0' m' q R', div_round qp E dp K dX d1 (window (k + 1)) k n0 m = Some ((window k, n0'), m') ∧ state m' k n0' R' ∧
    R * B + digit m0 np E k = q * D + R' ∧ lim m' (qp + k) = q ∧ frame (λ x, x = qp + k ∨ seg np top x) m m'.
Proof.
  intros Hs Hk0. unfold div_round. destruct (div_window_ok m k n0 R Hs Hk0) as (m1 & E1 & F1 & U1 & G1 & V1).
  rewrite (W_step _ _ _ _ _ E1). cbv beta iota. pose proof Hs as [Hk F Hu HR Hn0 Hlt].
  pose proof (frame_bytes _ _ _ Hm0 F1) as Hm1. pose proof (frame_bytes _ _ _ Hm0 F) as Hm.
  assert (np <= window k ∧ window k + K <= np + top) as [Hw1 Hw2] by (unfold window; lia).
  pose proof (frame_avail' _ _ _ _ _ Hnp F1) as Hnp1.
  rewrite (W_step _ _ _ _ _ (limb_at m1 np top (window k + (K - 1)) Hnp1 ltac:(segs))).
  rewrite (W_step _ _ _ _ _ (limb_at m1 np top (window k + (K - 2)) Hnp1 ltac:(segs))).
  set (nd1 := lim m1 (window k + (K - 1))). set (nd2 := lim m1 (window k + (K - 2))).
  pose proof (digit_range m0 np E k Hm0) as Hy. set (y := digit m0 np E k) in *.
  pose proof (three_limbs m1 (window k)) as Hwin. fold nd1 nd2 in Hwin. pose proof (three_limbs m0 dp) as HD.
  assert (B ^ K = B * (B * B ^ (K - 2))) as HBK.
  { replace K with (K - 2 + 1 + 1) at 1 by lia. by rewrite !B_succ by lia. }
  assert (is_u64 n0) as Hn0u by (rewrite Hn0; by apply lim_range).
  destruct (div_estimate_ok (B ^ (K - 2)) dX d1 (val m0 dp (K - 2)) n0 nd1 nd2 (val m1 (window k) (K - 2))) as (q & -> & Hq & Hqq).
  1: apply B_pos; lia. 1: done. 1: by apply lim_range. 1: by apply val_range; [|lia]. 1: done.
  1: by apply lim_range. 1: by apply lim_range. 1: by apply val_range; [|lia].
  { rewrite <- HD. unfold is_u64 in Hy.
    replace (((n0 * B + nd1) * B + nd2) * B ^ (K - 2) + val m1 (window k) (K - 2)) with (B ^ K * n0 + val m1 (window k) K) by (rewrite Hwin, HBK; ring).
    rewrite V1. lia. }
  rewrite <- HD in Hqq.
  replace (((n0 * B + nd1) * B + nd2) * B ^ (K - 2) + val m1 (window k) (K - 2)) with (B ^ K * n0 + val m1 (window k) K) in Hqq by (rewrite Hwin, HBK; ring).
  destruct (correct_ok m1 (window k) n0 q _ F1 Hw1 Hw2 Hq Hn0u eq_refl Hqq) as (q' & m2 & E2 & F2 & Hq' & HN & HR').
  rewrite <- W_assoc, (W_step _ _ _ _ _ E2).
  assert (frame area m0 m2) as G2 by (eapply frame_trans; [exact F1|]; eapply frame_weaken; [|exact F2]; unfold area, seg; lia).
  destruct (set_limb_ok m2 (qp + k) q') as (m3 & E3 & F3 & L3).
  { rewrite (fr_map _ _ _ G2). apply Hqp. lia. }
  { done. }
  rewrite (W_step _ _ _ _ _ E3).
  assert (frame area m0 m3) as G3 by (eapply frame_trans; [exact G2|]; eapply frame_weaken; [|exact F3]; unfold area, seg; lia).
  rewrite (W_step _ _ _ _ _ (limb_at m3 np top (window k + (K - 1)) (frame_avail' _ _ _ _ _ Hnp G3) ltac:(segs))).
  exists (lim m3 (window k + (K - 1))), m3, q', (val m2 (window k) K). split; [done|].
  assert (val m3 (window k) K = val m2 (window k) K) as Hv3 by (apply (frame_val _ _ _ _ _ F3); segs).
  split; [|split; [by rewrite <- V1|split; [done|]]].
  - split; [lia|done| |done|done|done]. intros i Hi. rewrite (fr_out _ _ _ F3) by segs. rewrite (fr_out _ _ _ F2); [by apply U1|].
    unfold window, seg. lia.
  - eapply frame_trans; [widen G1|]. eapply frame_trans; [widen F2|widen F3].
Qed.

Lemma divn_loop_ok k m n0 R :
  state m (Z.of_nat k) n0 R →
  ∃ m', divn_loop k qp E dp K dX d1 (window (Z.of_nat k)) (Z.of_nat k - 1) n0 m = Some (tt, m') ∧
    frame (λ x, seg qp (Z.of_nat k) x ∨ seg np top x) m m' ∧ val m' np K < D ∧
    R * B ^ Z.of_nat k + vsum (digit m0 np E) (Z.of_nat k) = val m' qp (Z.of_nat k) * D + val m' np K.
Proof.
  revert m n0 R. induction k as [|k IH]; intros m n0 R Hs.
  { exists m. split; [done|]. split; [done|]. destruct Hs as [_ _ _ HR _ Hlt]. rewrite vsum_0, (val_0 m qp) by done.
    unfold window in HR. replace (np + Z.max 0 (Z.of_nat 0 - E)) with np in HR by lia. rewrite HR. cbn -[Z.mul Z.add Z.pow]. lia. }
  cbn [divn_loop]. replace (Z.of_nat (S k) - 1) with (Z.of_nat k) by lia. replace (Z.of_nat (S k)) with (Z.of_nat k + 1) in * by lia.
  destruct (div_round_ok m (Z.of_nat k) n0 R Hs ltac:(lia)) as (n0' & m1 & q & R' & E1 & Hs1 & Hq & L1 & F1).
  rewrite (W_step _ _ _ _ _ E1). cbv beta iota. destruct (IH m1 n0' R' Hs1) as (m2 & E2 & F2 & Hlt & V2).
  exists m2. split; [exact E2|]. split; [eapply frame_trans; [widen F1|widen F2]|]. split; [done|].
  assert (0 <= Z.of_nat k + 1 <= E + n - K) as Hk by apply Hs.
  rewrite vsum_S, val_S, B_succ, (fr_out _ _ _ F2), L1 by (lia || segs).
  transitivity (B ^ Z.of_nat k * (R * B + digit m0 np E (Z.of_nat k)) + vsum (digit m0 np E) (Z.of_nat k)); [ring|]. rewrite Hq.
  transitivity (B ^ Z.of_nat k * q * D + (R' * B ^ Z.of_nat k + vsum (digit m0 np E) (Z.of_nat k))); [ring|]. rewrite V2. ring.
Qed.

(** The first step: the divisor is subtracted once if the leading limbs are not smaller. *)
Lemma first_ok :
  ∃ n0 h m1, (if dX <=? lim m0 (np + (n - K) + (K - 1)) then
      ge ← (if dX <? lim m0 (np + (n - K) + (K - 1)) then mret true else c ← mpn_cmp (np + (n - K)) dp (K - 1); mret (0 <=? c));
      if (ge : bool) then mpn_sub_n (np + (n - K)) (np + (n - K)) dp K;; n0 ← limb (np + (n - K) + (K - 1)); mret (n0, 1)
      else mret (lim m0 (np + (n - K) + (K - 1)), 0)
    else mret (lim m0 (np + (n - K) + (K - 1)), 0)) m0 = Some ((n0, h), m1) ∧
    frame (seg np top) m0 m1 ∧ is_carry h ∧ ∃ R, state m1 (E + n - K) n0 R ∧ val m0 (np + (n - K)) K = h * D + R.
Proof.
  set (w := np + (n - K)). assert (window (E + n - K) = w) as Hwin by (unfold window, w; lia).
  set (x := lim m0 (w + (K - 1))). pose proof D_range as HDr.
  assert (avail m0 w K) as Hw by (eapply avail_sub; [exact Hnp|unfold w; lia..]).
  pose proof (val_range m0 w K Hm0 ltac:(lia)) as HW.
  assert (val m0 w K = val m0 w (K - 1) + B ^ (K - 1) * x) as HWs by (replace K with (K - 1 + 1) at 1 by lia; by rewrite val_S by lia).
  assert (D = val m0 dp (K - 1) + B ^ (K - 1) * dX) as HDs by (replace K with (K - 1 + 1) at 1 by lia; by rewrite val_S by lia).
  pose proof (val_range m0 w (K - 1) Hm0 ltac:(lia)) as Hwl. pose proof (val_range m0 dp (K - 1) Hm0 ltac:(lia)) as Hdl.
  pose proof (B_pos (K - 1) ltac:(lia)) as HP.
  assert (∀ n0, n0 = x → val m0 w K < D → state m0 (E + n - K) n0 (val m0 w K)) as Hskip.
  { intros ? -> Hlt. split; [lia|done|done|by rewrite Hwin|by rewrite Hwin|done]. }
  assert (D <= val m0 w K → ∃ n0 m1, (mpn_sub_n w w dp K;; n0 ← limb (w + (K - 1)); mret (n0, 1)) m0 = Some ((n0, 1), m1) ∧
    frame (seg np top) m0 m1 ∧ ∃ R, state m1 (E + n - K) n0 R ∧ val m0 w K = 1 * D + R) as Hsub.
  { intros Hge. destruct (mpn_sub_n_ok m0 w w dp K) as (cy & m1 & E1 & F1 & C1 & V1); try done; [apply behind_self|unfold w; segs|lia|].
    rewrite (W_step _ _ _ _ _ E1).
    assert (frame (seg np top) m0 m1) as G1 by (unfold w in *; widen F1).
    rewrite (W_step _ _ _ _ _ (limb_at m1 np top (w + (K - 1)) (frame_avail' _ _ _ _ _ Hnp G1) ltac:(unfold w; segs))).
    exists (lim m1 (w + (K - 1))), m1. split; [done|]. split; [done|]. exists (val m0 w K - D). split; [|lia].
    pose proof (val_range m1 w K (frame_bytes _ _ _ Hm0 F1) ltac:(lia)) as Hr1.
    assert (B ^ K = B * B ^ (K - 1)) as HBK by (replace K with (K - 1 + 1) at 1 by lia; by rewrite B_succ by lia).
    split; [lia|eapply frame_weaken; [|exact G1]; by right| |rewrite Hwin; destruct C1 as [-> | ->]; lia|by rewrite Hwin|lia].
    intros i Hi. apply (fr_out _ _ _ F1). unfold w, seg. lia. }
  destruct (dX <=? x) eqn:E1; zb.
  - destruct (dX <? x) eqn:E2; zb.
    + destruct Hsub as (n0 & m1 & Es & F1 & R & Hs & Hv); [nia|]. exists n0, 1, m1.
      rewrite (W_step _ _ m0 true m0 eq_refl). split; [done|]. split; [done|]. split; [by right|]. by exists R.
    + assert (x = dX) as Hx by lia. rewrite W_assoc.
      assert (avail m0 w (K - 1)) as Hw' by (eapply avail_sub; [exact Hw|lia..]).
      assert (avail m0 dp (K - 1)) as Hdp' by (eapply avail_sub; [exact Hdp|lia..]).
      rewrite (W_step _ _ _ _ _ (mpn_cmp_ok m0 w dp (K - 1) Hm0 Hw' Hdp' ltac:(lia))).
      destruct (Z.compare_spec (val m0 w (K - 1)) (val m0 dp (K - 1))) as [e|l|g].
      * destruct Hsub as (n0 & m1 & Es & F1 & R & Hs & Hv); [rewrite HWs, HDs, Hx; lia|]. exists n0, 1, m1.
        rewrite (W_step _ _ m0 true m0 eq_refl). split; [done|]. split; [done|]. split; [by right|]. by exists R.
      * exists x, 0, m0. rewrite (W_step _ _ m0 false m0 eq_refl). split; [done|]. split; [done|]. split; [by left|].
        exists (val m0 w K). split; [|lia]. apply Hskip; [done|]. rewrite HWs, HDs, Hx. lia.
      * destruct Hsub as (n0 & m1 & Es & F1 & R & Hs & Hv); [rewrite HWs, HDs, Hx; lia|]. exists n0, 1, m1.
        rewrite (W_step _ _ m0 true m0 eq_refl). split; [done|]. split; [done|]. split; [by right|]. by exists R.
  - exists x, 0, m0. split; [done|]. split; [done|]. split; [by left|]. exists (val m0 w K). split; [|lia]. apply Hskip; [done|]. nia.
Qed.

Lemma divrem_n_ok : divides (divrem_n qp E np n dp K) area m0 qp (E + n - K) np dp K (val m0 np n * B ^ E).
Proof.
  unfold divides, divrem_n.
  rewrite (W_step _ _ _ _ _ (limb_at m0 dp K (dp + (K - 1)) Hdp ltac:(segs))), (W_step _ _ _ _ _ (limb_at m0 dp K (dp + (K - 2)) Hdp ltac:(segs))).
  rewrite (W_step _ _ _ _ _ (limb_at m0 np top (np + (n - K) + (K - 1)) Hnp ltac:(segs))).
  destruct first_ok as (n0 & h & m1 & E1 & F1 & Hh & R & Hs & Hv). rewrite (W_step _ _ _ _ _ E1). cbv beta iota.
  destruct (divn_loop_ok (Z.to_nat (E + n - K)) m1 n0 R) as (m2 & E2 & F2 & Hlt & V2); rewrite ?Z2Nat.id in * by lia; [done|].
  replace (window (E + n - K)) with (np + (n - K)) in E2 by (unfold window; lia). rewrite (W_step _ _ _ _ _ E2).
  exists h, m2. split; [done|]. split.
  { eapply frame_trans; [eapply frame_weaken; [|exact F1]; by right|exact F2]. }
  split; [done|]. split; [|done].
  assert (val m0 np n * B ^ E = vsum (digit m0 np E) (E + n)) as -> by (rewrite digits_val by lia; ring).
  assert (vsum (digit m0 np E) (E + n) = vsum (digit m0 np E) (E + n - K) + B ^ (E + n - K) * val m0 (np + (n - K)) K) as ->.
  { replace (E + n) with (E + n - K + K) at 1 by lia. rewrite vsum_split by lia. do 2 f_equal.
    apply vsum_ext. intros i Hi. unfold digit. rewrite (proj2 (Z.ltb_ge _ _)) by lia. f_equal. lia. }
  rewrite Hv. transitivity (h * B ^ (E + n - K) * D + (val m2 qp (E + n - K) * D + val m2 np K)); [ring|]. rewrite <- V2. ring.
Qed.
End longer.

(** ** The whole function

    With extra quotient limbs and at least three limbs in the divisor, the loop also writes
    the limb above a dividend that is no longer than the divisor: [top]. *)
Definition div_top (E n K : Z) : Z := if (0 <? E) && (3 <=? K) then Z.max n (K + 1) else n.

Lemma mpn_divrem_ok `{LongLong, !LongLongLaws _} m qp E np n dp K :
  bytes_ok m → 0 <= E → 1 <= K <= n → avail m np (div_top E n K) → avail m dp K → avail m qp (E + n - K) →
  normalised (lim m (dp + (K - 1))) →
  apart qp (E + n - K) np (div_top E n K) → apart qp (E + n - K) dp K → apart np (div_top E n K) dp K →
  divides (mpn_divrem qp E np n dp K) (λ x, seg qp (E + n - K) x ∨ seg np (div_top E n K) x)
    m qp (E + n - K) np dp K (val m np n * B ^ E).
Proof.
  intros Hm HE HK Hnp Hdp Hqp Hd A1 A2 A3. unfold mpn_divrem. rewrite (proj2 (Z.eqb_neq K 0)) by lia.
  assert (n <= div_top E n K) as Htop by (unfold div_top; case_match; lia).
  assert (∀ j, j <= n → avail m np j) as Hnj by (intros; eapply avail_sub; [exact Hnp|lia..]).
  destruct (K =? 1) eqn:E1; [|destruct (K =? 2) eqn:E2]; zb.
  - subst K. rewrite Z.add_0_r in Hd. destruct (divrem_1_ok m qp E np n dp) as (h & m' & ? & F & ?); try done; try lia.
    1: apply Hnj; lia. 1: segs. exists h, m'. split; [done|]. split; [|done]. eapply frame_weaken; [|exact F]. unfold seg. lia.
  - subst K. destruct (divrem_2_ok m qp E np n dp) as (h & m' & ? & F & ?); try done; try lia.
    1: apply Hnj; lia. 1: segs. exists h, m'. split; [done|]. split; [|done]. eapply frame_weaken; [|exact F]. unfold seg. lia.
  - apply (divrem_n_ok m qp np dp E n K (div_top E n K)); try done; try lia.
    unfold div_top. intros. rewrite (proj2 (Z.ltb_lt 0 E)), (proj2 (Z.leb_le 3 K)) by lia. cbn [andb]. lia.
Qed.
