(* ===== verification/MpnShift.v ===== *)
(** * MpnShift: the shifts multiply and divide by a power of two *)

From S2P Require Import Prelude Mem Logic Flat StrCpySpec Mpn MpnSpec MpnMul MpnKara DivremMem.
Local Open Scope Z_scope.

Section shift.
Context (c : Z) (Hc : 0 < c < 64).
Set Default Proof Using "All".

Lemma pow_split : 2 ^ c * 2 ^ (64 - c) = B.
Proof. rewrite <- Z.pow_add_r by lia. f_equal. lia. Qed.

(** The part of a limb that stays in place and the part that leaves it. *)
Definition stay (x : Z) : Z := u64 (x ≪ c).
Definition leave (x : Z) : Z := x ≫ (64 - c).

Lemma stay_leave x : is_u64 x → x * 2 ^ c = stay x + B * leave x ∧ 0 <= leave x < 2 ^ c ∧ ∃ k, stay x = k * 2 ^ c.
Proof.
  intros Hx. unfold stay, leave, is_u64, wrapu in *. rewrite Z.shiftl_mul_pow2, Z.shiftr_div_pow2 by lia.
  pose proof pow_split as Hp. assert (0 < 2 ^ (64 - c)) as Hq by (apply Z.pow_pos_nonneg; lia). assert (0 < 2 ^ c) as Hr by (apply Z.pow_pos_nonneg; lia).
  rewrite <- Hp. rewrite (Z.mul_comm x), Z.mul_mod_distr_l by lia.
  pose proof (Z.div_mod x (2 ^ (64 - c)) ltac:(lia)) as Hd.
  split; [rewrite Hd at 1; ring|]. split.
  - split; [apply Z.div_pos; lia|]. apply Z.div_lt_upper_bound; lia.
  - exists (x mod 2 ^ (64 - c)). ring.
Qed.

(** The two parts of neighbouring limbs meet without overlap. *)
Lemma join_ok x y : is_u64 x → is_u64 y → Z.lor (stay x) (leave y) = stay x + leave y ∧ is_u64 (stay x + leave y).
Proof.
  intros Hx Hy. destruct (stay_leave x Hx) as (_ & _ & k & Hk). destruct (stay_leave y Hy) as (_ & Hl & _).
  split; [rewrite Hk; apply lor_disjoint; lia|].
  pose proof (u64_range (x ≪ c)) as Hs. fold (stay x) in Hs. unfold is_u64 in *.
  pose proof pow_split as Hp. assert (0 < 2 ^ c) by (apply Z.pow_pos_nonneg; lia). rewrite Hk in *.
  assert (k < 2 ^ (64 - c)) by nia. assert ((k + 1) * 2 ^ c <= 2 ^ (64 - c) * 2 ^ c) by (apply Z.mul_le_mono_nonneg_r; lia). lia.
Qed.

(** Limb [i] of the result of a left shift of the limbs [u]. *)
Definition shifted (u : Z → Z) (i : Z) : Z := if i =? 0 then stay (u 0) else stay (u i) + leave (u (i - 1)).

Lemma shifted_val u n : (∀ i, is_u64 (u i)) → 1 <= n → vsum (shifted u) n + B ^ n * leave (u (n - 1)) = vsum u n * 2 ^ c.
Proof.
  intros Hu Hn. assert (0 <= n - 1) as Hk by lia. remember (n - 1) as k eqn:Ek. replace n with (k + 1) by lia. clear Ek Hn n. revert k Hk.
  apply (limbs_ind (λ k, vsum (shifted u) (k + 1) + B ^ (k + 1) * leave (u k) = vsum u (k + 1) * 2 ^ c)).
  - rewrite !vsum_S, !vsum_0, Z.pow_0_r, Z.pow_1_r by lia. unfold shifted. cbn [Z.eqb]. 
    pose proof (proj1 (stay_leave (u 0) (Hu 0))). lia.
  - intros k Hk IH. rewrite !(vsum_S _ (k + 1)), (B_succ (k + 1)) by lia. unfold shifted at 2. rewrite (proj2 (Z.eqb_neq _ _)) by lia.
    replace (k + 1 - 1) with k by lia. rewrite Z.mul_add_distr_r, <- IH.
    transitivity (vsum (shifted u) (k + 1) + B ^ (k + 1) * leave (u k) + B ^ (k + 1) * (stay (u (k + 1)) + B * leave (u (k + 1)))); [ring|].
    rewrite <- (proj1 (stay_leave (u (k + 1)) (Hu (k + 1)))). ring.
Qed.

Lemma lshift_loop_ok m0 wp up n k m :
  bytes_ok m0 → avail m0 up n → avail m0 wp n → (up <= wp ∨ wp + n <= up) → Z.of_nat k < n →
  frame (λ x, wp + 1 + Z.of_nat k <= x < wp + n) m0 m →
  (∀ i, Z.of_nat k < i < n → lim m (wp + i) = shifted (λ i, lim m0 (up + i)) i) →
  ∃ m', lshift_loop k (wp + 1) up c (64 - c) (Z.of_nat k) (lim m0 (up + Z.of_nat k)) m = Some (lim m0 up, m') ∧
    frame (seg wp n) m0 m' ∧ ∀ i, 0 < i < n → lim m' (wp + i) = shifted (λ i, lim m0 (up + i)) i.
Proof.
  intros Hm Hu Hw Ho. revert m. induction k as [|k IH]; intros m Hk F Hv.
  { exists m. rewrite Z.add_0_r. split; [done|]. split; [eapply frame_weaken; [|exact F]; segs|]. intros. apply Hv. lia. }
  cbn [lshift_loop]. replace (Z.of_nat (S k) - 1) with (Z.of_nat k) by lia.
  rewrite (W_step _ _ _ _ _ (limb_at m up n (up + Z.of_nat k) (frame_avail' _ _ _ _ _ Hu F) ltac:(segs))), (fr_out _ _ _ F) by lia.
  pose proof (lim_range m0 (up + Z.of_nat k) Hm) as Hl. pose proof (lim_range m0 (up + Z.of_nat (S k)) Hm) as Hh.
  destruct (join_ok _ _ Hh Hl) as [Hj Hr]. fold (stay (lim m0 (up + Z.of_nat (S k)))) (leave (lim m0 (up + Z.of_nat k))). rewrite Hj.
  replace (wp + 1 + Z.of_nat k) with (wp + Z.of_nat (S k)) by lia.
  destruct (set_limb_ok m (wp + Z.of_nat (S k)) _ ltac:(rewrite (fr_map _ _ _ F); apply Hw; lia) Hr) as (m1 & E1 & F1 & L1).
  rewrite (W_step _ _ _ _ _ E1). apply IH; [lia| |].
  - eapply frame_step; [exact F|exact F1|cbn; lia..].
  - intros i Hi. destruct (decide (i = Z.of_nat (S k))) as [->|].
    + rewrite L1. unfold shifted. rewrite (proj2 (Z.eqb_neq _ _)) by lia. do 3 f_equal. lia.
    + rewrite (fr_out _ _ _ F1) by lia. apply Hv. lia.
Qed.

Lemma mpn_lshift_ok m wp up n :
  bytes_ok m → avail m up n → avail m wp n → (up <= wp ∨ wp + n <= up) → 1 <= n →
  ∃ r m', mpn_lshift wp up n c m = Some (r, m') ∧ frame (seg wp n) m m' ∧ 0 <= r < 2 ^ c ∧
    val m' wp n + B ^ n * r = val m up n * 2 ^ c.
Proof.
  intros Hm Hu Hw Ho Hn. unfold mpn_lshift.
  rewrite (W_step _ _ _ _ _ (limb_at m up n (up + (n - 1)) Hu ltac:(segs))).
  destruct (lshift_loop_ok m wp up n (Z.to_nat (n - 1)) m) as (m1 & E1 & F1 & L1); rewrite ?Z2Nat.id in * by lia; try done; try lia.
  rewrite (W_step _ _ _ _ _ E1). replace (wp + 1 + Z.min (-1) (n - 1 - 1)) with wp by lia.
  destruct (set_limb_ok m1 wp (stay (lim m up))) as (m2 & E2 & F2 & L2); [rewrite (fr_map _ _ _ F1); apply Hw; lia|apply u64_range|].
  fold (stay (lim m up)). rewrite (W_step _ _ _ _ _ E2). fold (leave (lim m (up + (n - 1)))).
  exists (leave (lim m (up + (n - 1)))), m2. split; [done|]. split; [eapply frame_trans; [exact F1|widen F2]|].
  split; [apply stay_leave; by apply lim_range|].
  unfold val at 2. rewrite <- shifted_val by (done || intros; by apply lim_range). f_equal. apply vsum_ext. intros i Hi.
  destruct (decide (i = 0)) as [->|]; [unfold shifted; cbn [Z.eqb]; by rewrite !Z.add_0_r|].
  rewrite (fr_out _ _ _ F2) by lia. apply L1. lia.
Qed.

(** ** Right shifts: limb [i] of the result, multiplied by [2 ^ (64 - c)] without loss *)

Lemma rshift_loop_ok m0 wp up n k i m :
  bytes_ok m0 → avail m0 up n → avail m0 wp n → behind wp up n →
  (∀ j, 0 <= j < n - 1 → is_u64 (Z.lor (lim m0 (up + j) ≫ c) (u64 (lim m0 (up + (j + 1)) ≪ (64 - c))))) → 1 <= i → Z.of_nat k = n - i →
  frame (seg wp (i - 1)) m0 m →
  (∀ j, 0 <= j < i - 1 → lim m (wp + j) = Z.lor (lim m0 (up + j) ≫ c) (u64 (lim m0 (up + (j + 1)) ≪ (64 - c)))) →
  ∃ m', rshift_loop k (wp - 1) up c (64 - c) i (lim m0 (up + (i - 1))) m = Some (lim m0 (up + (n - 1)), m') ∧
    frame (seg wp (n - 1)) m0 m' ∧
    ∀ j, 0 <= j < n - 1 → lim m' (wp + j) = Z.lor (lim m0 (up + j) ≫ c) (u64 (lim m0 (up + (j + 1)) ≪ (64 - c))).
Proof.
  intros Hm Hu Hw Hb Hr. revert i m. induction k as [|k IH]; intros i m Hi Hk F Hv.
  { exists m. replace n with i in * by lia. done. }
  cbn [rshift_loop].
  rewrite (W_step _ _ _ _ _ (limb_at m up n (up + i) (frame_avail' _ _ _ _ _ Hu F) ltac:(segs))), (fr_out _ _ _ F) by segs.
  replace (wp - 1 + i) with (wp + (i - 1)) by lia. replace (up + i) with (up + (i - 1 + 1)) by lia.
  destruct (set_limb_ok m (wp + (i - 1)) (Z.lor (lim m0 (up + (i - 1)) ≫ c) (u64 (lim m0 (up + (i - 1 + 1)) ≪ (64 - c))))) as (m1 & E1 & F1 & L1).
  { rewrite (fr_map _ _ _ F). apply Hw. lia. }
  { apply Hr. lia. }
  rewrite (W_step _ _ _ _ _ E1). replace (i - 1 + 1) with (i + 1 - 1) by lia.
  apply IH; [lia..| |].
  - eapply frame_step; [exact F|exact F1|segs..].
  - intros j Hj. destruct (decide (j = i - 1)) as [->|].
    + by rewrite L1.
    + rewrite (fr_out _ _ _ F1) by lia. apply Hv. lia.
Qed.
End shift.

Lemma mpn_rshift_ok m wp up n c :
  0 < c < 64 → bytes_ok m → avail m up n → avail m wp n → behind wp up n → 1 <= n →
  ∃ r m', mpn_rshift wp up n c m = Some (r, m') ∧ frame (seg wp n) m m' ∧ is_u64 r ∧
    r + B * val m' wp n = val m up n * 2 ^ (64 - c).
Proof.
  intros Hc Hm Hu Hw Hb Hn. unfold mpn_rshift. rewrite !(proj2 (Z.eqb_neq _ _)) by lia. cbn [orb].
  rewrite (W_step _ _ _ _ _ (limb_at m up n up Hu ltac:(segs))). set (u := λ i, lim m (up + i)).
  assert (∀ i, is_u64 (u i)) as Hur by (intros; by apply lim_range).
  assert (∀ x, x ≫ c = leave (64 - c) x) as Hlv by (intros; unfold leave; f_equal; lia).
  assert (∀ j, 0 <= j → Z.lor (lim m (up + j) ≫ c) (u64 (lim m (up + (j + 1)) ≪ (64 - c))) = shifted (64 - c) u (j + 1) ∧
    is_u64 (shifted (64 - c) u (j + 1))) as Hj.
  { intros j Hj. rewrite Hlv, Z.lor_comm. fold (stay (64 - c) (lim m (up + (j + 1)))).
    destruct (join_ok (64 - c) ltac:(lia) _ _ (Hur (j + 1)) (Hur j)) as [Hj' Hr]. unfold u in Hj', Hr. rewrite Hj'.
    unfold shifted, u. rewrite (proj2 (Z.eqb_neq _ _)) by lia. by replace (j + 1 - 1) with j by lia. }
  destruct (rshift_loop_ok c Hc m wp up n (Z.to_nat (n - 1)) 1 m) as (m1 & E1 & F1 & L1); try done; try lia.
  { intros j Hj'. destruct (Hj j ltac:(lia)) as [-> ?]. done. }
  change (1 - 1) with 0 in E1. rewrite Z.add_0_r in E1. rewrite (W_step _ _ _ _ _ E1).
  replace (wp - 1 + Z.max 1 n) with (wp + (n - 1)) by lia. rewrite Hlv. fold (u (n - 1)).
  assert (u (n - 1) * 2 ^ (64 - c) = stay (64 - c) (u (n - 1)) + B * leave (64 - c) (u (n - 1)) ∧ is_u64 (leave (64 - c) (u (n - 1)))) as [_ Hlu].
  { destruct (stay_leave (64 - c) ltac:(lia) (u (n - 1)) (Hur _)) as (? & ? & _). split; [done|].
    assert (2 ^ (64 - c) <= 2 ^ 64) by (apply Z.pow_le_mono_r; lia). unfold is_u64. lia. }
  destruct (set_limb_ok m1 (wp + (n - 1)) _ ltac:(rewrite (fr_map _ _ _ F1); apply Hw; lia) Hlu) as (m2 & E2 & F2 & L2).
  rewrite (W_step _ _ _ _ _ E2). eexists _, m2. split; [done|]. split; [eapply frame_trans; [widen F1|widen F2]|]. split; [apply u64_range|].
  unfold val at 2. fold u. rewrite <- (shifted_val (64 - c)) by (done || lia).
  replace n with (n - 1 + 1) at 1 by lia. rewrite val_S, L2 by lia. rewrite (frame_val _ _ _ _ _ F2) by segs.
  replace n with (1 + (n - 1)) at 4 by lia. rewrite vsum_split by lia.
  replace (vsum (shifted (64 - c) u) 1) with (u64 (lim m up ≪ (64 - c))).
  2: { unfold vsum. change (Z.to_nat 1) with 1%nat. cbn [nsum]. change (Z.of_nat 0) with 0. unfold shifted, stay, u.
    cbn [Z.eqb]. rewrite Z.add_0_r, Z.pow_0_r. lia. }
  replace (vsum (λ i, shifted (64 - c) u (1 + i)) (n - 1)) with (val m1 wp (n - 1)).
  2: { apply vsum_ext. intros i Hi. rewrite L1 by lia. rewrite (proj1 (Hj i ltac:(lia))). f_equal. lia. }
  assert (B ^ n = B * B ^ (n - 1)) as -> by (replace n with (n - 1 + 1) at 1 by lia; by rewrite B_succ by lia).
  rewrite Z.pow_1_r. lia.
Qed.
