(* ===== verification/MpnProps.v ===== *)
(** * MpnProps: what the limb arithmetic promises *)

From S2P Require Import Prelude Mem Logic Flat StrCpySpec Mpn MpnSpec MpnMul MpnKara MpnMulFull Divrem DivremSpec DivremMem DivremN MpnShift.
Local Open Scope Z_scope.

(** ** longlong.h by division: the interface can be implemented *)

Definition longlong_Z : LongLong := {|
  umul_ppmm u v := (u * v / B, (u * v) mod B);
  udiv_qrnnd n1 n0 d := ((n1 * B + n0) / d, (n1 * B + n0) mod d);
  add_ssaaaa ah al bh bl := let s := (ah * B + al + (bh * B + bl)) mod (B * B) in (s / B, s mod B);
  sub_ddmmss ah al bh bl := let s := (ah * B + al - (bh * B + bl)) mod (B * B) in (s / B, s mod B) |}.

Lemma split_pair s : 0 <= s < B * B → limb_pair (s / B, s mod B) ∧ pair_val (s / B, s mod B) = s.
Proof.
  intros Hs. unfold limb_pair, pair_val, is_u64. cbn [fst snd]. split; [|pose proof (Z.div_mod s B ltac:(done)); lia].
  split; [split; [apply Z.div_pos; lia|apply Z.div_lt_upper_bound; lia]|by apply Z.mod_pos_bound].
Qed.

#[export] Instance longlong_Z_laws : LongLongLaws longlong_Z.
Proof.
  split.
  - intros u v Hu Hv. apply (split_pair (u * v)). unfold is_u64 in *. nia.
  - done.
  - intros. apply split_pair, Z.mod_pos_bound. done.
  - intros. apply split_pair, Z.mod_pos_bound. done.
Qed.

(** Memory whose limb [p] is [f p], everything mapped. *)
Definition limb_mem (f : Z → Z) : mem := Memory (λ a, byte_of (f (a / 8)) (a mod 8)) (λ _, true) None.

Lemma limb_mem_ok f : bytes_ok (limb_mem f).
Proof. intros a. apply Z.mod_pos_bound. lia. Qed.

Lemma limb_mem_avail f p n : avail (limb_mem f) p n.
Proof. done. Qed.

Lemma limb_mem_lim f p : is_u64 (f p) → lim (limb_mem f) p = f p.
Proof.
  intros Hf. rewrite <- (bytes_of_word _ Hf). unfold lim, word_at. f_equal. apply list_fmap_ext. intros i k Hk.
  apply lookup_seq in Hk as [-> Hi]. cbn. f_equal; [f_equal|]; Z.to_euclidean_division_equations; lia.
Qed.

(** ** Addition and subtraction of different sizes *)

Section add_sub.
Context (m : mem) (res s1 n1 s2 n2 : Z).
Context (Hm : bytes_ok m) (Hn : 1 <= n1) (Hn2 : 0 <= n2 <= n1).
Context (Hr : avail m res n1) (H1 : avail m s1 n1) (H2 : avail m s2 n2).
Context (B1 : behind res s1 n1) (B2 : behind res s2 n2) (B12 : res = s1 ∨ apart res n1 s1 n1).
Set Default Proof Using "All".

Lemma mpn_add_ok :
  ∃ cy m', mpn_add res s1 n1 s2 n2 m = Some (cy, m') ∧ frame (seg res n1) m m' ∧ is_carry cy ∧
    val m' res n1 + B ^ n1 * cy = val m s1 n1 + val m s2 n2.
Proof.
  unfold mpn_add.
  assert (∃ c ma, (if negb (n2 =? 0) then mpn_add_n res s1 s2 n2 else mret 0) m = Some (c, ma) ∧ frame (seg res n2) m ma ∧ is_carry c ∧
    val ma res n2 + B ^ n2 * c = val m s1 n2 + val m s2 n2) as (c & ma & Ea & Fa & Ca & Va).
  { destruct (n2 =? 0) eqn:E; cbn [negb]; zb.
    - exists 0, m. split; [done|]. split; [done|]. split; [by left|]. rewrite !val_0 by lia. lia.
    - apply mpn_add_n_ok; try done; try lia; [eapply avail_sub; [exact H1|lia..]|eapply avail_sub; [exact Hr|lia..]|unfold behind, apart in *; lia]. }
  rewrite (W_step _ _ _ _ _ Ea). destruct (n1 - n2 =? 0) eqn:E; cbn [negb]; zb.
  - replace n1 with n2 in * by lia. by exists c, ma.
  - destruct (mpn_add_1_ok ma (res + n2) (s1 + n2) (n1 - n2)) with (v := c) as (cy & mb & Eb & Fb & Cb & Vb).
    + by eapply frame_bytes.
    + eapply avail_sub; [exact (frame_avail' _ _ _ _ _ H1 Fa)|lia..].
    + eapply avail_sub; [exact (frame_avail' _ _ _ _ _ Hr Fa)|lia..].
    + unfold behind, apart in *. lia.
    + lia.
    + unfold is_carry in Ca. unfold is_u64. lia.
    + exists cy, mb. split; [done|]. split; [eapply frame_trans; [widen Fa|widen Fb]|]. split; [done|].
      rewrite (frame_val _ _ _ (s1 + n2) (n1 - n2) Fa) in Vb by (unfold seg, apart in *; lia).
      assert (∀ m p, val m p n1 = val m p n2 + B ^ n2 * val m (p + n2) (n1 - n2)) as Hs.
      { intros m' p. rewrite <- val_split by lia. f_equal. lia. }
      rewrite (Hs mb), (Hs m), (frame_val _ _ _ res n2 Fb) by segs.
      replace (B ^ n1) with (B ^ n2 * B ^ (n1 - n2)) by (rewrite <- B_add by lia; f_equal; lia).
      transitivity (val ma res n2 + B ^ n2 * (val mb (res + n2) (n1 - n2) + B ^ (n1 - n2) * cy)); [ring|]. rewrite Vb. lia.
Qed.

Lemma mpn_sub_ok :
  ∃ cy m', mpn_sub res s1 n1 s2 n2 m = Some (cy, m') ∧ frame (seg res n1) m m' ∧ is_carry cy ∧
    val m' res n1 = val m s1 n1 - val m s2 n2 + B ^ n1 * cy.
Proof.
  unfold mpn_sub.
  assert (∃ c ma, (if negb (n2 =? 0) then mpn_sub_n res s1 s2 n2 else mret 0) m = Some (c, ma) ∧ frame (seg res n2) m ma ∧ is_carry c ∧
    val ma res n2 = val m s1 n2 - val m s2 n2 + B ^ n2 * c) as (c & ma & Ea & Fa & Ca & Va).
  { destruct (n2 =? 0) eqn:E; cbn [negb]; zb.
    - exists 0, m. split; [done|]. split; [done|]. split; [by left|]. rewrite !val_0 by lia. lia.
    - apply mpn_sub_n_ok; try done; try lia; [eapply avail_sub; [exact H1|lia..]|eapply avail_sub; [exact Hr|lia..]|unfold behind, apart in *; lia]. }
  rewrite (W_step _ _ _ _ _ Ea). destruct (n1 - n2 =? 0) eqn:E; cbn [negb]; zb.
  - replace n1 with n2 in * by lia. by exists c, ma.
  - destruct (mpn_sub_1_ok ma (res + n2) (s1 + n2) (n1 - n2)) with (v := c) as (cy & mb & Eb & Fb & Cb & Vb).
    + by eapply frame_bytes.
    + eapply avail_sub; [exact (frame_avail' _ _ _ _ _ H1 Fa)|lia..].
    + eapply avail_sub; [exact (frame_avail' _ _ _ _ _ Hr Fa)|lia..].
    + unfold behind, apart in *. lia.
    + lia.
    + unfold is_carry in Ca. unfold is_u64. lia.
    + exists cy, mb. split; [done|]. split; [eapply frame_trans; [widen Fa|widen Fb]|]. split; [done|].
      rewrite (frame_val _ _ _ (s1 + n2) (n1 - n2) Fa) in Vb by (unfold seg, apart in *; lia).
      assert (∀ m p, val m p n1 = val m p n2 + B ^ n2 * val m (p + n2) (n1 - n2)) as Hs.
      { intros m' p. rewrite <- val_split by lia. f_equal. lia. }
      rewrite (Hs mb), (Hs m), (frame_val _ _ _ res n2 Fb), Va, Vb by segs.
      replace (B ^ n1) with (B ^ n2 * B ^ (n1 - n2)) by (rewrite <- B_add by lia; f_equal; lia). ring.
Qed.
End add_sub.

(** ** The properties *)

(** C1. [mpn_mul] returns, within fuel for the recursion on the smaller operand, and leaves
    the exact product of two numbers of any sizes in the limbs of the result, through the
    schoolbook rows below 32 limbs and Karatsuba's recursion above; it returns the top limb
    and writes nothing but the result and the stack below [sp]. *)
Theorem mpn_mul_product `{LongLong, !LongLongLaws _} m sp p u nu v nv :
  1 <= nv <= nu → arguments m sp p u nu v nv →
  ∃ c m', mpn_mul (Z.to_nat nv + 1) sp p u nu v nv m = Some (c, m') ∧
    val m' p (nu + nv) = val m u nu * val m v nv ∧ c = lim m' (p + nu + nv - 1) ∧
    ∀ q, ¬ seg p (nu + nv) q → ¬ seg (sp - stack_need nu nv) (stack_need nu nv) q → lim m' q = lim m q.
Proof.
  intros Hn Ho. destruct (mpn_mul_ok (Z.to_nat nv + 1) m sp p u nu v nv Hn ltac:(lia) Ho) as (c & m' & E & F & V & C).
  exists c, m'. split; [done|]. split; [done|]. split; [done|]. intros q Hp Hs. apply (fr_out _ _ _ F). unfold mul_area. tauto.
Qed.

Lemma mpn_mul_product_witness :
  ∃ c m', @mpn_mul longlong_Z (Z.to_nat 40 + 1) 2000 1000 100 50 200 40 (limb_mem id) = Some (c, m') ∧
    val m' 1000 (50 + 40) = val (limb_mem id) 100 50 * val (limb_mem id) 200 40 ∧ c = lim m' (1000 + 50 + 40 - 1) ∧
    ∀ q, ¬ seg 1000 (50 + 40) q → ¬ seg (2000 - stack_need 50 40) (stack_need 50 40) q → lim m' q = lim (limb_mem id) q.
Proof.
  apply (@mpn_mul_product longlong_Z longlong_Z_laws (limb_mem id) 2000 1000 100 50 200 40); [lia|].
  split; [apply limb_mem_ok|apply limb_mem_avail..| | | | |]; unfold apart, stack_need; lia.
Defined.

(** C14. Karatsuba's recursion for equal sizes, with its separate code for squares, stores
    the same number as the schoolbook product, for every size. *)
Theorem mpn_mul_n_schoolbook `{LongLong, !LongLongLaws _} sp m p u v n :
  1 <= n → operands m p u v n (sp - 2 * n) →
  ∃ m1 m2, mpn_mul_n sp p u v n m = Some (tt, m1) ∧ impn_mul_n_basecase p u v n m = Some (tt, m2) ∧
    val m1 p (2 * n) = val m2 p (2 * n) ∧ val m1 p (2 * n) = val m u n * val m v n.
Proof.
  intros Hn Ho. destruct (mpn_mul_n_ok sp m p u v n Hn Ho) as (m1 & E1 & _ & V1).
  destruct (impn_mul_n_basecase_ok m p u v n) as (m2 & E2 & _ & V2); try apply Ho; try done; try (destruct Ho; unfold apart in *; lia).
  { destruct Ho. part. }
  replace (n + n) with (2 * n) in V2 by lia. exists m1, m2. rewrite V1, V2. done.
Qed.

Lemma mpn_mul_n_schoolbook_witness :
  ∃ m1 m2, @mpn_mul_n longlong_Z 2000 1000 100 100 65 (limb_mem id) = Some (tt, m1) ∧
    @impn_mul_n_basecase longlong_Z 1000 100 100 65 (limb_mem id) = Some (tt, m2) ∧
    val m1 1000 (2 * 65) = val m2 1000 (2 * 65) ∧ val m1 1000 (2 * 65) = val (limb_mem id) 100 65 * val (limb_mem id) 100 65.
Proof.
  apply (@mpn_mul_n_schoolbook longlong_Z longlong_Z_laws 2000 (limb_mem id) 1000 100 100 65); [lia|].
  split; [apply limb_mem_ok|apply limb_mem_avail..| | | | |]; unfold apart; lia.
Defined.

(** C2. [mpn_divrem] divides by a normalised divisor of any size: with the returned limb on
    top, the quotient at [qp] and the remainder at [np] are those of the dividend followed
    by the extra zero limbs.  The estimates are corrected within two rounds, and nothing
    but the quotient and the dividend is written (for [div_top], see the finding). *)
Theorem mpn_divrem_divides `{LongLong, !LongLongLaws _} m qp E np n dp K :
  bytes_ok m → 0 <= E → 1 <= K <= n → avail m np (div_top E n K) → avail m dp K → avail m qp (E + n - K) →
  normalised (lim m (dp + (K - 1))) →
  apart qp (E + n - K) np (div_top E n K) → apart qp (E + n - K) dp K → apart np (div_top E n K) dp K →
  ∃ h m', mpn_divrem qp E np n dp K m = Some (h, m') ∧ (h = 0 ∨ h = 1) ∧
    h * B ^ (E + n - K) + val m' qp (E + n - K) = (val m np n * B ^ E) / val m dp K ∧
    val m' np K = (val m np n * B ^ E) mod val m dp K ∧
    ∀ q, ¬ seg qp (E + n - K) q → ¬ seg np (div_top E n K) q → lim m' q = lim m q.
Proof.
  intros Hm HE HK Hnp Hdp Hqp Hd A1 A2 A3.
  destruct (mpn_divrem_ok m qp E np n dp K Hm HE HK Hnp Hdp Hqp Hd A1 A2 A3) as (h & m' & Eq & F & Hh & Hv & Hlt).
  exists h, m'. split; [done|]. split; [done|].
  pose proof (val_range m' np K (frame_bytes _ _ _ Hm F) ltac:(lia)) as Hr.
  rewrite <- Hv. rewrite Z.div_add_l, Z.div_small, Z.add_0_r by lia. rewrite (Z.add_comm (_ * val m dp K)), Z_mod_plus_full, Z.mod_small by lia.
  split; [done|]. split; [done|]. intros q H1 H2. apply (fr_out _ _ _ F). tauto.
Qed.

Lemma mpn_divrem_divides_witness :
  let m := limb_mem (λ q, if q =? 203 then 2 ^ 63 else q) in
  ∃ h m', @mpn_divrem longlong_Z 1000 0 100 6 201 3 m = Some (h, m') ∧ (h = 0 ∨ h = 1) ∧
    h * B ^ (0 + 6 - 3) + val m' 1000 (0 + 6 - 3) = (val m 100 6 * B ^ 0) / val m 201 3 ∧
    val m' 100 3 = (val m 100 6 * B ^ 0) mod val m 201 3 ∧
    ∀ q, ¬ seg 1000 (0 + 6 - 3) q → ¬ seg 100 (div_top 0 6 3) q → lim m' q = lim m q.
Proof.
  intros m. apply (@mpn_divrem_divides longlong_Z longlong_Z_laws m 1000 0 100 6 201 3);
    [apply limb_mem_ok|lia|lia|apply limb_mem_avail..| | | |]; [|unfold div_top, apart; cbn; lia..].
  unfold m. rewrite limb_mem_lim by done. split; [vm_compute; discriminate|reflexivity].
Defined.

(** [mpn_sub] undoes [mpn_add], in place too: subtracting the second operand from the sum
    gives the first back, and the borrow is the carry. *)
Theorem mpn_sub_undoes_add m res s1 n1 s2 n2 :
  bytes_ok m → 1 <= n1 → 0 <= n2 <= n1 → avail m res n1 → avail m s1 n1 → avail m s2 n2 →
  res = s1 ∨ apart res n1 s1 n1 → apart res n1 s2 n2 →
  ∃ cy m1 m2, mpn_add res s1 n1 s2 n2 m = Some (cy, m1) ∧ mpn_sub res res n1 s2 n2 m1 = Some (cy, m2) ∧
    val m1 res n1 + B ^ n1 * cy = val m s1 n1 + val m s2 n2 ∧ val m2 res n1 = val m s1 n1.
Proof.
  intros Hm H1 H2 Ar A1 A2 B1 B2.
  destruct (mpn_add_ok m res s1 n1 s2 n2) as (cy & m1 & E1 & F1 & C1 & V1); try done; [unfold behind, apart in *; lia|unfold behind, apart in *; lia|].
  destruct (mpn_sub_ok m1 res res n1 s2 n2) as (c2 & m2 & E2 & F2 & C2 & V2); try done; try by left.
  - by eapply frame_bytes.
  - by eapply frame_avail.
  - by eapply frame_avail.
  - by eapply frame_avail.
  - unfold behind, apart in *. lia.
  - rewrite (frame_val _ _ _ s2 n2 F1) in V2 by (unfold seg, apart in *; lia).
    pose proof (val_range m2 res n1 (frame_bytes _ _ _ (frame_bytes _ _ _ Hm F1) F2) ltac:(lia)).
    pose proof (val_range m s1 n1 Hm ltac:(lia)). pose proof (B_pos n1 ltac:(lia)).
    assert (c2 = cy) as -> by (unfold is_carry in C1, C2; destruct C1 as [-> | ->], C2 as [-> | ->]; lia).
    exists cy, m1, m2. split; [done|]. split; [done|]. split; [done|]. lia.
Qed.

Lemma mpn_sub_undoes_add_witness :
  let m := limb_mem id in
  ∃ cy m1 m2, mpn_add 100 100 3 200 2 m = Some (cy, m1) ∧ mpn_sub 100 100 3 200 2 m1 = Some (cy, m2) ∧
    val m1 100 3 + B ^ 3 * cy = val m 100 3 + val m 200 2 ∧ val m2 100 3 = val m 100 3.
Proof.
  intros m. apply (mpn_sub_undoes_add m 100 100 3 200 2); try apply limb_mem_ok; try apply limb_mem_avail; try lia;
    try (left; reflexivity). unfold apart. lia.
Defined.

(** A left shift by [c] bits and a right shift by [c] bits lose nothing but what the left
    shift returned: its result is the value times [2 ^ c] without the returned top bits,
    and the right shift brings the rest back and shifts out zeros only. *)
Theorem mpn_shifts_roundtrip m wp up n c :
  0 < c < 64 → bytes_ok m → avail m up n → avail m wp n → apart wp n up n → 1 <= n →
  ∃ r m1 m2, mpn_lshift wp up n c m = Some (r, m1) ∧ mpn_rshift wp wp n c m1 = Some (0, m2) ∧
    val m1 wp n + B ^ n * r = val m up n * 2 ^ c ∧ 0 <= r < 2 ^ c ∧
    val m2 wp n * 2 ^ c + B ^ n * r = val m up n * 2 ^ c.
Proof.
  intros Hc Hm Hu Hw Ha Hn.
  destruct (mpn_lshift_ok c Hc m wp up n Hm Hu Hw) as (r & m1 & E1 & F1 & Hr & V1); [unfold apart in *; lia|done|].
  destruct (mpn_rshift_ok m1 wp wp n c Hc) as (r2 & m2 & E2 & F2 & Hr2 & V2).
  1: by eapply frame_bytes. 1-2: by eapply frame_avail. 1: left; lia. 1: done.
  pose proof (pow_split c Hc) as Hp. assert (0 < 2 ^ c) as Hc0 by (apply Z.pow_pos_nonneg; lia).
  assert (0 < 2 ^ (64 - c)) as Hc1 by (apply Z.pow_pos_nonneg; lia).
  assert (B ^ n = B * B ^ (n - 1)) as HB by (replace n with (n - 1 + 1) at 1 by lia; by rewrite B_succ by lia).
  assert (val m1 wp n = (val m up n - 2 ^ (64 - c) * B ^ (n - 1) * r) * 2 ^ c) as H1.
  { transitivity (val m up n * 2 ^ c - B ^ n * r); [lia|]. rewrite HB, <- Hp. ring. }
  assert (r2 = B * (val m up n - 2 ^ (64 - c) * B ^ (n - 1) * r - val m2 wp n)) as H2.
  { rewrite H1 in V2. rewrite <- Hp in V2 |- *. lia. }
  assert (r2 = 0) as -> by (unfold is_u64 in Hr2; nia).
  exists r, m1, m2. split; [done|]. split; [done|]. split; [done|]. split; [done|].
  assert (val m2 wp n = val m up n - 2 ^ (64 - c) * B ^ (n - 1) * r) as -> by lia. rewrite <- H1. done.
Qed.

Lemma mpn_shifts_roundtrip_witness :
  let m := limb_mem (λ q, B - q) in
  ∃ r m1 m2, mpn_lshift 100 200 3 5 m = Some (r, m1) ∧ mpn_rshift 100 100 3 5 m1 = Some (0, m2) ∧
    val m1 100 3 + B ^ 3 * r = val m 200 3 * 2 ^ 5 ∧ 0 <= r < 2 ^ 5 ∧ val m2 100 3 * 2 ^ 5 + B ^ 3 * r = val m 200 3 * 2 ^ 5.
Proof.
  intros m. apply (mpn_shifts_roundtrip m 100 200 3 5); try apply limb_mem_ok; try apply limb_mem_avail; try lia.
  unfold apart. lia.
Defined.

(** With an extra quotient limb and a dividend no longer than the divisor, [mpn_divrem]
    writes the limb above the dividend. *)
Theorem mpn_divrem_writes_above :
  match @mpn_divrem longlong_Z 1000 1 100 3 201 3 (limb_mem (λ q, if q =? 203 then 2 ^ 63 else q)) with
  | Some (_, m') => lim m' 103 = 102 ∧ lim (limb_mem (λ q, if q =? 203 then 2 ^ 63 else q)) 103 = 103
  | None => False
  end.
Proof. vm_compute. done. Qed.
