(* ===== verification/Random.v ===== *)
(** * Random: the additive feedback generators of stdlib/random_r.c

    The state array and its header word are 32-bit integers in the byte memory of [Flat];
    [struct random_data] is a record that is passed along.  [write_state] and [read_state]
    copy four bytes, so they need no alignment.  A pointer is its address, [NULL] is 0 (and
    a null [buf] is [None]); [*result] is part of what [random_r] returns. *)

From S2P Require Import Prelude Mem Logic Flat.
Local Open Scope Z_scope.

Definition TYPE_0 : Z := 0.
Definition MAX_TYPES : Z := 5.
Definition BREAK_0 : Z := 8.
Definition BREAK_1 : Z := 32.
Definition BREAK_2 : Z := 64.
Definition BREAK_3 : Z := 128.
Definition BREAK_4 : Z := 256.

(** [random_poly_info]: the separation and the degree of each type. *)
Definition seps (type : Z) : Z := nth (Z.to_nat type) [0; 3; 1; 3; 1] 0.
Definition degrees (type : Z) : Z := nth (Z.to_nat type) [0; 7; 15; 31; 63] 0.

Record random_data := RandomData {
  fptr : Z;
  rptr : Z;
  state : Z;
  rand_type : Z;
  rand_deg : Z;
  rand_sep : Z;
  end_ptr : Z }.

(** What a function of the family ends in: 0 with a value, or -1 and the [errno] it set. *)
Inductive outcome (A : Type) :=
  | Success (a : A)
  | Failure (errno : option Z).
Arguments Success {A} _.
Arguments Failure {A} _.

Definition EINVAL : Z := 22.

Definition read_state (b idx : Z) : W Z :=
  b0 ← load_byte (b + idx * 4);
  b1 ← load_byte (b + idx * 4 + 1);
  b2 ← load_byte (b + idx * 4 + 2);
  b3 ← load_byte (b + idx * 4 + 3);
  mret (i32 (dec_le [b0; b1; b2; b3])).

Definition write_state (b idx v : Z) : W unit :=
  let v := u32 v in
  store_byte (b + idx * 4) (byte_of v 0);;
  store_byte (b + idx * 4 + 1) (byte_of v 1);;
  store_byte (b + idx * 4 + 2) (byte_of v 2);;
  store_byte (b + idx * 4 + 3) (byte_of v 3).

(** [__random_r] for a [buf] and a [result] that are not null: [*result] and the new [buf]. *)
Definition random_next (buf : random_data) : W (Z * random_data) :=
  if rand_type buf =? TYPE_0 then
    x ← read_state (state buf) 0;
    let val := Z.land (u32 (u32 (u32 x * 1103515245) + 12345)) 0x7fffffff in
    write_state (state buf) 0 val;;
    mret (val, buf)
  else
    x ← read_state (fptr buf) 0;
    y ← read_state (rptr buf) 0;
    let val := u32 (u32 x + y) in
    write_state (fptr buf) 0 val;;
    let result := val ≫ 1 in
    let f := fptr buf + 4 in
    let '(f, r) :=
      if end_ptr buf <=? f then (state buf, rptr buf + 4)
      else
        let r := rptr buf + 4 in
        (f, if end_ptr buf <=? r then state buf else r) in
    mret (result, RandomData f r (state buf) (rand_type buf) (rand_deg buf) (rand_sep buf) (end_ptr buf)).

Definition random_r (buf : option random_data) (result_is_null : bool) : W (outcome (Z * random_data)) :=
  match buf with
  | None => mret (Failure (Some EINVAL))
  | Some buf => if result_is_null then mret (Failure (Some EINVAL)) else r ← random_next buf; mret (Success r)
  end.

(** One step of the linear congruential generator that fills the array. *)
Definition lcg_word (word : Z) : Z :=
  let hi := Z.quot word 127773 in
  let lo := Z.rem word 127773 in
  let word := i32 (16807 * lo - 2836 * hi) in
  if word <? 0 then i32 (word + 2147483647) else word.

(** [for (i = 1; i < kc; ++i)], [k] rounds left. *)
Fixpoint srandom_fill (k : nat) (dst word : Z) : W unit :=
  match k with
  | O => mret ()
  | S k =>
      let word := lcg_word word in
      let dst := dst + 4 in
      write_state dst 0 word;;
      srandom_fill k dst word
  end.

(** [while (--kc >= 0)]: [k] numbers are discarded. *)
Fixpoint srandom_discard (k : nat) (buf : random_data) : W random_data :=
  match k with
  | O => mret buf
  | S k => r ← random_r (Some buf) false;
           srandom_discard k (match r with Success (_, buf) => buf | Failure _ => buf end)
  end.

Definition srandom_r (seed : Z) (buf : option random_data) : W (outcome random_data) :=
  match buf with
  | None => mret (Failure None)
  | Some buf =>
      if MAX_TYPES <=? u32 (rand_type buf) then mret (Failure None)
      else
        let seed := if seed =? 0 then 1 else seed in
        write_state (state buf) 0 seed;;
        if rand_type buf =? TYPE_0 then mret (Success buf)
        else
          let kc := rand_deg buf in
          srandom_fill (Z.to_nat (kc - 1)) (state buf) (i32 seed);;
          let buf := RandomData (state buf + 4 * rand_sep buf) (state buf) (state buf)
                       (rand_type buf) (rand_deg buf) (rand_sep buf) (end_ptr buf) in
          buf ← srandom_discard (Z.to_nat (kc * 10)) buf;
          mret (Success buf)
  end.

(** The word that [initstate_r] and [setstate_r] leave before the array: the type and the
    position of the rear pointer. *)
Definition save_state (buf : random_data) : W unit :=
  if rand_type buf =? TYPE_0 then write_state (state buf) (-1) TYPE_0
  else write_state (state buf) (-1) (MAX_TYPES * ((rptr buf - state buf) / 4) + rand_type buf).

(** The best type for [n] bytes. *)
Definition type_for (n : Z) : option Z :=
  if BREAK_3 <=? n then Some (if n <? BREAK_4 then 3 else 4)
  else if n <? BREAK_1 then (if n <? BREAK_0 then None else Some TYPE_0)
  else Some (if n <? BREAK_2 then 1 else 2).

Definition initstate_r (seed arg_state n : Z) (buf : option random_data) : W (outcome random_data) :=
  match buf with
  | None => mret (Failure (Some EINVAL))
  | Some buf =>
      (if negb (state buf =? 0) then save_state buf else mret ());;
      match type_for n with
      | None => mret (Failure (Some EINVAL))
      | Some type =>
          let degree := degrees type in
          let separation := seps type in
          let st := arg_state + 4 in
          let buf := RandomData (fptr buf) (rptr buf) st type degree separation (st + 4 * degree) in
          r ← srandom_r seed (Some buf);
          let buf := match r with Success buf => buf | Failure _ => buf end in
          write_state st (-1) TYPE_0;;
          (if negb (type =? TYPE_0) then write_state st (-1) ((rptr buf - st) / 4 * MAX_TYPES + type) else mret ());;
          mret (Success buf)
      end
  end.

Definition setstate_r (arg_state : Z) (buf : option random_data) : W (outcome random_data) :=
  match buf with
  | None => mret (Failure (Some EINVAL))
  | Some buf =>
      if arg_state =? 0 then mret (Failure (Some EINVAL))
      else
        let new_state := arg_state + 4 in
        save_state buf;;
        w ← read_state new_state (-1);
        let type := Z.rem w MAX_TYPES in
        if (type <? TYPE_0) || (4 <? type) then mret (Failure (Some EINVAL))
        else
          let degree := degrees type in
          let separation := seps type in
          let '(f, r) :=
            if negb (type =? TYPE_0) then
              let rear := Z.quot w MAX_TYPES in
              (new_state + 4 * Z.rem (rear + separation) degree, new_state + 4 * rear)
            else (fptr buf, rptr buf) in
          mret (Success (RandomData f r new_state type degree separation (new_state + 4 * degree)))
  end.
