(* ===== verification/RandomSpec.v ===== *)
(** * RandomSpec: the generators against the recurrence, saving and restoring a state *)

From S2P Require Import Prelude Mem Logic Flat Fza FzaSpec StrCpySpec Random.
Local Open Scope Z_scope.

(** ** Four bytes as an integer *)

Definition int_at (m : mem) (a : Z) : Z := dec_le (bytes_at m a 4).

(** [m'] is [m] but for the bytes in [P]. *)
Record only (P : Z → Prop) (m m' : mem) : Prop := Only {
  on_out : ∀ x, ¬ P x → byte m' x = byte m x;
  on_map : mapped m' = mapped m;
  on_ctz : ctz0 m' = ctz0 m;
  on_ok : bytes_ok m → bytes_ok m' }.

Definition ints (a n x : Z) : Prop := a <= x < a + 4 * n.

Lemma only_refl P m : only P m m.
Proof. done. Qed.

Lemma only_ints_weaken (P Q : Z → Prop) m m' : (∀ x, P x → Q x) → only P m m' → only Q m m'.
Proof. intros H [O M C K]. split; [|done..]. intros x Hx. apply O. auto. Qed.

Lemma only_ints_trans P m m1 m2 : only P m m1 → only P m1 m2 → only P m m2.
Proof. intros [O M C K] [O' M' C' K']. split; [|congruence..|auto]. intros q Hq. by rewrite O', O. Qed.

Lemma only_int P m m' a : only P m m' → (∀ x, ints a 1 x → ¬ P x) → int_at m' a = int_at m a.
Proof.
  intros H HP. unfold int_at. f_equal. apply list_fmap_ext. intros i k Hk. apply lookup_seq in Hk as [-> Hi].
  apply (on_out _ _ _ H), HP. unfold ints. lia.
Qed.

Lemma only_readable P m m' a n : only P m m' → readable m a n → readable m' a n.
Proof. intros H Hr x Hx. rewrite (on_map _ _ _ H). by apply Hr. Qed.

Lemma only_bytes P m m' : bytes_ok m → only P m m' → bytes_ok m'.
Proof. intros ? H. by apply (on_ok _ _ _ H). Qed.

Lemma int_at_range m a : bytes_ok m → is_u32 (int_at m a).
Proof. intros Hm. pose proof (dec_le_range _ (bytes_at_range m a 4 Hm)) as H. by rewrite length_bytes_at in H. Qed.

Lemma u32_i32 z : u32 (i32 z) = u32 z.
Proof. unfold wrapu, wraps. Z.to_euclidean_division_equations; lia. Qed.

Lemma read_state_ok m b idx : readable m (b + idx * 4) 4 → read_state b idx m = Some (i32 (int_at m (b + idx * 4)), m).
Proof.
  intros Hr. unfold read_state.
  rewrite (W_step _ _ _ _ _ (load_byte_ok m (b + idx * 4) ltac:(apply Hr; lia))).
  rewrite (W_step _ _ _ _ _ (load_byte_ok m (b + idx * 4 + 1) ltac:(apply Hr; lia))).
  rewrite (W_step _ _ _ _ _ (load_byte_ok m (b + idx * 4 + 2) ltac:(apply Hr; lia))).
  rewrite (W_step _ _ _ _ _ (load_byte_ok m (b + idx * 4 + 3) ltac:(apply Hr; lia))).
  unfold mret, W_ret, int_at. cbn [bytes_at seq fmap list_fmap]. rewrite Z.add_0_r. done.
Qed.

Lemma put_byte_only m a c : only (λ x, x = a) m (put_byte m a c).
Proof.
  split; [|done..|].
  - intros x Hx. cbn. by rewrite (proj2 (Z.eqb_neq _ _)).
  - intros Hm x. cbn. case_match; [apply wrapu_range; lia|apply Hm].
Qed.

Lemma bytes_of_int v : dec_le ((λ k, byte_of (u32 v) (Z.of_nat k)) <$> seq 0 4) = u32 v.
Proof.
  pose proof (wrapu_range 32 v ltac:(lia)) as Hv. set (w := u32 v) in *. clearbody w. cbn. unfold byte_of.
  cbn -[Z.mul Z.add Z.div Z.modulo]. Z.to_euclidean_division_equations; lia.
Qed.

Lemma write_state_ok m b idx v :
  readable m (b + idx * 4) 4 →
  ∃ m', write_state b idx v m = Some (tt, m') ∧ only (ints (b + idx * 4) 1) m m' ∧ int_at m' (b + idx * 4) = u32 v.
Proof.
  intros Hr. unfold write_state. set (a := b + idx * 4) in *. set (w := u32 v).
  set (m1 := put_byte m a (byte_of w 0)). set (m2 := put_byte m1 (a + 1) (byte_of w 1)).
  set (m3 := put_byte m2 (a + 2) (byte_of w 2)). set (m4 := put_byte m3 (a + 3) (byte_of w 3)).
  exists m4. split; [|split].
  - rewrite (W_step _ _ _ _ _ (store_byte_ok m a _ ltac:(apply Hr; lia))).
    rewrite (W_step _ _ _ _ _ (store_byte_ok m1 (a + 1) _ ltac:(apply Hr; lia))).
    rewrite (W_step _ _ _ _ _ (store_byte_ok m2 (a + 2) _ ltac:(apply Hr; lia))).
    by rewrite (store_byte_ok m3 (a + 3) _ ltac:(apply Hr; lia)).
  - assert (∀ x y c, a <= y < a + 4 → only (ints a 1) x (put_byte x y c)) as Hp.
    { intros x y c Hy. eapply only_ints_weaken; [|apply put_byte_only]. unfold ints. lia. }
    apply (only_ints_trans _ _ m1); [apply Hp; lia|]. apply (only_ints_trans _ _ m2); [apply Hp; lia|].
    apply (only_ints_trans _ _ m3); apply Hp; lia.
  - transitivity (dec_le ((λ k, byte_of w (Z.of_nat k)) <$> seq 0 4)); [|exact (bytes_of_int v)]. unfold int_at. cbn [bytes_at seq fmap list_fmap].
    assert (∀ k, u8 (byte_of w k) = byte_of w k) as Hb by (intros; apply wrapu_small, Z.mod_pos_bound; lia).
    unfold m4, m3, m2, m1. cbn -[Z.mul Z.add Z.eqb dec_le].
    rewrite Z.add_0_r. repeat (rewrite Z.eqb_refl || rewrite (proj2 (Z.eqb_neq _ _)) by lia). by rewrite !Hb.
Qed.

(** ** The recurrence *)

(** A generator of degree [length w] and separation [sep]: [w] holds the last numbers, the
    oldest first.  The next number is the sum of the oldest and of the one [sep] back. *)
Definition feedback (sep : nat) (w : list Z) : Z * list Z :=
  let v := u32 (w !!! 0%nat + w !!! (length w - sep)%nat) in (v / 2, tail w ++ [v]).

Fixpoint feedback_many (n : nat) (sep : nat) (w : list Z) : list Z * list Z :=
  match n with
  | O => ([], w)
  | S n => let '(x, w) := feedback sep w in let '(xs, w) := feedback_many n sep w in (x :: xs, w)
  end.

(** The position that is [i] steps ahead of [f], cyclically. *)
Definition pos (deg f i : Z) : Z := if f + i <? deg then f + i else f + i - deg.

Definition index (buf : random_data) : Z := (fptr buf - state buf) / 4.

(** The numbers in the array of [buf], in the order in which they were produced. *)
Definition window (m : mem) (buf : random_data) : list Z :=
  (λ i, int_at m (state buf + 4 * pos (rand_deg buf) (index buf) (Z.of_nat i))) <$> seq 0 (Z.to_nat (rand_deg buf)).

(** The shape of a state: the two pointers are [rand_sep] places apart, cyclically. *)
Record shape (buf : random_data) (f : Z) : Prop := Shape {
  sh_type : 1 <= rand_type buf <= 4;
  sh_deg : rand_deg buf = degrees (rand_type buf);
  sh_sep : rand_sep buf = seps (rand_type buf);
  sh_end : end_ptr buf = state buf + 4 * rand_deg buf;
  sh_f : fptr buf = state buf + 4 * f;
  sh_r : rptr buf = state buf + 4 * pos (rand_deg buf) f (rand_deg buf - rand_sep buf);
  sh_range : 0 <= f < rand_deg buf }.

Definition well_formed (m : mem) (buf : random_data) : Prop :=
  (∃ f, shape buf f) ∧ bytes_ok m ∧ readable m (state buf - 4) (4 * (rand_deg buf + 1)).

(** The array of a state, without its header word. *)
Definition array (buf : random_data) (x : Z) : Prop := ints (state buf) (rand_deg buf) x.

Definition same_array (buf buf' : random_data) : Prop :=
  state buf' = state buf ∧ rand_type buf' = rand_type buf ∧ rand_deg buf' = rand_deg buf ∧
  rand_sep buf' = rand_sep buf ∧ end_ptr buf' = end_ptr buf.

Lemma poly_bounds type : 1 <= type <= 4 → 0 < seps type < degrees type ∧ degrees type <= 63.
Proof.
  intros Ht. assert (type = 1 ∨ type = 2 ∨ type = 3 ∨ type = 4) as [-> |[-> |[-> | ->]]] by lia; repeat split; vm_compute; congruence.
Qed.

Lemma shape_index buf f : shape buf f → index buf = f.
Proof. intros H. unfold index. rewrite (sh_f _ _ H). Z.to_euclidean_division_equations; lia. Qed.

Lemma pos_range deg f i : 0 <= f < deg → 0 <= i <= deg → 0 <= pos deg f i < deg ∨ i = deg.
Proof. intros. unfold pos. case_match; zb; lia. Qed.

Lemma window_lookup m buf f i : shape buf f → 0 <= i < rand_deg buf →
  window m buf !! Z.to_nat i = Some (int_at m (state buf + 4 * pos (rand_deg buf) f i)).
Proof.
  intros Hs Hi. unfold window. rewrite (shape_index _ _ Hs), list_lookup_fmap, lookup_seq_lt by lia. cbn [fmap option_fmap option_map Nat.add]. by rewrite Z2Nat.id by lia.
Qed.

Lemma window_total m buf f i : shape buf f → 0 <= i < rand_deg buf →
  window m buf !!! Z.to_nat i = int_at m (state buf + 4 * pos (rand_deg buf) f i).
Proof. intros Hs Hi. by rewrite list_lookup_total_alt, (window_lookup _ _ f). Qed.

Lemma length_window m buf : length (window m buf) = Z.to_nat (rand_deg buf).
Proof. unfold window. by rewrite length_fmap, length_seq. Qed.

Lemma random_next_ok m buf :
  well_formed m buf →
  ∃ buf' m', random_next buf m = Some ((feedback (Z.to_nat (rand_sep buf)) (window m buf)).1, buf', m') ∧
    well_formed m' buf' ∧ same_array buf buf' ∧ only (array buf) m m' ∧
    window m' buf' = (feedback (Z.to_nat (rand_sep buf)) (window m buf)).2.
Proof.
  intros ([f Hs] & Hm & Hr). destruct (poly_bounds _ (sh_type _ _ Hs)) as [Hb _].
  rewrite <- (sh_deg _ _ Hs), <- (sh_sep _ _ Hs) in Hb. pose proof (sh_range _ _ Hs) as Hf.
  set (deg := rand_deg buf) in *. set (sep := rand_sep buf) in *. set (st := state buf) in *.
  assert (0 <= pos deg f (deg - sep) < deg) as Hp by (unfold pos; case_match; zb; lia). set (r := pos deg f (deg - sep)) in *.
  unfold random_next. unfold TYPE_0. rewrite (proj2 (Z.eqb_neq (rand_type buf) 0)) by (pose proof (sh_type _ _ Hs); lia).
  rewrite (sh_f _ _ Hs), (sh_r _ _ Hs), (sh_end _ _ Hs). fold deg sep st r.
  assert (∀ i, 0 <= i < deg → readable m (st + 4 * i + 0 * 4) 4) as Hri.
  { intros i Hi x Hx. apply Hr. lia. }
  rewrite (W_step _ _ _ _ _ (read_state_ok m (st + 4 * f) 0 (Hri f Hf))), (W_step _ _ _ _ _ (read_state_ok m (st + 4 * r) 0 (Hri r Hp))).
  rewrite !Z.mul_0_l, !Z.add_0_r. rewrite u32_i32.
  set (x := int_at m (st + 4 * f)). set (y := int_at m (st + 4 * r)).
  assert (u32 (u32 x + i32 y) = u32 (x + y)) as ->.
  { unfold wrapu, wraps. rewrite Zplus_mod_idemp_l. Z.to_euclidean_division_equations; lia. }
  assert (window m buf !!! 0%nat = x) as Hx.
  { change 0%nat with (Z.to_nat 0). rewrite (window_total m buf f 0 Hs) by lia. unfold x. do 2 f_equal. unfold pos. fold deg st.
    rewrite (proj2 (Z.ltb_lt _ _)) by lia. lia. }
  assert (window m buf !!! (length (window m buf) - Z.to_nat sep)%nat = y) as Hy.
  { rewrite length_window. replace (Z.to_nat (rand_deg buf) - Z.to_nat sep)%nat with (Z.to_nat (deg - sep)) by (fold deg; lia).
    by rewrite (window_total m buf f (deg - sep) Hs) by (fold deg; lia). }
  unfold feedback. rewrite Hx, Hy. cbn [fst snd]. set (v := u32 (x + y)).
  destruct (write_state_ok m (st + 4 * f) 0 v) as (m' & E & O & L); [by apply Hri|]. rewrite (W_step _ _ _ _ _ E).
  rewrite Z.mul_0_l, Z.add_0_r in O, L. set (f' := if f + 1 <? deg then f + 1 else 0).
  set (r' := pos deg f' (deg - sep)).
  assert (only (array buf) m m') as Ho.
  { eapply only_ints_weaken; [|exact O]. unfold array, ints. fold st deg. lia. }
  assert (∀ (bb : random_data), bb = RandomData (st + 4 * f') (st + 4 * r') st (rand_type buf) deg sep (st + 4 * deg) →
    shape bb f' ∧ well_formed m' bb ∧ same_array buf bb ∧ window m' bb = tail (window m buf) ++ [v]) as Hfin.
  { intros bb ->. assert (shape (RandomData (st + 4 * f') (st + 4 * r') st (rand_type buf) deg sep (st + 4 * deg)) f') as Hs'.
    { split; cbn; try done; try apply Hs. unfold f'. case_match; zb; lia. }
    split; [done|]. split; [|split].
    - split; [by exists f'|]. split; [by eapply only_bytes|by eapply only_readable].
    - split; [done|]. split; [done|]. split; [done|]. split; [done|]. cbn. by rewrite (sh_end _ _ Hs).
    - apply list_eq_same_length with (Z.to_nat deg); [|by rewrite length_window|].
      { rewrite length_app, length_tl, length_window. fold deg. cbn. lia. }
      intros i a b Hi Ha Hb'. rewrite <- (Nat2Z.id i) in Ha, Hb'. rewrite (window_lookup _ _ f' _ Hs') in Ha by (cbn; lia). injection Ha as <-.
      cbn [state rand_deg]. destruct (decide (Z.of_nat i = deg - 1)) as [Ei|Ei].
      + rewrite Nat2Z.id, lookup_app_r in Hb' by (rewrite length_tl, length_window; fold deg; lia).
        rewrite length_tl, length_window in Hb'. fold deg in Hb'. replace (i - (Z.to_nat deg - 1))%nat with 0%nat in Hb' by lia.
        injection Hb' as <-. replace (pos deg f' (Z.of_nat i)) with f by (unfold pos, f'; repeat case_match; zb; lia).
        rewrite L. unfold v. apply wrapu_small, wrapu_range. lia.
      + rewrite Nat2Z.id, lookup_app_l in Hb' by (rewrite length_tl, length_window; fold deg; lia).
        rewrite lookup_tail in Hb'. replace (S i) with (Z.to_nat (Z.of_nat i + 1)) in Hb' by lia.
        rewrite (window_lookup _ _ f _ Hs) in Hb' by (fold deg; lia). injection Hb' as <-. fold deg st.
        replace (pos deg f (Z.of_nat i + 1)) with (pos deg f' (Z.of_nat i)) by (unfold pos, f'; repeat case_match; zb; lia).
        apply (only_int _ _ _ _ O). assert (pos deg f' (Z.of_nat i) ≠ f) as Hne by (unfold pos, f'; repeat case_match; zb; lia).
        unfold ints. intros z ??. assert (pos deg f' (Z.of_nat i) = f) by lia. done. }
  rewrite Z.shiftr_div_pow2 by lia. change (2 ^ 1) with 2.
  assert ((if st + 4 * deg <=? st + 4 * f + 4 then (st, st + 4 * r + 4)
     else (st + 4 * f + 4, if st + 4 * deg <=? st + 4 * r + 4 then st else st + 4 * r + 4)) = (st + 4 * f', st + 4 * r')) as ->.
  { unfold r', f', r, pos. repeat case_match; zb; f_equal; lia. }
  eexists _, m'. split; [reflexivity|]. destruct (Hfin _ eq_refl) as (_ & Hw & Hsame & Hwin). done.
Qed.
