(* ===== verification/RandomProps.v ===== *)
(** * RandomProps: seeding, saving and restoring a generator *)

From S2P Require Import Prelude Mem Logic Flat Fza FzaSpec StrCpySpec StrProps Random RandomSpec.
Local Open Scope Z_scope.

(** ** Seeding *)

Definition M31 : Z := 2147483647.

(** [16807 * x mod 2147483647] without overflow, for every 32-bit [x]. *)
Lemma lcg_word_ok w : - 2 ^ 31 <= w < 2 ^ 31 → lcg_word w = (16807 * w) mod M31.
Proof.
  intros Hw. unfold lcg_word, M31. set (hi := Z.quot w 127773). set (lo := Z.rem w 127773).
  assert (w = 127773 * hi + lo) as Hd by apply Z.quot_rem'.
  assert (- 127773 < lo < 127773 ∧ (0 <= w → 0 <= lo) ∧ (w < 0 → lo <= 0)) as (Hlo & Hp & Hn).
  { pose proof (Z.rem_bound_abs w 127773 ltac:(lia)). fold lo in H. split; [lia|].
    split; intros; [by apply Z.rem_nonneg|apply Z.rem_nonpos; lia]. }
  assert (- 16807 <= hi <= 16807 ∧ (0 <= w → 0 <= hi) ∧ (w < 0 → hi <= 0)) as (Hhi & Hp2 & Hn2) by (destruct (Z.le_gt_cases 0 w); lia).
  rewrite (wraps_small 32 (16807 * lo - 2836 * hi)) by (change (2 ^ (32 - 1)) with 2147483648; lia).
  destruct (_ <? 0) eqn:E; zb.
  - rewrite wraps_small by (change (2 ^ (32 - 1)) with 2147483648; lia).
    apply (Z.mod_unique_pos _ _ (hi - 1)); lia.
  - apply (Z.mod_unique_pos _ _ hi); lia.
Qed.

(** The words that follow [w]: a linear congruential generator. *)
Definition lcg (w : Z) (j : nat) : Z := Nat.iter j (λ x, (16807 * x) mod M31) w.

Lemma lcg_range w j : - 2 ^ 31 <= w < 2 ^ 31 → - 2 ^ 31 <= lcg w j < 2 ^ 31 ∧ ((0 < j)%nat → 0 <= lcg w j < M31).
Proof.
  intros Hw. destruct j as [|j]; [split; [done|lia]|]. change (lcg w (S j)) with ((16807 * lcg w j) mod M31).
  pose proof (Z.mod_pos_bound (16807 * lcg w j) M31 ltac:(done)). set (z := _ mod M31) in *. unfold M31 in *. lia.
Qed.

Lemma lcg_S w j : lcg ((16807 * w) mod M31) j = lcg w (S j).
Proof. unfold lcg. by rewrite Nat.iter_succ_r. Qed.

Lemma srandom_fill_ok k m dst w :
  - 2 ^ 31 <= w < 2 ^ 31 → bytes_ok m → readable m (dst + 4) (4 * Z.of_nat k) →
  ∃ m', srandom_fill k dst w m = Some (tt, m') ∧ only (ints (dst + 4) (Z.of_nat k)) m m' ∧
    ∀ j : nat, (0 < j <= k)%nat → int_at m' (dst + 4 * Z.of_nat j) = lcg w j.
Proof.
  revert m dst w. induction k as [|k IH]; intros m dst w Hw Hm Hr.
  { exists m. split; [done|]. split; [done|]. lia. }
  cbn [srandom_fill]. rewrite lcg_word_ok by done. pose proof (lcg_range w 1 Hw) as [_ H1]. specialize (H1 ltac:(lia)). change (lcg w 1) with ((16807 * w) mod M31) in H1.
  destruct (write_state_ok m (dst + 4) 0 ((16807 * w) mod M31)) as (m1 & E1 & O1 & L1); [intros x Hx; apply Hr; lia|].
  rewrite (W_step _ _ _ _ _ E1). rewrite Z.mul_0_l, Z.add_0_r in O1, L1. rewrite wrapu_small in L1 by (unfold M31 in *; lia).
  destruct (IH m1 (dst + 4) ((16807 * w) mod M31)) as (m2 & E2 & O2 & L2).
  - unfold M31 in *. lia.
  - by eapply only_bytes.
  - eapply only_readable; [exact O1|]. intros x Hx. apply Hr. lia.
  - exists m2. split; [done|]. split.
    + eapply only_ints_trans; (eapply only_ints_weaken; [|eassumption]); unfold ints; lia.
    + intros j Hj. destruct (decide (j = 1%nat)) as [->|Hne].
      * rewrite (only_int _ _ _ _ O2) by (unfold ints; lia). exact L1.
      * destruct j as [|j]; [lia|]. rewrite <- lcg_S, <- L2 by lia. f_equal. lia.
Qed.

Lemma srandom_discard_ok k m buf :
  well_formed m buf →
  ∃ buf' m', srandom_discard k buf m = Some (buf', m') ∧ well_formed m' buf' ∧ same_array buf buf' ∧ only (array buf) m m' ∧
    window m' buf' = (feedback_many k (Z.to_nat (rand_sep buf)) (window m buf)).2.
Proof.
  revert m buf. induction k as [|k IH]; intros m buf Hwf.
  { exists buf, m. split; [done|]. split; [done|]. split; [by repeat split|]. by split. }
  cbn [srandom_discard]. destruct (random_next_ok m buf Hwf) as (b1 & m1 & E1 & W1 & S1 & O1 & V1).
  assert (random_r (Some buf) false m = Some (Success ((feedback (Z.to_nat (rand_sep buf)) (window m buf)).1, b1), m1)) as E1'.
  { cbn [random_r]. by rewrite (W_step _ _ _ _ _ E1). }
  rewrite (W_step _ _ _ _ _ E1'). destruct (IH m1 b1 W1) as (b2 & m2 & E2 & W2 & S2 & O2 & V2).
  exists b2, m2. split; [done|]. split; [done|]. destruct S1 as (S1 & S1b & S1c & S1d & S1e), S2 as (S2 & S2b & S2c & S2d & S2e).
  split; [repeat split; congruence|]. split.
  - eapply only_ints_trans; [exact O1|]. eapply only_ints_weaken; [|exact O2]. unfold array. by rewrite S1, S1c.
  - rewrite V2, S1d, V1. cbn [feedback_many]. destruct (feedback _ _) as [x w]. cbn. by destruct (feedback_many _ _ w).
Qed.

(** A generator of a type from 1 to 4 whose array is at [st]. *)
Record layout (buf : random_data) : Prop := Layout {
  la_type : 1 <= rand_type buf <= 4;
  la_deg : rand_deg buf = degrees (rand_type buf);
  la_sep : rand_sep buf = seps (rand_type buf);
  la_end : end_ptr buf = state buf + 4 * rand_deg buf }.

(** The array after seeding, the oldest number first: [x_sep, ..., x_(deg-1), x_0, ...]. *)
Definition seeded (seed : Z) (deg sep : nat) : list Z :=
  let s := if seed =? 0 then 1 else seed in
  (λ j, if decide (j = 0%nat) then u32 s else lcg (i32 s) j) <$> (seq sep (deg - sep) ++ seq 0 sep).

Lemma i32_range z : - 2 ^ 31 <= i32 z < 2 ^ 31.
Proof. unfold wraps. pose proof (Z.mod_pos_bound (z + 2 ^ (32 - 1)) (2 ^ 32) ltac:(done)). lia. Qed.

Lemma srandom_r_ok m buf seed :
  layout buf → bytes_ok m → readable m (state buf - 4) (4 * (rand_deg buf + 1)) →
  ∃ buf' m', srandom_r seed (Some buf) m = Some (Success buf', m') ∧ well_formed m' buf' ∧ same_array buf buf' ∧ only (array buf) m m' ∧
    window m' buf' = (feedback_many (Z.to_nat (rand_deg buf * 10)) (Z.to_nat (rand_sep buf))
      (seeded seed (Z.to_nat (rand_deg buf)) (Z.to_nat (rand_sep buf)))).2.
Proof.
  intros [Ht Hd Hs He] Hm Hr. destruct (poly_bounds _ Ht) as [Hb Hb2]. rewrite <- Hd, <- Hs in Hb. rewrite <- Hd in Hb2.
  unfold srandom_r. rewrite (wrapu_small 32 (rand_type buf)) by lia. unfold MAX_TYPES, TYPE_0.
  rewrite (proj2 (Z.leb_gt 5 _)), (proj2 (Z.eqb_neq (rand_type buf) 0)) by lia. set (s := if seed =? 0 then 1 else seed).
  destruct (write_state_ok m (state buf) 0 s) as (m1 & E1 & O1 & L1); [intros x Hx; apply Hr; lia|]. rewrite (W_step _ _ _ _ _ E1).
  rewrite Z.mul_0_l, Z.add_0_r in O1, L1.
  destruct (srandom_fill_ok (Z.to_nat (rand_deg buf - 1)) m1 (state buf) (i32 s) (i32_range s)) as (m2 & E2 & O2 & L2).
  { by eapply only_bytes. }
  { eapply only_readable; [exact O1|]. intros x Hx. apply Hr. lia. }
  rewrite (W_step _ _ _ _ _ E2). rewrite Z2Nat.id in O2 by lia.
  assert (only (array buf) m m2) as O.
  { eapply only_ints_trans; (eapply only_ints_weaken; [|eassumption]); unfold array, ints; lia. }
  set (b := RandomData (state buf + 4 * rand_sep buf) (state buf) (state buf) (rand_type buf) (rand_deg buf) (rand_sep buf) (end_ptr buf)).
  assert (shape b (rand_sep buf)) as Hsh.
  { split; try done; [|cbn; lia]. cbn. unfold pos. rewrite (proj2 (Z.ltb_ge _ _)) by lia. lia. }
  destruct (srandom_discard_ok (Z.to_nat (rand_deg buf * 10)) m2 b) as (b' & m3 & E3 & W3 & S3 & O3 & V3).
  { split; [by exists (rand_sep buf)|]. split; [by eapply only_bytes|by eapply only_readable]. }
  rewrite (W_step _ _ _ _ _ E3). exists b', m3. split; [done|]. split; [done|]. split; [done|]. split; [by eapply only_ints_trans|].
  rewrite V3. cbn [rand_sep b]. do 2 f_equal. unfold seeded. fold s. apply list_eq_same_length with (Z.to_nat (rand_deg buf)).
  { rewrite length_fmap, length_app, !length_seq. lia. }
  { by rewrite length_window. }
  intros i x y Hi Hx Hy. rewrite <- (Nat2Z.id i) in Hx. rewrite (window_lookup _ _ _ _ Hsh) in Hx by (cbn; lia). injection Hx as <-.
  cbn [state rand_deg b] in *.
  assert (∀ j : nat, (j < Z.to_nat (rand_deg buf))%nat → int_at m2 (state buf + 4 * Z.of_nat j) = if decide (j = 0%nat) then u32 s else lcg (i32 s) j) as Hint.
  { intros j Hj. destruct (decide (j = 0%nat)) as [->|]; [|apply L2; lia].
    rewrite (only_int _ _ _ _ O2) by (unfold ints; lia). by rewrite Z.add_0_r. }
  rewrite list_lookup_fmap in Hy. unfold pos.
  destruct (rand_sep buf + Z.of_nat i <? rand_deg buf) eqn:Ei; zb.
  - rewrite lookup_app_l, lookup_seq_lt in Hy by (rewrite ?length_seq; lia). injection Hy as <-.
    rewrite <- Hint by lia. do 2 f_equal. lia.
  - rewrite lookup_app_r, length_seq, lookup_seq_lt in Hy by (rewrite ?length_seq; lia). injection Hy as <-.
    rewrite <- Hint by lia. do 2 f_equal. lia.
Qed.

(** ** Saving a state *)

(** The header word of a state: its type and the position of the rear pointer. *)
Definition header (buf : random_data) : Z := MAX_TYPES * ((rptr buf - state buf) / 4) + rand_type buf.

Lemma shape_header buf f : shape buf f →
  let r := pos (rand_deg buf) f (rand_deg buf - rand_sep buf) in
  header buf = 5 * r + rand_type buf ∧ 0 <= r < rand_deg buf ∧ 0 <= header buf < 2 ^ 31 ∧
  Z.rem (r + rand_sep buf) (rand_deg buf) = f.
Proof.
  intros Hs r. destruct (poly_bounds _ (sh_type _ _ Hs)) as [Hb Hb2]. rewrite <- (sh_deg _ _ Hs), <- (sh_sep _ _ Hs) in Hb.
  rewrite <- (sh_deg _ _ Hs) in Hb2. pose proof (sh_type _ _ Hs). pose proof (sh_range _ _ Hs).
  assert (0 <= r < rand_deg buf) as Hr by (unfold r, pos; case_match; zb; lia).
  assert (header buf = 5 * r + rand_type buf) as Hh.
  { unfold header, MAX_TYPES. rewrite (sh_r _ _ Hs). fold r. do 2 f_equal. Z.to_euclidean_division_equations; lia. }
  split; [done|]. split; [done|]. split; [lia|]. rewrite Z.rem_mod_nonneg by lia. symmetry. unfold r, pos in *. case_match; zb.
  - apply (Z.mod_unique_pos _ _ 1); lia.
  - apply (Z.mod_unique_pos _ _ 0); lia.
Qed.

Lemma save_state_ok m buf f :
  shape buf f → readable m (state buf - 4) 4 →
  ∃ m', save_state buf m = Some (tt, m') ∧ only (ints (state buf - 4) 1) m m' ∧ int_at m' (state buf - 4) = header buf.
Proof.
  intros Hs Hr. unfold save_state, TYPE_0. pose proof (sh_type _ _ Hs). rewrite (proj2 (Z.eqb_neq (rand_type buf) 0)) by lia. fold (header buf).
  destruct (write_state_ok m (state buf) (-1) (header buf)) as (m' & E & O & L); [intros x Hx; apply Hr; lia|].
  replace (state buf + -1 * 4) with (state buf - 4) in * by lia. exists m'. split; [done|]. split; [done|]. rewrite L. apply wrapu_small.
  destruct (shape_header _ _ Hs) as (_ & _ & ? & _). lia.
Qed.

Lemma window_frame P m m' buf : only P m m' → 0 <= index buf < rand_deg buf → (∀ x, array buf x → ¬ P x) → window m' buf = window m buf.
Proof.
  intros O Hi HP. unfold window. apply list_fmap_ext. intros i k Hk. apply lookup_seq in Hk as [-> Hk].
  apply (only_int _ _ _ _ O). intros x Hx. apply HP. unfold array, ints, pos in *. cbn [Nat.add] in *. case_match; zb; lia.
Qed.

(** A header for [setstate_r] is valid when the type it encodes is. *)
Definition type_in (w : Z) : Z := Z.rem w MAX_TYPES.

(** Switching to the valid state at [arg]. *)
Lemma setstate_ok m buf f arg :
  shape buf f → bytes_ok m → readable m (state buf - 4) 4 → readable m arg 4 → arg ≠ 0 →
  (∀ x, ints arg 1 x → ¬ ints (state buf - 4) 1 x) → 0 <= i32 (int_at m arg) →
  let w := i32 (int_at m arg) in let t := type_in w in
  ∃ m', setstate_r arg (Some buf) m = Some (Success
      (if t =? 0 then RandomData (fptr buf) (rptr buf) (arg + 4) t (degrees t) (seps t) (arg + 4 + 4 * degrees t)
       else RandomData (arg + 4 + 4 * Z.rem (Z.quot w 5 + seps t) (degrees t)) (arg + 4 + 4 * Z.quot w 5) (arg + 4) t (degrees t) (seps t) (arg + 4 + 4 * degrees t)), m') ∧
    only (ints (state buf - 4) 1) m m' ∧ int_at m' (state buf - 4) = header buf.
Proof.
  intros Hs Hm Hr Hra Harg Hap Hw w t. destruct (save_state_ok m buf f Hs Hr) as (m' & E & O & L). exists m'. split; [|done].
  unfold setstate_r. rewrite (proj2 (Z.eqb_neq arg 0)) by done. rewrite (W_step _ _ _ _ _ E).
  assert (readable m' (arg + 4 + -1 * 4) 4) as Hra' by (eapply only_readable; [exact O|]; intros x Hx; apply Hra; lia).
  rewrite (W_step _ _ _ _ _ (read_state_ok m' (arg + 4) (-1) Hra')). replace (arg + 4 + -1 * 4) with arg by lia.
  rewrite (only_int _ _ _ _ O) by done. fold w. fold (type_in w). fold t.
  assert (0 <= t <= 4) as Ht. { unfold t, type_in, MAX_TYPES. fold w in Hw. pose proof (Z.rem_bound_pos w 5 Hw ltac:(lia)). lia. }
  unfold TYPE_0. rewrite (proj2 (Z.ltb_ge t 0)), (proj2 (Z.ltb_ge 4 t)) by lia. cbn [orb].
  destruct (t =? 0) eqn:E0; cbn [negb]; done.
Qed.

Lemma random_eta b : RandomData (fptr b) (rptr b) (state b) (rand_type b) (rand_deg b) (rand_sep b) (end_ptr b) = b.
Proof. by destruct b. Qed.

(** ** The properties *)

(** [n] numbers from [random_r], in order, and the generator afterwards. *)
Fixpoint random_many (n : nat) (buf : random_data) : W (list Z * random_data) :=
  match n with
  | O => mret ([], buf)
  | S n =>
      r ← random_r (Some buf) false;
      match r with
      | Success (x, buf) => '(xs, buf) ← random_many n buf; mret (x :: xs, buf)
      | Failure _ => undefined
      end
  end.

Lemma random_many_ok n m buf :
  well_formed m buf →
  ∃ buf' m', random_many n buf m = Some ((feedback_many n (Z.to_nat (rand_sep buf)) (window m buf)).1, buf', m') ∧ well_formed m' buf' ∧
    same_array buf buf' ∧ window m' buf' = (feedback_many n (Z.to_nat (rand_sep buf)) (window m buf)).2.
Proof.
  revert m buf. induction n as [|n IH]; intros m buf Hwf.
  { exists buf, m. split; [done|]. split; [done|]. by repeat split. }
  cbn [random_many random_r feedback_many]. destruct (random_next_ok m buf Hwf) as (b1 & m1 & E1 & W1 & S1 & O1 & V1).
  rewrite W_assoc, (W_step _ _ _ _ _ E1). destruct (IH m1 b1 W1) as (b2 & m2 & E2 & W2 & S2 & V2).
  rewrite V1 in E2, V2. destruct S1 as (S1 & S1b & S1c & S1d & S1e), S2 as (S2 & S2b & S2c & S2d & S2e). rewrite S1d in E2, V2.
  destruct (feedback _ _) as [x w]. cbn [fst snd] in *. destruct (feedback_many n _ w) as [xs w']. cbn [fst snd] in *.
  exists b2, m2. split.
  - change ((mret (Success (x, b1)) ≫= λ r, match r with Success (x, buf) => '(xs, buf) ← random_many n buf; mret (x :: xs, buf) | Failure _ => undefined end) m1
      = Some (x :: xs, b2, m2)). rewrite (W_step _ _ m1 (Success (x, b1)) m1 eq_refl), (W_step _ _ _ _ _ E2). done.
  - split; [done|]. split; [repeat split; congruence|done].
Qed.

(** C15. Any number of calls of [random_r] gives the numbers of the additive feedback
    recurrence of the state's degree and separation, whatever the position of the two
    pointers in the array, and keeps the state well-formed: the pointers never leave the
    array although at most one of them is tested against its end. *)
Theorem random_r_feedback n m buf :
  well_formed m buf →
  ∃ buf' m', random_many n buf m = Some ((feedback_many n (Z.to_nat (rand_sep buf)) (window m buf)).1, buf', m') ∧ well_formed m' buf' ∧
    window m' buf' = (feedback_many n (Z.to_nat (rand_sep buf)) (window m buf)).2.
Proof. intros Hw. destruct (random_many_ok n m buf Hw) as (b & m' & E & W & _ & V). by exists b, m'. Qed.

(** A state of 7 numbers at address 1004 with its pointers in the middle of the array. *)
Definition some_state : random_data := RandomData (1004 + 4 * 5) (1004 + 4 * 2) 1004 1 7 3 (1004 + 4 * 7).
Definition some_mem : mem := image 1000 (replicate 64 7).

Lemma some_well_formed : well_formed some_mem some_state.
Proof.
  split; [exists 5; by split|]. split; [apply image_ok|]. apply image_readable; [done|]. vm_compute. discriminate.
Qed.

Lemma random_r_feedback_witness :
  ∃ buf' m', random_many 20 some_state some_mem = Some ((feedback_many 20 3 (window some_mem some_state)).1, buf', m') ∧
    well_formed m' buf' ∧ window m' buf' = (feedback_many 20 3 (window some_mem some_state)).2.
Proof. apply (random_r_feedback 20 some_mem some_state), some_well_formed. Defined.

Lemma type_for_fits n t : type_for n = Some t → 1 <= t → 1 <= t <= 4 ∧ 4 * (degrees t + 1) <= n.
Proof.
  unfold type_for, BREAK_0, BREAK_1, BREAK_2, BREAK_3, BREAK_4, TYPE_0. intros H Ht.
  repeat case_match; zb; simplify_eq; try lia; (split; [lia|]);
    match goal with |- context [degrees ?k] => let d := eval vm_compute in (degrees k) in change (degrees k) with d end; lia.
Qed.

(** C16. [initstate_r] takes the largest type whose array fits into the [n] bytes, seeds the
    array with the linear congruential generator without overflow, discards the first ten
    rounds, and leaves a well-formed state whose header word says how to resume it; only
    the new array and the header of the old state are written. *)
Theorem initstate_r_starts m buf f seed arg n t :
  type_for n = Some t → 1 <= t → bytes_ok m → readable m arg n →
  state buf = 0 ∨ shape buf f ∧ readable m (state buf - 4) 4 →
  ∃ buf' m', initstate_r seed arg n (Some buf) m = Some (Success buf', m') ∧ well_formed m' buf' ∧
    state buf' = arg + 4 ∧ rand_type buf' = t ∧ int_at m' arg = header buf' ∧
    window m' buf' = (feedback_many (Z.to_nat (degrees t * 10)) (Z.to_nat (seps t)) (seeded seed (Z.to_nat (degrees t)) (Z.to_nat (seps t)))).2 ∧
    ∀ x, ¬ arg <= x < arg + n → ¬ state buf - 4 <= x < state buf → byte m' x = byte m x.
Proof.
  intros Hn Ht1 Hm Hr Hold. destruct (type_for_fits n t Hn Ht1) as [Ht Hfit]. unfold initstate_r.
  assert (∃ m1, (if negb (state buf =? 0) then save_state buf else mret ()) m = Some (tt, m1) ∧ only (ints (state buf - 4) 1) m m1) as (m1 & E1 & O1).
  { destruct (state buf =? 0) eqn:E; cbn [negb]; zb; [by exists m|]. destruct Hold as [|[Hs Hro]]; [done|].
    destruct (save_state_ok m buf f Hs Hro) as (m1 & E1 & O1 & _). by exists m1. }
  rewrite (W_step _ _ _ _ _ E1), Hn. destruct (poly_bounds _ Ht) as [Hb Hb2].
  set (b := RandomData (fptr buf) (rptr buf) (arg + 4) t (degrees t) (seps t) (arg + 4 + 4 * degrees t)).
  destruct (srandom_r_ok m1 b seed) as (b' & m2 & E2 & W2 & S2 & O2 & V2).
  { by split. }
  { by eapply only_bytes. }
  { eapply only_readable; [exact O1|]. cbn [state rand_deg b]. intros x Hx. apply Hr. lia. }
  rewrite (W_step _ _ _ _ _ E2). destruct S2 as (S2 & S2b & S2c & S2d & S2e). cbn [state rand_type rand_deg rand_sep end_ptr b] in S2, S2b, S2c, S2d, S2e, V2.
  assert (readable m2 arg n) as Hr2' by (eapply only_readable; [exact O2|]; by eapply only_readable).
  destruct (write_state_ok m2 (arg + 4) (-1) TYPE_0) as (m3 & E3 & O3 & _); [intros x Hx; apply Hr2'; lia|].
  rewrite (W_step _ _ _ _ _ E3). unfold TYPE_0 at 1. rewrite (proj2 (Z.eqb_neq t 0)) by lia. cbn [negb].
  destruct W2 as ([f' Hs'] & Hm2 & Hrr).
  assert ((rptr b' - (arg + 4)) / 4 * MAX_TYPES + t = header b') as Hh by (unfold header; rewrite S2, S2b; lia). rewrite Hh.
  destruct (write_state_ok m3 (arg + 4) (-1) (header b')) as (m4 & E4 & O4 & L4).
  { eapply only_readable; [exact O3|]. intros x Hx. apply Hr2'. lia. }
  rewrite (W_step _ _ _ _ _ E4). replace (arg + 4 + -1 * 4) with arg in * by lia.
  assert (only (ints arg 1) m2 m4) as O24 by (by eapply only_ints_trans).
  destruct (shape_header _ _ Hs') as (_ & _ & Hhr & _).
  exists b', m4. split; [done|]. split.
  { split; [by exists f'|]. split; [by eapply only_bytes|by eapply only_readable]. }
  split; [done|]. split; [done|]. split; [rewrite L4; apply wrapu_small; lia|]. split.
  - rewrite (window_frame _ _ _ _ O24), V2; [done|rewrite (shape_index _ _ Hs'); apply Hs'|].
    unfold array, ints. rewrite S2. lia.
  - intros x H1 H2. rewrite (on_out _ _ _ O24), (on_out _ _ _ O2), (on_out _ _ _ O1); [done|unfold ints; lia|unfold array, ints; cbn [state rand_deg b]; lia|unfold ints; lia].
Qed.

Lemma initstate_r_starts_witness :
  let m := image 1000 (replicate 64 7) in let buf := RandomData 0 0 0 0 0 0 0 in
  ∃ buf' m', initstate_r 42 1000 40 (Some buf) m = Some (Success buf', m') ∧ well_formed m' buf' ∧
    state buf' = 1000 + 4 ∧ rand_type buf' = 1 ∧ int_at m' 1000 = header buf' ∧
    window m' buf' = (feedback_many (Z.to_nat (degrees 1 * 10)) (Z.to_nat (seps 1)) (seeded 42 (Z.to_nat (degrees 1)) (Z.to_nat (seps 1)))).2 ∧
    ∀ x, ¬ 1000 <= x < 1000 + 40 → ¬ 0 - 4 <= x < 0 → byte m' x = byte m x.
Proof.
  intros m buf. apply (initstate_r_starts m buf 0 42 1000 40 1); [done|done|apply image_ok| |by left].
  apply image_readable; [done|]. vm_compute. discriminate.
Defined.

(** C17. Switching to another valid state with [setstate_r] and back restores the generator:
    the record and the numbers in its array are as before, so it continues the same
    sequence. *)
Theorem setstate_r_restores m buf arg :
  well_formed m buf → state buf ≠ 4 → arg ≠ 0 → readable m arg 4 → 0 <= i32 (int_at m arg) → 1 <= type_in (i32 (int_at m arg)) →
  (∀ x, arg <= x < arg + 4 → ¬ state buf - 4 <= x < state buf + 4 * rand_deg buf) →
  ∃ buf2 m2 m3, setstate_r arg (Some buf) m = Some (Success buf2, m2) ∧ state buf2 = arg + 4 ∧
    setstate_r (state buf - 4) (Some buf2) m2 = Some (Success buf, m3) ∧ window m3 buf = window m buf ∧ well_formed m3 buf.
Proof.
  intros ([f Hs] & Hm & Hr) H4 Harg Hra Hw Ht Hap. destruct (poly_bounds _ (sh_type _ _ Hs)) as [Hb _].
  rewrite <- (sh_deg _ _ Hs), <- (sh_sep _ _ Hs) in Hb.
  destruct (setstate_ok m buf f arg Hs Hm) as (m2 & E2 & O2 & L2); try done.
  { intros x Hx. apply Hr. lia. }
  { unfold ints. intros x Hx ?. apply (Hap x); lia. }
  set (w := i32 (int_at m arg)) in *. set (t := type_in w) in *. rewrite (proj2 (Z.eqb_neq t 0)) in E2 by lia.
  assert (t <= 4) as Ht4 by (unfold t, type_in, MAX_TYPES; pose proof (Z.rem_bound_pos w 5 Hw ltac:(lia)); lia).
  set (b2 := RandomData _ _ _ _ _ _ _) in E2. exists b2, m2.
  pose proof (shape_header _ _ Hs) as (Hh & Hrr & Hhr & Hrem). set (r := pos _ _ _) in *.
  (* saving the other state writes its header back *)
  destruct (write_state_ok m2 (arg + 4) (-1) (MAX_TYPES * ((rptr b2 - state b2) / 4) + rand_type b2)) as (m3 & E3 & O3 & L3).
  { eapply only_readable; [exact O2|]. intros x Hx. apply Hra. lia. }
  replace (arg + 4 + -1 * 4) with arg in * by lia.
  assert (only (λ x, ints (state buf - 4) 1 x ∨ ints arg 1 x) m m3) as O23.
  { eapply only_ints_trans; (eapply only_ints_weaken; [|eassumption]); tauto. }
  exists m3. split; [done|]. split; [done|]. split.
  - unfold setstate_r. rewrite (proj2 (Z.eqb_neq _ 0)) by lia. unfold save_state. unfold TYPE_0. cbn [rand_type b2].
    rewrite (proj2 (Z.eqb_neq t 0)) by lia. rewrite (W_step _ _ _ _ _ E3).
    assert (readable m3 (state buf - 4 + 4 + -1 * 4) 4) as Hrd.
    { eapply only_readable; [exact O23|]. intros x Hx. apply Hr. lia. }
    rewrite (W_step _ _ _ _ _ (read_state_ok m3 (state buf - 4 + 4) (-1) Hrd)). replace (state buf - 4 + 4 + -1 * 4) with (state buf - 4) by lia.
    rewrite (only_int _ _ _ _ O3), L2 by (unfold ints; intros x ??; apply (Hap x); lia).
    rewrite (wraps_small 32) by (change (2 ^ (32 - 1)) with (2 ^ 31); lia). unfold MAX_TYPES.
    assert (Z.rem (header buf) 5 = rand_type buf ∧ Z.quot (header buf) 5 = r) as [-> ->].
    { pose proof (sh_type _ _ Hs). rewrite Hh, Z.rem_mod_nonneg, Z.quot_div_nonneg by lia.
      split; Z.to_euclidean_division_equations; lia. }
    pose proof (sh_type _ _ Hs) as Hty. rewrite (proj2 (Z.ltb_ge (rand_type buf) 0)), (proj2 (Z.ltb_ge 4 (rand_type buf))), (proj2 (Z.eqb_neq (rand_type buf) 0)) by lia.
    cbn [orb negb]. rewrite <- (sh_deg _ _ Hs), <- (sh_sep _ _ Hs), Hrem. replace (state buf - 4 + 4) with (state buf) by lia.
    rewrite <- (sh_f _ _ Hs), <- (sh_end _ _ Hs). unfold r. rewrite <- (sh_r _ _ Hs), random_eta. done.
  - split.
    + apply (window_frame _ _ _ _ O23); [rewrite (shape_index _ _ Hs); apply Hs|]. unfold array, ints. intros x Hx [?|?]; [lia|].
      apply (Hap x); lia.
    + split; [by exists f|]. split; [by eapply only_bytes|by eapply only_readable].
Qed.

Lemma setstate_r_restores_witness :
  let m := image 1000 (replicate 64 7 ++ [8; 0; 0; 0] ++ replicate 64 9) in
  ∃ buf2 m2 m3, setstate_r 1064 (Some some_state) m = Some (Success buf2, m2) ∧ state buf2 = 1064 + 4 ∧
    setstate_r (1004 - 4) (Some buf2) m2 = Some (Success some_state, m3) ∧
    window m3 some_state = window m some_state ∧ well_formed m3 some_state.
Proof.
  intros m. apply (setstate_r_restores m some_state 1064); try done.
  - split; [exists 5; by split|]. split; [apply image_ok|]. apply image_readable; [done|]. vm_compute. discriminate.
  - apply image_readable; [done|]. vm_compute. discriminate.
  - cbn. lia.
Defined.

(** The seed 2147483647 is 0 for the generator: all numbers after the first are 0. *)
Theorem seed_2147483647 : seeded 2147483647 7 3 = [0; 0; 0; 0; 2147483647; 0; 0].
Proof. vm_compute. done. Qed.
