(* ===== verification/Hsearch.v ===== *)
(** * Hsearch: the hash table of misc/hsearch_r.c

    Open addressing with double hashing.  The table is a list of slots in the record
    [hsearch_data]; keys are strings in the memory of [Flat] and are measured, hashed and
    compared there with the [strlen] and [strcmp] of [WordStr].  [*retval] is the index of
    the slot it points to, or [None] for a null pointer.  [calloc] is part of the memory
    allocator: whether it succeeds is an argument.  [fuel] bounds the loop over candidate
    sizes of [hcreate_r] and the word loops of the string functions. *)

From S2P Require Import Prelude Mem Logic Flat WordStr.
Local Open Scope Z_scope.

Record ENTRY := Entry { key : Z; data : Z }.

(** [struct _ENTRY] *)
Record _ENTRY := Slot { used : Z; entry : ENTRY }.

Record hsearch_data := Htab { table : option (list _ENTRY); size : Z; filled : Z }.

Inductive ACTION := FIND | ENTER.

Definition UINT_MAX : Z := 2 ^ 32 - 1.
Definition EINVAL : Z := 22.
Definition ENOMEM : Z := 12.
Definition ESRCH : Z := 3.

(** The loop of [isprime] from [div] on. *)
Fixpoint isprime_loop (fuel : nat) (number div : Z) : option bool :=
  match fuel with
  | O => None
  | S fuel =>
      if div <=? number / div then
        if number mod div =? 0 then Some false else isprime_loop fuel number (u32 (div + 2))
      else Some true
  end.

(** There are fewer rounds than the square root of [number]. *)
Definition isprime (number : Z) : option bool := isprime_loop (Z.to_nat (Z.sqrt number) + 1) number 3.

(** [for (nel |= 1; ; nel += 2)]: the first prime from [nel] on, or [None] past the range. *)
Fixpoint next_size (fuel : nat) (nel : Z) : option (option Z) :=
  match fuel with
  | O => None
  | S fuel =>
      if UINT_MAX - 2 <? nel then Some None
      else
        p ← isprime nel;
        if (p : bool) then Some (Some nel) else next_size fuel (u64 (nel + 2))
  end.

(** The value returned, the [errno] set, and the table afterwards; no result when the fuel
    runs out. *)
Definition hcreate_r (fuel : nat) (calloc : Z → bool) (nel : Z) (htab : option hsearch_data) : option (Z * option Z * option hsearch_data) :=
  match htab with
  | None => Some (0, Some EINVAL, None)
  | Some t =>
      match table t with
      | Some _ => Some (0, None, Some t)
      | None =>
          let nel := if nel <? 3 then 3 else nel in
          r ← next_size fuel (Z.lor nel 1);
          match r with
          | None => Some (0, Some ENOMEM, Some t)
          | Some nel =>
              let size := u32 nel in
              if calloc (u32 (size + 1))
              then Some (1, None, Some (Htab (Some (replicate (Z.to_nat (u32 (size + 1))) (Slot 0 (Entry 0 0)))) size 0))
              else Some (0, None, Some (Htab None size 0))
          end
      end
  end.

Definition hdestroy_r (htab : option hsearch_data) : option Z * option hsearch_data :=
  match htab with
  | None => (Some EINVAL, None)
  | Some t => (None, Some (Htab None (size t) (filled t)))
  end.

(** [while (count-- > 0)]: [count] characters are left; [char] is signed. *)
Fixpoint hash_loop (count : nat) (key hval : Z) : W Z :=
  match count with
  | O => mret hval
  | S count =>
      c ← load_byte (key + Z.of_nat count);
      hash_loop count key (u32 (u32 (hval ≪ 4) + wraps 8 c))
  end.

Definition slot_at (tab : list _ENTRY) (idx : Z) : W _ENTRY :=
  match tab !! Z.to_nat idx with Some s => mret s | None => undefined end.

(** The test for the entry that is looked for. *)
Definition slot_matches (fuel : nat) (item : ENTRY) (hval : Z) (s : _ENTRY) : W bool :=
  if used s =? hval then c ← strcmp fuel (key item) (key (entry s)); mret (c =? 0) else mret false.

(** The [do ... while (htab->table[idx].used)] loop: [inl] the slot of the entry, [inr] the
    slot where the search ended without it. *)
Fixpoint probe_loop (rounds fuel : nat) (tab : list _ENTRY) (size : Z) (item : ENTRY) (hval hval2 first_idx idx : Z) : W (Z + Z) :=
  match rounds with
  | O => undefined
  | S rounds =>
      let idx := if idx <=? hval2 then u32 (u32 (size + idx) - hval2) else u32 (idx - hval2) in
      if idx =? first_idx then mret (inr idx)
      else
        s ← slot_at tab idx;
        b ← slot_matches fuel item hval s;
        if (b : bool) then mret (inl idx)
        else if used s =? 0 then mret (inr idx)
        else probe_loop rounds fuel tab size item hval hval2 first_idx idx
  end.

(** The value returned, [*retval], the [errno] set, and the table afterwards. *)
Definition hsearch_r (fuel : nat) (item : ENTRY) (action : ACTION) (htab : hsearch_data) : W (Z * option Z * option Z * hsearch_data) :=
  match table htab with
  | None => undefined
  | Some tab =>
      n ← strlen fuel (key item);
      let len := u32 n in
      hval ← hash_loop (Z.to_nat len) (key item) len;
      let hval := if hval =? 0 then u32 (hval + 1) else hval in
      let idx := u32 (hval mod size htab + 1) in
      s ← slot_at tab idx;
      r ← (if negb (used s =? 0) then
             b ← slot_matches fuel item hval s;
             if (b : bool) then mret (inl idx)
             else
               let hval2 := u32 (1 + hval mod u32 (size htab - 2)) in
               probe_loop (Z.to_nat (size htab)) fuel tab (size htab) item hval hval2 idx idx
           else mret (inr idx));
      match r with
      | inl idx => mret (1, Some idx, None, htab)
      | inr idx =>
          match action with
          | ENTER =>
              if filled htab =? size htab then mret (0, None, Some ENOMEM, htab)
              else mret (1, Some idx, None,
                Htab (Some (<[Z.to_nat idx := Slot hval item]> tab)) (size htab) (u32 (filled htab + 1)))
          | FIND => mret (0, None, Some ESRCH, htab)
          end
      end
  end.
