(* ===== verification/HsearchSpec.v ===== *)
(** * HsearchSpec: the size is prime, so the probe sequence visits every slot *)

From Stdlib Require Import Znumtheory.
From S2P Require Import Prelude Mem Logic CStr Flat WordStr WordStrSpec StrCmpSpec Hsearch.
Local Open Scope Z_scope.

(** ** Primes *)

Lemma no_small_divisor n d : 1 < n → n < d * d → 1 < d → (∀ e, 1 < e < d → ¬ (e | n)) → prime n.
Proof.
  intros Hn Hd Hd1 Hno. destruct (prime_dec n) as [|Hp]; [done|]. exfalso.
  destruct (not_prime_divide n Hn Hp) as (e & He & q & Hq).
  assert (1 < q) by nia. destruct (Z.lt_ge_cases e d).
  - apply (Hno e); [lia|]. by exists q.
  - apply (Hno q); [nia|]. exists e. lia.
Qed.

(** No divisor in the range that the loop has been through. *)
Lemma isprime_loop_ok fuel n d :
  3 <= d → Z.odd d = true → Z.odd n = true → 3 <= n < 2 ^ 32 → (1 <= fuel)%nat → Z.sqrt n < d + Z.of_nat fuel - 1 →
  (∀ e, 1 < e < d → ¬ (e | n)) →
  ∃ b, isprime_loop fuel n d = Some b ∧ (b = true ↔ prime n).
Proof.
  intros Hd Hdo Hno Hn. revert d Hd Hdo. induction fuel as [|fuel IH]; intros d Hd Hdo H1 Hf Hdiv; [lia|].
  cbn [isprime_loop]. pose proof (Z.sqrt_spec n ltac:(lia)) as Hsq. destruct (d <=? n / d) eqn:E; zb.
  - assert (d * d <= n) as Hdd by (pose proof (Z.mul_div_le n d ltac:(lia)); nia).
    assert (d <= Z.sqrt n) as Hds by (apply Z.sqrt_le_square; lia).
    destruct (n mod d =? 0) eqn:Em; zb.
    + exists false. split; [done|]. split; [done|]. intros Hp. exfalso.
      assert (d | n) as Hdn by by apply Z.mod_divide; [lia|].
      destruct (prime_divisors n Hp d Hdn) as [?|[?|[?|?]]]; nia.
    + assert (d < 2 ^ 16) as Hd16 by nia. rewrite (wrapu_small 32) by lia. apply IH; [lia| |lia|lia|].
      * by rewrite Z.odd_add, Hdo.
      * intros e He Hen. destruct (decide (e < d)); [apply (Hdiv e); [lia|done]|].
        destruct (decide (e = d)) as [->|]; [apply Em, Z.mod_divide; [lia|done]|].
        replace e with (d + 1) in Hen by lia. destruct Hen as [q Hq]. rewrite Hq, Z.odd_mul, Z.odd_add, Hdo in Hno.
        by rewrite andb_false_r in Hno.
  - exists true. split; [done|]. split; [|done]. intros _. apply (no_small_divisor n d); [lia| |lia|done].
    pose proof (Z.mul_succ_div_gt n d ltac:(lia)). nia.
Qed.

Lemma isprime_ok n : Z.odd n = true → 3 <= n < 2 ^ 32 → ∃ b, isprime n = Some b ∧ (b = true ↔ prime n).
Proof.
  intros Hno Hn. unfold isprime. pose proof (Z.sqrt_nonneg n). apply isprime_loop_ok; try done; try lia.
  intros e He [q Hq]. replace e with 2 in Hq by lia. by rewrite Hq, Z.odd_mul, andb_false_r in Hno.
Qed.

(** The least odd prime from [n] on, within the range of the code. *)
Definition least_prime (n p : Z) : Prop := n <= p <= UINT_MAX - 2 ∧ prime p ∧ ∀ q, n <= q < p → Z.odd q = true → ¬ prime q.

Lemma next_size_ok fuel n :
  Z.odd n = true → 3 <= n → UINT_MAX - n + 2 <= 2 * Z.of_nat fuel → (1 <= fuel)%nat →
  ∃ r, next_size fuel n = Some r ∧ match r with
    | Some p => least_prime n p
    | None => ∀ q, n <= q <= UINT_MAX - 2 → Z.odd q = true → ¬ prime q end.
Proof.
  unfold UINT_MAX. revert n. induction fuel as [|fuel IH]; intros n Hno Hn Hf H1; [lia|].
  cbn [next_size]. unfold UINT_MAX. destruct (2 ^ 32 - 1 - 2 <? n) eqn:E; zb.
  { exists None. split; [done|]. lia. }
  destruct (isprime_ok n Hno ltac:(lia)) as (b & -> & Hb). cbn [mbind option_bind]. destruct b.
  - exists (Some n). split; [done|]. split; [unfold UINT_MAX; lia|]. split; [by apply Hb|]. lia.
  - assert (¬ prime n) as Hnp by (intros Hp; by apply Hb in Hp). rewrite u64_small by (unfold is_u64; lia).
    destruct (IH (n + 2)) as (r & -> & Hr); [by rewrite Z.odd_add, Hno|lia|lia|lia|].
    exists r. split; [done|]. assert (∀ q, n <= q → Z.odd q = true → q = n ∨ n + 2 <= q) as Hq.
    { intros q Hq Hqo. destruct (decide (q = n)); [by left|]. right. destruct (decide (q = n + 1)) as [->|]; [|lia].
      by rewrite Z.odd_add, Hno in Hqo. }
    destruct r as [p|].
    + destruct Hr as (Hp1 & Hp2 & Hp3). split; [unfold UINT_MAX in *; lia|]. split; [done|].
      intros q Hq1 Hq2. destruct (Hq q ltac:(lia) Hq2) as [->|]; [done|]. apply Hp3; [lia|done].
    + intros q Hq1 Hq2. destruct (Hq q ltac:(lia) Hq2) as [->|]; [done|]. apply Hr; [lia|done].
Qed.

(** ** The probe sequence *)

Section probe.
Context (p h step : Z) (Hp : prime p) (Hp3 : 3 <= p < 2 ^ 32 - 2) (Hstep : 1 <= step < p).
Set Default Proof Using "All".

(** The slot of round [k]. *)
Definition probe (k : Z) : Z := (h - k * step) mod p + 1.

Lemma probe_range k : 1 <= probe k <= p.
Proof. unfold probe. pose proof (Z.mod_pos_bound (h - k * step) p ltac:(lia)). lia. Qed.

(** The code's way to the next slot. *)
Lemma probe_next k : (if probe k <=? step then u32 (u32 (p + probe k) - step) else u32 (probe k - step)) = probe (k + 1).
Proof.
  unfold probe. set (x := h - k * step). replace (h - (k + 1) * step) with (x - step) by (unfold x; ring).
  pose proof (Z.mod_pos_bound x p ltac:(lia)) as Hx. rewrite <- (Zminus_mod_idemp_l x step). set (y := x mod p) in *. clearbody y.
  destruct (y + 1 <=? step) eqn:E; zb.
  - assert (u32 (u32 (p + (y + 1)) - step) = p + (y + 1) - step) as ->.
    { unfold wrapu. rewrite Zminus_mod_idemp_l. apply Z.mod_small. lia. }
    rewrite <- (Z_mod_plus_full (y - step) 1 p), Z.mod_small by lia. lia.
  - rewrite wrapu_small by lia. rewrite Z.mod_small by lia. lia.
Qed.

Lemma step_coprime : rel_prime step p.
Proof. apply rel_prime_le_prime; [done|lia]. Qed.

(** The sequence does not come back to a slot within [p] rounds. *)
Lemma probe_inj i j : 0 <= i < p → 0 <= j < p → probe i = probe j → i = j.
Proof.
  intros Hi Hj E. unfold probe in E. assert ((h - i * step) mod p = (h - j * step) mod p) as E' by lia.
  assert (p | (j - i) * step) as Hd.
  { apply Z.mod_divide; [lia|]. replace ((j - i) * step) with ((h - i * step) - (h - j * step)) by ring.
    rewrite Zminus_mod, E', Z.sub_diag. apply Z.mod_0_l; lia. }
  destruct (prime_mult p Hp _ _ Hd) as [[q Hq]|[q Hq]].
  - assert (q <= -1 ∨ q = 0 ∨ 1 <= q) as [|[|]] by lia; nia.
  - assert (q <= 0 ∨ 1 <= q) as [|] by lia; nia.
Qed.

(** ... and visits every slot. *)
Lemma probe_surj t : 1 <= t <= p → ∃ k, 0 <= k < p ∧ probe k = t.
Proof.
  intros Ht. destruct (rel_prime_bezout step p step_coprime) as [u v Huv].
  exists (((h - (t - 1)) * u) mod p). split; [apply Z.mod_pos_bound; lia|]. unfold probe.
  enough ((h - ((h - (t - 1)) * u) mod p * step) mod p = t - 1) by lia.
  rewrite Zminus_mod, Zmult_mod_idemp_l, <- Zminus_mod.
  replace (h - (h - (t - 1)) * u * step) with (t - 1 + ((h - (t - 1)) * v) * p).
  - rewrite Z_mod_plus_full. apply Z.mod_small. lia.
  - assert (u * step = 1 - v * p) as Hus by lia.
    transitivity (h - (h - (t - 1)) * (u * step)); [rewrite Hus; ring|ring].
Qed.

Lemma probe_p : probe p = probe 0.
Proof.
  unfold probe. f_equal. replace (h - p * step) with (h - 0 * step + (- step) * p) by ring. by rewrite Z_mod_plus_full.
Qed.
End probe.

(** ** The size of a new table *)

Lemma lor_1 n : 0 <= n → n <= Z.lor n 1 <= n + 1 ∧ Z.odd (Z.lor n 1) = true ∧ (Z.lor n 1 = n + 1 → Z.odd n = false).
Proof.
  intros Hn. pose proof (Z.add_lor_land n 1) as Ha. change 1 with (Z.ones 1) in Ha at 2. rewrite (Z.land_ones n 1 ltac:(lia)), Zmod_odd in Ha.
  split; [destruct (Z.odd n); lia|]. split; [|intros E; destruct (Z.odd n); [lia|done]].
  by rewrite <- Z.bit0_odd, Z.lor_spec, orb_true_r.
Qed.

Lemma prime_odd q : 3 <= q → prime q → Z.odd q = true.
Proof.
  intros Hq Hp. destruct (Z.odd q) eqn:E; [done|]. exfalso. assert (2 | q) as Hd.
  { apply Z.mod_divide; [lia|]. by rewrite Zmod_odd, E. }
  destruct (prime_divisors q Hp 2 Hd) as [?|[?|[?|?]]]; lia.
Qed.

(** The table size for [nel] entries: the least prime from [nel], and from 3, on. *)
Definition size_for (nel p : Z) : Prop :=
  nel <= p ∧ 3 <= p <= UINT_MAX - 2 ∧ prime p ∧ ∀ q, nel <= q < p → 3 <= q → ¬ prime q.

Lemma new_size_ok fuel nel :
  0 <= nel → 2 ^ 31 <= Z.of_nat fuel →
  ∃ r, next_size fuel (Z.lor (if nel <? 3 then 3 else nel) 1) = Some r ∧ match r with
    | Some p => size_for nel p
    | None => ∀ q, nel <= q <= UINT_MAX - 2 → 3 <= q → ¬ prime q end.
Proof.
  intros Hn Hf. set (n := if nel <? 3 then 3 else nel).
  assert (3 <= n ∧ nel <= n ∧ (nel < n → n = 3)) as (Hn3 & Hnn & Hn') by (unfold n; destruct (nel <? 3) eqn:E; zb; lia).
  destruct (lor_1 n ltac:(lia)) as (Hl & Ho & Hev).
  assert (∀ q, nel <= q → 3 <= q → prime q → Z.lor n 1 <= q) as Hq.
  { intros q H1 H3 Hp. pose proof (prime_odd q H3 Hp) as Hqo. destruct (decide (Z.lor n 1 = n + 1)) as [E|]; [|lia].
    specialize (Hev E). destruct (decide (q = n)) as [->|]; [congruence|lia]. }
  destruct (next_size_ok fuel (Z.lor n 1) Ho ltac:(lia) ltac:(unfold UINT_MAX; lia) ltac:(lia)) as (r & E & Hr).
  exists r. split; [done|]. destruct r as [p|].
  - destruct Hr as (H1 & H2 & H3). split; [lia|]. split; [lia|]. split; [done|]. intros q Hq1 Hq2 Hp.
    apply (H3 q); [|by apply prime_odd|done]. pose proof (Hq q ltac:(lia) Hq2 Hp). lia.
  - intros q Hq1 Hq2 Hp. apply (Hr q); [|by apply prime_odd|done]. pose proof (Hq q ltac:(lia) Hq2 Hp). lia.
Qed.
