(* ===== verification/HsearchProps.v ===== *)
(** * HsearchProps: the table implements a finite map *)

From Stdlib Require Import Znumtheory.
From S2P Require Import Prelude Mem Logic CStr Flat WordStr WordStrSpec StrCmpSpec StrProps Hsearch HsearchSpec.
Local Open Scope Z_scope.

(** ** Hashing *)

Lemma string_at_inj m a s t : string_at m a s → string_at m a t → s = t.
Proof.
  revert a t. induction s as [|c s IH]; intros a t Hs Ht.
  - destruct t as [|d t]; [done|]. pose proof (sa_nul _ _ _ Hs) as H0. cbn in H0. rewrite Z.add_0_r in H0.
    pose proof (sa_bytes _ _ _ Ht 0%nat d eq_refl) as H1. cbn in H1. rewrite Z.add_0_r in H1.
    pose proof (sa_chars _ _ _ Ht) as Hc. inv Hc. cbn in *. lia.
  - pose proof (sa_bytes _ _ _ Hs 0%nat c eq_refl) as H1. cbn in H1. rewrite Z.add_0_r in H1.
    pose proof (sa_chars _ _ _ Hs) as Hc. inv Hc. cbn in *. destruct t as [|d t].
    + pose proof (sa_nul _ _ _ Ht) as H0. cbn in H0. rewrite Z.add_0_r in H0. lia.
    + pose proof (sa_bytes _ _ _ Ht 0%nat d eq_refl) as H1'. cbn in H1'. rewrite Z.add_0_r in H1'.
      f_equal; [lia|]. apply (IH (a + 1)); by eapply string_at_tail.
Qed.

(** The hash of a string, the last character first. *)
Definition hash_step (c hval : Z) : Z := u32 (u32 (hval ≪ 4) + wraps 8 c).
Definition hash (s : list Z) : Z :=
  let h := foldr hash_step (len s) s in if h =? 0 then 1 else h.

Lemma hash_loop_ok m a s h k : string_at m a s → (k <= length s)%nat → hash_loop k a h m = Some (foldr hash_step h (take k s), m).
Proof.
  intros Hs. revert h. induction k as [|k IH]; intros h Hk; [done|]. cbn [hash_loop].
  destruct (lookup_lt_is_Some_2 s k ltac:(lia)) as [c Hc].
  rewrite (W_step _ _ _ _ _ (load_byte_ok m (a + Z.of_nat k) ltac:(apply (sa_map _ _ _ Hs); lia))).
  rewrite (sa_bytes _ _ _ Hs k c Hc), IH by lia. rewrite (take_S_r _ _ _ Hc), foldr_app. done.
Qed.

Lemma hash_range s : len s < 2 ^ 32 → 1 <= hash s < 2 ^ 32.
Proof.
  intros Hl. unfold hash. assert (0 <= foldr hash_step (len s) s < 2 ^ 32) as Hr.
  { assert (0 <= len s < 2 ^ 32) as H0 by lia. revert H0. generalize (len s). induction s as [|c s IH]; intros h Hh; [done|].
    cbn [foldr]. apply wrapu_range. lia. }
  destruct (_ =? 0) eqn:E; zb; lia.
Qed.

(** ** The invariant *)

Definition step (p h : Z) : Z := 1 + h mod (p - 2).
Definition slot_of (p h k : Z) : nat := Z.to_nat (probe p h (step p h) k).

(** Slot [j] is taken, by the string [s]. *)
Definition taken (tab : list _ENTRY) (j : nat) : Prop := ∃ sl, tab !! j = Some sl ∧ used sl ≠ 0.
Definition holds (m : mem) (tab : list _ENTRY) (j : nat) (s : list Z) (e : ENTRY) : Prop :=
  ∃ sl, tab !! j = Some sl ∧ used sl ≠ 0 ∧ string_at m (key (entry sl)) s ∧ entry sl = e.

Definition is_used (sl : _ENTRY) : bool := negb (used sl =? 0).
Definition count_used (tab : list _ENTRY) : Z := len (List.filter is_used tab).

Record table_ok (m : mem) (tab : list _ENTRY) (p : Z) : Prop := TableOk {
  to_prime : prime p;
  to_range : 3 <= p <= UINT_MAX - 2;
  to_length : length tab = S (Z.to_nat p);
  to_zero : ¬ taken tab 0;
  to_keys : ∀ j sl, tab !! j = Some sl → used sl ≠ 0 → ∃ s, string_at m (key (entry sl)) s ∧ len s < 2 ^ 32 ∧ used sl = hash s;
  to_path : ∀ j sl, tab !! j = Some sl → used sl ≠ 0 → ∃ k, 0 <= k < p ∧ j = slot_of p (used sl) k ∧ ∀ i, 0 <= i < k → taken tab (slot_of p (used sl) i);
  to_unique : ∀ i j s e f, holds m tab i s e → holds m tab j s f → i = j }.

Section search.
Context (m : mem) (fuel : nat) (tab : list _ENTRY) (p : Z) (item : ENTRY) (s : list Z).
Context (Hm : bytes_ok m) (Hok : table_ok m tab p).
Context (Hs : string_at m (key item) s) (Hl : len s < 2 ^ 32) (Hfuel : (length s / 8 < fuel)%nat).
Set Default Proof Using "All".
Notation h := (hash s).
Notation at_ k := (slot_of p h k).

Lemma step_range : 1 <= step p h < p.
Proof. pose proof (to_range _ _ _ Hok). unfold step. pose proof (Z.mod_pos_bound h (p - 2) ltac:(lia)). lia. Qed.

Lemma at_range k : (1 <= at_ k <= Z.to_nat p)%nat.
Proof.
  pose proof (to_range _ _ _ Hok). unfold slot_of.
  pose proof (probe_range p h (step p h) (to_prime _ _ _ Hok) ltac:(unfold UINT_MAX in *; lia) step_range k). lia.
Qed.

Lemma at_slot k : ∃ sl, tab !! (at_ k) = Some sl.
Proof. apply lookup_lt_is_Some_2. rewrite (to_length _ _ _ Hok). pose proof (at_range k). lia. Qed.

Lemma slot_at_ok k : ∃ sl, tab !! (at_ k) = Some sl ∧ slot_at tab (probe p h (step p h) k) m = Some (sl, m).
Proof. destruct (at_slot k) as [sl E]. exists sl. split; [done|]. unfold slot_at. fold (at_ k). by rewrite E. Qed.

Lemma slot_matches_ok j sl : tab !! j = Some sl →
  ∃ b, slot_matches fuel item h sl m = Some (b, m) ∧ (b = true ↔ holds m tab j s (entry sl)).
Proof.
  intros Hj. unfold slot_matches. pose proof (hash_range s Hl) as Hh. destruct (used sl =? h) eqn:E; zb.
  - destruct (to_keys _ _ _ Hok j sl Hj ltac:(lia)) as (t & Ht & Htl & Hu).
    rewrite (W_step _ _ _ _ _ (strcmp_ok m _ _ s t fuel Hm Hs Ht Hfuel)). exists (str_cmp s t =? 0). split; [done|].
    split.
    + intros Hc. zb. assert (s = t) as -> by (apply str_cmp_eq; [apply Hs|apply Ht|done]). exists sl. split; [done|]. split; [lia|done].
    + intros (sl' & Hj' & _ & Ht' & _). rewrite Hj in Hj'. injection Hj' as <-. rewrite (string_at_inj _ _ _ _ Ht Ht'). by rewrite str_cmp_refl.
  - exists false. split; [done|]. split; [done|]. intros (sl' & Hj' & Hu & Ht & _). rewrite Hj in Hj'. injection Hj' as <-.
    destruct (to_keys _ _ _ Hok j sl Hj Hu) as (t & Ht' & _ & Hu'). rewrite (string_at_inj _ _ _ _ Ht' Ht) in Hu'. done.
Qed.

(** A slot that the search passes. *)
Definition passed (k : Z) : Prop := taken tab (at_ k) ∧ ∀ e, ¬ holds m tab (at_ k) s e.

(** Where the search ends, when it has passed the slots up to round [k]. *)
Definition ends (k : Z) (r : Z + Z) : Prop :=
  match r with
  | inl idx => ∃ k', k <= k' < p ∧ idx = probe p h (step p h) k' ∧ ∃ e, holds m tab (at_ k') s e
  | inr idx => (∃ k', k <= k' < p ∧ idx = probe p h (step p h) k' ∧ ¬ taken tab (at_ k') ∧ ∀ i, k <= i < k' → passed i) ∨
               (idx = probe p h (step p h) 0 ∧ ∀ i, k <= i < p → passed i)
  end.

Lemma ends_next k r : passed k → ends (k + 1) r → ends k r.
Proof.
  intros Hpk. destruct r as [j|j]; cbn [ends].
  - intros (k' & ? & ?). exists k'. split; [lia|done].
  - intros [(k' & ? & ? & ? & Hi)|[? Hi]]; [left; exists k'; split; [lia|]; split; [done|]; split; [done|]|right; split; [done|]];
      intros i ?; (destruct (decide (i = k)) as [->|]; [done|apply Hi; lia]).
Qed.

Lemma probe_loop_ok rounds k :
  0 <= k < p → p - k <= Z.of_nat rounds →
  ∃ r, probe_loop rounds fuel tab p item h (step p h) (probe p h (step p h) 0) (probe p h (step p h) k) m = Some (r, m) ∧ ends (k + 1) r.
Proof.
  pose proof (to_range _ _ _ Hok) as Hpr. assert (3 <= p < 2 ^ 32 - 2) as Hpr' by (unfold UINT_MAX in *; lia).
  pose proof (to_prime _ _ _ Hok) as Hpp. pose proof step_range as Hst.
  revert k. induction rounds as [|rounds IH]; intros k Hk Hr; [lia|]. cbn [probe_loop]. rewrite (probe_next p h (step p h) Hpp Hpr' Hst k).
  destruct (decide (k + 1 = p)) as [Ek|Ek].
  - rewrite Ek, (probe_p p h (step p h) Hpp Hpr' Hst), Z.eqb_refl. exists (inr (probe p h (step p h) 0)). split; [done|]. right. split; [done|]. lia.
  - rewrite (proj2 (Z.eqb_neq _ _)).
    2: { intros E. apply (probe_inj p h (step p h) Hpp Hpr' Hst) in E; lia. }
    destruct (slot_at_ok (k + 1)) as (sl & Esl & E1). rewrite (W_step _ _ _ _ _ E1).
    destruct (slot_matches_ok _ sl Esl) as (b & E2 & Hb). rewrite (W_step _ _ _ _ _ E2). destruct b.
    + exists (inl (probe p h (step p h) (k + 1))). split; [done|]. exists (k + 1). split; [lia|]. split; [done|]. exists (entry sl). by apply Hb.
    + destruct (used sl =? 0) eqn:Eu; zb.
      * exists (inr (probe p h (step p h) (k + 1))). split; [done|]. left. exists (k + 1). split; [lia|]. split; [done|]. split; [|lia].
        intros (sl' & Hsl' & Hu'). rewrite Esl in Hsl'. injection Hsl' as <-. done.
      * destruct (IH (k + 1) ltac:(lia) ltac:(lia)) as (r & E3 & Hr3). exists r. split; [done|]. apply ends_next; [|done].
        split; [by exists sl|]. intros e (sl' & Hsl' & ? & ? & ?). rewrite Esl in Hsl'. injection Hsl' as <-.
        assert (false = true) as Hft by (apply Hb; by exists sl). done.
Qed.

(** A search that ends without the entry: no slot holds the string. *)
Lemma ends_absent idx : ends 0 (inr idx) → ∀ j e, ¬ holds m tab j s e.
Proof.
  intros He j e (sl & Hj & Hu & Ht & Hse). destruct (to_keys _ _ _ Hok j sl Hj Hu) as (t & Ht' & _ & Huh).
  rewrite (string_at_inj _ _ _ _ Ht' Ht) in Huh. destruct (to_path _ _ _ Hok j sl Hj Hu) as (k & Hk & Hjk & Hpath). rewrite Huh in *.
  assert (holds m tab (at_ k) s e) as Hh by (rewrite <- Hjk; exists sl; rewrite Huh; done).
  destruct He as [(k' & Hk' & _ & Hnt & Hpass)|[_ Hpass]].
  - destruct (Z.lt_trichotomy k k') as [?|[->|?]].
    + by apply (Hpass k ltac:(lia)) in Hh.
    + apply Hnt. rewrite <- Hjk. exists sl. rewrite Huh. done.
    + apply Hnt, Hpath. lia.
  - by apply (Hpass k ltac:(lia)) in Hh.
Qed.
End search.

(** ** Searching *)

Lemma count_used_0 tab : count_used tab = 0 → ∀ j, ¬ taken tab j.
Proof.
  intros H j (sl & Hj & Hu). unfold count_used in H. assert (sl ∈ List.filter is_used tab) as Hin.
  { apply list_elem_of_In, filter_In. split; [by apply list_elem_of_In, (list_elem_of_lookup_2 _ j)|]. unfold is_used. by rewrite (proj2 (Z.eqb_neq _ _)). }
  destruct (List.filter is_used tab); [by apply not_elem_of_nil in Hin|done].
Qed.

Lemma count_used_middle l x l' : count_used (l ++ x :: l') = count_used l + (if is_used x then 1 else 0) + count_used l'.
Proof. unfold count_used. rewrite List.filter_app. cbn [List.filter]. destruct (is_used x); rewrite length_app; cbn [length]; lia. Qed.

Lemma is_used_true sl : used sl ≠ 0 → is_used sl = true.
Proof. intros H. unfold is_used. by rewrite (proj2 (Z.eqb_neq _ _)). Qed.

Lemma is_used_false sl : used sl = 0 → is_used sl = false.
Proof. intros H. unfold is_used. by rewrite H. Qed.

Lemma count_used_bound tab : 0 <= count_used tab <= len tab.
Proof. unfold count_used. pose proof (List.filter_length_le is_used tab). lia. Qed.

(** Only unused slots are not counted. *)
Lemma count_used_le tab j sl : tab !! j = Some sl → used sl = 0 → count_used tab <= len tab - 1.
Proof.
  intros Hj Hu. rewrite <- (take_drop_middle _ _ _ Hj), count_used_middle, (is_used_false _ Hu), length_app. cbn [length].
  pose proof (count_used_bound (take j tab)). pose proof (count_used_bound (drop (S j) tab)). lia.
Qed.

(** Neither slot 0 nor the slot [j] is counted. *)
Lemma count_used_free tab j sl : ¬ taken tab 0 → tab !! j = Some sl → used sl = 0 → (1 <= j)%nat → count_used tab <= len tab - 2.
Proof.
  intros H0 Hj Hu Hj1. destruct tab as [|s0 rest]; [done|]. destruct j as [|j]; [lia|]. change (rest !! j = Some sl) in Hj.
  pose proof (count_used_le rest j sl Hj Hu) as Hc. pose proof (count_used_middle [] s0 rest) as E. cbn [app] in E. rewrite E, is_used_false.
  - change (count_used []) with 0. cbn [length]. lia.
  - destruct (decide (used s0 = 0)) as [|Hn]; [done|]. exfalso. apply H0. by exists s0.
Qed.

Lemma count_used_full tab : (∀ j, (1 <= j < length tab)%nat → taken tab j) → len tab - 1 <= count_used tab.
Proof.
  intros H. unfold count_used. destruct tab as [|s0 rest]; [cbn; lia|].
  assert (List.filter is_used rest = rest) as E.
  { apply forallb_filter_id, forallb_forall. intros sl Hin. apply list_elem_of_In, list_elem_of_lookup_1 in Hin as [j Hj].
    destruct (H (S j)) as (sl' & Hj' & Hu'); [cbn; apply lookup_lt_Some in Hj; lia|]. change (rest !! j = Some sl') in Hj'. rewrite Hj in Hj'. injection Hj' as <-.
    unfold is_used. by rewrite (proj2 (Z.eqb_neq _ _)). }
  cbn [List.filter length]. rewrite E. destruct (is_used s0); cbn [length]; lia.
Qed.

Lemma count_used_insert tab j sl new : tab !! j = Some sl → used sl = 0 → used new ≠ 0 → count_used (<[j := new]> tab) = count_used tab + 1.
Proof.
  intros Hj Hu Hn. pose proof (lookup_lt_Some _ _ _ Hj) as Hlt. rewrite insert_take_drop by done.
  transitivity (count_used (take j tab ++ sl :: drop (S j) tab) + 1); [|by rewrite (take_drop_middle _ _ _ Hj)].
  rewrite !count_used_middle, (is_used_false _ Hu), (is_used_true _ Hn). lia.
Qed.

(** The record of a table of [p] slots. *)
Record htab_ok (m : mem) (t : hsearch_data) (tab : list _ENTRY) : Prop := HtabOk {
  ht_table : table t = Some tab;
  ht_ok : table_ok m tab (size t);
  ht_filled : filled t = count_used tab }.

Section hsearch.
Context (m : mem) (fuel : nat) (t : hsearch_data) (tab : list _ENTRY) (item : ENTRY) (s : list Z).
Context (Hm : bytes_ok m) (Ht : htab_ok m t tab).
Context (Hs : string_at m (key item) s) (Hl : len s < 2 ^ 32) (Hfuel : (length s / 8 < fuel)%nat).
Set Default Proof Using "All".
Notation p := (size t).

(** The slot that [hsearch_r] looks up, for either action. *)
Lemma search_ok :
  ∃ r, ends m tab p s 0 r ∧
    ∀ act, hsearch_r fuel item act t m =
      match r with
      | inl idx => Some (1, Some idx, None, t, m)
      | inr idx =>
          match act with
          | FIND => Some (0, None, Some ESRCH, t, m)
          | ENTER => if filled t =? p then Some (0, None, Some ENOMEM, t, m)
                     else Some (1, Some idx, None, Htab (Some (<[Z.to_nat idx := Slot (hash s) item]> tab)) p (u32 (filled t + 1)), m)
          end
      end.
Proof.
  destruct Ht as [Htab Hok _]. pose proof (to_range _ _ _ Hok) as Hpr. unfold UINT_MAX in Hpr. pose proof (hash_range s Hl) as Hh.
  pose proof (step_range m fuel tab p item s Hm Hok Hs Hl Hfuel) as Hst.
  assert (probe p (hash s) (step p (hash s)) 0 = hash s mod p + 1) as Hp0 by (unfold probe; f_equal; f_equal; lia).
  pose proof (Z.mod_pos_bound (hash s) p ltac:(lia)) as Hmod.
  destruct (slot_at_ok m fuel tab p item s Hm Hok Hs Hl Hfuel 0) as (sl & Esl & E1).
  destruct (slot_matches_ok m fuel tab p item s Hm Hok Hs Hl Hfuel _ sl Esl) as (b & E2 & Hb).
  destruct (probe_loop_ok m fuel tab p item s Hm Hok Hs Hl Hfuel (Z.to_nat p) 0 ltac:(lia) ltac:(lia)) as (r & E3 & Hr).
  assert (∃ r', (if negb (used sl =? 0) then
      b ← slot_matches fuel item (hash s) sl;
      if (b : bool) then mret (inl (probe p (hash s) (step p (hash s)) 0))
      else probe_loop (Z.to_nat p) fuel tab p item (hash s) (step p (hash s)) (probe p (hash s) (step p (hash s)) 0) (probe p (hash s) (step p (hash s)) 0)
     else mret (inr (probe p (hash s) (step p (hash s)) 0))) m = Some (r', m) ∧ ends m tab p s 0 r') as (r' & E4 & Hr').
  { destruct (used sl =? 0) eqn:Eu; cbn [negb]; zb.
    - exists (inr (probe p (hash s) (step p (hash s)) 0)). split; [done|]. left. exists 0. split; [lia|]. split; [done|]. split; [|lia].
      intros (sl' & Hsl' & Hu'). rewrite Esl in Hsl'. injection Hsl' as <-. done.
    - rewrite (W_step _ _ _ _ _ E2). destruct b.
      + eexists (inl _). split; [done|]. exists 0. split; [lia|]. split; [done|]. exists (entry sl). by apply Hb.
      + exists r. split; [exact E3|]. apply (ends_next m fuel tab p item s Hm Hok Hs Hl Hfuel); [|done]. split; [by exists sl|].
        intros e (sl' & Hsl' & ? & ? & ?). rewrite Esl in Hsl'. injection Hsl' as <-. assert (false = true) by (apply Hb; by exists sl). done. }
  exists r'. split; [done|]. intros act. unfold hsearch_r. rewrite Htab.
  rewrite (W_step _ _ _ _ _ (strlen_ok m (key item) s fuel Hm Hs Hfuel)). rewrite (wrapu_small 32 (len s)), Nat2Z.id by lia.
  rewrite (W_step _ _ _ _ _ (hash_loop_ok m (key item) s (len s) (length s) Hs ltac:(lia))). rewrite firstn_all.
  assert ((if foldr hash_step (len s) s =? 0 then u32 (foldr hash_step (len s) s + 1) else foldr hash_step (len s) s) = hash s) as ->.
  { unfold hash. cbv zeta. destruct (foldr hash_step (len s) s =? 0) eqn:E; [|reflexivity]. apply Z.eqb_eq in E. rewrite E. reflexivity. }
  rewrite (wrapu_small 32 (hash s mod p + 1)) by lia. rewrite <- Hp0. rewrite (W_step _ _ _ _ _ E1).
  rewrite (wrapu_small 32 (p - 2)) by lia. fold (step p (hash s)). rewrite (wrapu_small 32 (step p (hash s))) by lia.
  rewrite (W_step _ _ _ _ _ E4). destruct r' as [idx|idx]; [done|]. destruct act; [done|]. by destruct (filled t =? p).
Qed.

(** The table with the new entry in the slot that the search ended in. *)
Lemma insert_ok k : 
  0 <= k < p → ¬ taken tab (slot_of p (hash s) k) → (∀ i, 0 <= i < k → taken tab (slot_of p (hash s) i)) →
  (∀ j e, ¬ holds m tab j s e) → filled t ≠ p ∧
  let tab' := <[slot_of p (hash s) k := Slot (hash s) item]> tab in
  htab_ok m (Htab (Some tab') p (u32 (filled t + 1))) tab' ∧ holds m tab' (slot_of p (hash s) k) s item ∧
  ∀ s' e, s' ≠ s → (∃ j, holds m tab' j s' e) ↔ (∃ j, holds m tab j s' e).
Proof.
  intros Hk Hnt Hpath Habs. destruct Ht as [Htab Hok Hf]. pose proof (hash_range s Hl) as Hh.
  pose proof (to_range _ _ _ Hok) as Hpr. unfold UINT_MAX in Hpr.
  pose proof (at_range m fuel tab p item s Hm Hok Hs Hl Hfuel k) as Hj. set (j := slot_of p (hash s) k) in *.
  destruct (at_slot m fuel tab p item s Hm Hok Hs Hl Hfuel k) as (sl & Esl). fold j in Esl.
  assert (used sl = 0) as Hu0 by (destruct (decide (used sl = 0)); [done|]; exfalso; apply Hnt; by exists sl).
  assert (filled t < p) as Hfp.
  { rewrite Hf. pose proof (to_length _ _ _ Hok) as Hlen.
    pose proof (count_used_free tab j sl (to_zero _ _ _ Hok) Esl Hu0 ltac:(lia)). lia. }
  split; [lia|]. intros tab'. assert (tab' !! j = Some (Slot (hash s) item)) as Ej by (apply list_lookup_insert_eq; by apply lookup_lt_Some in Esl).
  assert (∀ i, i ≠ j → tab' !! i = tab !! i) as Eo by (intros i Hi; by apply list_lookup_insert_ne).
  assert (∀ i, taken tab i → taken tab' i) as Htk.
  { intros i (si & Ei & Hui). exists si. rewrite Eo; [done|]. intros ->. rewrite Esl in Ei. injection Ei as <-. done. }
  assert (holds m tab' j s item) as Hnew by (exists (Slot (hash s) item); cbn; split; [done|]; split; [lia|done]).
  assert (∀ i s' e, i ≠ j → holds m tab' i s' e ↔ holds m tab i s' e) as Hold by (intros i s' e Hi; unfold holds; by rewrite Eo).
  assert (∀ s' e, holds m tab' j s' e → s' = s ∧ e = item) as Hsame.
  { intros s' e (si & Ei & _ & Hsi & He). rewrite Ej in Ei. injection Ei as <-. cbn in *. split; [|done]. by eapply string_at_inj. }
  assert (∀ s' e, ¬ holds m tab j s' e) as Hnj by (intros s' e (si & Ei & Hui & _); rewrite Esl in Ei; injection Ei as <-; done).
  split; [|split; [done|]].
  - split; [done| |].
    + cbn [size]. destruct Hok as [H1 H2 H3 H4 H5 H6 H7]. split; [done|done|unfold tab'; by rewrite length_insert| | | |].
      * intros (s0 & E0 & Hu). rewrite Eo in E0 by lia. apply H4. by exists s0.
      * intros i si Ei Hui. destruct (decide (i = j)) as [->|Hi]; [|rewrite Eo in Ei by done; by apply (H5 i)].
        rewrite Ej in Ei. injection Ei as <-. exists s. cbn. done.
      * intros i si Ei Hui. destruct (decide (i = j)) as [->|Hi].
        -- rewrite Ej in Ei. injection Ei as <-. cbn. exists k. split; [done|]. split; [done|]. intros i Hi. apply Htk, Hpath. done.
        -- rewrite Eo in Ei by done. destruct (H6 i si Ei Hui) as (k' & ? & ? & Hpk). exists k'. split; [done|]. split; [done|]. intros; apply Htk, Hpk. done.
      * intros i i' s' e f Hi Hi'. destruct (decide (i = j)) as [->|Hij], (decide (i' = j)) as [->|Hij']; [done| | |].
        -- destruct (Hsame _ _ Hi) as [-> _]. apply Hold in Hi'; [|done]. by apply Habs in Hi'.
        -- destruct (Hsame _ _ Hi') as [-> _]. apply Hold in Hi; [|done]. by apply Habs in Hi.
        -- apply Hold in Hi, Hi'; [|done..]. by eapply H7.
    + cbn [filled]. unfold tab'. rewrite (count_used_insert tab j sl) by (done || cbn; lia). rewrite <- Hf. apply wrapu_small. unfold count_used in Hf. lia.
  - intros s' e Hne. split; intros [i Hi].
    + exists i. destruct (decide (i = j)) as [->|Hij]; [|by apply Hold in Hi]. by destruct (Hsame _ _ Hi).
    + exists i. apply Hold; [|done]. intros ->. by apply Hnj in Hi.
Qed.

(** When all rounds passed, the table is full. *)
Lemma full_ok : (∀ i, 0 <= i < p → taken tab (slot_of p (hash s) i)) → filled t = p.
Proof.
  intros Hall. destruct Ht as [Htab Hok Hf]. pose proof (to_range _ _ _ Hok) as Hpr. unfold UINT_MAX in Hpr.
  pose proof (to_length _ _ _ Hok) as Hlen. rewrite Hf. apply Z.le_antisymm.
  - destruct tab as [|s0 rest] eqn:Etab; [done|]. destruct (decide (used s0 = 0)) as [E0|E0].
    + pose proof (count_used_le (s0 :: rest) 0 s0 eq_refl E0). lia.
    + exfalso. apply (to_zero _ _ _ Hok). by exists s0.
  - pose proof (count_used_full tab) as Hc. enough (len tab - 1 <= count_used tab) by lia. apply Hc. intros j Hj.
    destruct (probe_surj p (hash s) (step p (hash s)) (to_prime _ _ _ Hok) ltac:(lia) (step_range m fuel tab p item s Hm Hok Hs Hl Hfuel) (Z.of_nat j) ltac:(lia)) as (k & Hk & Hpk).
    pose proof (Hall k Hk) as Htk. unfold slot_of in Htk. by rewrite Hpk, Nat2Z.id in Htk.
Qed.
End hsearch.

(** ** The table as a map *)

(** The table holds the entries of the map, whose keys are the strings. *)
Definition represents (m : mem) (tab : list _ENTRY) (M : gmap (list Z) ENTRY) : Prop :=
  ∀ s e, M !! s = Some e ↔ ∃ j, holds m tab j s e.

Lemma empty_slot n j sl : replicate n (Slot 0 (Entry 0 0)) !! j = Some sl → used sl = 0.
Proof. intros [-> _]%lookup_replicate. done. Qed.

Lemma empty_table_ok m p : prime p → 3 <= p <= UINT_MAX - 2 →
  let tab := replicate (Z.to_nat (u32 (p + 1))) (Slot 0 (Entry 0 0)) in
  htab_ok m (Htab (Some tab) p 0) tab ∧ represents m tab ∅.
Proof.
  intros Hp Hr tab. unfold UINT_MAX in Hr. assert (∀ j, ¬ taken tab j) as Hnt by (intros j (sl & Hj & Hu); by apply empty_slot in Hj).
  assert (∀ j s e, ¬ holds m tab j s e) as Hnh by (intros j s e (sl & Hj & Hu & _); by apply empty_slot in Hj).
  split.
  - split; [done| |].
    + split; cbn [size]; [done|done| |done| | |].
      * unfold tab. rewrite length_replicate, wrapu_small by lia. lia.
      * intros j sl Hj Hu. by apply empty_slot in Hj.
      * intros j sl Hj Hu. by apply empty_slot in Hj.
      * intros i j s e f Hi. by apply Hnh in Hi.
    + cbn [filled]. unfold count_used. destruct (List.filter is_used tab) as [|sl l] eqn:E; [done|]. exfalso.
      assert (In sl (List.filter is_used tab)) as [Hin Hu]%filter_In by (rewrite E; by left).
      apply list_elem_of_In, list_elem_of_lookup_1 in Hin as [j Hj]. apply empty_slot in Hj. by rewrite is_used_false in Hu.
  - intros s e. split; [by rewrite lookup_empty|]. intros [j Hj]. by apply Hnh in Hj.
Qed.

Section map.
Context (m : mem) (fuel : nat) (t : hsearch_data) (tab : list _ENTRY) (item : ENTRY) (s : list Z) (M : gmap (list Z) ENTRY).
Context (Hm : bytes_ok m) (Ht : htab_ok m t tab) (Hrep : represents m tab M).
Context (Hs : string_at m (key item) s) (Hl : len s < 2 ^ 32) (Hfuel : (length s / 8 < fuel)%nat).
Set Default Proof Using "All".
Notation p := (size t).

Lemma absent_ok : M !! s = None ↔ ∀ j e, ¬ holds m tab j s e.
Proof.
  split.
  - intros E j e Hj. assert (M !! s = Some e) by (apply Hrep; by exists j). congruence.
  - intros Habs. destruct (M !! s) as [e|] eqn:E; [|done]. apply Hrep in E as [j Hj]. by apply Habs in Hj.
Qed.

Lemma found_ok idx : ends m tab p s 0 (inl idx) → ∃ e, M !! s = Some e ∧ holds m tab (Z.to_nat idx) s e.
Proof. intros (k & Hk & -> & e & He). exists e. split; [apply Hrep; by eexists|exact He]. Qed.

(** What the two actions do, by the map. *)
Lemma hsearch_found_ok e : M !! s = Some e →
  ∃ idx, holds m tab (Z.to_nat idx) s e ∧ ∀ act, hsearch_r fuel item act t m = Some (1, Some idx, None, t, m).
Proof.
  intros E. destruct (search_ok m fuel t tab item s Hm Ht Hs Hl Hfuel) as ([idx|idx] & Hr & Ha).
  - exists idx. split; [|done]. destruct (found_ok idx Hr) as (e' & E' & He'). congruence.
  - exfalso. pose proof (ends_absent m fuel tab p item s Hm (ht_ok _ _ _ Ht) Hs Hl Hfuel idx Hr) as Habs. apply absent_ok in Habs. congruence.
Qed.

Lemma hsearch_absent_ok : M !! s = None →
  hsearch_r fuel item FIND t m = Some (0, None, Some ESRCH, t, m) ∧
  if filled t =? p then hsearch_r fuel item ENTER t m = Some (0, None, Some ENOMEM, t, m)
  else ∃ idx t' tab', hsearch_r fuel item ENTER t m = Some (1, Some idx, None, t', m) ∧ size t' = p ∧ filled t' = filled t + 1 ∧
         htab_ok m t' tab' ∧ holds m tab' (Z.to_nat idx) s item ∧ represents m tab' (<[s := item]> M).
Proof.
  intros E. pose proof (proj1 absent_ok E) as Habs. destruct (search_ok m fuel t tab item s Hm Ht Hs Hl Hfuel) as ([idx|idx] & Hr & Ha).
  { exfalso. destruct (found_ok idx Hr) as (e & E' & _). congruence. }
  split; [apply (Ha FIND)|]. pose proof (Ha ENTER) as He. cbn beta iota in He. destruct (filled t =? p) eqn:Ef; [exact He|]. zb.
  assert (∃ k, 0 <= k < p ∧ idx = probe p (hash s) (step p (hash s)) k ∧ ¬ taken tab (slot_of p (hash s) k) ∧
    ∀ i, 0 <= i < k → taken tab (slot_of p (hash s) i)) as (k & Hk & Hidx & Hnt & Hpath).
  { destruct Hr as [(k & Hk & -> & Hnt & Hpass)|[-> Hpass]].
    - exists k. split; [done|]. split; [done|]. split; [done|]. intros i Hi. by apply Hpass.
    - exfalso. apply Ef, (full_ok m fuel t tab item s Hm Ht Hs Hl Hfuel). intros i Hi. by apply Hpass. }
  destruct (insert_ok m fuel t tab item s Hm Ht Hs Hl Hfuel k Hk Hnt Hpath Habs) as (_ & Hok & Hnew & Hold).
  set (tab' := <[slot_of p (hash s) k := Slot (hash s) item]> tab) in *.
  exists idx, (Htab (Some tab') p (u32 (filled t + 1))), tab'.
  assert (Z.to_nat idx = slot_of p (hash s) k) as Ei by (by rewrite Hidx). rewrite Ei in *.
  split; [done|]. split; [done|]. split.
  { cbn [filled]. apply wrapu_small. rewrite (ht_filled _ _ _ Ht). pose proof (count_used_bound tab).
    pose proof (to_range _ _ _ (ht_ok _ _ _ Ht)). pose proof (to_length _ _ _ (ht_ok _ _ _ Ht)). unfold UINT_MAX in *. lia. }
  split; [done|]. split; [done|]. intros s' e. destruct (decide (s' = s)) as [->|Hne].
  - rewrite lookup_insert_eq. split.
    + intros [= <-]. by exists (slot_of p (hash s) k).
    + intros [j Hj]. f_equal. pose proof (to_unique _ _ _ (ht_ok _ _ _ Hok) _ _ _ _ _ Hj Hnew) as ->.
      destruct Hj as (s1 & H1 & _ & _ & <-), Hnew as (s2 & H2 & _ & _ & <-). congruence.
  - rewrite lookup_insert_ne by done. rewrite (Hrep s' e). symmetry. by apply Hold.
Qed.
End map.

(** ** Properties *)

(** C11. [hsearch_r] implements a finite map from strings to entries, wherever the hash and
    the double hashing lead.  A key that is in the map is found by either action: [*retval]
    is the slot of its entry, and nothing changes, so that [ENTER] does not replace the data.
    A key that is not gives [ESRCH] on [FIND]; [ENTER] inserts the entry, and fails with
    [ENOMEM], only when all [size] slots are taken. *)
Theorem hsearch_r_implements_map m fuel t tab item s M :
  bytes_ok m → htab_ok m t tab → represents m tab M →
  string_at m (key item) s → len s < 2 ^ 32 → (length s / 8 < fuel)%nat →
  match M !! s with
  | Some e => ∃ idx, holds m tab (Z.to_nat idx) s e ∧ ∀ act, hsearch_r fuel item act t m = Some (1, Some idx, None, t, m)
  | None =>
      hsearch_r fuel item FIND t m = Some (0, None, Some ESRCH, t, m) ∧
      if filled t =? size t then hsearch_r fuel item ENTER t m = Some (0, None, Some ENOMEM, t, m)
      else ∃ idx t' tab', hsearch_r fuel item ENTER t m = Some (1, Some idx, None, t', m) ∧
             size t' = size t ∧ filled t' = filled t + 1 ∧ htab_ok m t' tab' ∧
             holds m tab' (Z.to_nat idx) s item ∧ represents m tab' (<[s := item]> M)
  end.
Proof.
  intros Hm Ht Hrep Hs Hl Hf. destruct (M !! s) as [e|] eqn:E.
  - by apply (hsearch_found_ok m fuel t tab item s M).
  - by apply (hsearch_absent_ok m fuel t tab item s M).
Qed.

Lemma prime_11 : prime 11.
Proof. destruct (isprime_ok 11 eq_refl ltac:(lia)) as (b & E & Hb). apply Hb. vm_compute in E. by injection E. Qed.

Lemma hsearch_r_implements_map_witness :
  let m := image 4096 (str "breakfast" ++ 0 :: str "breakwater" ++ [0]) in
  ∃ idx t', hsearch_r 2 (Entry 4106 7) ENTER (Htab (Some (replicate 12 (Slot 0 (Entry 0 0)))) 11 0) m = Some (1, Some idx, None, t', m) ∧ filled t' = 1.
Proof.
  intros m. destruct (empty_table_ok m 11 prime_11 ltac:(vm_compute; done)) as [Hok Hrep].
  destruct (hsearch_r_implements_map m 2 _ _ (Entry 4106 7) (str "breakwater") ∅ (image_ok _ _) Hok Hrep) as (_ & idx & t' & tab' & E & _ & Hf & _).
  - apply (image_string 4096 (str "breakfast" ++ [0]) (str "breakwater") []). by repeat constructor.
  - vm_compute. done.
  - vm_compute. lia.
  - exists idx, t'. split; [exact E|exact Hf].
Defined.

(** C12. [hcreate_r] ends, with a table whose size is the least prime from [nel] (and 3) on;
    the table is empty and ready for [hsearch_r].  Without memory for it no table is set, and
    without such a prime up to [UINT_MAX - 2] the error is [ENOMEM]. *)
Theorem hcreate_r_creates fuel (calloc : Z → bool) nel t m :
  table t = None → 0 <= nel < 2 ^ 64 → 2 ^ 31 <= Z.of_nat fuel →
  (∃ p, size_for nel p ∧
     if calloc (p + 1)
     then ∃ tab t', hcreate_r fuel calloc nel (Some t) = Some (1, None, Some t') ∧ size t' = p ∧ htab_ok m t' tab ∧ represents m tab ∅
     else hcreate_r fuel calloc nel (Some t) = Some (0, None, Some (Htab None p 0))) ∨
  ((∀ q, nel <= q <= UINT_MAX - 2 → 3 <= q → ¬ prime q) ∧ hcreate_r fuel calloc nel (Some t) = Some (0, Some ENOMEM, Some t)).
Proof.
  intros Ht Hn Hf. destruct (new_size_ok fuel nel ltac:(lia) Hf) as (r & E & Hr).
  unfold hcreate_r. rewrite Ht, E. cbn [mbind option_bind]. destruct r as [p|]; [left|right; split; done].
  exists p. split; [done|]. destruct Hr as (_ & Hp & Hpp & _). unfold UINT_MAX in Hp.
  rewrite (wrapu_small 32 p), (wrapu_small 32 (p + 1)) by lia. destruct (calloc (p + 1)); [|done].
  destruct (empty_table_ok m p Hpp Hp) as [H1 H2]. rewrite (wrapu_small 32 (p + 1)) in H1, H2 by lia.
  eexists _, _. split; [reflexivity|]. split; [done|]. split; [exact H1|exact H2].
Qed.

Lemma hcreate_r_creates_witness :
  ∃ p t', hcreate_r (Z.to_nat (2 ^ 31)) (λ _, true) 8 (Some (Htab None 0 0)) = Some (1, None, Some t') ∧ size t' = p ∧ 8 <= p <= 11.
Proof.
  destruct (hcreate_r_creates (Z.to_nat (2 ^ 31)) (λ _, true) 8 (Htab None 0 0) (image 4096 []) eq_refl ltac:(lia) ltac:(lia))
    as [(p & (H1 & _ & _ & H2) & tab & t' & E & Hp & _)|[H _]].
  - exists p, t'. split; [exact E|]. split; [exact Hp|]. split; [exact H1|].
    destruct (Z.le_gt_cases p 11) as [|Hgt]; [done|]. destruct (H2 11 ltac:(lia) ltac:(lia) prime_11).
  - destruct (H 11 ltac:(unfold UINT_MAX; lia) ltac:(lia) prime_11).
Defined.

(** ** Filling a table *)

(** One [ENTER] after the other: the values returned and the table at the end. *)
Fixpoint enter_all (fuel : nat) (items : list ENTRY) (t : hsearch_data) : W (list Z * hsearch_data) :=
  match items with
  | [] => mret ([], t)
  | item :: items =>
      '(r, _, _, t) ← hsearch_r fuel item ENTER t;
      '(rs, t) ← enter_all fuel items t;
      mret (r :: rs, t)
  end.

(** The keys of the entries, as the memory has them. *)
Definition key_is (m : mem) (fuel : nat) (item : ENTRY) (s : list Z) : Prop :=
  string_at m (key item) s ∧ len s < 2 ^ 32 ∧ (length s / 8 < fuel)%nat.

Lemma enter_all_ok m fuel items strs t tab M :
  bytes_ok m → htab_ok m t tab → represents m tab M → Forall2 (key_is m fuel) items strs →
  NoDup strs → (∀ s, s ∈ strs → M !! s = None) → filled t + len strs <= size t →
  ∃ t' tab', enter_all fuel items t m = Some (replicate (length strs) 1, t', m) ∧ size t' = size t ∧
    filled t' = filled t + len strs ∧ htab_ok m t' tab' ∧ represents m tab' (list_to_map (zip strs items) ∪ M).
Proof.
  intros Hm Ht Hrep Hk. revert t tab M Ht Hrep. induction Hk as [|item s items strs (Hs & Hl & Hf) _ IH]; intros t tab M Ht Hrep Hnd Hnew Hroom.
  - exists t, tab. cbn. rewrite (left_id_L ∅ (∪)). split; [done|]. split; [done|]. split; [lia|done].
  - apply NoDup_cons in Hnd as [Hni Hnd]. cbn [length] in Hroom.
    destruct (hsearch_absent_ok m fuel t tab item s M Hm Ht Hrep Hs Hl Hf (Hnew s ltac:(by left))) as [_ He].
    rewrite (proj2 (Z.eqb_neq _ _)) in He by lia. destruct He as (idx & t1 & tab1 & E1 & Hsz & Hfl & Hok1 & _ & Hrep1).
    destruct (IH t1 tab1 _ Hok1 Hrep1 Hnd) as (t' & tab' & E2 & Hsz' & Hfl' & Hok' & Hrep').
    { intros s' Hin. rewrite lookup_insert_ne by (by intros <-). apply Hnew. by right. }
    { lia. }
    exists t', tab'. split; [cbn [enter_all length replicate]; by rewrite (W_step _ _ _ _ _ E1), (W_step _ _ _ _ _ E2)|].
    split; [lia|]. split; [cbn [length]; lia|]. split; [done|].
    replace (list_to_map (zip (s :: strs) (item :: items)) ∪ M : gmap _ _) with (list_to_map (zip strs items) ∪ <[s := item]> M : gmap _ _); [done|].
    cbn [zip zip_with]. rewrite list_to_map_cons. apply map_eq. intros s'. rewrite !lookup_union. destruct (decide (s' = s)) as [->|Hne].
    + rewrite !lookup_insert_eq, (not_elem_of_list_to_map_1 _ s); [by destruct (M !! s)|].
      intros Hin. apply list_elem_of_fmap in Hin as ([s' e] & -> & Hin). by apply elem_of_zip_l in Hin.
    + by rewrite !lookup_insert_ne.
Qed.

(** C13. As long as there is room, every key gets in: entering any new distinct keys, not
    more than there are free slots, succeeds each time in spite of all collisions on the
    way, and afterwards every one of them is found with its own entry. *)
Theorem hsearch_r_fills m fuel items strs t tab M :
  bytes_ok m → htab_ok m t tab → represents m tab M → Forall2 (key_is m fuel) items strs →
  NoDup strs → (∀ s, s ∈ strs → M !! s = None) → filled t + len strs <= size t →
  ∃ t' tab', enter_all fuel items t m = Some (replicate (length strs) 1, t', m) ∧ htab_ok m t' tab' ∧
    ∀ i item s, items !! i = Some item → strs !! i = Some s →
      ∃ idx, hsearch_r fuel item FIND t' m = Some (1, Some idx, None, t', m) ∧ holds m tab' (Z.to_nat idx) s item.
Proof.
  intros Hm Ht Hrep Hk Hnd Hnew Hroom.
  destruct (enter_all_ok m fuel items strs t tab M Hm Ht Hrep Hk Hnd Hnew Hroom) as (t' & tab' & E & _ & _ & Hok & Hrep').
  exists t', tab'. split; [done|]. split; [done|]. intros i item s Hi Hs.
  destruct (Forall2_lookup_lr _ _ _ _ _ _ Hk Hi Hs) as (Hs1 & Hs2 & Hs3).
  destruct (hsearch_found_ok m fuel t' tab' item s _ Hm Hok Hrep' Hs1 Hs2 Hs3 item) as (idx & Hh & Ha); [|by exists idx].
  apply lookup_union_Some_l, elem_of_list_to_map_1.
  - rewrite fst_zip; [done|]. rewrite (Forall2_length _ _ _ Hk). lia.
  - apply (list_elem_of_lookup_2 _ i). apply lookup_zip_with_Some. by exists s, item.
Qed.

Lemma prime_3' : prime 3.
Proof. destruct (isprime_ok 3 eq_refl ltac:(lia)) as (b & E & Hb). apply Hb. vm_compute in E. by injection E. Qed.

Lemma hsearch_r_fills_witness :
  let m := image 4096 (str "ls" ++ 0 :: str "cat" ++ 0 :: str "cd" ++ [0]) in
  let items := [Entry 4096 1; Entry 4099 2; Entry 4103 3] in
  ∃ t' idx, enter_all 2 items (Htab (Some (replicate 4 (Slot 0 (Entry 0 0)))) 3 0) m = Some ([1; 1; 1], t', m) ∧
    hsearch_r 2 (Entry 4099 2) FIND t' m = Some (1, Some idx, None, t', m).
Proof.
  intros m items. destruct (empty_table_ok m 3 prime_3' ltac:(vm_compute; done)) as [Hok Hrep].
  destruct (hsearch_r_fills m 2 items [str "ls"; str "cat"; str "cd"] _ _ ∅ (image_ok _ _) Hok Hrep) as (t' & tab' & E & _ & Hf).
  - assert (string_at m 4096 (str "ls") ∧ string_at m 4099 (str "cat") ∧ string_at m 4103 (str "cd")) as (H1 & H2 & H3).
    { split; [|split].
      - exact (image_string 4096 [] (str "ls") (str "cat" ++ 0 :: str "cd" ++ [0]) ltac:(by repeat constructor)).
      - exact (image_string 4096 (str "ls" ++ [0]) (str "cat") (str "cd" ++ [0]) ltac:(by repeat constructor)).
      - exact (image_string 4096 (str "ls" ++ 0 :: str "cat" ++ [0]) (str "cd") [] ltac:(by repeat constructor)). }
    clearbody m. repeat (apply List.Forall2_cons); [| | |apply List.Forall2_nil].
    + unfold key_is. split; [exact H1|]. split; [reflexivity|]. vm_compute. lia.
    + unfold key_is. split; [exact H2|]. split; [reflexivity|]. vm_compute. lia.
    + unfold key_is. split; [exact H3|]. split; [reflexivity|]. vm_compute. lia.
  - repeat constructor; vm_compute; set_solver.
  - done.
  - vm_compute. done.
  - destruct (Hf 1%nat (Entry 4099 2) (str "cat") eq_refl eq_refl) as (idx & E' & _). exists t', idx. split; [exact E|exact E'].
Defined.
