(* ===== verification/Tsearch.v ===== *)
(** * Tsearch: the red-black trees of misc/tsearch.c

    A node is a record in a store of nodes, reached by its address; address 0 is [NULL].
    The colour is the low bit of [left_node], as in the configuration the source sets
    ([USE_MALLOC_LOW_BIT]).  A [node *] points to the root variable of the caller or to the
    left or right field of a node: the type [slot]; a null [node *] is [None].  Reading or
    writing a node that is not in the store has no result.

    The comparison function and [malloc] are arguments; [malloc] sees the store and gives an
    address with whatever the block holds, or fails.  [action] and [freefct], which the walks
    call, are modelled by the sequence of their calls. *)

From S2P Require Import Prelude.
Local Open Scope Z_scope.

Record node_t := Node { key : Z; left_node : Z; right_node : Z }.

Inductive slot := Rootp | Leftp (n : Z) | Rightp (n : Z).

#[export] Instance slot_eq_dec : EqDecision slot.
Proof. solve_decision. Defined.

Record store := Store { nodes : gmap Z node_t; root_var : Z }.

(** Computations on the store; [None] for undefined behaviour and exhausted fuel. *)
Definition T (A : Type) : Type := store → option (A * store).

#[export] Instance T_ret : MRet T := λ A a m, Some (a, m).
#[export] Instance T_bind : MBind T := λ A B f x m,
  match x m with Some (a, m') => f a m' | None => None end.

Definition stuck {A} : T A := λ _, None.

(** ** The macros *)

Definition get_node (n : Z) : T node_t := λ m, x ← nodes m !! n; Some (x, m).
Definition put_node (n : Z) (x : node_t) : T unit := λ m,
  _ ← nodes m !! n; Some (tt, Store (<[n := x]> (nodes m)) (root_var m)).

Definition read_slot (np : slot) : T Z :=
  match np with
  | Rootp => λ m, Some (root_var m, m)
  | Leftp n => x ← get_node n; mret (left_node x)
  | Rightp n => x ← get_node n; mret (right_node x)
  end.

Definition write_slot (np : slot) (v : Z) : T unit :=
  match np with
  | Rootp => λ m, Some (tt, Store (nodes m) v)
  | Leftp n => x ← get_node n; put_node n (Node (key x) v (right_node x))
  | Rightp n => x ← get_node n; put_node n (Node (key x) (left_node x) v)
  end.

(** [~((uintptr_t) 0x1)] *)
Definition mask : Z := u64 (Z.lnot 1).

Definition RED (n : Z) : T bool := x ← get_node n; mret (negb (Z.land (left_node x) 1 =? 0)).
Definition SETRED (n : Z) : T unit :=
  x ← get_node n; put_node n (Node (key x) (Z.lor (left_node x) 1) (right_node x)).
Definition SETBLACK (n : Z) : T unit :=
  x ← get_node n; put_node n (Node (key x) (Z.land (left_node x) mask) (right_node x)).
Definition SETNODEPTR (np : slot) (p : Z) : T unit :=
  v ← read_slot np; write_slot np (Z.lor (Z.land v 1) p).
Definition LEFT (n : Z) : T Z := x ← get_node n; mret (Z.land (left_node x) mask).
Definition SETLEFT (n l : Z) : T unit :=
  x ← get_node n; put_node n (Node (key x) (Z.lor (Z.land (left_node x) 1) l) (right_node x)).
Definition RIGHT (n : Z) : T Z := x ← get_node n; mret (right_node x).
Definition SETRIGHT (n r : Z) : T unit :=
  x ← get_node n; put_node n (Node (key x) (left_node x) r).
Definition DEREFNODEPTR (np : slot) : T Z := v ← read_slot np; mret (Z.land v mask).
Definition set_key (n k : Z) : T unit :=
  x ← get_node n; put_node n (Node k (left_node x) (right_node x)).

(** [x != NULL && RED (x)] *)
Definition is_red (x : Z) : T bool := if x =? 0 then mret false else RED x.

(** ** Insertion *)

Section tsearch.
Context (compar : Z → Z → Z).

(** The rotations of [maybe_split_for_insert], when the parent is red too. *)
Definition split_rotate (root : Z) (rp lp : slot) (rpn lpn : Z) (parentp gparentp : slot) (p_r gp_r : Z) : T unit :=
  gp ← DEREFNODEPTR gparentp;
  p ← DEREFNODEPTR parentp;
  if negb (Bool.eqb (0 <? p_r) (0 <? gp_r)) then
    SETRED p;;
    SETRED gp;;
    SETBLACK root;;
    (if p_r <? 0 then
       SETLEFT p rpn;;
       SETNODEPTR rp p;;
       SETRIGHT gp lpn;;
       SETNODEPTR lp gp
     else
       SETRIGHT p lpn;;
       SETNODEPTR lp p;;
       SETLEFT gp rpn;;
       SETNODEPTR rp gp);;
    SETNODEPTR gparentp root
  else
    SETNODEPTR gparentp p;;
    SETBLACK p;;
    SETRED gp;;
    if p_r <? 0 then
      x ← RIGHT p;
      SETLEFT gp x;;
      SETRIGHT p gp
    else
      x ← LEFT p;
      SETRIGHT gp x;;
      SETLEFT p gp.

(** A null [gparentp] is not dereferenced by a caller that keeps the invariant of
    [TsearchInsert]. *)
Definition maybe_split_for_insert (rootp : slot) (parentp gparentp : option slot) (p_r gp_r mode : Z) : T unit :=
  root ← DEREFNODEPTR rootp;
  let rp := Rightp root in
  rpn ← RIGHT root;
  let lp := Leftp root in
  lpn ← LEFT root;
  split ← (if mode =? 1 then mret true
           else if (rpn =? 0) || (lpn =? 0) then mret false
           else r ← RED rpn; if (r : bool) then RED lpn else mret false);
  if (split : bool) then
    SETRED root;;
    (if negb (rpn =? 0) then SETBLACK rpn else mret ());;
    (if negb (lpn =? 0) then SETBLACK lpn else mret ());;
    match parentp with
    | None => mret ()
    | Some parentp =>
        p ← DEREFNODEPTR parentp;
        r ← RED p;
        if (r : bool) then
          match gparentp with
          | None => stuck
          | Some gparentp => split_rotate root rp lp rpn lpn parentp gparentp p_r gp_r
          end
        else mret ()
    end
  else mret ().

(** What the loop of [tsearch] ends in: the node found, or the variables after it. *)
Inductive descent :=
  | Found (n : Z)
  | Missing (nextp rootp : slot) (parentp : option slot) (r p_r : Z).

Fixpoint tsearch_loop (fuel : nat) (k : Z) (rootp : slot) (parentp gparentp : option slot) (nextp : slot) (r p_r gp_r : Z) : T descent :=
  match fuel with
  | O => stuck
  | S fuel =>
      next ← DEREFNODEPTR nextp;
      if next =? 0 then mret (Missing nextp rootp parentp r p_r)
      else
        root ← DEREFNODEPTR rootp;
        x ← get_node root;
        let r := compar k (key x) in
        if r =? 0 then mret (Found root)
        else
          maybe_split_for_insert rootp parentp gparentp p_r gp_r 0;;
          let nextp := if r <? 0 then Leftp root else Rightp root in
          next ← DEREFNODEPTR nextp;
          if next =? 0 then mret (Missing nextp rootp parentp r p_r)
          else tsearch_loop fuel k nextp (Some rootp) parentp nextp r r p_r
  end.

(** [malloc] on the store: the address and the contents of the block. *)
Definition call_malloc (malloc : gmap Z node_t → option (Z * node_t)) : T Z := λ m,
  match malloc (nodes m) with
  | None => Some (0, m)
  | Some (q, x) => Some (q, Store (<[q := x]> (nodes m)) (root_var m))
  end.

Definition tsearch (fuel : nat) (malloc : gmap Z node_t → option (Z * node_t)) (k : Z) (rootp : option slot) : T Z :=
  match rootp with
  | None => mret 0
  | Some rootp =>
      root ← DEREFNODEPTR rootp;
      (if negb (root =? 0) then SETBLACK root else mret ());;
      d ← tsearch_loop fuel k rootp None None rootp 0 0 0;
      match d with
      | Found root => mret root
      | Missing nextp rootp parentp r p_r =>
          q ← call_malloc malloc;
          (if negb (q =? 0) then
             (if Z.land q 1 =? 0 then mret () else stuck);;
             SETNODEPTR nextp q;;
             set_key q k;;
             SETRED q;;
             SETLEFT q 0;;
             SETRIGHT q 0;;
             if negb (bool_decide (nextp = rootp)) then maybe_split_for_insert nextp (Some rootp) parentp r p_r 1 else mret ()
           else mret ());;
          mret q
      end
  end.

(** ** Searching *)

Fixpoint tfind_loop (fuel : nat) (k : Z) (rootp : slot) : T Z :=
  match fuel with
  | O => stuck
  | S fuel =>
      root ← DEREFNODEPTR rootp;
      if root =? 0 then mret 0
      else
        x ← get_node root;
        let r := compar k (key x) in
        if r =? 0 then mret root
        else tfind_loop fuel k (if r <? 0 then Leftp root else Rightp root)
  end.

Definition tfind (fuel : nat) (k : Z) (rootp : option slot) : T Z :=
  match rootp with None => mret 0 | Some rootp => tfind_loop fuel k rootp end.

(** ** Deletion *)

(** [nodestack], the top first, so that [sp] is its length, and [stacksize]. *)
Definition nodestack : Type := list slot * Z.

(** [nodestack[sp++] = np], which must be within the array. *)
Definition push (np : slot) (s : nodestack) : T nodestack :=
  if len s.1 <? s.2 then mret (np :: s.1, s.2) else stuck.

(** The array is enlarged when it is full. *)
Definition push_grow (np : slot) (s : nodestack) : T nodestack :=
  push np (s.1, if len s.1 =? s.2 then s.2 + 20 else s.2).

(** The search for the key: [None] if it is not there; otherwise [p] and [rootp]. *)
Fixpoint tdelete_search (fuel : nat) (k : Z) (s : nodestack) (p : Z) (rootp : slot) (root : Z) : T (option (nodestack * Z * slot)) :=
  match fuel with
  | O => stuck
  | S fuel =>
      x ← get_node root;
      let cmp := compar k (key x) in
      if cmp =? 0 then mret (Some (s, p, rootp))
      else
        s ← push_grow rootp s;
        p ← DEREFNODEPTR rootp;
        let rootp := if cmp <? 0 then Leftp p else Rightp p in
        root ← (if cmp <? 0 then LEFT p else RIGHT p);
        if root =? 0 then mret None
        else tdelete_search fuel k s p rootp root
  end.

(** The [for (;;)] loop that goes to the successor. *)
Fixpoint successor_loop (fuel : nat) (s : nodestack) (parentp up : slot) : T (nodestack * slot) :=
  match fuel with
  | O => stuck
  | S fuel =>
      s ← push_grow parentp s;
      let parentp := up in
      upn ← DEREFNODEPTR up;
      l ← LEFT upn;
      if l =? 0 then mret (s, up)
      else successor_loop fuel s parentp (Leftp upn)
  end.

(** The two symmetric cases of the loop that balances the tree. *)

(** [q] is red: it changes places with [p]. *)
Definition rotate_red_left (pp : slot) (p q : Z) : T unit :=
  SETBLACK q;;
  SETRED p;;
  x ← LEFT q;
  SETRIGHT p x;;
  SETLEFT q p;;
  SETNODEPTR pp q.

(** The left successor [q2] of [q] is the red one: it becomes the top. *)
Definition raise_left (pp : slot) (p q : Z) : T unit :=
  q2 ← LEFT q;
  pred ← RED p;
  (if (pred : bool) then SETRED q2 else SETBLACK q2);;
  x ← LEFT q2;
  SETRIGHT p x;;
  x ← RIGHT q2;
  SETLEFT q x;;
  SETRIGHT q2 q;;
  SETLEFT q2 p;;
  SETNODEPTR pp q2;;
  SETBLACK p.

(** The other one is red. *)
Definition rotate_left (pp : slot) (p q : Z) : T unit :=
  pred ← RED p;
  (if (pred : bool) then SETRED q else SETBLACK q);;
  SETBLACK p;;
  x ← RIGHT q;
  SETBLACK x;;
  x ← LEFT q;
  SETRIGHT p x;;
  SETLEFT q p;;
  SETNODEPTR pp q.

(** [q] is black. *)
Definition balance_black_left (s : nodestack) (pp : slot) (p q : Z) : T (nodestack * Z) :=
  near ← LEFT q;
  nred ← is_red near;
  far ← RIGHT q;
  fred ← is_red far;
  if negb nred && negb fred then SETRED q;; mret (s, p)
  else
    (if negb fred then raise_left pp p q else rotate_left pp p q);;
    mret ((drop (length s.1 - 1) s.1, s.2), 0).

(** The case of the loop where [r] is the left successor of [p]: the stack and [r] after it. *)
Definition balance_left (s : nodestack) (pp : slot) (p : Z) : T (nodestack * Z) :=
  q ← RIGHT p;
  b ← RED q;
  if (b : bool) then
    rotate_red_left pp p q;;
    let pp := Leftp q in
    s ← push pp s;
    q ← RIGHT p;
    balance_black_left s pp p q
  else balance_black_left s pp p q.

(** [q] is red: it changes places with [p]. *)
Definition rotate_red_right (pp : slot) (p q : Z) : T unit :=
  SETBLACK q;;
  SETRED p;;
  x ← RIGHT q;
  SETLEFT p x;;
  SETRIGHT q p;;
  SETNODEPTR pp q.

(** The right successor [q2] of [q] is the red one: it becomes the top. *)
Definition raise_right (pp : slot) (p q : Z) : T unit :=
  q2 ← RIGHT q;
  pred ← RED p;
  (if (pred : bool) then SETRED q2 else SETBLACK q2);;
  x ← RIGHT q2;
  SETLEFT p x;;
  x ← LEFT q2;
  SETRIGHT q x;;
  SETLEFT q2 q;;
  SETRIGHT q2 p;;
  SETNODEPTR pp q2;;
  SETBLACK p.

(** The other one is red. *)
Definition rotate_right (pp : slot) (p q : Z) : T unit :=
  pred ← RED p;
  (if (pred : bool) then SETRED q else SETBLACK q);;
  SETBLACK p;;
  x ← LEFT q;
  SETBLACK x;;
  x ← RIGHT q;
  SETLEFT p x;;
  SETRIGHT q p;;
  SETNODEPTR pp q.

(** [q] is black. *)
Definition balance_black_right (s : nodestack) (pp : slot) (p q : Z) : T (nodestack * Z) :=
  near ← RIGHT q;
  nred ← is_red near;
  far ← LEFT q;
  fred ← is_red far;
  if negb nred && negb fred then SETRED q;; mret (s, p)
  else
    (if negb fred then raise_right pp p q else rotate_right pp p q);;
    mret ((drop (length s.1 - 1) s.1, s.2), 0).

(** The case of the loop where [r] is the right successor of [p]: the stack and [r] after it. *)
Definition balance_right (s : nodestack) (pp : slot) (p : Z) : T (nodestack * Z) :=
  q ← LEFT p;
  b ← RED q;
  if (b : bool) then
    rotate_red_right pp p q;;
    let pp := Rightp q in
    s ← push pp s;
    q ← LEFT p;
    balance_black_right s pp p q
  else balance_black_right s pp p q.

(** [while (sp > 0 && (r == NULL || !RED (r)))]: [r] at the end. *)
Fixpoint balance_loop (fuel : nat) (s : nodestack) (r : Z) : T Z :=
  match s.1 with
  | [] => mret r
  | pp :: _ =>
      b ← is_red r;
      if (b : bool) then mret r
      else
        match fuel with
        | O => stuck
        | S fuel =>
            p ← DEREFNODEPTR pp;
            l ← LEFT p;
            '(s, r) ← (if r =? l then balance_left s pp p else balance_right s pp p);
            balance_loop fuel (tl s.1, s.2) r
        end
  end.

Definition free (n : Z) : T unit := λ m,
  _ ← nodes m !! n; Some (tt, Store (delete n (nodes m)) (root_var m)).

(** From the node that is found on: [rootp] points to it. *)
Definition tdelete_found (fuel : nat) (s : nodestack) (rootp : slot) : T unit :=
  root ← DEREFNODEPTR rootp;
  r ← RIGHT root;
  q ← LEFT root;
  '(s, unchained) ← (if (q =? 0) || (r =? 0) then mret (s, root)
     else '(s, up) ← successor_loop fuel s rootp (Rightp root);
          u ← DEREFNODEPTR up; mret (s, u));
  r ← LEFT unchained;
  r ← (if r =? 0 then RIGHT unchained else mret r);
  match s.1 with
  | [] => SETNODEPTR rootp r
  | np :: _ =>
      q ← DEREFNODEPTR np;
      x ← RIGHT q;
      if unchained =? x then SETRIGHT q r else SETLEFT q r
  end;;
  (if negb (unchained =? root) then x ← get_node unchained; set_key root (key x) else mret ());;
  b ← RED unchained;
  (if negb b then
     r ← balance_loop fuel s r;
     if negb (r =? 0) then SETBLACK r else mret ()
   else mret ());;
  free unchained.

Definition tdelete (fuel : nat) (k : Z) (rootp : option slot) : T Z :=
  match rootp with
  | None => mret 0
  | Some rootp =>
      p ← DEREFNODEPTR rootp;
      if p =? 0 then mret 0
      else
        root ← DEREFNODEPTR rootp;
        d ← tdelete_search fuel k ([], 40) p rootp root;
        match d with
        | None => mret 0
        | Some (s, retval, rootp) => tdelete_found fuel s rootp;; mret retval
        end
  end.
End tsearch.

(** ** Walking *)

Inductive VISIT := preorder | postorder | endorder | leaf.

(** The calls of [action]: the node, the visit and the level. *)
Fixpoint trecurse (fuel : nat) (root level : Z) : T (list (Z * VISIT * Z)) :=
  match fuel with
  | O => stuck
  | S fuel =>
      l ← LEFT root;
      r ← RIGHT root;
      if (l =? 0) && (r =? 0) then mret [(root, leaf, level)]
      else
        a ← (if negb (l =? 0) then trecurse fuel l (level + 1) else mret []);
        r ← RIGHT root;
        b ← (if negb (r =? 0) then trecurse fuel r (level + 1) else mret []);
        mret ((root, preorder, level) :: a ++ (root, postorder, level) :: b ++ [(root, endorder, level)])
  end.

Definition twalk (fuel : nat) (root : Z) (action_is_null : bool) : T (list (Z * VISIT * Z)) :=
  if negb (root =? 0) && negb action_is_null then trecurse fuel root 0 else mret [].

Fixpoint trecurse_r (fuel : nat) (root : Z) : T (list (Z * VISIT)) :=
  match fuel with
  | O => stuck
  | S fuel =>
      l ← LEFT root;
      r ← RIGHT root;
      if (l =? 0) && (r =? 0) then mret [(root, leaf)]
      else
        a ← (if negb (l =? 0) then trecurse_r fuel l else mret []);
        r ← RIGHT root;
        b ← (if negb (r =? 0) then trecurse_r fuel r else mret []);
        mret ((root, preorder) :: a ++ (root, postorder) :: b ++ [(root, endorder)])
  end.

Definition twalk_r (fuel : nat) (root : Z) (action_is_null : bool) : T (list (Z * VISIT)) :=
  if negb (root =? 0) && negb action_is_null then trecurse_r fuel root else mret [].

(** The calls of [freefct]: the keys. *)
Fixpoint tdestroy_recurse (fuel : nat) (root : Z) : T (list Z) :=
  match fuel with
  | O => stuck
  | S fuel =>
      l ← LEFT root;
      a ← (if negb (l =? 0) then tdestroy_recurse fuel l else mret []);
      r ← RIGHT root;
      b ← (if negb (r =? 0) then tdestroy_recurse fuel r else mret []);
      x ← get_node root;
      free root;;
      mret (a ++ b ++ [key x])
  end.

Definition tdestroy (fuel : nat) (root : Z) : T (list Z) :=
  if negb (root =? 0) then tdestroy_recurse fuel root else mret [].
