(* ===== verification/TsearchTree.v ===== *)
(** * TsearchTree: red-black trees and contexts, apart from the store

    A tree carries the addresses of its nodes; a context is the path from a place in the tree
    up to the root, the innermost node first.  [slot_of] is the place as the code points to
    it.  [rb c n t] says that [t] is a red-black tree with a root of colour [c] ([true] for
    red) and [n] black nodes on every path; [rbx] says what a context asks of its hole. *)

From S2P Require Import Prelude SortList Tsearch.
Local Open Scope Z_scope.

Inductive tree := E | N (c : bool) (l : tree) (a k : Z) (r : tree).

Definition ptr (t : tree) : Z := match t with E => 0 | N _ _ a _ _ => a end.
Definition red (t : tree) : bool := match t with E => false | N c _ _ _ _ => c end.

(** The elements in order: the address and the key of each node. *)
Fixpoint elems (t : tree) : list (Z * Z) :=
  match t with E => [] | N _ l a k r => elems l ++ (a, k) :: elems r end.
Definition addrs (t : tree) : list Z := (elems t).*1.

Fixpoint height (t : tree) : nat :=
  match t with E => O | N _ l _ _ r => S (Nat.max (height l) (height r)) end.

(** ** Contexts *)

Inductive dir := L | R.

Record frame := Frame { fd : dir; fc : bool; fa : Z; fk : Z; fs : tree }.

Definition plug1 (f : frame) (t : tree) : tree :=
  match fd f with L => N (fc f) t (fa f) (fk f) (fs f) | R => N (fc f) (fs f) (fa f) (fk f) t end.
Fixpoint plug (C : list frame) (t : tree) : tree :=
  match C with [] => t | f :: C => plug C (plug1 f t) end.

Definition slot1 (f : frame) : slot := match fd f with L => Leftp (fa f) | R => Rightp (fa f) end.
Definition slot_of (C : list frame) : slot := match C with [] => Rootp | f :: _ => slot1 f end.

(** The slots of the nodes on the path, as [nodestack] holds them. *)
Fixpoint slots (C : list frame) : list slot :=
  match C with [] => [] | _ :: C => slot_of C :: slots C end.

Definition before1 (f : frame) : list (Z * Z) := match fd f with L => [] | R => elems (fs f) ++ [(fa f, fk f)] end.
Definition after1 (f : frame) : list (Z * Z) := match fd f with L => (fa f, fk f) :: elems (fs f) | R => [] end.
Fixpoint before (C : list frame) : list (Z * Z) := match C with [] => [] | f :: C => before C ++ before1 f end.
Fixpoint after (C : list frame) : list (Z * Z) := match C with [] => [] | f :: C => after1 f ++ after C end.

Lemma elems_plug1 f t : elems (plug1 f t) = before1 f ++ elems t ++ after1 f.
Proof. unfold plug1, before1, after1. destruct (fd f); cbn; rewrite ?app_nil_r, <- ?(assoc_L (++)); done. Qed.

Lemma elems_plug C t : elems (plug C t) = before C ++ elems t ++ after C.
Proof.
  revert t. induction C as [|f C IH]; intros t; cbn [plug before after]; [by rewrite app_nil_r|].
  by rewrite IH, elems_plug1, <- !(assoc_L (++)).
Qed.

Lemma plug_app C D t : plug (C ++ D) t = plug D (plug C t).
Proof. revert t. induction C as [|f C IH]; intros t; [done|]. apply IH. Qed.

Lemma length_slots C : length (slots C) = length C.
Proof. induction C as [|f C IH]; [done|]. cbn. by rewrite IH. Qed.

Lemma height_plug C t : (height t + length C <= height (plug C t))%nat.
Proof.
  revert t. induction C as [|f C IH]; intros t; cbn [plug length]; [lia|].
  specialize (IH (plug1 f t)). unfold plug1 in *. destruct (fd f); cbn [height] in *; lia.
Qed.

(** ** Balance *)

Inductive rb : bool → nat → tree → Prop :=
  | rb_E : rb false 0 E
  | rb_red n l a k r : rb false n l → rb false n r → rb true n (N true l a k r)
  | rb_black cl cr n l a k r : rb cl n l → rb cr n r → rb false (S n) (N false l a k r).

Inductive rbx : list frame → bool → nat → Prop :=
  | rbx_nil c n : rbx [] c n
  | rbx_red d a k s C n : rb false n s → rbx C true n → rbx (Frame d true a k s :: C) false n
  | rbx_black d a k s cs C c n : rb cs n s → rbx C false (S n) → rbx (Frame d false a k s :: C) c n.

Lemma rb_colour c n t : rb c n t → red t = c.
Proof. by destruct 1. Qed.

Lemma rb_plug C c n t : rb c n t → rbx C c n → ∃ c' n', rb c' n' (plug C t).
Proof.
  intros Ht HC. revert t Ht. induction HC as [c n|d a k s C n Hs HC IH|d a k s cs C c n Hs HC IH]; intros t Ht; [by exists c, n| |].
  - apply IH. unfold plug1. cbn. destruct d; by constructor.
  - apply IH. unfold plug1. cbn. destruct d; by econstructor.
Qed.

Lemma rb_unplug C t c n : rb c n (plug C t) → ∃ c' n', rb c' n' t ∧ rbx C c' n'.
Proof.
  revert t. induction C as [|f C IH]; intros t H; cbn [plug] in H.
  - exists c, n. split; [done|constructor].
  - destruct (IH _ H) as (c' & n' & Ht & HC). destruct f as [d fc a k s]. unfold plug1 in Ht. cbn in Ht.
    destruct d; inv Ht; eexists _, _; (split; [eassumption|]); by econstructor.
Qed.

(** A black tree may stand where a red one of the same height does. *)
Lemma rbx_blacken C c n : rbx C c n → rbx C false n.
Proof. inversion 1; subst; by econstructor. Qed.

Definition blacken (t : tree) : tree := match t with E => E | N _ l a k r => N false l a k r end.

Lemma elems_blacken t : elems (blacken t) = elems t.
Proof. by destruct t. Qed.

Lemma ptr_blacken t : ptr (blacken t) = ptr t.
Proof. by destruct t. Qed.

Lemma rb_blacken_S n t : rb true n t → rb false (S n) (blacken t).
Proof. inversion 1; subst. cbn. by econstructor. Qed.

Lemma height_blacken t : height (blacken t) = height t.
Proof. by destruct t. Qed.

Lemma rb_blacken c n t : rb c n t → ∃ n', rb false n' (blacken t).
Proof. inversion 1; subst; cbn; eexists; by econstructor. Qed.

(** The tree with [n] black nodes on its paths is large. *)
Lemma rb_size c n t : rb c n t → 2 ^ Z.of_nat n <= len (elems t) + 1.
Proof.
  induction 1 as [|n l a k r Hl IHl Hr IHr|cl cr n l a k r Hl IHl Hr IHr]; cbn [elems].
  - cbn. lia.
  - rewrite length_app. cbn [length]. lia.
  - rewrite length_app. cbn [length]. rewrite Nat2Z.inj_succ, Z.pow_succ_r by lia. lia.
Qed.

Lemma rb_height c n t : rb c n t → (height t <= 2 * n + (if c then 1 else 0))%nat.
Proof.
  induction 1 as [|n l a k r Hl IHl Hr IHr|cl cr n l a k r Hl IHl Hr IHr]; cbn [height]; [lia|lia|].
  destruct cl, cr; lia.
Qed.

(** A tree of fewer than [2 ^ j] nodes is at most [2 * j] high. *)
Lemma rb_height_bound c n t j : rb c n t → len (elems t) + 1 < 2 ^ Z.of_nat (S j) → (height t <= 2 * j + 1)%nat.
Proof.
  intros H Hj. pose proof (rb_size _ _ _ H) as Hs. pose proof (rb_height _ _ _ H) as Hh.
  assert (n <= j)%nat; [|destruct c; lia]. destruct (decide (n <= j)%nat) as [|Hn]; [done|].
  assert (2 ^ Z.of_nat (S j) <= 2 ^ Z.of_nat n) by (apply Z.pow_le_mono_r; lia). lia.
Qed.

(** ** Order *)

Section order.
Context (compar : Z → Z → Z) `{!CmpOrder compar}.
Set Default Proof Using "All".

(** The elements are in strict order of their keys. *)
Definition below (x y : Z * Z) : Prop := compar x.2 y.2 < 0.
Definition sorted (l : list (Z * Z)) : Prop := StronglySorted below l.

(** The comparisons of [k] with the keys on the path led here. *)
Definition side_ok (k : Z) (f : frame) : Prop :=
  match fd f with L => compar k (fk f) < 0 | R => 0 < compar k (fk f) end.
Definition path_ok (k : Z) (C : list frame) : Prop := Forall (side_ok k) C.

Lemma compar_flip x y : compar x y < 0 ↔ 0 < compar y x.
Proof. pose proof (cmp_flip x y). pose proof (cmp_flip y x). lia. Qed.

Lemma compar_lt_trans x y z : compar x y <= 0 → compar y z < 0 → compar x z < 0.
Proof.
  intros H1 H2. assert (compar x z <= 0) as H3 by (apply (cmp_trans x y z); lia).
  destruct (decide (compar x z = 0)) as [E0|]; [|lia]. exfalso.
  assert (compar z x <= 0) by (apply cmp_flip; lia). assert (compar z y <= 0) by (apply (cmp_trans z x y); lia).
  apply compar_flip in H2. lia.
Qed.

Lemma compar_trans_lt x y z : compar x y < 0 → compar y z <= 0 → compar x z < 0.
Proof.
  intros H1 H2. apply compar_flip. apply compar_flip in H1. assert (0 <= compar z y) as H2' by (by apply cmp_flip).
  destruct (decide (0 < compar z x)) as [|H3]; [done|]. exfalso.
  assert (compar z x <= 0) as H4 by lia. assert (compar y x <= 0) by (apply (cmp_trans y z x); lia). lia.
Qed.

Lemma sorted_app l1 l2 : sorted (l1 ++ l2) ↔ sorted l1 ∧ sorted l2 ∧ ∀ x y, x ∈ l1 → y ∈ l2 → below x y.
Proof.
  unfold sorted. induction l1 as [|z l1 IH]; cbn.
  - split; [intros H; split; [constructor|]; split; [done|]; intros x y Hx; by apply not_elem_of_nil in Hx|by intros (_ & ? & _)].
  - rewrite !StronglySorted_cons, IH, Forall_app, !Forall_forall. split.
    + intros (Hz & H1 & H2 & H3). split; [split; [apply Hz|done]|]. split; [done|]. intros x y [->|Hx]%elem_of_cons Hy; [by apply Hz|by apply H3].
    + intros ((Hz & H1) & H2 & H3). split; [split; [done|]|split; [done|split; [done|]]].
      * intros y Hy. apply H3; [by left|done].
      * intros x y Hx Hy. apply H3; [by right|done].
Qed.

Lemma sorted_middle l1 x l2 : sorted (l1 ++ x :: l2) ↔
  sorted (l1 ++ l2) ∧ (∀ y, y ∈ l1 → below y x) ∧ (∀ y, y ∈ l2 → below x y).
Proof.
  rewrite !sorted_app. unfold sorted. rewrite StronglySorted_cons, Forall_forall. split.
  - intros (H1 & (H2 & H3) & H4). split.
    + split; [done|]. split; [done|]. intros y z Hy Hz. apply H4; [done|by right].
    + split; [|done]. intros y Hy. apply H4; [done|by left].
  - intros ((H1 & H2 & H3) & H4 & H5). split; [done|]. split; [done|].
    intros y z Hy [->|Hz]%elem_of_cons; [by apply H4|by apply H3].
Qed.

(** In a sorted tree the path splits the elements by the key. *)
Lemma path_before k C l : path_ok k C → sorted (before C ++ l) → ∀ x, x ∈ before C → compar k x.2 > 0.
Proof.
  intros Hp. revert l. induction Hp as [|f C Hf Hp IH]; intros l Hs x Hx; [by apply not_elem_of_nil in Hx|].
  cbn [before] in *. apply elem_of_app in Hx as [Hx|Hx].
  - rewrite <- (assoc_L (++)) in Hs. by eapply IH.
  - unfold side_ok in Hf. unfold before1 in *. destruct (fd f); [by apply not_elem_of_nil in Hx|].
    apply elem_of_app in Hx as [Hx|Hx%list_elem_of_singleton]; [|subst; cbn; lia].
    rewrite <- !(assoc_L (++)) in Hs. apply sorted_app in Hs as (_ & Hs & _). apply sorted_app in Hs as (_ & _ & Hs).
    specialize (Hs x (fa f, fk f) Hx ltac:(apply elem_of_app; left; by left)). unfold below in Hs. cbn in Hs.
    apply Z.lt_gt, compar_flip. apply (compar_trans_lt _ (fk f)); [done|]. apply cmp_flip. lia.
Qed.

Lemma path_after k C l : path_ok k C → sorted (l ++ after C) → ∀ x, x ∈ after C → compar k x.2 < 0.
Proof.
  intros Hp. revert l. induction Hp as [|f C Hf Hp IH]; intros l Hs x Hx; [by apply not_elem_of_nil in Hx|].
  cbn [after] in *. apply elem_of_app in Hx as [Hx|Hx].
  - unfold side_ok in Hf. unfold after1 in *. destruct (fd f); [|by apply not_elem_of_nil in Hx].
    apply elem_of_cons in Hx as [->|Hx]; [done|]. apply sorted_app in Hs as (_ & Hs & _). cbn in Hs.
    unfold sorted in Hs. apply StronglySorted_cons in Hs as [Hs _]. rewrite Forall_forall in Hs.
    specialize (Hs x ltac:(apply elem_of_app; by left)). unfold below in Hs. cbn in Hs. apply (compar_lt_trans _ (fk f)); [lia|done].
  - rewrite (assoc_L (++)) in Hs. by eapply IH.
Qed.
End order.
