(* ===== verification/TsearchRep.v ===== *)
(** * TsearchRep: trees in the store

    [rep h t]: the store [h] holds the nodes of [t], the colours in the low bits.  [rep_ctx]
    is the same for a context with a pointer in its hole.  The macros of the source are
    shown to read and change the fields of such nodes. *)

From S2P Require Import Prelude SortList Tsearch TsearchTree.
Local Open Scope Z_scope.

(** ** Tagged pointers *)

(** A pointer that [malloc] returns, or [NULL]. *)
Definition ptr_ok (p : Z) : Prop := 0 <= p < 2 ^ 64 ∧ p mod 2 = 0.
Definition addr_ok (a : Z) : Prop := a ≠ 0 ∧ ptr_ok a.

Definition enc (c : bool) (k l r : Z) : node_t := Node k (l + Z.b2z c) r.

Lemma land_tag p c : p mod 2 = 0 → Z.land (p + Z.b2z c) 1 = Z.b2z c.
Proof.
  intros Hp. change 1 with (Z.ones 1) at 1. rewrite Z.land_ones by lia. change (2 ^ 1) with 2.
  rewrite <- Zplus_mod_idemp_l, Hp. by destruct c.
Qed.

Lemma lor_bit x c : x mod 2 = 0 → Z.lor (Z.b2z c) x = x + Z.b2z c.
Proof.
  intros Hx. rewrite Z.add_nocarry_lor, Z.lor_comm; [done|]. destruct c; [|by rewrite Z.land_0_r].
  cbn [Z.b2z]. change 1 with (Z.ones 1). rewrite Z.land_ones by lia. done.
Qed.

Lemma lor_tag p c : p mod 2 = 0 → Z.lor (p + Z.b2z c) 1 = p + 1.
Proof.
  intros Hp. rewrite <- (lor_bit p c Hp), (Z.lor_comm _ p), <- Z.lor_assoc.
  replace (Z.lor (Z.b2z c) 1) with (Z.b2z true) by by destruct c. by rewrite Z.lor_comm, lor_bit.
Qed.

Lemma land_mask p c : ptr_ok p → Z.land (p + Z.b2z c) mask = p.
Proof.
  intros [Hr Hp]. change mask with (Z.ldiff (Z.ones 64) 1).
  assert (Z.land (p + Z.b2z c) (Z.ldiff (Z.ones 64) 1) = Z.ldiff (Z.land (p + Z.b2z c) (Z.ones 64)) 1) as ->.
  { apply Z.bits_inj. intros i. rewrite !Z.land_spec, !Z.ldiff_spec, !Z.land_spec. by rewrite andb_assoc. }
  apply Z.mod_divide in Hp as [q ->]; [|lia].
  assert (0 <= q * 2 + Z.b2z c < 2 ^ 64) by (destruct c; cbn [Z.b2z]; lia).
  rewrite Z.land_ones, Z.mod_small by lia. change 1 with (Z.ones 1) at 1.
  rewrite Z.ldiff_ones_r, Z.shiftl_mul_pow2, Z.shiftr_div_pow2 by lia. change (2 ^ 1) with 2.
  rewrite Z.div_add_l, (Z.div_small (Z.b2z c)) by (destruct c; cbn; lia). lia.
Qed.

(** ** The macros *)

Definition upd (m : store) (n : Z) (x : node_t) : store := Store (<[n := x]> (nodes m)) (root_var m).

Lemma upd_eq m n x : nodes (upd m n x) !! n = Some x.
Proof. apply lookup_insert_eq. Qed.

Lemma upd_ne m n x a : a ≠ n → nodes (upd m n x) !! a = nodes m !! a.
Proof. intros. by apply lookup_insert_ne. Qed.

Lemma T_step {A B} (x : T A) (f : A → T B) m a m' : x m = Some (a, m') → (x ≫= f) m = f a m'.
Proof. intros E. unfold mbind, T_bind. by rewrite E. Qed.

Lemma modify_ok m n x f : nodes m !! n = Some x → (x ← get_node n; put_node n (f x)) m = Some (tt, upd m n (f x)).
Proof. intros Hn. unfold mbind, T_bind, get_node, put_node. by rewrite Hn; cbn; rewrite Hn. Qed.

Section macros.
Context (m : store) (n : Z) (c : bool) (k l r : Z) (Hn : nodes m !! n = Some (enc c k l r)) (Hl : ptr_ok l).
Set Default Proof Using "All".

Lemma get_node_ok : get_node n m = Some (enc c k l r, m).
Proof. unfold get_node. by rewrite Hn. Qed.

Lemma put_node_ok x : put_node n x m = Some (tt, upd m n x).
Proof. unfold put_node. by rewrite Hn. Qed.

Lemma RED_ok : RED n m = Some (c, m).
Proof. unfold RED. rewrite (T_step _ _ _ _ _ get_node_ok). cbn. rewrite land_tag by apply Hl. by destruct c. Qed.

Lemma SETRED_ok : SETRED n m = Some (tt, upd m n (enc true k l r)).
Proof. unfold SETRED. rewrite (T_step _ _ _ _ _ get_node_ok). cbn. rewrite lor_tag by apply Hl. apply put_node_ok. Qed.

Lemma SETBLACK_ok : SETBLACK n m = Some (tt, upd m n (enc false k l r)).
Proof. unfold SETBLACK. rewrite (T_step _ _ _ _ _ get_node_ok). cbn. rewrite land_mask by done. unfold enc. rewrite Z.add_0_r. apply put_node_ok. Qed.

Lemma LEFT_ok : LEFT n m = Some (l, m).
Proof. unfold LEFT. rewrite (T_step _ _ _ _ _ get_node_ok). cbn. by rewrite land_mask. Qed.

Lemma RIGHT_ok : RIGHT n m = Some (r, m).
Proof. unfold RIGHT. by rewrite (T_step _ _ _ _ _ get_node_ok). Qed.

Lemma SETLEFT_ok p : ptr_ok p → SETLEFT n p m = Some (tt, upd m n (enc c k p r)).
Proof. intros [_ Hp]. unfold SETLEFT. rewrite (T_step _ _ _ _ _ get_node_ok). cbn. rewrite land_tag, lor_bit by apply Hl || done. apply put_node_ok. Qed.

Lemma SETRIGHT_ok p : SETRIGHT n p m = Some (tt, upd m n (enc c k l p)).
Proof. unfold SETRIGHT. rewrite (T_step _ _ _ _ _ get_node_ok). apply put_node_ok. Qed.

Lemma set_key_ok k' : set_key n k' m = Some (tt, upd m n (enc c k' l r)).
Proof. unfold set_key. rewrite (T_step _ _ _ _ _ get_node_ok). apply put_node_ok. Qed.

Lemma DEREF_left : DEREFNODEPTR (Leftp n) m = Some (l, m).
Proof. unfold DEREFNODEPTR. cbn. unfold mbind, T_bind. rewrite get_node_ok. cbn. by rewrite land_mask. Qed.

Lemma DEREF_right : ptr_ok r → DEREFNODEPTR (Rightp n) m = Some (r, m).
Proof.
  intros Hr. unfold DEREFNODEPTR. cbn. unfold mbind, T_bind. rewrite get_node_ok. cbn.
  pose proof (land_mask r false Hr) as E. cbn in E. rewrite Z.add_0_r in E. by rewrite E.
Qed.

Lemma SETNODEPTR_left p : ptr_ok p → SETNODEPTR (Leftp n) p m = Some (tt, upd m n (enc c k p r)).
Proof.
  intros [_ Hp]. unfold SETNODEPTR. cbn. unfold mbind, T_bind. rewrite get_node_ok. cbn. unfold mbind, T_bind. rewrite get_node_ok. cbn.
  rewrite land_tag, lor_bit by apply Hl || done. apply put_node_ok.
Qed.

Lemma SETNODEPTR_right p : ptr_ok r → ptr_ok p → SETNODEPTR (Rightp n) p m = Some (tt, upd m n (enc c k l p)).
Proof.
  intros [_ Hr] [_ Hp]. unfold SETNODEPTR. cbn. unfold mbind, T_bind. rewrite get_node_ok. cbn. unfold mbind, T_bind. rewrite get_node_ok. cbn.
  pose proof (land_tag r false Hr) as E. cbn in E. rewrite Z.add_0_r in E. rewrite E. cbn [Z.lor]. apply put_node_ok.
Qed.
End macros.

(** ** Trees in the store *)

Definition get (h : gmap Z node_t) (a : Z) (c : bool) (k l r : Z) : Prop := h !! a = Some (enc c k l r).

Fixpoint rep (h : gmap Z node_t) (t : tree) : Prop :=
  match t with
  | E => True
  | N c l a k r => get h a c k (ptr l) (ptr r) ∧ rep h l ∧ rep h r
  end.

(** The node of a frame, with [p] in the hole. *)
Definition get1 (h : gmap Z node_t) (f : frame) (p : Z) : Prop :=
  match fd f with
  | L => get h (fa f) (fc f) (fk f) p (ptr (fs f))
  | R => get h (fa f) (fc f) (fk f) (ptr (fs f)) p
  end.

Fixpoint rep_ctx (h : gmap Z node_t) (C : list frame) (p : Z) : Prop :=
  match C with [] => True | f :: C => get1 h f p ∧ rep h (fs f) ∧ rep_ctx h C (fa f) end.

(** The pointer at the root. *)
Fixpoint top (C : list frame) (p : Z) : Z := match C with [] => p | f :: C => top C (fa f) end.

Definition good (t : tree) : Prop := NoDup (addrs t) ∧ Forall addr_ok (addrs t).

(** The store holds the tree [plug C t]. *)
Record at_ (m : store) (C : list frame) (t : tree) : Prop := At {
  at_root : root_var m = top C (ptr t);
  at_ctx : rep_ctx (nodes m) C (ptr t);
  at_tree : rep (nodes m) t;
  at_good : good (plug C t) }.

Lemma ptr_plug1 f t : ptr (plug1 f t) = fa f.
Proof. unfold plug1. by destruct (fd f). Qed.

Lemma rep_plug1 h f t : rep h (plug1 f t) ↔ get1 h f (ptr t) ∧ rep h t ∧ rep h (fs f).
Proof. unfold plug1, get1. destruct (fd f); cbn; tauto. Qed.

(** Going down into a tree, and up out of it. *)
Lemma at_move m f C t : at_ m C (plug1 f t) ↔ at_ m (f :: C) t.
Proof.
  split; intros [H1 H2 H3 H4].
  - rewrite ptr_plug1 in *. apply rep_plug1 in H3 as (? & ? & ?). by split.
  - cbn in H1, H2. destruct H2 as (? & ? & ?). split; rewrite ?ptr_plug1; [done|done|by apply rep_plug1|done].
Qed.

Lemma at_plug m C t : at_ m [] (plug C t) ↔ at_ m C t.
Proof.
  revert t. induction C as [|f C IH]; intros t; [done|]. cbn [plug]. rewrite IH. apply at_move.
Qed.

Lemma at_left m C c l a k r : at_ m C (N c l a k r) ↔ at_ m (Frame L c a k r :: C) l.
Proof. apply (at_move m (Frame L c a k r)). Qed.

Lemma at_right m C c l a k r : at_ m C (N c l a k r) ↔ at_ m (Frame R c a k l :: C) r.
Proof. apply (at_move m (Frame R c a k l)). Qed.

(** ** Addresses *)

Definition caddrs (C : list frame) : list Z := (before C ++ after C).*1.

Lemma addrs_plug C t : addrs (plug C t) ≡ₚ addrs t ++ caddrs C.
Proof. unfold addrs, caddrs. rewrite elems_plug, !fmap_app. solve_Permutation. Qed.

Lemma addrs_node c l a k r : addrs (N c l a k r) ≡ₚ a :: addrs l ++ addrs r.
Proof. unfold addrs. cbn. rewrite fmap_app. cbn. solve_Permutation. Qed.

Lemma caddrs_cons f C : caddrs (f :: C) ≡ₚ fa f :: addrs (fs f) ++ caddrs C.
Proof.
  unfold caddrs, addrs. cbn [before after]. unfold before1, after1. destruct (fd f); rewrite ?fmap_app, ?fmap_cons; cbn; rewrite ?fmap_app; cbn; solve_Permutation.
Qed.

(** All the addresses that the plugged tree is made of, in a form for [set_solver]. *)
Lemma good_plug C t : good (plug C t) ↔ NoDup (addrs t ++ caddrs C) ∧ Forall addr_ok (addrs t ++ caddrs C).
Proof. unfold good. by rewrite addrs_plug. Qed.

Lemma ptr_in t : ptr t = 0 ∨ ptr t ∈ addrs t.
Proof. destruct t as [|c l a k r]; [by left|]. right. rewrite addrs_node. by left. Qed.

Lemma ptr_ok_0 : ptr_ok 0.
Proof. done. Qed.

Lemma ptr_tree_ok t : Forall addr_ok (addrs t) → ptr_ok (ptr t).
Proof.
  intros H. destruct (ptr_in t) as [->|Hin]; [apply ptr_ok_0|]. rewrite Forall_forall in H. by apply H.
Qed.

(** The store is the same outside the addresses [l]. *)
Definition unch (l : list Z) (m m' : store) : Prop := ∀ a, a ∉ l → nodes m' !! a = nodes m !! a.

Lemma unch_refl l m : unch l m m.
Proof. by intros a _. Qed.

Lemma unch_trans l m1 m2 m3 : unch l m1 m2 → unch l m2 m3 → unch l m1 m3.
Proof. intros H1 H2 a Ha. by rewrite H2, H1. Qed.

Lemma unch_sub l l' m m' : unch l m m' → (∀ a, a ∈ l → a ∈ l') → unch l' m m'.
Proof. intros H Hs a Ha. apply H. auto. Qed.

Lemma unch_upd l m m' n x : unch l m m' → n ∈ l → unch l m (upd m' n x).
Proof. intros H Hn a Ha. rewrite upd_ne; [by apply H|]. by intros ->. Qed.

Lemma rep_unch l m m' t : unch l m m' → (∀ a, a ∈ addrs t → a ∉ l) → rep (nodes m) t → rep (nodes m') t.
Proof.
  intros Hu. induction t as [|c t1 IH1 a k t2 IH2]; intros Hd; [done|]. cbn. intros (H1 & H2 & H3).
  assert (∀ b, b = a ∨ b ∈ addrs t1 ∨ b ∈ addrs t2 → b ∉ l) as Hd'.
  { intros b Hb. apply Hd. rewrite addrs_node. set_solver. }
  split; [unfold get; rewrite Hu; [done|apply Hd'; by left]|]. split; [apply IH1|apply IH2]; auto.
Qed.

Lemma rep_ctx_unch l m m' C p : unch l m m' → (∀ a, a ∈ caddrs C → a ∉ l) → rep_ctx (nodes m) C p → rep_ctx (nodes m') C p.
Proof.
  intros Hu. revert p. induction C as [|f C IH]; intros p Hd; [done|]. cbn. intros (H1 & H2 & H3).
  assert (∀ b, b = fa f ∨ b ∈ addrs (fs f) ∨ b ∈ caddrs C → b ∉ l) as Hd'.
  { intros b Hb. apply Hd. rewrite caddrs_cons. set_solver. }
  split; [|split; [apply (rep_unch l m); auto|apply IH; auto]].
  unfold get1, get in *. destruct (fd f); rewrite Hu by auto; done.
Qed.

(** ** The slot of a context *)

Definition outer (m : store) (C : list frame) (p : Z) : Prop := root_var m = top C p ∧ rep_ctx (nodes m) C p.

Lemma caddrs_head f C : fa f ∈ caddrs (f :: C).
Proof. rewrite caddrs_cons. by left. Qed.

Lemma caddrs_sibling f C a : a ∈ addrs (fs f) → a ∈ caddrs (f :: C).
Proof. intros Ha. rewrite caddrs_cons. right. apply elem_of_app. by left. Qed.

Lemma sibling_ok f C : Forall addr_ok (caddrs (f :: C)) → ptr_ok (ptr (fs f)).
Proof. rewrite caddrs_cons, Forall_cons, Forall_app. intros (_ & H & _). by apply ptr_tree_ok. Qed.

Lemma DEREF_ctx m C p : outer m C p → ptr_ok p → Forall addr_ok (caddrs C) → DEREFNODEPTR (slot_of C) m = Some (p, m).
Proof.
  intros [H1 H2] Hp Hv. destruct C as [|f C]; cbn [top rep_ctx slot_of] in *.
  - unfold DEREFNODEPTR. cbn. unfold mbind, T_bind. rewrite H1. pose proof (land_mask p false Hp) as E. cbn in E.
    rewrite Z.add_0_r in E. by rewrite E.
  - destruct H2 as (H2 & _ & _). pose proof (sibling_ok f C Hv). unfold slot1, get1, get in *.
    destruct (fd f); [by eapply DEREF_left|by eapply DEREF_right].
Qed.

Lemma SETNODEPTR_ctx m C p p' :
  outer m C p → ptr_ok p → ptr_ok p' → NoDup (caddrs C) → Forall addr_ok (caddrs C) →
  ∃ m', SETNODEPTR (slot_of C) p' m = Some (tt, m') ∧ outer m' C p' ∧ unch (caddrs C) m m'.
Proof.
  intros [H1 H2] Hp Hp' Hnd Hv. destruct C as [|f C]; cbn [top rep_ctx slot_of] in *.
  - exists (Store (nodes m) p'). split; [|done]. unfold SETNODEPTR. cbn. unfold mbind, T_bind. rewrite H1.
    pose proof (land_tag p false (proj2 Hp)) as E. cbn in E. rewrite Z.add_0_r in E. by rewrite E.
  - destruct H2 as (H2 & H3 & H4). pose proof (sibling_ok f C Hv) as Hs. pose proof (caddrs_head f C) as Hin.
    rewrite caddrs_cons, NoDup_cons, elem_of_app in Hnd. destruct Hnd as [Hni _]. unfold slot1, get1, get in *.
    destruct (fd f) eqn:Ed.
    + eexists. split; [by eapply SETNODEPTR_left|]. split; [|apply unch_upd; [apply unch_refl|done]].
      split; [done|]. cbn [rep_ctx]. unfold get1. rewrite Ed. split; [apply upd_eq|].
      split; [apply (rep_unch [fa f] m); [apply unch_upd; [apply unch_refl|by left]|by intros a Ha ->%list_elem_of_singleton; apply Hni; left|done]|].
      apply (rep_ctx_unch [fa f] m); [apply unch_upd; [apply unch_refl|by left]|by intros a Ha ->%list_elem_of_singleton; apply Hni; right|done].
    + eexists. split; [by eapply SETNODEPTR_right|]. split; [|apply unch_upd; [apply unch_refl|done]].
      split; [done|]. cbn [rep_ctx]. unfold get1. rewrite Ed. split; [apply upd_eq|].
      split; [apply (rep_unch [fa f] m); [apply unch_upd; [apply unch_refl|by left]|by intros a Ha ->%list_elem_of_singleton; apply Hni; left|done]|].
      apply (rep_ctx_unch [fa f] m); [apply unch_upd; [apply unch_refl|by left]|by intros a Ha ->%list_elem_of_singleton; apply Hni; right|done].
Qed.

(** ** Running the code *)

(** [x] runs from [m] without getting stuck, to a value and a store that satisfy [Q]. *)
Definition runs {A} (x : T A) (m : store) (Q : A → store → Prop) : Prop := ∃ a m', x m = Some (a, m') ∧ Q a m'.

Lemma runs_bind {A B} (x : T A) (f : A → T B) m Q : runs x m (λ a m', runs (f a) m' Q) → runs (x ≫= f) m Q.
Proof. intros (a & m' & E & b & m'' & E' & H). exists b, m''. split; [|done]. by rewrite (T_step _ _ _ _ _ E). Qed.

Lemma runs_ret {A} (a : A) m (Q : A → store → Prop) : Q a m → runs (mret a) m Q.
Proof. intros H. by exists a, m. Qed.

Lemma runs_mono {A} (x : T A) m (Q Q' : A → store → Prop) : runs x m Q → (∀ a m', Q a m' → Q' a m') → runs x m Q'.
Proof. intros (a & m' & E & H) HQ. exists a, m'. auto. Qed.

Lemma runs_eq {A} (x : T A) m a m' (Q : A → store → Prop) : x m = Some (a, m') → Q a m' → runs x m Q.
Proof. intros E H. by exists a, m'. Qed.

Section rules.
Context (m : store) (n : Z) (c : bool) (k l r : Z).

Lemma runs_get Q : get (nodes m) n c k l r → Q (enc c k l r) m → runs (get_node n) m Q.
Proof. intros Hn. apply runs_eq. unfold get_node. by rewrite Hn. Qed.
Lemma runs_RED Q : get (nodes m) n c k l r → ptr_ok l → Q c m → runs (RED n) m Q.
Proof. intros Hn Hl. by eapply runs_eq, RED_ok. Qed.
Lemma runs_SETRED Q : get (nodes m) n c k l r → ptr_ok l → Q tt (upd m n (enc true k l r)) → runs (SETRED n) m Q.
Proof. intros Hn Hl. by eapply runs_eq, SETRED_ok. Qed.
Lemma runs_SETBLACK Q : get (nodes m) n c k l r → ptr_ok l → Q tt (upd m n (enc false k l r)) → runs (SETBLACK n) m Q.
Proof. intros Hn Hl. by eapply runs_eq, SETBLACK_ok. Qed.
Lemma runs_LEFT Q : get (nodes m) n c k l r → ptr_ok l → Q l m → runs (LEFT n) m Q.
Proof. intros Hn Hl. by eapply runs_eq, LEFT_ok. Qed.
Lemma runs_RIGHT Q : get (nodes m) n c k l r → ptr_ok l → Q r m → runs (RIGHT n) m Q.
Proof. intros Hn Hl. by eapply runs_eq, RIGHT_ok. Qed.
Lemma runs_SETLEFT Q p : get (nodes m) n c k l r → ptr_ok l → ptr_ok p → Q tt (upd m n (enc c k p r)) → runs (SETLEFT n p) m Q.
Proof. intros Hn Hl Hp. by eapply runs_eq, SETLEFT_ok. Qed.
Lemma runs_SETRIGHT Q p : get (nodes m) n c k l r → ptr_ok l → Q tt (upd m n (enc c k l p)) → runs (SETRIGHT n p) m Q.
Proof. intros Hn Hl. by eapply runs_eq, SETRIGHT_ok. Qed.
Lemma runs_set_key Q k' : get (nodes m) n c k l r → ptr_ok l → Q tt (upd m n (enc c k' l r)) → runs (set_key n k') m Q.
Proof. intros Hn Hl. by eapply runs_eq, set_key_ok. Qed.
Lemma runs_DEREF_left Q : get (nodes m) n c k l r → ptr_ok l → Q l m → runs (DEREFNODEPTR (Leftp n)) m Q.
Proof. intros Hn Hl. by eapply runs_eq, DEREF_left. Qed.
Lemma runs_DEREF_right Q : get (nodes m) n c k l r → ptr_ok l → ptr_ok r → Q r m → runs (DEREFNODEPTR (Rightp n)) m Q.
Proof. intros Hn Hl Hr. by eapply runs_eq, DEREF_right. Qed.
Lemma runs_SETNODEPTR_left Q p : get (nodes m) n c k l r → ptr_ok l → ptr_ok p → Q tt (upd m n (enc c k p r)) → runs (SETNODEPTR (Leftp n) p) m Q.
Proof. intros Hn Hl Hp. by eapply runs_eq, SETNODEPTR_left. Qed.
Lemma runs_SETNODEPTR_right Q p : get (nodes m) n c k l r → ptr_ok l → ptr_ok r → ptr_ok p → Q tt (upd m n (enc c k l p)) → runs (SETNODEPTR (Rightp n) p) m Q.
Proof. intros Hn Hl Hr Hp. by eapply runs_eq, SETNODEPTR_right. Qed.
End rules.

(** A field of a node after some updates. *)
Ltac look := unfold get; repeat first [rewrite upd_eq | rewrite upd_ne by congruence]; first [eassumption | reflexivity].
Ltac okp := first [eassumption | exact ptr_ok_0].

Ltac tstep :=
  lazymatch goal with
  | |- runs (mbind _ _) _ _ => apply runs_bind; tstep
  | |- runs (get_node _) _ _ => eapply runs_get; [look|]
  | |- runs (RED _) _ _ => eapply runs_RED; [look|okp|]
  | |- runs (SETRED _) _ _ => eapply runs_SETRED; [look|okp|]
  | |- runs (SETBLACK _) _ _ => eapply runs_SETBLACK; [look|okp|]
  | |- runs (LEFT _) _ _ => eapply runs_LEFT; [look|okp|]
  | |- runs (RIGHT _) _ _ => eapply runs_RIGHT; [look|okp|]
  | |- runs (SETLEFT _ _) _ _ => eapply runs_SETLEFT; [look|okp|okp|]
  | |- runs (SETRIGHT _ _) _ _ => eapply runs_SETRIGHT; [look|okp|]
  | |- runs (set_key _ _) _ _ => eapply runs_set_key; [look|okp|]
  | |- runs (DEREFNODEPTR (Leftp _)) _ _ => eapply runs_DEREF_left; [look|okp|]
  | |- runs (DEREFNODEPTR (Rightp _)) _ _ => eapply runs_DEREF_right; [look|okp|okp|]
  | |- runs (SETNODEPTR (Leftp _) _) _ _ => eapply runs_SETNODEPTR_left; [look|okp|okp|]
  | |- runs (SETNODEPTR (Rightp _) _) _ _ => eapply runs_SETNODEPTR_right; [look|okp|okp|okp|]
  | |- runs (mret _) _ _ => apply runs_ret
  end; cbv beta.

(** The test of a pointer to a tree. *)
Definition empty (t : tree) : bool := match t with E => true | _ => false end.

Lemma ptr_null t : Forall addr_ok (addrs t) → (ptr t =? 0) = empty t.
Proof.
  destruct t as [|c l a k r]; [done|]. cbn [ptr empty]. rewrite addrs_node, Forall_cons. intros [[Ha _] _]. by apply Z.eqb_neq.
Qed.

Lemma rep_root h t : rep h t → Forall addr_ok (addrs t) → t = E ∨ ∃ c l a k r, t = N c l a k r ∧ get h a c k (ptr l) (ptr r) ∧ ptr_ok (ptr l) ∧ ptr_ok (ptr r).
Proof.
  destruct t as [|c l a k r]; [by left|]. intros (Hn & _) Hv. right. exists c, l, a, k, r. split; [done|]. split; [done|].
  rewrite addrs_node, Forall_cons, Forall_app in Hv. destruct Hv as (_ & Hl & Hr). split; by apply ptr_tree_ok.
Qed.

Lemma runs_RED_tree m t Q : rep (nodes m) t → t ≠ E → Forall addr_ok (addrs t) → Q (red t) m → runs (RED (ptr t)) m Q.
Proof.
  intros Hr Hne Hv HQ. destruct (rep_root _ _ Hr Hv) as [|(c & l & a & k & r & -> & Hn & Hl & _)]; [done|]. by eapply runs_RED.
Qed.

Lemma runs_is_red m t Q : rep (nodes m) t → Forall addr_ok (addrs t) → Q (red t) m → runs (is_red (ptr t)) m Q.
Proof.
  intros Hr Hv HQ. unfold is_red. rewrite ptr_null by done. destruct t as [|c l a k r]; [by apply runs_ret|].
  by apply runs_RED_tree.
Qed.

Lemma outer_unch l m m' C p : unch l m m' → root_var m' = root_var m → (∀ a, a ∈ caddrs C → a ∉ l) → outer m C p → outer m' C p.
Proof. intros Hu Hr Hd [H1 H2]. split; [by rewrite Hr|]. by eapply rep_ctx_unch. Qed.

Lemma runs_DEREF_ctx m C p Q : outer m C p → ptr_ok p → Forall addr_ok (caddrs C) → Q p m → runs (DEREFNODEPTR (slot_of C)) m Q.
Proof. intros H1 H2 H3 HQ. eapply runs_eq; [by apply (DEREF_ctx m C p)|done]. Qed.

Lemma runs_SETNODEPTR_ctx m C p p' Q :
  outer m C p → ptr_ok p → ptr_ok p' → NoDup (caddrs C) → Forall addr_ok (caddrs C) →
  (∀ m', outer m' C p' → unch (caddrs C) m m' → Q tt m') → runs (SETNODEPTR (slot_of C) p') m Q.
Proof. intros H1 H2 H3 H4 H5 HQ. destruct (SETNODEPTR_ctx m C p p' H1 H2 H3 H4 H5) as (m' & E & Ho & Hu). eapply runs_eq; [exact E|by apply HQ]. Qed.

(** Membership in an explicit list. *)
Ltac inlist := intros; rewrite ?elem_of_app, ?elem_of_cons, ?elem_of_app, ?elem_of_cons, ?elem_of_nil in *; tauto.
(** The updated nodes are among the ones listed. *)
Ltac unchs := repeat (apply unch_upd; [|inlist]); apply unch_refl.
