(* ===== verification/TsearchInsert.v ===== *)
(** * TsearchInsert: [tsearch] inserts into the sorted sequence and keeps the tree balanced *)

From S2P Require Import Prelude SortList Tsearch TsearchTree TsearchRep.
Local Open Scope Z_scope.

Definition sign_ok (d : dir) (v : Z) : Prop := match d with L => v < 0 | R => 0 < v end.

(** ** The rotations *)

Section rotate.
Context (d1 d2 : dir) (c1 c2 : bool) (l r s1 s2 : tree) (x kx p kp g kg : Z).

(** Node [x] below [p] below [g], and the three after the rotation. *)
Definition unrotated : tree := plug1 (Frame d2 c2 g kg s2) (plug1 (Frame d1 c1 p kp s1) (N true l x kx r)).
Definition rotated : tree :=
  match d1, d2 with
  | L, L => N false (N true l x kx r) p kp (N true s1 g kg s2)
  | R, R => N false (N true s2 g kg s1) p kp (N true l x kx r)
  | L, R => N false (N true s2 g kg l) x kx (N true r p kp s1)
  | R, L => N false (N true s1 p kp l) x kx (N true r g kg s2)
  end.

Lemma elems_rotated : elems rotated = elems unrotated.
Proof. unfold rotated, unrotated, plug1. destruct d1, d2; cbn; by simplify_list_eq. Qed.

Lemma addrs_unrotated : addrs unrotated ≡ₚ [g; p; x] ++ addrs l ++ addrs r ++ addrs s1 ++ addrs s2.
Proof. unfold unrotated, plug1. destruct d1, d2; cbn [fd fs fa fk fc]; rewrite !addrs_node; solve_Permutation. Qed.

Lemma addrs_rotated : addrs rotated ≡ₚ addrs unrotated.
Proof. unfold addrs. by rewrite elems_rotated. Qed.

(** A store that differs in the three nodes and the context only, with the rotated tree at
    the place. *)
Lemma rotated_at m m' C :
  at_ m C unrotated → unch ([g; p; x] ++ caddrs C) m m' → outer m' C (ptr rotated) →
  (rep (nodes m') l → rep (nodes m') r → rep (nodes m') s1 → rep (nodes m') s2 → rep (nodes m') rotated) →
  at_ m' C rotated ∧ unch (addrs (plug C unrotated)) m m'.
Proof.
  intros [_ _ H3 H4] Hu [Ho1 Ho2] Hr. apply good_plug in H4 as Hg. split.
  - destruct Hg as [Hnd _]. split; [done|done| |apply good_plug; apply good_plug in H4; by rewrite addrs_rotated].
    unfold unrotated in H3. apply rep_plug1 in H3 as (_ & H3 & R2). apply rep_plug1 in H3 as (_ & (_ & Rl & Rr) & R1).
    rewrite addrs_unrotated in Hnd. apply NoDup_app in Hnd as (Hnd & Hd' & _). apply NoDup_app in Hnd as (_ & Hd & _).
    apply Hr; (eapply rep_unch; [exact Hu| |done]); intros a Ha [Hin|Hin]%elem_of_app;
      [by apply (Hd a Hin); rewrite !elem_of_app; auto| |by apply (Hd a Hin); rewrite !elem_of_app; auto|
       |by apply (Hd a Hin); rewrite !elem_of_app; auto| |by apply (Hd a Hin); rewrite !elem_of_app; auto|];
      (apply (Hd' a); [rewrite !elem_of_app; auto 6|done]).
  - eapply unch_sub; [exact Hu|]. intros a Ha. rewrite addrs_plug, addrs_unrotated. rewrite !elem_of_app in *. tauto.
Qed.

End rotate.

Lemma split_rotate_ok d1 d2 c1 c2 l r s1 s2 x kx p kp g kg m C p_r gp_r :
  at_ m C (unrotated d1 d2 c1 c2 l r s1 s2 x kx p kp g kg) → sign_ok d1 p_r → sign_ok d2 gp_r →
  runs (split_rotate x (Rightp x) (Leftp x) (ptr r) (ptr l) (slot1 (Frame d2 c2 g kg s2)) (slot_of C) p_r gp_r) m
    (λ _ m', at_ m' C (rotated d1 d2 l r s1 s2 x kx p kp g kg) ∧
      unch (addrs (plug C (unrotated d1 d2 c1 c2 l r s1 s2 x kx p kp g kg))) m m').
Proof.
  intros Hat S1 S2. pose proof Hat as [H1 H2 H3 H4]. unfold unrotated in H1, H2, H3.
  apply rep_plug1 in H3 as (Hg & H3 & R2). apply rep_plug1 in H3 as (Hp & (Hx & Rl & Rr) & R1).
  rewrite ptr_plug1 in *. cbn [fa fs fd fc fk ptr] in *.
  pose proof (proj1 (good_plug _ _) H4) as [Hnd Hv]. rewrite addrs_unrotated in Hnd, Hv.
  assert (g ≠ p ∧ g ≠ x ∧ p ≠ x ∧ g ∉ caddrs C ∧ p ∉ caddrs C ∧ x ∉ caddrs C) as (Ngp & Ngx & Npx & Ng & Np & Nx).
  { cbn [app] in Hnd. rewrite !NoDup_cons, !elem_of_cons, !elem_of_app in Hnd. tauto. }
  apply NoDup_app in Hnd as (_ & Hd & Hnc).
  rewrite !Forall_app, !Forall_cons in Hv. destruct Hv as ((((_ & Vg) & (_ & Vp) & (_ & Vx) & _) & Vl & Vr & V1 & V2) & Vc).
  apply ptr_tree_ok in Vl, Vr, V1, V2. unfold split_rotate.
  eapply runs_bind, runs_eq; [by apply (DEREF_ctx m C g)|]. cbv beta.
  assert ((0 <? p_r) = match d1 with L => false | R => true end) as ->.
  { destruct d1; cbn in S1; [by apply Z.ltb_ge; lia|by apply Z.ltb_lt]. }
  assert ((0 <? gp_r) = match d2 with L => false | R => true end) as ->.
  { destruct d2; cbn in S2; [by apply Z.ltb_ge; lia|by apply Z.ltb_lt]. }
  assert ((p_r <? 0) = match d1 with L => true | R => false end) as ->.
  { destruct d1; cbn in S1; [by apply Z.ltb_lt|by apply Z.ltb_ge; lia]. }
  assert (∀ a, a ∈ caddrs C → a ∉ [g; p; x]) as Hdc by (intros a Ha; rewrite !elem_of_cons; intros [->|[->|[->|[]%not_elem_of_nil]]]; done).
  assert (outer m C g) as Ho by by split.
  destruct d1, d2; cbn [negb Bool.eqb slot1 fd fa]; unfold get1 in Hg, Hp; cbn [fd fa fk fs fc] in Hg, Hp.
  - tstep. eapply runs_bind, runs_SETNODEPTR_ctx; [done..|]. intros m1 Ho1 Hu1.
    unfold get in Hg, Hp, Hx. rewrite <- (Hu1 g) in Hg by done. rewrite <- (Hu1 p) in Hp by done. rewrite <- (Hu1 x) in Hx by done.
    repeat tstep. apply rotated_at; [done| | |].
    + eapply unch_trans; [eapply unch_sub; [exact Hu1|intros; inlist]|]. unchs.
    + apply (outer_unch [g; p; x] m1); [unchs|reflexivity|exact Hdc|exact Ho1].
    + intros. unfold rotated. cbn [rep ptr]. repeat split; try done; look.
  - repeat tstep. apply (runs_SETNODEPTR_ctx _ C g); [apply (outer_unch [g; p; x] m); [unchs|reflexivity|exact Hdc|by split]|done..|].
    intros m2 Ho2 Hu2. apply rotated_at; [done| |exact Ho2|].
    + eapply unch_trans; [|eapply unch_sub; [exact Hu2|intros; inlist]]. unchs.
    + intros. unfold rotated. cbn [rep ptr]. unfold get. rewrite !Hu2 by done. repeat split; try done; look.
  - repeat tstep. apply (runs_SETNODEPTR_ctx _ C g); [apply (outer_unch [g; p; x] m); [unchs|reflexivity|exact Hdc|by split]|done..|].
    intros m2 Ho2 Hu2. apply rotated_at; [done| |exact Ho2|].
    + eapply unch_trans; [|eapply unch_sub; [exact Hu2|intros; inlist]]. unchs.
    + intros. unfold rotated. cbn [rep ptr]. unfold get. rewrite !Hu2 by done. repeat split; try done; look.
  - tstep. eapply runs_bind, runs_SETNODEPTR_ctx; [done..|]. intros m1 Ho1 Hu1.
    unfold get in Hg, Hp, Hx. rewrite <- (Hu1 g) in Hg by done. rewrite <- (Hu1 p) in Hp by done. rewrite <- (Hu1 x) in Hx by done.
    repeat tstep. apply rotated_at; [done| | |].
    + eapply unch_trans; [eapply unch_sub; [exact Hu1|intros; inlist]|]. unchs.
    + apply (outer_unch [g; p; x] m1); [unchs|reflexivity|exact Hdc|exact Ho1].
    + intros. unfold rotated. cbn [rep ptr]. repeat split; try done; look.
Qed.

(** ** [maybe_split_for_insert] *)

Lemma runs_SETBLACK_tree m t Q :
  rep (nodes m) t → NoDup (addrs t) → Forall addr_ok (addrs t) →
  (∀ m', rep (nodes m') (blacken t) → unch (addrs t) m m' → root_var m' = root_var m → Q tt m') →
  runs (if negb (ptr t =? 0) then SETBLACK (ptr t) else mret ()) m Q.
Proof.
  intros Hr Hnd Hv HQ. rewrite ptr_null by done. destruct t as [|c l a k r]; cbn [empty negb ptr].
  { apply runs_ret, HQ; [done|apply unch_refl|done]. }
  destruct (rep_root _ _ Hr Hv) as [|(c' & l' & a' & k' & r' & [= <- <- <- <- <-] & Hn & Hl & Hr')]; [done|].
  destruct Hr as (_ & Rl & Rr). rewrite addrs_node, NoDup_cons, elem_of_app in Hnd. destruct Hnd as [Hni Hnd].
  eapply runs_SETBLACK; [done|done|]. assert (unch [a] m (upd m a (enc false k (ptr l) (ptr r)))) as Hu by unchs.
  apply HQ; [|eapply unch_sub; [exact Hu|]|done].
  - cbn [blacken rep]. split; [apply upd_eq|].
    split; (eapply rep_unch; [exact Hu|intros b Hb ->%list_elem_of_singleton; tauto|done]).
  - intros b ->%list_elem_of_singleton. rewrite addrs_node. by left.
Qed.

Definition recolour (t : tree) : tree :=
  match t with E => E | N _ l a k r => N true (blacken l) a k (blacken r) end.

Lemma elems_recolour t : elems (recolour t) = elems t.
Proof. destruct t; cbn; by rewrite ?elems_blacken. Qed.

(** The place and the tree after the split. *)
Definition split (C : list frame) (t : tree) : list frame * tree :=
  match C, t with
  | Frame d1 true p kp s1 :: Frame d2 c2 g kg s2 :: C, N _ l x kx r =>
      (C, rotated d1 d2 (blacken l) (blacken r) s1 s2 x kx p kp g kg)
  | _, _ => (C, recolour t)
  end.

Lemma elems_split C t : elems (plug (split C t).1 (split C t).2) = elems (plug C t).
Proof.
  assert (elems (plug C (recolour t)) = elems (plug C t)) as Hrec by by rewrite !elems_plug, elems_recolour.
  destruct C as [|[d1 [|] p kp s1] [|[d2 c2 g kg s2] C]], t as [|c l x kx r]; try exact Hrec; try done.
  cbn [split fst snd]. rewrite elems_plug, (elems_rotated _ _ true c2), <- elems_plug. exact Hrec.
Qed.

(** The variables of the caller point to the parent; if that is red, to the grandparent too. *)
Definition vars_ok (C : list frame) (parentp gparentp : option slot) (p_r gp_r : Z) : Prop :=
  match C with
  | [] => parentp = None
  | f1 :: C1 => parentp = Some (slot_of C1) ∧
      (fc f1 = true → match C1 with
        | [] => False
        | f2 :: C2 => gparentp = Some (slot_of C2) ∧ sign_ok (fd f1) p_r ∧ sign_ok (fd f2) gp_r end)
  end.

(** A node that is not split. *)
Lemma no_split_ok m C c l a k r parentp gparentp p_r gp_r Q :
  at_ m C (N c l a k r) → red l && red r = false → Q tt m →
  runs (maybe_split_for_insert (slot_of C) parentp gparentp p_r gp_r 0) m Q.
Proof.
  intros [H1 H2 (Hn & Rl & Rr) H4] Hred HQ. apply good_plug in H4 as [Hnd Hv]. rewrite addrs_node in Hv. cbn [app] in Hv.
  rewrite Forall_cons, !Forall_app in Hv. destruct Hv as ((_ & Va) & (Vl & Vr) & Vc).
  pose proof (ptr_tree_ok _ Vl). pose proof (ptr_tree_ok _ Vr). unfold maybe_split_for_insert.
  eapply runs_bind, (runs_DEREF_ctx _ _ a); [by split|done|done|]. cbv beta. do 2 tstep. cbn [Z.eqb].
  apply runs_bind. rewrite !ptr_null by done. destruct (empty r) eqn:Er; cbn [orb]; [by do 2 apply runs_ret|].
  destruct (empty l) eqn:El; cbn [orb]; [by do 2 apply runs_ret|].
  apply runs_bind, runs_RED_tree; [done|by intros ->|done|]. destruct (red r); [|by do 2 apply runs_ret].
  apply runs_RED_tree; [done|by intros ->|done|]. rewrite andb_true_r in Hred. rewrite Hred. by apply runs_ret.
Qed.

Lemma split_ok m C c l a k r parentp gparentp p_r gp_r mode :
  at_ m C (N c l a k r) → mode = 1 ∨ mode = 0 ∧ red l && red r = true → vars_ok C parentp gparentp p_r gp_r →
  runs (maybe_split_for_insert (slot_of C) parentp gparentp p_r gp_r mode) m
    (λ _ m', at_ m' (split C (N c l a k r)).1 (split C (N c l a k r)).2 ∧ unch (addrs (plug C (N c l a k r))) m m').
Proof.
  intros Hat Hmode Hvars. pose proof Hat as [H1 H2 (Hn & Rl & Rr) H4]. apply good_plug in H4 as [Hnd Hv]. rewrite addrs_node in Hnd, Hv. cbn [app] in Hnd, Hv.
  rewrite NoDup_cons, !NoDup_app in Hnd. destruct Hnd as (Ha & (Nl & Hlr & Nr) & Hlc & Nc). rewrite !elem_of_app in Ha.
  rewrite Forall_cons, !Forall_app in Hv. destruct Hv as ((_ & Va) & (Vl & Vr) & Vc).
  pose proof (ptr_tree_ok _ Vl). pose proof (ptr_tree_ok _ Vr). unfold maybe_split_for_insert.
  eapply runs_bind, (runs_DEREF_ctx _ _ a); [by split|done|done|]. cbv beta. do 2 tstep.
  apply runs_bind. apply runs_mono with (λ b m', b = true ∧ m' = m).
  { destruct Hmode as [->|[-> Hred]]; [by apply runs_ret|]. cbn [Z.eqb]. apply andb_true_iff in Hred as [Hl Hr].
    rewrite !ptr_null by done. destruct l as [|cl ll al kl rl], r as [|cr lr ar kr rr]; try done. cbn [empty orb].
    apply runs_bind, runs_RED_tree; [done|done|done|]. cbn in Hl, Hr. subst. cbn [red]. by apply runs_RED_tree. }
  intros b m' [-> ->]. tstep.
  set (m1 := upd m a (enc true k (ptr l) (ptr r))).
  assert (unch [a] m m1) as Hu1 by unchs.
  apply runs_bind, runs_SETBLACK_tree; [eapply rep_unch; [exact Hu1|intros b Hb ->%list_elem_of_singleton; tauto|done]|done|done|].
  intros m2 Rr2 Hu2 E2. apply runs_bind, runs_SETBLACK_tree;
    [eapply rep_unch; [exact Hu2|intros b Hb Hb'; by apply (Hlr b)|]; eapply rep_unch; [exact Hu1|intros b Hb ->%list_elem_of_singleton; tauto|done]|done|done|].
  intros m3 Rl3 Hu3 E3.
  assert (unch (a :: addrs l ++ addrs r) m m3) as Hu.
  { eapply unch_trans; [eapply unch_sub; [exact Hu1|intros; inlist]|].
    eapply unch_trans; [eapply unch_sub; [exact Hu2|intros; inlist]|]. eapply unch_sub; [exact Hu3|intros; inlist]. }
  assert (at_ m3 C (recolour (N c l a k r))) as Hat3.
  { split.
    - cbn [recolour ptr]. by rewrite E3, E2.
    - eapply rep_ctx_unch; [exact Hu| |done]. intros b Hb. rewrite elem_of_cons, elem_of_app. intros Hb'. apply (Hlc b); [rewrite elem_of_app|done].
      destruct Hb' as [->|Hb']; [tauto|done].
    - cbn [recolour rep]. unfold get. rewrite !ptr_blacken. split; [|split; [done|]].
      + rewrite (Hu3 a), (Hu2 a) by tauto. apply upd_eq.
      + eapply rep_unch; [exact Hu3| |done]. unfold addrs. rewrite elems_blacken. intros b Hb Hb'. by apply (Hlr b).
    - apply at_good in Hat. unfold good, addrs in Hat |- *. rewrite elems_plug in Hat |- *. rewrite elems_recolour. exact Hat. }
  assert (unch (addrs (plug C (N c l a k r))) m m3) as Hu'.
  { eapply unch_sub; [exact Hu|]. intros b Hb. rewrite addrs_plug, addrs_node, elem_of_app. by left. }
  destruct C as [|f1 C1]; cbn [vars_ok] in Hvars.
  { rewrite Hvars. apply runs_ret. by split. }
  destruct Hvars as [-> Hvars]. pose proof (at_ctx _ _ _ Hat3) as (Hp & Rs & HC1). cbn [recolour ptr] in Hp.
  pose proof (sibling_ok f1 C1 Vc) as Vs. pose proof Vc as Vc1. rewrite caddrs_cons, Forall_cons, Forall_app in Vc1. destruct Vc1 as ((_ & Vp) & _ & Vc1).
  eapply runs_bind, (runs_DEREF_ctx _ _ (fa f1)); [|done|done|].
  { split; [exact (at_root _ _ _ Hat3)|done]. }
  apply runs_bind. apply runs_mono with (λ b m', b = fc f1 ∧ m' = m3).
  { unfold get1 in Hp. destruct (fd f1); (eapply runs_RED; [exact Hp|done|done]). }
  intros b m' [-> ->]. destruct f1 as [d1 [|] p kp s1]; cbn [fc fa fd fs fk] in *.
  - destruct C1 as [|[d2 c2 g kg s2] C2]; [by destruct Hvars|]. destruct (Hvars eq_refl) as (-> & S1 & S2). cbn [fd] in *.
    pose proof (split_rotate_ok d1 d2 true c2 (blacken l) (blacken r) s1 s2 a k p kp g kg m3 C2 p_r gp_r) as Hrot.
    rewrite !ptr_blacken in Hrot. eapply runs_mono; [apply Hrot; [|done|done]|].
    + by do 2 apply at_move in Hat3.
    + intros _ m' [Hat' Hu'']. split; [exact Hat'|]. eapply unch_trans; [exact Hu'|]. eapply unch_sub; [exact Hu''|].
      intros b. unfold addrs. rewrite !elems_plug. cbn [before after]. unfold unrotated. rewrite !elems_plug1.
      change (N true (blacken l) a k (blacken r)) with (recolour (N c l a k r)). rewrite elems_recolour. by rewrite <- !(assoc_L (++)).
  - apply runs_ret. split; [|done]. by destruct C1.
Qed.

(** ** The invariant of the descent *)

Definition two_red (t : tree) : bool := match t with N _ l _ _ r => red l && red r | E => false end.

(** A place in a red-black tree. *)
Definition balanced (C : list frame) (t : tree) : Prop := ∃ c n, rb c n t ∧ rbx C c n.

(** A tree at which nothing will be split. *)
Definition calm (t : tree) : Prop := red t = false ∧ two_red t = false ∧ t ≠ E.

(** The parent is red and everything is ready for a rotation. *)
Definition full (C1 : list frame) (gparentp : option slot) (gp_r : Z) : Prop :=
  match C1 with
  | [] => False
  | f2 :: C2 => gparentp = Some (slot_of C2) ∧ sign_ok (fd f2) gp_r ∧ red (fs f2) = false
  end.

Record ready (C : list frame) (t : tree) (parentp gparentp : option slot) (p_r gp_r : Z) : Prop := Ready {
  rd_parent : match C with [] => parentp = None | f1 :: C1 => parentp = Some (slot_of C1) ∧ sign_ok (fd f1) p_r end;
  rd_gparent : match C with [] => True | f1 :: C1 => fc f1 = true → full C1 gparentp gp_r ∨ calm t end;
  rd_red : red t = true → match C with [] => False | f1 :: _ => red (fs f1) = false end }.

Lemma balanced_plug C t : balanced C t → ∃ c n, rb c n (plug C t).
Proof. intros (c & n & Ht & HC). by apply (rb_plug C c n t). Qed.

Lemma balanced_move C f t : balanced C (plug1 f t) ↔ balanced (f :: C) t.
Proof.
  unfold balanced. split.
  - intros (c & n & Ht & HC). destruct f as [d fc a k s]. unfold plug1 in Ht. cbn in Ht.
    destruct d; inv Ht; eexists _, _; (split; [eassumption|]); by econstructor.
  - intros (c & n & Ht & HC). destruct f as [d fc a k s]. unfold plug1. cbn.
    inv HC; (eexists _, _; split; [|eassumption]); destruct d; by econstructor.
Qed.

Lemma calm_blacken n t : rb true n t → calm (blacken t).
Proof. inversion 1; subst. cbn. split; [done|]. split; [|done]. cbn. erewrite rb_colour by eassumption. done. Qed.

(** Splitting keeps the tree balanced. *)
Lemma split_balanced C t n :
  rb true n (recolour t) → rbx C false n →
  match C with f1 :: C1 => fc f1 = true → match C1 with [] => False | f2 :: _ => red (fs f2) = false end | [] => True end →
  balanced (split C t).1 (split C t).2.
Proof.
  intros Ht HC Hp.
  destruct C as [|[d1 [|] p kp s1] C1].
  - exists true, n. split; [exact Ht|constructor].
  - destruct C1 as [|[d2 c2 g kg s2] C2]; [by destruct Hp|]. specialize (Hp eq_refl). cbn in Hp.
    inversion HC as [|? ? ? ? ? ? Hs1 HC1|]; subst. inversion HC1 as [| |? ? ? ? cs ? ? ? Hs2 HC2]; subst.
    assert (cs = false) as -> by (by erewrite <- (rb_colour cs) by eassumption).
    destruct t as [|c l x kx r]; [inv Ht|]. cbn [recolour] in Ht. inv Ht. exists false, (S n). split; [|exact HC2].
    cbn [split snd]. unfold rotated. destruct d1, d2; repeat (first [eassumption|eapply rb_black|eapply rb_red]).
  - inversion HC; subst. exists true, n. split; [exact Ht|]. by econstructor.
Qed.

(** The place of the node itself after a split: it may have changed places with the nodes
    above it. *)
Definition refocus (C : list frame) (t : tree) : list frame * tree :=
  match C, t with
  | Frame L true p kp s1 :: Frame L c2 g kg s2 :: C, N _ l x kx r => (Frame L false p kp (N true s1 g kg s2) :: C, recolour t)
  | Frame R true p kp s1 :: Frame R c2 g kg s2 :: C, N _ l x kx r => (Frame R false p kp (N true s2 g kg s1) :: C, recolour t)
  | _, _ => split C t
  end.

Lemma refocus_plug C t :
  refocus C t = split C t ∨ ∃ f D, refocus C t = (f :: D, recolour t) ∧ split C t = (D, plug1 f (recolour t)).
Proof.
  destruct C as [|[[|] [|] p kp s1] [|[[|] c2 g kg s2] C]]; try (left; reflexivity); destruct t as [|c l x kx r]; try (left; reflexivity);
    right; by eexists _, _.
Qed.

Lemma refocus_at m C t : at_ m (split C t).1 (split C t).2 ↔ at_ m (refocus C t).1 (refocus C t).2.
Proof. destruct (refocus_plug C t) as [->|(f & D & -> & ->)]; [done|]. apply at_move. Qed.

Lemma refocus_balanced C t : balanced (split C t).1 (split C t).2 ↔ balanced (refocus C t).1 (refocus C t).2.
Proof. destruct (refocus_plug C t) as [->|(f & D & -> & ->)]; [done|]. apply balanced_move. Qed.

Lemma refocus_elems C t : elems (plug (refocus C t).1 (refocus C t).2) = elems (plug C t).
Proof. rewrite <- (elems_split C t). destruct (refocus_plug C t) as [->|(f & D & -> & ->)]; done. Qed.

Lemma refocus_root C c l a ka r : ∃ c' l' r', (refocus C (N c l a ka r)).2 = N c' l' a ka r'.
Proof.
  destruct C as [|[[|] [|] p kp s1] [|[[|] c2 g kg s2] C]]; cbn; eauto.
Qed.

Lemma at_deref m C t Q : at_ m C t → Q (ptr t) m → runs (DEREFNODEPTR (slot_of C)) m Q.
Proof.
  intros [H1 H2 H3 H4] HQ. apply good_plug in H4 as [_ Hv]. rewrite Forall_app in Hv. destruct Hv as [Vt Vc].
  apply (runs_DEREF_ctx m C (ptr t)); [by split|by apply ptr_tree_ok|done|done].
Qed.

Lemma at_null m C t : at_ m C t → (ptr t =? 0) = empty t.
Proof. intros [_ _ _ H4]. apply good_plug in H4 as [_ Hv]. rewrite Forall_app in Hv. apply ptr_null, Hv. Qed.

Lemma at_runs_get m C c l a ka r Q : at_ m C (N c l a ka r) → (∀ x, key x = ka → Q x m) → runs (get_node a) m Q.
Proof. intros [_ _ (Hn & _) _] HQ. eapply runs_get; [exact Hn|by apply HQ]. Qed.

Lemma elems_in C c l a ka r : (a, ka) ∈ elems (plug C (N c l a ka r)).
Proof. rewrite elems_plug. cbn. rewrite !elem_of_app, elem_of_cons. auto. Qed.

Section descent.
Context (compar : Z → Z → Z) `{!CmpOrder compar} (k : Z).
Set Default Proof Using "All".

(** The way the code goes on from a node. *)
Definition child (C : list frame) (t : tree) : list frame * tree :=
  match t with
  | E => (C, E)
  | N c l a ka r => if compar k ka <? 0 then (Frame L c a ka r :: C, l) else (Frame R c a ka l :: C, r)
  end.

Lemma child_at m C t : at_ m C t → at_ m (child C t).1 (child C t).2.
Proof. intros H. destruct t as [|c l a ka r]; [done|]. cbn. destruct (compar k ka <? 0); [by apply at_left|by apply at_right]. Qed.

Lemma child_balanced C t : balanced C t → balanced (child C t).1 (child C t).2.
Proof.
  intros H. destruct t as [|c l a ka r]; [done|]. cbn.
  destruct (compar k ka <? 0); [by apply (balanced_move C (Frame L c a ka r))|by apply (balanced_move C (Frame R c a ka l))].
Qed.

Lemma child_elems C t : elems (plug (child C t).1 (child C t).2) = elems (plug C t).
Proof. destruct t as [|c l a ka r]; [done|]. cbn. by destruct (compar k ka <? 0). Qed.

Lemma child_slot C c l a ka r :
  (if compar k ka <? 0 then Leftp a else Rightp a) = slot_of (child C (N c l a ka r)).1.
Proof. cbn. by destruct (compar k ka <? 0). Qed.

Lemma child_height C c l a ka r : (height (child C (N c l a ka r)).2 < height (N c l a ka r))%nat.
Proof. cbn. destruct (compar k ka <? 0); cbn; lia. Qed.

Lemma child_frame C c l a ka r : compar k ka ≠ 0 → ∃ f, (child C (N c l a ka r)).1 = f :: C ∧ fc f = c ∧ fa f = a ∧
  sign_ok (fd f) (compar k ka) ∧ side_ok compar k f ∧ red (fs f) && red (child C (N c l a ka r)).2 = red l && red r.
Proof.
  intros Hne. unfold side_ok. cbn. destruct (compar k ka <? 0) eqn:E0; zb; (eexists; split; [reflexivity|]); cbn;
    (do 2 (split; [done|])); (split; [lia|]); (split; [lia|]); [apply andb_comm|done].
Qed.

(** A red node whose child on the path is calm. *)
Definition passing (C : list frame) (y : tree) : Prop :=
  match C with f :: C' => fc f = false | [] => False end ∧ red y = true ∧
  match y with N _ _ _ ka _ => compar k ka ≠ 0 | E => False end ∧ calm (child C y).2.

(** Going down where nothing is split. *)
Lemma step_plain C c l a ka r parentp gparentp p_r gp_r :
  ready C (N c l a ka r) parentp gparentp p_r gp_r → red l && red r = false → compar k ka ≠ 0 →
  let D := child C (N c l a ka r) in ready D.1 D.2 (Some (slot_of C)) parentp (compar k ka) p_r.
Proof.
  intros [H1 H2 H3] Hred Hne D. destruct (child_frame C c l a ka r Hne) as (f & Ef & Hc & _ & Hs & _ & Hsib). unfold D. rewrite Ef.
  split; [done| |].
  - intros Hf. left. rewrite Hc in Hf. cbn in H3. specialize (H3 Hf). destruct C as [|f1 C1]; [done|]. by destruct H1 as [-> ?].
  - intros Hy. rewrite Hred, Hy, andb_true_r in Hsib. done.
Qed.

(** Going down after a split. *)
Lemma step_split C c l a ka r parentp gparentp p_r gp_r :
  ready C (N c l a ka r) parentp gparentp p_r gp_r → balanced C (N c l a ka r) → path_ok compar k C →
  red l && red r = true → compar k ka ≠ 0 →
  let F := refocus C (N c l a ka r) in let D := child F.1 F.2 in
  balanced D.1 D.2 ∧ path_ok compar k D.1 ∧
  (ready D.1 D.2 (Some (slot_of C)) parentp (compar k ka) p_r ∧ calm D.2 ∧ (height D.2 < height (N c l a ka r))%nat ∨
   passing D.1 D.2 ∧ (height (child D.1 D.2).2 < height (N c l a ka r))%nat ∧
     match D.1 with f :: _ => sign_ok (fd f) (compar k ka) | [] => False end).
Proof.
  intros Hr Hb Hp Hred Hne F D. destruct Hb as (cc & n & Ht & HC). 
  apply andb_true_iff in Hred as [Hl Hr'].
  assert (∃ n', n = S n' ∧ c = false ∧ rb true n' l ∧ rb true n' r) as (n' & -> & -> & Rl & Rr).
  { inv Ht.
    - exfalso. match goal with H : rb false _ l |- _ => apply rb_colour in H; congruence end.
    - match goal with H : rb ?c1 _ l, H' : rb ?c2 _ r |- _ => pose proof (rb_colour _ _ _ H); pose proof (rb_colour _ _ _ H'); subst end.
      rewrite Hl, Hr' in *. eauto 6. }
  assert (match C with f1 :: C1 => fc f1 = true → match C1 with [] => False | f2 :: _ => red (fs f2) = false end | [] => True end) as Hfull.
  { destruct Hr as [_ H2 _]. destruct C as [|f1 C1]; [done|]. intros Hf1. destruct (H2 Hf1) as [Hf|(_ & Hf & _)].
    - unfold full in Hf. destruct C1; [done|apply Hf].
    - cbn in Hf. by rewrite Hl, Hr' in Hf. }
  split.
  { apply child_balanced, refocus_balanced. apply (split_balanced C _ (S n')); [|by eapply rbx_blacken|exact Hfull].
    cbn [recolour]. apply rb_red; by apply rb_blacken_S. }
  assert (∀ C', slot_of C' = slot_of C → path_ok compar k C' → let D := child C' (recolour (N false l a ka r)) in
    path_ok compar k D.1 ∧ (ready D.1 D.2 (Some (slot_of C)) parentp (compar k ka) p_r ∧ calm D.2 ∧ (height D.2 < height (N false l a ka r))%nat)) as Hplain.
  { intros C' Hs HpC' D'. destruct (child_frame C' true (blacken l) a ka (blacken r) Hne) as (f & Ef & _ & _ & Hsg & Hsd & _).
    assert (calm D'.2) as Hcalm by (unfold D'; cbn; destruct (compar k ka <? 0); cbn; by eapply calm_blacken).
    unfold D' in *. cbn [recolour] in *. rewrite Ef. split; [by constructor|]. split; [|split; [done|]].
    - split; [by rewrite <- Hs|by right|]. intros Hy. destruct Hcalm as (Hy' & _). congruence.
    - pose proof (child_height C' true (blacken l) a ka (blacken r)) as Hh. cbn [height] in *. by rewrite !height_blacken in Hh. }
  unfold D, F. clear D F. destruct C as [|[d1 [|] p kp s1] C1].
  - destruct (Hplain [] eq_refl Hp) as [H1 H2]. split; [exact H1|by left].
  - destruct C1 as [|[d2 c2 g kg s2] C2]; [by destruct Hfull|]. apply Forall_cons in Hp as [Hp1 Hp]. apply Forall_cons in Hp as [Hp2 Hp].
    unfold side_ok in Hp1, Hp2. cbn [fd fk] in Hp1, Hp2. destruct d1, d2; cbn [refocus].
    + destruct (Hplain (Frame L false p kp (N true s1 g kg s2) :: C2)) as [H1 H2]; [done|by constructor|]. split; [exact H1|by left].
    + assert ((compar k kg <? 0) = false) as Eg by (apply Z.ltb_ge; lia). assert ((compar k kp <? 0) = true) as Ep by (by apply Z.ltb_lt).
      unfold passing. cbn. destruct (compar k ka <? 0) eqn:Ea; cbn; rewrite ?Eg, ?Ep; cbn; zb.
      * split; [by constructor|]. right. split; [|rewrite height_blacken; lia]. do 2 (split; [done|]). split; [lia|by eapply calm_blacken].
      * split; [constructor; [unfold side_ok; cbn; lia|done]|]. right. split; [|rewrite height_blacken; lia]. do 2 (split; [done|]). split; [lia|by eapply calm_blacken].
    + assert ((compar k kp <? 0) = false) as Ep by (apply Z.ltb_ge; lia). assert ((compar k kg <? 0) = true) as Eg by (by apply Z.ltb_lt).
      unfold passing. cbn. destruct (compar k ka <? 0) eqn:Ea; cbn; rewrite ?Eg, ?Ep; cbn; zb.
      * split; [by constructor|]. right. split; [|rewrite height_blacken; lia]. do 2 (split; [done|]). split; [lia|by eapply calm_blacken].
      * split; [constructor; [unfold side_ok; cbn; lia|done]|]. right. split; [|rewrite height_blacken; lia]. do 2 (split; [done|]). split; [lia|by eapply calm_blacken].
    + destruct (Hplain (Frame R false p kp (N true s2 g kg s1) :: C2)) as [H1 H2]; [done|by constructor|]. split; [exact H1|by left].
  - destruct (Hplain (Frame d1 false p kp s1 :: C1) eq_refl Hp) as [H1 H2]. 
    assert (refocus (Frame d1 false p kp s1 :: C1) (N false l a ka r) = (Frame d1 false p kp s1 :: C1, recolour (N false l a ka r))) as -> by by destruct d1.
    split; [exact H1|by left].
Qed.

(** ** The loop *)

(** A place on the way to the key in a tree with the elements [els]. *)
Record place (els : list (Z * Z)) (m : store) (C : list frame) (t : tree) : Prop := Place {
  pl_at : at_ m C t;
  pl_balanced : balanced C t;
  pl_path : path_ok compar k C;
  pl_elems : elems (plug C t) = els }.

(** What the loop ends in. *)
Definition descent_ok (els : list (Z * Z)) (d : descent) (m : store) : Prop :=
  match d with
  | Found a => ∃ t, at_ m [] t ∧ balanced [] t ∧ elems t = els ∧ ∃ ka, (a, ka) ∈ els ∧ compar k ka = 0
  | Missing nextp rootp parentp r p_r => ∃ f C, place els m (f :: C) E ∧ nextp = slot_of (f :: C) ∧ rootp = slot_of C ∧ sign_ok (fd f) r ∧
      match C with [] => parentp = None | f1 :: C1 => parentp = Some (slot_of C1) ∧ sign_ok (fd f1) p_r end ∧
      (fc f = true → match C with [] => False | f1 :: _ => red (fs f1) = false end)
  end.

Lemma child_place els m C t : place els m C t → match t with N _ _ _ ka _ => compar k ka ≠ 0 | E => False end →
  place els m (child C t).1 (child C t).2.
Proof.
  intros [H1 H2 H3 H4] Hne. split; [by apply child_at|by apply child_balanced| |by rewrite child_elems].
  destruct t as [|c l a ka r]; [done|]. destruct (child_frame C c l a ka r Hne) as (f & -> & _ & _ & _ & Hs & _). by constructor.
Qed.

(** The node below the current one, and what the caller knows when it goes there. *)
Definition going (C : list frame) (t : tree) (parentp gparentp : option slot) (p_r gp_r : Z) (n : nat) : Prop :=
  ready C t parentp gparentp p_r gp_r ∧ (2 * height t <= n)%nat ∨
  passing C t ∧ (2 * height (child C t).2 + 1 <= n)%nat ∧ match C with f :: _ => sign_ok (fd f) p_r | [] => False end.

(** One round: the splitting, and the next place. *)
Lemma round_ok els m C c l a ka r parentp gparentp p_r gp_r n :
  place els m C (N c l a ka r) → going C (N c l a ka r) parentp gparentp p_r gp_r (S n) → compar k ka ≠ 0 →
  runs (maybe_split_for_insert (slot_of C) parentp gparentp p_r gp_r 0) m (λ _ m', unch els.*1 m m' ∧
    ∃ D y, (if compar k ka <? 0 then Leftp a else Rightp a) = slot_of D ∧ place els m' D y ∧
      (y ≠ E → going D y (Some (slot_of C)) parentp (compar k ka) p_r n) ∧
      (y = E → descent_ok els (Missing (slot_of D) (slot_of C) parentp (compar k ka) p_r) m')).
Proof.
  intros Hpl Hgo Hne. pose proof Hpl as [Hat Hb Hp Hel]. destruct Hgo as [[Hr Hn]|(Hpass & Hn & Hsg)].
  - destruct (red l && red r) eqn:Hred.
    + eapply runs_mono; [apply split_ok; [exact Hat|by right|]|].
      { destruct Hr as [H1 H2 _]. destruct C as [|f1 C1]; [done|]. destruct H1 as [-> Hs]. split; [done|]. intros Hf.
        destruct (H2 Hf) as [Hfull|(_ & Hno & _)]; [|cbn in Hno; congruence].
        destruct C1 as [|f2 C2]; [done|]. by destruct Hfull as (-> & ? & _). }
      intros _ m' [Hat' Hu]. apply refocus_at in Hat'. split; [eapply unch_sub; [exact Hu|]; by rewrite <- Hel|].
      destruct (step_split C c l a ka r _ _ _ _ Hr Hb Hp Hred Hne) as (Hb' & Hp' & Hcase).
      destruct (refocus_root C c l a ka r) as (c' & l' & r' & Er). pose proof (refocus_elems C (N c l a ka r)) as Hel'.
      destruct (refocus C (N c l a ka r)) as [C' t'] eqn:EF. cbn [fst snd] in *. subst t'.
      exists (child C' (N c' l' a ka r')).1, (child C' (N c' l' a ka r')).2. split; [apply child_slot|]. split.
      { split; [by apply child_at|done|done|]. by rewrite child_elems, Hel'. }
      split.
      * intros _. destruct Hcase as [(H1 & _ & Hh)|(H1 & Hh & H2)]; [left; split; [done|lia]|right; split; [done|split; [lia|done]]].
      * intros Hy. exfalso. destruct Hcase as [(_ & (_ & _ & H1) & _)|((_ & H1 & _) & _)]; [by apply H1|by rewrite Hy in H1].
    + eapply no_split_ok; [exact Hat|exact Hred|]. split; [apply unch_refl|].
      pose proof (child_place els m C _ Hpl Hne) as Hpl'. pose proof (child_height C c l a ka r) as Hh.
      exists (child C (N c l a ka r)).1, (child C (N c l a ka r)).2. split; [apply child_slot|]. split; [done|]. split.
      * intros _. left. split; [by apply (step_plain C c l a ka r _ gparentp _ gp_r)|lia].
      * intros Hy. destruct (child_frame C c l a ka r Hne) as (f & Ef & Hc & _ & Hs & _). rewrite Ef in *. rewrite Hy in Hpl'. exists f, C.
        destruct Hr as [H1 H2 H3]. do 4 (split; [done|]). split; [done|]. intros Hf. apply H3. cbn. congruence.
  - destruct Hpass as (Hf & Hred & _ & Hcalm). cbn in Hred. subst c. 
    assert (red l && red r = false) as Hlr.
    { destruct Hb as (c' & n' & Ht & _). inv Ht. match goal with H : rb false _ l |- _ => by rewrite (rb_colour _ _ _ H) end. }
    eapply no_split_ok; [exact Hat|exact Hlr|]. split; [apply unch_refl|].
    pose proof (child_place els m C _ Hpl Hne) as Hpl'. 
    exists (child C (N true l a ka r)).1, (child C (N true l a ka r)).2. split; [apply child_slot|]. split; [done|].
    destruct (child_frame C true l a ka r Hne) as (f & Ef & Hc & _ & Hs & _). rewrite Ef in *.
    split; [|intros Hy; by destruct Hcalm as (_ & _ & Hcalm)]. intros _. left. split; [|lia]. split.
    + done.
    + intros _. by right.
    + intros Hy. destruct Hcalm as (Hy' & _). congruence.
Qed.

Lemma tsearch_loop_ok els fuel : ∀ m C t parentp gparentp r p_r gp_r,
  place els m C t → t ≠ E → going C t parentp gparentp p_r gp_r fuel →
  runs (tsearch_loop compar fuel k (slot_of C) parentp gparentp (slot_of C) r p_r gp_r) m (λ d m', unch els.*1 m m' ∧ descent_ok els d m').
Proof.
  induction fuel as [|fuel IH]; intros m C t parentp gparentp r p_r gp_r Hpl Hne Hgo.
  { exfalso. destruct t as [|c l a ka r']; [done|]. destruct Hgo as [[_ Hn]|(_ & Hn & _)]; cbn [height] in Hn; lia. }
  destruct t as [|c l a ka r']; [done|]. cbn [tsearch_loop]. pose proof Hpl as [Hat Hb Hp Hel].
  apply runs_bind. eapply at_deref; [exact Hat|]. rewrite (at_null _ _ _ Hat). cbn [empty].
  apply runs_bind. eapply at_deref; [exact Hat|]. cbn [ptr]. apply runs_bind. eapply at_runs_get; [exact Hat|]. intros x ->.
  destruct (compar k ka =? 0) eqn:E0; zb.
  { apply runs_ret. split; [apply unch_refl|]. exists (plug C (N c l a ka r')). split; [by apply at_plug|].
    destruct (balanced_plug _ _ Hb) as (c' & n' & Hrb). split; [exists c', n'; split; [done|constructor]|]. split; [done|].
    exists ka. split; [rewrite <- Hel; apply elems_in|done]. }
  apply runs_bind. eapply runs_mono; [by apply (round_ok els m C c l a ka r' parentp gparentp p_r gp_r fuel)|].
  intros _ m' (Hu & D & y & -> & Hpl' & Hgo' & Hmiss). pose proof (pl_at _ _ _ _ Hpl') as Hat'.
  apply runs_bind. eapply at_deref; [exact Hat'|]. rewrite (at_null _ _ _ Hat'). destruct y as [|cy ly ay ky ry]; cbn [empty].
  - apply runs_ret. split; [done|]. by apply Hmiss.
  - eapply runs_mono; [by apply (IH m' D (N cy ly ay ky ry)); [| |apply Hgo']|]. intros d m'' [Hu' Hd]. split; [|done]. by eapply unch_trans.
Qed.
End descent.

(** ** [tsearch] *)

(** The root variable holds a red-black tree with the elements [els] in order. *)
Definition tree_of (compar : Z → Z → Z) (m : store) (els : list (Z * Z)) : Prop :=
  ∃ t, at_ m [] t ∧ balanced [] t ∧ elems t = els ∧ sorted compar els.

(** [malloc] returns aligned addresses that are not in use. *)
Definition malloc_ok (malloc : gmap Z node_t → option (Z * node_t)) : Prop :=
  ∀ h q x, malloc h = Some (q, x) → addr_ok q ∧ h !! q = None.

Lemma height_length t : (height t <= length (elems t))%nat.
Proof. induction t as [|c l IHl a k r IHr]; cbn; [lia|]. rewrite length_app. cbn. lia. Qed.

Lemma elem_address (a k : Z) (els : list (Z * Z)) : (a, k) ∈ els → a ∈ els.*1.
Proof. intros H. apply list_elem_of_fmap. by exists (a, k). Qed.

(** Every node of a tree is in the store. *)
Lemma rep_some h t a : rep h t → a ∈ addrs t → h !! a ≠ None.
Proof.
  induction t as [|c l IHl b k r IHr]; [intros _ []%not_elem_of_nil|]. intros (Hn & Rl & Rr).
  rewrite addrs_node, elem_of_cons, elem_of_app. intros [->|[?|?]]; [by rewrite Hn|auto..].
Qed.

Lemma at_some m C t a : at_ m C t → a ∈ addrs (plug C t) → nodes m !! a ≠ None.
Proof. intros [_ _ H _]%at_plug. by apply rep_some. Qed.

(** The new node, linked to the place of a null pointer. *)
Lemma link_ok m F q x k (G : T unit) Q :
  at_ m F E → addr_ok q → nodes m !! q = None →
  (∀ m', at_ m' F (N true E q k E) → unch (q :: addrs (plug F E)) m m' → runs G m' Q) →
  runs ((if Z.land q 1 =? 0 then mret () else stuck);; SETNODEPTR (slot_of F) q;; set_key q k;; SETRED q;; SETLEFT q 0;; SETRIGHT q 0;; G)
    (Store (<[q := x]> (nodes m)) (root_var m)) Q.
Proof.
  intros Hat Hq Hfresh HG. pose proof Hat as [H1 H2 _ H4]. apply good_plug in H4 as [Hnd Hv]. cbn [app] in Hnd, Hv.
  assert (q ∉ caddrs F) as Hnin.
  { intros Hin. apply (at_some m F E q Hat); [|done]. rewrite addrs_plug. done. }
  set (m1 := Store _ _). assert (unch [q] m m1) as Hu1.
  { intros a Ha. apply lookup_insert_ne. intros ->. apply Ha. by left. }
  assert ((Z.land q 1 =? 0) = true) as ->.
  { pose proof (land_tag q false (proj2 (proj2 Hq))) as E0. cbn in E0. rewrite Z.add_0_r in E0. by rewrite E0. }
  apply runs_bind, runs_ret, runs_bind, (runs_SETNODEPTR_ctx _ F 0);
    [apply (outer_unch [q] m); [done|done|by intros a Ha ->%list_elem_of_singleton|by split]|done|apply Hq|done|done|].
  intros m2 Ho2 Hu2. assert (nodes m2 !! q = Some x) as Hx by (rewrite Hu2 by done; apply lookup_insert_eq).
  set (m3 := upd (upd (upd (upd m2 q (Node k (left_node x) (right_node x))) q (Node k (Z.lor (left_node x) 1) (right_node x)))
    q (Node k (Z.lor (Z.land (Z.lor (left_node x) 1) 1) 0) (right_node x))) q (Node k (Z.lor (Z.land (Z.lor (left_node x) 1) 1) 0) 0)).
  assert (Node k (Z.lor (Z.land (Z.lor (left_node x) 1) 1) 0) 0 = enc true k 0 0) as Eenc.
  { unfold enc. f_equal. rewrite Z.lor_0_r.
    change (0 + Z.b2z true) with 1. apply Z.bits_inj. intros i. rewrite Z.land_spec, Z.lor_spec. by destruct (Z.testbit 1 i), (Z.testbit (left_node x) i). }
  assert (unch [q] m2 m3) as Hu3 by (unfold m3; unchs).
  assert (nodes m3 !! q = Some (enc true k 0 0)) as Hq3 by (unfold m3; by rewrite upd_eq, Eenc).
  assert (unch (q :: caddrs F) m m3) as Hu.
  { eapply unch_trans; [eapply unch_sub; [exact Hu1|inlist]|]. eapply unch_trans; [eapply unch_sub; [exact Hu2|inlist]|]. eapply unch_sub; [exact Hu3|inlist]. }
  eapply runs_bind, runs_eq; [exact (modify_ok _ q x _ Hx)|].
  do 2 (eapply runs_bind, runs_eq; [exact (modify_ok _ q _ _ (upd_eq _ _ _))|]).
  eapply runs_bind, runs_eq; [exact (modify_ok _ q _ _ (upd_eq _ _ _))|]. apply (HG m3).
  - split.
    + exact (proj1 Ho2).
    + eapply rep_ctx_unch; [exact Hu3| |exact (proj2 Ho2)]. by intros a Ha ->%list_elem_of_singleton.
    + cbn [rep]. split; [exact Hq3|done].
    + apply good_plug. rewrite addrs_node. cbn [app]. rewrite NoDup_cons, Forall_cons. done.
  - eapply unch_sub; [exact Hu|]. intros a. rewrite addrs_plug. done.
Qed.

Section tsearch.
Context (compar : Z → Z → Z) `{!CmpOrder compar} (malloc : gmap Z node_t → option (Z * node_t)) (Hmalloc : malloc_ok malloc).
Set Default Proof Using "All".

(** What [tsearch] leaves when the key is not there: a failure of [malloc], or one more
    element. *)
Definition inserted (m : store) (els : list (Z * Z)) (k q : Z) (m' : store) : Prop :=
  (q = 0 ∧ (∃ h, malloc h = None) ∧ tree_of compar m' els ∧ unch els.*1 m m') ∨
  (addr_ok q ∧ nodes m !! q = None ∧ (∃ l1 l2, els = l1 ++ l2 ∧ tree_of compar m' (l1 ++ (q, k) :: l2)) ∧ unch (q :: els.*1) m m').

Lemma sorted_insert k C t :
  path_ok compar k C → sorted compar (elems (plug C E)) → elems t = [(ptr t, k)] → sorted compar (elems (plug C t)).
Proof.
  intros Hp Hs Ht. rewrite elems_plug in *. rewrite Ht. cbn [elems app] in *. apply sorted_middle; [done|].
  split; [done|]. split; intros y Hy; unfold below; cbn.
  - apply compar_flip; [done|]. pose proof (path_before compar k C _ Hp Hs y Hy). lia.
  - exact (path_after compar k C _ Hp Hs y Hy).
Qed.

Lemma runs_malloc m Q :
  (malloc (nodes m) = None → Q 0 m) →
  (∀ q x, addr_ok q → nodes m !! q = None → Q q (Store (<[q := x]> (nodes m)) (root_var m))) → runs (call_malloc malloc) m Q.
Proof.
  intros H0 H1. unfold runs, call_malloc. destruct (malloc (nodes m)) as [[q x]|] eqn:Em.
  - destruct (Hmalloc _ _ _ Em). eexists _, _. split; [reflexivity|]. by apply H1.
  - eexists _, _. split; [reflexivity|]. by apply H0.
Qed.

Lemma tsearch_ok m els k fuel :
  tree_of compar m els → (2 * length els < fuel)%nat →
  runs (tsearch compar fuel malloc k (Some Rootp)) m (λ q m',
    (∃ kq, (q, kq) ∈ els ∧ compar k kq = 0 ∧ tree_of compar m' els ∧ unch els.*1 m m') ∨
    (∀ x, x ∈ els → compar k x.2 ≠ 0) ∧ inserted m els k q m').
Proof.
  intros (t & Hat & Hb & Hel & Hs) Hf. unfold tsearch. apply runs_bind. eapply (at_deref _ [] t); [exact Hat|].
  apply runs_bind. pose proof Hat as [Hr1 _ Hr3 [Hnd Hv]]. cbn [plug] in Hnd, Hv.
  apply runs_SETBLACK_tree; [done..|]. intros m1 Hr Hu1 Hroot.
  assert (at_ m1 [] (blacken t)) as Hat1.
  { split; [by rewrite Hroot, ptr_blacken|done|done|]. unfold good, addrs in *. cbn [plug]. by rewrite elems_blacken. }
  assert (balanced [] (blacken t)) as Hb1.
  { destruct Hb as (c & n & Ht & _). destruct (rb_blacken c n t Ht) as [n' Hn']. exists false, n'. split; [done|constructor]. }
  assert (unch els.*1 m m1) as Hu by by rewrite <- Hel.
  clear Hr Hu1 Hroot Hr1 Hr3 Hnd Hv. apply runs_bind. destruct t as [|c l a ka r]; cbn [blacken] in *.
  - destruct fuel as [|fuel]; [lia|]. cbn [tsearch_loop]. apply runs_bind. eapply (at_deref m1 [] E); [exact Hat1|]. cbn [ptr Z.eqb].
    apply runs_ret, runs_bind, runs_malloc; subst els.
    + intros Em. cbn [negb Z.eqb]. apply runs_bind, runs_ret, runs_ret. right. split; [by intros y []%not_elem_of_nil|].
      left. split; [done|]. split; [by eexists|]. split; [|done]. exists E. done.
    + intros q x Hq Hfr. rewrite (proj2 (Z.eqb_neq _ _) (proj1 Hq)). cbn [negb].
      apply runs_bind. rewrite bool_decide_true by done. cbn [negb]. apply (link_ok m1 [] q x k); [done|done|done|].
      intros m' Hat' Hu'. apply runs_ret, runs_ret. right. split; [by intros y []%not_elem_of_nil|]. right. split; [done|].
      split; [rewrite <- (Hu q); [done|by apply not_elem_of_nil]|]. split; [|eapply unch_trans; [eapply unch_sub; [exact Hu|by intros b []%not_elem_of_nil]|exact Hu']].
      exists [], []. split; [done|]. exists (N true E q k E). split; [done|]. split; [exists true, 0%nat; split; [repeat constructor|constructor]|].
      split; [done|]. by repeat constructor.
  - apply runs_mono with (λ d m', unch els.*1 m m' ∧ descent_ok compar k els d m').
    { eapply runs_mono; [apply (tsearch_loop_ok compar k els fuel m1 [] (N false l a ka r)); [|done|]|].
      - split; [done|done|constructor|exact Hel].
      - left. split; [by split|]. pose proof (height_length (N false l a ka r)) as Hh. cbn [plug] in *. change (elems (N false l a ka r)) with (elems (N c l a ka r)) in Hh.
        rewrite Hel in Hh. lia.
      - intros d m' [H1 H2]. split; [|done]. by eapply unch_trans. }
    clear Hu Hat1 Hb1 Hat Hb m1. intros d m1 [Hu Hd]. destruct d as [q|nextp rootp parentp r0 p_r]; cbn in Hd.
    + destruct Hd as (t' & H1 & H2 & H3 & kq & H4 & H5). apply runs_ret. left. exists kq. split; [done|]. split; [done|]. split; [|done].
      by exists t'.
    + destruct Hd as (f & C & Hpl & -> & -> & Hsg & Hpar & Huncle). destruct Hpl as [Hat Hb Hp Hel'].
      assert (∀ y, y ∈ els → compar k y.2 ≠ 0) as Habs.
      { intros y Hy. rewrite <- Hel', elems_plug in Hy, Hs. cbn [elems app] in Hy, Hs. apply elem_of_app in Hy as [Hy|Hy].
        - pose proof (path_before compar k _ _ Hp Hs y Hy). lia.
        - pose proof (path_after compar k _ _ Hp Hs y Hy). lia. }
      apply runs_bind, runs_malloc.
      * intros Em. cbn [negb Z.eqb]. apply runs_bind, runs_ret, runs_ret. right. split; [done|]. left. split; [done|]. split; [by eexists|].
        split; [|done]. exists (plug (f :: C) E). split; [by apply at_plug|]. split; [|done].
        destruct (balanced_plug _ _ Hb) as (c' & n' & Ht'). exists c', n'. split; [done|constructor].
      * intros q x Hq Hfr. rewrite (proj2 (Z.eqb_neq _ _) (proj1 Hq)). cbn [negb]. rewrite bool_decide_false.
        2: { destruct Hat as [_ _ _ H4]. apply good_plug in H4 as [Hnd _]. cbn [app addrs elems fmap list_fmap] in Hnd. clear -Hnd. cbn. intros He.
             unfold addrs in Hnd. cbn [elems fmap list_fmap app] in Hnd. rewrite caddrs_cons, NoDup_cons in Hnd. destruct Hnd as [Hnin _]. apply Hnin, elem_of_app. right.
             destruct C as [|f1 C1]; unfold slot_of, slot1 in He; [by destruct (fd f)|].
             assert (fa f = fa f1) as -> by (destruct (fd f), (fd f1); congruence). apply caddrs_head. }
        cbn [negb]. apply runs_bind, (link_ok m1 (f :: C) q x k); [done|done|done|].
        intros m2 Hat2 Hu2. eapply runs_mono; [apply (split_ok m2 (f :: C)); [exact Hat2|by left|]|].
        { split; [done|]. intros Hf'. specialize (Huncle Hf'). destruct C as [|f1 C1]; [done|]. by destruct Hpar as [-> ?]. }
        intros _ m3 [Hat3 Hu3]. apply runs_ret. right. split; [done|]. right. split; [done|].
        assert (els.*1 = addrs (plug (f :: C) E)) as Hea by (by unfold addrs; rewrite Hel').
        assert (∀ b, b ∈ q :: addrs (plug (f :: C) E) → b ∈ q :: els.*1) as Hsub by (by rewrite Hea).
        split; [|split].
        -- rewrite <- (Hu q); [done|]. intros Hin. rewrite Hea in Hin. by apply (at_some _ _ _ q Hat Hin).
        -- exists (before (f :: C)), (after (f :: C)). split; [by rewrite <- Hel', elems_plug|].
           set (S := split (f :: C) (N true E q k E)) in *. pose proof (elems_split (f :: C) (N true E q k E)) as Hes. fold S in Hes.
           exists (plug S.1 S.2). split; [by apply at_plug|]. split; [|split].
           ++ destruct (balanced_plug S.1 S.2) as (c' & n' & Ht'); [|exists c', n'; split; [done|constructor]].
              destruct Hb as (c' & n' & Ht' & HC'). inv Ht'. apply (split_balanced (f :: C) (N true E q k E) 0); [repeat constructor|exact HC'|].
              intros Hf'. specialize (Huncle Hf'). by destruct C.
           ++ rewrite Hes, elems_plug. done.
           ++ rewrite <- Hel' in Hs. pose proof (sorted_insert k (f :: C) (N true E q k E) Hp Hs eq_refl) as Hs'. by rewrite elems_plug in Hs'.
        -- eapply unch_trans; [eapply unch_sub; [exact Hu|intros; by right]|]. eapply unch_trans; [eapply unch_sub; [exact Hu2|done]|].
           eapply unch_sub; [exact Hu3|]. intros b Hb'. apply Hsub. rewrite addrs_plug, addrs_node in Hb'. by rewrite addrs_plug.
Qed.
End tsearch.
