(* ===== verification/TsearchDelete.v ===== *)
(** * TsearchDelete: [tdelete] removes from the sorted sequence and balances the tree *)

From S2P Require Import Prelude SortList Tsearch TsearchTree TsearchRep TsearchInsert.
Local Open Scope Z_scope.

(** ** Changing the top of a tree *)

(** The addresses of [T] are those of the nodes [ns] and of the subtrees [ts]. *)
Definition made_of (T : tree) (ns : list Z) (ts : list tree) : Prop := addrs T ≡ₚ ns ++ concat (addrs <$> ts).

Section local.
Context (m : store) (C : list frame) (T : tree) (ns : list Z) (ts : list tree).
Context (Hat : at_ m C T) (Hmade : made_of T ns ts).
Set Default Proof Using "All".

Lemma local_facts :
  NoDup ns ∧ Forall (λ a, addr_ok a ∧ a ∉ caddrs C) ns ∧ Forall (λ t, Forall addr_ok (addrs t)) ts ∧ NoDup (caddrs C) ∧ Forall addr_ok (caddrs C).
Proof.
  destruct Hat as [_ _ _ H4]. apply good_plug in H4 as [Hnd Hv]. unfold made_of in Hmade. rewrite Hmade in Hnd, Hv.
  apply NoDup_app in Hnd as (Hnd & Hd & Hnc). apply NoDup_app in Hnd as (Hns & _ & _).
  rewrite !Forall_app in Hv. destruct Hv as ((Hv1 & Hv2) & Hvc). split; [done|]. split; [|split; [|done]].
  - apply Forall_forall. rewrite Forall_forall in Hv1. intros a Ha. split; [by apply Hv1|]. apply Hd, elem_of_app. by left.
  - apply Forall_forall. rewrite Forall_forall in Hv2. intros t Ht. apply Forall_forall. intros a Ha. apply Hv2, list_elem_of_In, in_concat.
    exists (addrs t). split; [|by apply list_elem_of_In]. apply list_elem_of_In, list_elem_of_fmap. by exists t.
Qed.

Lemma local_change m' T' :
  unch (ns ++ caddrs C) m m' → outer m' C (ptr T') → elems T' = elems T →
  (Forall (λ t, rep (nodes m) t → rep (nodes m') t) ts → rep (nodes m') T') →
  at_ m' C T' ∧ unch (addrs (plug C T)) m m'.
Proof.
  intros Hu [Ho1 Ho2] Hel Hrep. pose proof Hat as [_ _ _ H4]. pose proof (proj1 (good_plug _ _) H4) as [Hnd _].
  unfold made_of in Hmade. rewrite Hmade in Hnd. apply NoDup_app in Hnd as (Hnd & Hd & _). apply NoDup_app in Hnd as (_ & Hd' & _).
  split.
  - split; [done|done| |].
    + apply Hrep, Forall_forall. intros t Ht. apply (rep_unch _ _ _ _ Hu). intros a Ha.
      assert (a ∈ concat (addrs <$> ts)) as Hin.
      { apply list_elem_of_In, in_concat. exists (addrs t). split; [|by apply list_elem_of_In]. apply list_elem_of_In, list_elem_of_fmap. by exists t. }
      intros [Ha'|Ha']%elem_of_app; [by apply (Hd' a)|]. apply (Hd a); [apply elem_of_app; by right|done].
    + unfold good, addrs in *. rewrite elems_plug in H4 |- *. by rewrite Hel.
  - eapply unch_sub; [exact Hu|]. intros a. rewrite addrs_plug, Hmade, !elem_of_app. tauto.
Qed.
End local.

(** A node seen from the side of its deficient successor. *)
Definition nd (d : dir) (c : bool) (near : tree) (a k : Z) (far : tree) : tree :=
  match d with L => N c near a k far | R => N c far a k near end.

Definition rotate_red (d : dir) := match d with L => rotate_red_left | R => rotate_red_right end.
Definition raise (d : dir) := match d with L => raise_left | R => raise_right end.
Definition rotate (d : dir) := match d with L => rotate_left | R => rotate_right end.
Definition balance (d : dir) := match d with L => balance_left | R => balance_right end.

(** The facts about a tree with nodes [ns] and subtrees [ts]. *)
Ltac open_local Hat Hmade :=
  let Hnd := fresh "Hnd" in let Hns := fresh "Hns" in let Hts := fresh "Hts" in let Hnc := fresh "Hnc" in let Hvc := fresh "Hvc" in
  destruct (local_facts _ _ _ _ _ Hat Hmade) as (Hnd & Hns & Hts & Hnc & Hvc);
  rewrite !NoDup_cons, !elem_of_cons in Hnd; rewrite !Forall_cons in Hns; rewrite !Forall_cons in Hts; unfold addr_ok in Hns; destruct_and?;
  repeat match goal with H : Forall addr_ok (addrs ?t) |- _ => apply ptr_tree_ok in H end;
  repeat match goal with H : ¬ (_ = _ ∨ _) |- _ => apply Decidable.not_or in H as [? ?] end;
  let Hout := fresh "Hout" in assert (Hout := conj (at_root _ _ _ Hat) (at_ctx _ _ _ Hat)); fold (outer) in Hout;
  let Hr := fresh "Hr" in pose proof (at_tree _ _ _ Hat) as Hr; cbn [rep ptr] in Hr, Hout; destruct_and? Hr.

(** The context is not among the nodes. *)
Ltac not_here := let a := fresh in intros a ? ?; rewrite ?elem_of_cons, ?elem_of_nil in *; naive_solver.

(** A node after some updates and after a change of the context only. *)
Ltac look_past Hu := unfold get; repeat first [rewrite upd_eq | rewrite upd_ne by congruence | rewrite Hu by done]; first [eassumption | reflexivity].
Ltac unch_past Hu :=
  repeat (apply unch_upd; [|inlist]);
  eapply unch_trans; [|eapply unch_sub; [exact Hu|inlist]]; unchs.

(** The end of a run that changed the nodes and the context. *)
Ltac close_local Hat Hm Hu outer_tac :=
  apply (local_change _ _ _ _ _ Hat Hm);
    [unch_past Hu|outer_tac|cbn; by simplify_list_eq
    |rewrite ?Forall_cons; intros; destruct_and?; cbn [rep ptr]; repeat split; auto; look_past Hu].

Lemma rotate_red_ok d m C x p kp l q kq r :
  at_ m C (nd d false x p kp (nd d true l q kq r)) →
  runs (rotate_red d (slot_of C) p q) m (λ _ m', at_ m' C (nd d false (nd d true x p kp l) q kq r) ∧
    unch (addrs (plug C (nd d false x p kp (nd d true l q kq r)))) m m').
Proof.
  intros Hat. assert (made_of (nd d false x p kp (nd d true l q kq r)) [p; q] [x; l; r]) as Hm.
  { unfold made_of, nd. destruct d; rewrite !addrs_node; cbn; solve_Permutation. }
  destruct d; cbn [rotate_red nd] in *; open_local Hat Hm; unfold rotate_red_left, rotate_red_right; repeat tstep;
    (apply (runs_SETNODEPTR_ctx _ C p); [apply (outer_unch [p; q] m); [unchs|reflexivity|not_here|done]|done..|]; intros m2 Ho2 Hu2);
    close_local Hat Hm Hu2 ltac:(exact Ho2).
Qed.

Lemma raise_ok d m C c x p kp l q2 k2 r q kq far :
  at_ m C (nd d c x p kp (nd d false (nd d true l q2 k2 r) q kq far)) →
  runs (raise d (slot_of C) p q) m (λ _ m', at_ m' C (nd d c (nd d false x p kp l) q2 k2 (nd d false r q kq far)) ∧
    unch (addrs (plug C (nd d c x p kp (nd d false (nd d true l q2 k2 r) q kq far)))) m m').
Proof.
  intros Hat. assert (made_of (nd d c x p kp (nd d false (nd d true l q2 k2 r) q kq far)) [p; q; q2] [x; l; r; far]) as Hm.
  { unfold made_of, nd. destruct d; rewrite !addrs_node; cbn; solve_Permutation. }
  destruct d, c; cbn [raise nd] in *; open_local Hat Hm; unfold raise_left, raise_right; repeat tstep;
    (eapply runs_bind, (runs_SETNODEPTR_ctx _ C p); [apply (outer_unch [p; q; q2] m); [unchs|reflexivity|not_here|done]|done..|]; intros m2 Ho2 Hu2);
    (eapply runs_SETBLACK; [look_past Hu2|okp|]);
    close_local Hat Hm Hu2 ltac:(apply (outer_unch [p; q; q2] m2); [unchs|reflexivity|not_here|exact Ho2]).
Qed.

Lemma rotate_far_ok d m C c x p kp near q kq f1 f kf f2 :
  at_ m C (nd d c x p kp (nd d false near q kq (nd d true f1 f kf f2))) →
  runs (rotate d (slot_of C) p q) m (λ _ m', at_ m' C (nd d c (nd d false x p kp near) q kq (nd d false f1 f kf f2)) ∧
    unch (addrs (plug C (nd d c x p kp (nd d false near q kq (nd d true f1 f kf f2))))) m m').
Proof.
  intros Hat. assert (made_of (nd d c x p kp (nd d false near q kq (nd d true f1 f kf f2))) [p; q; f] [x; near; f1; f2]) as Hm.
  { unfold made_of, nd. destruct d; rewrite !addrs_node; cbn; solve_Permutation. }
  destruct d, c; cbn [rotate nd] in *; open_local Hat Hm; unfold rotate_left, rotate_right; repeat tstep;
    (apply (runs_SETNODEPTR_ctx _ C p); [apply (outer_unch [p; q; f] m); [unchs|reflexivity|not_here|done]|done..|]; intros m2 Ho2 Hu2);
    close_local Hat Hm Hu2 ltac:(exact Ho2).
Qed.

Lemma setred_ok d m C c x p kp near q kq far :
  at_ m C (nd d c x p kp (nd d false near q kq far)) →
  runs (SETRED q) m (λ _ m', at_ m' C (nd d c x p kp (nd d true near q kq far)) ∧
    unch (addrs (plug C (nd d c x p kp (nd d false near q kq far)))) m m').
Proof.
  intros Hat. assert (made_of (nd d c x p kp (nd d false near q kq far)) [p; q] [x; near; far]) as Hm.
  { unfold made_of, nd. destruct d; rewrite !addrs_node; cbn; solve_Permutation. }
  destruct d; cbn [nd] in *; open_local Hat Hm; tstep; close_local Hat Hm (unch_refl [] m) ltac:(apply (outer_unch [p; q] m); [unchs|reflexivity|not_here|exact Hout]).
Qed.

(** ** One round of the loop *)

(** The subtree [x] lacks a black node, unless its root only has to become black. *)
Definition lacking (D : list frame) (x : tree) : Prop :=
  (∃ n, rb false n x ∧ rbx D false (S n)) ∨ (red x = true ∧ balanced D (blacken x)).

(** What a round leaves: a smaller part to be balanced, or nothing. *)
Definition round_post (els : list (Z * Z)) (sz : Z) (h : nat) (s : nodestack) (r : Z) (m : store) : Prop :=
  ∃ D x, at_ m D x ∧ elems (plug D x) = els ∧
    (r = ptr x ∧ tl s.1 = slots D ∧ s.2 = sz ∧ lacking D x ∧ (length D < h ∨ red x = true)%nat ∨
     r = 0 ∧ tl s.1 = [] ∧ balanced D x).

Lemma elems_nd d c x a k y : elems (nd d c x a k y) = match d with L => elems x ++ (a, k) :: elems y | R => elems y ++ (a, k) :: elems x end.
Proof. by destruct d. Qed.

Lemma rb_nd_black d c1 c2 n x a k y : rb c1 n x → rb c2 n y → rb false (S n) (nd d false x a k y).
Proof. destruct d; cbn; econstructor; eassumption. Qed.

Lemma rb_nd_red d n x a k y : rb false n x → rb false n y → rb true n (nd d true x a k y).
Proof. destruct d; cbn; by constructor. Qed.

Lemma rb_nd d c n x a k y : rb false n x → rb false n y → rb c (if c then n else S n) (nd d c x a k y).
Proof. destruct c; [apply rb_nd_red|apply rb_nd_black]. Qed.

Lemma rb_nd_inv d n t : rb true n t → ∃ y a k z, t = nd d true y a k z ∧ rb false n y ∧ rb false n z.
Proof. inversion 1 as [|? l a k r|]; subst. destruct d; [by exists l, a, k, r|by exists r, a, k, l]. Qed.

Lemma elems_plug_eq C t t' : elems t = elems t' → elems (plug C t) = elems (plug C t').
Proof. intros E. by rewrite !elems_plug, E. Qed.

Lemma tl_drop {A} (l : list A) : tl (drop (length l - 1) l) = [].
Proof.
  destruct l as [|a l] using rev_ind; [done|]. rewrite length_app. cbn. replace (length l + 1 - 1)%nat with (length l) by lia.
  by rewrite drop_app_length.
Qed.

Definition balance_black (d : dir) := match d with L => balance_black_left | R => balance_black_right end.

(** The context of a node of colour [c] and [n] black nodes below it. *)
Definition above (C : list frame) (c : bool) (n : nat) : Prop := rbx C c (if c then n else S n).

Lemma balance_black_ok d m C c x p kp near q kq far s n cn cf :
  at_ m C (nd d c x p kp (nd d false near q kq far)) →
  rb false n x → rb cn n near → rb cf n far → above C c (S n) → tl s.1 = slots C →
  runs (balance_black d s (slot_of C) p q) m (λ '(s', r) m',
    unch (addrs (plug C (nd d c x p kp (nd d false near q kq far)))) m m' ∧
    round_post (elems (plug C (nd d c x p kp (nd d false near q kq far)))) s.2 (if c then 0 else S (length C)) s' r m').
Proof.
  intros Hat Hx Hnear Hfar HC Hs. pose proof (rb_colour _ _ _ Hnear) as Ecn. pose proof (rb_colour _ _ _ Hfar) as Ecf.
  assert (made_of (nd d c x p kp (nd d false near q kq far)) [p; q] [x; near; far]) as Hm.
  { unfold made_of, nd. destruct d; rewrite !addrs_node; cbn; solve_Permutation. }
  destruct (local_facts _ _ _ _ _ Hat Hm) as (_ & _ & Hv & _). rewrite !Forall_cons in Hv. destruct Hv as (Vx & Vn & Vf & _).
  assert (rep (nodes m) near ∧ rep (nodes m) far ∧ get (nodes m) q false kq (ptr (match d with L => near | R => far end)) (ptr (match d with L => far | R => near end))) as (Rn & Rf & Hq).
  { pose proof (at_tree _ _ _ Hat) as Hr. destruct d; cbn [nd rep] in Hr; tauto. }
  pose proof (ptr_tree_ok _ Vn). pose proof (ptr_tree_ok _ Vf).
  assert (∀ Q, (runs (if negb cn && negb cf then SETRED q;; mret (s, p)
      else (if negb cf then raise d (slot_of C) p q else rotate d (slot_of C) p q);; mret ((drop (length s.1 - 1) s.1, s.2), 0)) m Q) →
    runs (balance_black d s (slot_of C) p q) m Q) as Hrun.
  { intros Q HQ. destruct d; cbn [balance_black raise rotate] in *; unfold balance_black_left, balance_black_right; tstep;
      (apply runs_bind, runs_is_red; [done|done|]); tstep; (apply runs_bind, runs_is_red; [done|done|]); by rewrite Ecn, Ecf. }
  apply Hrun. clear Hrun. destruct cf; [|destruct cn]; cbn [negb andb]; rewrite ?andb_false_r.
  - destruct (rb_nd_inv d _ _ Hfar) as (f1 & f & kf & f2 & -> & Hf1 & Hf2). apply runs_bind. eapply runs_mono; [by apply rotate_far_ok|].
    intros _ m' [Hat' Hu]. apply runs_ret. split; [done|]. exists C. eexists. split; [exact Hat'|].
    split; [apply elems_plug_eq; destruct d; cbn; by simplify_list_eq|]. right. split; [done|]. split; [by apply tl_drop|].
    exists c. eexists. split; [|exact HC]. apply rb_nd; by eapply rb_nd_black.
  - destruct (rb_nd_inv d _ _ Hnear) as (l & q2 & k2 & r & -> & Hl & Hr). apply runs_bind. eapply runs_mono; [by apply raise_ok|].
    intros _ m' [Hat' Hu]. apply runs_ret. split; [done|]. exists C. eexists. split; [exact Hat'|].
    split; [apply elems_plug_eq; destruct d; cbn; by simplify_list_eq|]. right. split; [done|]. split; [by apply tl_drop|].
    exists c. eexists. split; [|exact HC]. apply rb_nd; by eapply rb_nd_black.
  - apply runs_bind. eapply runs_mono; [by apply setred_ok|]. intros _ m' [Hat' Hu]. apply runs_ret. split; [done|].
    exists C. eexists. split; [exact Hat'|]. split; [apply elems_plug_eq; by destruct d|]. left.
    split; [by destruct d|]. do 2 (split; [done|]). split; [|destruct c; [right; by destruct d|left; lia]]. destruct c.
    + right. split; [by destruct d|]. exists false, (S n). split; [|by eapply rbx_blacken].
      assert (∀ d l, blacken (nd d true x p kp l) = nd d false x p kp l) as -> by by intros [].
      eapply rb_nd_black; [done|by apply rb_nd_red].
    + left. exists (S n). split; [|exact HC]. eapply rb_nd_black; [done|by apply rb_nd_red].
Qed.

(** ** The loop *)

Lemma round_post_mono els sz h h' s r m : round_post els sz h s r m → (h <= h')%nat → round_post els sz h' s r m.
Proof.
  intros (D & x & H1 & H2 & H3) Hh. exists D, x. split; [done|]. split; [done|]. destruct H3 as [(? & ? & ? & ? & H)|H]; [left|by right].
  repeat (split; [done|]). destruct H; [left; lia|by right].
Qed.

(** A tree with a black node on its paths. *)
Lemma rb_S_inv d n t : rb false (S n) t → ∃ y a k z c1 c2, t = nd d false y a k z ∧ rb c1 n y ∧ rb c2 n z.
Proof. inversion 1 as [| |cl cr ? l a k r]; subst. destruct d; [by exists l, a, k, r, cl, cr|by exists r, a, k, l, cr, cl]. Qed.

(** The root of a tree at its place. *)
Lemma at_node m C c l a k r : at_ m C (N c l a k r) → get (nodes m) a c k (ptr l) (ptr r) ∧ ptr_ok (ptr l) ∧ ptr_ok (ptr r) ∧ addr_ok a.
Proof.
  intros [_ _ (Hn & _) H4]. apply good_plug in H4 as [_ Hv]. rewrite addrs_node in Hv. cbn [app] in Hv. rewrite Forall_cons, !Forall_app in Hv.
  destruct Hv as (Ha & (Hl & Hr) & _). split; [done|]. split; [by apply ptr_tree_ok|]. split; [by apply ptr_tree_ok|done].
Qed.

Lemma at_RED m C t Q : at_ m C t → t ≠ E → Q (red t) m → runs (RED (ptr t)) m Q.
Proof. intros Hat Hne HQ. destruct t as [|c l a k r]; [done|]. apply at_node in Hat as (Hn & Hl & _). by eapply runs_RED. Qed.

Lemma at_LEFT m C c l a k r Q : at_ m C (N c l a k r) → Q (ptr l) m → runs (LEFT a) m Q.
Proof. intros (Hn & Hl & _)%at_node HQ. by eapply runs_LEFT. Qed.

Lemma at_RIGHT m C c l a k r Q : at_ m C (N c l a k r) → Q (ptr r) m → runs (RIGHT a) m Q.
Proof. intros (Hn & Hl & _)%at_node HQ. by eapply runs_RIGHT. Qed.

Definition sibling (d : dir) := match d with L => RIGHT | R => LEFT end.

Lemma at_sibling d m C c x p kp q P : at_ m C (nd d c x p kp q) → P (ptr q) m → runs (sibling d p) m P.
Proof. destruct d; [apply at_RIGHT|apply at_LEFT]. Qed.

Lemma at_far d m C c x p kp q : at_ m C (nd d c x p kp q) ↔ at_ m (Frame (match d with L => R | R => L end) c p kp x :: C) q.
Proof. destruct d; [apply at_right|apply at_left]. Qed.

Lemma at_near d m C c x p kp q : at_ m C (nd d c x p kp q) ↔ at_ m (Frame d c p kp q :: C) x.
Proof. destruct d; [apply at_left|apply at_right]. Qed.

Lemma runs_push np s m Q : len s.1 < s.2 → Q (np :: s.1, s.2) m → runs (push np s) m Q.
Proof. intros Hlen HQ. unfold push. rewrite (proj2 (Z.ltb_lt _ _) Hlen). by apply runs_ret. Qed.

(** The two cases at once. *)
Definition balance_by (d : dir) (s : nodestack) (pp : slot) (p : Z) : T (nodestack * Z) :=
  q ← sibling d p;
  b ← RED q;
  if (b : bool) then
    rotate_red d pp p q;;
    let pp := match d with L => Leftp q | R => Rightp q end in
    s ← push pp s;
    q ← sibling d p;
    balance_black d s pp p q
  else balance_black d s pp p q.

Lemma balance_by_eq d s pp p : balance d s pp p = balance_by d s pp p.
Proof. by destruct d. Qed.

Lemma balance_ok d m C c x p kp Q s n :
  at_ m C (nd d c x p kp Q) → rb false n x → rbx (Frame d c p kp Q :: C) false (S n) →
  s.1 = slot_of C :: slots C → len s.1 < s.2 →
  runs (balance d s (slot_of C) p) m (λ '(s', r) m',
    unch (addrs (plug C (nd d c x p kp Q))) m m' ∧ round_post (elems (plug C (nd d c x p kp Q))) s.2 (S (length C)) s' r m').
Proof.
  intros Hat Hx HC Hs Hlen. rewrite balance_by_eq. unfold balance_by.
  assert (∃ cq, rb cq (S n) Q ∧ above C c (S n) ∧ (cq = true → c = false)) as (cq & HQ & HCa & Hcq).
  { inv HC; eexists; by repeat split. }
  eapply runs_bind, at_sibling; [exact Hat|].
  eapply runs_bind, at_RED; [by apply at_far in Hat|by intros ->; inv HQ|]. rewrite (rb_colour _ _ _ HQ). destruct cq.
  - destruct (rb_nd_inv d _ _ HQ) as (l & q & kq & r & -> & Hl & Hr). rewrite Hcq in * by done.
    destruct (rb_S_inv d _ _ Hl) as (near & q' & kq' & far & c1 & c2 & -> & Hn & Hf).
    assert (∀ c y a k z, ptr (nd d c y a k z) = a) as Eptr by by destruct d. rewrite Eptr.
    apply runs_bind. eapply runs_mono; [by apply rotate_red_ok|]. intros _ m1 [Hat1 Hu1].
    eapply runs_bind, runs_push; [exact Hlen|]. eapply runs_bind, at_sibling; [apply at_near in Hat1; exact Hat1|]. rewrite Eptr.
    assert (elems (plug (Frame d false q kq r :: C) (nd d true x p kp (nd d false near q' kq' far))) =
      elems (plug C (nd d false x p kp (nd d true (nd d false near q' kq' far) q kq r)))) as Eel.
    { cbn [plug]. apply elems_plug_eq. destruct d; cbn; by simplify_list_eq. }
    assert (∀ q, match d with L => Leftp q | R => Rightp q end = slot_of (Frame d false q kq r :: C)) as -> by by destruct d.
    eapply runs_mono; [eapply (balance_black_ok d m1 (Frame d false q kq r :: C)); [by apply at_near in Hat1|done..| |by rewrite Hs]|].
    { by eapply rbx_black. }
    intros [s' r'] m2 [Hu2 Hp2]. split; [eapply unch_trans; [exact Hu1|]; unfold addrs in *; by rewrite <- Eel|].
    rewrite Eel in Hp2. by eapply round_post_mono; [exact Hp2|lia].
  - destruct (rb_S_inv d _ _ HQ) as (near & q & kq & far & c1 & c2 & -> & Hn & Hf).
    assert (∀ c y a k z, ptr (nd d c y a k z) = a) as Eptr by by destruct d. rewrite Eptr.
    eapply runs_mono; [eapply balance_black_ok; [exact Hat|done..| ]; by rewrite Hs|]. intros [s' r'] m' [Hu Hp]. split; [done|].
    eapply round_post_mono; [exact Hp|]. destruct c; lia.
Qed.

(** A balanced tree, once the root of the part in question is black. *)
Definition repairable (els : list (Z * Z)) (r : Z) (m : store) : Prop :=
  ∃ D x, at_ m D x ∧ elems (plug D x) = els ∧ (r = ptr x ∧ balanced D (blacken x) ∨ r = 0 ∧ balanced D x).

Lemma lacking_red D x : lacking D x → red x = true ∨ D = [] → balanced D (blacken x).
Proof.
  intros [(n & Hx & HD)|[_ H]] [Hr| ->]; [|..|done].
  - by rewrite (rb_colour _ _ _ Hx) in Hr.
  - destruct (rb_blacken _ _ _ Hx) as [n' H']. exists false, n'. split; [done|constructor].
  - done.
Qed.

Lemma balance_loop_nil fuel s r : s.1 = [] → balance_loop fuel s r = mret r.
Proof. intros E. destruct fuel; cbn [balance_loop]; by rewrite E. Qed.

(** The two sides of a node are told apart by their addresses. *)
Lemma at_side d m C c x p kp Q : at_ m C (nd d c x p kp Q) → Q ≠ E →
  ∀ P, (∀ l, (ptr x =? l) = match d with L => true | R => false end → P l m) → runs (LEFT p) m P.
Proof.
  intros Hat HQ P HP. pose proof Hat as [_ _ _ Hg]. apply good_plug in Hg as [Hnd Hv].
  destruct d; cbn [nd] in *; (eapply at_LEFT; [exact Hat|]); apply HP; [apply Z.eqb_refl|].
  apply Z.eqb_neq. intros He. rewrite addrs_node in Hnd, Hv. cbn [app] in Hnd, Hv.
  rewrite NoDup_cons, !NoDup_app in Hnd. rewrite Forall_cons, !Forall_app, !Forall_forall in Hv. destruct Hnd as (_ & (_ & Hd & _) & _), Hv as (_ & (Hv & _) & _).
  destruct (ptr_in Q) as [E0|Hin]; [by destruct Q as [|? ? ? ? ?]; [|cbn in E0; specialize (Hv _ ltac:(rewrite addrs_node; by left)) as [? _]]|].
  apply (Hd _ Hin). rewrite <- He. destruct (ptr_in x) as [E0|]; [|done]. exfalso. by destruct (Hv _ Hin) as [Hv0 _]; apply Hv0; rewrite <- He.
Qed.

Lemma balance_loop_ok els fuel : ∀ m D x s,
  at_ m D x → elems (plug D x) = els → lacking D x → s.1 = slots D → (length D <= fuel)%nat ∧ len s.1 < s.2 ∨ red x = true →
  runs (balance_loop fuel s (ptr x)) m (λ r m', unch els.*1 m m' ∧ repairable els r m').
Proof.
  induction fuel as [|fuel IH]; intros m D x s Hat Hel Hl Hs Hf; cbn [balance_loop]; rewrite Hs.
  all: assert (red x = true ∨ D = [] → runs (mret (ptr x)) m (λ r m', unch els.*1 m m' ∧ repairable els r m')) as Hend
    by (intros Hr; apply runs_ret; split; [apply unch_refl|]; exists D, x; split; [done|]; split; [done|]; left; split; [done|]; by apply lacking_red).
  all: destruct D as [|[d c p kp Q] C]; cbn [slots]; [by apply Hend; right|].
  all: apply runs_bind; pose proof Hat as [_ _ Rx Hg]; apply good_plug in Hg as [Hnd Hv]; rewrite Forall_app in Hv; destruct Hv as [Vx _].
  all: apply runs_is_red; [done|done|]; destruct (red x) eqn:Ered; [by apply Hend; left|].
  { exfalso. cbn in Hf. destruct Hf as [[]|]; [lia|done]. }
  destruct Hf as [[Hf Hlen]|]; [|done]. destruct Hl as [(n & Hx & HD)|[? _]]; [|congruence]. pose proof Hat as Hat0. apply at_near in Hat0.
  assert (Q ≠ E) as HQ by (intros ->; inv HD; match goal with H : rb _ _ E |- _ => inv H end).
  eapply runs_bind, at_deref; [exact Hat0|]. assert (∀ c y a k z, ptr (nd d c y a k z) = a) as -> by by destruct d.
  eapply runs_bind, (at_side d); [exact Hat0|exact HQ|]. intros l El. rewrite El. apply runs_bind.

  assert (elems (plug C (nd d c x p kp Q)) = els) as Hel0 by (rewrite <- Hel; by destruct d).
  eapply runs_mono; [assert (HB := balance_ok d m C c x p kp Q s n Hat0 Hx HD Hs Hlen); destruct d; exact HB|]. rewrite Hel0. unfold addrs. rewrite Hel0.
  intros [s' r'] m1 [Hu (D & x' & Hat1 & Hel1 & [(-> & Hs1 & Hsz & Hl1 & Hlt)|(-> & Hs1 & Hb)])].
  - eapply runs_mono; [apply (IH m1 D x' (tl s'.1, s'.2)); [done|done|done|done|]|].
    + destruct Hlt as [Hlt|Hr]; [left|by right]. cbn [fst snd length] in *. rewrite Hs1, length_slots. split; [lia|].
      rewrite Hsz. rewrite Hs, length_slots in Hlen. cbn in Hlen. lia.
    + intros r m2 [Hu2 Hr]. split; [by eapply unch_trans|done].
  - rewrite balance_loop_nil by done. apply runs_ret. split; [done|]. exists D, x'. split; [done|]. split; [done|by right].
Qed.

(** ** The way to the node *)

Lemma balanced_top C t : balanced [] (plug C t) ↔ balanced C t.
Proof.
  split.
  - intros (c & n & H & _). destruct (rb_unplug C t c n H) as (c' & n' & ? & ?). by exists c', n'.
  - intros (c & n & H)%balanced_plug. exists c, n. split; [done|constructor].
Qed.

(** The stack holds the slots on the path. *)
Definition stack_ok (C : list frame) (s : nodestack) : Prop := s.1 = slots C ∧ 40 <= s.2 ∧ len s.1 <= s.2.

Lemma push_grow_ok f C s m Q : stack_ok C s → (∀ s', stack_ok (f :: C) s' → Q s' m) → runs (push_grow (slot_of C) s) m Q.
Proof.
  intros (H1 & H2 & H3) HQ. unfold push_grow. apply runs_push; cbn [fst snd]; [destruct (len s.1 =? s.2) eqn:E0; zb; lia|].
  apply HQ. split; [cbn; by rewrite H1|]. cbn [fst snd length]. destruct (len s.1 =? s.2) eqn:E0; zb; lia.
Qed.

Section delete.
Context (compar : Z → Z → Z) `{!CmpOrder compar} (k : Z).
Set Default Proof Using "All".

Definition search_post (t0 : tree) (p0 : Z) (d : option (nodestack * Z * slot)) : Prop :=
  match d with
  | None => ∀ y, y ∈ elems t0 → compar k y.2 ≠ 0
  | Some (s, p, rootp) => ∃ D c l a ka r, plug D (N c l a ka r) = t0 ∧ compar k ka = 0 ∧ rootp = slot_of D ∧ stack_ok D s ∧
      p = match D with [] => p0 | f :: _ => fa f end
  end.

Lemma tdelete_search_ok t0 p0 m fuel : ∀ C t s p,
  at_ m C t → plug C t = t0 → sorted compar (elems t0) → path_ok compar k C → t ≠ E → stack_ok C s → (height t <= fuel)%nat →
  p = match C with [] => p0 | f :: _ => fa f end →
  runs (tdelete_search compar fuel k s p (slot_of C) (ptr t)) m (λ d m', m' = m ∧ search_post t0 p0 d).
Proof.
  induction fuel as [|fuel IH]; intros C t s p Hat Ht Hs Hp Hne Hst Hf Hp0; (destruct t as [|c l a ka r]; [done|]); cbn [height] in Hf; [lia|].
  cbn [tdelete_search ptr]. eapply runs_bind, at_runs_get; [exact Hat|]. intros x ->.
  destruct (compar k ka =? 0) eqn:E0; zb.
  { apply runs_ret. split; [done|]. by exists C, c, l, a, ka, r. }
  destruct (child_frame compar k C c l a ka r E0) as (f & Ef & _ & Hfa & _ & Hsd & _).
  eapply runs_bind, (push_grow_ok f); [exact Hst|]. intros s' Hst'. eapply runs_bind, at_deref; [exact Hat|]. cbn [ptr].
  assert (Hch := child_at compar k m C _ Hat). assert (Hh := child_height compar k C c l a ka r). assert (Hsl := child_slot compar k C c l a ka r).
  set (D := child compar k C (N c l a ka r)) in *. assert (plug D.1 D.2 = t0) as HD by (rewrite <- Ht; unfold D; cbn; by destruct (compar k ka <? 0)).
  apply runs_bind. apply runs_mono with (λ v m', v = ptr D.2 ∧ m' = m).
  { unfold D. cbn. destruct (compar k ka <? 0); [eapply at_LEFT|eapply at_RIGHT]; by try exact Hat. }
  intros v m' [-> ->]. rewrite (at_null _ _ _ Hch), Hsl, Ef in *. destruct D.2 as [|c' l' a' ka' r'] eqn:E2; cbn [empty].
  - apply runs_ret. split; [done|]. intros y Hy. rewrite <- HD, elems_plug in Hs, Hy. cbn [elems app] in Hs, Hy.
    assert (path_ok compar k (f :: C)) as Hp' by by constructor. apply elem_of_app in Hy as [Hy|Hy].
    + pose proof (path_before compar k _ _ Hp' Hs y Hy). lia.
    + pose proof (path_after compar k _ _ Hp' Hs y Hy). lia.
  - apply (IH (f :: C) (N c' l' a' ka' r')); try done; [by constructor|cbn [height] in *; lia].
Qed.
End delete.

(** The successor is the leftmost node of the right subtree. *)
Lemma successor_loop_ok m fuel : ∀ f D y s,
  at_ m (f :: D) y → y ≠ E → stack_ok D s → (height y <= fuel)%nat →
  runs (successor_loop fuel s (slot_of D) (slot_of (f :: D))) m (λ '(s', up) m', m' = m ∧
    ∃ G c u ku r, y = plug G (N c E u ku r) ∧ Forall (λ g, fd g = L) G ∧ up = slot_of (G ++ f :: D) ∧ stack_ok (G ++ f :: D) s').
Proof.
  induction fuel as [|fuel IH]; intros f D y s Hat Hne Hst Hf; (destruct y as [|c l u ku r]; [done|]); cbn [height] in Hf; [lia|].
  cbn [successor_loop]. eapply runs_bind, (push_grow_ok f); [exact Hst|]. intros s' Hst'.
  eapply runs_bind, (at_deref m (f :: D)); [exact Hat|]. eapply runs_bind, at_LEFT; [exact Hat|].
  pose proof Hat as Hl. apply at_left in Hl. rewrite (at_null _ _ _ Hl). destruct l as [|cl ll al kl rl]; cbn [empty].
  - apply runs_ret. split; [done|]. by exists [], c, u, ku, r.
  - eapply runs_mono; [apply (IH (Frame L c u ku r) (f :: D) (N cl ll al kl rl)); [done|done|done|cbn [height] in *; lia]|].
    intros [s'' up] m' [-> (G & c' & u' & ku' & r' & -> & HG & -> & Hst'')]. split; [done|].
    exists (G ++ [Frame L c u ku r]), c', u', ku', r'. rewrite plug_app, <- (assoc_L (++)). split; [done|]. split; [|done].
    apply Forall_app. split; [done|]. by constructor.
Qed.
