(* ===== verification/TsearchRemove.v ===== *)
(** * TsearchRemove: the rest of [tdelete]

    The node that goes, its successor's key, the link around it; then the loop of
    [TsearchDelete] on what is left. *)

From S2P Require Import Prelude SortList Tsearch TsearchTree TsearchRep TsearchInsert TsearchDelete.
Local Open Scope Z_scope.

(** ** Changes to a tree in the store *)

Lemma at_app m C D t : at_ m (C ++ D) t ↔ at_ m D (plug C t).
Proof. rewrite <- at_plug, plug_app. apply at_plug. Qed.

(** A store that differs outside the tree. *)
Lemma at_unch l m m' C t : at_ m C t → unch l m m' → root_var m' = root_var m → (∀ a, a ∈ addrs (plug C t) → a ∉ l) → at_ m' C t.
Proof.
  intros [H1 _ H3 H4]%at_plug Hu Hr Hd. apply at_plug. split; [by rewrite Hr|done| |done]. by eapply rep_unch.
Qed.

Lemma set_key_at m C c l a k r k' :
  at_ m C (N c l a k r) → runs (set_key a k') m (λ _ m', at_ m' C (N c l a k' r) ∧ unch [a] m m').
Proof.
  intros Hat. pose proof (at_node _ _ _ _ _ _ _ Hat) as (Hn & Hl & _). pose proof Hat as [H1 H2 (_ & Rl & Rr) H4].
  apply good_plug in H4 as Hg. destruct Hg as [Hnd Hv]. rewrite addrs_node in Hnd. cbn [app] in Hnd. rewrite NoDup_cons, !elem_of_app in Hnd. destruct Hnd as [Hni _].
  eapply runs_set_key; [exact Hn|exact Hl|]. assert (unch [a] m (upd m a (enc c k' (ptr l) (ptr r)))) as Hu by unchs. split; [|done]. split.
  - done.
  - eapply rep_ctx_unch; [exact Hu| |exact H2]. intros b Hb ->%list_elem_of_singleton. tauto.
  - cbn [rep]. split; [apply upd_eq|]. split; (eapply rep_unch; [exact Hu| |done]); intros b Hb ->%list_elem_of_singleton; tauto.
  - unfold good, addrs in *. rewrite elems_plug, !fmap_app in *. cbn in *. rewrite !fmap_app in *. exact H4.
Qed.

Lemma setblack_at m C t :
  at_ m C t → runs (if negb (ptr t =? 0) then SETBLACK (ptr t) else mret ()) m (λ _ m', at_ m' C (blacken t) ∧ unch (addrs (plug C t)) m m').
Proof.
  intros [H1 H2 H3 H4]. apply good_plug in H4 as Hg. destruct Hg as [Hnd Hv]. rewrite Forall_app in Hv. destruct Hv as [Hv _].
  apply NoDup_app in Hnd as (Hnd & Hd & _).
  apply runs_SETBLACK_tree; [done..|]. intros m' Hr Hu Hroot. split; [|eapply unch_sub; [exact Hu|intros a Ha; rewrite addrs_plug, elem_of_app; by left]]. split.
  - by rewrite Hroot, ptr_blacken.
  - rewrite ptr_blacken. eapply rep_ctx_unch; [exact Hu| |exact H2]. intros a Ha Ha'. by apply (Hd a).
  - done.
  - unfold good, addrs in *. rewrite elems_plug in *. by rewrite elems_blacken.
Qed.

(** ** The link around the node *)

(** The only successor, or nothing. *)
Definition only (lu ru : tree) : tree := match lu with E => ru | _ => lu end.

(** [r] is chained into the parent, which the top of the stack points to. *)
Definition unchain (s : nodestack) (rootp : slot) (u r : Z) : T unit :=
  match s.1 with
  | [] => SETNODEPTR rootp r
  | np :: _ =>
      q ← DEREFNODEPTR np;
      x ← RIGHT q;
      if u =? x then SETRIGHT q r else SETLEFT q r
  end.

Lemma outer_upd m f F p p' x :
  outer m (f :: F) p → NoDup (caddrs (f :: F)) → get1 (nodes (upd m (fa f) x)) f p' → outer (upd m (fa f) x) (f :: F) p'.
Proof.
  intros [H1 (_ & H3 & H4)] Hnd Hg. rewrite caddrs_cons, NoDup_cons, elem_of_app in Hnd. destruct Hnd as [Hni _].
  assert (unch [fa f] m (upd m (fa f) x)) as Hu by unchs. split; [done|]. cbn [rep_ctx]. split; [done|].
  split; [eapply rep_unch; [exact Hu| |done]|eapply rep_ctx_unch; [exact Hu| |done]]; intros b Hb ->%list_elem_of_singleton; tauto.
Qed.

Lemma unchain_ok m F s rootp c lu u ku ru :
  at_ m F (N c lu u ku ru) → (lu = E ∨ ru = E) → s.1 = slots F → (F = [] → rootp = Rootp) →
  runs (unchain s rootp u (ptr (only lu ru))) m (λ _ m', at_ m' F (only lu ru) ∧ nodes m' !! u = nodes m !! u ∧ unch (addrs (plug F (N c lu u ku ru))) m m').
Proof.
  intros Hat Hone Hs Hroot. set (y := only lu ru).
  assert (addrs (N c lu u ku ru) ≡ₚ u :: addrs y) as Ha.
  { rewrite addrs_node. unfold y, only. destruct lu; [done|]. destruct Hone as [| ->]; [done|]. cbn. by rewrite app_nil_r. }
  pose proof Hat as [H1 H2 (Hn & Rl & Rr) H4]. apply good_plug in H4 as Hg. destruct Hg as [Hnd Hv]. rewrite Ha in Hnd, Hv.
  cbn [app] in Hnd, Hv. rewrite NoDup_cons, elem_of_app in Hnd. destruct Hnd as [Hni Hnd]. rewrite Forall_cons in Hv. destruct Hv as [Vu Vy].
  assert (good (plug F y)) as Hgy by (by apply good_plug). apply NoDup_app in Hnd as (_ & Hd & Hnc). apply Forall_app in Vy as [Vy Vc]. apply ptr_tree_ok in Vy.
  assert (rep (nodes m) y) as Ry by (unfold y, only; by destruct lu).
  assert (∀ m', outer m' F (ptr y) → unch (caddrs F) m m' →
    at_ m' F y ∧ nodes m' !! u = nodes m !! u ∧ unch (addrs (plug F (N c lu u ku ru))) m m') as Hend.
  { intros m' [Ho1 Ho2] Hu. split; [split; [done|done| |done]|split; [apply Hu; tauto|]].
    - eapply rep_unch; [exact Hu|exact Hd|done].
    - eapply unch_sub; [exact Hu|]. intros b Hb. rewrite addrs_plug, elem_of_app. by right. }
  unfold unchain. rewrite Hs. destruct F as [|f F]; cbn [slots].
  - rewrite Hroot by done. apply (runs_SETNODEPTR_ctx m [] u); [by split|apply Vu|done|done|done|]. exact Hend.
  - pose proof Hat as Hup. apply at_move in Hup. eapply runs_bind, at_deref; [exact Hup|]. rewrite ptr_plug1.
    set (x := enc (fc f) (fk f) (match fd f with L => ptr y | R => ptr (fs f) end) (match fd f with L => ptr (fs f) | R => ptr y end)).
    assert (unch (caddrs (f :: F)) m (upd m (fa f) x)) as Hu
      by (apply unch_upd; [apply unch_refl|apply caddrs_head]).
    assert (outer (upd m (fa f) x) (f :: F) (ptr y)) as Hout
      by (apply (outer_upd m f F u); [by split|done|unfold get1, get, x; destruct (fd f); apply upd_eq]).
    specialize (Hend _ Hout Hu). clear Hu Hout. unfold x in Hend. clear x.
    pose proof (sibling_ok _ _ Vc) as Vs. destruct H2 as (Hf & _ & _). cbn [ptr] in Hf. unfold get1 in Hf. destruct (fd f).
    + eapply runs_bind, runs_RIGHT; [exact Hf|apply Vu|]. rewrite (proj2 (Z.eqb_neq _ _)); [by eapply runs_SETLEFT; [exact Hf|apply Vu|done|]|].
      intros ->. destruct (ptr_in (fs f)) as [E0|Hin]; [by destruct Vu|]. by apply Hni; right; apply caddrs_sibling.
    + eapply runs_bind, runs_RIGHT; [exact Hf|done|]. rewrite Z.eqb_refl. by eapply runs_SETRIGHT; [exact Hf|done|].
Qed.

(** ** The node goes *)

(** The store holds a balanced tree with the elements [els]. *)
Definition stored (els : list (Z * Z)) (m : store) : Prop := ∃ t, at_ m [] t ∧ balanced [] t ∧ elems t = els.

(** [SETBLACK] on what the loop leaves. *)
Lemma repair_ok els r m :
  repairable els r m → runs (if negb (r =? 0) then SETBLACK r else mret ()) m (λ _ m', stored els m' ∧ unch els.*1 m m').
Proof.
  intros (D & x & Hat & Hel & [[-> Hb]|[-> Hb]]).
  - eapply runs_mono; [by apply setblack_at|]. intros _ m' [Hat' Hu]. split; [|by rewrite <- Hel]. exists (plug D (blacken x)).
    split; [by apply at_plug|]. split; [by apply balanced_top|]. rewrite <- Hel, !elems_plug. by rewrite elems_blacken.
  - apply runs_ret. split; [|apply unch_refl]. exists (plug D x). split; [by apply at_plug|]. split; [by apply balanced_top|done].
Qed.

(** The colour of the node that goes decides about the loop. *)
Lemma rebalance_ok els fuel m F c lu u ku ru s :
  balanced F (N c lu u ku ru) → (lu = E ∨ ru = E) → at_ m F (only lu ru) → elems (plug F (only lu ru)) = els →
  s.1 = slots F → (length F <= fuel)%nat → len s.1 < s.2 →
  runs (if negb c then r ← balance_loop fuel s (ptr (only lu ru)); if negb (r =? 0) then SETBLACK r else mret () else mret ()) m
    (λ _ m', stored els m' ∧ unch els.*1 m m').
Proof.
  intros (c' & n & Ht & HF) Hone Hat Hel Hs Hf Hlen. destruct c; cbn [negb].
  - apply runs_ret. split; [|apply unch_refl]. exists (plug F (only lu ru)). split; [by apply at_plug|]. split; [|done].
    apply balanced_top. inv Ht. assert (rb false n (only lu ru)) as Hy by (unfold only; by destruct lu). exists false, n. split; [done|by eapply rbx_blacken].
  - assert (lacking F (only lu ru)) as Hl.
    { inv Ht. rename n0 into n. assert (∃ cy, n = O ∧ rb cy n (only lu ru)) as (cy & -> & Hy).
      { unfold only. destruct lu; [match goal with H : rb _ _ E |- _ => inv H end; eauto|]. destruct Hone as [| ->]; [done|].
        match goal with H : rb _ _ E |- _ => inv H end; eauto. }
      destruct cy.
      - right. split; [by eapply rb_colour|]. exists false, 1%nat. split; [by apply rb_blacken_S|done].
      - left. by exists O. }
    apply runs_bind. eapply runs_mono; [apply (balance_loop_ok els fuel m F); [done..|by left]|].
    intros r m1 [Hu Hr]. eapply runs_mono; [by apply (repair_ok els)|]. intros _ m2 [Hst Hu2]. split; [done|]. by eapply unch_trans.
Qed.

(** The last part of [tdelete_found]. *)
Definition remove (fuel : nat) (s : nodestack) (rootp : slot) (root unchained : Z) : T unit :=
  r ← LEFT unchained;
  r ← (if r =? 0 then RIGHT unchained else mret r);
  unchain s rootp unchained r;;
  (if negb (unchained =? root) then x ← get_node unchained; set_key root (key x) else mret ());;
  b ← RED unchained;
  (if negb b then
     r ← balance_loop fuel s r;
     if negb (r =? 0) then SETBLACK r else mret ()
   else mret ());;
  free unchained.

Lemma tdelete_found_eq fuel s rootp :
  tdelete_found fuel s rootp =
    (root ← DEREFNODEPTR rootp;
     r ← RIGHT root;
     q ← LEFT root;
     '(s, unchained) ← (if (q =? 0) || (r =? 0) then mret (s, root)
        else '(s, up) ← successor_loop fuel s rootp (Rightp root);
             u ← DEREFNODEPTR up; mret (s, u));
     remove fuel s rootp root unchained).
Proof. reflexivity. Qed.

Lemma addrs_unchained F c lu u ku ru : (lu = E ∨ ru = E) → addrs (plug F (N c lu u ku ru)) ≡ₚ u :: addrs (plug F (only lu ru)).
Proof.
  intros Hone. rewrite !addrs_plug, addrs_node. unfold only. destruct lu; [done|]. destruct Hone as [| ->]; [done|].
  change (addrs E) with (@nil Z). by rewrite app_nil_r.
Qed.

Lemma free_ok els m u : stored els m → u ∉ els.*1 → nodes m !! u ≠ None →
  runs (free u) m (λ _ m', stored els m' ∧ nodes m' !! u = None ∧ unch [u] m m').
Proof.
  intros (t & Hat & Hb & Hel) Hu Hn. destruct (nodes m !! u) as [x|] eqn:Ex; [|done].
  exists tt, (Store (delete u (nodes m)) (root_var m)). split; [unfold free; by rewrite Ex|].
  assert (unch [u] m (Store (delete u (nodes m)) (root_var m))) as Hun.
  { intros b Hb'. cbn. apply lookup_delete_ne. intros ->. apply Hb'. by left. }
  split; [|split; [apply lookup_delete_eq|done]]. exists t. split; [|done].
  eapply at_unch; [exact Hat|exact Hun|done|]. cbn [plug]. unfold addrs. rewrite Hel. by intros b Hb' ->%list_elem_of_singleton.
Qed.

Lemma remove_ok fuel s rootp root m F F' c lu u ku ru :
  at_ m F (N c lu u ku ru) → (lu = E ∨ ru = E) → stack_ok F s → (F = [] → rootp = Rootp) →
  slots F' = slots F → balanced F' (N c lu u ku ru) → addrs (plug F' (only lu ru)) = addrs (plug F (only lu ru)) →
  (∀ m1, at_ m1 F (only lu ru) → nodes m1 !! u = nodes m !! u →
    runs (if negb (u =? root) then x ← get_node u; set_key root (key x) else mret ()) m1 (λ _ m2,
      at_ m2 F' (only lu ru) ∧ nodes m2 !! u = nodes m1 !! u ∧ unch (addrs (plug F (only lu ru))) m1 m2)) →
  (length F <= fuel)%nat → (length F < 40)%nat →
  runs (remove fuel s rootp root u) m (λ _ m', stored (elems (plug F' (only lu ru))) m' ∧ nodes m' !! u = None ∧
    unch (addrs (plug F (N c lu u ku ru))) m m').
Proof.
  intros Hat Hone (Hs & Hsz & Hlen) Hroot HF Hb Ha Hkey Hf H40. unfold remove. pose proof (at_node _ _ _ _ _ _ _ Hat) as (Hn & Hl & Hr & Hu0).
  pose proof Hat as Hatl. apply at_left in Hatl. apply at_null in Hatl.
  pose proof (addrs_unchained F c lu u ku ru Hone) as HaF.
  assert (u ∉ addrs (plug F (only lu ru))) as Hni.
  { pose proof (at_good _ _ _ Hat) as [Hnd _]. rewrite HaF, NoDup_cons in Hnd. apply Hnd. }
  eapply runs_bind, runs_LEFT; [exact Hn|done|]. apply runs_bind. apply runs_mono with (λ r m', r = ptr (only lu ru) ∧ m' = m).
  { rewrite Hatl. unfold only. destruct lu; cbn [empty]; [by eapply runs_RIGHT|by apply runs_ret]. }
  intros r m' [-> ->]. apply runs_bind. eapply runs_mono; [by apply (unchain_ok m F)|]. intros _ m1 (Hat1 & Hn1 & Hu1).
  apply runs_bind. eapply runs_mono; [by apply Hkey|]. intros _ m2 (Hat2 & Hn2 & Hu2).
  eapply runs_bind, runs_RED; [unfold get; rewrite Hn2, Hn1; exact Hn|done|].
  set (els := elems (plug F' (only lu ru))) in *. assert (els.*1 = addrs (plug F (only lu ru))) as Hels by exact Ha.
  assert (length F' = length F) as HlenF by by rewrite <- (length_slots F'), HF, length_slots.
  apply runs_bind. eapply runs_mono; [apply (rebalance_ok els fuel m2 F' c lu u ku ru s)|];
    [done..|by rewrite Hs|lia| |].
  { rewrite Hs, length_slots. lia. }
  intros _ m3 [Hst Hu3]. rewrite <- Hels in Hni. eapply runs_mono; [apply (free_ok els)|]; [done|done| |].
  { rewrite Hu3, Hn2, Hn1 by done. by rewrite Hn. }
  intros _ m4 (Hst4 & Hn4 & Hu4). split; [done|]. split; [done|].
  eapply unch_trans; [exact Hu1|]. eapply unch_trans; [eapply unch_sub; [exact Hu2|]|].
  { intros b Hb'. rewrite HaF. by right. }
  eapply unch_trans; [eapply unch_sub; [exact Hu3|]|eapply unch_sub; [exact Hu4|]]; intros b Hb'; rewrite HaF.
  - right. by rewrite <- Hels.
  - apply list_elem_of_singleton in Hb' as ->. by left.
Qed.

(** ** [tdelete] *)

(** Element [(a, ka)] goes; when its node has two successors, the node of the next element
    goes and that element moves into node [a]. *)
Definition removed (els : list (Z * Z)) (a ka u : Z) (els' : list (Z * Z)) : Prop :=
  ∃ l1 l2, els = l1 ++ (a, ka) :: l2 ∧
    (u = a ∧ els' = l1 ++ l2 ∨ ∃ ku l3, l2 = (u, ku) :: l3 ∧ els' = l1 ++ (a, ku) :: l3).

Lemma balanced_key C c l a k k' r : balanced C (N c l a k r) → balanced C (N c l a k' r).
Proof. intros (c' & n & Ht & HC). exists c', n. split; [|done]. inv Ht; by econstructor. Qed.

Lemma elems_left_only G : Forall (λ g, fd g = L) G → before G = [].
Proof. induction 1 as [|g G Hg HG IH]; [done|]. cbn [before]. rewrite IH. unfold before1. by rewrite Hg. Qed.

Lemma tdelete_found_ok fuel m D c l a ka r s :
  at_ m D (N c l a ka r) → balanced D (N c l a ka r) → stack_ok D s →
  (length D + height (N c l a ka r) < 40)%nat → (length D + height (N c l a ka r) <= fuel)%nat →
  let els := elems (plug D (N c l a ka r)) in
  runs (tdelete_found fuel s (slot_of D)) m (λ _ m', ∃ u els', removed els a ka u els' ∧ stored els' m' ∧ nodes m' !! u = None ∧ unch els.*1 m m').
Proof.
  intros Hat Hb Hst H40 Hf els. rewrite tdelete_found_eq. cbn [height] in H40, Hf.
  eapply runs_bind, at_deref; [exact Hat|]. cbn [ptr]. eapply runs_bind, at_RIGHT; [exact Hat|]. eapply runs_bind, at_LEFT; [exact Hat|].
  pose proof Hat as Hl. apply at_left, at_null in Hl. pose proof Hat as Hr. apply at_right in Hr. rewrite Hl, (at_null _ _ _ Hr). apply runs_bind.
  destruct (empty l || empty r) eqn:Eone.
  - apply runs_ret. assert (l = E ∨ r = E) as Hone by (apply orb_true_iff in Eone as [?|?]; [left; by destruct l|right; by destruct r]).
    eapply runs_mono; [apply (remove_ok fuel s (slot_of D) a m D D c l a ka r); try done|].
    + by intros ->.
    + intros m1 Hat1 _. rewrite Z.eqb_refl. apply runs_ret. split; [done|]. split; [done|]. apply unch_refl.
    + lia.
    + lia.
    + intros _ m' (H1 & H2 & H3). exists a, (elems (plug D (only l r))). split; [|done]. exists (before D ++ elems l), (elems r ++ after D).
      unfold els. rewrite !elems_plug. cbn [elems]. split; [by simplify_list_eq|]. left. split; [done|].
      unfold only. destruct l; [by cbn; simplify_list_eq|]. destruct Hone as [| ->]; [done|]. cbn [elems app]. by rewrite <- !(assoc_L (++)).
  - apply orb_false_iff in Eone as [El Er]. assert (r ≠ E) as Hne by (by intros ->).
    apply runs_bind. eapply runs_mono; [apply (successor_loop_ok m fuel (Frame R c a ka l) D r s Hr Hne Hst); lia|].
    intros [s' up] m' [-> (G & cu & u & ku & ru & -> & HG & -> & Hst')].
    rewrite <- at_app in Hr. eapply runs_bind, at_deref; [exact Hr|]. apply runs_ret. cbn [ptr].
    pose proof (height_plug G (N cu E u ku ru)) as Hh. cbn [height] in Hh.
    set (F := λ k, G ++ Frame R c a k l :: D). assert (∀ k t, plug (F k) t = plug D (N c l a k (plug G t))) as HF by (intros k t; unfold F; by rewrite plug_app).
    assert (∀ k, length (F k) = S (length G + length D)) as HlF by (intros k; unfold F; rewrite length_app; cbn; lia).
    assert (u ≠ a) as Hua.
    { pose proof (at_good _ _ _ Hat) as [Hnd _]. unfold addrs in Hnd. rewrite elems_plug in Hnd. cbn [elems] in Hnd. rewrite elems_plug in Hnd. cbn [elems app] in Hnd.
      rewrite !fmap_app, !fmap_cons, !fmap_app, !fmap_cons in Hnd. intros ->. clear -Hnd.
      apply NoDup_app in Hnd as (_ & _ & Hnd). apply NoDup_app in Hnd as (Hnd & _). apply NoDup_app in Hnd as (_ & _ & Hnd). cbn in Hnd.
      apply NoDup_cons in Hnd as [Hnd _]. apply Hnd. rewrite elem_of_app, elem_of_cons. auto. }
    eapply runs_mono; [apply (remove_ok fuel s' (slot_of D) a m (F ka) (F ku) cu E u ku ru); try done|].
    + by left.
    + by destruct G.
    + unfold F. clear. induction G as [|g G IH]; [done|]. cbn [app slots]. rewrite IH. f_equal. by destruct G.
    + apply balanced_top. rewrite HF. apply balanced_top. apply (balanced_key _ _ _ _ ka). done.
    + unfold addrs. rewrite !HF, !elems_plug. cbn [elems]. by rewrite !fmap_app, !fmap_cons.
    + intros m1 Hat1 Hn1. rewrite (proj2 (Z.eqb_neq _ _) Hua). cbn [negb].
      assert (Hn := proj1 (at_node _ _ _ _ _ _ _ Hr)). unfold get in Hn. rewrite <- Hn1 in Hn. eapply runs_bind, runs_get; [exact Hn|].
      cbn [key enc]. unfold F in Hat1. apply at_app in Hat1. rewrite <- (at_right _ _ _ _ _ ka) in Hat1. eapply runs_mono; [eapply set_key_at; exact Hat1|].
      intros _ m2 [Hat2 Hu2]. split; [unfold F; apply at_app; by rewrite <- at_right|]. split; [apply Hu2; by intros ?%list_elem_of_singleton|].
      eapply unch_sub; [exact Hu2|]. intros b ->%list_elem_of_singleton. unfold addrs. rewrite HF, elems_plug. cbn [elems].
      rewrite !fmap_app, fmap_cons, !elem_of_app, elem_of_cons. auto.
    + rewrite HlF. lia.
    + rewrite HlF. lia.
    + intros _ m' (H1 & H2 & H3). exists u, (elems (plug (F ku) (only E ru))). split; [|split; [done|split; [done|]]].
      * exists (before D ++ elems l), (elems (plug G (N cu E u ku ru)) ++ after D). unfold els. rewrite HF, !elems_plug. cbn [elems]. rewrite !elems_plug. cbn [elems app only].
        split; [by simplify_list_eq|]. right. rewrite (elems_left_only G) by done. cbn [app]. eexists _, _. split; [reflexivity|]. by simplify_list_eq.
      * unfold addrs in H3. by rewrite HF in H3.
Qed.

Lemma top_in f C p : top (f :: C) p ∈ caddrs (f :: C).
Proof.
  revert f p. induction C as [|g C IH]; intros f p; [apply caddrs_head|]. cbn [top] in *. rewrite caddrs_cons. right. apply elem_of_app. right. apply (IH g (fa f)).
Qed.

(** The caller gets the address of the parent, or that of the node if it is the root. *)
Lemma parent_ok m D c l a ka r : at_ m D (N c l a ka r) →
  let q := match D with [] => root_var m | f :: _ => fa f end in
  q ∈ addrs (plug D (N c l a ka r)) ∧ (q = a ↔ root_var m = a).
Proof.
  intros Hat q. pose proof (at_root _ _ _ Hat) as Hr. destruct (at_good _ _ _ Hat) as [Hnd _]. rewrite addrs_plug in *. unfold q. clear q.
  destruct D as [|f D]; [cbn [top ptr] in Hr; rewrite Hr, addrs_node; split; [by left|done]|].
  rewrite addrs_node in *. cbn [app] in *. rewrite NoDup_cons, elem_of_app in Hnd. destruct Hnd as [Hni _].
  split; [right; apply elem_of_app; right; apply caddrs_head|]. split; intros E0; exfalso; apply Hni; right.
  - rewrite <- E0. apply caddrs_head.
  - rewrite <- E0, Hr. apply top_in.
Qed.

Section tdelete.
Context (compar : Z → Z → Z) `{!CmpOrder compar}.
Set Default Proof Using "All".

Lemma sorted_removed els a ka u els' : sorted compar els → removed els a ka u els' → sorted compar els'.
Proof.
  intros Hs (l1 & l2 & -> & [[-> ->]|(ku & l3 & -> & ->)]); apply (sorted_middle compar) in Hs as [Hs _]; [done|].
  apply (sorted_middle compar) in Hs. by apply (sorted_middle compar).
Qed.

Lemma tdelete_ok fuel k m els :
  tree_of compar m els → len els + 1 < 2 ^ 20 → (length els <= fuel)%nat →
  runs (tdelete compar fuel k (Some Rootp)) m (λ q m',
    (q = 0 ∧ m' = m ∧ ∀ y, y ∈ els → compar k y.2 ≠ 0) ∨
    (∃ a ka u els', compar k ka = 0 ∧ removed els a ka u els' ∧ tree_of compar m' els' ∧ nodes m' !! u = None ∧ unch els.*1 m m' ∧
      q ∈ els.*1 ∧ (q = a ↔ root_var m = a))).
Proof.
  intros (t & Hat & Hb & Hel & Hs) Hlen Hf. unfold tdelete. eapply runs_bind, (at_deref m []); [exact Hat|]. rewrite (at_null _ _ _ Hat).
  destruct (empty t) eqn:Et; [apply runs_ret; left; split; [done|split; [done|]]; subst els; destruct t; [by intros y []%not_elem_of_nil|done]|].
  eapply runs_bind, (at_deref m []); [exact Hat|]. pose proof (height_length t) as Hh. rewrite Hel in Hh.
  assert (height t <= 39)%nat as H39.
  { destruct Hb as (c & n & Ht & _). apply (rb_height_bound c n t 19 Ht). rewrite Hel. exact Hlen. }
  apply runs_bind. eapply runs_mono; [apply (tdelete_search_ok compar k t (ptr t) m fuel [] t ([], 40) (ptr t)); try done|].
  { by rewrite Hel. }
  { by constructor. }
  { by intros ->. }
  { lia. }
  intros [[[s q] rootp]|] m' [-> Hpost]; cbn [search_post] in Hpost; rewrite ?Hel in Hpost; [|apply runs_ret; by left].
  destruct Hpost as (D & c & l & a & ka & r & Ht & Hk & -> & Hst & Hq). pose proof Hat as HatD. rewrite <- Ht in HatD. apply (proj1 (at_plug m D _)) in HatD.
  pose proof (height_plug D (N c l a ka r)) as HhD. rewrite Ht in HhD.
  apply runs_bind. eapply runs_mono; [apply (tdelete_found_ok fuel m D c l a ka r s HatD); [|done|lia|lia]|].
  { apply balanced_top. by rewrite Ht. }
  rewrite Ht, Hel. intros _ m' (u & els' & Hrem & (t' & Hat' & Hb' & Hel') & Hn & Hu). apply runs_ret. right. exists a, ka, u, els'.
  split; [done|]. split; [done|]. split; [exists t'; do 3 (split; [done|]); by eapply sorted_removed|]. split; [done|]. split; [done|].
  destruct (parent_ok m D c l a ka r HatD) as [H1 H2]. rewrite Ht in H1. unfold addrs in H1. rewrite Hel in H1.
  assert (root_var m = ptr t) as Hroot by exact (at_root _ _ _ Hat). subst q. rewrite Hroot in *. by destruct D.
Qed.
End tdelete.
