(* ===== verification/TsearchWalk.v ===== *)
(** * TsearchWalk: [tfind], [twalk], [twalk_r] and [tdestroy] *)

From S2P Require Import Prelude SortList Tsearch TsearchTree TsearchRep TsearchInsert TsearchDelete TsearchRemove.
Local Open Scope Z_scope.

Section find.
Context (compar : Z → Z → Z) `{!CmpOrder compar} (k : Z).
Set Default Proof Using "All".

(** The key is found or is not there. *)
Definition lookup_post (els : list (Z * Z)) (q : Z) : Prop :=
  q = 0 ∧ (∀ y, y ∈ els → compar k y.2 ≠ 0) ∨ ∃ kq, (q, kq) ∈ els ∧ compar k kq = 0.

Lemma tfind_loop_ok els m fuel : ∀ C t,
  at_ m C t → elems (plug C t) = els → sorted compar els → path_ok compar k C → (height t < fuel)%nat →
  runs (tfind_loop compar fuel k (slot_of C)) m (λ q m', m' = m ∧ lookup_post els q).
Proof.
  induction fuel as [|fuel IH]; intros C t Hat Hel Hs Hp Hf; [lia|]. cbn [tfind_loop].
  eapply runs_bind, at_deref; [exact Hat|]. rewrite (at_null _ _ _ Hat). destruct t as [|c l a ka r]; cbn [empty].
  - apply runs_ret. split; [done|]. left. split; [done|]. intros y Hy. rewrite <- Hel, elems_plug in Hs, Hy. cbn [elems app] in Hs, Hy.
    apply elem_of_app in Hy as [Hy|Hy].
    + pose proof (path_before compar k _ _ Hp Hs y Hy). lia.
    + pose proof (path_after compar k _ _ Hp Hs y Hy). lia.
  - cbn [ptr]. eapply runs_bind, at_runs_get; [exact Hat|]. intros x ->. destruct (compar k ka =? 0) eqn:E0; zb.
    { apply runs_ret. split; [done|]. right. exists ka. split; [|done]. rewrite <- Hel. apply elems_in. }
    destruct (child_frame compar k C c l a ka r E0) as (f & Ef & _ & _ & _ & Hsd & _).
    pose proof (child_at compar k m C _ Hat) as Hat'. pose proof (child_height compar k C c l a ka r) as Hh.
    pose proof (child_elems compar k C (N c l a ka r)) as Hel'. rewrite (child_slot compar k C c l a ka r). rewrite Ef in *.
    apply (IH (f :: C) _ Hat'); [by rewrite Hel'|done|by constructor|lia].
Qed.

Lemma tfind_ok els m fuel :
  tree_of compar m els → (length els < fuel)%nat → runs (tfind compar fuel k (Some Rootp)) m (λ q m', m' = m ∧ lookup_post els q).
Proof.
  intros (t & Hat & _ & Hel & Hs) Hf. apply (tfind_loop_ok els m fuel [] t); [done|done|done|constructor|].
  pose proof (height_length t) as Hh. rewrite Hel in Hh. lia.
Qed.
End find.

(** ** Walking *)

(** The walk over a tree. *)
Fixpoint walk (t : tree) (level : Z) : list (Z * VISIT * Z) :=
  match t with
  | E => []
  | N _ E a _ E => [(a, leaf, level)]
  | N _ l a _ r => (a, preorder, level) :: walk l (level + 1) ++ (a, postorder, level) :: walk r (level + 1) ++ [(a, endorder, level)]
  end.

Definition without_level (v : Z * VISIT * Z) : Z * VISIT := v.1.

Lemma walk_leaf c l a k r level : empty l && empty r = true → walk (N c l a k r) level = [(a, leaf, level)].
Proof. by destruct l, r. Qed.

Lemma walk_inner c l a k r level : empty l && empty r = false → walk (N c l a k r) level =
  (a, preorder, level) :: walk l (level + 1) ++ (a, postorder, level) :: walk r (level + 1) ++ [(a, endorder, level)].
Proof. by destruct l, r. Qed.

(** The nodes of the visits that come in the order of the keys. *)
Definition in_order (v : Z * VISIT * Z) : option Z :=
  match v with (a, postorder, _) | (a, leaf, _) => Some a | _ => None end.

Lemma trecurse_ok fuel : ∀ m C t level,
  at_ m C t → t ≠ E → (height t <= fuel)%nat → runs (trecurse fuel (ptr t) level) m (λ v m', m' = m ∧ v = walk t level).
Proof.
  induction fuel as [|fuel IH]; intros m C t level Hat Hne Hf; (destruct t as [|c l a k r]; [done|]); cbn [height] in Hf; [lia|].
  cbn [trecurse ptr]. pose proof Hat as Hl. apply at_left in Hl. pose proof Hat as Hr. apply at_right in Hr.
  eapply runs_bind, at_LEFT; [exact Hat|]. eapply runs_bind, at_RIGHT; [exact Hat|]. rewrite (at_null _ _ _ Hl), (at_null _ _ _ Hr).
  assert (∀ C' t', at_ m C' t' → (height t' <= fuel)%nat →
    runs (if negb (empty t') then trecurse fuel (ptr t') (level + 1) else mret []) m (λ v m', m' = m ∧ v = walk t' (level + 1))) as Hsub.
  { intros C' t' Hat' Hh. destruct t' as [|c' l' a' k' r']; cbn [empty negb]; [by apply runs_ret|]. by apply (IH m C'). }
  destruct (empty l && empty r) eqn:Eb.
  - apply runs_ret. split; [done|]. by rewrite walk_leaf.
  - apply runs_bind. eapply runs_mono; [apply (Hsub _ _ Hl); lia|]. intros v1 m' [-> ->].
    eapply runs_bind, at_RIGHT; [exact Hat|]. rewrite (at_null _ _ _ Hr).
    apply runs_bind. eapply runs_mono; [apply (Hsub _ _ Hr); lia|]. intros v2 m' [-> ->]. apply runs_ret. split; [done|].
    by rewrite walk_inner.
Qed.

(** [twalk_r] makes the same calls without the level. *)
Lemma trecurse_r_ok fuel : ∀ m C t level,
  at_ m C t → t ≠ E → (height t <= fuel)%nat → runs (trecurse_r fuel (ptr t)) m (λ v m', m' = m ∧ v = without_level <$> walk t level).
Proof.
  induction fuel as [|fuel IH]; intros m C t level Hat Hne Hf; (destruct t as [|c l a k r]; [done|]); cbn [height] in Hf; [lia|].
  cbn [trecurse_r ptr]. pose proof Hat as Hl. apply at_left in Hl. pose proof Hat as Hr. apply at_right in Hr.
  eapply runs_bind, at_LEFT; [exact Hat|]. eapply runs_bind, at_RIGHT; [exact Hat|]. rewrite (at_null _ _ _ Hl), (at_null _ _ _ Hr).
  assert (∀ C' t', at_ m C' t' → (height t' <= fuel)%nat →
    runs (if negb (empty t') then trecurse_r fuel (ptr t') else mret []) m (λ v m', m' = m ∧ v = without_level <$> walk t' (level + 1))) as Hsub.
  { intros C' t' Hat' Hh. destruct t' as [|c' l' a' k' r']; cbn [empty negb]; [by apply runs_ret|]. by apply (IH m C'). }
  destruct (empty l && empty r) eqn:Eb.
  - apply runs_ret. split; [done|]. by rewrite walk_leaf.
  - apply runs_bind. eapply runs_mono; [apply (Hsub _ _ Hl); lia|]. intros v1 m' [-> ->].
    eapply runs_bind, at_RIGHT; [exact Hat|]. rewrite (at_null _ _ _ Hr).
    apply runs_bind. eapply runs_mono; [apply (Hsub _ _ Hr); lia|]. intros v2 m' [-> ->]. apply runs_ret. split; [done|].
    rewrite walk_inner by done. by rewrite fmap_cons, fmap_app, fmap_cons, fmap_app.
Qed.

Lemma walk_in_order t level : omap in_order (walk t level) = addrs t.
Proof.
  unfold addrs. revert level. induction t as [|c l IHl a k r IHr]; intros level; [done|].
  destruct (empty l && empty r) eqn:Eb.
  - rewrite walk_leaf by done. by destruct l, r.
  - rewrite walk_inner by done. cbn [elems]. rewrite fmap_app, fmap_cons, <- (IHl (level + 1)), <- (IHr (level + 1)).
    cbn. rewrite omap_app. cbn. rewrite omap_app. cbn. by rewrite app_nil_r.
Qed.

(** ** [tdestroy] *)

(** The order of the calls of [freefct]. *)
Fixpoint postfix (t : tree) : list Z := match t with E => [] | N _ l _ k r => postfix l ++ postfix r ++ [k] end.

Lemma postfix_perm t : postfix t ≡ₚ (elems t).*2.
Proof. induction t as [|c l IHl a k r IHr]; [done|]. cbn. rewrite fmap_app, IHl, IHr. cbn. solve_Permutation. Qed.

Lemma tdestroy_recurse_ok fuel : ∀ m t,
  rep (nodes m) t → NoDup (addrs t) → Forall addr_ok (addrs t) → t ≠ E → (height t <= fuel)%nat →
  runs (tdestroy_recurse fuel (ptr t)) m (λ v m', v = postfix t ∧ (∀ a, a ∈ addrs t → nodes m' !! a = None) ∧ unch (addrs t) m m').
Proof.
  induction fuel as [|fuel IH]; intros m t Hr Hnd Hv Hne Hf; (destruct t as [|c l a k r]; [done|]); cbn [height] in Hf; [lia|].
  rewrite addrs_node in Hnd, Hv. rewrite NoDup_cons, NoDup_app, elem_of_app in Hnd. destruct Hnd as (Hni & Hndl & Hd & Hndr).
  rewrite Forall_cons, Forall_app in Hv. destruct Hv as (Va & Vl & Vr). pose proof (ptr_tree_ok _ Vl). destruct Hr as (Hn & Rl & Rr).
  assert (∀ m t', rep (nodes m) t' → NoDup (addrs t') → Forall addr_ok (addrs t') → (height t' <= fuel)%nat →
    runs (if negb (ptr t' =? 0) then tdestroy_recurse fuel (ptr t') else mret []) m (λ v m', v = postfix t' ∧ (∀ a, a ∈ addrs t' → nodes m' !! a = None) ∧ unch (addrs t') m m')) as Hsub.
  { intros m0 t' Hr' Hnd' Hv' Hh. rewrite ptr_null by done. destruct t' as [|c' l' a' k' r']; cbn [empty negb]; [|by apply IH].
    apply runs_ret. split; [done|]. split; [by intros b []%not_elem_of_nil|apply unch_refl]. }
  cbn [tdestroy_recurse ptr]. eapply runs_bind, runs_LEFT; [exact Hn|done|].
  apply runs_bind. eapply runs_mono; [apply Hsub; [done..|lia]|]. intros v1 m1 (-> & Hl1 & Hu1).
  unfold get in Hn. rewrite <- (Hu1 a) in Hn by tauto. eapply runs_bind, runs_RIGHT; [exact Hn|done|].
  apply runs_bind. eapply runs_mono; [apply Hsub; [|done|done|lia]|].
  { eapply rep_unch; [exact Hu1| |done]. intros b Hb Hb'. by apply (Hd b). }
  intros v2 m2 (-> & Hl2 & Hu2). unfold get in Hn. rewrite <- (Hu2 a) in Hn by tauto. eapply runs_bind, runs_get; [exact Hn|].
  apply runs_bind. exists tt, (Store (delete a (nodes m2)) (root_var m2)). split; [unfold free; by rewrite Hn|]. apply runs_ret. split; [done|].
  assert (∀ b, b ≠ a → nodes (Store (delete a (nodes m2)) (root_var m2)) !! b = nodes m2 !! b) as Hne' by (intros b Hb; by apply lookup_delete_ne).
  split.
  - intros b. rewrite addrs_node, elem_of_cons, elem_of_app. intros Hb. destruct (decide (b = a)) as [->|Hba]; [apply lookup_delete_eq|].
    rewrite Hne' by done. destruct Hb as [?|[Hb|Hb]]; [done| |by apply Hl2]. rewrite Hu2; [by apply Hl1|by apply Hd].
  - intros b. rewrite addrs_node, elem_of_cons, elem_of_app. intros Hb. rewrite Hne' by tauto. rewrite Hu2, Hu1 by tauto. done.
Qed.

Lemma tree_of_root compar m els : tree_of compar m els →
  ∃ t, at_ m [] t ∧ elems t = els ∧ root_var m = ptr t ∧ (height t <= length els)%nat ∧ (root_var m =? 0) = empty t.
Proof.
  intros (t & Hat & _ & Hel & _). exists t. pose proof (at_root _ _ _ Hat) as Hr. cbn [top] in Hr. split; [done|]. split; [done|]. split; [done|].
  split; [rewrite <- Hel; apply height_length|]. rewrite Hr. apply (at_null _ _ _ Hat).
Qed.

Lemma twalk_ok compar m els fuel :
  tree_of compar m els → (length els <= fuel)%nat →
  runs (twalk fuel (root_var m) false) m (λ v m', m' = m ∧ omap in_order v = els.*1 ∧
    runs (twalk_r fuel (root_var m) false) m (λ w m', m' = m ∧ w = without_level <$> v)).
Proof.
  intros (t & Hat & Hel & Hr & Hh & He)%tree_of_root Hf. unfold twalk, twalk_r. rewrite He, Hr. destruct (empty t) eqn:Et; cbn [negb andb].
  - apply runs_ret. split; [done|]. split; [subst els; by destruct t|]. by apply runs_ret.
  - assert (t ≠ E) as Hne by (by intros ->). eapply runs_mono; [apply (trecurse_ok fuel m [] t 0); [done|done|lia]|].
    intros v m' [-> ->]. split; [done|]. split; [rewrite walk_in_order; unfold addrs; by rewrite Hel|]. apply (trecurse_r_ok fuel m []); [done|done|lia].
Qed.

Lemma tdestroy_ok compar m els fuel :
  tree_of compar m els → (length els <= fuel)%nat →
  runs (tdestroy fuel (root_var m)) m (λ v m', v ≡ₚ els.*2 ∧ (∀ a, a ∈ els.*1 → nodes m' !! a = None) ∧ unch els.*1 m m').
Proof.
  intros (t & Hat & Hel & Hr & Hh & He)%tree_of_root Hf. unfold tdestroy. rewrite He, Hr. destruct (empty t) eqn:Et; cbn [negb].
  - apply runs_ret. subst els. destruct t; [|done]. split; [done|]. split; [by intros b []%not_elem_of_nil|apply unch_refl].
  - pose proof Hat as [_ _ Rt [Hnd Hv]]. cbn [plug] in Hnd, Hv.
    eapply runs_mono; [apply (tdestroy_recurse_ok fuel m t); [done|done|done|by intros ->|lia]|]. intros v m' (-> & H1 & H2).
    unfold addrs in H1, H2. rewrite Hel in H1, H2. split; [by rewrite postfix_perm, Hel|done].
Qed.
