(* ===== verification/TsearchOverflow.v ===== *)
(** * TsearchOverflow: a path of forty nodes overflows [nodestack]

    The loops that go down the tree enlarge the array when it is full; the push in the red
    sibling case of the balancing loop does not.  When the node to be unlinked is black, has
    exactly [stacksize] nodes above it and a red sibling, the store is past the array. *)

From S2P Require Import Prelude SortList Tsearch TsearchTree TsearchRep TsearchInsert TsearchDelete TsearchRemove.
Local Open Scope Z_scope.

Lemma stuck_bind {A B} (x : T A) (f : A → T B) m Q :
  runs x m Q → (∀ a m', Q a m' → f a m' = None) → (x ≫= f) m = None.
Proof. intros (a & m' & E0 & HQ) Hf. rewrite (T_step _ _ _ _ _ E0). by apply Hf. Qed.

Lemma stuck_first {A B} (x : T A) (f : A → T B) m : x m = None → (x ≫= f) m = None.
Proof. intros E0. unfold mbind, T_bind. by rewrite E0. Qed.

(** A step that reads a value. *)
Lemma stuck_read {A B} (x : T A) (f : A → T B) m a :
  (∀ Q : A → store → Prop, Q a m → runs x m Q) → f a m = None → (x ≫= f) m = None.
Proof. intros Hx Hf. apply (stuck_bind _ _ _ (λ b m', b = a ∧ m' = m)); [by apply Hx|]. by intros b m' [-> ->]. Qed.

(** No result, or a normal run. *)
Definition outcome {A} (x : T A) (m : store) (Q : A → store → Prop) : Prop := x m = None ∨ runs x m Q.

Lemma outcome_read {A B} (x : T A) (f : A → T B) m a Q :
  (∀ P : A → store → Prop, P a m → runs x m P) → outcome (f a) m Q → outcome (x ≫= f) m Q.
Proof.
  intros Hx [Hf|Hf]; [left; by eapply stuck_read|right]. by apply runs_bind, Hx.
Qed.

Section overflow.
Context (d : dir) (C : list frame) (p kp q kq : Z) (near far : tree) (u ku : Z).

(** The sibling [q] of the node [u] is red. *)
Definition red_sibling : tree := nd d true near q kq far.
Definition above_u : list frame := Frame d false p kp red_sibling :: C.

Lemma red_sibling_red : red red_sibling = true.
Proof. unfold red_sibling. by destruct d. Qed.

Lemma red_sibling_node : red_sibling ≠ E.
Proof. intros E0. pose proof red_sibling_red as H. by rewrite E0 in H. Qed.

(** The push finds the array full. *)
Lemma balance_full s m x : at_ m C (nd d false x p kp red_sibling) → len s.1 = s.2 → balance d s (slot_of C) p m = None.
Proof.
  intros Hat Hfull. rewrite balance_by_eq. unfold balance_by.
  eapply stuck_read; [intros Q; exact (at_sibling _ _ _ _ _ _ _ _ _ Hat)|]. pose proof Hat as Hq. apply at_far in Hq.
  assert (∀ c y a k z, ptr (nd d c y a k z) = a) as Eptr by by destruct d.
  eapply stuck_read; [intros Q; exact (at_RED _ _ _ _ Hq red_sibling_node)|].
  rewrite red_sibling_red. unfold red_sibling in Hat |- *. rewrite Eptr.
  eapply stuck_bind; [apply (rotate_red_ok d m C x p kp near q kq far Hat)|]. intros _ m' _.
  apply stuck_first. unfold push. rewrite (proj2 (Z.ltb_ge _ _)) by lia. done.
Qed.

Lemma balance_loop_full fuel s m : at_ m above_u E → s.1 = slots above_u → len s.1 = s.2 → balance_loop fuel s 0 m = None.
Proof.
  intros Hat Hs Hfull. destruct fuel as [|fuel]; cbn [balance_loop]; rewrite Hs; [done|]. cbn [slots above_u].
  pose proof Hat as Hat0. apply at_near in Hat0.
  eapply stuck_read; [intros Q; exact (runs_ret _ _ _)|]. eapply stuck_read; [intros Q; exact (at_deref _ _ _ _ Hat0)|].
  assert (∀ c y a k z, ptr (nd d c y a k z) = a) as -> by by destruct d.
  apply (stuck_bind _ _ _ (λ l m', (ptr E =? l) = match d with L => true | R => false end ∧ m' = m)).
  { apply (at_side d m C false E p kp red_sibling); [done|exact red_sibling_node|]. by intros. }
  intros l m' [El ->]. change (ptr E) with 0 in El. rewrite El. apply stuck_first.
  pose proof (balance_full s m E Hat0 Hfull) as Hb. destruct d; exact Hb.
Qed.

Lemma remove_full fuel s rootp m : at_ m above_u (N false E u ku E) → s.1 = slots above_u → len s.1 = s.2 → remove fuel s rootp u u m = None.
Proof.
  intros Hat Hs Hfull. unfold remove. eapply stuck_read; [intros Q; exact (at_LEFT _ _ _ _ _ _ _ _ Hat)|]. cbn [ptr Z.eqb].
  eapply stuck_read; [intros Q; exact (at_RIGHT _ _ _ _ _ _ _ _ Hat)|]. cbn [ptr].
  pose proof (at_node _ _ _ _ _ _ _ Hat) as (Hn & _).
  eapply stuck_bind; [apply (unchain_ok m above_u s rootp false E u ku E Hat); [by left|done|done]|]. cbn [only].
  intros _ m1 (Hat1 & Hn1 & _). rewrite Z.eqb_refl. eapply stuck_read; [intros Q; exact (runs_ret _ _ _)|].
  eapply stuck_read; [intros Q; eapply runs_RED; [unfold get; rewrite Hn1; exact Hn|done]|]. cbn [negb].
  apply stuck_first, stuck_first. by apply balance_loop_full.
Qed.

Lemma tdelete_found_full fuel s m :
  at_ m above_u (N false E u ku E) → s.1 = slots above_u → len s.1 = s.2 → tdelete_found fuel s (slot_of above_u) m = None.
Proof.
  intros Hat Hs Hfull. rewrite tdelete_found_eq. eapply stuck_read; [intros Q; exact (at_deref _ _ _ _ Hat)|]. cbn [ptr].
  eapply stuck_read; [intros Q; exact (at_RIGHT _ _ _ _ _ _ _ _ Hat)|].
  eapply stuck_read; [intros Q; exact (at_LEFT _ _ _ _ _ _ _ _ Hat)|]. cbn [ptr Z.eqb orb].
  eapply stuck_read; [intros Q; exact (runs_ret _ _ _)|]. by apply remove_full.
Qed.

End overflow.

Lemma empty_plug G c l a k r : empty (plug G (N c l a k r)) = false.
Proof.
  revert c l a k r. induction G as [|[d' c' a' k' s'] G IH]; intros c l a k r; [done|]. cbn [plug]. unfold plug1. cbn. destruct d'; apply IH.
Qed.

(** The search follows the path to the node. *)
Lemma tdelete_search_path compar k m c l u kx r fuel : ∀ G D s x,
  at_ m (G ++ D) (N c l u kx r) → path_ok compar k G → compar k kx = 0 → s = (slots D, 40) → (length (G ++ D) <= 40)%nat →
  outcome (tdelete_search compar fuel k s x (slot_of D) (ptr (plug G (N c l u kx r)))) m
    (λ v m', m' = m ∧ ∃ x', v = Some ((slots (G ++ D), 40), x', slot_of (G ++ D))).
Proof.
  induction fuel as [|fuel IH]; intros G D s x Hat Hp Hk -> Hlen; [by left|]. destruct G as [|f G _] using rev_ind.
  - right. cbn [tdelete_search ptr plug app] in *. eapply runs_bind, at_runs_get; [exact Hat|]. intros y ->. rewrite Hk. apply runs_ret. split; [done|]. by exists x.
  - rewrite <- (assoc_L (++)) in Hat, Hlen |- *. cbn [app] in *. apply Forall_app in Hp as [HpG Hpf]. inversion Hpf as [|? ? Hf _]. subst.
    pose proof Hat as Hplug. apply at_app in Hplug. rewrite plug_app. cbn [plug].
    destruct f as [df cf a ka sf]. assert (compar k ka ≠ 0 ∧ (compar k ka <? 0) = match df with L => true | R => false end) as [Hne Hlt].
    { unfold side_ok in Hf. destruct df; cbn in Hf; (split; [lia|]); [by apply Z.ltb_lt|apply Z.ltb_ge; lia]. }
    rewrite ptr_plug1. cbn [tdelete_search fa].
    assert (at_ m D (nd df cf (plug G (N c l u kx r)) a ka sf)) as Hnd by (apply at_near; exact Hplug).
    pose proof (at_null _ _ _ Hplug) as Hnull.
    assert (∃ y, key y = ka ∧ ∀ P : node_t → store → Prop, P y m → runs (get_node a) m P) as (y & Ey & Hy).
    { destruct df; apply at_node in Hnd as (Hn & _); (eexists; split; [|intros P; apply (runs_get _ _ _ _ _ _ _ Hn)]); done. }
    apply (outcome_read _ _ _ y); [exact Hy|]. rewrite Ey, (proj2 (Z.eqb_neq _ _) Hne).
    apply (outcome_read _ _ _ (slots (Frame df cf a ka sf :: D), 40)).
    { intros P HP. unfold push_grow. rewrite length_app in Hlen. cbn [length] in Hlen. cbn [fst snd]. rewrite length_slots, (proj2 (Z.eqb_neq _ _)) by lia.
      apply runs_push; [cbn [fst snd]; rewrite length_slots; lia|exact HP]. }
    apply (outcome_read _ _ _ a).
    { intros P HP. eapply at_deref; [exact Hnd|]. by destruct df. }
    apply (outcome_read _ _ _ (ptr (plug G (N c l u kx r)))).
    { intros P HP. rewrite Hlt. destruct df; [by eapply at_LEFT|by eapply at_RIGHT]. }
    rewrite Hnull, empty_plug, Hlt. replace (if match df with L => true | R => false end then Leftp a else Rightp a) with (slot_of (Frame df cf a ka sf :: D)) by by destruct df.
    apply (IH G (Frame df cf a ka sf :: D)); done.
Qed.

(** The deletion of a black node without successors at depth forty, with a red sibling,
    writes past the array. *)
Lemma tdelete_overflows compar fuel k m d C p kp q kq near far u ku :
  let F := above_u d C p kp q kq near far in
  at_ m F (N false E u ku E) → path_ok compar k F → compar k ku = 0 → length F = 40%nat →
  tdelete compar fuel k (Some Rootp) m = None.
Proof.
  intros F Hat Hp Hk Hlen. pose proof Hat as Hroot. rewrite <- (app_nil_r F) in Hroot. apply at_app in Hroot. pose proof (at_null _ _ _ Hroot) as Hnull.
  unfold tdelete. eapply stuck_read; [intros Q; exact (at_deref _ _ _ _ Hroot)|]. rewrite Hnull, empty_plug.
  eapply stuck_read; [intros Q; exact (at_deref _ _ _ _ Hroot)|].
  destruct (tdelete_search_path compar k m false E u ku E fuel F [] ([], 40) (ptr (plug F (N false E u ku E)))) as [H0|H0]; rewrite ?app_nil_r; try done; [lia|by apply stuck_first|].
  rewrite app_nil_r in H0. eapply stuck_bind; [exact H0|]. intros v m' [-> [x' ->]]. apply stuck_first.
  apply (tdelete_found_full d C p kp q kq near far u ku); [exact Hat|done|]. cbn [fst snd]. rewrite length_slots. fold F. lia.
Qed.

(** ** Such a tree exists *)

(** The store of a tree. *)
Fixpoint nodes_of (t : tree) : list (Z * node_t) :=
  match t with E => [] | N c l a k r => nodes_of l ++ (a, enc c k (ptr l) (ptr r)) :: nodes_of r end.
Definition store_of (t : tree) : store := Store (list_to_map (nodes_of t)) (ptr t).

Lemma nodes_of_addrs t : (nodes_of t).*1 = addrs t.
Proof. unfold addrs. induction t as [|c l IHl a k r IHr]; [done|]. cbn. by rewrite !fmap_app, !fmap_cons, IHl, IHr. Qed.

Lemma store_of_ok t : good t → at_ (store_of t) [] t.
Proof.
  intros Hg. split; [done|done| |done]. destruct Hg as [Hnd _]. rewrite <- nodes_of_addrs in Hnd.
  assert (∀ a x, (a, x) ∈ nodes_of t → nodes (store_of t) !! a = Some x) as Hin by (intros a x Hx; by apply elem_of_list_to_map_1).
  revert Hin. generalize (nodes (store_of t)) as h. intros h. clear Hnd. induction t as [|c l IHl a k r IHr]; intros Hin; [done|]. cbn [nodes_of] in Hin.
  cbn [rep]. split; [|split].
  - apply Hin. rewrite elem_of_app, elem_of_cons. auto.
  - apply IHl. intros b x Hx. apply Hin. rewrite elem_of_app. auto.
  - apply IHr. intros b x Hx. apply Hin. rewrite elem_of_app, elem_of_cons. auto.
Qed.

Lemma store_of_tree compar t : good t → balanced [] t → sorted compar (elems t) → tree_of compar (store_of t) (elems t).
Proof. intros Hg Hb Hs. exists t. split; [by apply store_of_ok|done]. Qed.

(** Keys and addresses in order. *)
Definition label_of (j : Z) : Z * Z := (16 * (j + 1), j).
Fixpoint label (t : tree) (i : Z) : tree :=
  match t with
  | E => E
  | N c l _ _ r => N c (label l i) (label_of (i + len (elems l))).1 (i + len (elems l)) (label r (i + len (elems l) + 1))
  end.

Lemma elems_label t i : elems (label t i) = label_of <$> seqZ i (len (elems t)).
Proof.
  revert i. induction t as [|c l IHl a k r IHr]; intros i; [done|]. cbn [label elems]. rewrite IHl, IHr, length_app. cbn [length].
  rewrite Nat2Z.inj_add, seqZ_app, fmap_app by lia. f_equal. rewrite Nat2Z.inj_succ, <- Z.add_1_l, seqZ_app by lia. cbn. done.
Qed.

Lemma label_good t i : 0 <= i → 16 * (i + len (elems t)) < 2 ^ 64 → good (label t i).
Proof.
  intros Hi Hs. unfold good, addrs. rewrite elems_label, <- list_fmap_compose. split.
  - apply NoDup_fmap_2; [|apply NoDup_seqZ]. intros x y Hxy. unfold label_of in Hxy. cbn in Hxy. lia.
  - apply Forall_fmap, Forall_forall. intros j [Hj1 Hj2]%elem_of_seqZ. unfold addr_ok, ptr_ok. cbn -[Z.mul Z.add].
    split; [lia|]. split; [lia|]. replace (16 * (j + 1)) with (8 * (j + 1) * 2) by lia. by rewrite Z.mod_mul.
Qed.

Lemma label_sorted t i : sorted Z.sub (elems (label t i)).
Proof.
  rewrite elems_label. generalize (len (elems t)) as n. intros n. unfold sorted, seqZ. rewrite <- list_fmap_compose.
  generalize (Z.to_nat n) as k. intros k. generalize O as j. induction k as [|k IH]; intros j; cbn; constructor; [apply IH|].
  apply Forall_fmap, Forall_forall. intros x [Hx _]%elem_of_seq. unfold below. cbn. lia.
Qed.

Lemma label_rb c n t i : rb c n t → rb c n (label t i).
Proof. intros H. revert i. induction H; intros i; cbn [label]; by econstructor. Qed.

(** The context of a labelled subtree. *)
Lemma label_plug C t i : ∃ C' j, label (plug C t) i = plug C' (label t j) ∧
  Forall2 (λ f f', fd f' = fd f ∧ fc f' = fc f ∧ ∃ s, fs f' = label (fs f) s) C C'.
Proof.
  revert t. induction C as [|f C IH]; intros t; [by exists [], i|]. cbn [plug]. destruct (IH (plug1 f t)) as (C' & j & E1 & HC').
  destruct f as [[] c a k s]; cbn [plug1 fd fc fa fk fs label] in E1.
  - exists (Frame L c (label_of (j + len (elems t))).1 (j + len (elems t)) (label s (j + len (elems t) + 1)) :: C'), j. split; [exact E1|].
    constructor; [|done]. cbn. eauto.
  - exists (Frame R c (label_of (j + len (elems s))).1 (j + len (elems s)) (label s j) :: C'), (j + len (elems s) + 1). split; [exact E1|].
    constructor; [|done]. cbn. eauto.
Qed.

#[export] Instance sub_order : CmpOrder Z.sub.
Proof. split; lia. Qed.

(** In a sorted tree the path to a node is that of its key. *)
Lemma path_of_sorted C t x : sorted Z.sub (elems (plug C t)) → x ∈ elems t → path_ok Z.sub x.2 C.
Proof.
  revert t. induction C as [|f C IH]; intros t Hs Hx; [constructor|]. cbn [plug] in Hs.
  constructor; [|apply (IH (plug1 f t)); [done|]; rewrite elems_plug1, !elem_of_app; auto].
  rewrite elems_plug, elems_plug1, !(sorted_app Z.sub) in Hs. destruct Hs as (_ & ((_ & (_ & _ & Ha) & Hb) & _) & _).
  unfold side_ok, before1, after1 in *. destruct (fd f).
  - specialize (Ha x (fa f, fk f) Hx ltac:(by left)). exact Ha.
  - specialize (Hb (fa f, fk f) x ltac:(rewrite elem_of_app; right; by left) ltac:(rewrite elem_of_app; by left)). unfold below in Hb. cbn in Hb. lia.
Qed.

(** A tree of only black nodes, and a path of alternating colours. *)
Fixpoint full (n : nat) : tree := match n with O => E | S n => N false (full n) 0 0 (full n) end.
Fixpoint spine (j n : nat) : list frame :=
  match j with
  | O => [Frame L false 0 0 (full n)]
  | S j => Frame L true 0 0 (full n) :: Frame L false 0 0 (full n) :: spine j (S n)
  end.

(** The node at the end of the path, below a node with a red successor. *)
Definition tall (j : nat) : tree :=
  plug (Frame L false 0 0 (N true (full 1) 0 0 (full 1)) :: spine j 2) (N false E 0 0 E).

Lemma full_rb n : rb false n (full n).
Proof. induction n as [|n IH]; cbn [full]; [constructor|by econstructor]. Qed.

Lemma spine_rbx j n : rbx (spine j n) false n.
Proof.
  revert n. induction j as [|j IH]; intros n; cbn [spine].
  - eapply rbx_black; [apply full_rb|constructor].
  - apply rbx_red; [apply full_rb|]. eapply rbx_black; [apply full_rb|apply IH].
Qed.

Lemma spine_length j n : length (spine j n) = (2 * j + 1)%nat.
Proof. revert n. induction j as [|j IH]; intros n; [done|]. cbn [spine length]. rewrite IH. lia. Qed.

Lemma tall_balanced j : balanced [] (tall j).
Proof.
  apply balanced_top. exists false, 1%nat. split; [repeat econstructor|]. eapply rbx_black; [|apply spine_rbx].
  apply rb_red; apply (full_rb 1).
Qed.

Lemma full_height n : height (full n) = n.
Proof. induction n as [|n IH]; [done|]. cbn [full height]. rewrite IH. lia. Qed.

Lemma size_height t : len (elems t) < 2 ^ Z.of_nat (height t).
Proof.
  induction t as [|c l IHl a k r IHr]; [done|]. cbn [elems height]. rewrite length_app, Nat2Z.inj_add. cbn [length].
  rewrite !Nat2Z.inj_succ, Z.pow_succ_r by lia.
  assert (2 ^ Z.of_nat (height l) <= 2 ^ Z.of_nat (Nat.max (height l) (height r))) by (apply Z.pow_le_mono_r; lia).
  assert (2 ^ Z.of_nat (height r) <= 2 ^ Z.of_nat (Nat.max (height l) (height r))) by (apply Z.pow_le_mono_r; lia). lia.
Qed.

Lemma spine_height j n t b : (height t <= b)%nat → (n <= b)%nat → (height (plug (spine j n) t) <= b + 2 * j + 1)%nat.
Proof.
  revert n t b. induction j as [|j IH]; intros n t b Ht Hn; cbn [spine plug]; unfold plug1; cbn [fd fs fc fa fk].
  - cbn [height]. rewrite full_height. lia.
  - specialize (IH (S n) (N false (N true t 0 0 (full n)) 0 0 (full n)) (b + 2)%nat). cbn [height] in IH. rewrite full_height in IH. lia.
Qed.

(** The deletion of the least key of the tree. *)
Lemma tdelete_overflows_at j : j = 19%nat → ∃ m els k, tree_of Z.sub m els ∧ k ∈ els.*2 ∧ ∀ fuel, tdelete Z.sub fuel k (Some Rootp) m = None.
Proof.
  intros Hj. set (t := label (tall j) 0). assert (good t) as Hg.
  { apply label_good; [done|]. pose proof (size_height (tall j)) as Hs.
    assert (height (tall j) <= 44)%nat as Hh.
    { unfold tall. cbn [plug]. eapply Nat.le_trans; [apply (spine_height j 2 _ 3); [cbn; lia|lia]|]. lia. }
    assert (2 ^ Z.of_nat (height (tall j)) <= 2 ^ 44) by (apply Z.pow_le_mono_r; lia). lia. }
  assert (balanced [] t) as Hb.
  { destruct (tall_balanced j) as (c & n & Ht & _). exists c, n. split; [by apply label_rb|constructor]. }
  pose proof (label_sorted (tall j) 0) as Hs. fold t in Hs.
  destruct (label_plug (Frame L false 0 0 (N true (full 1) 0 0 (full 1)) :: spine j 2) (N false E 0 0 E) 0) as (C' & i & Ht & HC).
  fold (tall j) in Ht. fold t in Ht. inversion HC as [|? [d' c' p kp s'] ? C (Hd & Hc & s & Hfs) HC2]. subst C' . cbn [fd fc fs] in Hd, Hc, Hfs. subst d' c' s'.
  cbn [label elems length full app] in Ht. set (ku := i + Z.of_nat 0) in *. set (u := (label_of ku).1) in *.
  pose proof (store_of_tree Z.sub t Hg Hb Hs) as Htree. pose proof (store_of_ok t Hg) as Hat.
  exists (store_of t), (elems t), ku. split; [exact Htree|]. clear Htree. revert Hat. generalize (store_of t) as m. intros m Hat.
  rewrite Ht in Hat. apply (proj1 (at_plug m _ _)) in Hat. split.
  - rewrite Ht. apply list_elem_of_fmap. exists (u, ku). split; [done|]. apply elems_in.
  - intros fuel. eapply (tdelete_overflows Z.sub fuel ku m L C p kp); [exact Hat| |lia|].
    + rewrite Ht in Hs. apply (path_of_sorted _ _ (u, ku)) in Hs; [exact Hs|]. by left.
    + unfold above_u. cbn [length]. rewrite <- (Forall2_length _ _ _ HC2), spine_length. lia.
Qed.
