(* ===== verification/TsearchProps.v ===== *)
(** * TsearchProps: the functions of misc/tsearch.c keep a set of keys in a red-black tree

    [operations_refine] compares sequences of calls with a set kept as a list; the other
    theorems state what each call does to the nodes. *)

From S2P Require Import Prelude SortList Tsearch TsearchTree TsearchRep TsearchInsert TsearchDelete TsearchRemove TsearchWalk TsearchOverflow.
Local Open Scope Z_scope.

(** ** Sequences of calls *)

Inductive op := Search (k : Z) | Find (k : Z) | Delete (k : Z).

Section operations.
Context (compar : Z → Z → Z) (malloc : gmap Z node_t → option (Z * node_t)).

(** Whether the result is a null pointer. *)
Definition perform (fuel : nat) (o : op) : T bool :=
  q ← match o with
      | Search k => tsearch compar fuel malloc k (Some Rootp)
      | Find k => tfind compar fuel k (Some Rootp)
      | Delete k => tdelete compar fuel k (Some Rootp)
      end;
  mret (negb (q =? 0)).

Fixpoint perform_all (fuel : nat) (os : list op) : T (list bool) :=
  match os with
  | [] => mret []
  | o :: os => b ← perform fuel o; bs ← perform_all fuel os; mret (b :: bs)
  end.

(** The set: keys no two of which are equal for [compar]. *)
Definition has (k : Z) (st : list Z) : bool := bool_decide (Exists (λ k', compar k k' = 0) st).
Definition without (k : Z) (st : list Z) : list Z := filter (λ k', compar k k' ≠ 0) st.

Inductive spec : list Z → op → bool → list Z → Prop :=
  | spec_old st k : has k st = true → spec st (Search k) true st
  | spec_new st k : has k st = false → spec st (Search k) true (k :: st)
  | spec_no_memory st k h : has k st = false → malloc h = None → spec st (Search k) false st
  | spec_find st k : spec st (Find k) (has k st) st
  | spec_delete st k : spec st (Delete k) (has k st) (without k st).

Inductive spec_all : list Z → list op → list bool → list Z → Prop :=
  | spec_nil st : spec_all st [] [] st
  | spec_cons st1 st2 st3 o os b bs : spec st1 o b st2 → spec_all st2 os bs st3 → spec_all st1 (o :: os) (b :: bs) st3.

Context `{!CmpOrder compar} (Hmalloc : malloc_ok malloc).
Set Default Proof Using "All".

(** The tree holds the keys of the set. *)
Definition represents (m : store) (st : list Z) : Prop := ∃ els, tree_of compar m els ∧ els.*2 ≡ₚ st.

Lemma has_spec k (els : list (Z * Z)) st : els.*2 ≡ₚ st → has k st = true ↔ ∃ y, y ∈ els ∧ compar k y.2 = 0.
Proof.
  intros Hp. unfold has. rewrite bool_decide_eq_true, Exists_exists. split.
  - intros (x & Hx & Hk). rewrite <- Hp in Hx. apply list_elem_of_fmap in Hx as (y & -> & Hy). by exists y.
  - intros (y & Hy & Hk). exists y.2. split; [|done]. rewrite <- Hp. by apply list_elem_of_fmap_2.
Qed.

Lemma has_not k (els : list (Z * Z)) st : els.*2 ≡ₚ st → (∀ y, y ∈ els → compar k y.2 ≠ 0) → has k st = false.
Proof. intros Hp Hno. apply not_true_is_false. rewrite (has_spec k els st Hp). intros (y & Hy & Hk). by apply (Hno y). Qed.

(** The other keys of a sorted sequence are not equal. *)
Lemma others_differ k l1 (a ka : Z) l2 : sorted compar (l1 ++ (a, ka) :: l2) → compar k ka = 0 → ∀ y, y ∈ l1 ++ l2 → compar k y.2 ≠ 0.
Proof.
  intros (_ & H1 & H2)%sorted_middle Hk y; [|done]. rewrite elem_of_app. intros [Hy|Hy] E0.
  - specialize (H1 y Hy). unfold below in H1. cbn in H1. assert (compar y.2 k <= 0) by (apply cmp_flip; lia).
    assert (compar ka k <= 0) by (apply cmp_flip; lia). assert (compar ka y.2 <= 0) by (apply (cmp_trans ka k y.2); lia).
    apply (compar_flip compar) in H1. lia.
  - specialize (H2 y Hy). unfold below in H2. cbn in H2. assert (compar y.2 k <= 0) by (apply cmp_flip; lia).
    assert (compar y.2 ka <= 0) by (apply (cmp_trans y.2 k ka); lia). apply (compar_flip compar) in H2. lia.
Qed.

Lemma without_none k (els : list (Z * Z)) st : els.*2 ≡ₚ st → (∀ y, y ∈ els → compar k y.2 ≠ 0) → without k st ≡ₚ st.
Proof.
  intros Hp Hno. unfold without. rewrite <- Hp. clear Hp. induction els as [|y els IH]; [done|].
  rewrite fmap_cons, filter_cons_True by (apply Hno; by left). rewrite IH; [done|]. intros z Hz. apply Hno. by right.
Qed.

Lemma removed_keys k els a ka u els' st :
  sorted compar els → compar k ka = 0 → removed els a ka u els' → els.*2 ≡ₚ st → els'.*2 ≡ₚ without k st.
Proof.
  intros Hs Hk (l1 & l2 & -> & Hc) Hp. unfold without. rewrite <- Hp.
  assert (els'.*2 = (l1 ++ l2).*2) as -> by (destruct Hc as [[_ ->]|(ku & l3 & -> & ->)]; by rewrite ?fmap_app).
  pose proof (others_differ k l1 a ka l2 Hs Hk) as Hd. rewrite (fmap_app snd l1 (_ :: _)), fmap_cons, filter_app, filter_cons_False by (cbn; tauto).
  rewrite <- filter_app, <- fmap_app. by rewrite (without_none k (l1 ++ l2) _ (Permutation_refl _) Hd).
Qed.

Lemma tree_of_nonzero m els q kq : tree_of compar m els → (q, kq) ∈ els → q ≠ 0.
Proof.
  intros (t & Hat & _ & <- & _) Hin. pose proof (at_good _ _ _ Hat) as [_ Hv]. cbn [plug] in Hv. rewrite Forall_forall in Hv.
  apply Hv. by apply (elem_address q kq).
Qed.

Lemma perform_ok fuel o m st :
  represents m st → (2 * length st < fuel)%nat → len st + 1 < 2 ^ 20 →
  runs (perform fuel o) m (λ b m', ∃ st', spec st o b st' ∧ represents m' st' ∧ (length st' <= S (length st))%nat).
Proof.
  intros (els & Htree & Hp) Hf Hlen. assert (length els = length st) as Hl by by rewrite <- Hp, length_fmap. unfold perform.
  apply runs_bind. destruct o as [k|k|k].
  - eapply runs_mono; [by apply (tsearch_ok compar malloc Hmalloc m els k fuel Htree); rewrite Hl|]. intros q m' H. apply runs_ret.
    destruct H as [(kq & Hin & Hk & Ht' & _)|(Hno & [(-> & (h & Hh) & Ht' & _)|(Hq & _ & (l1 & l2 & Hels & Ht') & _)])].
    + pose proof (tree_of_nonzero _ _ _ _ Htree Hin) as Hq. rewrite (proj2 (Z.eqb_neq _ _) Hq). exists st. split; [|split; [by exists els|lia]].
      apply spec_old. apply (has_spec k els st Hp). by exists (q, kq).
    + exists st. split; [|split; [by exists els|lia]]. apply (spec_no_memory _ _ h); [by eapply has_not|done].
    + rewrite (proj2 (Z.eqb_neq _ _) (proj1 Hq)). exists (k :: st). split; [apply spec_new; by eapply has_not|]. split; [|done].
      exists (l1 ++ (q, k) :: l2). split; [done|]. rewrite <- Hp, Hels, !fmap_app. cbn. by rewrite Permutation_middle.
  - eapply runs_mono; [by apply (tfind_ok compar k els m fuel Htree); lia|]. intros q m' [-> H]. apply runs_ret. exists st.
    split; [|split; [by exists els|lia]]. destruct H as [[-> Hno]|(kq & Hin & Hk)].
    + cbn [negb Z.eqb]. rewrite <- (has_not k els st Hp Hno). constructor.
    + pose proof (tree_of_nonzero _ _ _ _ Htree Hin) as Hq. rewrite (proj2 (Z.eqb_neq _ _) Hq).
      cbn [negb]. assert (has k st = true) as <- by (apply (has_spec k els st Hp); by exists (q, kq)). constructor.
  - eapply runs_mono; [by apply (tdelete_ok compar fuel k m els Htree); lia|]. intros q m' H. apply runs_ret. exists (without k st).
    assert (length (without k st) <= length st)%nat as Hle by apply length_filter.
    destruct H as [(-> & -> & Hno)|(a & ka & u & els' & Hk & Hrem & Ht' & _ & _ & Hq & _)].
    + split; [cbn [negb Z.eqb]; rewrite <- (has_not k els st Hp Hno); constructor|]. split; [|lia]. exists els. split; [done|]. by rewrite (without_none k els st Hp Hno).
    + apply list_elem_of_fmap in Hq as ([q' kq] & -> & Hq). pose proof (tree_of_nonzero _ _ _ _ Htree Hq) as Hq0. cbn [fst]. rewrite (proj2 (Z.eqb_neq _ _) Hq0).
      destruct Htree as (_ & _ & _ & _ & Hs). split; [|split; [|lia]].
      * cbn [negb]. assert (has k st = true) as <- by (destruct Hrem as (l1 & l2 & -> & _); apply (has_spec k _ st Hp); exists (a, ka); split; [|done]; rewrite elem_of_app, elem_of_cons; auto). constructor.
      * exists els'. split; [done|]. by eapply removed_keys.
Qed.

Lemma perform_all_ok fuel os : ∀ m st,
  represents m st → (2 * (length st + length os) < fuel)%nat → len st + len os + 1 < 2 ^ 20 →
  runs (perform_all fuel os) m (λ bs m', ∃ st', spec_all st os bs st' ∧ represents m' st').
Proof.
  induction os as [|o os IH]; intros m st Hr Hf Hlen; cbn [perform_all length] in *.
  - apply runs_ret. exists st. split; [constructor|done].
  - apply runs_bind. eapply runs_mono; [apply (perform_ok fuel o m st Hr); lia|]. intros b m1 (st1 & Hs1 & Hr1 & Hl1).
    apply runs_bind. eapply runs_mono; [apply (IH m1 st1 Hr1); lia|]. intros bs m2 (st2 & Hs2 & Hr2). apply runs_ret.
    exists st2. split; [by econstructor|done].
Qed.
End operations.

(** ** A tree of three nodes *)

Definition demo : tree := N false (N true E 16 3 E) 32 5 (N true E 48 8 E).
Definition demo_malloc (h : gmap Z node_t) : option (Z * node_t) :=
  match h !! 64 with None => Some (64, Node 7 7 7) | Some _ => None end.

Lemma demo_malloc_ok : malloc_ok demo_malloc.
Proof. intros h q x. unfold demo_malloc. destruct (h !! 64) eqn:E0; [done|]. by intros [= <- <-]. Qed.

Lemma demo_tree : tree_of Z.sub (store_of demo) [(16, 3); (32, 5); (48, 8)].
Proof.
  apply (store_of_tree Z.sub demo).
  - split; [by apply (bool_decide_unpack _); vm_compute|]. by repeat constructor.
  - exists false, 1%nat. split; [repeat econstructor|constructor].
  - by repeat constructor.
Qed.

(** ** The properties *)

(** C7. A set of keys: from an empty tree, any sequence of fewer than [2 ^ 20 - 1] calls of
    [tsearch], [tfind] and [tdelete] ends and gives the results that a set of keys gives:
    [tsearch] adds the key when it is not there, unless [malloc] fails; [tfind] and [tdelete]
    report whether it is there, and [tdelete] removes it.  The tree stays a red-black tree
    that holds the keys of the set in order. *)
Theorem operations_refine compar `{!CmpOrder compar} malloc (Hmalloc : malloc_ok malloc) fuel os m :
  root_var m = 0 → (2 * length os < fuel)%nat → len os + 1 < 2 ^ 20 →
  runs (perform_all compar malloc fuel os) m (λ bs m', ∃ st els, spec_all compar malloc [] os bs st ∧ tree_of compar m' els ∧ els.*2 ≡ₚ st).
Proof.
  intros Hr Hf Hlen. eapply runs_mono; [apply (perform_all_ok compar malloc Hmalloc fuel os m [])|].
  - exists []. split; [|done]. exists E. split; [by split; [done|done|done|split; constructor]|]. split; [exists false, O; split; constructor|]. split; [done|constructor].
  - cbn [length]. lia.
  - cbn [length]. lia.
  - intros bs m' (st & Hs & els & Ht & Hp). by exists st, els.
Qed.

Lemma operations_refine_witness :
  runs (perform_all Z.sub demo_malloc 9 [Search 4; Search 4; Delete 4; Find 4]) (Store ∅ 0) (λ bs m', ∃ st els,
    spec_all Z.sub demo_malloc [] [Search 4; Search 4; Delete 4; Find 4] bs st ∧ tree_of Z.sub m' els ∧ els.*2 ≡ₚ st).
Proof. apply (operations_refine Z.sub demo_malloc demo_malloc_ok); [reflexivity|cbn; lia|cbn; lia]. Defined.

(** C9. Insertion: [tsearch] returns the node of the key if there is one and leaves the
    elements as they are; otherwise it returns a new node, which stands in the place of the
    key between the elements, or null when [malloc] fails.  The tree is a red-black tree
    again, every element keeps its node, and no other memory changes. *)
Theorem tsearch_inserts compar `{!CmpOrder compar} malloc (Hmalloc : malloc_ok malloc) m els k fuel :
  tree_of compar m els → (2 * length els < fuel)%nat →
  runs (tsearch compar fuel malloc k (Some Rootp)) m (λ q m',
    (∃ kq, (q, kq) ∈ els ∧ compar k kq = 0 ∧ tree_of compar m' els ∧ unch els.*1 m m') ∨
    (∀ x, x ∈ els → compar k x.2 ≠ 0) ∧ inserted compar malloc m els k q m').
Proof. apply tsearch_ok; done. Qed.

Lemma tsearch_inserts_witness : ∃ q m', tsearch Z.sub 7 demo_malloc 4 (Some Rootp) (store_of demo) = Some (q, m') ∧
  ((∃ kq, (q, kq) ∈ [(16, 3); (32, 5); (48, 8)] ∧ 4 - kq = 0 ∧ tree_of Z.sub m' [(16, 3); (32, 5); (48, 8)] ∧ unch [16; 32; 48] (store_of demo) m') ∨
   (∀ x, x ∈ [(16, 3); (32, 5); (48, 8)] → 4 - x.2 ≠ 0) ∧ inserted Z.sub demo_malloc (store_of demo) [(16, 3); (32, 5); (48, 8)] 4 q m').
Proof. apply (tsearch_inserts Z.sub demo_malloc demo_malloc_ok); [exact demo_tree|cbn; lia]. Defined.

(** C8. Deletion: in a tree of fewer than [2 ^ 20 - 1] elements [tdelete] stays within
    [nodestack]; it changes nothing and returns null if the key is not there.  Otherwise the
    element goes and the tree is a red-black tree again.  The node that is freed is its own
    or, when that has two successors, the one of the next element, which moves into the node
    of the deleted one.  The result is some node of the old tree (not null), the deleted one just if it was the root. *)
Theorem tdelete_removes compar `{!CmpOrder compar} m els k fuel :
  tree_of compar m els → len els + 1 < 2 ^ 20 → (length els <= fuel)%nat →
  runs (tdelete compar fuel k (Some Rootp)) m (λ q m',
    (q = 0 ∧ m' = m ∧ ∀ y, y ∈ els → compar k y.2 ≠ 0) ∨
    (∃ a ka u els', compar k ka = 0 ∧ removed els a ka u els' ∧ tree_of compar m' els' ∧ nodes m' !! u = None ∧ unch els.*1 m m' ∧
      q ∈ els.*1 ∧ (q = a ↔ root_var m = a))).
Proof. apply tdelete_ok; done. Qed.

Lemma tdelete_removes_witness : ∃ q m', tdelete Z.sub 3 5 (Some Rootp) (store_of demo) = Some (q, m') ∧
  ((q = 0 ∧ m' = store_of demo ∧ ∀ y, y ∈ [(16, 3); (32, 5); (48, 8)] → 5 - y.2 ≠ 0) ∨
   (∃ a ka u els', 5 - ka = 0 ∧ removed [(16, 3); (32, 5); (48, 8)] a ka u els' ∧ tree_of Z.sub m' els' ∧ nodes m' !! u = None ∧
     unch [16; 32; 48] (store_of demo) m' ∧ q ∈ [16; 32; 48] ∧ (q = a ↔ root_var (store_of demo) = a))).
Proof. apply (tdelete_removes Z.sub); [exact demo_tree|cbn; lia|cbn; lia]. Defined.

(** C10. There is a red-black tree, with sorted keys, from which the deletion of one of the
    keys writes past the end of [nodestack]: the push in the red sibling case does not
    enlarge the array, which forty nodes above the unlinked one fill. *)
Theorem tdelete_overflows_nodestack :
  ∃ m els k, tree_of Z.sub m els ∧ k ∈ els.*2 ∧ ∀ fuel, tdelete Z.sub fuel k (Some Rootp) m = None.
Proof. by apply (tdelete_overflows_at 19). Qed.

(** C27. The walk: the nodes that [twalk] reports by [postorder] or [leaf] are those of the
    elements, in order, each once; [twalk_r] makes the same calls without the level; the
    tree is not changed. *)
Theorem twalk_visits_in_order compar m els fuel :
  tree_of compar m els → (length els <= fuel)%nat →
  runs (twalk fuel (root_var m) false) m (λ v m', m' = m ∧ omap in_order v = els.*1 ∧
    runs (twalk_r fuel (root_var m) false) m (λ w m', m' = m ∧ w = without_level <$> v)).
Proof. apply twalk_ok. Qed.

Lemma twalk_visits_in_order_witness : ∃ v m', twalk 3 32 false (store_of demo) = Some (v, m') ∧ m' = store_of demo ∧ omap in_order v = [16; 32; 48] ∧
  runs (twalk_r 3 32 false) (store_of demo) (λ w m', m' = store_of demo ∧ w = without_level <$> v).
Proof. apply (twalk_visits_in_order Z.sub (store_of demo) [(16, 3); (32, 5); (48, 8)] 3); [exact demo_tree|cbn; lia]. Defined.

(** C28. [tdestroy] calls [freefct] once for every key and frees every node of the tree; no
    other memory changes. *)
Theorem tdestroy_frees_all compar m els fuel :
  tree_of compar m els → (length els <= fuel)%nat →
  runs (tdestroy fuel (root_var m)) m (λ v m', v ≡ₚ els.*2 ∧ (∀ a, a ∈ els.*1 → nodes m' !! a = None) ∧ unch els.*1 m m').
Proof. apply tdestroy_ok. Qed.

Lemma tdestroy_frees_all_witness : ∃ v m', tdestroy 3 32 (store_of demo) = Some (v, m') ∧ v ≡ₚ [3; 5; 8] ∧
  (∀ a, a ∈ [16; 32; 48] → nodes m' !! a = None) ∧ unch [16; 32; 48] (store_of demo) m'.
Proof. apply (tdestroy_frees_all Z.sub (store_of demo) [(16, 3); (32, 5); (48, 8)] 3); [exact demo_tree|cbn; lia]. Defined.
