(* ===== verification/Bytes.v ===== *)
(** * Bytes: arrays of bytes that are updated by index

    A store outside the array has no result. *)

From S2P Require Import Prelude.
Local Open Scope Z_scope.

Definition bytes (l : list Z) : Prop := Forall is_byte l.

(** [target[i] = v] *)
Definition set_byte (target : list Z) (i v : Z) : option (list Z) :=
  if (0 <=? i) && (i <? len target) then Some (<[Z.to_nat i := u8 v]> target) else None.

(** [target[i]] *)
Definition get_byte (target : list Z) (i : Z) : option Z := if 0 <=? i then target !! Z.to_nat i else None.

(** The target after the bytes [l] have been written to it from the front. *)
Definition filled (target0 l : list Z) : list Z := l ++ drop (length l) target0.

Section filled.
Context (target0 : list Z).

Lemma length_filled l : (length l <= length target0)%nat → length (filled target0 l) = length target0.
Proof. intros. unfold filled. rewrite length_app, length_drop. lia. Qed.

Lemma filled_beyond l n : (length l <= n)%nat → drop n (filled target0 l) = drop n target0.
Proof. intros. unfold filled. rewrite drop_app_ge, drop_drop by done. f_equal. lia. Qed.

Lemma set_filled l v : (length l < length target0)%nat → set_byte (filled target0 l) (len l) v = Some (filled target0 (l ++ [u8 v])).
Proof.
  intros Hl. unfold set_byte. rewrite length_filled, (proj2 (Z.ltb_lt _ _)), (proj2 (Z.leb_le _ _)) by lia. cbn [andb]. f_equal.
  unfold filled. rewrite Nat2Z.id, length_app. cbn [length].
  destruct (lookup_lt_is_Some_2 target0 (length l) Hl) as [x Hx]. rewrite (drop_S _ _ _ Hx), insert_app_r_alt by done.
  rewrite Nat.sub_diag. cbn. by rewrite <- (assoc_L (++)), Nat.add_1_r.
Qed.
End filled.

(** The target after a failure: nothing beyond [targsize] has changed. *)
Definition spared (targsize : Z) (target0 t : list Z) : Prop :=
  length t = length target0 ∧ drop (Z.to_nat targsize) t = drop (Z.to_nat targsize) target0.

Lemma spared_filled targsize target0 l : len l <= targsize <= len target0 → spared targsize target0 (filled target0 l).
Proof. intros H. split; [apply length_filled; lia|apply filled_beyond; lia]. Qed.

(** [memcpy (dst + o, l, n)] for the [n] bytes of [l]. *)
Definition copy_bytes (dst : list Z) (o : Z) (l : list Z) : option (list Z) :=
  if (0 <=? o) && (o + len l <=? len dst) then Some (splice dst (Z.to_nat o) l) else None.

(** More stores into a target that is filled from the front. *)
Section stores.
Context (t l : list Z).

Lemma set_filled_last x v : (length l < length t)%nat → set_byte (filled t (l ++ [x])) (len l) v = Some (filled t (l ++ [u8 v])).
Proof.
  intros Hl. unfold set_byte. rewrite length_filled by (rewrite length_app; cbn [length]; lia). rewrite (proj2 (Z.ltb_lt _ _)), (proj2 (Z.leb_le _ _)) by lia.
  cbn [andb]. f_equal. unfold filled. rewrite Nat2Z.id, !length_app. cbn [length]. rewrite insert_app_l by (rewrite length_app; cbn; lia).
  by rewrite insert_app_r_alt, Nat.sub_diag by done.
Qed.

(** A store beyond the end, before the bytes in between. *)
Lemma set_beyond r k v : (k < length r)%nat → set_byte (l ++ r) (len l + Z.of_nat k) v = Some (l ++ <[k := u8 v]> r).
Proof.
  intros Hk. unfold set_byte. rewrite length_app, (proj2 (Z.ltb_lt _ _)), (proj2 (Z.leb_le _ _)) by lia. cbn [andb]. f_equal.
  replace (Z.to_nat (len l + Z.of_nat k)) with (length l + k)%nat by lia. by rewrite insert_app_r.
Qed.
End stores.

Lemma copy_bytes_ok dst o l : 0 <= o → o + len l <= len dst → copy_bytes dst o l = Some (splice dst (Z.to_nat o) l).
Proof. intros Ho Hl. unfold copy_bytes. by rewrite (proj2 (Z.leb_le _ _)), (proj2 (Z.leb_le _ _)) by lia. Qed.

(** A copy to the front. *)
Lemma copy_front dst l : (length l <= length dst)%nat → copy_bytes dst 0 l = Some (filled dst l).
Proof. intros Hl. by rewrite copy_bytes_ok by lia. Qed.
