(* ===== verification/Base64.v ===== *)
(** * Base64: the coder of resolv/base64.c

    Buffers are lists of bytes: the source is read from the front (for [b64_pton] with its NUL
    at the end), the target is updated by index; a read past the end of the source or a
    write outside the target has no result.  The two do not overlap.  [isspace] belongs to
    the locale and is an argument. *)

From S2P Require Import Prelude Bytes.
Local Open Scope Z_scope.

Definition Base64 : list Z := str "ABCDEFGHIJKLMNOPQRSTUVWXYZabcdefghijklmnopqrstuvwxyz0123456789+/".
Definition Pad64 : Z := 61.

(** [Assert (c)] aborts when [c] does not hold. *)
Definition Assert (c : bool) : option unit := if c then Some () else None.

(** [Base64[i]] *)
Definition base64_at (i : Z) : option Z := if 0 <=? i then Base64 !! Z.to_nat i else None.

(** [target[datalength++] = c] *)
Definition append (t : list Z * Z) (c : Z) : option (list Z * Z) :=
  target ← set_byte t.1 t.2 c; Some (target, u64 (t.2 + 1)).

(** A loop that may return from the function. *)
Inductive exit (A : Type) := Return (r : Z) (target : list Z) | Proceed (a : A).
Arguments Return {A} r target.
Arguments Proceed {A} a.

(** ** Encoding *)

(** The loop over full groups: the rest of the source, the target and [datalength]. *)
Fixpoint ntop_loop (src : list Z) (srclength : Z) (target : list Z) (datalength targsize : Z) : option (exit (list Z * Z * list Z * Z)) :=
  if 2 <? srclength then
    match src with
    | input0 :: input1 :: input2 :: src =>
        let output0 := u8 (input0 ≫ 2) in
        let output1 := u8 ((Z.land input0 3 ≪ 4) + (input1 ≫ 4)) in
        let output2 := u8 ((Z.land input1 15 ≪ 2) + (input2 ≫ 6)) in
        let output3 := u8 (Z.land input2 63) in
        Assert (output0 <? 64);; Assert (output1 <? 64);; Assert (output2 <? 64);; Assert (output3 <? 64);;
        if targsize <? u64 (datalength + 4) then Some (Return (-1) target)
        else
          c0 ← base64_at output0; t ← append (target, datalength) c0;
          c1 ← base64_at output1; t ← append t c1;
          c2 ← base64_at output2; t ← append t c2;
          c3 ← base64_at output3; t ← append t c3;
          ntop_loop src (srclength - 3) t.1 t.2 targsize
    | _ => None
    end
  else Some (Proceed (src, srclength, target, datalength)).

(** The last group, of one or two bytes. *)
Definition ntop_rest (src : list Z) (srclength : Z) (target : list Z) (datalength targsize : Z) : option (exit (list Z * Z)) :=
  if negb (srclength =? 0) then
    input0 ← src !! 0%nat;
    input1 ← (if 1 <? srclength then src !! 1%nat else Some 0);
    let input2 := 0 in
    let output0 := u8 (input0 ≫ 2) in
    let output1 := u8 ((Z.land input0 3 ≪ 4) + (input1 ≫ 4)) in
    let output2 := u8 ((Z.land input1 15 ≪ 2) + (input2 ≫ 6)) in
    Assert (output0 <? 64);; Assert (output1 <? 64);; Assert (output2 <? 64);;
    if targsize <? u64 (datalength + 4) then Some (Return (-1) target)
    else
      c0 ← base64_at output0; t ← append (target, datalength) c0;
      c1 ← base64_at output1; t ← append t c1;
      t ← (if srclength =? 1 then append t Pad64 else c2 ← base64_at output2; append t c2);
      t ← append t Pad64;
      Some (Proceed t)
  else Some (Proceed (target, datalength)).

(** The result and the target. *)
Definition b64_ntop (src : list Z) (srclength : Z) (target : list Z) (targsize : Z) : option (Z * list Z) :=
  r ← ntop_loop src srclength target 0 targsize;
  match r with
  | Return v target => Some (v, target)
  | Proceed (src, srclength, target, datalength) =>
      r ← ntop_rest src srclength target datalength targsize;
      match r with
      | Return v target => Some (v, target)
      | Proceed (target, datalength) =>
          if targsize <=? datalength then Some (-1, target)
          else target ← set_byte target datalength 0; Some (i32 datalength, target)
      end
  end.

(** ** Decoding *)

Section pton.
Context (isspace : Z → bool).

(** [ch = *src++] *)
Definition next_char (src : list Z) : option (Z * list Z) :=
  match src with c :: src => Some (wraps 8 c, src) | [] => None end.

(** [strchr (Base64, ch)] for a character other than NUL, as an offset. *)
Definition base64_pos (ch : Z) : option Z := Z.of_nat ∘ fst <$> list_find (λ c, c = u8 ch) Base64.

(** [tarindex++] on an [int]. *)
Definition incr (tarindex : Z) : option Z := if tarindex =? 2 ^ 31 - 1 then None else Some (tarindex + 1).

(** [target[i] |= v] *)
Definition or_byte (target : list Z) (i v : Z) : option (list Z) :=
  x ← get_byte target i; set_byte target i (Z.lor x v).

(** The [switch]: [target], [tarindex] and [state]; [None] inside for [return -1]. *)
Definition pton_step (pos : Z) (targsize : Z) (target : option (list Z)) (tarindex state : Z) : option (option (option (list Z) * Z * Z)) :=
  if state =? 0 then
    match target with
    | Some t =>
        if targsize <=? u64 tarindex then Some None
        else t ← set_byte t tarindex (pos ≪ 2); Some (Some (Some t, tarindex, 1))
    | None => Some (Some (None, tarindex, 1))
    end
  else if state =? 1 then
    match target with
    | Some t =>
        if targsize <=? u64 (u64 tarindex + 1) then Some None
        else
          t ← or_byte t tarindex (pos ≫ 4);
          t ← set_byte t (tarindex + 1) (Z.land pos 15 ≪ 4);
          tarindex ← incr tarindex; Some (Some (Some t, tarindex, 2))
    | None => tarindex ← incr tarindex; Some (Some (None, tarindex, 2))
    end
  else if state =? 2 then
    match target with
    | Some t =>
        if targsize <=? u64 (u64 tarindex + 1) then Some None
        else
          t ← or_byte t tarindex (pos ≫ 2);
          t ← set_byte t (tarindex + 1) (Z.land pos 3 ≪ 6);
          tarindex ← incr tarindex; Some (Some (Some t, tarindex, 3))
    | None => tarindex ← incr tarindex; Some (Some (None, tarindex, 3))
    end
  else if state =? 3 then
    match target with
    | Some t =>
        if targsize <=? u64 tarindex then Some None
        else
          t ← or_byte t tarindex pos;
          tarindex ← incr tarindex; Some (Some (Some t, tarindex, 0))
    | None => tarindex ← incr tarindex; Some (Some (None, tarindex, 0))
    end
  else None.

(** What the main loop ends in: [return -1], or the character, the rest of the source and
    the variables; the target in both cases. *)
Inductive scan := Invalid (target : option (list Z)) | Ended (ch : Z) (src : list Z) (target : option (list Z)) (tarindex state : Z).

Fixpoint pton_loop (src : list Z) (targsize : Z) (target : option (list Z)) (tarindex state : Z) : option scan :=
  match src with
  | [] => None
  | c :: src =>
      let ch := wraps 8 c in
      if ch =? 0 then Some (Ended ch src target tarindex state)
      else if isspace ch then pton_loop src targsize target tarindex state
      else if ch =? Pad64 then Some (Ended ch src target tarindex state)
      else
        match base64_pos ch with
        | None => Some (Invalid target)
        | Some pos =>
            r ← pton_step pos targsize target tarindex state;
            match r with
            | None => Some (Invalid target)
            | Some (target, tarindex, state) => pton_loop src targsize target tarindex state
            end
        end
  end.

(** [for (; ch != '\0'; ch = *src++) if (!isspace (ch)) break;] *)
Fixpoint skip_spaces (ch : Z) (src : list Z) : option (Z * list Z) :=
  if ch =? 0 then Some (ch, src)
  else if negb (isspace ch) then Some (ch, src)
  else match src with c :: src => skip_spaces (wraps 8 c) src | [] => None end.

(** [for (; ch != '\0'; ch = *src++) if (!isspace (ch)) return -1;]: whether it ends. *)
Fixpoint only_spaces (ch : Z) (src : list Z) : option bool :=
  if ch =? 0 then Some true
  else if negb (isspace ch) then Some false
  else match src with c :: src => only_spaces (wraps 8 c) src | [] => None end.

(** The cases 2 and 3 after the pad character. *)
Definition pton_padded (ch : Z) (src : list Z) (target : option (list Z)) (tarindex : Z) : option bool :=
  b ← only_spaces ch src;
  if (b : bool) then
    match target with
    | Some t => x ← get_byte t tarindex; Some (x =? 0)
    | None => Some true
    end
  else Some false.

Definition pton_end (ch : Z) (src : list Z) (target : option (list Z)) (tarindex state : Z) : option bool :=
  if ch =? Pad64 then
    '(ch, src) ← next_char src;
    if (state =? 0) || (state =? 1) then Some false
    else if state =? 2 then
      '(ch, src) ← skip_spaces ch src;
      if negb (ch =? Pad64) then Some false
      else '(ch, src) ← next_char src; pton_padded ch src target tarindex
    else if state =? 3 then pton_padded ch src target tarindex
    else Some true
  else Some (state =? 0).

Definition b64_pton (src : list Z) (target : option (list Z)) (targsize : Z) : option (Z * option (list Z)) :=
  r ← pton_loop src targsize target 0 0;
  match r with
  | Invalid target => Some (-1, target)
  | Ended ch src target tarindex state =>
      b ← pton_end ch src target tarindex state;
      Some (if (b : bool) then tarindex else -1, target)
  end.
End pton.
