(* ===== verification/Base64Spec.v ===== *)
(** * Base64Spec: the encoding, and that [b64_pton] accepts it, with spaces anywhere, and nothing else *)

From S2P Require Import Prelude Bytes Base64.
Local Open Scope Z_scope.

(** ** The encoding *)

(** The character of a digit. *)
Definition b64 (v : Z) : Z := nth (Z.to_nat v) Base64 0.

(** Three bytes are a number of four digits; one or two bytes are padded with zero bits. *)
Fixpoint encode (l : list Z) : list Z :=
  match l with
  | a :: b :: c :: l =>
      let n := a * 65536 + b * 256 + c in
      b64 (n / 262144) :: b64 (n / 4096 mod 64) :: b64 (n / 64 mod 64) :: b64 (n mod 64) :: encode l
  | [a; b] => let n := a * 1024 + b * 4 in [b64 (n / 4096); b64 (n / 64 mod 64); b64 (n mod 64); Pad64]
  | [a] => let n := a * 16 in [b64 (n / 64); b64 (n mod 64); Pad64; Pad64]
  | [] => []
  end.

(** Induction on the groups. *)
Lemma groups_ind (P : list Z → Prop) :
  P [] → (∀ a, P [a]) → (∀ a b, P [a; b]) → (∀ a b c l, P l → P (a :: b :: c :: l)) → ∀ l, P l.
Proof.
  intros H0 H1 H2 H3. fix IH 1. intros [|a [|b [|c l]]]; [done|apply H1|apply H2|apply H3, IH].
Qed.

Lemma encode_length l : len (encode l) = 4 * ((len l + 2) / 3).
Proof.
  induction l as [|a|a b|a b c l IH] using groups_ind; try done. cbn [encode length]. rewrite !Nat2Z.inj_succ, IH.
  replace (Z.succ (Z.succ (Z.succ (len l))) + 2) with (len l + 2 + 1 * 3) by lia. rewrite Z.div_add by lia. lia.
Qed.

(** ** Digits *)

Lemma base64_length : length Base64 = 64%nat.
Proof. reflexivity. Qed.

Lemma base64_at_ok v : 0 <= v < 64 → base64_at v = Some (b64 v).
Proof.
  intros Hv. unfold base64_at, b64. rewrite (proj2 (Z.leb_le _ _)) by lia.
  destruct (lookup_lt_is_Some_2 Base64 (Z.to_nat v)) as [c Hc]; [rewrite base64_length; lia|]. by rewrite Hc, (nth_lookup_Some _ _ _ _ Hc).
Qed.

(** The digit of every character, by evaluation. *)
Lemma base64_pos_all : Forall (λ v, base64_pos (b64 (Z.of_nat v)) = Some (Z.of_nat v) ∧ b64 (Z.of_nat v) ≠ 0 ∧ b64 (Z.of_nat v) ≠ Pad64 ∧ wraps 8 (b64 (Z.of_nat v)) = b64 (Z.of_nat v)) (seq 0 64).
Proof. repeat constructor; vm_compute; congruence. Qed.

Lemma b64_ok v : 0 <= v < 64 → base64_pos (b64 v) = Some v ∧ b64 v ≠ 0 ∧ b64 v ≠ Pad64 ∧ wraps 8 (b64 v) = b64 v.
Proof.
  intros Hv. pose proof base64_pos_all as H. rewrite Forall_forall in H. specialize (H (Z.to_nat v)).
  rewrite Z2Nat.id in H by lia. apply H, elem_of_seq. lia.
Qed.

Lemma base64_pos_inv ch pos : - 128 <= ch < 128 → base64_pos ch = Some pos → 0 <= pos < 64 ∧ ch = b64 pos.
Proof.
  intros Hch. unfold base64_pos. destruct (list_find _ _) as [[i c]|] eqn:Ef; [|done]. intros [= <-]. cbn [fst compose].
  apply list_find_Some in Ef as (Hi & Hc & _). pose proof (lookup_lt_Some _ _ _ Hi) as Hlt. rewrite base64_length in Hlt. split; [lia|].
  assert (b64 (Z.of_nat i) = c) as Hb by (unfold b64; rewrite Nat2Z.id; by apply nth_lookup_Some).
  destruct (b64_ok (Z.of_nat i)) as (_ & _ & _ & Hw); [lia|]. rewrite Hb in Hw. rewrite Hb.
  unfold wraps in Hw. unfold wrapu in Hc. Z.to_euclidean_division_equations. lia.
Qed.

(** ** Arithmetic of the groups *)

Lemma shift_right x k : 0 <= k → x ≫ k = x / 2 ^ k.
Proof. intros. by apply Z.shiftr_div_pow2. Qed.
Lemma shift_left x k : 0 <= k → x ≪ k = x * 2 ^ k.
Proof. intros. by apply Z.shiftl_mul_pow2. Qed.

Section group.
Context (a b c : Z) (Ha : is_byte a) (Hb : is_byte b) (Hc : is_byte c).
Set Default Proof Using "All".

Lemma digit0 : u8 (a ≫ 2) = (a * 65536 + b * 256 + c) / 262144.
Proof. unfold is_byte in *. rewrite shift_right by lia. unfold wrapu. Z.to_euclidean_division_equations; lia. Qed.

Lemma digit1 : u8 ((Z.land a 3 ≪ 4) + (b ≫ 4)) = (a * 65536 + b * 256 + c) / 4096 mod 64.
Proof. unfold is_byte in *. rewrite shift_right, shift_left by lia. change 3 with (Z.ones 2). rewrite Z.land_ones by lia. unfold wrapu. Z.to_euclidean_division_equations; lia. Qed.

Lemma digit2 : u8 ((Z.land b 15 ≪ 2) + (c ≫ 6)) = (a * 65536 + b * 256 + c) / 64 mod 64.
Proof. unfold is_byte in *. rewrite shift_right, shift_left by lia. change 15 with (Z.ones 4). rewrite Z.land_ones by lia. unfold wrapu. Z.to_euclidean_division_equations; lia. Qed.

Lemma digit3 : u8 (Z.land c 63) = (a * 65536 + b * 256 + c) mod 64.
Proof. unfold is_byte in *. change 63 with (Z.ones 6). rewrite Z.land_ones by lia. unfold wrapu. Z.to_euclidean_division_equations; lia. Qed.

Lemma digits_range : 0 <= (a * 65536 + b * 256 + c) / 262144 < 64 ∧ 0 <= (a * 65536 + b * 256 + c) / 4096 mod 64 < 64 ∧
  0 <= (a * 65536 + b * 256 + c) / 64 mod 64 < 64 ∧ 0 <= (a * 65536 + b * 256 + c) mod 64 < 64.
Proof. unfold is_byte in *. Z.to_euclidean_division_equations; lia. Qed.
End group.

(** ** [b64_ntop] *)

Section append.
Context (target0 : list Z).

Lemma append_filled l c : (length l < length target0)%nat → len l + 1 < 2 ^ 64 → is_byte c →
  append (filled target0 l, len l) c = Some (filled target0 (l ++ [c]), len (l ++ [c])).
Proof.
  intros Hl H64 Hc. unfold append. cbn [fst snd]. rewrite set_filled by done. cbn. rewrite length_app, wrapu_small by exact Hc. cbn [length].
  do 2 f_equal. rewrite wrapu_small by lia. lia.
Qed.
End append.

Lemma b64_byte v : 0 <= v < 64 → is_byte (b64 v).
Proof.
  intros Hv. assert (Forall is_byte Base64) as H by (apply (bool_decide_unpack _); by vm_compute). rewrite Forall_forall in H. apply H.
  pose proof (base64_at_ok v Hv) as E. unfold base64_at in E. rewrite (proj2 (Z.leb_le _ _)) in E by lia. by eapply list_elem_of_lookup_2.
Qed.

Lemma pad_byte : is_byte Pad64.
Proof. unfold is_byte, Pad64. lia. Qed.

(** One character of the output. *)
Lemma char_step target0 l v : 0 <= v < 64 → (length l < length target0)%nat → len l + 1 < 2 ^ 64 →
  ∀ A (f : list Z * Z → option A), (c ← base64_at v; t ← append (filled target0 l, len l) c; f t) = f (filled target0 (l ++ [b64 v]), len (l ++ [b64 v])).
Proof. intros Hv Hl H64 A f. rewrite base64_at_ok by done. cbn. rewrite append_filled; [done|done|done|by apply b64_byte]. Qed.

Lemma bind_Some_eq {A B} (x : A) (f : A → option B) : (Some x ≫= f) = f x.
Proof. reflexivity. Qed.

Section ntop.
Context (target0 : list Z) (targsize : Z) (Ht : 0 <= targsize <= len target0) (H64 : targsize < 2 ^ 64).
Set Default Proof Using "All".

Lemma room (l : list Z) : len l <= targsize → len l + 4 < 2 ^ 64 → (targsize <? u64 (len l + 4)) = negb (len l + 4 <=? targsize).
Proof. intros Hl Hb. rewrite wrapu_small by lia. rewrite Z.ltb_antisym. done. Qed.

Lemma asserts v : 0 <= v < 64 → ∀ A (f : unit → option A), (Assert (v <? 64) ≫= f) = f ().
Proof. intros Hv A f. by rewrite (proj2 (Z.ltb_lt _ _)) by lia. Qed.

Lemma ntop_loop_ok src : bytes src → ∀ l, len l <= targsize → len l + len (encode src) + 4 < 2 ^ 64 →
  (∃ t, ntop_loop src (len src) (filled target0 l) (len l) targsize = Some (Return (-1) t) ∧ spared targsize target0 t ∧ targsize < len l + len (encode src)) ∨
  (∃ src1 src2, bytes src2 ∧ (length src2 < 3)%nat ∧ encode src = src1 ++ encode src2 ∧ len l + len src1 <= targsize ∧
    ntop_loop src (len src) (filled target0 l) (len l) targsize = Some (Proceed (src2, len src2, filled target0 (l ++ src1), len (l ++ src1)))).
Proof.
  induction src as [|a|a b|a b c src IH] using groups_ind; intros Hb l Hl Hlen.
  1-3: right; exists []; eexists; rewrite app_nil_r; split; [exact Hb|]; (split; [cbn; lia|]); (split; [reflexivity|]); (split; [cbn; lia|]); reflexivity.
  unfold bytes in Hb. rewrite !Forall_cons in Hb. destruct Hb as (Ha & Hb & Hc & Hbs). cbn [ntop_loop encode] in *.
  rewrite (proj2 (Z.ltb_lt _ _)) by (cbn [length]; lia).
  rewrite (digit0 a b c), (digit1 a b c), (digit2 a b c), (digit3 a b c) by done. pose proof (digits_range a b c Ha Hb Hc) as (D0 & D1 & D2 & D3).
  rewrite !asserts by done. cbn [length] in Hlen. rewrite room by lia. destruct (len l + 4 <=? targsize) eqn:E4; cbn [negb]; zb.
  - do 4 (erewrite char_step; [|done|rewrite ?length_app; cbn [length]; lia|rewrite ?length_app; cbn [length]; lia]). cbn [fst snd].
    rewrite <- !(assoc_L (++)). cbn [app]. match goal with |- context [l ++ ?ds] => set (d := ds) end.
    assert (length d = 4%nat) as Hd by done.
    replace (len (a :: b :: c :: src) - 3) with (len src) by (cbn [length]; lia).
    destruct (IH Hbs (l ++ d)) as [(t & Et & Hs & Hover)|(src1 & src2 & H1 & H2 & H3 & H4 & H5)]; [rewrite length_app, Hd; lia|rewrite length_app, Hd; lia| |].
    + left. exists t. split; [exact Et|]. split; [done|]. rewrite length_app, Hd in Hover. cbn [length]. lia.
    + right. exists (d ++ src1), src2. split; [done|]. split; [done|]. split; [by rewrite H3|]. rewrite length_app, Hd in H4 |- *. split; [lia|].
      rewrite (assoc_L (++)). exact H5.
  - left. exists (filled target0 l). split; [done|]. split; [apply spared_filled; lia|]. cbn [length]. lia.
Qed.

Lemma ntop_rest_ok src l : bytes src → (length src < 3)%nat → len l <= targsize → len l + 4 < 2 ^ 64 →
  (∃ t, ntop_rest src (len src) (filled target0 l) (len l) targsize = Some (Return (-1) t) ∧ spared targsize target0 t ∧ targsize < len l + len (encode src)) ∨
  len l + len (encode src) <= targsize ∧
    ntop_rest src (len src) (filled target0 l) (len l) targsize = Some (Proceed (filled target0 (l ++ encode src), len (l ++ encode src))).
Proof.
  intros Hb H3 Hl Hlen. unfold ntop_rest. destruct src as [|a [|b [|? ?]]]; [..|cbn in H3; lia].
  - right. cbn [length encode]. rewrite app_nil_r. split; [lia|done].
  - unfold bytes in Hb. rewrite Forall_cons in Hb. destruct Hb as [Ha _]. cbn [length encode].
    assert (is_byte 0) as H0 by (unfold is_byte; lia).
    assert ((a * 65536 + 0 * 256 + 0) / 262144 = a * 16 / 64 ∧ (a * 65536 + 0 * 256 + 0) / 4096 mod 64 = a * 16 mod 64) as [E0 E1] by (Z.to_euclidean_division_equations; lia).
    pose proof (digits_range a 0 0 Ha H0 H0) as (D0 & D1 & D2 & _).
    change ([a] !! 0%nat) with (Some a). change (Z.of_nat 1) with 1. change (negb (1 =? 0)) with true. change (1 <? 1) with false. change (1 =? 1) with true. rewrite !bind_Some_eq. cbv zeta.
    rewrite (digit0 a 0 0), (digit1 a 0 0), (digit2 a 0 0) by done. rewrite !asserts by done. rewrite room by lia. rewrite E0, E1 in *.
    destruct (len l + 4 <=? targsize) eqn:E4; cbn [negb]; zb.
    + right. split; [lia|]. do 2 (erewrite char_step; [|done|rewrite ?length_app; cbn [length]; lia|rewrite ?length_app; cbn [length]; lia]).
      rewrite append_filled by (apply pad_byte || (rewrite ?length_app; cbn [length]; lia)). rewrite bind_Some_eq.
      rewrite append_filled by (apply pad_byte || (rewrite ?length_app; cbn [length]; lia)). rewrite bind_Some_eq.
      rewrite <- !(assoc_L (++)). reflexivity.
    + left. exists (filled target0 l). split; [done|]. split; [apply spared_filled; lia|lia].
  - unfold bytes in Hb. rewrite !Forall_cons in Hb. destruct Hb as (Ha & Hb & _). cbn [length encode].
    assert (is_byte 0) as H0 by (unfold is_byte; lia).
    assert ((a * 65536 + b * 256 + 0) / 262144 = (a * 1024 + b * 4) / 4096 ∧ (a * 65536 + b * 256 + 0) / 4096 mod 64 = (a * 1024 + b * 4) / 64 mod 64 ∧
      (a * 65536 + b * 256 + 0) / 64 mod 64 = (a * 1024 + b * 4) mod 64) as (E0 & E1 & E2) by (Z.to_euclidean_division_equations; lia).
    pose proof (digits_range a b 0 Ha Hb H0) as (D0 & D1 & D2 & _).
    change ([a; b] !! 0%nat) with (Some a). change ([a; b] !! 1%nat) with (Some b). change (Z.of_nat 2) with 2. change (negb (2 =? 0)) with true. change (1 <? 2) with true. change (2 =? 1) with false. rewrite !bind_Some_eq. cbv zeta.
    rewrite (digit0 a b 0), (digit1 a b 0), (digit2 a b 0) by done. rewrite !asserts by done. rewrite room by lia. rewrite E0, E1, E2 in *.
    destruct (len l + 4 <=? targsize) eqn:E4; cbn [negb]; zb.
    + right. split; [lia|]. do 2 (erewrite char_step; [|done|rewrite ?length_app; cbn [length]; lia|rewrite ?length_app; cbn [length]; lia]).
      rewrite base64_at_ok by done. rewrite bind_Some_eq.
      rewrite append_filled by (first [by apply b64_byte | rewrite ?length_app; cbn [length]; lia]). rewrite bind_Some_eq.
      rewrite append_filled by (apply pad_byte || (rewrite ?length_app; cbn [length]; lia)). rewrite bind_Some_eq.
      rewrite <- !(assoc_L (++)). reflexivity.
    + left. exists (filled target0 l). split; [done|]. split; [apply spared_filled; lia|lia].
Qed.

Lemma ntop_ok src : bytes src → len (encode src) + 4 < 2 ^ 31 →
  (len (encode src) < targsize ∧ b64_ntop src (len src) target0 targsize = Some (len (encode src), filled target0 (encode src ++ [0]))) ∨
  (targsize <= len (encode src) ∧ ∃ t, b64_ntop src (len src) target0 targsize = Some (-1, t) ∧ spared targsize target0 t).
Proof.
  intros Hb Hlen. unfold b64_ntop. change target0 with (filled target0 []) at 1 3.
  destruct (ntop_loop_ok src Hb [] ltac:(cbn; lia) ltac:(cbn; lia)) as [(t & E & Hs & Hover)|(l & src2 & Hb2 & H3 & Henc & Hl & E)].
  - cbn [length] in E. change (Z.of_nat 0) with 0 in E. right. split; [cbn [length] in Hover; lia|]. exists t. by rewrite E.
  - change (len []) with 0 in E, Hl. cbn [app] in E. rewrite E. cbn [mbind option_bind]. rewrite Henc, length_app in *.
    destruct (ntop_rest_ok src2 l Hb2 H3 ltac:(lia) ltac:(lia)) as [(t & E2 & Hs & Hover)|[Hle E2]]; rewrite E2; cbn [mbind option_bind].
    + right. split; [lia|]. by exists t.
    + rewrite length_app. destruct (targsize <=? _) eqn:E3; zb.
      * right. split; [lia|]. eexists. split; [reflexivity|]. apply spared_filled. rewrite length_app. lia.
      * left. split; [lia|]. rewrite <- length_app, set_filled by (rewrite length_app; lia). cbn [mbind option_bind].
        rewrite wraps_small; [done|lia|]. rewrite length_app. lia.
Qed.
End ntop.

(** ** The steps of the state machine *)

Lemma or_bits x y k : 0 < k → x mod 2 ^ k = 0 → 0 <= y < 2 ^ k → Z.lor x y = x + y.
Proof. intros Hk Hx Hy. apply Z.mod_divide in Hx as [q ->]; [|lia]. by apply lor_disjoint. Qed.

Lemma incr_ok i : i + 1 < 2 ^ 31 → incr i = Some (i + 1).
Proof. intros Hi. unfold incr. by rewrite (proj2 (Z.eqb_neq _ _)) by lia. Qed.

Section steps.
Context (target0 : list Z) (targsize : Z) (Ht : targsize <= len target0).
Set Default Proof Using "All".

Lemma get_filled l x : (length l < length target0)%nat → get_byte (filled target0 (l ++ [x])) (len l) = Some x.
Proof.
  intros Hl. unfold get_byte. rewrite (proj2 (Z.leb_le _ _)) by lia. unfold filled. rewrite Nat2Z.id, <- (assoc_L (++)). cbn [app].
  by rewrite list_lookup_middle.
Qed.

(** The byte at the end of what is written is combined with new bits. *)
Lemma or_filled l x v : (length l < length target0)%nat → or_byte (filled target0 (l ++ [x])) (len l) v = Some (filled target0 (l ++ [u8 (Z.lor x v)])).
Proof.
  intros Hl. unfold or_byte. rewrite get_filled by done. cbn [mbind option_bind]. by apply set_filled_last.
Qed.

Lemma step0 out v : 0 <= v < 64 → len out < 2 ^ 31 →
  pton_step v targsize (Some (filled target0 out)) (len out) 0 =
    Some (if targsize <=? len out then None else Some (Some (filled target0 (out ++ [4 * v])), len out, 1)).
Proof.
  intros Hv Hl. unfold pton_step. cbn [Z.eqb Pos.eqb]. rewrite wrapu_small by lia. destruct (targsize <=? len out) eqn:E; [done|]. zb.
  rewrite set_filled by lia. cbn [mbind option_bind]. assert (u8 (v ≪ 2) = 4 * v) as ->; [|done].
  rewrite shift_left, wrapu_small by lia. lia.
Qed.

(** The second and third digits finish a byte and begin the next one. *)
Lemma byte_step out x v y z st :
  (length out + 1 < length target0)%nat → u8 (Z.lor x y) = v → u8 z = st → len out + 1 < 2 ^ 31 →
  ∀ A (f : list Z → Z → option A), (t ← or_byte (filled target0 (out ++ [x])) (len out) y; t ← set_byte t (len out + 1) z; i ← incr (len out); f t i) =
    f (filled target0 (out ++ [v; st])) (len out + 1).
Proof.
  intros Hl Ev Est H31 A f. rewrite or_filled by lia. cbn [mbind option_bind]. rewrite Ev.
  replace (len out + 1) with (len (out ++ [v])) by (rewrite length_app; cbn [length]; lia).
  rewrite set_filled by (rewrite length_app; cbn [length]; lia). cbn [mbind option_bind]. rewrite incr_ok by done. cbn [mbind option_bind].
  rewrite <- (assoc_L (++)), Est. cbn [app]. f_equal. rewrite length_app. cbn [length]. lia.
Qed.

Lemma step1 out x v : 0 <= v < 64 → is_byte x → x mod 4 = 0 → len out + 1 < 2 ^ 31 →
  pton_step v targsize (Some (filled target0 (out ++ [x]))) (len out) 1 =
    Some (if targsize <=? len out + 1 then None else Some (Some (filled target0 (out ++ [x + v / 16; v mod 16 * 16])), len out + 1, 2)).
Proof.
  unfold is_byte. intros Hv Hx Hm Hl. unfold pton_step. cbn [Z.eqb Pos.eqb]. rewrite !wrapu_small by (rewrite ?wrapu_small by lia; lia).
  destruct (targsize <=? len out + 1) eqn:E; [done|]. zb. erewrite byte_step; [reflexivity|lia|..|done].
  - rewrite shift_right, (or_bits x (v / 2 ^ 4) 2), wrapu_small by (try done; Z.to_euclidean_division_equations; lia). done.
  - change 15 with (Z.ones 4). rewrite Z.land_ones, shift_left, wrapu_small by (try done; Z.to_euclidean_division_equations; lia). done.
Qed.

Lemma step2 out x v : 0 <= v < 64 → is_byte x → x mod 16 = 0 → len out + 1 < 2 ^ 31 →
  pton_step v targsize (Some (filled target0 (out ++ [x]))) (len out) 2 =
    Some (if targsize <=? len out + 1 then None else Some (Some (filled target0 (out ++ [x + v / 4; v mod 4 * 64])), len out + 1, 3)).
Proof.
  unfold is_byte. intros Hv Hx Hm Hl. unfold pton_step. cbn [Z.eqb Pos.eqb]. rewrite !wrapu_small by (rewrite ?wrapu_small by lia; lia).
  destruct (targsize <=? len out + 1) eqn:E; [done|]. zb. erewrite byte_step; [reflexivity|lia|..|done].
  - rewrite shift_right, (or_bits x (v / 2 ^ 2) 4), wrapu_small by (try done; Z.to_euclidean_division_equations; lia). done.
  - change 3 with (Z.ones 2). rewrite Z.land_ones, shift_left, wrapu_small by (try done; Z.to_euclidean_division_equations; lia). done.
Qed.

Lemma step3 out x v : 0 <= v < 64 → is_byte x → x mod 64 = 0 → len out + 1 < 2 ^ 31 →
  pton_step v targsize (Some (filled target0 (out ++ [x]))) (len out) 3 =
    Some (if targsize <=? len out then None else Some (Some (filled target0 (out ++ [x + v])), len out + 1, 0)).
Proof.
  unfold is_byte. intros Hv Hx Hm Hl. unfold pton_step. cbn [Z.eqb Pos.eqb]. rewrite wrapu_small by lia.
  destruct (targsize <=? len out) eqn:E; [done|]. zb. rewrite or_filled by lia. cbn [mbind option_bind].
  rewrite incr_ok by done. cbn [mbind option_bind]. rewrite (or_bits x v 6), wrapu_small by (try done; Z.to_euclidean_division_equations; lia). done.
Qed.
End steps.

(** ** Spaces *)

(** [isspace] does not hold of the NUL and of the characters of the encoding. *)
Class SpaceLaws (isspace : Z → bool) : Prop := {
  space_nul : isspace 0 = false;
  space_pad : isspace Pad64 = false;
  space_digit v : 0 <= v < 64 → isspace (b64 v) = false }.

(** The characters of a C string. *)
Definition chars (s : list Z) : Prop := Forall (λ c, 0 < c < 256) s.

Lemma char_nonzero c : 0 < c < 256 → (wraps 8 c =? 0) = false.
Proof. intros Hc. apply Z.eqb_neq. unfold wraps. Z.to_euclidean_division_equations. lia. Qed.

Lemma char_pad c : 0 < c < 256 → (wraps 8 c =? Pad64) = (c =? Pad64).
Proof. intros Hc. unfold wraps, Pad64. destruct (c =? 61) eqn:E; zb; [by subst c|]. apply Z.eqb_neq. Z.to_euclidean_division_equations. lia. Qed.

Section spaces.
Context (isspace : Z → bool) `{!SpaceLaws isspace} (more : list Z).
Set Default Proof Using "All".

Definition dense (s : list Z) : list Z := filter (λ c, isspace (wraps 8 c) = false) s.

Lemma dense_cons c s : dense (c :: s) = if isspace (wraps 8 c) then dense s else c :: dense s.
Proof. unfold dense. rewrite filter_cons. by destruct (isspace (wraps 8 c)). Qed.

Lemma dense_idemp s : dense (dense s) = dense s.
Proof. induction s as [|c s IH]; [done|]. rewrite dense_cons. destruct (isspace (wraps 8 c)) eqn:E; [done|]. by rewrite dense_cons, E, IH. Qed.

Lemma chars_dense s : chars s → chars (dense s).
Proof. unfold chars. rewrite !Forall_forall. intros H c [_ Hc]%list_elem_of_filter. by apply H. Qed.

(** The next character of a string and what follows it. *)
Lemma only_spaces_ok s : chars s → ('(ch, src) ← next_char (s ++ 0 :: more); only_spaces isspace ch src) = Some (match dense s with [] => true | _ => false end).
Proof.
  induction 1 as [|c s Hc Hs IH]; [by destruct more|]. rewrite dense_cons. cbn [app next_char mbind option_bind].
  assert (only_spaces isspace (wraps 8 c) (s ++ 0 :: more) =
    if negb (isspace (wraps 8 c)) then Some false else '(ch, src) ← next_char (s ++ 0 :: more); only_spaces isspace ch src) as ->.
  { destruct s; cbn [only_spaces app next_char mbind option_bind]; by rewrite char_nonzero by done. }
  destruct (isspace (wraps 8 c)); cbn [negb]; [exact IH|done].
Qed.

(** The end after a pad character, by the characters that are not spaces. *)
Definition no_bits (target : option (list Z)) (tarindex : Z) : option bool :=
  match target with Some t => x ← get_byte t tarindex; Some (x =? 0) | None => Some true end.
Definition padding (f : list Z) (target : option (list Z)) (tarindex : Z) : option bool :=
  match f with [] => no_bits target tarindex | _ => Some false end.

Lemma padded_ok s target i : chars s →
  ('(ch, src) ← next_char (s ++ 0 :: more); pton_padded isspace ch src target i) = padding (dense s) target i.
Proof.
  intros Hs. pose proof (only_spaces_ok s Hs) as H. destruct (next_char _) as [[ch src]|]; [|done]. cbn [mbind option_bind] in *.
  unfold pton_padded, padding, no_bits. rewrite H. by destruct (dense s).
Qed.

Lemma second_pad_ok s target i : chars s →
  ('(ch, src) ← next_char (s ++ 0 :: more); '(ch, src) ← skip_spaces isspace ch src;
   if negb (ch =? Pad64) then Some false else '(ch, src) ← next_char src; pton_padded isspace ch src target i) =
  match dense s with c :: f => if c =? Pad64 then padding f target i else Some false | [] => Some false end.
Proof.
  induction 1 as [|c s Hc Hs IH]; [by destruct more|]. rewrite dense_cons. cbn [app]. change (next_char (c :: s ++ 0 :: more)) with (Some (wraps 8 c, s ++ 0 :: more)). rewrite bind_Some_eq. cbv beta iota.
  assert (skip_spaces isspace (wraps 8 c) (s ++ 0 :: more) =
    if negb (isspace (wraps 8 c)) then Some (wraps 8 c, s ++ 0 :: more) else '(ch, src) ← next_char (s ++ 0 :: more); skip_spaces isspace ch src) as ->.
  { destruct s; cbn [skip_spaces app next_char mbind option_bind]; by rewrite char_nonzero by done. }
  destruct (isspace (wraps 8 c)) eqn:Esp; cbn [negb].
  - rewrite <- IH. by destruct (next_char (s ++ 0 :: more)) as [[ch src]|].
  - cbn [mbind option_bind]. rewrite char_pad by done. destruct (c =? Pad64); cbn [negb]; [|done]. by apply padded_ok.
Qed.

Lemma pton_end_pad s target i st : chars s → 0 <= st <= 3 →
  pton_end isspace Pad64 (s ++ 0 :: more) target i st =
    if st <=? 1 then Some false
    else if st =? 2 then match dense s with c :: f => if c =? Pad64 then padding f target i else Some false | [] => Some false end
    else padding (dense s) target i.
Proof.
  intros Hs Hst. rewrite <- (second_pad_ok s target i Hs), <- (padded_ok s target i Hs). unfold pton_end. rewrite Z.eqb_refl.
  assert (∃ ch src, next_char (s ++ 0 :: more) = Some (ch, src)) as (ch & src & E) by (destruct s; cbn; by eexists _, _).
  rewrite E. cbn [mbind option_bind]. assert (st = 0 ∨ st = 1 ∨ st = 2 ∨ st = 3) as [-> | [-> | [-> | ->]]] by lia; reflexivity.
Qed.

(** ** The loop *)

Lemma loop_char v src targsize target i st : 0 <= v < 64 →
  pton_loop isspace (b64 v :: src) targsize target i st =
    (r ← pton_step v targsize target i st;
     match r with None => Some (Invalid target) | Some (target, i, st) => pton_loop isspace src targsize target i st end).
Proof.
  intros Hv. cbn [pton_loop]. destruct (b64_ok v Hv) as (Hpos & Hnz & Hnp & Hw). rewrite Hw, (proj2 (Z.eqb_neq _ _) Hnz), space_digit by done.
  rewrite (proj2 (Z.eqb_neq _ _) Hnp). by rewrite Hpos.
Qed.

Lemma loop_space c s targsize target i st : 0 < c < 256 → isspace (wraps 8 c) = true →
  pton_loop isspace (c :: s) targsize target i st = pton_loop isspace s targsize target i st.
Proof. intros Hc Hsp. cbn [pton_loop]. by rewrite char_nonzero, Hsp. Qed.

Lemma loop_pad s targsize target i st : pton_loop isspace (Pad64 :: s) targsize target i st = Some (Ended Pad64 s target i st).
Proof. cbn [pton_loop]. change (wraps 8 Pad64) with Pad64. by rewrite space_pad. Qed.

(** What the function returns after the loop. *)
Definition finish (r : scan) : option (Z * option (list Z)) :=
  match r with
  | Invalid target => Some (-1, target)
  | Ended ch src target i st => b ← pton_end isspace ch src target i st; Some (if (b : bool) then i else -1, target)
  end.

Lemma pton_eq src target targsize : b64_pton isspace src target targsize = r ← pton_loop isspace src targsize target 0 0; finish r.
Proof. unfold b64_pton. by destruct (pton_loop _ _ _ _ _ _) as [[]|]. Qed.

(** A space makes no difference. *)
Lemma loop_dense s targsize : chars s → ∀ target i st, 0 <= st <= 3 →
  (r ← pton_loop isspace (s ++ 0 :: more) targsize target i st; finish r) =
  (r ← pton_loop isspace (dense s ++ 0 :: more) targsize target i st; finish r).
Proof.
  induction 1 as [|c s Hc Hs IH]; intros target i st Hst; [done|]. rewrite dense_cons. destruct (isspace (wraps 8 c)) eqn:Esp.
  { cbn [app]. rewrite loop_space by done. by apply IH. }
  cbn [app pton_loop]. rewrite char_nonzero, Esp, char_pad by done. destruct (c =? Pad64) eqn:Ep; zb.
  - subst c. change (wraps 8 Pad64) with Pad64. cbn [mbind option_bind finish].
    rewrite (pton_end_pad s), (pton_end_pad (dense s)) by (done || by apply chars_dense). by rewrite dense_idemp.
  - destruct (base64_pos (wraps 8 c)) as [pos|]; [|done]. destruct (pton_step pos targsize target i st) as [[[[tg' i'] st']|]|] eqn:E; [|done..].
    cbn [mbind option_bind]. apply IH. clear -E Hst. unfold pton_step in E.
    assert (st = 0 ∨ st = 1 ∨ st = 2 ∨ st = 3) as [-> | [-> | [-> | ->]]] by lia; cbn [Z.eqb Pos.eqb] in E; destruct target;
      repeat (case_match; try discriminate); simplify_option_eq; lia.
Qed.
End spaces.
