(* ===== verification/Base64Props.v ===== *)
(** * Base64Props: decoding inverts encoding, and accepts nothing else *)

From S2P Require Import Prelude Bytes Base64 Base64Spec.
Local Open Scope Z_scope.

(** ** Groups of digits *)

Lemma encode_app l r : len l mod 3 = 0 → encode (l ++ r) = encode l ++ encode r.
Proof.
  induction l as [|a|a b|a b c l IH] using groups_ind; intros Hl; [done|done|done|]. cbn [app encode]. rewrite IH; [done|].
  cbn [length] in Hl. rewrite !Nat2Z.inj_succ in Hl. Z.to_euclidean_division_equations. lia.
Qed.

(** The bytes [out] are the value of the digits [vs], in whole groups. *)
Definition whole (vs out : list Z) : Prop := encode out = b64 <$> vs ∧ len out mod 3 = 0 ∧ bytes out.

(** The bytes decoded, the byte begun and the state after the digits [vs]. *)
Inductive inv : list Z → list Z → list Z → Z → Prop :=
  | inv0 vs out : whole vs out → inv vs out [] 0
  | inv1 vs out v : whole vs out → 0 <= v < 64 → inv (vs ++ [v]) out [4 * v] 1
  | inv2 vs out v w : whole vs out → 0 <= v < 64 → 0 <= w < 64 → inv (vs ++ [v; w]) (out ++ [4 * v + w / 16]) [w mod 16 * 16] 2
  | inv3 vs out v w y : whole vs out → 0 <= v < 64 → 0 <= w < 64 → 0 <= y < 64 →
      inv (vs ++ [v; w; y]) (out ++ [4 * v + w / 16; w mod 16 * 16 + y / 4]) [y mod 4 * 64] 3.

Lemma inv_bytes vs out px st : inv vs out px st → bytes out ∧ bytes px ∧ 0 <= st <= 3.
Proof.
  assert (∀ l, bytes l ↔ Forall is_byte l) as E by done.
  destruct 1 as [vs out (_ & _ & H)|vs out v (_ & _ & H) Hv|vs out v w (_ & _ & H) Hv Hw|vs out v w y (_ & _ & H) Hv Hw Hy];
    rewrite !E, ?Forall_app, ?Forall_cons; unfold is_byte; (split; [|split; [|lia]]); repeat split; try done; try constructor; Z.to_euclidean_division_equations; lia.
Qed.

Lemma whole_group vs out v w y z : whole vs out → 0 <= v < 64 → 0 <= w < 64 → 0 <= y < 64 → 0 <= z < 64 →
  whole (vs ++ [v; w; y; z]) (out ++ [4 * v + w / 16; w mod 16 * 16 + y / 4; y mod 4 * 64 + z]).
Proof.
  intros (He & Hm & Hb) Hv Hw Hy Hz. split; [|split].
  - rewrite encode_app, He, fmap_app by done. f_equal. cbn [encode fmap list_fmap].
    f_equal; [f_equal|f_equal; [f_equal|f_equal; [f_equal|f_equal; f_equal]]]; Z.to_euclidean_division_equations; lia.
  - rewrite length_app, Nat2Z.inj_add. cbn [length]. Z.to_euclidean_division_equations; lia.
  - apply Forall_app. split; [done|]. rewrite !Forall_cons. unfold is_byte. repeat split; try done; Z.to_euclidean_division_equations; lia.
Qed.

(** The space the decoder wants: for bits that are left over, one byte more. *)
Definition left_over (d : list Z) : list Z := if len d mod 3 =? 0 then [] else [0].
Definition needed (d : list Z) : Z := len (d ++ left_over d).

Lemma whole_one vs out v w : whole vs out → 0 <= v < 64 → 0 <= w < 64 → w mod 16 * 16 = 0 →
  let d := out ++ [4 * v + w / 16] in bytes d ∧ encode d = (b64 <$> vs ++ [v; w]) ++ [Pad64; Pad64] ∧ left_over d = [0].
Proof.
  intros (He & Hm & Hb) Hv Hw Hz d. unfold d. split; [|split].
  - apply Forall_app. split; [done|]. rewrite Forall_cons. unfold is_byte. split; [|done]. Z.to_euclidean_division_equations; lia.
  - rewrite encode_app, He, fmap_app, <- (assoc_L (++)) by done. f_equal. cbn [encode fmap list_fmap app].
    f_equal; [f_equal|f_equal; f_equal]; Z.to_euclidean_division_equations; lia.
  - unfold left_over. rewrite length_app. cbn [length]. rewrite (proj2 (Z.eqb_neq _ _)); [done|]. Z.to_euclidean_division_equations; lia.
Qed.

Lemma whole_two vs out v w y : whole vs out → 0 <= v < 64 → 0 <= w < 64 → 0 <= y < 64 → y mod 4 * 64 = 0 →
  let d := out ++ [4 * v + w / 16; w mod 16 * 16 + y / 4] in bytes d ∧ encode d = (b64 <$> vs ++ [v; w; y]) ++ [Pad64] ∧ left_over d = [0].
Proof.
  intros (He & Hm & Hb) Hv Hw Hy Hz d. unfold d. split; [|split].
  - apply Forall_app. split; [done|]. rewrite !Forall_cons. unfold is_byte. split; [|split; [|done]]; Z.to_euclidean_division_equations; lia.
  - rewrite encode_app, He, fmap_app, <- (assoc_L (++)) by done. f_equal. cbn [encode fmap list_fmap app].
    f_equal; [f_equal|f_equal; [f_equal|f_equal; f_equal]]; Z.to_euclidean_division_equations; lia.
  - unfold left_over. rewrite length_app. cbn [length]. rewrite (proj2 (Z.eqb_neq _ _)); [done|]. Z.to_euclidean_division_equations; lia.
Qed.

Section loop.
Context (isspace : Z → bool) `{!SpaceLaws isspace} (more target0 : list Z) (targsize : Z) (Ht : targsize <= len target0).
Set Default Proof Using "All".
Notation tgt l := (Some (filled target0 l)).

(** One digit. *)
Lemma inv_step vs out px st v : inv vs out px st → 0 <= v < 64 → len out + 1 < 2 ^ 31 →
  targsize <= len (out ++ px) ∧ pton_step v targsize (tgt (out ++ px)) (len out) st = Some None ∨
  ∃ out' px' st', inv (vs ++ [v]) out' px' st' ∧ len (out' ++ px') <= targsize ∧ len out' <= len out + 1 ∧
    pton_step v targsize (tgt (out ++ px)) (len out) st = Some (Some (tgt (out' ++ px'), len out', st')).
Proof.
  intros Hi Hv Hl. inversion Hi as [? ? Hw|? ? u Hw Hu|? ? u w Hw Hu Hww|? ? u w y Hw Hu Hww Hy]; subst.
  - rewrite app_nil_r. rewrite step0 by (done || lia). destruct (targsize <=? len out) eqn:E; zb; [by left|right].
    exists out, [4 * v], 1. split; [by constructor|]. rewrite length_app. cbn [length]. split; [lia|]. split; [lia|done].
  - rewrite step1 by (unfold is_byte; done || Z.to_euclidean_division_equations; lia). rewrite length_app. cbn [length].
    destruct (targsize <=? len out + 1) eqn:E; zb; [left; split; [lia|done]|right].
    exists (out ++ [4 * u + v / 16]), [v mod 16 * 16], 2. rewrite <- (assoc_L (++)). split; [by constructor|]. rewrite <- (assoc_L (++)), !length_app. cbn [length app].
    split; [lia|]. split; [lia|]. do 4 f_equal. lia.
  - rewrite step2 by (unfold is_byte; done || Z.to_euclidean_division_equations; lia). set (b0 := 4 * u + w / 16) in *. rewrite !length_app in *. cbn [length] in *.
    destruct (targsize <=? _) eqn:E; zb; [left; split; [lia|done]|right].
    exists (out0 ++ [b0; w mod 16 * 16 + v / 4]), [v mod 4 * 64], 3. rewrite <- !(assoc_L (++)). split; [by constructor|]. rewrite !length_app. cbn [length app].
    split; [lia|]. split; [lia|]. do 4 f_equal. lia.
  - rewrite step3 by (unfold is_byte; done || Z.to_euclidean_division_equations; lia). set (b0 := 4 * u + w / 16) in *. set (b1 := w mod 16 * 16 + y / 4) in *.
    rewrite !length_app in *. cbn [length] in *. destruct (targsize <=? _) eqn:E; zb; [left; split; [lia|done]|right].
    exists (out0 ++ [b0; b1; y mod 4 * 64 + v]), [], 0. rewrite app_nil_r, <- !(assoc_L (++)). cbn [app]. rewrite !length_app. cbn [length].
    split; [constructor; by apply whole_group|]. split; [lia|]. split; [lia|]. do 4 f_equal. lia.
Qed.

Definition spaceless (s : list Z) : Prop := Forall (λ c, isspace (wraps 8 c) = false) s.

Lemma dense_spaceless s : spaceless s → dense isspace s = s.
Proof. induction 1 as [|c s Hc Hs IH]; [done|]. by rewrite dense_cons, Hc, IH. Qed.

(** The loop on a string without spaces. *)
Definition loop_post (vs s : list Z) (r : scan) : Prop :=
  match r with
  | Invalid t => ∃ l, len l <= targsize ∧ t = tgt l
  | Ended ch src t i st => ∃ ws s' out px, s = (b64 <$> ws) ++ s' ∧ inv (vs ++ ws) out px st ∧ t = tgt (out ++ px) ∧ i = len out ∧ len (out ++ px) <= targsize ∧
      (s' = [] ∧ ch = 0 ∨ ∃ s'', s' = Pad64 :: s'' ∧ ch = Pad64 ∧ src = s'' ++ 0 :: more)
  end.

Lemma loop_inv s : chars s → spaceless s → ∀ vs out px st,
  inv vs out px st → len (out ++ px) <= targsize → len out + len s + 1 < 2 ^ 31 →
  ∃ r, pton_loop isspace (s ++ 0 :: more) targsize (tgt (out ++ px)) (len out) st = Some r ∧ loop_post vs s r.
Proof.
  induction s as [|c s IH]; intros Hch Hsp vs out px st Hi Hl H31.
  - eexists. split; [reflexivity|]. exists [], [], out, px. rewrite (app_nil_r vs). repeat (split; [done|]). by left.
  - apply Forall_cons in Hch as [Hc Hch]. apply Forall_cons in Hsp as [Hsc Hsp]. cbn [length] in H31.
    destruct (decide (c = Pad64)) as [->|Hne].
    { cbn [app]. rewrite loop_pad by done. eexists. split; [reflexivity|]. exists [], (Pad64 :: s), out, px. rewrite (app_nil_r vs).
      repeat (split; [done|]). right. by exists s. }
    destruct (base64_pos (wraps 8 c)) as [v|] eqn:Ev.
    + apply base64_pos_inv in Ev as [Hv Ec]; [|unfold wraps; Z.to_euclidean_division_equations; lia].
      assert (c = b64 v) as ->.
      { destruct (b64_ok v Hv) as (_ & _ & _ & Hw). pose proof (b64_byte v Hv). unfold is_byte in *. rewrite <- Hw in Ec.
        unfold wraps in Ec. Z.to_euclidean_division_equations; lia. }
      cbn [app]. rewrite loop_char by done. destruct (inv_step vs out px st v Hi Hv ltac:(lia)) as [[Hshort ->]|(out' & px' & st' & Hi' & Hl' & Ho & ->)]; cbn [mbind option_bind].
      * eexists. split; [reflexivity|]. by exists (out ++ px).
      * destruct (IH Hch Hsp _ _ _ _ Hi' Hl' ltac:(lia)) as (r & -> & Hr). exists r. split; [done|].
        destruct r as [t|ch src t i st'']; [exact Hr|]. destruct Hr as (ws & s' & out2 & px2 & -> & Hi2 & Hr). rewrite <- (assoc_L (++)) in Hi2.
        by exists (v :: ws), s', out2, px2.
    + exists (Invalid (tgt (out ++ px))). split; [|by exists (out ++ px)]. cbn [app pton_loop]. rewrite char_nonzero, Hsc, char_pad by done.
      rewrite (proj2 (Z.eqb_neq _ _) Hne), Ev. done.
Qed.

(** Only encodings are accepted. *)
Lemma pton_only s : chars s → spaceless s → 0 <= targsize → len s + 1 < 2 ^ 31 →
  ∃ r l, b64_pton isspace (s ++ 0 :: more) (Some target0) targsize = Some (r, tgt l) ∧ len l <= targsize ∧
    (r = -1 ∨ ∃ d, bytes d ∧ s = encode d ∧ r = len d ∧ l = d ++ left_over d).
Proof.
  intros Hch Hsp H0 H31. rewrite pton_eq by done. change target0 with (filled target0 ([] ++ [])) at 1.
  destruct (loop_inv s Hch Hsp [] [] [] 0) as (r & E & Hr); [constructor; repeat constructor|done|cbn; lia|].
  change (len []) with 0 in E. rewrite E. cbn [mbind option_bind]. destruct r as [t|ch src t i st]; cbn [finish].
  { destruct Hr as (l & Hl & ->). exists (-1), l. split; [done|]. split; [done|by left]. }
  destruct Hr as (ws & s' & out & px & -> & Hi & -> & -> & Hl & Hs').
  assert (∀ r, (r = false → len (out ++ px) <= targsize) ∧ (r = true → ∃ d, bytes d ∧ (b64 <$> ws) ++ s' = encode d ∧ len out = len d ∧ out ++ px = d ++ left_over d) →
    ∃ v l, Some (if (r : bool) then len out else -1, tgt (out ++ px)) = Some (v, tgt l) ∧ len l <= targsize ∧ (v = -1 ∨ ∃ d, bytes d ∧ (b64 <$> ws) ++ s' = encode d ∧ v = len d ∧ l = d ++ left_over d)) as Hend.
  { intros r [_ Hr]. eexists _, _. split; [reflexivity|]. split; [done|]. destruct r; [right; by apply Hr|by left]. }
  cbn [app] in Hi. destruct Hs' as [[-> ->]|(s'' & -> & -> & ->)].
  - unfold pton_end. cbn [Z.eqb]. apply Hend. split; [done|]. intros ->%Z.eqb_eq. inv Hi. exists out.
    match goal with H : whole _ _ |- _ => destruct H as (He & Hm & Hb) end. split; [done|]. rewrite app_nil_r. split; [done|]. split; [done|].
    unfold left_over. by rewrite Hm.
  - unfold chars in Hch. unfold spaceless in Hsp. rewrite Forall_app, Forall_cons in Hch, Hsp. destruct Hch as (_ & _ & Hch), Hsp as (_ & _ & Hsp).
    destruct (inv_bytes _ _ _ _ Hi) as (_ & _ & Hst). rewrite pton_end_pad, dense_spaceless by done.
    destruct (st <=? 1) eqn:E1; zb; [by apply Hend|]. inversion Hi as [| |vs ? v w Hw Hv Hww|vs ? v w y Hw Hv Hww Hy]; subst; [lia|lia|..].
    + set (x := w mod 16 * 16) in *. change (2 =? 2) with true. cbv iota. destruct s'' as [|c f]; [by apply (Hend false)|].
      destruct (c =? Pad64) eqn:Ec; [|by apply (Hend false)]. zb. subst c. destruct f as [|? ?]; [|by apply (Hend false)].
      cbn [padding no_bits]. rewrite (get_filled target0 targsize Ht) by (rewrite length_app in Hl; cbn [length] in Hl; lia). cbn [mbind option_bind].
      apply Hend. split; [done|]. intros Hx%Z.eqb_eq. eexists. destruct (whole_one vs out0 v w Hw Hv Hww Hx) as (Hb & He & Hlo).
      split; [exact Hb|]. rewrite He, Hlo. split; [done|]. split; [done|]. by rewrite Hx.
    + set (x := y mod 4 * 64) in *. change (3 =? 2) with false. cbv iota. destruct s'' as [|c f]; [|by apply (Hend false)].
      cbn [padding no_bits]. rewrite (get_filled target0 targsize Ht) by (rewrite length_app in Hl; cbn [length] in Hl; lia). cbn [mbind option_bind].
      apply Hend. split; [done|]. intros Hx%Z.eqb_eq. eexists. destruct (whole_two vs out0 v w y Hw Hv Hww Hy Hx) as (Hb & He & Hlo).
      split; [exact Hb|]. rewrite He, Hlo. split; [done|]. split; [done|]. by rewrite Hx.
Qed.

(** The digits, when there is room. *)
Lemma loop0 out v src : 0 <= v < 64 → len out < targsize → len out + 1 < 2 ^ 31 →
  pton_loop isspace (b64 v :: src) targsize (tgt out) (len out) 0 = pton_loop isspace src targsize (tgt (out ++ [4 * v])) (len out) 1.
Proof. intros Hv Hl H31. rewrite loop_char, step0, (proj2 (Z.leb_gt _ _)) by (done || lia). done. Qed.

Lemma loop1 out x v y z src : 0 <= v < 64 → is_byte x → x mod 4 = 0 → y = x + v / 16 → z = v mod 16 * 16 → len out + 1 < targsize → len out + 1 < 2 ^ 31 →
  pton_loop isspace (b64 v :: src) targsize (tgt (out ++ [x])) (len out) 1 = pton_loop isspace src targsize (tgt ((out ++ [y]) ++ [z])) (len (out ++ [y])) 2.
Proof.
  intros Hv Hx Hm -> -> Hl H31. rewrite loop_char, step1, (proj2 (Z.leb_gt _ _)) by (done || lia). cbn [mbind option_bind].
  rewrite <- (assoc_L (++)), length_app, Nat2Z.inj_add. done.
Qed.

Lemma loop2 out x v y z src : 0 <= v < 64 → is_byte x → x mod 16 = 0 → y = x + v / 4 → z = v mod 4 * 64 → len out + 1 < targsize → len out + 1 < 2 ^ 31 →
  pton_loop isspace (b64 v :: src) targsize (tgt (out ++ [x])) (len out) 2 = pton_loop isspace src targsize (tgt ((out ++ [y]) ++ [z])) (len (out ++ [y])) 3.
Proof.
  intros Hv Hx Hm -> -> Hl H31. rewrite loop_char, step2, (proj2 (Z.leb_gt _ _)) by (done || lia). cbn [mbind option_bind].
  rewrite <- (assoc_L (++)), length_app, Nat2Z.inj_add. done.
Qed.

Lemma loop3 out x v y src : 0 <= v < 64 → is_byte x → x mod 64 = 0 → y = x + v → len out < targsize → len out + 1 < 2 ^ 31 →
  pton_loop isspace (b64 v :: src) targsize (tgt (out ++ [x])) (len out) 3 = pton_loop isspace src targsize (tgt (out ++ [y])) (len (out ++ [y])) 0.
Proof.
  intros Hv Hx Hm -> Hl H31. rewrite loop_char, step3, (proj2 (Z.leb_gt _ _)) by (done || lia). cbn [mbind option_bind].
  rewrite length_app, Nat2Z.inj_add. done.
Qed.

(** Encodings are accepted when there is room. *)
Ltac digits := unfold is_byte in *; Z.to_euclidean_division_equations; lia.
Ltac room_for := rewrite ?length_app; cbn [length] in *; lia.

Lemma loop_encode d : bytes d → ∀ out, len out + needed d <= targsize → len out + len d + 1 < 2 ^ 31 →
  ∃ ch src st, pton_loop isspace (encode d ++ 0 :: more) targsize (tgt out) (len out) 0 = Some (Ended ch src (tgt (out ++ d ++ left_over d)) (len (out ++ d)) st) ∧
    pton_end isspace ch src (tgt (out ++ d ++ left_over d)) (len (out ++ d)) st = Some true.
Proof.
  induction d as [|a|a b|a b c d IH] using groups_ind; intros Hb out Hn H31; unfold bytes in Hb; rewrite ?Forall_cons in Hb; unfold needed in Hn; rewrite length_app in Hn.
  - exists 0, more, 0. cbn. rewrite !app_nil_r. by split.
  - destruct Hb as [Ha _]. change (length (left_over [a])) with 1%nat in Hn. assert (out ++ [a] ++ left_over [a] = (out ++ [a]) ++ [0]) as -> by by rewrite <- (assoc_L (++)).
    cbn [encode app length] in *. rewrite loop0 by (digits || room_for). rewrite (loop1 out _ _ a 0) by (digits || room_for).
    rewrite loop_pad by done. eexists _, _, _. split; [reflexivity|].
    rewrite (pton_end_pad isspace more [Pad64]) by (repeat constructor; done || lia). rewrite dense_spaceless by (repeat constructor; apply space_pad; done).
    cbn [Z.leb Z.compare Pos.compare Pos.compare_cont Z.eqb Pos.eqb padding no_bits Pad64]. rewrite (get_filled target0 targsize Ht) by room_for. done.
  - destruct Hb as (Ha & Hb & _). change (length (left_over [a; b])) with 1%nat in Hn.
    assert (out ++ [a; b] ++ left_over [a; b] = ((out ++ [a]) ++ [b]) ++ [0]) as -> by by rewrite <- !(assoc_L (++)).
    assert (out ++ [a; b] = (out ++ [a]) ++ [b]) as -> by by rewrite <- (assoc_L (++)).
    cbn [encode app length] in *. rewrite loop0 by (digits || room_for). rewrite (loop1 out _ _ a (b / 16 * 16)) by (digits || room_for).
    rewrite (loop2 (out ++ [a]) _ _ b 0) by (digits || room_for).
    rewrite loop_pad by done. eexists _, _, _. split; [reflexivity|].
    rewrite (pton_end_pad isspace more []) by (repeat constructor; done || lia).
    cbn [Z.leb Z.compare Pos.compare Pos.compare_cont Z.eqb Pos.eqb dense filter list_filter padding no_bits]. rewrite (get_filled target0 targsize Ht) by room_for. done.
  - destruct Hb as (Ha & Hb & Hc & Hd).
    assert (left_over (a :: b :: c :: d) = left_over d) as El.
    { unfold left_over. cbn [length]. rewrite !Nat2Z.inj_succ. replace (Z.succ (Z.succ (Z.succ (len d)))) with (len d + 1 * 3) by lia. by rewrite Z_mod_plus_full. }
    rewrite El in *. assert (∀ l, out ++ (a :: b :: c :: d) ++ l = (((out ++ [a]) ++ [b]) ++ [c]) ++ d ++ l) as E by (intros l; by rewrite <- !(assoc_L (++))).
    rewrite E. specialize (E []). rewrite !app_nil_r in E. rewrite E.
    cbn [encode app length] in *. rewrite loop0 by (digits || room_for). rewrite (loop1 out _ _ a (b / 16 * 16)) by (digits || room_for).
    rewrite (loop2 (out ++ [a]) _ _ b (c / 64 * 64)) by (digits || room_for). rewrite (loop3 ((out ++ [a]) ++ [b]) _ _ c) by (digits || room_for).
    apply IH; [done|unfold needed; room_for|room_for].
Qed.

Lemma pton_encode d : bytes d → needed d <= targsize → len d + 1 < 2 ^ 31 →
  b64_pton isspace (encode d ++ 0 :: more) (Some target0) targsize = Some (len d, tgt (d ++ left_over d)).
Proof.
  intros Hb Hn H31. rewrite pton_eq by done. destruct (loop_encode d Hb []) as (ch & src & st & E & E2); [exact Hn|exact H31|].
  cbn [app length] in E, E2. change (filled target0 []) with target0 in E. change (Z.of_nat 0) with 0 in E. rewrite E. cbn [mbind option_bind finish]. by rewrite E2.
Qed.
End loop.

(** ** A null target *)

Section null.
Context (isspace : Z → bool).

Lemma step_null targsize v t i st t' i' st' : pton_step v targsize (Some t) i st = Some (Some (Some t', i', st')) → pton_step v targsize None i st = Some (Some (None, i', st')).
Proof.
  unfold pton_step. intros H. destruct (st =? 0); [|destruct (st =? 1); [|destruct (st =? 2); [|destruct (st =? 3); [|done]]]];
    case_match; simplify_option_eq; try done; by case_match; simplify_option_eq.
Qed.

Lemma step_target targsize v t i st x : pton_step v targsize (Some t) i st = Some (Some x) → ∃ t', x.1.1 = Some t'.
Proof.
  unfold pton_step. intros H. destruct (st =? 0); [|destruct (st =? 1); [|destruct (st =? 2); [|destruct (st =? 3); [|done]]]];
    case_match; simplify_option_eq; try done; by eexists.
Qed.

Lemma loop_null targsize s : ∀ t i st ch src t' i' st', pton_loop isspace s targsize (Some t) i st = Some (Ended ch src (Some t') i' st') →
  pton_loop isspace s targsize None i st = Some (Ended ch src None i' st').
Proof.
  induction s as [|c s IH]; intros t i st ch src t' i' st'; [done|]. cbn [pton_loop].
  destruct (wraps 8 c =? 0); [by intros [= -> -> -> -> ->]|]. destruct (isspace (wraps 8 c)); [apply IH|].
  destruct (wraps 8 c =? Pad64); [by intros [= -> -> -> -> ->]|]. destruct (base64_pos (wraps 8 c)) as [v|]; [|done].
  destruct (pton_step v targsize (Some t) i st) as [[[[t1 i1] st1]|]|] eqn:E; [|done..]. destruct (step_target _ _ _ _ _ _ E) as [t2 E2]. cbn in E2. subst t1.
  rewrite (step_null _ _ _ _ _ _ _ _ E). cbn [mbind option_bind]. apply IH.
Qed.

Lemma padded_null ch src t i : pton_padded isspace ch src (Some t) i = Some true → pton_padded isspace ch src None i = Some true.
Proof. unfold pton_padded. intros H. destruct (only_spaces isspace ch src) as [[]|]; done. Qed.

Lemma end_null ch src t i st : pton_end isspace ch src (Some t) i st = Some true → pton_end isspace ch src None i st = Some true.
Proof.
  unfold pton_end. destruct (ch =? Pad64); [|done]. destruct (next_char src) as [[c s]|]; [|done]. cbn [mbind option_bind].
  destruct (_ || _); [done|]. destruct (st =? 2).
  - destruct (skip_spaces isspace c s) as [[c' s']|]; [|done]. cbn [mbind option_bind]. destruct (negb _); [done|].
    destruct (next_char s') as [[c'' s'']|]; [|done]. apply padded_null.
  - destruct (st =? 3); [apply padded_null|done].
Qed.
End null.

(** ** The properties *)

Lemma encode_inj d d' : bytes d → bytes d' → len (encode d) + 1 < 2 ^ 31 → encode d = encode d' → d = d'.
Proof.
  intros Hb Hb' H31 He. set (n := Z.max (needed d) (needed d')). assert (SpaceLaws (λ _, false)) as Hsp by done.
  assert (∀ d, len d <= len (encode d)) as Hle by (intros x; rewrite encode_length; Z.to_euclidean_division_equations; lia).
  pose proof (Hle d) as H1. pose proof (Hle d') as H2. rewrite <- He in H2.
  assert (n <= len (replicate (Z.to_nat n) 0)) as Hn by (rewrite length_replicate; lia).
  pose proof (pton_encode (λ _, false) [] (replicate (Z.to_nat n) 0) n Hn d Hb ltac:(lia) ltac:(lia)) as E1.
  pose proof (pton_encode (λ _, false) [] (replicate (Z.to_nat n) 0) n Hn d' Hb' ltac:(lia) ltac:(lia)) as E2.
  rewrite He, E2 in E1. injection E1 as El Ef. unfold filled in Ef. rewrite <- !(assoc_L (++)) in Ef. apply app_inj_1 in Ef as [Ef _]; [done|lia].
Qed.

Lemma ntop_pton isspace `{!SpaceLaws isspace} d t1 size1 t2 size2 :
  bytes d → len (encode d) + 4 < 2 ^ 31 → len (encode d) < size1 <= len t1 → size1 < 2 ^ 64 → needed d <= size2 <= len t2 →
  ∃ t, b64_ntop d (len d) t1 size1 = Some (len (encode d), t) ∧ b64_pton isspace t (Some t2) size2 = Some (len d, Some (filled t2 (d ++ left_over d))) ∧
    b64_pton isspace t None size2 = Some (len d, None).
Proof.
  intros Hb H31 H1 H64 H2. destruct (ntop_ok t1 size1 ltac:(lia) H64 d Hb ltac:(lia)) as [[_ E]|[? _]]; [|lia].
  eexists. split; [exact E|]. unfold filled at 1 3. rewrite <- !(assoc_L (++)). cbn [app].
  assert (len d <= len (encode d)) as Hle by (rewrite encode_length; Z.to_euclidean_division_equations; lia).
  split; [apply pton_encode; [done|lia|done|lia|lia]|]. rewrite pton_eq by done.
  destruct (loop_encode isspace (drop (length (encode d ++ [0])) t1) t2 size2 ltac:(lia) d Hb []) as (ch & src & st & El & Ee); [cbn; lia|cbn; lia|].
  cbn [app length] in El, Ee. change (Z.of_nat 0) with 0 in El. rewrite (loop_null isspace size2 _ _ _ _ _ _ _ _ _ El). cbn [mbind option_bind finish]. apply end_null in Ee. by rewrite Ee.
Qed.

Lemma pton_decides isspace `{!SpaceLaws isspace} s target targsize :
  chars s → 0 <= targsize <= len target → len s + 1 < 2 ^ 31 →
  (∃ d, bytes d ∧ dense isspace s = encode d ∧ needed d <= targsize ∧
     b64_pton isspace (s ++ [0]) (Some target) targsize = Some (len d, Some (filled target (d ++ left_over d)))) ∨
  ((¬ ∃ d, bytes d ∧ dense isspace s = encode d ∧ needed d <= targsize) ∧
     ∃ t, b64_pton isspace (s ++ [0]) (Some target) targsize = Some (-1, Some t) ∧ spared targsize target t).
Proof.
  intros Hch Ht H31. assert (len (dense isspace s) <= len s) as Hle by (pose proof (length_filter (λ c, isspace (wraps 8 c) = false) s); unfold dense; lia).
  assert (b64_pton isspace (s ++ [0]) (Some target) targsize = b64_pton isspace (dense isspace s ++ [0]) (Some target) targsize) as ->.
  { rewrite !pton_eq by done. by apply (loop_dense isspace [] s targsize Hch). }
  destruct (pton_only isspace [] target targsize ltac:(lia) (dense isspace s)) as (r & l & E & Hl & Hr);
    [by apply chars_dense|apply Forall_forall; intros c; unfold dense; rewrite list_elem_of_filter; tauto|lia|lia|].
  destruct Hr as [->|(d & Hb & He & -> & ->)]; [right|left].
  - split; [|eexists; split; [exact E|apply spared_filled; lia]]. intros (d & Hb & He & Hn). rewrite He in E.
    rewrite pton_encode in E; [|done|lia|done|done|]; [injection E; lia|].
    assert (len d <= len (encode d)) by (rewrite encode_length; Z.to_euclidean_division_equations; lia). rewrite He in Hle. lia.
  - exists d. by repeat split.
Qed.

(** C37. Round trip: [b64_ntop] of any bytes with room for the characters and the NUL returns
    their number, and [b64_pton] of the string it stores, in any locale whose spaces are not
    characters of the encoding, returns the number of the bytes and stores them; with a null
    target it only returns the number.  For bytes that are not whole groups of three it needs
    one byte more than it returns, which becomes 0. *)
Theorem b64_roundtrip isspace `{!SpaceLaws isspace} d t1 size1 t2 size2 :
  bytes d → len (encode d) + 4 < 2 ^ 31 → len (encode d) < size1 <= len t1 → size1 < 2 ^ 64 → needed d <= size2 <= len t2 →
  ∃ t, b64_ntop d (len d) t1 size1 = Some (len (encode d), t) ∧ b64_pton isspace t (Some t2) size2 = Some (len d, Some (filled t2 (d ++ left_over d))) ∧
    b64_pton isspace t None size2 = Some (len d, None).
Proof. by apply ntop_pton. Qed.

(** The space character and the control characters of the C locale. *)
Definition c_isspace (ch : Z) : bool := (ch =? 32) || ((9 <=? ch) && (ch <=? 13)).

#[export] Instance c_space_laws : SpaceLaws c_isspace.
Proof.
  split; [done|done|]. intros v Hv.
  assert (Forall (λ v, c_isspace (b64 (Z.of_nat v)) = false) (seq 0 64)) as H by (apply (bool_decide_unpack _); by vm_compute).
  rewrite Forall_forall in H. rewrite <- (Z2Nat.id v) by lia. apply H, elem_of_seq. lia.
Qed.

Lemma b64_roundtrip_witness :
  ∃ t, b64_ntop [77; 97; 110; 255] 4 (replicate 10 1) 9 = Some (8, t) ∧
    b64_pton c_isspace t (Some (replicate 5 1)) 5 = Some (4, Some [77; 97; 110; 255; 0]) ∧ b64_pton c_isspace t None 5 = Some (4, None).
Proof.
  apply (b64_roundtrip c_isspace [77; 97; 110; 255] (replicate 10 1) 9 (replicate 5 1) 5);
    [by repeat constructor|by vm_compute|by vm_compute|by vm_compute|by vm_compute].
Defined.

(** C38. [b64_pton] accepts a string just if its characters other than spaces are the encoding
    of some bytes and there is room for them: it returns their number and stores them;
    otherwise it returns -1.  In no case does it change the target beyond the given size. *)
Theorem b64_pton_decides isspace `{!SpaceLaws isspace} s target targsize :
  chars s → 0 <= targsize <= len target → len s + 1 < 2 ^ 31 →
  (∃ d, bytes d ∧ dense isspace s = encode d ∧ needed d <= targsize ∧
     b64_pton isspace (s ++ [0]) (Some target) targsize = Some (len d, Some (filled target (d ++ left_over d)))) ∨
  ((¬ ∃ d, bytes d ∧ dense isspace s = encode d ∧ needed d <= targsize) ∧
     ∃ t, b64_pton isspace (s ++ [0]) (Some target) targsize = Some (-1, Some t) ∧ spared targsize target t).
Proof. by apply pton_decides. Qed.

(** The bits below the last byte must be 0. *)
Lemma b64_pton_decides_witness : ∃ t, b64_pton c_isspace (str "TWF u /x==" ++ [0]) (Some (replicate 9 7)) 8 = Some (-1, Some t) ∧ drop 8 t = [7].
Proof.
  destruct (b64_pton_decides c_isspace (str "TWF u /x==") (replicate 9 7) 8) as [(d & _ & _ & _ & E)|(_ & t & E & _ & Hd)];
    [by repeat constructor|by vm_compute|by vm_compute| |].
  - exfalso. vm_compute in E. injection E as Hl _. destruct d; discriminate.
  - exists t. split; [exact E|exact Hd].
Defined.
