(* ===== verification/Inet.v ===== *)
(** * Inet: Internet addresses as text, resolv/inet_ntop.c and resolv/inet_pton_length.c

    Buffers are lists of bytes with an index for the pointer into them, addresses are lists of
    four or sixteen bytes, in the order of the network.  The text to be read is the list of
    the characters up to [src_end].  An array on the stack starts as zeros; its bytes are
    written before they are read. *)

From S2P Require Import Prelude Bytes.
Local Open Scope Z_scope.

Definition AF_INET : Z := 2.
Definition AF_INET6 : Z := 10.
Definition NS_INT16SZ : Z := 2.
Definition NS_INADDRSZ : Z := 4.
Definition NS_IN6ADDRSZ : Z := 16.
Definition INET_ADDRSTRLEN : Z := 16.
Definition INET6_ADDRSTRLEN : Z := 46.

Inductive errno := ENOSPC | EAFNOSUPPORT.

(** [*tp++ = c], for a pointer into a buffer. *)
Definition put (c : Z) (p : list Z * Z) : option (list Z * Z) :=
  dst ← set_byte p.1 p.2 c; Some (dst, p.2 + 1).

(** ** To text *)

Definition put_uint8 (word : Z) (p : list Z * Z) : option (list Z * Z) :=
  let (dst, tp) := p in
  let s := 1 in
  '(dst, word, s) ← (if 10 <=? word then
     '(dst, word, s) ← (if 100 <=? word then
        dst ← set_byte dst (tp + 2) (48 + word mod 10); Some (dst, word / 10, s + 1)
      else Some (dst, word, s));
     dst ← set_byte dst (tp + 1) (48 + word mod 10); Some (dst, word / 10, s + 1)
   else Some (dst, word, s));
  dst ← set_byte dst tp (48 + word);
  Some (dst, tp + s).

Definition _itoa_lower_digits : list Z := str "0123456789abcdefghijklmnopqrstuvwxyz".

(** [*tp++ = _itoa_lower_digits[d]] *)
Definition put_digit (d : Z) (p : list Z * Z) : option (list Z * Z) :=
  c ← _itoa_lower_digits !! Z.to_nat d; put c p.

Definition put_uint16 (word : Z) (p : list Z * Z) : option (list Z * Z) :=
  p ← (if 4096 <=? word then put_digit (Z.land (word ≫ 12) 15) p else Some p);
  p ← (if 256 <=? word then put_digit (Z.land (word ≫ 8) 15) p else Some p);
  p ← (if 16 <=? word then put_digit (Z.land (word ≫ 4) 15) p else Some p);
  put_digit (Z.land word 15) p.

Definition inet_ntop4_format (src : list Z) (p : list Z * Z) : option (list Z * Z) :=
  b ← get_byte src 0; p ← put_uint8 b p;
  p ← put 46 p;
  b ← get_byte src 1; p ← put_uint8 b p;
  p ← put 46 p;
  b ← get_byte src 2; p ← put_uint8 b p;
  p ← put 46 p;
  b ← get_byte src 3; p ← put_uint8 b p;
  put 0 p.

(** The buffer, and the error if the result is null. *)
Definition inet_ntop4 (src dst : list Z) (tp size : Z) : option (list Z * option errno) :=
  if INET_ADDRSTRLEN <=? size then
    p ← inet_ntop4_format src (dst, tp); Some (p.1, None)
  else
    p ← inet_ntop4_format src (replicate (Z.to_nat INET_ADDRSTRLEN) 0, 0);
    let tmp_s := p.2 in
    if size <? tmp_s then Some (dst, Some ENOSPC)
    else dst ← copy_bytes dst tp (take (Z.to_nat tmp_s) p.1); Some (dst, None).

Record best_t := Best { base : Z; len_ : Z }.

(** [ntohs] on a little-endian machine. *)
Definition ntohs (x : Z) : Z := wrapu 16 (Z.lor (Z.land (x ≫ 8) 255) (Z.land x 255 ≪ 8)).

(** The 16-bit field, loaded from memory. *)
Definition in6_addr_addr16 (src : list Z) (idx : Z) : option Z :=
  b0 ← get_byte src (2 * idx); b1 ← get_byte src (2 * idx + 1); Some (ntohs (b0 + 256 * b1)).

(** [strlen] of what [tp] points to. *)
Definition strlen_at (dst : list Z) (tp : Z) : option Z :=
  Z.of_nat ∘ fst <$> list_find (λ c, c = 0) (drop (Z.to_nat tp) dst).

(** The loop, [n] more rounds; [None] inside when it returns a null pointer. *)
Fixpoint format_loop (n : nat) (i : Z) (src : list Z) (best : best_t) (p : list Z * Z) : option (option (list Z * Z)) :=
  match n with
  | O => Some (Some p)
  | S n =>
      if negb (base best =? -1) && (base best <=? i) && (i <? base best + len_ best) then
        p ← (if i =? base best then put 58 p else Some p);
        format_loop n (i + 1) src best p
      else
        p ← (if negb (i =? 0) then put 58 p else Some p);
        w5 ← in6_addr_addr16 src 5;
        if (i =? 6) && (base best =? 0) && ((len_ best =? 6) || ((len_ best =? 5) && (w5 =? 65535))) then
          '(dst, e) ← inet_ntop4 (drop 12 src) p.1 p.2 (INET6_ADDRSTRLEN - p.2);
          match e with
          | Some _ => Some None
          | None => k ← strlen_at dst p.2; Some (Some (dst, p.2 + k))
          end
        else
          w ← in6_addr_addr16 src i;
          p ← put_uint16 w p;
          format_loop n (i + 1) src best p
  end.

Definition inet_ntop6_format (src : list Z) (best : best_t) (dst : list Z) : option (option (list Z * Z)) :=
  r ← format_loop 8 0 src best (dst, 0);
  match r with
  | None => Some None
  | Some p =>
      p ← (if negb (base best =? -1) && (base best + len_ best =? 8) then put 58 p else Some p);
      p ← put 0 p;
      Some (Some p)
  end.

(** The search for the longest run of zeros. *)
Definition better (best cur : best_t) : best_t :=
  if (base best =? -1) || (len_ best <? len_ cur) then cur else best.

Fixpoint scan_loop (n : nat) (i : Z) (src : list Z) (best cur : best_t) : option (best_t * best_t) :=
  match n with
  | O => Some (best, cur)
  | S n =>
      w ← in6_addr_addr16 src i;
      if w =? 0 then
        scan_loop n (i + 1) src best (if base cur =? -1 then Best i 1 else Best (base cur) (len_ cur + 1))
      else
        if negb (base cur =? -1) then scan_loop n (i + 1) src (better best cur) (Best (-1) (len_ cur))
        else scan_loop n (i + 1) src best cur
  end.

(** The format does not return a null pointer here, so what follows that is left out. *)
Definition inet_ntop6 (src dst : list Z) (size : Z) : option (list Z * option errno) :=
  '(best, cur) ← scan_loop 8 0 src (Best (-1) 0) (Best (-1) 0);
  let best := if negb (base cur =? -1) then better best cur else best in
  let best := if negb (base best =? -1) && (len_ best <? 2) then Best (-1) (len_ best) else best in
  if INET6_ADDRSTRLEN <=? size then
    r ← inet_ntop6_format src best dst;
    match r with
    | Some p => Some (p.1, None)
    | None => None
    end
  else
    r ← inet_ntop6_format src best (replicate (Z.to_nat INET6_ADDRSTRLEN) 0);
    match r with
    | Some (tmp, tmp_s) =>
        if size <? tmp_s then Some (dst, Some ENOSPC)
        else dst ← copy_bytes dst 0 (take (Z.to_nat tmp_s) tmp); Some (dst, None)
    | None => None
    end.

Definition inet_ntop (af : Z) (src dst : list Z) (size : Z) : option (list Z * option errno) :=
  if af =? AF_INET then inet_ntop4 src dst 0 size
  else if af =? AF_INET6 then inet_ntop6 src dst size
  else Some (dst, Some EAFNOSUPPORT).

(** ** From text *)

(** The bytes written to [tmp] so far, the one that [tp] points to first. *)
Definition quad : Type := list Z.

(** The loop: [saw_digit] and [octets]; [None] inside for [return 0]. *)
Fixpoint pton4_loop (src : list Z) (tmp : quad) (saw_digit : bool) (octets : Z) : option (option (quad * Z)) :=
  match src with
  | [] => Some (Some (tmp, octets))
  | c :: src =>
      match tmp with
      | [] => None
      | cur :: tmp =>
          let ch := wraps 8 c in
          if (48 <=? ch) && (ch <=? 57) then
            let new := u32 (cur * 10 + (ch - 48)) in
            if saw_digit && (cur =? 0) then Some None
            else if 255 <? new then Some None
            else
              if negb saw_digit then
                if 4 <? octets + 1 then Some None else pton4_loop src (u8 new :: tmp) true (octets + 1)
              else pton4_loop src (u8 new :: tmp) saw_digit octets
          else if (ch =? 46) && saw_digit then
            if octets =? 4 then Some None
            else if len (cur :: tmp) <? NS_INADDRSZ then pton4_loop src (0 :: cur :: tmp) false octets
            else None
          else Some None
      end
  end.

(** The result and the destination, of which four bytes at [tp] may be written. *)
Definition inet_pton4 (src dst : list Z) (tp : Z) : option (Z * list Z) :=
  r ← pton4_loop src [0] false 0;
  match r with
  | None => Some (0, dst)
  | Some (tmp, octets) =>
      if octets <? 4 then Some (0, dst)
      else if len tmp =? NS_INADDRSZ then dst ← copy_bytes dst tp (rev tmp); Some (1, dst)
      else None
  end.

Definition hex_digit_value (ch : Z) : Z :=
  if (48 <=? ch) && (ch <=? 57) then ch - 48
  else if (97 <=? ch) && (ch <=? 102) then ch - 97 + 10
  else if (65 <=? ch) && (ch <=? 70) then ch - 65 + 10
  else -1.

(** [*tp++ = (val >> 8) & 0xff; *tp++ = val & 0xff] *)
Definition put_val (val : Z) (p : list Z * Z) : option (list Z * Z) :=
  p ← put (Z.land (u8 (val ≫ 8)) 255) p; put (Z.land (u8 val) 255) p.

(** The variables of [inet_pton6]: [tmp] and [tp], [colonp], [xdigits_seen] and [val]. *)
Record pton6_t := Pton6 { tmp : list Z * Z; colonp : option Z; xdigits_seen : Z; val : Z }.

(** The loop; [None] inside for [return 0]. *)
Fixpoint pton6_loop (src curtok : list Z) (v : pton6_t) : option (option pton6_t) :=
  match src with
  | [] => Some (Some v)
  | c :: src =>
      let ch := wraps 8 c in
      let digit := hex_digit_value ch in
      if 0 <=? digit then
        if xdigits_seen v =? 4 then Some None
        else
          let val' := Z.lor (u32 (val v ≪ 4)) digit in
          if 65535 <? val' then Some None
          else pton6_loop src curtok (Pton6 (tmp v) (colonp v) (xdigits_seen v + 1) val')
      else if ch =? 58 then
        let curtok := src in
        if xdigits_seen v =? 0 then
          match colonp v with
          | Some _ => Some None
          | None => pton6_loop src curtok (Pton6 (tmp v) (Some (tmp v).2) (xdigits_seen v) (val v))
          end
        else if match src with [] => true | _ => false end then Some None
        else if NS_IN6ADDRSZ <? (tmp v).2 + NS_INT16SZ then Some None
        else p ← put_val (val v) (tmp v); pton6_loop src curtok (Pton6 p (colonp v) 0 0)
      else if (ch =? 46) && ((tmp v).2 + NS_INADDRSZ <=? NS_IN6ADDRSZ) then
        '(r, dst) ← inet_pton4 curtok (tmp v).1 (tmp v).2;
        if 0 <? r then Some (Some (Pton6 (dst, (tmp v).2 + NS_INADDRSZ) (colonp v) 0 (val v)))
        else Some None
      else Some None
  end.

(** What follows the loop. *)
Definition pton6_finish (v : pton6_t) (dst : list Z) : option (Z * list Z) :=
  r ← (if 0 <? xdigits_seen v then
         if NS_IN6ADDRSZ <? (tmp v).2 + NS_INT16SZ then Some None
         else p ← put_val (val v) (tmp v); Some (Some p)
       else Some (Some (tmp v)));
  match r with
  | None => Some (0, dst)
  | Some (t, tp) =>
      r ← match colonp v with
          | Some colonp =>
              if tp =? NS_IN6ADDRSZ then Some None
              else
                let n := tp - colonp in
                t ← copy_bytes t (NS_IN6ADDRSZ - n) (take (Z.to_nat n) (drop (Z.to_nat colonp) t));
                t ← copy_bytes t colonp (replicate (Z.to_nat (NS_IN6ADDRSZ - n - colonp)) 0);
                Some (Some (t, NS_IN6ADDRSZ))
          | None => Some (Some (t, tp))
          end;
      match r with
      | None => Some (0, dst)
      | Some (t, tp) => if negb (tp =? NS_IN6ADDRSZ) then Some (0, dst) else dst ← copy_bytes dst 0 t; Some (1, dst)
      end
  end.

Definition inet_pton6 (src dst : list Z) : option (Z * list Z) :=
  match src with
  | [] => Some (0, dst)
  | c :: rest =>
      let src' := if wraps 8 c =? 58 then match rest with d :: _ => if wraps 8 d =? 58 then Some rest else None | [] => None end else Some src in
      match src' with
      | None => Some (0, dst)
      | Some src => 
          r ← pton6_loop src src (Pton6 (replicate (Z.to_nat NS_IN6ADDRSZ) 0, 0) None 0 0);
          match r with None => Some (0, dst) | Some v => pton6_finish v dst end
      end
  end.

(** The characters up to the NUL: [strlen] and the string it measures. *)
Definition string_chars (src : list Z) : option (list Z) :=
  n ← strlen_at src 0; Some (take (Z.to_nat n) src).

Definition inet_pton_length (af : Z) (src dst : list Z) : option (Z * list Z * option errno) :=
  if af =? AF_INET then r ← inet_pton4 src dst 0; Some (r, None)
  else if af =? AF_INET6 then r ← inet_pton6 src dst; Some (r, None)
  else Some (-1, dst, Some EAFNOSUPPORT).

Definition inet_pton (af : Z) (src dst : list Z) : option (Z * list Z * option errno) :=
  s ← string_chars src; inet_pton_length af s dst.
