(* ===== verification/InetSpec.v ===== *)
(** * InetSpec: the text of an address, and that [inet_ntop] stores it *)

From S2P Require Import Prelude Bytes Inet.
Local Open Scope Z_scope.

(** ** The text *)

(** A byte in decimal, a field in hexadecimal, both without leading zeros. *)
Definition dec (w : Z) : list Z :=
  if w <? 10 then [48 + w] else if w <? 100 then [48 + w / 10; 48 + w mod 10] else [48 + w / 100; 48 + w / 10 mod 10; 48 + w mod 10].

Definition hexd (d : Z) : Z := if d <? 10 then 48 + d else 87 + d.
Definition hex (w : Z) : list Z :=
  (if 4096 <=? w then [hexd (w / 4096)] else []) ++ (if 256 <=? w then [hexd (w / 256 mod 16)] else []) ++
  (if 16 <=? w then [hexd (w / 16 mod 16)] else []) ++ [hexd (w mod 16)].

(** Four bytes with dots between them. *)
Definition quad_text (q : list Z) : list Z :=
  match q with [a; b; c; d] => dec a ++ 46 :: dec b ++ 46 :: dec c ++ 46 :: dec d | _ => [] end.

(** Fields with a colon before each, with colons between them, and with a colon after each. *)
Definition colons (ws : list Z) : list Z := concat ((λ w, 58 :: hex w) <$> ws).
Definition join (ws : list Z) : list Z := match ws with [] => [] | w :: ws => hex w ++ colons ws end.
Definition closed (ws : list Z) : list Z := concat ((λ w, hex w ++ [58]) <$> ws).

(** Two colons for the run of zeros between [pre] and [post]. *)
Definition run_text (pre post : list Z) : list Z :=
  (match pre with [] => [58] | _ => closed pre end) ++ 58 :: join post.

Lemma dec_length w : (1 <= length (dec w) <= 3)%nat.
Proof. unfold dec. destruct (w <? 10); [cbn; lia|]. destruct (w <? 100); cbn; lia. Qed.

Lemma hex_length w : (1 <= length (hex w) <= 4)%nat.
Proof. unfold hex. destruct (4096 <=? w), (256 <=? w), (16 <=? w); cbn; lia. Qed.

Lemma dec_nonzero w : 0 <= w → Forall (λ c, c ≠ 0) (dec w).
Proof. intros Hw. unfold dec. destruct (w <? 10); [repeat constructor; lia|]. destruct (w <? 100); repeat constructor; Z.to_euclidean_division_equations; lia. Qed.

Lemma quad_nonzero q : bytes q → Forall (λ c, c ≠ 0) (quad_text q).
Proof.
  destruct q as [|a [|b [|c [|d [|? ?]]]]]; try (constructor; fail). unfold bytes, is_byte. rewrite !Forall_cons. intros (Ha & Hb & Hc & Hd & _).
  cbn [quad_text]. repeat (rewrite Forall_app || rewrite Forall_cons). repeat split; try lia; apply dec_nonzero; lia.
Qed.

Lemma closed_snoc ws w : closed (ws ++ [w]) = closed ws ++ hex w ++ [58].
Proof. unfold closed. rewrite fmap_app, concat_app. cbn. by rewrite app_nil_r. Qed.

Lemma join_snoc ws w : ws ≠ [] → join (ws ++ [w]) = join ws ++ 58 :: hex w.
Proof. destruct ws as [|v ws]; [done|]. intros _. cbn [join app]. unfold colons. rewrite fmap_app, concat_app. cbn. by rewrite app_nil_r, (assoc_L (++)). Qed.

Lemma colons_length ws : (length (colons ws) <= 5 * length ws)%nat.
Proof. induction ws as [|w ws IH]; [done|]. unfold colons in *. cbn [fmap list_fmap concat length app]. rewrite length_app. pose proof (hex_length w). cbn [fmap list_fmap] in IH. lia. Qed.

Lemma join_length ws : (length (join ws) <= 5 * length ws)%nat.
Proof. destruct ws as [|w ws]; [done|]. cbn [join length]. rewrite length_app. pose proof (hex_length w). pose proof (colons_length ws). lia. Qed.

Lemma join_closed ws w : join (ws ++ [w]) = closed ws ++ hex w.
Proof.
  revert w. induction ws as [|v ws IH] using rev_ind; intros w; [cbn; by rewrite app_nil_r|]. rewrite join_snoc by by destruct ws.
  rewrite IH, closed_snoc, <- !(assoc_L (++)). done.
Qed.

Lemma join_colon ws : ws ≠ [] → join ws ++ [58] = closed ws.
Proof. destruct ws as [|w ws _] using rev_ind; [done|]. intros _. by rewrite join_closed, closed_snoc, (assoc_L (++)). Qed.

(** ** Storing bytes, digits and fields *)

Section format.
Context (t : list Z).

(** A pointer to the end of what is written. *)
Definition at_end (l : list Z) : list Z * Z := (filled t l, len l).

Lemma put_ok l c : (length l < length t)%nat → is_byte c → put c (at_end l) = Some (at_end (l ++ [c])).
Proof.
  intros Hl Hc. unfold put, at_end. cbn [fst snd]. rewrite set_filled by done. cbn [mbind option_bind]. rewrite wrapu_small by exact Hc.
  by rewrite length_app, Nat2Z.inj_add.
Qed.

Lemma put_uint8_ok l w : is_byte w → (length l + length (dec w) <= length t)%nat → put_uint8 w (at_end l) = Some (at_end (l ++ dec w)).
Proof.
  unfold is_byte. intros Hw Hl. unfold put_uint8, at_end, dec, filled in *. set (r := drop (length l) t) in *.
  assert (length r = length t - length l)%nat as Hr by (unfold r; by rewrite length_drop).
  assert (∀ d, drop (length (l ++ d)) t = drop (length d) r) as Hd by (intros d; unfold r; by rewrite drop_drop, length_app).
  destruct (w <? 10) eqn:E1; zb; [|destruct (w <? 100) eqn:E2; zb]; cbn [length] in Hl; rewrite Hd; cbn [length]; rewrite length_app, Nat2Z.inj_add; cbn [length].
  - rewrite (proj2 (Z.leb_gt _ _)) by lia. cbn [mbind option_bind]. destruct r as [|x r']; [cbn in Hr; lia|].
    pose proof (set_beyond l (x :: r') 0 (48 + w)) as E. rewrite Z.add_0_r in E. rewrite E by (cbn; lia). cbn [mbind option_bind drop].
    rewrite wrapu_small by lia. by rewrite <- (assoc_L (++)).
  - rewrite (proj2 (Z.leb_le _ _)), (proj2 (Z.leb_gt _ _)) by lia. cbn [mbind option_bind]. destruct r as [|x [|y r']]; [cbn in Hr; lia..|].
    pose proof (set_beyond l (x :: y :: r') 1 (48 + w mod 10)) as E. change (Z.of_nat 1) with 1 in E. rewrite E by (cbn; lia). cbn [mbind option_bind insert list_insert].
    pose proof (set_beyond l (x :: u8 (48 + w mod 10) :: r') 0 (48 + w / 10)) as E'. rewrite Z.add_0_r in E'. rewrite E' by (cbn; lia). cbn [mbind option_bind drop].
    rewrite !wrapu_small by (Z.to_euclidean_division_equations; lia). by rewrite <- (assoc_L (++)).
  - rewrite (proj2 (Z.leb_le _ _)), (proj2 (Z.leb_le _ _)) by lia. destruct r as [|x [|y [|z r']]]; [cbn in Hr; lia..|].
    pose proof (set_beyond l (x :: y :: z :: r') 2 (48 + w mod 10)) as E. change (Z.of_nat 2) with 2 in E. rewrite E by (cbn; lia). cbn [mbind option_bind insert list_insert].
    pose proof (set_beyond l (x :: y :: u8 (48 + w mod 10) :: r') 1 (48 + w / 10 mod 10)) as E'. change (Z.of_nat 1) with 1 in E'. rewrite E' by (cbn; lia). cbn [mbind option_bind insert list_insert].
    pose proof (set_beyond l (x :: u8 (48 + w / 10 mod 10) :: u8 (48 + w mod 10) :: r') 0 (48 + w / 10 / 10)) as E''. rewrite Z.add_0_r in E''. rewrite E'' by (cbn; lia). cbn [mbind option_bind drop].
    rewrite Z.div_div by lia. rewrite !wrapu_small by (Z.to_euclidean_division_equations; lia). by rewrite <- (assoc_L (++)).
Qed.

Lemma put_digit_ok l d : 0 <= d < 16 → (length l < length t)%nat → put_digit d (at_end l) = Some (at_end (l ++ [hexd d])).
Proof.
  intros Hd Hl. unfold put_digit. assert (_itoa_lower_digits !! Z.to_nat d = Some (hexd d) ∧ is_byte (hexd d)) as [-> Hb].
  { assert (Forall (λ n, _itoa_lower_digits !! n = Some (hexd (Z.of_nat n)) ∧ is_byte (hexd (Z.of_nat n))) (seq 0 16)) as H by (repeat constructor; vm_compute; congruence).
    rewrite Forall_forall in H. specialize (H (Z.to_nat d)). rewrite Z2Nat.id in H by lia. apply H, elem_of_seq. lia. }
  cbn [mbind option_bind]. by apply put_ok.
Qed.

Lemma put_uint16_ok l w : 0 <= w < 65536 → (length l + length (hex w) <= length t)%nat → put_uint16 w (at_end l) = Some (at_end (l ++ hex w)).
Proof.
  intros Hw Hl. unfold put_uint16. change 15 with (Z.ones 4). rewrite !Z.land_ones, !Z.shiftr_div_pow2 by lia.
  change (2 ^ 4) with 16. change (2 ^ 8) with 256. change (2 ^ 12) with 4096. unfold hex in *.
  destruct (4096 <=? w) eqn:E1, (256 <=? w) eqn:E2, (16 <=? w) eqn:E3; zb; try lia; cbn [app length mbind option_bind] in *;
    repeat (rewrite put_digit_ok by first [Z.to_euclidean_division_equations; lia | rewrite ?length_app; cbn [length]; lia]; cbn [mbind option_bind]);
    rewrite <- ?(assoc_L (++)); cbn [app]; rewrite ?(Z.mod_small (w / 4096)) by (Z.to_euclidean_division_equations; lia); try done.
Qed.

Lemma inet_ntop4_format_ok l q : bytes q → length q = 4%nat → (length l + length (quad_text q) < length t)%nat →
  inet_ntop4_format q (at_end l) = Some (at_end (l ++ quad_text q ++ [0])).
Proof.
  intros Hb Hq Hl. destruct q as [|a [|b [|c [|d [|? ?]]]]]; try done. unfold bytes in Hb. rewrite !Forall_cons in Hb. destruct Hb as (Ha & Hb & Hc & Hd & _).
  cbn [quad_text] in *. repeat (rewrite length_app in Hl; cbn [length] in Hl). unfold inet_ntop4_format.
  change (get_byte [a; b; c; d] 0) with (Some a). change (get_byte [a; b; c; d] 1) with (Some b).
  change (get_byte [a; b; c; d] 2) with (Some c). change (get_byte [a; b; c; d] 3) with (Some d). cbn [mbind option_bind].
  repeat (first [rewrite put_uint8_ok by (try done; rewrite ?length_app; cbn [length]; lia) | rewrite put_ok by (first [unfold is_byte; lia | rewrite ?length_app; cbn [length]; lia])]; cbn [mbind option_bind]).
  do 2 f_equal. by repeat (rewrite <- (assoc_L (++)); cbn [app]).
Qed.

End format.

Lemma text_strlen_ok l q r : Forall (λ c, c ≠ 0) q → strlen_at (l ++ q ++ 0 :: r) (len l) = Some (len q).
Proof.
  intros Hq. unfold strlen_at. rewrite Nat2Z.id, drop_app_length.
  assert (list_find (λ c, c = 0) (q ++ 0 :: r) = Some (length q, 0)) as ->; [|done]. apply list_find_Some.
  rewrite list_lookup_middle by done. split; [done|]. split; [done|]. intros j y Hj Hlt. rewrite lookup_app_l in Hj by done.
  rewrite Forall_forall in Hq. apply Hq. by eapply list_elem_of_lookup_2.
Qed.

Lemma quad_length q : (length (quad_text q) <= 15)%nat.
Proof.
  destruct q as [|a [|b [|c [|d [|? ?]]]]]; cbn [quad_text length]; try lia. rewrite !length_app. cbn [length]. rewrite !length_app. cbn [length]. rewrite length_app. cbn [length].
  pose proof (dec_length a). pose proof (dec_length b). pose proof (dec_length c). pose proof (dec_length d). lia.
Qed.

(** ** The fields of an IPv6 address *)

Fixpoint fields (src : list Z) : list Z := match src with a :: b :: src => a * 256 + b :: fields src | _ => [] end.

Lemma fields_length n src : length src = (2 * n)%nat → length (fields src) = n.
Proof.
  revert src. induction n as [|n IH]; intros src Hs; [by destruct src|].
  destruct src as [|a [|b src]]; cbn in Hs; [lia..|]. cbn. f_equal. apply IH. lia.
Qed.

Lemma fields_range src : bytes src → Forall (λ w, 0 <= w < 65536) (fields src).
Proof.
  unfold bytes, is_byte. revert src. fix IH 1. intros [|a [|b src]] H; [constructor..|]. apply Forall_cons in H as [Ha H]. apply Forall_cons in H as [Hb H].
  constructor; [lia|by apply IH].
Qed.

Lemma ntohs_ok a b : is_byte a → is_byte b → ntohs (a + 256 * b) = a * 256 + b.
Proof.
  unfold is_byte. intros Ha Hb. unfold ntohs. change 255 with (Z.ones 8). rewrite !Z.land_ones, Z.shiftr_div_pow2, Z.shiftl_mul_pow2 by lia.
  assert ((a + 256 * b) / 2 ^ 8 mod 2 ^ 8 = b) as -> by (Z.to_euclidean_division_equations; lia).
  assert ((a + 256 * b) mod 2 ^ 8 = a) as -> by (Z.to_euclidean_division_equations; lia).
  rewrite Z.lor_comm, lor_disjoint, wrapu_small by lia. lia.
Qed.

Lemma addr16_ok src i w : bytes src → fields src !! i = Some w → in6_addr_addr16 src (Z.of_nat i) = Some w.
Proof.
  intros Hb Hw. unfold in6_addr_addr16, get_byte. rewrite !(proj2 (Z.leb_le _ _)) by lia.
  replace (Z.to_nat (2 * Z.of_nat i)) with (2 * i)%nat by lia. replace (Z.to_nat (2 * Z.of_nat i + 1)) with (2 * i + 1)%nat by lia.
  revert src Hb Hw. induction i as [|i IH]; intros src Hb Hw; (destruct src as [|a [|b src]]; [done..|]); unfold bytes in Hb; rewrite !Forall_cons in Hb; destruct Hb as (Ha & Hb & Hs).
  - cbn in Hw. injection Hw as <-. cbn [Nat.mul Nat.add lookup list_lookup mbind option_bind]. by rewrite ntohs_ok.
  - replace (2 * S i)%nat with (S (S (2 * i))) by lia. cbn [Nat.add lookup list_lookup]. by apply IH.
Qed.

Section format6.
Context (t src : list Z) (best : best_t) (Hb : bytes src) (Hs : length src = 16%nat) (Ht : (46 <= length t)%nat).
Set Default Proof Using "All".
Notation ws := (fields src).
Notation wr := (at_end t).

(** The last two fields are written as an IPv4 address. *)
Definition embedded : bool := (base best =? 0) && ((len_ best =? 6) || ((len_ best =? 5) && (default 0 (ws !! 5%nat) =? 65535))).
(** Field [i] is within the run of zeros. *)
Definition inside (i : Z) : bool := negb (base best =? -1) && (base best <=? i) && (i <? base best + len_ best).

Lemma field i : (i < 8)%nat → ∃ w, ws !! i = Some w ∧ in6_addr_addr16 src (Z.of_nat i) = Some w ∧ 0 <= w < 65536.
Proof using Hb Hs.
  clear Ht. intros Hi. pose proof (fields_length 8 src Hs) as Hl. destruct (lookup_lt_is_Some_2 ws i) as [w Hw]; [lia|]. exists w. split; [done|].
  split; [by apply addr16_ok|]. pose proof (fields_range src Hb) as Hr. rewrite Forall_forall in Hr. apply Hr. by eapply list_elem_of_lookup_2.
Qed.

Lemma field5 : in6_addr_addr16 src 5 = Some (default 0 (ws !! 5%nat)).
Proof using Hb Hs. clear Ht. destruct (field 5) as (w & Hw & E & _); [lia|]. by rewrite Hw. Qed.

(** One round: a field, a field in the run, or the embedded address. *)
Lemma round_field n i l w : inside (Z.of_nat i) = false → Z.of_nat i ≠ 6 ∨ embedded = false → ws !! i = Some w → (length l + 6 <= length t)%nat →
  format_loop (S n) (Z.of_nat i) src best (wr l) =
    format_loop n (Z.of_nat (S i)) src best (wr (l ++ (if decide (i = 0)%nat then [] else [58]) ++ hex w)).
Proof.
  intros Hin Hem Hw Hl. pose proof (lookup_lt_Some _ _ _ Hw) as Hi. rewrite (fields_length 8 src Hs) in Hi.
  destruct (field i Hi) as (w' & Hw' & E & Hr). rewrite Hw in Hw'. injection Hw' as <-.
  cbn [format_loop]. unfold inside in Hin. rewrite Hin, field5, E. replace (Z.of_nat i + 1) with (Z.of_nat (S i)) by lia.
  assert ((Z.of_nat i =? 6) && (base best =? 0) && ((len_ best =? 6) || ((len_ best =? 5) && (default 0 (ws !! 5%nat) =? 65535))) = false) as Hno.
  { rewrite <- andb_assoc. fold embedded. destruct Hem as [Hi6| ->]; [by rewrite (proj2 (Z.eqb_neq _ _) Hi6)|by rewrite andb_false_r]. }
  pose proof (hex_length w) as Hh. destruct (decide (i = 0)%nat) as [->|Hi0].
  - change (negb (Z.of_nat 0 =? 0)) with false. cbn [mbind option_bind app]. rewrite Hno. cbn [mbind option_bind]. by rewrite put_uint16_ok by (done || lia).
  - rewrite (proj2 (Z.eqb_neq (Z.of_nat i) 0)) by lia. cbn [negb]. rewrite put_ok by (unfold is_byte; lia). cbn [mbind option_bind]. rewrite Hno.
    rewrite put_uint16_ok by (done || (rewrite length_app; cbn [length]; lia)). cbn [mbind option_bind]. by rewrite <- (assoc_L (++)).
Qed.

(** The fields before the run, and the rest when there is none. *)
Lemma rounds_before k n i : (∀ j, (i <= j < i + k)%nat → inside (Z.of_nat j) = false) → embedded = false ∨ (i + k <= 6)%nat → (i + k <= 8)%nat →
  format_loop (k + n) (Z.of_nat i) src best (wr (join (take i ws))) = format_loop n (Z.of_nat (i + k)) src best (wr (join (take (i + k) ws))).
Proof.
  revert i. induction k as [|k IH]; intros i Hin Hem Hi; [by rewrite Nat.add_0_r|]. destruct (field i) as (w & Hw & _ & Hr); [lia|].
  cbn [Nat.add]. rewrite (round_field (k + n) i _ w); [|apply Hin; lia|destruct Hem; [by right|left; lia]|done|].
  - replace (i + S k)%nat with (S i + k)%nat by lia.
    assert (join (take i ws) ++ (if decide (i = 0)%nat then [] else [58]) ++ hex w = join (take (S i) ws)) as ->.
    { rewrite (take_S_r _ _ _ Hw). destruct (decide (i = 0)%nat) as [->|Hi0]; [rewrite take_0; cbn [app join]; change (colons []) with (@nil Z); by rewrite app_nil_r|].
      rewrite join_snoc; [done|]. destruct ws; [done|]. by destruct i. }
    apply IH; [intros j Hj; apply Hin; lia|destruct Hem; [by left|right; lia]|lia].
  - pose proof (join_length (take i ws)) as Hjl. rewrite length_take in Hjl. lia.
Qed.

(** The fields after the run. *)
Lemma rounds_after n : ∀ i l, (i + n = 8)%nat → i ≠ O → (∀ j, (i <= j)%nat → inside (Z.of_nat j) = false) → embedded = false → (length l + 5 * n < length t)%nat →
  format_loop n (Z.of_nat i) src best (wr l) = Some (Some (wr (l ++ colons (drop i ws)))).
Proof.
  induction n as [|n IH]; intros i l Hi Hi0 Hin Hem Hl.
  - rewrite drop_ge by (rewrite (fields_length 8 src Hs); lia). cbn. by rewrite app_nil_r.
  - destruct (field i) as (w & Hw & _ & Hr); [lia|]. rewrite (round_field n i l w); [|by apply Hin|by right|done|lia].
    rewrite decide_False by done. pose proof (hex_length w). rewrite IH; [|lia|lia|intros j Hj; apply Hin; lia|done|rewrite !length_app; cbn [length]; lia].
    rewrite (drop_S _ _ _ Hw). change (colons (w :: drop (S i) ws)) with (([58] ++ hex w) ++ colons (drop (S i) ws)). by rewrite <- !(assoc_L (++)).
Qed.

(** The run itself. *)
Lemma rounds_inside k n i l : (∀ j, (i <= j < i + k)%nat → inside (Z.of_nat j) = true ∧ Z.of_nat j ≠ base best) →
  format_loop (k + n) (Z.of_nat i) src best (wr l) = format_loop n (Z.of_nat (i + k)) src best (wr l).
Proof.
  revert i. induction k as [|k IH]; intros i Hin; [by rewrite Nat.add_0_r|]. cbn [Nat.add format_loop]. destruct (Hin i ltac:(lia)) as [Hi Hne].
  unfold inside in Hi. rewrite Hi, (proj2 (Z.eqb_neq _ _) Hne). cbn [mbind option_bind]. replace (Z.of_nat i + 1) with (Z.of_nat (S i)) by lia.
  rewrite IH by (intros j Hj; apply Hin; lia). f_equal. lia.
Qed.

(** ** The whole text *)

Definition text6 : list Z :=
  if base best =? -1 then join ws
  else if embedded then 58 :: (if len_ best =? 6 then [] else 58 :: hex 65535) ++ 58 :: quad_text (drop 12 src)
  else run_text (take (Z.to_nat (base best)) ws) (drop (Z.to_nat (base best + len_ best)) ws).

(** Two fields or more, if there is a run. *)
Definition run_ok : Prop := base best = -1 ∨ 0 <= base best ∧ 2 <= len_ best ∧ base best + len_ best <= 8.

Lemma run_text_eq pre post : run_text pre post = join pre ++ [58] ++ colons post ++ (match post with [] => [58] | _ => [] end).
Proof using Type.
  unfold run_text. assert (58 :: join post = colons post ++ (match post with [] => [58] | _ => [] end)) as <-.
  { destruct post as [|w post]; [done|]. change (colons (w :: post)) with (([58] ++ hex w) ++ colons post). by rewrite app_nil_r, <- (assoc_L (++)). }
  rewrite (assoc_L (++) (join pre)). by destruct pre; [|rewrite join_colon].
Qed.

(** The first field of the run. *)
Lemma round_first n i l : inside (Z.of_nat i) = true → Z.of_nat i = base best → (length l < length t)%nat →
  format_loop (S n) (Z.of_nat i) src best (wr l) = format_loop n (Z.of_nat (S i)) src best (wr (l ++ [58])).
Proof.
  intros Hin Hi Hl. cbn [format_loop]. unfold inside in Hin. rewrite Hin, (proj2 (Z.eqb_eq _ _) Hi). cbv beta iota.
  rewrite put_ok by (unfold is_byte; lia). cbn [mbind option_bind]. do 2 f_equal. lia.
Qed.

(** The round that writes the IPv4 address. *)
Lemma round_quad n l : embedded = true → inside 6 = false → (length l <= 6)%nat →
  format_loop (S n) 6 src best (wr l) =
    Some (Some (filled t (l ++ 58 :: quad_text (drop 12 src) ++ [0]), len (l ++ 58 :: quad_text (drop 12 src)))).
Proof.
  intros Hem Hin Hl. cbn [format_loop]. unfold inside in Hin. rewrite Hin. change (negb (6 =? 0)) with true. cbv iota.
  rewrite put_ok by (unfold is_byte; lia). cbn [mbind option_bind]. rewrite field5. cbn [mbind option_bind].
  unfold embedded in Hem. rewrite <- andb_assoc, Hem. change (6 =? 6) with true. cbn [andb]. unfold at_end. cbn [fst snd].
  rewrite length_app. cbn [length].
  set (q := drop 12 src). assert (bytes q) as Hbq by (by apply Forall_drop). assert (length q = 4%nat) as Hq by (unfold q; rewrite length_drop; lia).
  pose proof (quad_length q) as Hql. unfold inet_ntop4. rewrite (proj2 (Z.leb_le _ _)) by (unfold INET_ADDRSTRLEN, INET6_ADDRSTRLEN; lia).
  pose proof (inet_ntop4_format_ok t (l ++ [58]) q Hbq Hq) as E. unfold at_end in E. rewrite length_app in E. cbn [length] in E. rewrite E by lia. cbn [mbind option_bind fst].
  replace (Z.of_nat (length l + 1)) with (len (l ++ [58])) by (by rewrite length_app).
  assert (strlen_at (filled t ((l ++ [58]) ++ quad_text q ++ [0])) (len (l ++ [58])) = Some (len (quad_text q))) as ->.
  { unfold filled. rewrite <- !(assoc_L (++) (l ++ [58])), <- (assoc_L (++) (quad_text q)). cbn [app]. apply text_strlen_ok. by apply quad_nonzero. }
  cbn [mbind option_bind]. rewrite <- (assoc_L (++) l). cbn [app]. do 3 f_equal. rewrite !length_app. cbn [length]. lia.
Qed.

Lemma inside_nat b n i : base best = Z.of_nat b → len_ best = Z.of_nat n → inside (Z.of_nat i) = bool_decide (b <= i < b + n)%nat.
Proof using Type.
  clear Ht Hb Hs. intros E1 E2. unfold inside. rewrite E1, E2. rewrite (proj2 (Z.eqb_neq _ _)) by lia. cbn [negb andb].
  destruct (bool_decide _) eqn:E; [apply bool_decide_eq_true in E|apply bool_decide_eq_false in E].
  - apply andb_true_iff. split; [apply Z.leb_le; lia|apply Z.ltb_lt; lia].
  - apply andb_false_iff. destruct (decide (b <= i)%nat); [right; apply Z.ltb_ge; lia|left; apply Z.leb_gt; lia].
Qed.

(** The loop with a run of [n] fields from field [b] on. *)
Lemma loop_run b n : base best = Z.of_nat b → len_ best = Z.of_nat n → (2 <= n)%nat → (b + n <= 8)%nat → embedded = false →
  format_loop 8 0 src best (wr []) = Some (Some (wr (join (take b ws) ++ [58] ++ colons (drop (b + n) ws)))).
Proof.
  intros E1 E2 Hn Hbn Hem. pose proof (inside_nat b n) as Hin.
  replace 8%nat with (b + S ((n - 1) + (8 - b - n)))%nat by lia. change [] with (join (take 0 ws)) at 1. change 0 with (Z.of_nat 0) at 1.
  rewrite rounds_before; [|intros j Hj; rewrite Hin by done; apply bool_decide_eq_false; lia|by left|lia]. cbn [Nat.add].
  pose proof (join_length (take b ws)) as Hjl. rewrite length_take in Hjl. pose proof (fields_length 8 src Hs) as Hl8.
  rewrite round_first; [|rewrite Hin by done; apply bool_decide_eq_true; lia|lia|lia].
  rewrite rounds_inside by (intros j Hj; rewrite Hin by done; split; [apply bool_decide_eq_true; lia|lia]).
  replace (S b + (n - 1))%nat with (b + n)%nat by lia.
  rewrite rounds_after; [by rewrite <- (assoc_L (++))|lia|lia|intros j Hj; rewrite Hin by done; apply bool_decide_eq_false; lia|done|].
  rewrite length_app. cbn [length]. lia.
Qed.

(** The loop up to the embedded address. *)
Lemma loop_embedded : embedded = true →
  format_loop 8 0 src best (wr []) = let l := 58 :: (if len_ best =? 6 then [] else 58 :: hex 65535) ++ 58 :: quad_text (drop 12 src) in
    Some (Some (filled t (l ++ [0]), len l)).
Proof.
  intros Hem. pose proof Hem as Hem'. unfold embedded in Hem'. apply andb_true_iff in Hem' as [E1%Z.eqb_eq E2].
  change 0 with (Z.of_nat 0) in E1. change (format_loop 8 0) with (format_loop 8 (Z.of_nat 0)).
  destruct (len_ best =? 6) eqn:E6; zb.
  - assert (len_ best = Z.of_nat 6) as E3 by done. pose proof (inside_nat 0 6) as Hin.
    rewrite round_first; [|rewrite Hin by done; apply bool_decide_eq_true; lia|done|cbn; lia]. change 7%nat with (5 + 2)%nat.
    rewrite rounds_inside by (intros j Hj; rewrite Hin by done; split; [apply bool_decide_eq_true; lia|lia]).
    change (Z.of_nat (1 + 5)) with 6. rewrite round_quad; [|done|change 6 with (Z.of_nat 6); rewrite Hin by done; apply bool_decide_eq_false; lia|cbn; lia]. done.
  - cbn [orb] in E2. apply andb_true_iff in E2 as [E5%Z.eqb_eq Ew%Z.eqb_eq]. assert (len_ best = Z.of_nat 5) as E3 by done. pose proof (inside_nat 0 5) as Hin.
    rewrite round_first; [|rewrite Hin by done; apply bool_decide_eq_true; lia|done|cbn; lia]. change 7%nat with (4 + 3)%nat.
    rewrite rounds_inside by (intros j Hj; rewrite Hin by done; split; [apply bool_decide_eq_true; lia|lia]).
    destruct (field 5) as (w & Hw & _); [lia|]. rewrite Hw in Ew. cbn in Ew. subst w.
    change (1 + 4)%nat with 5%nat. rewrite (round_field 2 5 _ 65535); [|rewrite Hin by done; apply bool_decide_eq_false; lia|left; lia|done|cbn; lia].
    change (Z.of_nat 6) with 6. rewrite round_quad; [|done|change 6 with (Z.of_nat 6); rewrite Hin by done; apply bool_decide_eq_false; lia|vm_compute; lia]. done.
Qed.

Lemma text6_length : run_ok → (length text6 <= 45)%nat.
Proof using Hs.
  clear Ht Hb. intros Hr. unfold text6. destruct (base best =? -1) eqn:E1.
  { pose proof (join_length ws). rewrite (fields_length 8 src Hs) in *. lia. }
  destruct embedded.
  - pose proof (quad_length (drop 12 src)). pose proof (hex_length 65535). destruct (len_ best =? 6); cbn [length app]; [lia|]. rewrite length_app. cbn [length]. lia.
  - zb. rewrite run_text_eq, !length_app. cbn [length]. pose proof (join_length (take (Z.to_nat (base best)) ws)). pose proof (colons_length (drop (Z.to_nat (base best + len_ best)) ws)).
    rewrite length_take, length_drop, (fields_length 8 src Hs) in *. destruct Hr as [?|Hr]; [done|].
    destruct (drop _ ws); cbn [length] in *; lia.
Qed.

Lemma format6_ok : run_ok → inet_ntop6_format src best t = Some (Some (wr (text6 ++ [0]))).
Proof.
  intros Hr. pose proof (text6_length Hr) as Hl. unfold inet_ntop6_format. change (t, 0) with (wr []). unfold text6 in *.
  destruct (base best =? -1) eqn:E1; zb.
  - assert (∀ i, inside i = false) as Hin by (intros i; unfold inside; by rewrite E1).
    assert (embedded = false) as Hem by (unfold embedded; by rewrite E1).
    pose proof (rounds_before 8 0 0 (λ j _, Hin (Z.of_nat j)) (or_introl Hem) (le_n 8)) as E. rewrite take_0 in E. change (join []) with (@nil Z) in E. change (8 + 0)%nat with 8%nat in E. change (Z.of_nat 0) with 0 in E. rewrite E. clear E.
    rewrite take_ge by (rewrite (fields_length 8 src Hs); lia). cbn [format_loop mbind option_bind negb andb]. by rewrite put_ok by (unfold is_byte; lia).
  - destruct Hr as [?|(Hb0 & H2 & H8)]; [done|]. destruct embedded eqn:Hem.
    + rewrite loop_embedded by done. cbv zeta. cbn [mbind option_bind]. set (l := 58 :: _) in *.
      assert (negb false && (base best + len_ best =? 8) = false) as ->.
      { unfold embedded in Hem. apply andb_true_iff in Hem as [E0%Z.eqb_eq E2]. apply orb_true_iff in E2 as [E2|E2]; zb; apply Z.eqb_neq; lia. }
      cbn [mbind option_bind]. unfold put, at_end. cbn [fst snd]. rewrite set_filled_last by lia. cbn [mbind option_bind]. by rewrite length_app, Nat2Z.inj_add.
    + rewrite (loop_run (Z.to_nat (base best)) (Z.to_nat (len_ best))) by (done || lia). cbn [mbind option_bind negb andb].
      replace (Z.to_nat (base best) + Z.to_nat (len_ best))%nat with (Z.to_nat (base best + len_ best)) by lia. rewrite run_text_eq in *.
      set (post := drop (Z.to_nat (base best + len_ best)) ws) in *. assert (length post = 8 - Z.to_nat (base best + len_ best))%nat as Hp
        by (unfold post; by rewrite length_drop, (fields_length 8 src Hs)).
      destruct (base best + len_ best =? 8) eqn:E8; zb; (destruct post as [|w post]; cbn [length] in Hp; [|]); try lia.
      * rewrite put_ok by (unfold is_byte; rewrite ?length_app in *; cbn [length] in *; lia). cbn [mbind option_bind].
        rewrite put_ok by (unfold is_byte; rewrite ?length_app in *; cbn [length] in *; lia). cbn [mbind option_bind]. by rewrite <- !(assoc_L (++)).
      * rewrite (app_nil_r (colons (w :: post))) in *. cbn [mbind option_bind]. rewrite put_ok by (unfold is_byte; rewrite ?length_app in *; cbn [length] in *; lia). done.
Qed.
End format6.

(** ** [inet_ntop4] *)

Lemma take_filled t l : take (Z.to_nat (len l)) (filled t l) = l.
Proof. unfold filled. by rewrite Nat2Z.id, take_app_length. Qed.

(** What [inet_ntop] leaves for a text: the text and a NUL, if they fit. *)
Definition stored (dst : list Z) (size : Z) (text : list Z) : list Z * option errno :=
  if len text + 1 <=? size then (filled dst (text ++ [0]), None) else (dst, Some ENOSPC).

Lemma inet_ntop4_ok src dst size : bytes src → length src = 4%nat → size <= len dst →
  inet_ntop4 src dst 0 size = Some (stored dst size (quad_text src)).
Proof.
  intros Hb Hl Hsz. pose proof (quad_length src) as Hq. unfold inet_ntop4, stored, INET_ADDRSTRLEN.
  destruct (16 <=? size) eqn:E; zb.
  - rewrite (proj2 (Z.leb_le _ _)) by lia. pose proof (inet_ntop4_format_ok dst [] src Hb Hl) as Ef.
    unfold at_end in Ef. cbn [length app] in Ef. change (Z.of_nat 0) with 0 in Ef. change (filled dst []) with dst in Ef. by rewrite Ef by lia.
  - pose proof (inet_ntop4_format_ok (replicate 16 0) [] src Hb Hl) as Ef. unfold at_end in Ef. cbn [length app] in Ef. change (Z.of_nat 0) with 0 in Ef.
    change (filled (replicate 16 0) []) with (replicate 16 0) in Ef. change (Z.to_nat 16) with 16%nat.
    rewrite Ef by (rewrite length_replicate; lia). cbn [mbind option_bind fst snd]. rewrite take_filled.
    assert (len (quad_text src ++ [0]) = len (quad_text src) + 1) as Hl1 by (rewrite length_app; cbn [length]; lia).
    destruct (len (quad_text src) + 1 <=? size) eqn:E'; zb.
    + rewrite (proj2 (Z.ltb_ge size _)) by lia. rewrite copy_front by (rewrite length_app; cbn [length]; lia). done.
    + by rewrite (proj2 (Z.ltb_lt size _)) by lia.
Qed.

(** ** The longest run of zeros *)

Section scan.
Context (src : list Z) (Hb : bytes src) (Hs : length src = 16%nat).
Notation ws := (fields src).

(** Fields [b] to [b + n - 1] are there, and zeros. *)
Definition zeros (b n : nat) : Prop := ∀ j, (b <= j < b + n)%nat → ws !! j = Some 0.
(** The best run is a run of zeros before field [s]; no run before [s] is longer. *)
Definition fine (best : best_t) (s : nat) : Prop :=
  base best = -1 ∨ ∃ b n, best = Best (Z.of_nat b) (Z.of_nat n) ∧ (1 <= n)%nat ∧ (b + n <= s)%nat ∧ zeros b n.
Definition covers (best : best_t) (s : nat) : Prop :=
  ∀ b n, (1 <= n)%nat → zeros b n → (b + n <= s)%nat → base best ≠ -1 ∧ Z.of_nat n <= len_ best.
(** A run that goes on cannot be one that started before [s]. *)
Definition starts (s : nat) : Prop := s = 0%nat ∨ ws !! (s - 1)%nat ≠ Some 0.

Lemma split_run s b n : starts s → zeros b n → (1 <= n)%nat → (b + n <= s)%nat ∨ (s <= b)%nat.
Proof.
  intros [->|Hst] Hz Hn; [lia|]. destruct (decide (b + n <= s)%nat); [by left|]. destruct (decide (s <= b)%nat); [by right|].
  destruct Hst. apply Hz. lia.
Qed.

Lemma better_ok best s i : fine best s → covers best s → starts s → zeros s (i - s) → (s < i)%nat →
  let best' := better best (Best (Z.of_nat s) (Z.of_nat (i - s))) in fine best' i ∧ covers best' i.
Proof.
  intros Hf Hc Hst Hz Hsi. cbv zeta. unfold better. cbn [len_].
  assert (∀ b n, (1 <= n)%nat → zeros b n → (b + n <= i)%nat → (b + n <= s)%nat ∨ (n <= i - s)%nat) as Hcase.
  { intros b n Hn Hz' Hi. destruct (split_run s b n Hst Hz' Hn); [by left|right; lia]. }
  destruct ((base best =? -1) || (len_ best <? Z.of_nat (i - s))) eqn:E.
  - split.
    + right. exists s, (i - s)%nat. repeat split; try done; lia.
    + intros b n Hn Hz' Hi. cbn [base len_]. split; [lia|]. destruct (Hcase b n Hn Hz' Hi) as [H|H]; [|lia].
      destruct (Hc b n Hn Hz' H) as [H1 H2]. apply orb_true_iff in E as [E|E]; zb; [done|lia].
  - apply orb_false_iff in E as [E1 E2]; zb. split.
    + destruct Hf as [?|(b & n & -> & Hn & Hbn & Hz')]; [done|]. right. exists b, n. repeat split; try done. lia.
    + intros b n Hn Hz' Hi. split; [done|]. destruct (Hcase b n Hn Hz' Hi) as [H|H]; [by apply (Hc b n)|lia].
Qed.

(** Between two rounds: the current run, if any, starts at [s]. *)
Definition scan_inv (i : nat) (best cur : best_t) : Prop :=
  ∃ s, fine best s ∧ covers best s ∧ starts s ∧ zeros s (i - s) ∧
    (base cur = -1 ∧ s = i ∨ cur = Best (Z.of_nat s) (Z.of_nat (i - s)) ∧ (s < i)%nat).

Lemma scan_zero i best cur : scan_inv i best cur → ws !! i = Some 0 →
  scan_inv (S i) best (if base cur =? -1 then Best (Z.of_nat i) 1 else Best (base cur) (len_ cur + 1)).
Proof.
  intros (s & Hf & Hc & Hst & Hz & Hcur) Hw. exists s. split_and!; [done..| |].
  - intros j Hj. destruct (decide (j = i)) as [->|]; [done|]. apply Hz. destruct Hcur as [[_ ->]|[_ ?]]; lia.
  - right. destruct Hcur as [[-> ->]|[-> Hsi]]; cbn [base len_].
    + change (-1 =? -1) with true. cbn [negb]. split; [f_equal; lia|lia].
    + rewrite (proj2 (Z.eqb_neq _ _)) by lia. split; [f_equal; lia|lia].
Qed.

Lemma scan_other i best cur w : scan_inv i best cur → ws !! i = Some w → w ≠ 0 →
  scan_inv (S i) (if negb (base cur =? -1) then better best cur else best) (if negb (base cur =? -1) then Best (-1) (len_ cur) else cur).
Proof.
  intros (s & Hf & Hc & Hst & Hz & Hcur) Hw Hw0. exists (S i).
  assert (starts (S i)) as Hst'. { right. replace (S i - 1)%nat with i by lia. rewrite Hw. congruence. }
  assert (∀ best', fine best' i → fine best' (S i)) as HfS.
  { intros best' [?|(b & n & -> & Hn & Hbn & Hz')]; [by left|]. right. exists b, n. repeat split; try done. lia. }
  assert (∀ best', covers best' i → covers best' (S i)) as HcS.
  { intros best' Hc' b n Hn Hz' Hbn. apply (Hc' b n Hn Hz'). destruct (decide (b + n = S i)%nat); [|lia]. exfalso.
    assert (ws !! i = Some 0) as E by (apply Hz'; lia). congruence. }
  destruct Hcur as [[Hc1 ->]|[-> Hsi]].
  - rewrite Hc1. change (-1 =? -1) with true. cbn [negb]. split_and!; [by apply HfS|by apply HcS|done|intros j Hj; lia|by left].
  - cbn [base len_]. rewrite (proj2 (Z.eqb_neq _ _)) by lia. cbn [negb]. destruct (better_ok best s i) as [H1 H2]; try done.
    split_and!; [by apply HfS|by apply HcS|done|intros j Hj; lia|by left].
Qed.

Lemma runs_scan_ok n : ∀ i best cur, (i + n = 8)%nat → scan_inv i best cur →
  ∃ best' cur', scan_loop n (Z.of_nat i) src best cur = Some (best', cur') ∧ scan_inv 8 best' cur'.
Proof using Hb Hs.
  induction n as [|n IH]; intros i best cur Hi Hinv.
  { replace i with 8%nat in Hinv by lia. by exists best, cur. }
  destruct (field src Hb Hs i) as (w & Hw & E & _); [lia|]. cbn [scan_loop]. rewrite E. cbn [mbind option_bind].
  replace (Z.of_nat i + 1) with (Z.of_nat (S i)) by lia. destruct (w =? 0) eqn:Ew; zb.
  - subst w. apply IH; [lia|]. by apply scan_zero.
  - pose proof (scan_other i best cur w Hinv Hw Ew) as Hinv'. destruct (negb (base cur =? -1)); apply IH; try lia; done.
Qed.

(** The run that is abbreviated: of two fields or more, all zeros, and none is longer. *)
Definition chosen (best : best_t) : Prop :=
  run_ok best ∧ (base best ≠ -1 → zeros (Z.to_nat (base best)) (Z.to_nat (len_ best))) ∧
  ∀ b n, (2 <= n)%nat → zeros b n → base best ≠ -1 ∧ Z.of_nat n <= len_ best.

Lemma choose_ok best cur : scan_inv 8 best cur →
  let best := if negb (base cur =? -1) then better best cur else best in
  chosen (if negb (base best =? -1) && (len_ best <? 2) then Best (-1) (len_ best) else best).
Proof using Hb Hs.
  intros (s & Hf & Hc & Hst & Hz & Hcur). set (best' := if negb _ then _ else _).
  assert (fine best' 8 ∧ covers best' 8) as [Hf' Hc'].
  { unfold best'. destruct Hcur as [[-> ->]|[-> Hsi]]; cbn [base]; [done|]. rewrite (proj2 (Z.eqb_neq _ _)) by lia. by apply better_ok. }
  cbv zeta. clearbody best'.
  assert (∀ b n, (2 <= n)%nat → zeros b n → (b + n <= 8)%nat) as Hin.
  { intros b n Hn Hz'. assert (ws !! (b + n - 1)%nat = Some 0) as E%lookup_lt_Some by (apply Hz'; lia). rewrite (fields_length 8 src Hs) in E. lia. }
  destruct (negb (base best' =? -1) && (len_ best' <? 2)) eqn:E.
  - apply andb_true_iff in E as [E1%negb_true_iff E2]; zb. split; [by left|]. split; [done|]. intros b n Hn Hz'.
    destruct (Hc' b n) as [H1 H2]; [lia|done|by apply Hin|lia].
  - split; [|split].
    + destruct Hf' as [?|(b & n & -> & Hn & Hbn & Hz')]; [by left|right]. cbn [base len_] in *.
      rewrite (proj2 (Z.eqb_neq _ _)) in E by lia. cbn [negb andb] in E. zb. lia.
    + intros Hne. destruct Hf' as [?|(b & n & -> & Hn & Hbn & Hz')]; [done|]. cbn [base len_]. by rewrite !Nat2Z.id.
    + intros b n Hn Hz'. apply (Hc' b n); [lia|done|by apply Hin].
Qed.

Lemma inet_ntop6_ok dst size : size <= len dst → ∃ best, chosen best ∧ inet_ntop6 src dst size = Some (stored dst size (text6 src best)).
Proof using Hb Hs.
  intros Hsz. destruct (runs_scan_ok 8 0 (Best (-1) 0) (Best (-1) 0)) as (best & cur & E & Hinv); [done| |].
  { exists 0%nat. split_and!; [by left|intros b n Hn Hz Hbn; lia|by left|intros j Hj; lia|by left]. }
  unfold inet_ntop6. change (Z.of_nat 0) with 0 in E. rewrite E. cbn [mbind option_bind]. pose proof (choose_ok best cur Hinv) as Hch. cbv zeta in Hch |- *.
  set (chosen' := if _ && _ then _ else _) in *. exists chosen'. split; [done|]. destruct Hch as [Hr _]. clearbody chosen'.
  pose proof (text6_length src chosen' Hs Hr) as Hl. unfold stored, INET6_ADDRSTRLEN.
  set (text := text6 src chosen') in *. assert (len (text ++ [0]) = len text + 1) as Hl1 by (rewrite length_app; cbn [length]; lia).
  destruct (46 <=? size) eqn:E46; zb.
  - rewrite (format6_ok dst src chosen' Hb Hs) by (done || lia). cbn [mbind option_bind fst]. by rewrite (proj2 (Z.leb_le _ _)) by lia.
  - rewrite (format6_ok (replicate (Z.to_nat 46) 0) src chosen' Hb Hs) by (done || (rewrite length_replicate; lia)). cbn [mbind option_bind].
    unfold at_end. fold text. rewrite take_filled, Hl1. destruct (len text + 1 <=? size) eqn:E'; zb.
    + rewrite (proj2 (Z.ltb_ge size _)) by lia. rewrite copy_front by lia. done.
    + by rewrite (proj2 (Z.ltb_lt size _)) by lia.
Qed.
End scan.
