(* ===== verification/InetPton.v ===== *)
(** * InetPton: the texts [inet_pton] accepts, and the addresses it reads from them *)

From S2P Require Import Prelude Bytes Inet InetSpec.
Local Open Scope Z_scope.

Lemma low_char c : 0 <= c < 128 → wraps 8 c = c.
Proof. intros. apply wraps_small; lia. Qed.

(** A byte that is not a low character is a negative one. *)
Lemma high_char c : is_byte c → 128 <= c → wraps 8 c = c - 256.
Proof. unfold is_byte. intros. replace c with (c - 256 + 1 * 2 ^ 8) at 1 by lia. unfold wraps. rewrite <- Z.add_assoc, (Z.add_comm _ (2 ^ _)), Z.add_assoc, Z_mod_plus_full, Z.mod_small; lia. Qed.

Lemma char_cases c : is_byte c → 0 <= c < 128 ∧ wraps 8 c = c ∨ wraps 8 c < 0.
Proof. intros Hc. destruct (decide (c < 128)); [left; split; [|apply low_char]|right; rewrite high_char by (done || lia)]; unfold is_byte in Hc; lia. Qed.

(** ** IPv4 *)

(** The text of the bytes [tmp], the last first, and of the byte being read. *)
Definition prefix4 (tmp : quad) (saw : bool) (cur : Z) : list Z :=
  concat ((λ w, dec w ++ [46]) <$> rev tmp) ++ (if saw then dec cur else []).

Lemma dec_digit d : 0 <= d < 10 → dec d = [48 + d].
Proof. intros. unfold dec. by rewrite (proj2 (Z.ltb_lt _ _)) by lia. Qed.

(** A further digit. *)
Lemma dec_snoc w d : 1 <= w → 0 <= d < 10 → w * 10 + d < 1000 → dec w ++ [48 + d] = dec (w * 10 + d).
Proof.
  intros Hw Hd H. unfold dec. rewrite (proj2 (Z.ltb_ge (w * 10 + d) 10)) by lia. rewrite (proj2 (Z.ltb_lt w 100)) by lia.
  assert ((w * 10 + d) / 10 = w) as E1 by (Z.to_euclidean_division_equations; lia). assert ((w * 10 + d) mod 10 = d) as E2 by (Z.to_euclidean_division_equations; lia).
  rewrite E1, E2. destruct (w <? 10) eqn:E; zb.
  - by rewrite (proj2 (Z.ltb_lt _ _)) by lia.
  - rewrite (proj2 (Z.ltb_ge _ _)) by lia. cbn [app]. do 2 f_equal. Z.to_euclidean_division_equations; lia.
Qed.

Lemma prefix4_dot tmp cur : prefix4 tmp true cur ++ [46] = prefix4 (cur :: tmp) false 0.
Proof. unfold prefix4. cbn [rev]. rewrite fmap_app, concat_app. cbn. by rewrite !app_nil_r, <- !app_assoc. Qed.

(** The outcome of the loop: a rejection, or a complete address, or an incomplete one. *)
Lemma pton4_loop_ok src : ∀ (tmp : quad) (cur : Z) (saw : bool) (octets : Z), bytes src → bytes (cur :: tmp) → octets = len tmp + (if saw then 1 else 0) →
  (saw = false → cur = 0) → (length tmp <= 3)%nat →
  ∃ r, pton4_loop src (cur :: tmp) saw octets = Some r ∧
    match r with
    | None => True
    | Some (q, octets') => octets' <= 4 ∧ (octets' = 4 → length q = 4%nat ∧ bytes q ∧ prefix4 tmp saw cur ++ src = quad_text (rev q))
    end.
Proof.
  induction src as [|c src IH]; intros tmp cur saw octets Hsrc Hb Ho Hcur Hlen.
  - eexists. split; [done|]. cbn beta iota. split; [destruct saw; lia|]. intros H4. destruct saw; [|lia].
    destruct tmp as [|x [|y [|z [|? ?]]]]; cbn [length] in *; try lia. split; [done|]. split; [done|].
    unfold prefix4. cbn. by rewrite !app_nil_r, <- !app_assoc.
  - apply Forall_cons in Hsrc as [Hc Hsrc]. apply Forall_cons in Hb as [Hcb Hb]. cbn [pton4_loop]. set (ch := wraps 8 c).
    assert (0 <= c < 128 ∧ ch = c ∨ ch < 0) as Hch by (by apply char_cases). unfold is_byte in Hcb.
    destruct ((48 <=? ch) && (ch <=? 57)) eqn:Ed.
    + apply andb_true_iff in Ed as [E1 E2]; zb. destruct Hch as [[_ Hch]|]; [|lia]. rewrite Hch in *. clearbody ch. clear Hch ch.
      rewrite (wrapu_small 32) by lia. destruct (saw && (cur =? 0)) eqn:Es; [by eexists|]. destruct (255 <? cur * 10 + (c - 48)) eqn:E3; [by eexists|]. zb.
      rewrite wrapu_small by lia. destruct saw; cbn [negb andb] in *; zb.
      * destruct (IH tmp (cur * 10 + (c - 48)) true octets Hsrc) as (r & Hr & H); [by apply Forall_cons; split; [unfold is_byte; lia|]|done|done|done|].
        exists r. split; [done|]. destruct r as [[q o]|]; [|done]. destruct H as [Ho4 H]. split; [done|]. intros H4. destruct (H H4) as (Hq & Hbq & E). split; [done|]. split; [done|].
        rewrite <- E. unfold prefix4. rewrite <- dec_snoc by lia. replace (48 + (c - 48)) with c by lia. by rewrite <- !app_assoc.
      * rewrite (proj2 (Z.ltb_ge _ _)) by lia. rewrite Hcur in * by done.
        destruct (IH tmp (c - 48) true (octets + 1) Hsrc) as (r & Hr & H); [by apply Forall_cons; split; [unfold is_byte; lia|]|lia|done|done|].
        replace (0 * 10 + (c - 48)) with (c - 48) by lia. exists r. split; [done|]. destruct r as [[q o]|]; [|done]. destruct H as [Ho4 H]. split; [done|]. intros H4.
        destruct (H H4) as (Hq & Hbq & E). split; [done|]. split; [done|]. rewrite <- E. unfold prefix4. rewrite dec_digit by lia.
        replace (48 + (c - 48)) with c by lia. by rewrite app_nil_r, <- app_assoc.
    + destruct ((ch =? 46) && saw) eqn:E2; [|by eexists]. apply andb_true_iff in E2 as [E46 ->]; zb. destruct Hch as [[_ Hch]|]; [|lia].
      destruct (octets =? 4) eqn:E4; [by eexists|]; zb. unfold NS_INADDRSZ. rewrite (proj2 (Z.ltb_lt _ _)) by (cbn [length]; lia).
      destruct (IH (cur :: tmp) 0 false octets Hsrc) as (r & Hr & H); [repeat (apply Forall_cons; split); try done; unfold is_byte; lia|cbn [length]; lia|done|cbn [length]; lia|].
      exists r. split; [done|]. destruct r as [[q o]|]; [|done]. destruct H as [Ho4 H]. split; [done|]. intros H4. destruct (H H4) as (Hq & Hbq & E). split; [done|]. split; [done|].
      rewrite <- E, <- prefix4_dot, <- app_assoc. cbn [app]. congruence.
Qed.

(** A byte in decimal is read. *)
Lemma pton4_digit src tmp cur saw octets d : 0 <= d < 10 → 0 <= cur * 10 + d < 256 → (saw = true → cur ≠ 0) → (saw = false → octets < 4) →
  pton4_loop ((48 + d) :: src) (cur :: tmp) saw octets = pton4_loop src ((cur * 10 + d) :: tmp) true (if saw then octets else octets + 1).
Proof.
  intros Hd Hr Hs Ho. cbn [pton4_loop]. rewrite low_char by lia. rewrite (proj2 (Z.leb_le _ _)), (proj2 (Z.leb_le _ _)) by lia. cbn [andb].
  replace (48 + d - 48) with d by lia. rewrite (wrapu_small 32) by lia. rewrite (proj2 (Z.ltb_ge 255 _)), (wrapu_small 8) by lia. destruct saw; cbn [andb negb].
  - by rewrite (proj2 (Z.eqb_neq _ _)) by auto.
  - by rewrite (proj2 (Z.ltb_ge _ _)) by (specialize (Ho eq_refl); lia).
Qed.

Lemma pton4_dec src tmp octets w : is_byte w → octets < 4 →
  pton4_loop (dec w ++ src) (0 :: tmp) false octets = pton4_loop src (w :: tmp) true (octets + 1).
Proof.
  unfold is_byte. intros Hw Ho.
  assert (w = w / 10 * 10 + w mod 10 ∧ 0 <= w mod 10 < 10 ∧ w / 10 = w / 100 * 10 + w / 10 mod 10 ∧ 0 <= w / 10 mod 10 < 10 ∧ 0 <= w / 100 < 10) as (E1 & H1 & E2 & H2 & H3)
    by (Z.to_euclidean_division_equations; lia).
  unfold dec. destruct (w <? 10) eqn:E3; zb; [|destruct (w <? 100) eqn:E4; zb]; cbn [app].
  - by rewrite pton4_digit by (done || lia).
  - rewrite pton4_digit, Z.add_0_l by (done || lia). rewrite pton4_digit by (done || lia). by rewrite <- E1.
  - rewrite pton4_digit, Z.add_0_l by (done || lia). rewrite pton4_digit by (done || lia). rewrite <- E2, pton4_digit by (done || lia). by rewrite <- E1.
Qed.

Lemma pton4_dot src tmp cur octets : len tmp <= 2 → octets < 4 →
  pton4_loop (46 :: src) (cur :: tmp) true octets = pton4_loop src (0 :: cur :: tmp) false octets.
Proof.
  intros Hl Ho. cbn [pton4_loop]. rewrite low_char by lia. change ((48 <=? 46) && (46 <=? 57)) with false. change ((46 =? 46) && true) with true. cbv iota.
  rewrite (proj2 (Z.eqb_neq _ _)) by lia. unfold NS_INADDRSZ. by rewrite (proj2 (Z.ltb_lt _ _)) by (cbn [length]; lia).
Qed.

Lemma pton4_quad q : bytes q → length q = 4%nat → pton4_loop (quad_text q) [0] false 0 = Some (Some (rev q, 4)).
Proof.
  intros Hb Hq. destruct q as [|a [|b [|c [|d [|? ?]]]]]; try done. unfold bytes in Hb. rewrite !Forall_cons in Hb. destruct Hb as (Ha & Hb & Hc & Hd & _).
  cbn [quad_text]. rewrite pton4_dec, pton4_dot by (done || (cbn; lia)). rewrite pton4_dec, pton4_dot by (done || (cbn; lia)).
  rewrite pton4_dec, pton4_dot by (done || (cbn; lia)). rewrite <- (app_nil_r (dec d)). by rewrite pton4_dec by (done || lia).
Qed.

(** The text of an IPv4 address. *)
Definition ipv4_text (src q : list Z) : Prop := bytes q ∧ length q = 4%nat ∧ src = quad_text q.

Lemma inet_pton4_reads dst tp q : bytes q → length q = 4%nat → 0 <= tp → tp + 4 <= len dst →
  inet_pton4 (quad_text q) dst tp = Some (1, splice dst (Z.to_nat tp) q).
Proof.
  intros Hb Hq Htp Hd. unfold inet_pton4. rewrite pton4_quad by done. cbn [mbind option_bind]. unfold NS_INADDRSZ. rewrite length_rev, Hq, rev_involutive.
  change (4 <? 4) with false. change (Z.of_nat 4 =? 4) with true. cbv iota. by rewrite copy_bytes_ok by lia.
Qed.

Lemma inet_pton4_ok src dst tp : bytes src → 0 <= tp → tp + 4 <= len dst →
  (∃ q, ipv4_text src q ∧ inet_pton4 src dst tp = Some (1, splice dst (Z.to_nat tp) q)) ∨
  ((∀ q, ¬ ipv4_text src q) ∧ inet_pton4 src dst tp = Some (0, dst)).
Proof.
  intros Hb Htp Hd. unfold inet_pton4. destruct (pton4_loop_ok src [] 0 false 0) as (r & E & H); [done|apply Forall_singleton; unfold is_byte; lia|done|done|cbn; lia|].
  assert (∀ q, ipv4_text src q → r = Some (rev q, 4)) as Hacc.
  { intros q (Hbq & Hq & ->). rewrite pton4_quad in E by done. congruence. }
  rewrite E. cbn [mbind option_bind]. destruct r as [[q octets]|].
  - destruct H as [H1 H2]. destruct (octets <? 4) eqn:E4; zb.
    { right. split; [|done]. intros q' Hq'. pose proof (Hacc q' Hq'). simplify_eq. lia. }
    assert (octets = 4) as -> by lia. destruct (H2 eq_refl) as (Hq & Hbq & Eq). left. exists (rev q). unfold NS_INADDRSZ. rewrite Hq. change (Z.of_nat 4 =? 4) with true.
    rewrite copy_bytes_ok by (rewrite ?length_rev; lia). split; [|done]. split; [by apply Forall_rev|]. by rewrite length_rev.
  - right. split; [|done]. intros q' Hq'. by pose proof (Hacc q' Hq').
Qed.

(** ** IPv6: the grammar *)

(** One to four hexadecimal digits, and the field they stand for. *)
Definition hexits (s : list Z) : Prop := Forall (λ c, 0 <= hex_digit_value c) s.
Definition word (s : list Z) : Prop := hexits s ∧ (1 <= length s <= 4)%nat.
Definition value (s : list Z) : Z := foldl (λ v c, v * 16 + hex_digit_value c) 0 s.
Definition word_bytes (s : list Z) : list Z := [value s / 256; value s mod 256].
Definition words_bytes (ss : list (list Z)) : list Z := concat (word_bytes <$> ss).

(** Words with a colon after each. *)
Definition after (ss : list (list Z)) : list Z := concat ((λ s, s ++ [58]) <$> ss).

(** The end of an address: nothing, a word, or an IPv4 address, behind words and colons. *)
Inductive tail : list Z → list Z → Prop :=
  | tail_nil : tail [] []
  | tail_word ss s : Forall word ss → word s → tail (after ss ++ s) (words_bytes ss ++ word_bytes s)
  | tail_quad ss q : Forall word ss → bytes q → length q = 4%nat → tail (after ss ++ quad_text q) (words_bytes ss ++ q).

(** The text of an IPv6 address: sixteen bytes, or fewer with two colons for the zeros that are missing. *)
Inductive ipv6_text : list Z → list Z → Prop :=
  | text_full t bs : tail t bs → length bs = 16%nat → ipv6_text t bs
  | text_zeros ss t bs : Forall word ss → tail t bs → (length (words_bytes ss ++ bs) < 16)%nat →
      ipv6_text ((match ss with [] => [58] | _ => after ss end) ++ 58 :: t)
        (words_bytes ss ++ replicate (16 - length (words_bytes ss ++ bs)) 0 ++ bs).

Lemma words_bytes_length ss : length (words_bytes ss) = (2 * length ss)%nat.
Proof. induction ss as [|s ss IH]; [done|]. unfold words_bytes in *. cbn [fmap list_fmap concat length]. rewrite length_app. cbn [length word_bytes]. cbn [fmap] in IH. lia. Qed.

Lemma words_bytes_snoc ss s : words_bytes (ss ++ [s]) = words_bytes ss ++ word_bytes s.
Proof. unfold words_bytes. rewrite fmap_app, concat_app. cbn [fmap list_fmap concat]. by rewrite app_nil_r. Qed.

Lemma after_snoc ss s : after (ss ++ [s]) = after ss ++ s ++ [58].
Proof. unfold after. rewrite fmap_app, concat_app. cbn [fmap list_fmap concat]. by rewrite app_nil_r. Qed.

Lemma hexit_char c : 0 <= hex_digit_value c → 48 <= c <= 102 ∧ c ≠ 58 ∧ hex_digit_value c < 16.
Proof.
  unfold hex_digit_value. destruct ((48 <=? c) && (c <=? 57)) eqn:E1; [|destruct ((97 <=? c) && (c <=? 102)) eqn:E2; [|destruct ((65 <=? c) && (c <=? 70)) eqn:E3]];
    repeat match goal with H : _ && _ = true |- _ => apply andb_true_iff in H as [? ?] end; zb; lia.
Qed.

Lemma value_snoc s c : value (s ++ [c]) = value s * 16 + hex_digit_value c.
Proof. unfold value. by rewrite foldl_app. Qed.

Lemma value_range s : hexits s → 0 <= value s < 16 ^ len s.
Proof.
  unfold hexits. induction s as [|c s IH] using rev_ind; [done|]. rewrite Forall_app, Forall_singleton. intros [Hs Hc].
  rewrite value_snoc, length_app, Nat2Z.inj_add, Z.pow_add_r by lia. cbn [length]. change (16 ^ Z.of_nat 1) with 16. pose proof (hexit_char c Hc). specialize (IH Hs). lia.
Qed.

Lemma value_short s : hexits s → (length s <= 4)%nat → 0 <= value s < 65536.
Proof.
  intros Hs Hl. pose proof (value_range s Hs). assert (16 ^ len s <= 16 ^ 4) by (apply Z.pow_le_mono_r; lia). change (16 ^ 4) with 65536 in *. lia.
Qed.

Lemma dec_word w : is_byte w → word (dec w).
Proof.
  intros Hw. split; [|pose proof (dec_length w); lia]. unfold is_byte in Hw.
  assert (∀ d, 0 <= d < 10 → 0 <= hex_digit_value (48 + d)) as Hd.
  { intros d Hd. unfold hex_digit_value. rewrite (proj2 (Z.leb_le _ _)), (proj2 (Z.leb_le _ _)) by lia. cbn [andb]. lia. }
  unfold hexits, dec. destruct (w <? 10) eqn:E; zb; [|destruct (w <? 100) eqn:E'; zb]; rewrite ?Forall_cons, ?Forall_nil; repeat split;
    apply Hd; Z.to_euclidean_division_equations; lia.
Qed.

Lemma wrap_colon c : is_byte c → wraps 8 c = 58 → c = 58.
Proof. intros Hc E. destruct (char_cases c Hc) as [[_ ?]|?]; lia. Qed.

Lemma word_head s r : word s → ∃ c r', s ++ r = c :: r' ∧ 0 <= hex_digit_value c.
Proof. intros [Hs Hl]. destruct s as [|c s]; [cbn in Hl; lia|]. exists c, (s ++ r). split; [done|]. by apply Forall_inv in Hs. Qed.

Lemma after_head ss s r : Forall word ss → word s → ∃ c r', after ss ++ s ++ r = c :: r' ∧ 0 <= hex_digit_value c.
Proof.
  destruct ss as [|s' ss]; intros Hss Hs; [exact (word_head s r Hs)|]. apply Forall_cons in Hss as [Hs' _].
  change (after (s' :: ss)) with ((s' ++ [58]) ++ after ss). rewrite <- !app_assoc. by apply word_head.
Qed.

Lemma tail_head t bs : tail t bs → bs ≠ [] → ∃ c r, t = c :: r ∧ 0 <= hex_digit_value c.
Proof.
  intros [|ss s Hss Hs|ss q Hss Hb Hq] Hne; [done| |].
  - rewrite <- (app_nil_r s). by apply after_head.
  - destruct q as [|a [|b [|c [|d [|? ?]]]]]; try done. cbn [quad_text]. apply after_head; [done|]. apply dec_word. by apply Forall_inv in Hb.
Qed.

(** ** Steps of the loop *)

Section steps.
Context (t0 : list Z) (Ht0 : length t0 = 16%nat).
Set Default Proof Using "All".
Notation wr := (at_end t0).

(** The variables when [l] is stored and the digits [s] are read. *)
Definition reading (l : list Z) (c : option Z) (s : list Z) : pton6_t := Pton6 (wr l) c (len s) (value s).

Lemma loop_digit c src tok l cp s : 0 <= hex_digit_value c → hexits s → (length s < 4)%nat →
  pton6_loop (c :: src) tok (reading l cp s) = pton6_loop src tok (reading l cp (s ++ [c])).
Proof.
  intros Hc Hs Hl. pose proof (hexit_char c Hc). cbn [pton6_loop]. rewrite low_char by lia. rewrite (proj2 (Z.leb_le _ _)) by done. unfold reading. cbn [xdigits_seen val tmp colonp].
  rewrite (proj2 (Z.eqb_neq _ _)) by lia.
  assert (hexits (s ++ [c])) as Hs' by (apply Forall_app; split; [done|by apply Forall_singleton]).
  pose proof (value_short s Hs) as Hv. pose proof (value_short (s ++ [c]) Hs') as Hv'. rewrite length_app in Hv'. cbn [length] in Hv'. rewrite value_snoc in *.
  assert (u32 (value s ≪ 4) = value s * 16) as -> by (rewrite Z.shiftl_mul_pow2 by lia; apply wrapu_small; lia).
  assert (Z.lor (value s * 16) (hex_digit_value c) = value s * 16 + hex_digit_value c) as ->.
  { change 16 with (2 ^ 4). rewrite lor_disjoint by lia. lia. }
  rewrite (proj2 (Z.ltb_ge _ _)) by lia. by rewrite length_app, Nat2Z.inj_add.
Qed.

Lemma loop_word src tok l cp s r : hexits (s ++ r) → (length (s ++ r) <= 4)%nat →
  pton6_loop (r ++ src) tok (reading l cp s) = pton6_loop src tok (reading l cp (s ++ r)).
Proof.
  revert s. induction r as [|c r IH]; intros s Hs Hl; [by rewrite app_nil_r|]. rewrite length_app in Hl. cbn [length] in Hl.
  pose proof (proj1 (Forall_app _ _ _) Hs) as [Hs1 Hs2]. pose proof (Forall_inv Hs2) as Hc. cbn [app]. rewrite loop_digit by (done || lia).
  rewrite IH; rewrite <- ?app_assoc; cbn [app]; [done|done|]. rewrite length_app. cbn [length]. lia.
Qed.

Lemma put_val_ok v l : 0 <= v < 65536 → (length l + 2 <= length t0)%nat → put_val v (wr l) = Some (wr (l ++ [v / 256; v mod 256])).
Proof.
  intros Hv Hl. unfold put_val. assert (∀ x, Z.land (u8 x) 255 = x mod 256) as E.
  { intros x. change 255 with (Z.ones 8). rewrite Z.land_ones by lia. unfold wrapu. by rewrite Z.mod_mod by lia. }
  rewrite !E, Z.shiftr_div_pow2 by lia. change (2 ^ 8) with 256. rewrite (Z.mod_small (v / 256)) by (Z.to_euclidean_division_equations; lia).
  rewrite put_ok by (unfold is_byte; try (Z.to_euclidean_division_equations; lia); lia). cbn [mbind option_bind].
  rewrite put_ok by (unfold is_byte; rewrite ?length_app; cbn [length]; try (Z.to_euclidean_division_equations; lia); lia). by rewrite <- app_assoc.
Qed.

(** A colon behind digits stores a field. *)
Lemma loop_colon src tok l cp s : word s → src ≠ [] → (length l + 2 <= 16)%nat →
  pton6_loop (58 :: src) tok (reading l cp s) = pton6_loop src src (reading (l ++ word_bytes s) cp []).
Proof.
  intros [Hs Hl4] Hsrc Hl. cbn [pton6_loop]. change (wraps 8 58) with 58. change (0 <=? hex_digit_value 58) with false. change (58 =? 58) with true. cbv iota.
  unfold reading. cbn [xdigits_seen val tmp colonp]. rewrite (proj2 (Z.eqb_neq _ _)) by lia. destruct src as [|c src]; [done|]. cbn [snd at_end]. unfold NS_IN6ADDRSZ, NS_INT16SZ.
  rewrite (proj2 (Z.ltb_ge _ _)) by lia. rewrite put_val_ok by (try apply value_short; (done || lia)). done.
Qed.

(** Two colons. *)
Lemma loop_zeros src tok l : pton6_loop (58 :: src) tok (reading l None []) = pton6_loop src src (reading l (Some (len l)) []).
Proof. done. Qed.

Lemma loop_after ss src l cp : Forall word ss → src ≠ [] → (length l + 2 * length ss <= 16)%nat →
  pton6_loop (after ss ++ src) (after ss ++ src) (reading l cp []) = pton6_loop src src (reading (l ++ words_bytes ss) cp []).
Proof.
  revert l. induction ss as [|s ss IH]; intros l Hss Hsrc Hl.
  { change (words_bytes []) with (@nil Z). change (after []) with (@nil Z). by rewrite app_nil_r. }
  apply Forall_cons in Hss as [[Hs Hs4] Hss]. cbn [length] in Hl. change (after (s :: ss)) with ((s ++ [58]) ++ after ss). rewrite <- !app_assoc. cbn [app].
  assert (after ss ++ src ≠ []) as Hne by (intros E%app_eq_nil; naive_solver).
  rewrite (loop_word _ _ l cp [] s) by (done || (cbn [app]; lia)). cbn [app]. rewrite loop_colon by (done || lia). rewrite IH by (done || (rewrite length_app; cbn [length word_bytes]; lia)).
  by rewrite <- app_assoc.
Qed.

(** ** What follows the loop *)

Context (dst : list Z) (Hdst : (16 <= length dst)%nat).

(** The last word is stored. *)
Lemma finish_word l cp s : word s → (length l + 2 <= 16)%nat →
  pton6_finish (reading l cp s) dst = pton6_finish (reading (l ++ word_bytes s) cp []) dst.
Proof.
  intros [Hs Hs4] Hl. unfold pton6_finish, reading. cbn [xdigits_seen tmp val colonp]. rewrite (proj2 (Z.ltb_lt _ _)) by lia.
  unfold NS_IN6ADDRSZ, NS_INT16SZ. cbn [snd at_end]. rewrite (proj2 (Z.ltb_ge _ _)) by lia. rewrite put_val_ok by (try apply value_short; (done || lia)). done.
Qed.

(** The last word does not fit. *)
Lemma finish_overflow l cp s : word s → (16 < length l + 2)%nat → pton6_finish (reading l cp s) dst = Some (0, dst).
Proof.
  intros [Hs Hs4] Hl. unfold pton6_finish, reading. cbn [xdigits_seen tmp val colonp]. rewrite (proj2 (Z.ltb_lt _ _)) by lia.
  unfold NS_IN6ADDRSZ, NS_INT16SZ. cbn [snd at_end]. by rewrite (proj2 (Z.ltb_lt _ _)) by lia.
Qed.

(** No two colons: sixteen bytes. *)
Lemma finish_full l x : (length l <= 16)%nat →
  pton6_finish (Pton6 (wr l) None 0 x) dst = Some (if decide (length l = 16%nat) then (1, filled dst l) else (0, dst)).
Proof.
  intros Hl. unfold pton6_finish. cbn. unfold NS_IN6ADDRSZ. destruct (decide _) as [E|E].
  - rewrite E. cbn. unfold filled at 1. rewrite drop_ge by lia. by rewrite app_nil_r, copy_front by lia.
  - by rewrite (proj2 (Z.eqb_neq _ _)) by lia.
Qed.

(** The bytes behind the two colons move to the end, unless there are sixteen already. *)
Lemma finish_zeros a b x : (length (a ++ b) <= 16)%nat →
  pton6_finish (Pton6 (wr (a ++ b)) (Some (len a)) 0 x) dst =
    Some (if decide (length (a ++ b) = 16%nat) then (0, dst) else (1, filled dst (a ++ replicate (16 - length (a ++ b)) 0 ++ b))).
Proof.
  intros Hl. unfold pton6_finish. cbn [xdigits_seen tmp colonp at_end mbind option_bind]. change (0 <? 0) with false. cbv iota. cbn [mbind option_bind]. unfold NS_IN6ADDRSZ.
  unfold at_end. cbv beta iota. destruct (decide _) as [E|E]; [by rewrite E|]. rewrite (proj2 (Z.eqb_neq _ _)) by lia. rewrite length_app in *.
  replace (Z.of_nat (length a + length b) - len a) with (len b) by lia. unfold filled at 1 2. set (r := drop _ t0).
  assert (length r = 16 - length a - length b)%nat as Hr by (unfold r; rewrite length_drop, length_app; lia).
  rewrite <- app_assoc, !Nat2Z.id, drop_app_length, take_app_length.
  rewrite copy_bytes_ok by (rewrite ?length_app; lia). cbn [mbind option_bind].
  assert (splice (a ++ b ++ r) (Z.to_nat (16 - len b)) b = a ++ take (length r) (b ++ r) ++ b) as ->.
  { unfold splice. replace (Z.to_nat (16 - len b)) with (length a + length r)%nat by lia. rewrite take_app_add, (drop_ge (a ++ b ++ r)) by (rewrite !length_app; lia).
    by rewrite app_nil_r, <- app_assoc. }
  set (u := take (length r) (b ++ r)). assert (length u = length r) as Hu by (unfold u; rewrite length_take, length_app; lia).
  replace (Z.to_nat (16 - len b - len a)) with (length r) by lia. rewrite copy_bytes_ok by (rewrite ?length_app, ?length_replicate; lia). cbn [mbind option_bind].
  rewrite splice_app_r by lia. rewrite length_replicate, <- Hu, drop_app_length. change (negb (16 =? 16)) with false. cbv iota.
  rewrite copy_front by (rewrite !length_app, length_replicate; lia). cbn [mbind option_bind]. repeat f_equal. lia.
Qed.

(** ** An address that follows the grammar is read *)

(** The loop and what follows it. *)
Definition outcome (src curtok : list Z) (v : pton6_t) : option (Z * list Z) :=
  r ← pton6_loop src curtok v; match r with None => Some (0, dst) | Some v => pton6_finish v dst end.

(** A dot: the text from the last colon is an IPv4 address. *)
Lemma loop_dot src q l cp s : bytes q → length q = 4%nat → (length l + 4 <= 16)%nat →
  pton6_loop (46 :: src) (quad_text q) (reading l cp s) = Some (Some (Pton6 (wr (l ++ q)) cp 0 (value s))).
Proof.
  intros Hb Hq Hl. cbn [pton6_loop]. change (wraps 8 46) with 46. change (0 <=? hex_digit_value 46) with false. change (46 =? 58) with false. change (46 =? 46) with true. cbv iota.
  unfold reading, at_end. cbn [tmp fst snd colonp val andb]. unfold NS_INADDRSZ, NS_IN6ADDRSZ. rewrite (proj2 (Z.leb_le _ _)) by lia.
  rewrite inet_pton4_reads by (done || lia || (rewrite length_filled; lia)). cbn [mbind option_bind]. change (0 <? 1) with true. cbv iota. repeat f_equal.
  - unfold filled. rewrite splice_app_r by lia. by rewrite drop_drop, length_app, <- app_assoc.
  - rewrite length_app. lia.
Qed.

Lemma tail_ok t bs l cp : tail t bs → (length (l ++ bs) <= 16)%nat →
  ∃ x, outcome t t (reading l cp []) = pton6_finish (Pton6 (wr (l ++ bs)) cp 0 x) dst.
Proof.
  unfold outcome. intros Ht Hl. rewrite length_app in Hl. destruct Ht as [|ss s Hss Hs|ss q Hss Hb Hq].
  - exists 0. by rewrite app_nil_r.
  - exists 0. rewrite length_app, words_bytes_length in Hl. cbn [length word_bytes] in Hl. destruct Hs as [Hs Hs4].
    rewrite loop_after; [|done|by destruct s; cbn in Hs4; [lia|]|lia].
    pose proof (loop_word [] s (l ++ words_bytes ss) cp [] s) as E. rewrite app_nil_r in E. cbn [app] in E. rewrite E by (done || lia). cbn [mbind option_bind pton6_loop].
    rewrite finish_word by (done || (rewrite length_app, words_bytes_length; lia)). unfold reading. by rewrite <- !app_assoc.
  - rewrite length_app, words_bytes_length in Hl. destruct q as [|a [|b [|c [|d [|? ?]]]]]; try done. exists (value (dec a)). cbn [length] in Hl.
    assert (quad_text [a; b; c; d] ≠ []) as Hne by (cbn [quad_text]; intros E%app_eq_nil; naive_solver). rewrite loop_after by (done || lia).
    set (q := [a; b; c; d]) in *. assert (∃ r, quad_text q = dec a ++ 46 :: r) as [r Er] by (by eexists). rewrite Er at 1.
    pose proof (Forall_inv Hb) as Ha. destruct (dec_word a Ha) as [Hh Hh4].
    rewrite (loop_word _ _ (l ++ words_bytes ss) cp [] (dec a)) by (cbn [app]; (done || lia)). cbn [app].
    rewrite loop_dot by (done || (rewrite length_app, words_bytes_length; lia)). cbn [mbind option_bind]. by rewrite <- app_assoc.
Qed.

(** ** A text that is read follows the grammar *)

(** A colon or a dot that does not fit, and any other character, is rejected. *)
Lemma loop_colon_rejects src tok l cp s : word s → src = [] ∨ (16 < length l + 2)%nat → pton6_loop (58 :: src) tok (reading l cp s) = Some None.
Proof.
  intros [Hs Hs4] H. cbn [pton6_loop]. change (wraps 8 58) with 58. change (0 <=? hex_digit_value 58) with false. change (58 =? 58) with true. cbv iota.
  unfold reading. cbn [xdigits_seen val tmp colonp]. rewrite (proj2 (Z.eqb_neq _ _)) by lia. destruct H as [->|H]; [done|].
  cbn [snd at_end]. unfold NS_IN6ADDRSZ, NS_INT16SZ. rewrite (proj2 (Z.ltb_lt _ _)) by lia. by destruct src.
Qed.

Lemma loop_other c src tok l cp s : ¬ 0 <= hex_digit_value (wraps 8 c) → wraps 8 c ≠ 58 → (wraps 8 c ≠ 46 ∨ (16 < length l + 4)%nat) →
  pton6_loop (c :: src) tok (reading l cp s) = Some None.
Proof.
  intros Hd H58 H. cbn [pton6_loop]. rewrite (proj2 (Z.leb_gt _ _)) by lia. rewrite (proj2 (Z.eqb_neq _ 58)) by done.
  unfold reading. cbn [tmp snd at_end]. unfold NS_INADDRSZ, NS_IN6ADDRSZ. destruct (wraps 8 c =? 46) eqn:E; [|done]. zb. destruct H as [?|H]; [done|].
  by rewrite (proj2 (Z.leb_gt _ _)) by lia.
Qed.

Lemma loop_dot_rejects src tok l cp s : bytes tok → (∀ q, ¬ ipv4_text tok q) → (length l + 4 <= 16)%nat →
  pton6_loop (46 :: src) tok (reading l cp s) = Some None.
Proof.
  intros Hb Hno Hl. cbn [pton6_loop]. change (wraps 8 46) with 46. change (0 <=? hex_digit_value 46) with false. change (46 =? 58) with false. change (46 =? 46) with true. cbv iota.
  unfold reading, at_end. cbn [tmp fst snd colonp val andb]. unfold NS_INADDRSZ, NS_IN6ADDRSZ. rewrite (proj2 (Z.leb_le _ _)) by lia.
  destruct (inet_pton4_ok tok (filled t0 l) (len l)) as [(q & Hq & _)|[_ ->]]; [done|lia|rewrite length_filled; lia|by destruct (Hno q)|done].
Qed.

(** Words [ss] and digits [s] are read since the start or the two colons: the rest is
    rejected, or completes a tail, or goes on with two colons. *)
Definition outcome_cases (src : list Z) (ss : list (list Z)) (s l : list Z) (cp : option Z) (o : option (Z * list Z)) : Prop :=
  o = Some (0, dst) ∨
  (∃ bs x, tail (after ss ++ s ++ src) bs ∧ (length (l ++ bs) <= 16)%nat ∧ o = pton6_finish (Pton6 (wr (l ++ bs)) cp 0 x) dst) ∨
  (cp = None ∧ ∃ ss' rest, Forall word ss' ∧ bytes rest ∧ after ss ++ s ++ src = after ss' ++ 58 :: rest ∧ (length l + 2 * length ss' <= 16)%nat ∧
    o = outcome rest rest (reading (l ++ words_bytes ss') (Some (len (l ++ words_bytes ss'))) [])).

Lemma cases_nil ss s l cp : Forall word ss → hexits s → (length s <= 4)%nat → (length l + 2 * length ss <= 16)%nat → (ss ≠ [] → s ≠ []) →
  outcome_cases [] ss s l cp (outcome [] s (reading (l ++ words_bytes ss) cp s)).
Proof.
  intros Hss Hs Hs4 Hl Hne. unfold outcome_cases. rewrite app_nil_r. unfold outcome. cbn [pton6_loop mbind option_bind]. destruct (decide (s = [])) as [->|Hs0].
  - destruct ss as [|s ss]; [|by destruct Hne]. right. left. exists [], 0. split; [constructor|]. split; [rewrite app_nil_r; cbn in Hl; lia|]. done.
  - assert (word s) as Hw by (split; [done|]; by destruct s; [|cbn in *; lia]). destruct (decide (length l + 2 * length ss + 2 <= 16)%nat) as [Hf|Hf].
    + right. left. exists (words_bytes ss ++ word_bytes s), 0. split; [by constructor|]. split; [rewrite !length_app, words_bytes_length; cbn [length word_bytes]; lia|].
      rewrite finish_word by (done || (rewrite length_app, words_bytes_length; lia)). unfold reading. by rewrite <- app_assoc.
    + left. apply finish_overflow; [done|]. rewrite length_app, words_bytes_length. lia.
Qed.

Lemma loop_cases src : ∀ ss s l cp, bytes src → Forall word ss → hexits s → (length s <= 4)%nat → (length l + 2 * length ss <= 16)%nat → (ss ≠ [] → s ++ src ≠ []) →
  outcome_cases src ss s l cp (outcome src (s ++ src) (reading (l ++ words_bytes ss) cp s)).
Proof.
  induction src as [|c src IH]; intros ss s l cp Hb Hss Hs Hs4 Hl Hne; [rewrite app_nil_r in *; by apply cases_nil|].
  apply Forall_cons in Hb as [Hc Hb]. pose proof (char_cases c Hc) as Hch. unfold outcome_cases. destruct (decide (0 <= hex_digit_value (wraps 8 c))) as [Hd|Hd].
  { pose proof (hexit_char _ Hd). destruct Hch as [[_ Hch]|]; [|lia]. rewrite Hch in Hd. destruct (decide (length s = 4%nat)) as [E4|E4].
    { left. unfold outcome. cbn [pton6_loop]. rewrite Hch, (proj2 (Z.leb_le _ _)) by done. unfold reading. cbn [xdigits_seen]. by rewrite E4. }
    unfold outcome. rewrite loop_digit by (done || lia). change (c :: src) with ([c] ++ src). rewrite !(app_assoc s).
    apply IH; [done|done|by apply Forall_app; split; [|apply Forall_singleton]|rewrite length_app; cbn [length]; lia|done|by destruct s]. }
  destruct (decide (wraps 8 c = 58)) as [E58|E58].
  { apply (wrap_colon c Hc) in E58 as ->. clear Hd Hch. destruct (decide (s = [])) as [->|Hs0].
    { destruct cp as [k|]; [by left|]. right. right. split; [done|]. by exists ss, src. }
    assert (word s) as Hw by (split; [done|]; by destruct s; [|cbn in *; lia]). pose proof (words_bytes_length ss) as Hwl.
    unfold outcome. destruct (decide (src = [] ∨ (16 < length (l ++ words_bytes ss) + 2)%nat)) as [Hr|Hr]; [left; by rewrite loop_colon_rejects|].
    apply Decidable.not_or in Hr as [Hr1 Hr2]. rewrite length_app in Hr2. rewrite loop_colon by (done || (rewrite length_app; lia)).
    specialize (IH (ss ++ [s]) [] l cp Hb). unfold outcome_cases in IH. rewrite after_snoc, words_bytes_snoc, length_app in IH. cbn [app length] in IH. rewrite <- !app_assoc in IH. cbn [app] in IH.
    rewrite <- (app_assoc l). apply IH; [by apply Forall_app; split; [|apply Forall_singleton]|constructor|lia|lia|done]. }
  pose proof (words_bytes_length ss) as Hwl. destruct (decide (wraps 8 c ≠ 46 ∨ (16 < length (l ++ words_bytes ss) + 4)%nat)) as [Hr|Hr]; [left; unfold outcome; by rewrite loop_other|].
  apply Decidable.not_or in Hr as [Hr1%dec_stable Hr2]. rewrite length_app in Hr2. destruct Hch as [[_ Hch]|]; [|lia]. rewrite Hch in Hr1. subst c. clear Hch Hd E58.
  assert (bytes (s ++ 46 :: src)) as Hbt.
  { apply Forall_app. split; [|by apply Forall_cons]. eapply Forall_impl; [exact Hs|]. intros x Hx. pose proof (hexit_char x Hx). unfold is_byte. lia. }
  destruct (inet_pton4_ok (s ++ 46 :: src) (replicate 4 0) 0) as [(q & (Hbq & Hq & Eq) & _)|[Hno _]]; [done|lia|cbn; lia| |].
  - right. left. exists (words_bytes ss ++ q), (value s). rewrite Eq. split; [by constructor|]. split; [rewrite !length_app; lia|].
    unfold outcome. rewrite loop_dot by (done || (rewrite length_app; lia)). by rewrite <- app_assoc.
  - left. unfold outcome. rewrite loop_dot_rejects; [done|done|done|rewrite length_app; lia].
Qed.
End steps.

(** ** [inet_pton6] *)

Section pton6.
Context (dst : list Z) (Hdst : (16 <= length dst)%nat).
Set Default Proof Using "All".
Notation t0 := (replicate 16 0).
Notation at0 := (reading t0).
Notation run := (outcome dst).

(** Where the reading starts. *)
Lemma start_digit c r : 0 <= hex_digit_value c → inet_pton6 (c :: r) dst = run (c :: r) (c :: r) (at0 [] None []).
Proof. intros Hc. pose proof (hexit_char c Hc). unfold inet_pton6. rewrite low_char by lia. by rewrite (proj2 (Z.eqb_neq _ _)) by lia. Qed.

Lemma start_colons t : inet_pton6 (58 :: 58 :: t) dst = run t t (at0 [] (Some 0) []).
Proof. done. Qed.

Lemma inet_pton6_reads src a : ipv6_text src a → inet_pton6 src dst = Some (1, filled dst a).
Proof.
  assert (length t0 = 16%nat) as Ht0 by done. intros [t bs Ht Hl|ss t bs Hss Ht Hl].
  - destruct (tail_head t bs Ht) as (c & r & -> & Hc); [intros ->; cbn in Hl; lia|]. rewrite start_digit by done.
    destruct (tail_ok t0 Ht0 dst Hdst (c :: r) bs [] None Ht) as [x ->]; [cbn; lia|]. rewrite (finish_full t0 Ht0 dst Hdst) by (cbn; lia). cbn [app]. by rewrite decide_True by done.
  - assert (∀ l, l = words_bytes ss → run t t (at0 l (Some (len l)) []) = Some (1, filled dst (l ++ replicate (16 - length (l ++ bs)) 0 ++ bs))) as Hrun.
    { intros l ->. destruct (tail_ok t0 Ht0 dst Hdst t bs (words_bytes ss) (Some (len (words_bytes ss))) Ht) as [x ->]; [lia|].
      rewrite (finish_zeros t0 Ht0 dst Hdst) by lia. by rewrite decide_False by lia. }
    destruct ss as [|s ss]; [cbn [app]; rewrite start_colons; by apply (Hrun [])|].
    pose proof Hss as [Hs Hss']%Forall_cons.
    assert (∃ c r, after (s :: ss) ++ 58 :: t = c :: r ∧ 0 <= hex_digit_value c) as (c & r & E & Hc).
    { change (after (s :: ss)) with ((s ++ [58]) ++ after ss). rewrite <- !app_assoc. by apply word_head. }
    rewrite E, start_digit, <- E by done. unfold outcome. rewrite length_app, words_bytes_length in Hl. rewrite loop_after by (done || (cbn [length] in *; lia)).
    rewrite loop_zeros by done. by apply (Hrun (words_bytes (s :: ss))).
Qed.

(** Nothing else is read. *)
Lemma colons_sound t l : bytes t → (length l <= 16)%nat →
  run t t (at0 l (Some (len l)) []) = Some (0, dst) ∨ ∃ bs, tail t bs ∧ (length (l ++ bs) < 16)%nat.
Proof.
  intros Hb Hl. assert (length t0 = 16%nat) as Ht0 by done.
  pose proof (loop_cases t0 Ht0 dst Hdst t [] [] l (Some (len l)) Hb) as H. change (words_bytes []) with (@nil Z) in H. rewrite app_nil_r in H. cbn [app] in H.
  destruct H as [H|[(bs & x & Ht & Hlb & H)|[? _]]]; [constructor|constructor|cbn; lia|cbn [length]; lia|done|by left| |done].
  rewrite H, (finish_zeros t0 Ht0 dst Hdst) by done. destruct (decide _); [by left|]. right. exists bs. split; [done|lia].
Qed.

Lemma inet_pton6_sound src : bytes src → inet_pton6 src dst = Some (0, dst) ∨ ∃ a, ipv6_text src a.
Proof.
  intros Hb. assert (length t0 = 16%nat) as Ht0 by done. destruct src as [|c rest]; [by left|]. pose proof Hb as [Hc Hr]%Forall_cons.
  destruct (decide (wraps 8 c = 58)) as [E|E].
  - apply (wrap_colon c Hc) in E as ->. destruct rest as [|d rest]; [by left|]. apply Forall_cons in Hr as [Hd Hr]. destruct (decide (wraps 8 d = 58)) as [E|E].
    + apply (wrap_colon d Hd) in E as ->. rewrite start_colons. destruct (colons_sound rest [] Hr) as [H|(bs & Ht & Hl)]; [cbn; lia|by left|].
      right. eexists. by apply (text_zeros [] rest bs).
    + left. unfold inet_pton6. change (wraps 8 58 =? 58) with true. cbv iota. by rewrite (proj2 (Z.eqb_neq _ _)) by done.
  - assert (inet_pton6 (c :: rest) dst = run (c :: rest) (c :: rest) (at0 [] None [])) as ->.
    { unfold inet_pton6. by rewrite (proj2 (Z.eqb_neq _ _)) by done. }
    pose proof (loop_cases t0 Ht0 dst Hdst (c :: rest) [] [] [] None Hb) as H. change (words_bytes []) with (@nil Z) in H. cbn [app] in H.
    unfold outcome_cases in H. change (after []) with (@nil Z) in H. cbn [app] in H. destruct H as [H|[(bs & x & Ht & Hl & H)|(_ & ss & t & Hss & Ht & Et & Hl & H)]];
      [constructor|constructor|cbn; lia|cbn; lia|done|by left| |]; cbn [app] in *.
    + rewrite H, (finish_full t0 Ht0 dst Hdst) by done. destruct (decide _); [|by left]. right. exists bs. by constructor.
    + destruct ss as [|s ss]; [cbn in Et; by simplify_eq|]. cbn [length] in Hl. pose proof (words_bytes_length (s :: ss)) as Hwl. cbn [length] in Hwl.
      rewrite H. destruct (colons_sound t (words_bytes (s :: ss)) Ht) as [H'|(bs & Htl & Hlb)]; [lia|by left|].
      right. eexists. rewrite Et. by apply (text_zeros (s :: ss) t bs).
Qed.

Lemma inet_pton6_ok src : bytes src →
  (∃ a, ipv6_text src a ∧ inet_pton6 src dst = Some (1, filled dst a)) ∨ ((∀ a, ¬ ipv6_text src a) ∧ inet_pton6 src dst = Some (0, dst)).
Proof.
  intros Hb. destruct (inet_pton6_sound src Hb) as [H|[a Ha]]; [right|left; exists a; split; [done|by apply inet_pton6_reads]].
  split; [|done]. intros a Ha. apply inet_pton6_reads in Ha. congruence.
Qed.
End pton6.
