(* ===== verification/InetProps.v ===== *)
(** * InetProps: [inet_ntop] and [inet_pton] agree *)

From S2P Require Import Prelude Bytes Inet InetSpec InetPton.
Local Open Scope Z_scope.

(** ** The text [inet_ntop] writes follows the grammar *)

Definition unfields (ws : list Z) : list Z := concat ((λ w, [w / 256; w mod 256]) <$> ws).

Lemma unfields_fields src : bytes src → Nat.even (length src) = true → unfields (fields src) = src.
Proof.
  unfold bytes, is_byte. revert src. fix IH 1. intros [|a [|b src]] Hb He; [done..|]. apply Forall_cons in Hb as [Ha Hb]. apply Forall_cons in Hb as [Hb Hs].
  change (unfields (fields (a :: b :: src))) with ((a * 256 + b) / 256 :: (a * 256 + b) mod 256 :: unfields (fields src)).
  rewrite (IH src Hs He). do 2 f_equal; [|f_equal]; Z.to_euclidean_division_equations; lia.
Qed.

Lemma unfields_app ws vs : unfields (ws ++ vs) = unfields ws ++ unfields vs.
Proof. unfold unfields. by rewrite fmap_app, concat_app. Qed.

Lemma unfields_length ws : length (unfields ws) = (2 * length ws)%nat.
Proof. induction ws as [|w ws IH]; [done|]. change (unfields (w :: ws)) with ([w / 256; w mod 256] ++ unfields ws). rewrite length_app, IH. cbn [length]. lia. Qed.

Lemma unfields_zeros n : unfields (replicate n 0) = replicate (2 * n) 0.
Proof. induction n as [|n IH]; [done|]. replace (2 * S n)%nat with (S (S (2 * n))) by lia. cbn [replicate]. by rewrite <- IH. Qed.

Lemma hexd_value d : 0 <= d < 16 → hex_digit_value (hexd d) = d.
Proof.
  intros Hd. unfold hexd. destruct (d <? 10) eqn:E; zb; unfold hex_digit_value.
  - rewrite (proj2 (Z.leb_le _ _)), (proj2 (Z.leb_le _ _)) by lia. cbn [andb]. lia.
  - rewrite (proj2 (Z.leb_gt (87 + d) 57)) by lia. rewrite andb_false_r. rewrite (proj2 (Z.leb_le _ _)), (proj2 (Z.leb_le _ _)) by lia. cbn [andb]. lia.
Qed.

Lemma hex_word w : 0 <= w < 65536 → word (hex w) ∧ value (hex w) = w.
Proof.
  intros Hw. assert (∀ d, 0 <= d < 16 → 0 <= hex_digit_value (hexd d)) as Hd by (intros d Hd; rewrite hexd_value by done; lia).
  assert (0 <= w / 16 mod 16 < 16 ∧ 0 <= w / 256 mod 16 < 16 ∧ 0 <= w mod 16 < 16 ∧ 0 <= w / 4096 < 16 ∧
    w = ((w / 4096 * 16 + w / 256 mod 16) * 16 + w / 16 mod 16) * 16 + w mod 16) as (H1 & H2 & H3 & H4 & E) by (Z.to_euclidean_division_equations; lia).
  split; [split; [|pose proof (hex_length w); lia]|].
  - unfold hexits, hex. rewrite !Forall_app, Forall_singleton.
    destruct (4096 <=? w), (256 <=? w), (16 <=? w); rewrite ?Forall_singleton, ?Forall_nil; repeat split; by apply Hd.
  - assert (value (hex w) = ((if 4096 <=? w then w / 4096 else 0) * 16 + (if 256 <=? w then w / 256 mod 16 else 0)) * 256 + (if 16 <=? w then w / 16 mod 16 else 0) * 16 + w mod 16) as ->.
    { unfold hex. destruct (4096 <=? w) eqn:E1, (256 <=? w) eqn:E2, (16 <=? w) eqn:E3; zb; try lia; cbn [app]; unfold value; cbn [foldl]; rewrite !hexd_value by done; lia. }
    destruct (4096 <=? w) eqn:E1, (256 <=? w) eqn:E2, (16 <=? w) eqn:E3; zb; try lia; clear E; Z.to_euclidean_division_equations; lia.
Qed.

Definition field_range (ws : list Z) : Prop := Forall (λ w, 0 <= w < 65536) ws.

Lemma hex_words ws : field_range ws → Forall word (hex <$> ws) ∧ words_bytes (hex <$> ws) = unfields ws ∧ after (hex <$> ws) = closed ws.
Proof.
  unfold field_range. induction ws as [|w ws IH]; [by repeat constructor|]. intros [Hw Hws]%Forall_cons. destruct (IH Hws) as (H1 & H2 & H3). destruct (hex_word w Hw) as [Hh Hv].
  split_and!; [by constructor| |].
  - change (words_bytes (hex <$> w :: ws)) with (word_bytes (hex w) ++ words_bytes (hex <$> ws)). unfold word_bytes. by rewrite H2, Hv.
  - change (after (hex <$> w :: ws)) with ((hex w ++ [58]) ++ after (hex <$> ws)). by rewrite H3.
Qed.

Lemma join_tail ws : field_range ws → tail (join ws) (unfields ws).
Proof.
  unfold field_range. destruct ws as [|w ws _] using rev_ind; [constructor|]. intros [Hws Hw%Forall_inv]%Forall_app. destruct (hex_words ws Hws) as (H1 & H2 & H3), (hex_word w Hw) as [Hh Hv].
  rewrite join_closed, unfields_app, <- H2, <- H3. change (unfields [w]) with [w / 256; w mod 256]. rewrite <- Hv at 2 3. by constructor.
Qed.

Section text.
Context (src : list Z) (Hb : bytes src) (Hs : length src = 16%nat).
Set Default Proof Using "All".
Notation ws := (fields src).

Lemma src_fields : unfields ws = src.
Proof. apply unfields_fields; [done|by rewrite Hs]. Qed.

Lemma part_range n m : field_range (take n (drop m ws)).
Proof. apply Forall_take, Forall_drop. by apply fields_range. Qed.

(** The address around a run of zeros. *)
Lemma split_zeros b n : zeros src b n → (b + n <= 8)%nat →
  src = unfields (take b ws) ++ replicate (2 * n) 0 ++ unfields (drop (b + n) ws).
Proof.
  intros Hz Hbn. rewrite <- src_fields at 1. rewrite <- unfields_zeros, <- !unfields_app. f_equal.
  assert (replicate n 0 = take n (drop b ws)) as ->; [|by rewrite <- drop_drop, take_drop, take_drop].
  apply list_eq. intros j. pose proof (fields_length 8 src Hs) as Hl. destruct (decide (j < n)%nat).
  - rewrite lookup_replicate_2, lookup_take_lt, lookup_drop by done. symmetry. apply Hz. lia.
  - rewrite !lookup_ge_None_2; [done|rewrite length_take; lia|rewrite length_replicate; lia].
Qed.

Lemma drop_quad : drop 12 src = unfields (drop 6 ws).
Proof.
  pose proof src_fields as E. rewrite <- (take_drop 6 ws), unfields_app in E. rewrite <- E at 1.
  rewrite drop_app_length' ; [done|]. rewrite unfields_length, length_take, (fields_length 8 src Hs). done.
Qed.

Lemma text6_tail best b n : chosen src best → base best = Z.of_nat b → len_ best = Z.of_nat n → ∃ t,
  text6 src best = (match take b ws with [] => [58] | _ => closed (take b ws) end) ++ 58 :: t ∧ tail t (unfields (drop (b + n) ws)) ∧ (2 <= n)%nat ∧ (b + n <= 8)%nat ∧ zeros src b n.
Proof.
  intros (Hr & Hz & _) E1 E2. assert (base best ≠ -1) as Hne by lia. destruct Hr as [?|(_ & H2 & H8)]; [done|]. specialize (Hz Hne). rewrite E1, E2, !Nat2Z.id in Hz.
  unfold text6. rewrite (proj2 (Z.eqb_neq _ _)) by done. destruct (embedded src best) eqn:Hem.
  - unfold embedded in Hem. apply andb_true_iff in Hem as [E0%Z.eqb_eq H56]. assert (b = 0%nat) as -> by lia. rewrite take_0. cbn [app].
    assert (bytes (drop 12 src) ∧ length (drop 12 src) = 4%nat) as [Hbq Hq] by (split; [by apply Forall_drop|rewrite length_drop; lia]).
    destruct (len_ best =? 6) eqn:E6; zb.
    + assert (n = 6%nat) as -> by lia. eexists. split; [done|]. change (0 + 6)%nat with 6%nat. rewrite <- drop_quad. split; [|repeat split; try lia; done]. by apply (tail_quad []).
    + cbn [orb] in H56. apply andb_true_iff in H56 as [E5%Z.eqb_eq Ew%Z.eqb_eq]. assert (n = 5%nat) as -> by lia. exists (after [hex 65535] ++ quad_text (drop 12 src)). split; [done|]. split; [|repeat split; try lia; done].
      destruct (lookup_lt_is_Some_2 ws 5) as [w Hw]; [rewrite (fields_length 8 src Hs); lia|]. rewrite Hw in Ew. cbn in Ew. subst w.
      change (0 + 5)%nat with 5%nat. rewrite (drop_S _ _ _ Hw). change (unfields (65535 :: drop 6 ws)) with (words_bytes [hex 65535] ++ unfields (drop 6 ws)).
      rewrite <- drop_quad. 
      apply tail_quad; [|done|done]. apply Forall_singleton. by apply hex_word.
  - exists (join (drop (b + n) ws)). split; [|split; [|repeat split; try lia; done]].
    + by rewrite E1, E2, <- Nat2Z.inj_add, !Nat2Z.id.
    + apply join_tail. rewrite <- (take_ge (drop (b + n) ws) 8); [apply part_range|]. rewrite length_drop, (fields_length 8 src Hs). lia.
Qed.

Lemma text6_reads best : chosen src best → ipv6_text (text6 src best) src.
Proof.
  intros Hch. pose proof (fields_length 8 src Hs) as Hl. destruct (decide (base best = -1)) as [E|E].
  - unfold text6. rewrite E. change (-1 =? -1) with true. cbv iota. apply text_full; [|done]. rewrite <- src_fields at 2. apply join_tail.
    rewrite <- (take_ge ws 8), <- (drop_0 ws) by lia. apply part_range.
  - destruct Hch as [Hr H]. pose proof Hr as [?|(Hb0 & H2 & H8)]; [done|]. destruct (text6_tail best (Z.to_nat (base best)) (Z.to_nat (len_ best))) as (t & -> & Ht & Hn & Hbn & Hz); [done|lia|lia|].
    set (b := Z.to_nat (base best)) in *. set (n := Z.to_nat (len_ best)) in *. pose proof (split_zeros b n Hz Hbn) as Es.
    pose proof (part_range b 0) as Hp. rewrite drop_0 in Hp. destruct (hex_words _ Hp) as (H1 & H2' & H3).
    assert (length (unfields (take b ws) ++ unfields (drop (b + n) ws)) = 16 - 2 * n)%nat as Hlen.
    { rewrite length_app, !unfields_length, length_take, length_drop, Hl. lia. }
    pose proof (text_zeros (hex <$> take b ws) t _ H1 Ht) as Hg. rewrite H2', H3, Hlen in Hg. specialize (Hg ltac:(lia)).
    replace (16 - (16 - 2 * n))%nat with (2 * n)%nat in Hg by lia. rewrite <- Es in Hg. by destruct (take b ws).
Qed.
End text.

(** ** Characters *)

Definition printable (s : list Z) : Prop := Forall (λ c, 0 < c < 128) s.

Lemma printable_string s : printable s → bytes s ∧ Forall (λ c, c ≠ 0) s.
Proof. intros H. split; (eapply Forall_impl; [exact H|]); cbn; unfold is_byte; lia. Qed.

Lemma dec_printable w : is_byte w → printable (dec w).
Proof. intros Hw. destruct (dec_word w Hw) as [H _]. eapply Forall_impl; [exact H|]. intros c Hc%hexit_char. lia. Qed.

Lemma quad_printable q : bytes q → printable (quad_text q).
Proof.
  destruct q as [|a [|b [|c [|d [|? ?]]]]]; try (intros; constructor; fail). unfold bytes. rewrite !Forall_cons. intros (Ha & Hb & Hc & Hd & _).
  cbn [quad_text]. unfold printable. repeat (rewrite Forall_app || rewrite Forall_cons). repeat split; try lia; by apply dec_printable.
Qed.

Lemma word_printable s : word s → printable s.
Proof. intros [H _]. eapply Forall_impl; [exact H|]. intros c Hc%hexit_char. lia. Qed.

Lemma after_printable ss : Forall word ss → printable (after ss).
Proof.
  induction ss as [|s ss IH]; [constructor|]. intros [Hs Hss]%Forall_cons. change (after (s :: ss)) with ((s ++ [58]) ++ after ss).
  apply Forall_app. split; [apply Forall_app; split; [by apply word_printable|apply Forall_singleton; lia]|by apply IH].
Qed.

Lemma tail_printable t bs : tail t bs → printable t.
Proof.
  intros [|ss s Hss Hs|ss q Hss Hb Hq]; [constructor| |]; (apply Forall_app; split; [by apply after_printable|]); [by apply word_printable|by apply quad_printable].
Qed.

Lemma ipv6_printable t a : ipv6_text t a → printable t.
Proof.
  intros [t' bs Ht Hl|ss t' bs Hss Ht Hl]; [by eapply tail_printable|]. apply Forall_app. split.
  - destruct ss; [apply Forall_singleton; lia|by apply after_printable].
  - apply Forall_cons. split; [lia|]. by eapply tail_printable.
Qed.

(** The string in a buffer. *)
Lemma string_chars_ok s r : Forall (λ c, c ≠ 0) s → string_chars (s ++ 0 :: r) = Some s.
Proof.
  intros Hs. unfold string_chars. pose proof (text_strlen_ok [] s r Hs) as E. cbn [app length] in E. change (Z.of_nat 0) with 0 in E. rewrite E. cbn [mbind option_bind].
  by rewrite Nat2Z.id, take_app_length.
Qed.

(** ** The functions of the interface *)

(** An address family, its addresses and the longest text. *)
Definition known (af : Z) : Prop := af = AF_INET ∨ af = AF_INET6.
Definition addr_size (af : Z) : nat := if af =? AF_INET then 4 else 16.
Definition addr_strlen (af : Z) : Z := if af =? AF_INET then INET_ADDRSTRLEN else INET6_ADDRSTRLEN.
Definition address_text (af : Z) : list Z → list Z → Prop := if af =? AF_INET then ipv4_text else ipv6_text.

(** The text for an address: for IPv6, with the longest run of zeros abbreviated. *)
Definition ntop_text (af : Z) (src text : list Z) : Prop :=
  if af =? AF_INET then text = quad_text src else ∃ best, chosen src best ∧ text = text6 src best.

Lemma ntop_text_reads af src text : bytes src → length src = addr_size af → ntop_text af src text → address_text af text src ∧ printable text.
Proof.
  unfold addr_size, ntop_text, address_text. intros Hb Hl. destruct (af =? AF_INET).
  - intros ->. split; [done|by apply quad_printable].
  - intros (best & Hch & ->). pose proof (text6_reads src Hb Hl best Hch) as H. split; [done|by eapply ipv6_printable].
Qed.

Lemma inet_ntop_ok af src dst size : known af → bytes src → length src = addr_size af → size <= len dst →
  ∃ text, ntop_text af src text ∧ len text < addr_strlen af ∧ inet_ntop af src dst size = Some (stored dst size text).
Proof.
  unfold addr_size, ntop_text, addr_strlen, inet_ntop. intros [->| ->] Hb Hl Hsz; cbn in Hl.
  - exists (quad_text src). split; [done|]. pose proof (quad_length src). split; [cbn; unfold INET_ADDRSTRLEN; lia|]. by apply inet_ntop4_ok.
  - destruct (inet_ntop6_ok src Hb Hl dst size Hsz) as (best & Hch & E). exists (text6 src best). split; [by exists best|].
    pose proof (text6_length src best Hl (proj1 Hch)). split; [cbn; unfold INET6_ADDRSTRLEN; lia|done].
Qed.

Lemma inet_pton_ok af s r dst : known af → bytes s → Forall (λ c, c ≠ 0) s → (addr_size af <= length dst)%nat →
  (∃ a, address_text af s a ∧ inet_pton af (s ++ 0 :: r) dst = Some (1, filled dst a, None)) ∨
  ((∀ a, ¬ address_text af s a) ∧ inet_pton af (s ++ 0 :: r) dst = Some (0, dst, None)).
Proof.
  intros Ha Hb Hs Hd. unfold inet_pton. rewrite string_chars_ok by done. cbn [mbind option_bind]. unfold inet_pton_length, address_text, addr_size in *.
  destruct Ha as [->| ->]; cbn in Hd |- *.
  - destruct (inet_pton4_ok s dst 0 Hb) as [(q & Hq & E)|[Hno E]]; [lia|lia|left|right]; [|by rewrite E]. exists q. by rewrite E.
  - destruct (inet_pton6_ok dst Hd s Hb) as [(q & Hq & E)|[Hno E]]; [left|right]; [|by rewrite E]. exists q. by rewrite E.
Qed.

Lemma inet_pton_reads af s a r dst : known af → address_text af s a → Forall (λ c, c ≠ 0) s → (addr_size af <= length dst)%nat →
  inet_pton af (s ++ 0 :: r) dst = Some (1, filled dst a, None).
Proof.
  intros Ha Ht Hs Hd. unfold inet_pton. rewrite string_chars_ok by done. cbn [mbind option_bind]. unfold inet_pton_length, address_text, addr_size in *.
  destruct Ha as [->| ->]; cbn in Hd, Ht |- *.
  - destruct Ht as (Hb & Hl & ->). by rewrite inet_pton4_reads by (done || lia).
  - by rewrite (inet_pton6_reads dst Hd s a Ht).
Qed.

(** ** Properties *)

(** C36. [inet_ntop] writes the text of the address (for IPv6 with the longest run of two zero
    fields or more abbreviated, and the last 32 bits as an IPv4 address where that is the
    custom) and a NUL if they fit in [size]; otherwise it fails with [ENOSPC] and leaves the
    buffer as it was.  The text always fits in [INET_ADDRSTRLEN] or [INET6_ADDRSTRLEN]. *)
Theorem inet_ntop_stores af src dst size : known af → bytes src → length src = addr_size af → size <= len dst →
  ∃ text, ntop_text af src text ∧ len text < addr_strlen af ∧ inet_ntop af src dst size = Some (stored dst size text).
Proof. apply inet_ntop_ok. Qed.

Lemma inet_ntop_stores_witness : inet_ntop AF_INET6 ([32; 1] ++ replicate 13 0 ++ [1]) (replicate 46 7) 7 = Some (replicate 46 7, Some ENOSPC) ∧
  ∃ text, ntop_text AF_INET6 ([32; 1] ++ replicate 13 0 ++ [1]) text ∧ len text < addr_strlen AF_INET6 ∧
    inet_ntop AF_INET6 ([32; 1] ++ replicate 13 0 ++ [1]) (replicate 46 7) 7 = Some (stored (replicate 46 7) 7 text).
Proof.
  split; [by vm_compute|]. apply (inet_ntop_stores AF_INET6); [by right| |done|by vm_compute].
  repeat (apply Forall_cons; split; [unfold is_byte; lia|]). constructor.
Defined.

(** C35. What [inet_ntop] writes, [inet_pton] reads back: the same address. *)
Theorem inet_roundtrip af src dst size text dst2 : known af → bytes src → length src = addr_size af → size <= len dst →
  inet_ntop af src dst size = Some (text, None) → (addr_size af <= length dst2)%nat →
  inet_pton af text dst2 = Some (1, filled dst2 src, None).
Proof.
  intros Ha Hb Hl Hsz E Hd. destruct (inet_ntop_ok af src dst size Ha Hb Hl Hsz) as (s & Hs & _ & E'). rewrite E in E'. unfold stored in E'.
  destruct (len s + 1 <=? size); simplify_eq. destruct (ntop_text_reads af src s Hb Hl Hs) as [Ht Hp]. unfold filled at 1. rewrite <- app_assoc. cbn [app].
  apply inet_pton_reads; [done|done|by apply printable_string|done].
Qed.

Lemma inet_roundtrip_witness :
  inet_pton AF_INET6 (filled (replicate 46 7) (str "::ffff:192.0.2.1" ++ [0])) (replicate 16 9) = Some (1, filled (replicate 16 9) (replicate 10 0 ++ [255; 255; 192; 0; 2; 1]), None).
Proof.
  apply (inet_roundtrip AF_INET6 (replicate 10 0 ++ [255; 255; 192; 0; 2; 1]) (replicate 46 7) 46); [by right| |done|done|by vm_compute|cbn; lia].
  repeat (apply Forall_cons; split; [unfold is_byte; lia|]). constructor.
Defined.

(** C34. [inet_pton] accepts exactly the texts of the grammar (four decimal bytes without
    leading zeros; words of one to four hexadecimal digits, at most one pair of colons, which
    stands for two bytes or more, and perhaps an IPv4 address at the end) and stores the
    address they denote; it rejects every other string and then leaves the destination as it
    was. *)
Theorem inet_pton_exact af s r dst : known af → bytes s → Forall (λ c, c ≠ 0) s → (addr_size af <= length dst)%nat →
  (∃ a, address_text af s a ∧ inet_pton af (s ++ 0 :: r) dst = Some (1, filled dst a, None)) ∨
  ((∀ a, ¬ address_text af s a) ∧ inet_pton af (s ++ 0 :: r) dst = Some (0, dst, None)).
Proof. apply inet_pton_ok. Qed.

Lemma inet_pton_exact_witness : inet_pton AF_INET (str "10.0.0.256" ++ [0]) (replicate 4 9) = Some (0, replicate 4 9, None) ∧
  ((∃ a, address_text AF_INET (str "10.0.0.256") a ∧ inet_pton AF_INET (str "10.0.0.256" ++ [0]) (replicate 4 9) = Some (1, filled (replicate 4 9) a, None)) ∨
   ((∀ a, ¬ address_text AF_INET (str "10.0.0.256") a) ∧ inet_pton AF_INET (str "10.0.0.256" ++ [0]) (replicate 4 9) = Some (0, replicate 4 9, None))).
Proof.
  split; [by vm_compute|]. apply (inet_pton_exact AF_INET); [by left| | |cbn; lia].
  - unfold bytes, is_byte. apply (bool_decide_unpack _). by vm_compute.
  - apply (bool_decide_unpack _). by vm_compute.
Defined.
