(* ===== verification/Calendar.v ===== *)
(** * Calendar: time/offtime.c, time/gmtime.c, time/mktime.c and time/timegm.c

    Times are seconds since 1970 in 64 bits.  A division of the source is [Z.quot], a
    remainder [Z.rem]; what is stored in a variable is reduced to its width.  The conversion
    that [mktime] inverts, a pointer to a function in the source, is a parameter: it has no
    result if it runs out of fuel, an error is a null pointer with that [errno], and it fills
    the whole of [*tp]. *)

From S2P Require Import Prelude.
Local Open Scope Z_scope.

(** [tm_zone], which is not looked at, is left out. *)
Record tm := Tm {
  tm_sec : Z; tm_min : Z; tm_hour : Z; tm_mday : Z; tm_mon : Z; tm_year : Z; tm_wday : Z; tm_yday : Z; tm_isdst : Z; tm_gmtoff : Z }.

Inductive error := EOVERFLOW | other_error.

Definition SECS_PER_HOUR : Z := 60 * 60.
Definition SECS_PER_DAY : Z := SECS_PER_HOUR * 24.

Definition isleap (year : Z) : bool := (Z.rem year 4 =? 0) && (negb (Z.rem year 100 =? 0) || (Z.rem year 400 =? 0)).

Definition mon_yday (leap : bool) : list Z :=
  if leap then [0; 31; 60; 91; 121; 152; 182; 213; 244; 274; 305; 335; 366] else [0; 31; 59; 90; 120; 151; 181; 212; 243; 273; 304; 334; 365].

Definition DIV (a b : Z) : Z := Z.quot a b - Z.b2z (Z.rem a b <? 0).
Definition LEAPS_THRU_END_OF (y : Z) : Z := DIV y 4 - DIV y 100 + DIV y 400.

(** ** From a time to a date *)

Fixpoint rem_up (fuel : nat) (days rem : Z) : option (Z * Z) :=
  match fuel with
  | O => None
  | S fuel => if rem <? 0 then rem_up fuel (days - 1) (rem + SECS_PER_DAY) else Some (days, rem)
  end.

Fixpoint rem_down (fuel : nat) (days rem : Z) : option (Z * Z) :=
  match fuel with
  | O => None
  | S fuel => if SECS_PER_DAY <=? rem then rem_down fuel (days + 1) (rem - SECS_PER_DAY) else Some (days, rem)
  end.

Fixpoint year_loop (fuel : nat) (days y : Z) : option (Z * Z) :=
  match fuel with
  | O => None
  | S fuel =>
      if (days <? 0) || ((if isleap y then 366 else 365) <=? days) then
        let yg := i64 (y + Z.quot days 365 - Z.b2z (Z.rem days 365 <? 0)) in
        let days := i64 (days - ((yg - y) * 365 + LEAPS_THRU_END_OF (yg - 1) - LEAPS_THRU_END_OF (y - 1))) in
        year_loop fuel days yg
      else Some (days, y)
  end.

(** The last index not above [y] whose entry is not above [days]. *)
Fixpoint month_loop (y : nat) (days : Z) (ip : list Z) : option nat :=
  v ← ip !! y;
  if days <? v then match y with O => None | S y => month_loop y days ip end else Some y.

(** The value returned and [*tp]. *)
Definition offtime (fuel : nat) (t offset : Z) (tp : tm) : option (bool * tm) :=
  let days := Z.quot t SECS_PER_DAY in
  let rem := i64 (Z.rem t SECS_PER_DAY + offset) in
  '(days, rem) ← rem_up fuel days rem;
  '(days, rem) ← rem_down fuel days rem;
  let hour := Z.quot rem SECS_PER_HOUR in
  let rem := Z.rem rem SECS_PER_HOUR in
  let min := Z.quot rem 60 in
  let sec := Z.rem rem 60 in
  let wday := Z.rem (4 + days) 7 in
  let wday := if wday <? 0 then wday + 7 else wday in
  '(days, y) ← year_loop fuel days 1970;
  let year := i32 (y - 1900) in
  if negb (year =? y - 1900) then
    Some (false, Tm sec min hour (tm_mday tp) (tm_mon tp) year wday (tm_yday tp) (tm_isdst tp) (tm_gmtoff tp))
  else
    let yday := days in
    let ip := mon_yday (isleap y) in
    mon ← month_loop 11 days ip;
    v ← ip !! mon;
    Some (true, Tm sec min hour (days - v + 1) (Z.of_nat mon) year wday yday (tm_isdst tp) (tm_gmtoff tp)).

(** The rounds of the loops that are enough when there is no offset. *)
Definition FUEL : nat := 64.

(** [__tz_convert] for UTC, without a table of leap seconds: [*tp], or no result. *)
Definition tz_convert_utc (timer : Z) (tp : tm) : option (error + tm) :=
  '(ok, tp) ← offtime FUEL timer 0 tp;
  if (ok : bool) then
    let tp := Tm (tm_sec tp) (tm_min tp) (tm_hour tp) (tm_mday tp) (tm_mon tp) (tm_year tp) (tm_wday tp) (tm_yday tp) 0 0 in
    '(ok, tp) ← offtime FUEL timer (tm_gmtoff tp - 0) tp;
    if (ok : bool) then
      Some (inr (Tm (tm_sec tp + 0) (tm_min tp) (tm_hour tp) (tm_mday tp) (tm_mon tp) (tm_year tp) (tm_wday tp) (tm_yday tp) (tm_isdst tp) (tm_gmtoff tp)))
    else Some (inl EOVERFLOW)
  else Some (inl EOVERFLOW).

Definition gmtime_r (t : Z) (tp : tm) : option (error + tm) := tz_convert_utc t tp.

(** ** From a date to a time *)

Definition mktime_min : Z := - 2 ^ 63.
Definition mktime_max : Z := 2 ^ 63 - 1.
Definition EPOCH_YEAR : Z := 1970.
Definition TM_YEAR_BASE : Z := 1900.

Definition shr (a b : Z) : Z := Z.shiftr a b.

(** Is [year + TM_YEAR_BASE] a leap year? *)
Definition leapyear (year : Z) : bool :=
  (Z.land year 3 =? 0) && (negb (Z.rem year 100 =? 0) || (Z.land (Z.quot year 100) 3 =? Z.land (- Z.quot TM_YEAR_BASE 100) 3)).

Definition isdst_differ (a b : Z) : bool := xorb (a =? 0) (b =? 0) && (0 <=? a) && (0 <=? b).

Definition ydhms_diff (year1 yday1 hour1 min1 sec1 year0 yday0 hour0 min0 sec0 : Z) : Z :=
  let a4 := i32 (shr year1 2 + shr TM_YEAR_BASE 2 - Z.b2z (Z.land year1 3 =? 0)) in
  let b4 := i32 (shr year0 2 + shr TM_YEAR_BASE 2 - Z.b2z (Z.land year0 3 =? 0)) in
  let a100 := i32 (Z.quot (a4 + Z.b2z (a4 <? 0)) 25 - Z.b2z (a4 <? 0)) in
  let b100 := i32 (Z.quot (b4 + Z.b2z (b4 <? 0)) 25 - Z.b2z (b4 <? 0)) in
  let a400 := i32 (shr a100 2) in
  let b400 := i32 (shr b100 2) in
  let intervening_leap_days := i32 ((a4 - b4) - (a100 - b100) + (a400 - b400)) in
  let years := i64 (year1 - year0) in
  let days := i64 (365 * years + yday1 - yday0 + intervening_leap_days) in
  let hours := i64 (24 * days + hour1 - hour0) in
  let minutes := i64 (60 * hours + min1 - min0) in
  i64 (60 * minutes + sec1 - sec0).

Definition long_int_avg (a b : Z) : Z := shr a 1 + shr b 1 + Z.land (Z.lor a b) 1.

Definition tm_diff (year yday hour min sec : Z) (tp : tm) : Z :=
  ydhms_diff year yday hour min sec (tm_year tp) (tm_yday tp) (tm_hour tp) (tm_min tp) (tm_sec tp).

Section mktime.
Context (convert : Z → option (error + tm)).

Definition convert_time (t : Z) : option (error + tm) := convert (i64 t).

(** The binary search: [ok], and what was converted there. *)
Fixpoint narrow (fuel : nat) (ok bad : Z) (oktm : option tm) : option (error + (Z * option tm)) :=
  match fuel with
  | O => None
  | S fuel =>
      let mid := long_int_avg ok bad in
      if (mid =? ok) || (mid =? bad) then Some (inr (ok, oktm))
      else
        r ← convert_time mid;
        match r with
        | inr tp => narrow fuel mid bad (Some tp)
        | inl EOVERFLOW => narrow fuel ok mid oktm
        | inl e => Some (inl e)
        end
  end.

(** The new [*t] and [*tp]; when the search finds no time, [errno] is still that of the last
    conversion. *)
Definition ranged_convert (t : Z) : option (error + (Z * tm)) :=
  let t1 := if t <? mktime_min then mktime_min else if t <=? mktime_max then t else mktime_max in
  r ← convert_time t1;
  match r with
  | inr tp => Some (inr (t1, tp))
  | inl EOVERFLOW =>
      r ← narrow 66 0 t1 None;
      match r with
      | inl e => Some (inl e)
      | inr (ok, Some oktm) => if tm_sec oktm <? 0 then Some (inl EOVERFLOW) else Some (inr (ok, oktm))
      | inr (ok, None) => Some (inl EOVERFLOW)
      end
  | inl e => Some (inl e)
  end.

(** How the loop over the probes ends. *)
Inductive probe := Match (t : Z) (tp : tm) | Oscillation (t : Z) (tp : tm) | Failure (e : error).

Section request.
Context (year yday hour min sec isdst : Z).

Fixpoint probes (remaining : nat) (t t1 t2 dst2 : Z) : option probe :=
  match remaining with
  | O => None
  | S remaining =>
      r ← ranged_convert t;
      match r with
      | inl e => Some (Failure e)
      | inr (t, tp) =>
          let dt := tm_diff year yday hour min sec tp in
          if dt =? 0 then Some (Match t tp)
          else if (t =? t1) && negb (t =? t2) &&
                  ((tm_isdst tp <? 0) ||
                   (if isdst <? 0 then dst2 <=? Z.b2z (negb (tm_isdst tp =? 0)) else xorb (negb (isdst =? 0)) (negb (tm_isdst tp =? 0)))) then
            Some (Oscillation t tp)
          else
            match remaining with
            | O => Some (Failure EOVERFLOW)
            | _ => probes remaining (i64 (t + dt)) t2 t (Z.b2z (negb (tm_isdst tp =? 0)))
            end
      end
  end.

Definition stride : Z := 601200.
Definition duration_max : Z := 457243209.
Definition delta_bound : Z := Z.quot duration_max 2 + stride.

(** One probe for the [tm_isdst] that is wanted: [None] inside when the search goes on. *)
Definition dst_probe (t delta direction : Z) : option (option (error + (Z * tm))) :=
  let ot := t + delta * direction in
  if negb (i64 ot =? ot) then Some None
  else
    r ← ranged_convert ot;
    match r with
    | inl e => Some (Some (inl e))
    | inr (ot, otm) =>
        if isdst_differ isdst (tm_isdst otm) then Some None
        else
          let gt := i64 (ot + tm_diff year yday hour min sec otm) in
          if (mktime_min <=? gt) && (gt <=? mktime_max) then
            r ← convert_time gt;
            match r with
            | inr tp => Some (Some (inr (gt, tp)))
            | inl EOVERFLOW => Some None
            | inl e => Some (Some (inl e))
            end
          else Some None
    end.

Fixpoint dst_search (fuel : nat) (t delta : Z) : option (option (error + (Z * tm))) :=
  match fuel with
  | O => None
  | S fuel =>
      if delta <? delta_bound then
        r ← dst_probe t delta (-1);
        match r with
        | Some r => Some (Some r)
        | None =>
            r ← dst_probe t delta 1;
            match r with
            | Some r => Some (Some r)
            | None => dst_search fuel t (delta + stride)
            end
        end
      else Some None
  end.

(** A match with the wrong [tm_isdst]. *)
Definition wrong_dst (t : Z) (tp : tm) : option (error + (Z * tm)) :=
  let dst_difference := Z.b2z (isdst =? 0) - Z.b2z (tm_isdst tp =? 0) in
  r ← dst_search 400 t stride;
  match r with
  | Some r => Some r
  | None =>
      let t := i64 (t + 60 * 60 * dst_difference) in
      if (mktime_min <=? t) && (t <=? mktime_max) then
        r ← convert_time t;
        match r with
        | inr tp => Some (inr (t, tp))
        | inl _ => Some (inl EOVERFLOW)
        end
      else Some (inl EOVERFLOW)
  end.

(** What is done at [offset_found]: the result, and [*offset]. *)
Definition offset_found (t0 negative_offset_guess sec_requested t : Z) (tp : tm) : option ((error + (Z * tm)) * Z) :=
  let offset := i64 (t - t0) in
  let offset := i64 (offset - negative_offset_guess) in
  if negb (sec_requested =? tm_sec tp) then
    let sec_adjustment := Z.b2z ((sec =? 0) && (tm_sec tp =? 60)) - sec + sec_requested in
    let t' := t + sec_adjustment in
    if negb (i64 t' =? t') || negb ((mktime_min <=? t') && (t' <=? mktime_max)) then Some (inl EOVERFLOW, offset)
    else
      r ← convert_time t';
      match r with
      | inr tp => Some (inr (t', tp), offset)
      | inl e => Some (inl e, offset)
      end
  else Some (inr (t, tp), offset).
End request.

(** The result with the new [*tp], or an error, and [*offset]. *)
Definition mktime_internal (tp : tm) (offset : Z) : option ((error + (Z * tm)) * Z) :=
  let min := tm_min tp in
  let hour := tm_hour tp in
  let isdst := tm_isdst tp in
  let mon_remainder := Z.rem (tm_mon tp) 12 in
  let negative_mon_remainder := Z.b2z (mon_remainder <? 0) in
  let mon_years := Z.quot (tm_mon tp) 12 - negative_mon_remainder in
  let year := i64 (tm_year tp + mon_years) in
  v ← mon_yday (leapyear year) !! Z.to_nat (mon_remainder + 12 * negative_mon_remainder);
  let yday := i64 (v - 1 + tm_mday tp) in
  let negative_offset_guess := i32 (0 - offset) in
  let sec_requested := tm_sec tp in
  let sec := if sec_requested <? 0 then 0 else sec_requested in
  let sec := if 59 <? sec then 59 else sec in
  let t0 := ydhms_diff year yday hour min sec (EPOCH_YEAR - TM_YEAR_BASE) 0 0 0 negative_offset_guess in
  let found := offset_found sec t0 negative_offset_guess sec_requested in
  r ← probes year yday hour min sec isdst 6 t0 t0 t0 0;
  match r with
  | Failure e => Some (inl e, offset)
  | Oscillation t tm => found t tm
  | Match t tm =>
      if isdst_differ isdst (tm_isdst tm) then
        r ← wrong_dst year yday hour min sec isdst t tm;
        match r with
        | inl e => Some (inl e, offset)
        | inr (t, tm) => found t tm
        end
      else found t tm
  end.
End mktime.

(** The result and the static [gmtime_offset]. *)
Definition timegm (tmp : tm) (gmtime_offset : Z) : option ((error + (Z * tm)) * Z) :=
  let tmp := Tm (tm_sec tmp) (tm_min tmp) (tm_hour tmp) (tm_mday tmp) (tm_mon tmp) (tm_year tmp) (tm_wday tmp) (tm_yday tmp) 0 (tm_gmtoff tmp) in
  mktime_internal (λ t, gmtime_r t tmp) tmp gmtime_offset.
