(* ===== verification/CalendarSpec.v ===== *)
(** * CalendarSpec: the Gregorian calendar, and that [offtime] computes it *)

From S2P Require Import Prelude Calendar.
Local Open Scope Z_scope.

(** ** The calendar *)

Definition leap_year (y : Z) : bool := (y mod 4 =? 0) && (negb (y mod 100 =? 0) || (y mod 400 =? 0)).
Definition year_days (y : Z) : Z := if leap_year y then 366 else 365.
Definition month_days (leap : bool) : list Z := [31; if leap then 29 else 28; 31; 30; 31; 30; 31; 31; 30; 31; 30; 31].
Definition month_start (leap : bool) (mon : nat) : Z := foldr Z.add 0 (take mon (month_days leap)).

(** The day a year starts with, counted from the first of January 1970. *)
Definition gregorian (first_day : Z → Z) : Prop := first_day 1970 = 0 ∧ ∀ y, first_day (y + 1) = first_day y + year_days y.

Definition leaps (y : Z) : Z := y / 4 - y / 100 + y / 400.
Definition new_year (y : Z) : Z := 365 * (y - 1970) + leaps (y - 1) - leaps 1969.

Lemma leaps_next y : leaps (y + 1) = leaps y + Z.b2z (leap_year (y + 1)).
Proof.
  unfold leaps, leap_year. assert (∀ k, 0 < k → (y + 1) / k = y / k + Z.b2z ((y + 1) mod k =? 0)) as H.
  { intros k Hk. destruct ((y + 1) mod k =? 0) eqn:E; zb; cbn [Z.b2z]; Z.to_euclidean_division_equations; nia. }
  rewrite !H by lia. assert ((y + 1) mod 100 = 0 → (y + 1) mod 4 = 0) as H1 by (Z.to_euclidean_division_equations; lia).
  assert ((y + 1) mod 400 = 0 → (y + 1) mod 100 = 0) as H2 by (Z.to_euclidean_division_equations; lia).
  destruct ((y + 1) mod 4 =? 0) eqn:E1, ((y + 1) mod 100 =? 0) eqn:E2, ((y + 1) mod 400 =? 0) eqn:E3; zb; cbn [Z.b2z negb andb orb]; try lia; exfalso; auto.
Qed.

Lemma new_year_gregorian : gregorian new_year.
Proof.
  split; [done|]. intros y. unfold new_year. replace (y + 1 - 1) with (y - 1 + 1) by lia. rewrite leaps_next. replace (y - 1 + 1) with y by lia.
  unfold year_days. destruct (leap_year y); cbn [Z.b2z]; lia.
Qed.

Lemma gregorian_unique f y : gregorian f → f y = new_year y.
Proof.
  intros [H0 Hf]. destruct new_year_gregorian as [E0 Hn]. revert y. apply (Z.bi_induction _).
  - intros ? ? ->. done.
  - assert (∀ n : nat, f (1970 - Z.of_nat n) = new_year (1970 - Z.of_nat n)) as Hd.
    { induction n as [|n IH]; [change (Z.of_nat 0) with 0; by rewrite Z.sub_0_r, H0|]. specialize (Hf (1970 - Z.of_nat (S n))). specialize (Hn (1970 - Z.of_nat (S n))).
      replace (1970 - Z.of_nat (S n) + 1) with (1970 - Z.of_nat n) in Hf, Hn by lia. lia. }
    by apply (Hd 1970%nat).
  - intros y. specialize (Hf y). specialize (Hn y). rewrite Z.add_1_r in Hf, Hn. lia.
Qed.

(** Between two years there is a leap year every fourth year at most. *)
Lemma leaps_between y n : 0 <= n → 0 <= leaps (y + n) - leaps y <= (n + 3) / 4.
Proof. intros Hn. unfold leaps. Z.to_euclidean_division_equations. lia. Qed.

Lemma year_days_range y : 365 <= year_days y <= 366.
Proof. unfold year_days. destruct (leap_year y); lia. Qed.

Lemma new_year_mono x y : x <= y → new_year x <= new_year y.
Proof. intros H. unfold new_year. pose proof (leaps_between (x - 1) (y - x)). replace (x - 1 + (y - x)) with (y - 1) in * by lia. lia. Qed.

(** ** The definitions of the source *)

Lemma rem_zero a b : b ≠ 0 → (Z.rem a b =? 0) = (a mod b =? 0).
Proof. intros Hb. apply Bool.eq_iff_eq_true. rewrite !Z.eqb_eq, Z.rem_divide, Z.mod_divide by done. done. Qed.

Lemma isleap_ok y : isleap y = leap_year y.
Proof. unfold isleap, leap_year. by rewrite !rem_zero. Qed.

(** Division that rounds down, from division that truncates. *)
Lemma quot_floor a b : 0 < b → Z.quot a b - Z.b2z (Z.rem a b <? 0) = a / b.
Proof. intros Hb. destruct (Z.rem a b <? 0) eqn:E; zb; cbn [Z.b2z]; Z.to_euclidean_division_equations; nia. Qed.

Lemma leaps_ok y : LEAPS_THRU_END_OF y = leaps y.
Proof. unfold LEAPS_THRU_END_OF, DIV, leaps. by rewrite !quot_floor. Qed.

Lemma mon_yday_ok leap m : (m <= 12)%nat → mon_yday leap !! m = Some (month_start leap m).
Proof. intros Hm. do 13 (destruct m as [|m]; [by destruct leap|]). lia. Qed.

(** ** The loops *)

Lemma rem_up_ok fuel days rem : - rem <= Z.of_nat fuel * SECS_PER_DAY - SECS_PER_DAY → (0 < fuel)%nat →
  ∃ days' rem', rem_up fuel days rem = Some (days', rem') ∧ days' * SECS_PER_DAY + rem' = days * SECS_PER_DAY + rem ∧ 0 <= rem' ∧ (rem' < SECS_PER_DAY ∨ rem' = rem).
Proof.
  change SECS_PER_DAY with 86400. revert days rem. induction fuel as [|fuel IH]; intros days rem Hr Hf; [lia|]. cbn [rem_up]. change SECS_PER_DAY with 86400.
  destruct (rem <? 0) eqn:E; zb; [|exists days, rem; split; [done|lia]].
  destruct (IH (days - 1) (rem + 86400)) as (d & r & E' & H1 & H2 & H3); [lia|lia|]. exists d, r. split; [done|lia].
Qed.

Lemma rem_down_ok fuel days rem : rem < Z.of_nat fuel * SECS_PER_DAY → 0 <= rem →
  ∃ days' rem', rem_down fuel days rem = Some (days', rem') ∧ days' * SECS_PER_DAY + rem' = days * SECS_PER_DAY + rem ∧ 0 <= rem' < SECS_PER_DAY.
Proof.
  change SECS_PER_DAY with 86400. revert days rem. induction fuel as [|fuel IH]; intros days rem Hr H0; [lia|]. cbn [rem_down]. change SECS_PER_DAY with 86400.
  destruct (86400 <=? rem) eqn:E; zb; [|exists days, rem; split; [done|lia]].
  destruct (IH (days + 1) (rem - 86400)) as (d & r & E' & H1 & H2); [lia|lia|]. exists d, r. split; [done|lia].
Qed.

(** One round: the year is guessed, and what is left of the days is less than half, unless the
    next round is the last. *)
Definition guess (days y : Z) : Z := y + days / 365.
Definition left_over (days y : Z) : Z := days - (new_year (guess days y) - new_year y).

Lemma guess_sum days y : new_year (guess days y) + left_over days y = new_year y + days.
Proof. unfold left_over. lia. Qed.

Lemma year_round fuel days y : Z.abs days <= 2 ^ 50 → Z.abs y <= 2 ^ 50 → ¬ 0 <= days < year_days y →
  year_loop (S fuel) days y = year_loop fuel (left_over days y) (guess days y).
Proof.
  intros Hd Hy Hn. cbn [year_loop]. rewrite isleap_ok. fold (year_days y). rewrite !leaps_ok.
  assert ((days <? 0) || (year_days y <=? days) = true) as -> by (apply orb_true_iff; rewrite Z.ltb_lt, Z.leb_le; lia).
  assert (y + Z.quot days 365 - Z.b2z (Z.rem days 365 <? 0) = guess days y) as -> by (unfold guess; rewrite <- (quot_floor days 365); lia).
  assert (Z.abs (guess days y) <= 2 ^ 52) as Hg by (unfold guess; Z.to_euclidean_division_equations; lia).
  rewrite (wraps_small 64 (guess days y)) by lia. f_equal. unfold left_over, new_year. set (g := guess days y) in *.
  assert (Z.abs (leaps (g - 1)) <= 2 ^ 53 ∧ Z.abs (leaps (y - 1)) <= 2 ^ 53) as [] by (unfold leaps; Z.to_euclidean_division_equations; lia).
  rewrite wraps_small by lia. lia.
Qed.

Lemma left_over_bounds days y : 730 <= days ∨ days < 0 → 
  (0 <= days → - (days / 1460 + 1) <= left_over days y <= 364) ∧ (days < 0 → 0 <= left_over days y <= 364 + (- (days / 365) + 3) / 4).
Proof.
  intros Hd. unfold left_over, new_year, guess. pose proof (leaps_between (y - 1) (days / 365)) as H1. pose proof (leaps_between (y - 1 + days / 365) (- (days / 365))) as H2.
  replace (y - 1 + days / 365) with (y + days / 365 - 1) in * by lia. replace (y + days / 365 - 1 + - (days / 365)) with (y - 1) in H2 by lia.
  split; intros H; Z.to_euclidean_division_equations; lia.
Qed.

Lemma new_year_next y : new_year (y + 1) = new_year y + year_days y.
Proof. apply new_year_gregorian. Qed.

Lemma year_stop fuel days y : 0 <= days < year_days y → year_loop (S fuel) days y = Some (days, y).
Proof.
  intros Hd. cbn [year_loop]. rewrite isleap_ok. fold (year_days y). by rewrite (proj2 (Z.ltb_ge _ _)), (proj2 (Z.leb_gt _ _)) by lia.
Qed.

(** A last round, if any. *)
Lemma year_last fuel days y : -365 <= days < 730 → Z.abs y <= 2 ^ 49 →
  ∃ days' y', year_loop (S (S fuel)) days y = Some (days', y') ∧ 0 <= days' < year_days y' ∧ new_year y' + days' = new_year y + days.
Proof.
  intros Hd Hy. pose proof (year_days_range y). destruct (decide (0 <= days < year_days y)) as [Hin|Hn]; [exists days, y; by rewrite year_stop|].
  assert (0 <= left_over days y < year_days (guess days y)) as Hl.
  { unfold left_over, guess. destruct (decide (days < 0)) as [Hneg|].
    - assert (days / 365 = -1) as -> by (Z.to_euclidean_division_equations; lia). pose proof (new_year_next (y + -1)) as E. replace (y + -1 + 1) with y in E by lia.
      pose proof (year_days_range (y + -1)). lia.
    - assert (days / 365 = 1) as -> by (Z.to_euclidean_division_equations; lia). rewrite new_year_next. pose proof (year_days_range (y + 1)). lia. }
  exists (left_over days y), (guess days y). rewrite year_round by lia. rewrite year_stop by done. split; [done|]. split; [done|]. apply guess_sum.
Qed.

Lemma year_loop_ok k : ∀ fuel days y, (k + 2 <= fuel)%nat → (k <= 40)%nat → Z.abs days <= 365 * 2 ^ Z.of_nat k → Z.abs y <= 2 ^ 49 - 2 ^ (Z.of_nat k + 1) →
  ∃ days' y', year_loop fuel days y = Some (days', y') ∧ 0 <= days' < year_days y' ∧ new_year y' + days' = new_year y + days.
Proof.
  induction k as [|k IH]; intros fuel days y Hf Hk Hd Hy; (destruct fuel as [|[|fuel]]; [lia..|]).
  { apply year_last; [change (2 ^ Z.of_nat 0) with 1 in Hd; lia|change (2 ^ (Z.of_nat 0 + 1)) with 2 in Hy; lia]. }
  assert (0 < 2 ^ Z.of_nat k <= 2 ^ 40) as Hp by (split; [lia|apply Z.pow_le_mono_r; lia]).
  rewrite Nat2Z.inj_succ, Z.pow_succ_r in Hd by lia. replace (Z.of_nat (S k) + 1) with (Z.succ (Z.of_nat k + 1)) in Hy by lia. rewrite Z.pow_succ_r, Z.pow_add_r in Hy by lia.
  change (2 ^ 1) with 2 in Hy. destruct (decide (-365 <= days < 730)) as [Hs|Hs]; [by apply year_last; [|lia]|].
  rewrite year_round; [|lia|lia|pose proof (year_days_range y); lia]. destruct (left_over_bounds days y) as [H1 H2]; [lia|].
  destruct (IH (S fuel) (left_over days y) (guess days y)) as (d & y' & E & Hd' & Hs'); [lia|lia| | |].
  - destruct (decide (0 <= days)) as [H|H]; [specialize (H1 H)|specialize (H2 ltac:(lia))]; Z.to_euclidean_division_equations; lia.
  - rewrite Z.pow_add_r by lia. unfold guess. Z.to_euclidean_division_equations; lia.
  - exists d, y'. split; [done|]. split; [done|]. rewrite Hs'. apply guess_sum.
Qed.

(** The month: the last one that does not start after the day. *)
Lemma month_start_next leap m v : month_days leap !! m = Some v → month_start leap (S m) = month_start leap m + v.
Proof. do 12 (destruct m as [|m]; [destruct leap; intros [= <-]; reflexivity|]). done. Qed.

Lemma month_loop_ok leap m days : (m <= 11)%nat → 0 <= days < month_start leap (S m) →
  ∃ mon v, month_loop m days (mon_yday leap) = Some mon ∧ (mon <= 11)%nat ∧ month_days leap !! mon = Some v ∧ 0 <= days - month_start leap mon < v.
Proof.
  induction m as [|m IH]; intros Hm Hd; cbn [month_loop]; rewrite mon_yday_ok by lia; cbn [mbind option_bind].
  - change (month_start leap 0) with 0. rewrite (proj2 (Z.ltb_ge _ _)) by lia. exists 0%nat, 31. split; [done|]. split; [lia|]. split; [done|].
    change (month_start leap 0) with 0. by destruct leap; cbn in Hd; lia.
  - destruct (days <? month_start leap (S m)) eqn:E; zb; [apply IH; lia|]. destruct (lookup_lt_is_Some_2 (month_days leap) (S m)) as [v Hv]; [cbn; lia|].
    exists (S m), v. split; [done|]. split; [lia|]. split; [done|]. rewrite (month_start_next leap (S m) v Hv) in Hd. lia.
Qed.

(** ** [offtime] *)

(** The broken-down time of the second [s]. *)
Record broken_down (first_day : Z → Z) (s : Z) (tp : tm) : Prop := BrokenDown {
  bd_sec : 0 <= tm_sec tp < 60;
  bd_min : 0 <= tm_min tp < 60;
  bd_hour : 0 <= tm_hour tp < 24;
  bd_mon : 0 <= tm_mon tp;
  bd_mday : ∃ v, month_days (leap_year (tm_year tp + 1900)) !! Z.to_nat (tm_mon tp) = Some v ∧ 1 <= tm_mday tp <= v;
  bd_yday : tm_yday tp = month_start (leap_year (tm_year tp + 1900)) (Z.to_nat (tm_mon tp)) + tm_mday tp - 1;
  bd_wday : tm_wday tp = (first_day (tm_year tp + 1900) + tm_yday tp + 4) mod 7;
  bd_time : s = (((first_day (tm_year tp + 1900) + tm_yday tp) * 24 + tm_hour tp) * 60 + tm_min tp) * 60 + tm_sec tp }.

(** The year of the second [s], less 1900, is an [int]. *)
Definition year_fits (first_day : Z → Z) (s : Z) : Prop := first_day (1900 - 2 ^ 31) <= s / 86400 < first_day (1900 + 2 ^ 31).

#[global] Instance year_fits_dec f s : Decision (year_fits f s).
Proof. unfold year_fits. apply _. Defined.

Lemma year_unique y d D : 0 <= d < year_days y → new_year y + d = D →
  (new_year (1900 - 2 ^ 31) <= D < new_year (1900 + 2 ^ 31) ↔ - 2 ^ 31 <= y - 1900 < 2 ^ 31).
Proof.
  intros Hd <-. pose proof (new_year_next y) as E. split; intros H; split.
  - destruct (decide (1900 - 2 ^ 31 <= y)); [lia|]. pose proof (new_year_mono (y + 1) (1900 - 2 ^ 31)). lia.
  - destruct (decide (y < 1900 + 2 ^ 31)); [lia|]. pose proof (new_year_mono (1900 + 2 ^ 31) y). lia.
  - pose proof (new_year_mono (1900 - 2 ^ 31) y). lia.
  - pose proof (new_year_mono (y + 1) (1900 + 2 ^ 31)). lia.
Qed.

Lemma year_days_months y : year_days y = month_start (leap_year y) 12.
Proof. unfold year_days. by destruct (leap_year y). Qed.

Lemma weekday days : (let w := Z.rem (4 + days) 7 in if w <? 0 then w + 7 else w) = (days + 4) mod 7.
Proof. cbv zeta. destruct (_ <? 0) eqn:E; zb; Z.to_euclidean_division_equations; lia. Qed.

Lemma offtime_ok fuel t offset tp : - 2 ^ 63 <= t < 2 ^ 63 → Z.abs offset <= 2 ^ 62 → Z.abs offset / 86400 + 64 <= Z.of_nat fuel →
  (year_fits new_year (t + offset) ∧ ∃ tp', offtime fuel t offset tp = Some (true, tp') ∧ broken_down new_year (t + offset) tp' ∧
    tm_isdst tp' = tm_isdst tp ∧ tm_gmtoff tp' = tm_gmtoff tp) ∨
  (¬ year_fits new_year (t + offset) ∧ ∃ tp', offtime fuel t offset tp = Some (false, tp')).
Proof.
  intros Ht Ho Hf. unfold offtime. change SECS_PER_DAY with 86400. change SECS_PER_HOUR with 3600.
  assert (t = Z.quot t 86400 * 86400 + Z.rem t 86400 ∧ Z.abs (Z.rem t 86400) < 86400) as [Et Hr] by (Z.to_euclidean_division_equations; lia).
  assert (0 <= Z.abs offset / 86400 ∧ Z.abs offset < (Z.abs offset / 86400 + 1) * 86400) as [Hf0 Hf1] by (Z.to_euclidean_division_equations; lia).
  rewrite wraps_small by lia. set (q := Z.quot t 86400) in *. set (r := Z.rem t 86400) in *. clearbody q r.
  destruct (rem_up_ok fuel q (r + offset)) as (d1 & r1 & -> & E1 & H1 & H1'); [change SECS_PER_DAY with 86400; lia|lia|]. cbn [mbind option_bind].
  change SECS_PER_DAY with 86400 in *.
  destruct (rem_down_ok fuel d1 r1) as (d & s & -> & E2 & H2); [change SECS_PER_DAY with 86400; lia|lia|]. cbn [mbind option_bind].
  change SECS_PER_DAY with 86400 in *. pose proof (weekday d) as Ew. cbv zeta in Ew. rewrite Ew. clear Ew.
  assert (d = (t + offset) / 86400) as Ed by (Z.to_euclidean_division_equations; lia).
  destruct (year_loop_ok 39 fuel d 1970) as (days & y & -> & Hdays & Ey); [lia|lia|change (2 ^ Z.of_nat 39) with 549755813888; lia|done|]. cbn [mbind option_bind].
  change (new_year 1970) with 0 in Ey. unfold year_fits. rewrite <- Ed. pose proof (year_unique y days d Hdays ltac:(lia)) as Hfit.
  destruct (decide (- 2 ^ 31 <= y - 1900 < 2 ^ 31)) as [Hy|Hy]; [left; split; [by apply Hfit|]|right; split; [by rewrite Hfit|]].
  - rewrite wraps_small, Z.eqb_refl by lia. cbn [negb]. rewrite isleap_ok. rewrite year_days_months in Hdays.
    destruct (month_loop_ok (leap_year y) 11 days) as (mon & v & -> & Hmon & Hv & Hm); [lia|done|]. cbn [mbind option_bind]. rewrite mon_yday_ok by lia. cbn [mbind option_bind].
    eexists. split; [done|]. split; [|done]. constructor; cbn [tm_sec tm_min tm_hour tm_mday tm_mon tm_year tm_wday tm_yday]; rewrite ?Nat2Z.id;
      try (replace (y - 1900 + 1900) with y by lia); try (Z.to_euclidean_division_equations; lia).
    exists v. split; [done|lia].
  - rewrite (proj2 (Z.eqb_neq _ _)); [by eexists|]. intros E. apply Hy. rewrite <- E. unfold wraps. pose proof (Z.mod_pos_bound (y - 1900 + 2 ^ (32 - 1)) (2 ^ 32)). lia.
Qed.

(** ** [gmtime_r] *)

Lemma gmtime_ok t tp : - 2 ^ 63 <= t < 2 ^ 63 →
  if decide (year_fits new_year t) then ∃ tp', gmtime_r t tp = Some (inr tp') ∧ broken_down new_year t tp' ∧ tm_isdst tp' = 0 ∧ tm_gmtoff tp' = 0
  else gmtime_r t tp = Some (inl EOVERFLOW).
Proof.
  intros Ht. unfold gmtime_r, tz_convert_utc.
  destruct (offtime_ok FUEL t 0 tp) as [(Hy & tp1 & -> & H1 & _)|(Hy & tp1 & ->)]; [done|done|done| |]; rewrite Z.add_0_r in Hy; cbn [mbind option_bind].
  2: { by rewrite decide_False. }
  rewrite decide_True by done. cbn [tm_gmtoff]. change (0 - 0) with 0. set (tp2 := Tm _ _ _ _ _ _ _ _ _ _).
  destruct (offtime_ok FUEL t 0 tp2) as [(_ & tp3 & -> & H3 & Hi & Hg)|(Hn & _)]; [done|done|done| |by rewrite Z.add_0_r in Hn]. cbn [mbind option_bind].
  eexists. split; [done|]. cbn [tm_isdst tm_gmtoff]. split; [|by rewrite Hi, Hg]. rewrite Z.add_0_r in H3. destruct H3. by constructor; cbn [tm_sec tm_min tm_hour tm_mday tm_mon tm_year tm_wday tm_yday]; rewrite ?Z.add_0_r.
Qed.
