(* ===== verification/MktimeSpec.v ===== *)
(** * MktimeSpec: [mktime] and [timegm] invert the conversion *)

From S2P Require Import Prelude Calendar CalendarSpec.
Local Open Scope Z_scope.

(** ** Arithmetic *)

Lemma land_3 x : Z.land x 3 = x mod 4.
Proof. change 3 with (Z.ones 2). by rewrite Z.land_ones. Qed.

Lemma shr_div a b : 0 <= b → shr a b = a / 2 ^ b.
Proof. apply Z.shiftr_div_pow2. Qed.

Lemma leapyear_ok year : leapyear year = leap_year (year + 1900).
Proof.
  unfold leapyear, leap_year. rewrite !land_3, rem_zero by done. change (- Z.quot TM_YEAR_BASE 100) with (-19). change (-19 mod 4) with 1.
  assert ((year + 1900) mod 4 = year mod 4) as -> by (Z.to_euclidean_division_equations; lia).
  assert ((year + 1900) mod 100 = year mod 100) as -> by (Z.to_euclidean_division_equations; lia).
  destruct (year mod 4 =? 0) eqn:E4; [cbn [andb]|done]. destruct (year mod 100 =? 0) eqn:E; [cbn [negb orb]|done]. zb.
  apply Bool.eq_iff_eq_true. rewrite !Z.eqb_eq. split; intros H; Z.to_euclidean_division_equations; lia.
Qed.

Lemma a4_ok year : shr year 2 + shr TM_YEAR_BASE 2 - Z.b2z (Z.land year 3 =? 0) = (year + 1899) / 4.
Proof.
  rewrite land_3, !shr_div by done. change (TM_YEAR_BASE / 2 ^ 2) with 475. change (2 ^ 2) with 4.
  destruct (year mod 4 =? 0) eqn:E; zb; cbn [Z.b2z]; Z.to_euclidean_division_equations; lia.
Qed.

Lemma a100_ok a : Z.quot (a + Z.b2z (a <? 0)) 25 - Z.b2z (a <? 0) = a / 25.
Proof. destruct (a <? 0) eqn:E; zb; cbn [Z.b2z]; Z.to_euclidean_division_equations; lia. Qed.

(** Seconds from the first of January 1970; no field need be in its range. *)
Definition seconds (year yday hour min sec : Z) : Z := (((new_year (year + 1900) + yday) * 24 + hour) * 60 + min) * 60 + sec.

Lemma leaps_parts x : x / 4 - x / 4 / 25 + x / 4 / 25 / 4 = leaps x.
Proof. unfold leaps. by rewrite !Z.div_div. Qed.

Lemma leaps_small x : Z.abs x <= 4294970000 → - 2 ^ 31 <= x / 4 < 2 ^ 31 ∧ Z.abs (x / 4 / 25) <= 2 ^ 30 ∧ Z.abs (x / 4 / 25 / 4) <= 2 ^ 30 ∧ Z.abs (leaps x) < 2 ^ 30.
Proof.
  intros Hx. unfold leaps. rewrite !Z.div_div by done. change (4 * 25) with 100. change (100 * 4) with 400.
  assert (x - 4 < 4 * (x / 4) <= x) by (Z.to_euclidean_division_equations; lia). assert (x - 100 < 100 * (x / 100) <= x) by (Z.to_euclidean_division_equations; lia).
  assert (x - 400 < 400 * (x / 400) <= x) by (Z.to_euclidean_division_equations; lia). lia.
Qed.

(** The leap days of [ydhms_diff]: no intermediate result leaves [int]. *)
Lemma leap_days_ok x1 x0 : Z.abs x1 <= 4294970000 → Z.abs x0 <= 4294970000 →
  i32 ((i32 (x1 / 4) - i32 (x0 / 4)) - (i32 (i32 (x1 / 4) / 25) - i32 (i32 (x0 / 4) / 25)) + (i32 (i32 (i32 (x1 / 4) / 25) / 4) - i32 (i32 (i32 (x0 / 4) / 25) / 4))) =
    leaps x1 - leaps x0.
Proof.
  intros H1 H0. destruct (leaps_small x1 H1) as (A1 & A2 & A3 & A4), (leaps_small x0 H0) as (B1 & B2 & B3 & B4). clear H1 H0.
  rewrite <- (leaps_parts x1), <- (leaps_parts x0) in *.
  generalize dependent (x1 / 4). intros a4 A1 A2 A3 A4. generalize dependent (x0 / 4). intros b4 B1 B2 B3 B4. rewrite !(wraps_small 32 a4), !(wraps_small 32 b4) by lia.
  generalize dependent (a4 / 25). intros a100 A2 A3 A4. generalize dependent (b4 / 25). intros b100 B2 B3 B4. rewrite !(wraps_small 32 a100), !(wraps_small 32 b100) by lia.
  generalize dependent (a100 / 4). intros a400 A3 A4. generalize dependent (b100 / 4). intros b400 B3 B4. rewrite !(wraps_small 32 a400), !(wraps_small 32 b400) by lia.
  rewrite wraps_small by lia. lia.
Qed.

Lemma ydhms_diff_ok year1 yday1 hour1 min1 sec1 year0 yday0 hour0 min0 sec0 :
  Forall (λ x, Z.abs x <= 2 ^ 32) [year1; yday1; hour1; min1; sec1; year0; yday0; hour0; min0; sec0] →
  ydhms_diff year1 yday1 hour1 min1 sec1 year0 yday0 hour0 min0 sec0 = seconds year1 yday1 hour1 min1 sec1 - seconds year0 yday0 hour0 min0 sec0.
Proof.
  rewrite !Forall_cons. intros (Hy1 & Hd1 & Hh1 & Hm1 & Hs1 & Hy0 & Hd0 & Hh0 & Hm0 & Hs0 & _). unfold ydhms_diff. rewrite !a4_ok, !a100_ok, !shr_div by done.
  change (2 ^ 2) with 4. rewrite leap_days_ok by lia. destruct (leaps_small (year1 + 1899)) as (_ & _ & _ & A); [lia|]. destruct (leaps_small (year0 + 1899)) as (_ & _ & _ & B); [lia|].
  unfold seconds, new_year. replace (year1 + 1900 - 1) with (year1 + 1899) by lia. replace (year0 + 1900 - 1) with (year0 + 1899) by lia.
  generalize dependent (leaps (year1 + 1899)). intros L1 A. generalize dependent (leaps (year0 + 1899)). intros L0 B.
  repeat match goal with H : Z.abs _ <= _ |- _ => apply Z.abs_le in H end. apply Z.lt_le_incl, Z.abs_le in A, B.
  rewrite (wraps_small 64 (year1 - year0)) by lia. remember (365 * (year1 - year0) + yday1 - yday0 + (L1 - L0)) as days eqn:Ed.
  assert (- 2 ^ 43 <= days <= 2 ^ 43) as Hd by (rewrite Ed; lia). rewrite (wraps_small 64 days) by lia.
  remember (24 * days + hour1 - hour0) as hours eqn:Eh. assert (- 2 ^ 48 <= hours <= 2 ^ 48) as Hh by lia. rewrite (wraps_small 64 hours) by lia.
  remember (60 * hours + min1 - min0) as minutes eqn:Em. assert (- 2 ^ 54 <= minutes <= 2 ^ 54) as Hm by lia. rewrite (wraps_small 64 minutes), wraps_small by lia. lia.
Qed.

(** The mean, rounded up. *)
Lemma long_int_avg_ok a b : long_int_avg a b = (a + b + 1) / 2.
Proof.
  unfold long_int_avg. rewrite !shr_div by done. change (2 ^ 1) with 2. change 1 with (Z.ones 1) at 1. rewrite Z.land_ones by done. change (2 ^ 1) with 2.
  assert (Z.lor a b mod 2 = Z.b2z (Z.odd a || Z.odd b)) as ->.
  { rewrite <- Z.bit0_mod, Z.lor_spec, !Z.bit0_odd. done. }
  pose proof (Zmod_odd a). pose proof (Zmod_odd b). destruct (Z.odd a), (Z.odd b); cbn [orb Z.b2z]; Z.to_euclidean_division_equations; lia.
Qed.

(** ** A clock at a fixed distance from UTC *)

Lemma month_days_le leap m v : month_days leap !! m = Some v → 0 <= month_start leap m ∧ month_start leap m + v <= month_start leap 12.
Proof. do 12 (destruct m as [|m]; [destruct leap; intros [= <-]; vm_compute; split; discriminate|]). done. Qed.

Lemma bd_yday_range f s tp : broken_down f s tp → 0 <= tm_yday tp < year_days (tm_year tp + 1900).
Proof. intros [_ _ _ _ (v & Hv & Hd) Hy _ _]. rewrite Hy, year_days_months. pose proof (month_days_le _ _ _ Hv). lia. Qed.

Lemma bd_year s tp : broken_down new_year s tp → year_fits new_year s → - 2 ^ 31 <= tm_year tp < 2 ^ 31.
Proof.
  intros Hb Hf. pose proof (bd_yday_range _ _ _ Hb) as Hd. pose proof (year_unique _ _ (s / 86400) Hd) as H. replace (tm_year tp + 1900 - 1900) with (tm_year tp) in H by lia.
  apply H; [|done]. destruct Hb as [H1 H2 H3 _ _ _ _ Ht]. rewrite Ht. Z.to_euclidean_division_equations; lia.
Qed.

Lemma bd_seconds s tp : broken_down new_year s tp → seconds (tm_year tp) (tm_yday tp) (tm_hour tp) (tm_min tp) (tm_sec tp) = s.
Proof. intros Hb. symmetry. apply Hb. Qed.

Section clock.
Context (convert : Z → option (error + tm)) (off : Z).
Context (convert_ok : ∀ t, - 2 ^ 63 <= t < 2 ^ 63 →
  if decide (year_fits new_year (t + off)) then ∃ tp, convert t = Some (inr tp) ∧ broken_down new_year (t + off) tp ∧ tm_isdst tp = 0
  else convert t = Some (inl EOVERFLOW)) (Hoff : Z.abs off <= 2 ^ 31).
Set Default Proof Using "All".

(** What [convert] shows at [t]. *)
Definition shows (t : Z) (tp : tm) : Prop :=
  - 2 ^ 63 <= t < 2 ^ 63 ∧ year_fits new_year (t + off) ∧ broken_down new_year (t + off) tp ∧ tm_isdst tp = 0.

Lemma convert_time_ok t : - 2 ^ 63 <= t < 2 ^ 63 →
  if decide (year_fits new_year (t + off)) then ∃ tp, convert_time convert t = Some (inr tp) ∧ shows t tp else convert_time convert t = Some (inl EOVERFLOW).
Proof.
  intros Ht. unfold convert_time. rewrite wraps_small by lia. pose proof (convert_ok t Ht) as H. destruct (decide _); [|done].
  destruct H as (tp & E & Hb & Hi). exists tp. done.
Qed.

Lemma near_zero_fits t : Z.abs t <= 1 → year_fits new_year (t + off).
Proof.
  intros Ht. unfold year_fits. change (new_year (1900 - 2 ^ 31)) with (-784352321872). change (new_year (1900 + 2 ^ 31)) with 784352270737.
  Z.to_euclidean_division_equations; lia.
Qed.

(** The binary search ends with a time that [convert] shows. *)
Lemma narrow_ok n : ∀ fuel ok bad oktm, (n < fuel)%nat → Z.abs (bad - ok) <= 2 ^ Z.of_nat n → - 2 ^ 63 <= ok < 2 ^ 63 → - 2 ^ 63 <= bad < 2 ^ 63 →
  (oktm = None ∧ ok = 0 ∨ ∃ tp, oktm = Some tp ∧ shows ok tp) → ¬ year_fits new_year (bad + off) →
  ∃ ok' tp, narrow convert fuel ok bad oktm = Some (inr (ok', Some tp)) ∧ shows ok' tp.
Proof.
  induction n as [|n IH]; intros fuel ok bad oktm Hf Hd Hok Hbad Htm Hn; (destruct fuel as [|fuel]; [lia|]); cbn [narrow]; rewrite long_int_avg_ok.
  all: assert (∀ mid, (mid =? ok) || (mid =? bad) = true → Z.abs (bad - ok) <= 1 → 
    ∃ ok' tp, Some (inr (A := error) (ok, oktm)) = Some (inr (ok', Some tp)) ∧ shows ok' tp) as Hstop
    by (intros mid _ H1; destruct Htm as [[-> ->]|(tp & -> & Htp)]; [by destruct Hn; apply near_zero_fits; lia|by exists ok, tp]).
  - change (2 ^ Z.of_nat 0) with 1 in Hd. assert (((ok + bad + 1) / 2 =? ok) || ((ok + bad + 1) / 2 =? bad) = true) as E.
    { apply orb_true_iff. rewrite !Z.eqb_eq. Z.to_euclidean_division_equations; lia. }
    rewrite E. by eapply Hstop.
  - rewrite Nat2Z.inj_succ, Z.pow_succ_r in Hd by lia. set (mid := (ok + bad + 1) / 2). destruct ((mid =? ok) || (mid =? bad)) eqn:E.
    { eapply Hstop; [exact E|]. apply orb_true_iff in E. rewrite !Z.eqb_eq in E. unfold mid in E. Z.to_euclidean_division_equations; lia. }
    assert (- 2 ^ 63 <= mid < 2 ^ 63 ∧ Z.abs (bad - mid) <= 2 ^ Z.of_nat n ∧ Z.abs (mid - ok) <= 2 ^ Z.of_nat n) as (Hm & H1 & H2).
    { unfold mid. Z.to_euclidean_division_equations; lia. }
    pose proof (convert_time_ok mid Hm) as H. destruct (decide (year_fits new_year (mid + off))) as [Hy|Hy].
    + destruct H as (tp & -> & Htp). cbn [mbind option_bind]. apply IH; try done; [lia|]. right. by exists tp.
    + rewrite H. cbn [mbind option_bind]. apply IH; try done. lia.
Qed.

Lemma narrow_start t : - 2 ^ 63 <= t < 2 ^ 63 → ¬ year_fits new_year (t + off) → ∃ t' tp, narrow convert 66 0 t None = Some (inr (t', Some tp)) ∧ shows t' tp.
Proof. intros Ht Hn. apply (narrow_ok 63); [lia|lia|lia|done|by left|done]. Qed.

Lemma ranged_ok t : - 2 ^ 63 <= t < 2 ^ 63 → ∃ t' tp, ranged_convert convert t = Some (inr (t', tp)) ∧ shows t' tp ∧ (year_fits new_year (t + off) → t' = t).
Proof.
  intros Ht. unfold ranged_convert. assert ((if t <? mktime_min then mktime_min else if t <=? mktime_max then t else mktime_max) = t) as ->.
  { unfold mktime_min, mktime_max. by rewrite (proj2 (Z.ltb_ge _ _)), (proj2 (Z.leb_le _ _)) by lia. }
  pose proof (convert_time_ok t Ht) as H. destruct (decide _) as [Hy|Hy].
  - destruct H as (tp & E & Htp). exists t, tp. by rewrite E.
  - destruct (narrow_start t Ht Hy) as (t' & tp & E & Hs). revert E. generalize (narrow convert 66 0 t None). intros r ->. rewrite H. cbn [mbind option_bind].
    pose proof Hs as (_ & _ & Hb & _). rewrite (proj2 (Z.ltb_ge _ _)) by (pose proof (bd_sec _ _ _ Hb); lia). by exists t', tp.
Qed.

(** ** The probes *)

Section request.
Context (year yday hour min sec isdst : Z).
Context (Hreq : Forall (λ x, Z.abs x <= 2 ^ 32) [year; yday; hour; min; sec]).
Notation S := (seconds year yday hour min sec).

Lemma tm_diff_ok t tp : shows t tp → tm_diff year yday hour min sec tp = S - (t + off).
Proof.
  intros (_ & Hf & Hb & _). unfold tm_diff. pose proof (bd_year _ _ Hb Hf). pose proof (bd_yday_range _ _ _ Hb). pose proof (year_days_range (tm_year tp + 1900)).
  rewrite !Forall_cons in Hreq. destruct Hreq as (? & ? & ? & ? & ? & _). pose proof (bd_sec _ _ _ Hb). pose proof (bd_min _ _ _ Hb). pose proof (bd_hour _ _ _ Hb).
  rewrite ydhms_diff_ok by (rewrite !Forall_cons, Forall_nil; repeat split; lia). by rewrite (bd_seconds _ _ Hb).
Qed.

Lemma request_bound : Z.abs S <= 2 ^ 62.
Proof.
  unfold seconds, new_year. rewrite !Forall_cons in Hreq. destruct Hreq as (? & ? & ? & ? & ? & _).
  destruct (leaps_small (year + 1900 - 1)) as (_ & _ & _ & HL); [lia|]. change (leaps 1969) with 477. lia.
Qed.

Notation probes := (probes convert year yday hour min sec isdst).

(** What [convert] shows is right, and the probes end; or it is wrong, and the next probe is
    where it would be right. *)
Lemma probe_match n t t1 t2 dst2 tp : ranged_convert convert t = Some (inr (S - off, tp)) → shows (S - off) tp →
  probes (Datatypes.S n) t t1 t2 dst2 = Some (Match (S - off) tp).
Proof. intros E Hs. cbn [Calendar.probes]. rewrite E. cbn [mbind option_bind]. by rewrite (tm_diff_ok _ _ Hs), Z.sub_add, Z.sub_diag. Qed.

Lemma probe_wrong n t t' tp t1 t2 dst2 : ranged_convert convert t = Some (inr (t', tp)) → shows t' tp → t' ≠ S - off → (t' = t1 → t' = t2) →
  probes (Datatypes.S n) t t1 t2 dst2 = match n with O => Some (Failure EOVERFLOW) | _ => probes n (S - off) t2 t' 0 end.
Proof.
  intros E Hs Hne Ht. pose proof request_bound as HS. cbn [Calendar.probes]. rewrite E. cbn [mbind option_bind]. rewrite (tm_diff_ok _ _ Hs), (proj2 (Z.eqb_neq _ _)) by lia.
  assert ((t' =? t1) && negb (t' =? t2) = false) as ->. { destruct (t' =? t1) eqn:E1; [zb|done]. by rewrite (proj2 (Z.eqb_eq _ _) (Ht E1)). }
  destruct Hs as (_ & _ & _ & ->). cbn [andb]. replace (t' + (S - (t' + off))) with (S - off) by lia. by rewrite wraps_small by lia.
Qed.

(** When the year does not fit, the probes stay at the last time that can be shown. *)
Lemma probes_fail n : ∀ t1 t' tp, ranged_convert convert (S - off) = Some (inr (t', tp)) → shows t' tp → t' ≠ S - off →
  probes (Datatypes.S n) (S - off) t1 t' 0 = Some (Failure EOVERFLOW).
Proof.
  induction n as [|n IH]; intros t1 t' tp E Hs Hne; rewrite (probe_wrong _ _ t' tp) by done; [done|]. by apply (IH _ _ tp).
Qed.

Lemma probes_ok t0 : - 2 ^ 63 <= t0 < 2 ^ 63 →
  if decide (year_fits new_year S) then ∃ tp, probes 6 t0 t0 t0 0 = Some (Match (S - off) tp) ∧ shows (S - off) tp
  else probes 6 t0 t0 t0 0 = Some (Failure EOVERFLOW).
Proof.
  intros Ht0. pose proof request_bound as HS. destruct (ranged_ok t0 Ht0) as (c0 & tp0 & E0 & Hs0 & Hc0). destruct (ranged_ok (S - off)) as (c & tp & E & Hs & Hc); [lia|].
  rewrite Z.sub_add in Hc. destruct (decide (year_fits new_year S)) as [Hf|Hf].
  - rewrite (Hc Hf) in *. destruct (decide (c0 = S - off)) as [->|Hne]; [exists tp0; by rewrite (probe_match _ _ _ _ _ _ E0)|].
    exists tp. rewrite (probe_wrong _ _ c0 tp0) by done. by rewrite (probe_match _ _ _ _ _ _ E).
  - assert (∀ t tp, shows t tp → t ≠ S - off) as Hne. { intros t tp' (_ & Hy & _) ->. by rewrite Z.sub_add in Hy. }
    rewrite (probe_wrong _ _ c0 tp0) by (first [done|by eapply Hne]).
    rewrite (probe_wrong _ _ c tp) by (first [done|by eapply Hne|intros ->; symmetry; by apply Hc0, Hs]).
    apply (probes_fail 3 _ _ tp); [done|done|by eapply Hne].
Qed.
End request.

(** ** [mktime_internal] *)

(** The seconds that the fields of [tp] stand for, with [sec] seconds. *)
Definition requested (tp : tm) (sec : Z) : Z :=
  let year := tm_year tp + tm_mon tp / 12 in
  seconds year (month_start (leap_year (year + 1900)) (Z.to_nat (tm_mon tp mod 12)) + tm_mday tp - 1) (tm_hour tp) (tm_min tp) sec.

Definition clamp (sec : Z) : Z := if sec <? 0 then 0 else if 59 <? sec then 59 else sec.

Definition is_int (x : Z) : Prop := - 2 ^ 31 <= x < 2 ^ 31.

Record int_fields (tp : tm) : Prop := IntFields {
  int_sec : is_int (tm_sec tp); int_min : is_int (tm_min tp); int_hour : is_int (tm_hour tp); int_mday : is_int (tm_mday tp); int_mon : is_int (tm_mon tp); int_year : is_int (tm_year tp) }.

Lemma offset_found_ok t0 g sec c S t tp : tm_sec tp = c → 0 <= c < 60 → is_int sec → Z.abs S <= 2 ^ 62 + 60 → Z.abs (t - S) <= 2 ^ 40 → t0 = S + c - g → Z.abs g <= 2 ^ 32 →
  offset_found convert c t0 g sec t tp =
    if decide (sec = c) then Some (inr (t, tp), t - S - c)
    else r ← convert_time convert (t - c + sec); match r with inr tp => Some (inr (t - c + sec, tp), t - S - c) | inl e => Some (inl e, t - S - c) end.
Proof.
  unfold is_int. intros Esec Hc Hsec HS Ht -> Hg. unfold offset_found. rewrite Esec.
  rewrite (wraps_small 64 (t - (S + c - g))) by lia. replace (t - (S + c - g) - g) with (t - S - c) by lia. rewrite (wraps_small 64 (t - S - c)) by lia.
  destruct (decide (sec = c)) as [->|Hne]; [by rewrite Z.eqb_refl|]. rewrite (proj2 (Z.eqb_neq sec c)) by done. cbn [negb].
  rewrite (proj2 (Z.eqb_neq c 60)), andb_false_r by lia. cbn [Z.b2z]. replace (t + (0 - c + sec)) with (t - c + sec) by lia.
  rewrite wraps_small, Z.eqb_refl by lia. unfold mktime_min, mktime_max. rewrite !(proj2 (Z.leb_le _ _)) by lia. done.
Qed.

(** A daylight saving time that is asked for is not found, and is taken to be one hour. *)
Section dst.
Context (year yday hour min sec isdst : Z) (Hdst : 0 < isdst).

Lemma dst_probe_none t delta direction : Z.abs t <= 2 ^ 62 + 2 ^ 40 → 0 <= delta <= 2 ^ 40 → Z.abs direction = 1 →
  dst_probe convert year yday hour min sec isdst t delta direction = Some None.
Proof.
  intros Ht Hd Hdir. unfold dst_probe. assert (Z.abs (delta * direction) = delta) as Habs by (rewrite Z.abs_mul; lia).
  rewrite wraps_small, Z.eqb_refl by lia. cbn [negb]. destruct (ranged_ok (t + delta * direction)) as (t' & tp & E & (_ & _ & _ & Hi) & _); [lia|].
  rewrite E. cbn [mbind option_bind]. rewrite Hi. unfold isdst_differ. rewrite (proj2 (Z.eqb_neq _ _)), (proj2 (Z.leb_le 0 isdst)) by lia. done.
Qed.

Lemma dst_search_none n : ∀ fuel t delta, (n < fuel)%nat → delta_bound <= delta + Z.of_nat n * stride → Z.abs t <= 2 ^ 62 + 2 ^ 40 → 0 <= delta <= 2 ^ 38 →
  dst_search convert year yday hour min sec isdst fuel t delta = Some None.
Proof.
  change delta_bound with 229222804. change stride with 601200. induction n as [|n IH]; intros fuel t delta Hf Hd Ht Hdelta; (destruct fuel as [|fuel]; [lia|]);
    cbn [dst_search]; change delta_bound with 229222804; change stride with 601200.
  { by rewrite (proj2 (Z.ltb_ge _ _)) by lia. }
  destruct (delta <? 229222804) eqn:E; [zb|done]. rewrite !dst_probe_none by lia. cbn [mbind option_bind]. apply IH; lia.
Qed.

Lemma wrong_dst_ok t tp : tm_isdst tp = 0 → Z.abs t <= 2 ^ 62 + 2 ^ 32 →
  if decide (year_fits new_year (t - 3600 + off)) then ∃ tp', wrong_dst convert year yday hour min sec isdst t tp = Some (inr (t - 3600, tp')) ∧ shows (t - 3600) tp'
  else wrong_dst convert year yday hour min sec isdst t tp = Some (inl EOVERFLOW).
Proof.
  intros Hi Ht. unfold wrong_dst. pose proof (dst_search_none 381 400 t stride) as E. rewrite E by (first [lia|done]). clear E. cbn [mbind option_bind].
  rewrite Hi, (proj2 (Z.eqb_neq _ _)) by lia. change (60 * 60 * (Z.b2z false - Z.b2z (0 =? 0))) with (-3600). change (t + -3600) with (t - 3600).
  rewrite (wraps_small 64 (t - 3600)) by lia. unfold mktime_min, mktime_max. rewrite !(proj2 (Z.leb_le _ _)) by lia. cbn [andb].
  pose proof (convert_time_ok (t - 3600)) as H. specialize (H ltac:(lia)). destruct (decide _); [destruct H as (tp' & -> & H'); by exists tp'|by rewrite H].
Qed.
End dst.

Lemma month_start_range leap m : (m < 12)%nat → 0 <= month_start leap m <= 335.
Proof. do 12 (destruct m as [|m]; [intros _; destruct leap; vm_compute; split; discriminate|]). lia. Qed.

Lemma clamp_range sec : 0 <= clamp sec < 60.
Proof. unfold clamp. destruct (sec <? 0) eqn:E; zb; [lia|]. destruct (59 <? sec) eqn:E'; zb; lia. Qed.

Lemma clamp_two sec : (let s := if sec <? 0 then 0 else sec in if 59 <? s then 59 else s) = clamp sec.
Proof. cbv zeta. unfold clamp. by destruct (sec <? 0). Qed.

Lemma seconds_add year yday hour min sec : seconds year yday hour min sec = seconds year yday hour min 0 + sec.
Proof. unfold seconds. lia. Qed.

Lemma bd_second s c tp : broken_down new_year (s + c) tp → s mod 60 = 0 → 0 <= c < 60 → tm_sec tp = c.
Proof. intros [Hsec _ _ _ _ _ _ Ht] Hs Hc. Z.to_euclidean_division_equations; lia. Qed.

(** What comes after the request has been read. *)
Lemma probes_then year yday hour min isdst sec offset : let c := clamp sec in let g := i32 (0 - offset) in let t0 := ydhms_diff year yday hour min c (EPOCH_YEAR - TM_YEAR_BASE) 0 0 0 g in
  Forall (λ x, Z.abs x <= 2 ^ 32) [year; yday; hour; min] → is_int sec →
  let r := (r ← probes convert year yday hour min c isdst 6 t0 t0 t0 0;
    match r with
    | Failure e => Some (inl e, offset)
    | Oscillation t tp => offset_found convert c t0 g sec t tp
    | Match t tp =>
        if isdst_differ isdst (tm_isdst tp) then
          r ← wrong_dst convert year yday hour min c isdst t tp;
          match r with inl e => Some (inl e, offset) | inr (t, tp) => offset_found convert c t0 g sec t tp end
        else offset_found convert c t0 g sec t tp
    end) in
  let d := if 0 <? isdst then 3600 else 0 in
  let S := seconds year yday hour min sec in
  if decide (year_fits new_year (seconds year yday hour min c) ∧ year_fits new_year (seconds year yday hour min c - d)) then
    if decide (year_fits new_year (S - d)) then ∃ tp', r = Some (inr (S - d - off, tp'), - off - d) ∧ shows (S - d - off) tp' else r = Some (inl EOVERFLOW, - off - d)
  else r = Some (inl EOVERFLOW, offset).
Proof.
  intros c g t0 Hreq Hsec. pose proof (clamp_range sec) as Hc. fold c in Hc. assert (Z.abs g <= 2 ^ 31) as Hg.
  { unfold g, wraps. pose proof (Z.mod_pos_bound (0 - offset + 2 ^ (32 - 1)) (2 ^ 32)). lia. }
  assert (Forall (λ x, Z.abs x <= 2 ^ 32) [year; yday; hour; min; c]) as Hreq5 by (rewrite !Forall_cons in *; repeat split; try apply Hreq; try lia; constructor).
  assert (t0 = seconds year yday hour min c - g) as Et0.
  { unfold t0. change (EPOCH_YEAR - TM_YEAR_BASE) with 70. rewrite ydhms_diff_ok; [|rewrite !Forall_cons in *; repeat split; try apply Hreq; try lia; constructor].
    done. }
  pose proof (request_bound year yday hour min c isdst Hreq5) as HS. pose proof (probes_ok year yday hour min c isdst Hreq5 t0) as Hp. clearbody t0 g c. cbv zeta. specialize (Hp ltac:(lia)).
  set (S0 := seconds year yday hour min 0). pose proof (seconds_add year yday hour min c) as Ec. rewrite (seconds_add _ _ _ _ sec). fold S0 in Ec |- *.
  set (Sc := seconds year yday hour min c) in *. assert (S0 mod 60 = 0) as H60 by (unfold S0, seconds; Z.to_euclidean_division_equations; lia). clearbody S0 Sc.
  set (d := if 0 <? isdst then 3600 else 0). assert (d = 0 ∨ d = 3600) as Hd by (unfold d; destruct (0 <? isdst); auto).
  destruct (decide (year_fits new_year Sc)) as [Hf|Hf]; [|by rewrite Hp, decide_False by tauto]. destruct Hp as (tp & -> & Hs). cbn [mbind option_bind].
  pose proof Hs as (_ & _ & _ & Hi).
  assert (∀ tp, shows (Sc - off - d) tp → 
    if decide (year_fits new_year (S0 + sec - d)) then ∃ tp', offset_found convert c t0 g sec (Sc - off - d) tp = Some (inr (S0 + sec - d - off, tp'), - off - d) ∧ shows (S0 + sec - d - off) tp'
    else offset_found convert c t0 g sec (Sc - off - d) tp = Some (inl EOVERFLOW, - off - d)) as Hfound.
  { clear Hs Hi. clear tp. intros tp Hs. pose proof Hs as (_ & _ & Hb & _). replace (Sc - off - d + off) with (S0 - d + c) in Hb by lia.
    assert (tm_sec tp = c) as Hsc by (apply (bd_second (S0 - d) c tp); [done|Z.to_euclidean_division_equations; lia|done]).
    rewrite (offset_found_ok t0 g sec c S0) by (try done; lia). replace (Sc - off - d - S0 - c) with (- off - d) by lia.
    destruct (decide (sec = c)) as [->|Hne].
    - replace (S0 + c - d - off) with (Sc - off - d) by lia. rewrite decide_True; [by exists tp|]. destruct Hs as (_ & Hy & _). by replace (S0 + c - d) with (Sc - off - d + off) by lia.
    - unfold is_int in Hsec. replace (Sc - off - d - c + sec) with (S0 + sec - d - off) by lia. pose proof (convert_time_ok (S0 + sec - d - off)) as H. rewrite Z.sub_add in H. specialize (H ltac:(lia)).
      destruct (decide (year_fits new_year (S0 + sec - d))); [destruct H as (tp' & -> & Hs'); by exists tp'|by rewrite H]. }
  unfold isdst_differ. rewrite Hi. change (0 <=? 0) with true. destruct (0 <? isdst) eqn:E; zb.
  - rewrite (proj2 (Z.eqb_neq isdst 0)), (proj2 (Z.leb_le 0 isdst)) by lia. cbn [xorb Z.eqb andb]. subst d. pose proof (wrong_dst_ok year yday hour min c isdst E (Sc - off) tp Hi) as H.
    specialize (H ltac:(lia)). replace (Sc - off - 3600 + off) with (Sc - 3600) in H by lia. destruct (decide (year_fits new_year (Sc - 3600))) as [Hf'|Hf'].
    + rewrite decide_True by done. destruct H as (tp' & -> & Hs'). cbn [mbind option_bind]. by apply Hfound.
    + rewrite decide_False by tauto. by rewrite H.
  - assert (xorb (isdst =? 0) (0 =? 0) && (0 <=? isdst) && true = false) as ->.
    { destruct (isdst =? 0) eqn:E'; [done|]. zb. by rewrite (proj2 (Z.leb_gt 0 isdst)), andb_false_r by lia. }
    subst d. rewrite decide_True by (by rewrite Z.sub_0_r). rewrite Z.sub_0_r in Hfound. by apply Hfound.
Qed.

Lemma mktime_ok tp offset : int_fields tp →
  let c := clamp (tm_sec tp) in
  let d := if 0 <? tm_isdst tp then 3600 else 0 in
  let S := requested tp (tm_sec tp) in
  if decide (year_fits new_year (requested tp c) ∧ year_fits new_year (requested tp c - d)) then
    if decide (year_fits new_year (S - d)) then ∃ tp', mktime_internal convert tp offset = Some (inr (S - d - off, tp'), - off - d) ∧ shows (S - d - off) tp'
    else mktime_internal convert tp offset = Some (inl EOVERFLOW, - off - d)
  else mktime_internal convert tp offset = Some (inl EOVERFLOW, offset).
Proof.
  intros [Hsec Hmin Hhour Hmday Hmon Hyear]. pose proof Hsec as Hsec'. unfold is_int in Hmin, Hhour, Hmday, Hmon, Hyear. unfold mktime_internal, requested. cbv zeta.
  assert (Z.rem (tm_mon tp) 12 + 12 * Z.b2z (Z.rem (tm_mon tp) 12 <? 0) = tm_mon tp mod 12) as ->.
  { destruct (_ <? 0) eqn:E; zb; cbn [Z.b2z]; Z.to_euclidean_division_equations; lia. }
  rewrite quot_floor by done. set (year := tm_year tp + tm_mon tp / 12). set (m := Z.to_nat (tm_mon tp mod 12)).
  assert (Z.abs year <= 2 ^ 32) as Hy by (unfold year; Z.to_euclidean_division_equations; lia). assert (m < 12)%nat as Hm by (unfold m; Z.to_euclidean_division_equations; lia).
  rewrite (wraps_small 64 year), leapyear_ok, mon_yday_ok by lia. cbn [mbind option_bind]. set (v := month_start (leap_year (year + 1900)) m).
  pose proof (month_start_range (leap_year (year + 1900)) m Hm) as Hv. fold v in Hv. rewrite wraps_small by lia. replace (v - 1 + tm_mday tp) with (v + tm_mday tp - 1) by lia.
  pose proof (clamp_two (tm_sec tp)) as Ec. cbv zeta in Ec. rewrite Ec.
  pose proof (probes_then year (v + tm_mday tp - 1) (tm_hour tp) (tm_min tp) (tm_isdst tp) (tm_sec tp) offset) as H. cbv zeta in H. apply H; [|done].
  rewrite !Forall_cons. repeat split; try lia. constructor.
Qed.
End clock.
