(* ===== verification/CalendarProps.v ===== *)
(** * CalendarProps: [offtime], [mktime] and [timegm] *)

From S2P Require Import Prelude Calendar CalendarSpec MktimeSpec.
Local Open Scope Z_scope.

(** ** A broken-down time is unique *)

Definition same_date (a b : tm) : Prop :=
  tm_sec a = tm_sec b ∧ tm_min a = tm_min b ∧ tm_hour a = tm_hour b ∧ tm_mday a = tm_mday b ∧ tm_mon a = tm_mon b ∧ tm_year a = tm_year b ∧
  tm_wday a = tm_wday b ∧ tm_yday a = tm_yday b.

Lemma month_start_mono leap m m' : (m <= m')%nat → (m' <= 12)%nat → month_start leap m <= month_start leap m'.
Proof.
  intros H H'. induction H as [|m' H IH]; [done|]. destruct (lookup_lt_is_Some_2 (month_days leap) m') as [v Hv]; [cbn; lia|].
  rewrite (month_start_next _ _ _ Hv). pose proof (month_days_le _ _ _ Hv). assert (0 <= v); [|specialize (IH ltac:(lia)); lia].
  clear -Hv. do 12 (destruct m' as [|m']; [destruct leap; injection Hv as <-; lia|]). done.
Qed.

Lemma bd_unique f s a b : gregorian f → broken_down f s a → broken_down f s b → same_date a b.
Proof.
  intros Hg Ha Hb. pose proof (bd_yday_range _ _ _ Ha) as Hya. pose proof (bd_yday_range _ _ _ Hb) as Hyb.
  destruct Ha as [A1 A2 A3 A4 (va & A5 & A5') A6 A7 A8], Hb as [B1 B2 B3 B4 (vb & B5 & B5') B6 B7 B8]. rewrite !(gregorian_unique f _ Hg) in *.
  assert (tm_sec a = tm_sec b ∧ tm_min a = tm_min b ∧ tm_hour a = tm_hour b ∧ new_year (tm_year a + 1900) + tm_yday a = new_year (tm_year b + 1900) + tm_yday b) as (E1 & E2 & E3 & E4) by lia.
  assert (tm_year a = tm_year b) as Ey.
  { pose proof (new_year_next (tm_year a + 1900)). pose proof (new_year_next (tm_year b + 1900)).
    pose proof (new_year_mono (tm_year a + 1900 + 1) (tm_year b + 1900)). pose proof (new_year_mono (tm_year b + 1900 + 1) (tm_year a + 1900)). lia. }
  rewrite <- Ey in *. assert (tm_yday a = tm_yday b) as Ed by lia. assert (tm_mon a = tm_mon b) as Em.
  { set (ma := Z.to_nat (tm_mon a)) in *. set (mb := Z.to_nat (tm_mon b)) in *. pose proof (lookup_lt_Some _ _ _ A5) as La. pose proof (lookup_lt_Some _ _ _ B5) as Lb. cbn in La, Lb.
    pose proof (month_start_next _ _ _ A5). pose proof (month_start_next _ _ _ B5).
    destruct (decide (ma < mb)%nat) as [Hlt|Hlt]; [pose proof (month_start_mono (leap_year (tm_year a + 1900)) (S ma) mb); lia|].
    destruct (decide (mb < ma)%nat) as [Hgt|Hgt]; [pose proof (month_start_mono (leap_year (tm_year a + 1900)) (S mb) ma); lia|]. lia. }
  rewrite <- Em in *. repeat split; try done; [lia|]. rewrite A7, B7. by rewrite Ed.
Qed.

(** ** Clocks *)

(** A conversion that shows the time [off] seconds east of UTC, without daylight saving. *)
Definition clock (first_day : Z → Z) (convert : Z → option (error + tm)) (off : Z) : Prop :=
  ∀ t, - 2 ^ 63 <= t < 2 ^ 63 →
    (year_fits first_day (t + off) → ∃ tp, convert t = Some (inr tp) ∧ broken_down first_day (t + off) tp ∧ tm_isdst tp = 0) ∧
    (¬ year_fits first_day (t + off) → convert t = Some (inl EOVERFLOW)).

Lemma clock_new_year f convert off : gregorian f → clock f convert off →
  ∀ t, - 2 ^ 63 <= t < 2 ^ 63 →
    if decide (year_fits new_year (t + off)) then ∃ tp, convert t = Some (inr tp) ∧ broken_down new_year (t + off) tp ∧ tm_isdst tp = 0 else convert t = Some (inl EOVERFLOW).
Proof.
  intros Hg Hc t Ht. destruct (Hc t Ht) as [H1 H2]. unfold year_fits in *. rewrite !(gregorian_unique f _ Hg) in *. destruct (decide _) as [Hy|Hy]; [|by apply H2].
  destruct (H1 Hy) as (tp & E & Hb & Hi). exists tp. split; [done|]. split; [|done]. destruct Hb. constructor; by rewrite <- ?(gregorian_unique f _ Hg).
Qed.

Lemma bd_new_year f s tp : gregorian f → broken_down new_year s tp → broken_down f s tp.
Proof. intros Hg []. constructor; by rewrite ?(gregorian_unique f _ Hg). Qed.

Lemma gmtime_clock f tmp : gregorian f → clock f (λ t, gmtime_r t tmp) 0.
Proof.
  intros Hg t Ht. rewrite Z.add_0_r. pose proof (gmtime_ok t tmp Ht) as H. unfold year_fits in *. rewrite !(gregorian_unique f _ Hg). destruct (decide _) as [Hy|Hy].
  - split; [|done]. intros _. destruct H as (tp & E & Hb & Hi & _). exists tp. split; [done|]. split; [by apply bd_new_year|done].
  - split; [done|]. by intros _.
Qed.

(** The seconds that the fields of a request stand for. *)
Definition wanted (first_day : Z → Z) (tp : tm) (sec : Z) : Z :=
  let year := tm_year tp + tm_mon tp / 12 + 1900 in
  (((first_day year + month_start (leap_year year) (Z.to_nat (tm_mon tp mod 12)) + tm_mday tp - 1) * 24 + tm_hour tp) * 60 + tm_min tp) * 60 + sec.

Lemma wanted_requested f tp sec : gregorian f → wanted f tp sec = requested tp sec.
Proof. intros Hg. unfold wanted, requested, seconds. rewrite !(gregorian_unique f _ Hg). lia. Qed.

(** ** Properties *)

(** C30. [offtime] ends, and with success just if the year of the time fits in [tm_year]; then
    it stores the date and the time of day of the second [t + offset] in the Gregorian
    calendar. *)
Theorem offtime_breaks_down f fuel t offset tp : gregorian f → - 2 ^ 63 <= t < 2 ^ 63 → Z.abs offset <= 2 ^ 62 → Z.abs offset / 86400 + 64 <= Z.of_nat fuel →
  ∃ ok tp', offtime fuel t offset tp = Some (ok, tp') ∧ (ok = true ↔ year_fits f (t + offset)) ∧ (ok = true → broken_down f (t + offset) tp').
Proof.
  intros Hg Ht Ho Hf. unfold year_fits. rewrite !(gregorian_unique f _ Hg). destruct (offtime_ok fuel t offset tp Ht Ho Hf) as [(Hy & tp' & E & Hb & _)|(Hn & tp' & E)].
  - exists true, tp'. split; [done|]. split; [done|]. intros _. by apply bd_new_year.
  - exists false, tp'. split; [done|]. split; [|done]. split; [done|]. intros Hy. by destruct Hn.
Qed.

Lemma offtime_breaks_down_witness : gregorian new_year ∧
  ∃ ok tp', offtime 70 951782400 3600 (Tm 0 0 0 0 0 0 0 0 0 0) = Some (ok, tp') ∧ (ok = true ↔ year_fits new_year (951782400 + 3600)) ∧ (ok = true → broken_down new_year (951782400 + 3600) tp').
Proof. split; [apply new_year_gregorian|]. apply offtime_breaks_down; [apply new_year_gregorian|lia|lia|by vm_compute]. Defined.

(** C29. [mktime] on a clock at a fixed distance from UTC that never shows daylight saving,
    whatever guess it starts from and for any [int] fields, normalised or not.  If daylight
    saving is not asked for ([tm_isdst <= 0]) it returns the time at which the clock shows
    the second that the fields name; if it is asked for, the time one hour earlier, at which
    the clock shows one hour less than the fields name.  The date stored is what the clock
    shows at the time returned, and the distance is kept for the next guess.  It fails,
    with [EOVERFLOW], exactly if one of three years does not fit in [tm_year]: that of the
    fields with their seconds cut to 0..59, as the probes use them; the same less the hour;
    that of the result.  For seconds in 0..59 and without daylight saving the three are one,
    so that [mktime] then succeeds just if the year of the fields fits. *)
Theorem mktime_inverts f convert off tp offset : gregorian f → clock f convert off → Z.abs off <= 2 ^ 31 → int_fields tp →
  let d := if 0 <? tm_isdst tp then 3600 else 0 in
  let t := wanted f tp (tm_sec tp) - d - off in
  let cut := wanted f tp (clamp (tm_sec tp)) in
  ∃ r offset', mktime_internal convert tp offset = Some (r, offset') ∧
    match r with
    | inr (t', tp') => t' = t ∧ broken_down f (t + off) tp' ∧ offset' = - off - d ∧ year_fits f cut ∧ year_fits f (cut - d) ∧ year_fits f (t + off)
    | inl e => e = EOVERFLOW ∧ (¬ year_fits f cut ∨ ¬ year_fits f (cut - d) ∨ ¬ year_fits f (t + off))
    end ∧
    (tm_isdst tp <= 0 → 0 <= tm_sec tp <= 59 → t = wanted f tp (tm_sec tp) - off ∧ ((∃ x, r = inr x) ↔ year_fits f (wanted f tp (tm_sec tp)))).
Proof.
  intros Hg Hc Hoff Htp d t cut. pose proof (mktime_ok convert off (clock_new_year f convert off Hg Hc) Hoff tp offset Htp) as H. cbv zeta in H.
  rewrite <- !(wanted_requested f) in H by done. fold d cut in H. change (wanted f tp (tm_sec tp) - d - off) with t in H.
  assert (∀ s, year_fits f s ↔ year_fits new_year s) as Hfit by (intros s; unfold year_fits; by rewrite !(gregorian_unique f _ Hg)).
  assert (wanted f tp (tm_sec tp) - d = t + off) as Et by (unfold t; lia). rewrite Et in H.
  assert (tm_isdst tp <= 0 → 0 <= tm_sec tp <= 59 → d = 0 ∧ cut = wanted f tp (tm_sec tp)) as Hplain.
  { intros Hi Hs. unfold d, cut, clamp. by rewrite !(proj2 (Z.ltb_ge _ _)) by lia. }
  destruct (decide (year_fits new_year cut ∧ year_fits new_year (cut - d))) as [[Hf1 Hf2]|Hn]; [destruct (decide _) as [Hf3|Hn]|].
  - destruct H as (tp' & E & (_ & _ & Hb & _)). eexists _, _. split; [exact E|]. cbn beta iota. split.
    + split; [done|]. split; [by apply bd_new_year|]. by rewrite !Hfit.
    + intros Hi Hs. destruct (Hplain Hi Hs) as [Ed Ec]. rewrite <- Ec, Hfit. split; [lia|]. naive_solver.
  - eexists _, _. split; [exact H|]. cbn beta iota. split; [rewrite !Hfit; split; [done|tauto]|].
    intros Hi Hs. destruct (Hplain Hi Hs) as [Ed Ec]. rewrite Hfit. split; [lia|]. split; [by intros [? ?]|].
    intros Hy. destruct Hn. by replace (t + off) with (wanted f tp (tm_sec tp)) by lia.
  - eexists _, _. split; [exact H|]. cbn beta iota. split; [rewrite !Hfit; split; [done|destruct (decide (year_fits new_year cut)); tauto]|].
    intros Hi Hs. destruct (Hplain Hi Hs) as [Ed Ec]. rewrite <- Ec, Hfit. split; [lia|]. split; [by intros [? ?]|].
    intros Hy. destruct Hn. by rewrite Ed, Z.sub_0_r.
Qed.

(** Without daylight saving and with seconds in range, then with both. *)
Lemma mktime_inverts_witness : let tp := Tm 20 13 (-2) 14 (-10) 123 0 0 0 0 in
  (∃ r o, mktime_internal (λ t, gmtime_r t tp) tp 77 = Some (r, o) ∧ ((∃ x, r = inr x) ↔ year_fits new_year (wanted new_year tp 20))) ∧
  let tp := Tm 80 13 (-2) 14 (-10) 123 0 0 1 0 in let t := wanted new_year tp 80 - 3600 - 0 in
  ∃ r o, mktime_internal (λ t, gmtime_r t tp) tp 77 = Some (r, o) ∧
    match r with
    | inr (t', tp') => t' = t ∧ broken_down new_year (t + 0) tp' ∧ o = - 0 - 3600 ∧
        year_fits new_year (wanted new_year tp 59) ∧ year_fits new_year (wanted new_year tp 59 - 3600) ∧ year_fits new_year (t + 0)
    | inl e => e = EOVERFLOW ∧ (¬ year_fits new_year (wanted new_year tp 59) ∨ ¬ year_fits new_year (wanted new_year tp 59 - 3600) ∨ ¬ year_fits new_year (t + 0))
    end.
Proof.
  cbv zeta. split.
  - edestruct (mktime_inverts new_year _ 0 (Tm 20 13 (-2) 14 (-10) 123 0 0 0 0) 77 new_year_gregorian
      (gmtime_clock _ (Tm 20 13 (-2) 14 (-10) 123 0 0 0 0) new_year_gregorian))
      as (r & o & E & _ & H); [lia|constructor; unfold is_int; cbn [tm_sec tm_min tm_hour tm_mday tm_mon tm_year]; lia|].
    exists r, o. split; [exact E|]. apply H; cbn [tm_sec tm_isdst]; lia.
  - edestruct (mktime_inverts new_year _ 0 (Tm 80 13 (-2) 14 (-10) 123 0 0 1 0) 77 new_year_gregorian
      (gmtime_clock _ (Tm 80 13 (-2) 14 (-10) 123 0 0 1 0) new_year_gregorian))
      as (r & o & E & H & _); [lia|constructor; unfold is_int; cbn [tm_sec tm_min tm_hour tm_mday tm_mon tm_year]; lia|].
    exists r, o. split; [exact E|exact H].
Defined.

(** A broken-down time, read as a request. *)
Lemma requested_broken_down t tp : broken_down new_year t tp → requested tp (tm_sec tp) = t.
Proof.
  intros [H1 H2 H3 H4 (v & Hv & Hd) Hy _ Ht]. apply lookup_lt_Some in Hv. cbn in Hv. unfold requested, seconds.
  assert (tm_mon tp / 12 = 0 ∧ tm_mon tp mod 12 = tm_mon tp) as [-> ->] by (Z.to_euclidean_division_equations; lia). rewrite Z.add_0_r, <- Hy. lia.
Qed.

(** C31. What [gmtime_r] shows for a time, [timegm] turns back into that time and that date;
    its guess stays 0. *)
Theorem timegm_gmtime t tmp tp : - 2 ^ 63 <= t < 2 ^ 63 → gmtime_r t tmp = Some (inr tp) →
  ∃ tp', timegm tp 0 = Some (inr (t, tp'), 0) ∧ same_date tp' tp.
Proof.
  intros Ht E. pose proof (gmtime_ok t tmp Ht) as H. destruct (decide (year_fits new_year t)) as [Hy|Hy]; [|congruence]. destruct H as (tp1 & E1 & Hb & Hi & _).
  rewrite E in E1. injection E1 as <-. unfold timegm. set (req := Tm _ _ _ _ _ _ _ _ _ _).
  assert (broken_down new_year t req) as Hbr by (destruct Hb; by constructor). assert (tm_isdst req = 0) as Hreq0 by done. clearbody req. pose proof (requested_broken_down t req Hbr) as Er.
  assert (clamp (tm_sec req) = tm_sec req) as Ec. { pose proof (bd_sec _ _ _ Hbr). unfold clamp. by rewrite (proj2 (Z.ltb_ge _ 0)), (proj2 (Z.ltb_ge 59 _)) by lia. }
  assert (int_fields req) as Hint.
  { pose proof (bd_year _ _ Hbr Hy). destruct Hbr as [H1 H2 H3 H4 (v & Hv & Hd) _ _ _]. pose proof (month_days_le _ _ _ Hv). apply lookup_lt_Some in Hv. cbn in Hv.
    pose proof (year_days_range (tm_year req + 1900)) as Hyd. rewrite year_days_months in Hyd. constructor; unfold is_int; lia. }
  pose proof (mktime_ok (λ t, gmtime_r t req) 0 (clock_new_year _ _ _ new_year_gregorian (gmtime_clock _ req new_year_gregorian)) ltac:(lia) req 0 Hint) as H.
  cbv zeta in H. rewrite Ec, Er in H. rewrite Hreq0 in H. change (0 <? 0) with false in H. cbv iota in H. rewrite !Z.sub_0_r in H. rewrite decide_True, decide_True in H by done.
  destruct H as (tp' & E' & (_ & _ & Hb' & _)). rewrite Z.add_0_r in Hb'. exists tp'. split; [exact E'|]. destruct (bd_unique _ _ _ _ new_year_gregorian Hb' Hb) as (?&?&?&?&?&?&?&?). by repeat split.
Qed.

Lemma timegm_gmtime_witness : let tp := Tm 20 13 22 14 10 123 2 317 0 0 in
  gmtime_r 1700000000 tp = Some (inr tp) ∧ ∃ tp', timegm tp 0 = Some (inr (1700000000, tp'), 0) ∧ same_date tp' tp.
Proof. cbv zeta. split; [by vm_compute|]. apply (timegm_gmtime 1700000000 (Tm 20 13 22 14 10 123 2 317 0 0)); [lia|by vm_compute]. Defined.

(** The last second of the last year, asked for as the second before the next year: it could
    be represented, but [timegm] fails. *)
Theorem timegm_fails_early : let tp := Tm (-1) 0 0 1 12 2147483647 0 0 0 0 in
  int_fields tp ∧ year_fits new_year (requested tp (tm_sec tp)) ∧ timegm tp 0 = Some (inl EOVERFLOW, 0).
Proof.
  cbv zeta. split; [|split; [|by vm_compute]].
  - constructor; unfold is_int; cbn [tm_sec tm_min tm_hour tm_mday tm_mon tm_year]; lia.
  - apply (bool_decide_unpack _). by vm_compute.
Qed.
