(* ===== verification/Strtol.v ===== *)
(** * Strtol: stdlib/strtol_l.c and stdlib/strtol.c

    The functions for [char] without grouping of digits ([group] is 0, as it is for [strtol]
    and [strtoul]).  The string is the array from [nptr] on, a pointer into it an index; a
    read outside has no result.  [isspace] belongs to the locale and is a parameter; letters
    are those of the C locale. *)

From S2P Require Import Prelude Bytes.
Local Open Scope Z_scope.

Inductive strtol_errno := ERANGE | EINVAL.

Definition ISALPHA (c : Z) : bool := ((65 <=? c) && (c <=? 90)) || ((97 <=? c) && (c <=? 122)).
Definition TOUPPER (c : Z) : Z := if (97 <=? c) && (c <=? 122) then c - 32 else c.

Definition ULONG_MAX : Z := 2 ^ 64 - 1.
Definition LONG_MAX : Z := Z.shiftr ULONG_MAX 1.
Definition LONG_MIN : Z := - LONG_MAX - 1.

(** [cutoff_tab[base - 2]] and [cutlim_tab[base - 2]] *)
Definition cutoff_tab : list Z := (λ X, Z.quot ULONG_MAX (Z.of_nat X)) <$> seq 2 35.
Definition cutlim_tab : list Z := (λ X, Z.rem ULONG_MAX (Z.of_nat X)) <$> seq 2 35.

(** The value returned, the index stored in [*endptr], if one is, and the [errno] set. *)
Record result := Result { ret : Z; endptr : option Z; err : option strtol_errno }.

Section strtol.
Context (isspace : Z → bool) (UNSIGNED : bool) (str : list Z).

(** [*s], a [char] *)
Definition char_at (s : Z) : option Z := c ← get_byte str s; Some (wraps 8 c).

Fixpoint skip_white (fuel : nat) (s : Z) : option Z :=
  match fuel with
  | O => None
  | S fuel => c ← char_at s; if isspace c then skip_white fuel (s + 1) else Some s
  end.

(** [negative] and [s] behind the sign. *)
Definition read_sign (s : Z) : option (bool * Z) :=
  c ← char_at s;
  if c =? 45 then Some (true, s + 1) else if c =? 43 then Some (false, s + 1) else Some (false, s).

(** [base] and [s] behind the prefix. *)
Definition read_prefix (bin_cst : bool) (base s : Z) : option (Z * Z) :=
  c ← char_at s;
  if c =? 48 then
    c1 ← char_at (s + 1);
    if ((base =? 0) || (base =? 16)) && (TOUPPER c1 =? 88) then Some (16, s + 2)
    else if bin_cst && ((base =? 0) || (base =? 2)) && (TOUPPER c1 =? 66) then Some (2, s + 2)
    else if base =? 0 then Some (8, s) else Some (base, s)
  else if base =? 0 then Some (10, s) else Some (base, s).

(** The loop over the digits; [c] is an [unsigned char]. *)
Fixpoint digits_loop (fuel : nat) (base cutoff cutlim s i : Z) (overflow : bool) : option (Z * Z * bool) :=
  match fuel with
  | O => None
  | S fuel =>
      c ← get_byte str s;
      if c =? 0 then Some (s, i, overflow)
      else
        let d := if (48 <=? c) && (c <=? 57) then Some (u8 (c - 48)) else if ISALPHA c then Some (u8 (TOUPPER c - 65 + 10)) else None in
        match d with
        | None => Some (s, i, overflow)
        | Some c =>
            if base <=? c then Some (s, i, overflow)
            else if (cutoff <? i) || ((i =? cutoff) && (cutlim <? c)) then digits_loop fuel base cutoff cutlim (s + 1) i true
            else digits_loop fuel base cutoff cutlim (s + 1) (u64 (u64 (i * base) + c)) overflow
        end
  end.

(** What is done at [noconv]. *)
Definition noconv (bin_cst : bool) (save : Z) : option result :=
  e ← (if 2 <=? save then
         c1 ← char_at (save - 1); c2 ← char_at (save - 2);
         Some (if ((TOUPPER c1 =? 88) || (bin_cst && (TOUPPER c1 =? 66))) && (c2 =? 48) then save - 1 else 0)
       else Some 0);
  Some (Result 0 (Some e) None).

(** What follows the loop: the range of the type and the sign. *)
Definition finish (negative overflow : bool) (s i : Z) : result :=
  let overflow := if UNSIGNED then overflow else
    if negb overflow && ((if negative then u64 (u64 (- u64 (LONG_MIN + 1)) + 1) else LONG_MAX) <? i) then true else overflow in
  if overflow then Result (if UNSIGNED then ULONG_MAX else if negative then LONG_MIN else LONG_MAX) (Some s) (Some ERANGE)
  else
    let v := if negative then u64 (- i) else i in
    Result (if UNSIGNED then v else i64 v) (Some s) None.

Definition strtol_l_internal (fuel : nat) (base : Z) (bin_cst : bool) : option result :=
  if (base <? 0) || (base =? 1) || (36 <? base) then Some (Result 0 None (Some EINVAL))
  else
    s ← skip_white fuel 0;
    c ← char_at s;
    if c =? 0 then noconv bin_cst 0
    else
      '(negative, s) ← read_sign s;
      '(base, s) ← read_prefix bin_cst base s;
      let save := s in
      cutoff ← cutoff_tab !! Z.to_nat (base - 2);
      cutlim ← cutlim_tab !! Z.to_nat (base - 2);
      '(s, i, overflow) ← digits_loop fuel base cutoff cutlim s 0 false;
      if s =? save then noconv bin_cst save
      else Some (finish negative overflow s i).
End strtol.

Definition strtol (isspace : Z → bool) (fuel : nat) (nptr : list Z) (base : Z) : option result := strtol_l_internal isspace false nptr fuel base false.
Definition strtoul (isspace : Z → bool) (fuel : nat) (nptr : list Z) (base : Z) : option result := strtol_l_internal isspace true nptr fuel base false.
Definition isoc23_strtol (isspace : Z → bool) (fuel : nat) (nptr : list Z) (base : Z) : option result := strtol_l_internal isspace false nptr fuel base true.
Definition isoc23_strtoul (isspace : Z → bool) (fuel : nat) (nptr : list Z) (base : Z) : option result := strtol_l_internal isspace true nptr fuel base true.
