(* ===== verification/StrtolProps.v ===== *)
(** * StrtolProps: [strtol] and [strtoul] against arithmetic without bounds *)

From S2P Require Import Prelude Bytes Strtol.
Local Open Scope Z_scope.

(** ** The reference *)

(** The longest front of elements with [P], and what is behind it. *)
Fixpoint front (P : Z → bool) (l : list Z) : list Z := match l with [] => [] | c :: l => if P c then c :: front P l else [] end.
Fixpoint back (P : Z → bool) (l : list Z) : list Z := match l with [] => [] | c :: l' => if P c then back P l' else l end.

Definition digit (c : Z) : Z := if (48 <=? c) && (c <=? 57) then c - 48 else if ISALPHA c then TOUPPER c - 55 else 36.
Definition is_digit (base c : Z) : bool := digit c <? base.
Definition number (base n : Z) (ds : list Z) : Z := foldl (λ n c, n * base + digit c) n ds.

Definition sign (l : list Z) : bool * nat :=
  match l with c :: _ => if c =? 45 then (true, 1%nat) else if c =? 43 then (false, 1%nat) else (false, 0%nat) | [] => (false, 0%nat) end.

(** The base, and the length of the prefix. *)
Definition prefix (bin_cst : bool) (base : Z) (l : list Z) : Z * nat :=
  match l with
  | 48 :: l =>
      let c := TOUPPER (List.hd 0 l) in
      if ((base =? 0) || (base =? 16)) && (c =? 88) then (16, 2%nat)
      else if bin_cst && ((base =? 0) || (base =? 2)) && (c =? 66) then (2, 2%nat)
      else (if base =? 0 then 8 else base, 0%nat)
  | _ => (if base =? 0 then 10 else base, 0%nat)
  end.

(** A number brought into the range of the type. *)
Definition converted (UNSIGNED negative : bool) (e n : Z) : result :=
  if UNSIGNED then
    if ULONG_MAX <? n then Result ULONG_MAX (Some e) (Some ERANGE) else Result (if negative then - n mod 2 ^ 64 else n) (Some e) None
  else
    let v := if negative then - n else n in
    if v <? LONG_MIN then Result LONG_MIN (Some e) (Some ERANGE)
    else if LONG_MAX <? v then Result LONG_MAX (Some e) (Some ERANGE) else Result v (Some e) None.

Definition strtol_ref (isspace : Z → bool) (UNSIGNED bin_cst : bool) (base : Z) (l : list Z) : result :=
  if (base <? 0) || (base =? 1) || (36 <? base) then Result 0 None (Some EINVAL)
  else
    let l1 := back (λ c, isspace (wraps 8 c)) l in
    let (negative, k1) := sign l1 in
    let l2 := drop k1 l1 in
    let (b, k2) := prefix bin_cst base l2 in
    let l3 := drop k2 l2 in
    let ds := front (is_digit b) l3 in
    let save := len l - len l3 in
    match ds with
    | [] => Result 0 (Some (if bool_decide (k2 = 2%nat) then save - 1 else 0)) None
    | _ => converted UNSIGNED negative (save + len ds) (number b 0 ds)
    end.

(** ** Lists *)

Lemma front_back P l : front P l ++ back P l = l.
Proof. induction l as [|c l IH]; [done|]. cbn. destruct (P c); [cbn; by rewrite IH|done]. Qed.

Lemma front_all P l : Forall (λ c, P c = true) (front P l).
Proof. induction l as [|c l IH]; [constructor|]. cbn. destruct (P c) eqn:E; by constructor. Qed.

Definition chars (l : list Z) : Prop := Forall (λ c, 0 < c < 256) l.

(** ** Characters, prefixes and overflow *)

(** The number read so far: within the range of [unsigned long], or [overflow] is set. *)
Definition reads (n i : Z) (overflow : bool) : Prop := 0 <= i <= ULONG_MAX ∧ if overflow then ULONG_MAX < n else i = n.

(** A character compared with a constant. *)
Lemma low_eqb c k : 0 <= c < 256 → 0 <= k < 128 → (wraps 8 c =? k) = (c =? k).
Proof.
  intros Hc Hk. destruct (decide (c < 128)); [by rewrite wraps_small by lia|]. rewrite (proj2 (Z.eqb_neq c k)) by lia. apply Z.eqb_neq.
  unfold wraps. change (2 ^ (8 - 1)) with 128. change (2 ^ 8) with 256. Z.to_euclidean_division_equations; lia.
Qed.

Lemma toupper_eqb c k : 0 <= c < 256 → k = 88 ∨ k = 66 → (TOUPPER (wraps 8 c) =? k) = (TOUPPER c =? k).
Proof.
  intros Hc Hk. destruct (decide (c < 128)); [by rewrite wraps_small by lia|]. unfold TOUPPER.
  assert (wraps 8 c < 0) as Hw by (unfold wraps; change (2 ^ (8 - 1)) with 128; change (2 ^ 8) with 256; Z.to_euclidean_division_equations; lia).
  rewrite (proj2 (Z.leb_gt 97 (wraps 8 c))), (proj2 (Z.leb_le 97 c)), (proj2 (Z.leb_gt c 122)) by lia. cbn [andb].
  rewrite !(proj2 (Z.eqb_neq _ _)) by lia. done.
Qed.

(** A sign is not a letter. *)
Lemma sign_cases q : (sign q).2 = 0%nat ∨ ∃ c q', q = c :: q' ∧ (sign q).2 = 1%nat ∧ ISALPHA (wraps 8 c) = false.
Proof.
  destruct q as [|c q]; [by left|]. cbn [sign]. destruct (c =? 45) eqn:E1; [zb; subst c; right; by exists 45, q|].
  destruct (c =? 43) eqn:E2; [zb; subst c; right; by exists 43, q|by left].
Qed.

Lemma prefix_length bin_cst base q : ((prefix bin_cst base q).2 <= length q)%nat.
Proof.
  destruct q as [|c q]; [done|]. cbn [prefix]. destruct c as [|c|c]; try (cbn; lia). do 6 (destruct c as [c|c|]; try (cbn; lia)).
  destruct q as [|c q]; cbn [List.hd].
  - change (TOUPPER 0 =? 88) with false. change (TOUPPER 0 =? 66) with false. rewrite !andb_false_r. cbn. lia.
  - destruct (_ && _); [cbn; lia|]. destruct (_ && _ && _); cbn; lia.
Qed.

Lemma prefix_base bin_cst base q : 0 <= base <= 36 → base ≠ 1 → 2 <= (prefix bin_cst base q).1 <= 36.
Proof.
  intros Hb H1. assert (∀ x, 2 <= x <= 36 → 2 <= (if base =? 0 then x else base) <= 36) as H by (intros x Hx; destruct (base =? 0) eqn:E; zb; lia).
  destruct q as [|c q]; [by apply H|]. cbn [prefix]. destruct c as [|c|c]; try (by apply H). do 6 (destruct c as [c|c|]; try (by apply H)).
  destruct (_ && _); [done|]. destruct (_ && _ && _); [done|]. by apply H.
Qed.

Lemma cutoff_ok base : 2 <= base <= 36 → cutoff_tab !! Z.to_nat (base - 2) = Some (ULONG_MAX / base) ∧ cutlim_tab !! Z.to_nat (base - 2) = Some (ULONG_MAX mod base).
Proof.
  intros Hb. unfold cutoff_tab, cutlim_tab. rewrite !list_lookup_fmap, !lookup_seq_lt by lia. cbn [fmap option_fmap option_map].
  replace (Z.of_nat (2 + Z.to_nat (base - 2))) with base by lia. rewrite Z.quot_div_nonneg, Z.rem_mod_nonneg by (unfold ULONG_MAX; lia). done.
Qed.

(** The overflow test is exact. *)
Lemma overflow_test base n i overflow d : 2 <= base <= 36 → 0 <= d < base → reads n i overflow →
  if (ULONG_MAX / base <? i) || ((i =? ULONG_MAX / base) && (ULONG_MAX mod base <? d)) then reads (n * base + d) i true
  else u64 (u64 (i * base) + d) = i * base + d ∧ reads (n * base + d) (i * base + d) overflow.
Proof.
  unfold reads. intros Hb Hd [Hi Hn]. pose proof (Z.div_mod ULONG_MAX base ltac:(lia)) as E. pose proof (Z.mod_pos_bound ULONG_MAX base ltac:(lia)) as Hm.
  set (q := ULONG_MAX / base) in *. set (m := ULONG_MAX mod base) in *. destruct ((q <? i) || ((i =? q) && (m <? d))) eqn:Et.
  - split; [done|]. assert (ULONG_MAX < i * base + d) as H.
    { apply orb_true_iff in Et as [Et|Et]; [|apply andb_true_iff in Et as [Et1 Et2]]; zb; nia. }
    destruct overflow; [|subst i; done]. assert (0 <= ULONG_MAX) by done. nia.
  - assert (i * base + d <= ULONG_MAX) as H.
    { apply orb_false_iff in Et as [Et1 Et2]; zb. apply andb_false_iff in Et2 as [Et2|Et2]; zb; [assert (i <= q - 1) by lia; nia|nia]. }
    change ULONG_MAX with (2 ^ 64 - 1) in *. rewrite (wrapu_small 64 (i * base)), wrapu_small by nia. split; [done|]. split; [nia|]. destruct overflow; [nia|by subst i].
Qed.

Lemma digit_ok c : 0 < c < 256 →
  (if (48 <=? c) && (c <=? 57) then Some (u8 (c - 48)) else if ISALPHA c then Some (u8 (TOUPPER c - 65 + 10)) else None) = (if digit c =? 36 then None else Some (digit c)) ∧ 0 <= digit c <= 36.
Proof.
  intros Hc. unfold digit. destruct ((48 <=? c) && (c <=? 57)) eqn:E1.
  - apply andb_true_iff in E1 as [E1 E2]; zb. rewrite (wrapu_small 8), (proj2 (Z.eqb_neq _ _)) by lia. split; [done|lia].
  - unfold ISALPHA, TOUPPER. destruct ((65 <=? c) && (c <=? 90)) eqn:E2; [|destruct ((97 <=? c) && (c <=? 122)) eqn:E3]; cbn [orb].
    + apply andb_true_iff in E2 as [E2 E3]; zb. rewrite (proj2 (Z.leb_gt 97 c)) by lia. cbn [andb]. rewrite wrapu_small, (proj2 (Z.eqb_neq _ _)) by lia. split; [f_equal; lia|lia].
    + apply andb_true_iff in E3 as [E3 E4]; zb. rewrite wrapu_small, (proj2 (Z.eqb_neq _ _)) by lia. split; [f_equal; lia|lia].
    + split; [done|lia].
Qed.

Lemma toupper_alpha c k : k = 88 ∨ k = 66 → TOUPPER c = k → ISALPHA c = true.
Proof. unfold TOUPPER, ISALPHA. intros Hk E. destruct ((97 <=? c) && (c <=? 122)) eqn:E1; [by rewrite orb_true_r|]. destruct Hk as [-> | ->]; by subst c. Qed.

(** What a prefix is. *)
Lemma prefix_cases bin_cst base q : (prefix bin_cst base q).2 = 0%nat ∨
  ∃ c q', q = 48 :: c :: q' ∧ (prefix bin_cst base q).2 = 2%nat ∧ (TOUPPER c = 88 ∨ bin_cst = true ∧ TOUPPER c = 66).
Proof.
  destruct q as [|c q]; [by left|]. cbn [prefix]. destruct c as [|c|c]; try (by left). do 6 (destruct c as [c|c|]; try (by left)).
  destruct q as [|c q]; cbn [List.hd].
  - change (TOUPPER 0 =? 88) with false. change (TOUPPER 0 =? 66) with false. rewrite !andb_false_r. by left.
  - destruct (_ && (TOUPPER c =? 88)) eqn:E1; [|destruct (_ && (TOUPPER c =? 66)) eqn:E2]; [right|right|by left]; exists c, q; split; try done; split; try done.
    + apply andb_true_iff in E1 as [_ E1]; zb. by left.
    + apply andb_true_iff in E2 as [E2 E3]. apply andb_true_iff in E2 as [E2 _]. zb. by right.
Qed.

Section string.
Context (isspace : Z → bool) (UNSIGNED : bool) (l r : list Z).
Context (space0 : isspace 0 = false) (space_letter : ∀ c, isspace c = true → ISALPHA c = false) (Hl : chars l).
Set Default Proof Using "All".
Notation str := (l ++ 0 :: r).

Lemma get_at p q : l = p ++ q → get_byte str (len p) = Some (List.hd 0 q).
Proof.
  clear Hl. intros ->. unfold get_byte. rewrite (proj2 (Z.leb_le _ _)), Nat2Z.id by lia. rewrite <- app_assoc, lookup_app_r, Nat.sub_diag by done. by destruct q.
Qed.

Lemma char_at_ok p q : l = p ++ q → char_at str (len p) = Some (wraps 8 (List.hd 0 q)).
Proof. intros E. unfold char_at. by rewrite (get_at p q). Qed.

Lemma skip_ok q : ∀ p fuel, l = p ++ q → (length q < fuel)%nat →
  skip_white isspace str fuel (len p) = Some (len (p ++ front (λ c, isspace (wraps 8 c)) q)).
Proof.
  induction q as [|c q IH]; intros p fuel E Hf; (destruct fuel as [|fuel]; [cbn in Hf; lia|]); cbn [skip_white front]; rewrite (char_at_ok p _ E); cbn [List.hd mbind option_bind].
  - change (wraps 8 0) with 0. by rewrite space0, app_nil_r.
  - destruct (isspace (wraps 8 c)); [|by rewrite app_nil_r]. replace (len p + 1) with (len (p ++ [c])) by (rewrite length_app; cbn [length]; lia).
    rewrite IH; [by rewrite <- app_assoc|by rewrite <- app_assoc|cbn [length] in Hf; lia].
Qed.

(** ** Sign and prefix *)

Lemma char_lookup p c q : l = p ++ c :: q → 0 < c < 256.
Proof. intros E. pose proof Hl as H. rewrite E in H. apply Forall_app in H as [_ H]. by apply Forall_inv in H. Qed.

Lemma hd_range p q : l = p ++ q → 0 <= List.hd 0 q < 256.
Proof. destruct q as [|c q]; intros E; cbn [List.hd]; [lia|]. pose proof (char_lookup p c q E). lia. Qed.

Lemma sign_ok p q : l = p ++ q → read_sign str (len p) = Some ((sign q).1, len p + Z.of_nat (sign q).2).
Proof.
  intros E. unfold read_sign. rewrite (char_at_ok p q E). cbn [mbind option_bind]. rewrite !low_eqb by (first [by eapply hd_range|lia]).
  destruct q as [|c q]; cbn [List.hd sign].
  { change (0 =? 45) with false. change (0 =? 43) with false. cbn [fst snd]. by rewrite Z.add_0_r. }
  destruct (c =? 45); [|destruct (c =? 43)]; cbn [fst snd]; f_equal; f_equal; lia.
Qed.

Lemma prefix_ok bin_cst base p q : l = p ++ q →
  read_prefix str bin_cst base (len p) = Some ((prefix bin_cst base q).1, len p + Z.of_nat (prefix bin_cst base q).2).
Proof.
  intros E. unfold read_prefix. rewrite (char_at_ok p q E). cbn [mbind option_bind]. rewrite low_eqb by (first [by eapply hd_range|lia]).
  assert (∀ x : Z, Some (x, len p) = Some (x, len p + Z.of_nat 0)) as H0 by (intros; f_equal; f_equal; lia).
  destruct q as [|c q]; cbn [List.hd].
  { change (0 =? 48) with false. cbn [prefix fst snd]. destruct (base =? 0); apply H0. }
  destruct (c =? 48) eqn:Ec; zb.
  - subst c. assert (l = (p ++ [48]) ++ q) as E' by (by rewrite <- app_assoc). replace (len p + 1) with (len (p ++ [48])) by (rewrite length_app; cbn [length]; lia).
    rewrite (char_at_ok _ _ E'). cbn [mbind option_bind prefix]. rewrite !toupper_eqb by (first [by eapply hd_range|lia]).
    destruct (_ && (TOUPPER _ =? 88)); [done|]. destruct (_ && _ && _); [done|]. cbn [fst snd]. destruct (base =? 0); apply H0.
  - assert (prefix bin_cst base (c :: q) = (if base =? 0 then 10 else base, 0%nat)) as ->.
    { cbn [prefix]. destruct c as [|c|c]; try done. do 7 (destruct c as [c|c|]; try done). }
    cbn [fst snd]. destruct (base =? 0); apply H0.
Qed.

(** ** The digits *)

Lemma digits_ok base q : 2 <= base <= 36 → ∀ p fuel n i overflow, l = p ++ q → (length q < fuel)%nat → reads n i overflow →
  ∃ i' overflow', digits_loop str fuel base (ULONG_MAX / base) (ULONG_MAX mod base) (len p) i overflow = Some (len p + len (front (is_digit base) q), i', overflow') ∧
    reads (number base n (front (is_digit base) q)) i' overflow'.
Proof.
  intros Hb. induction q as [|c q IH]; intros p fuel n i overflow E Hf Hr; (destruct fuel as [|fuel]; [cbn in Hf; lia|]); cbn [digits_loop]; rewrite (get_at p _ E); cbn [List.hd mbind option_bind front].
  { exists i, overflow. by rewrite Z.add_0_r. }
  pose proof (char_lookup p c q E) as Hc. rewrite (proj2 (Z.eqb_neq c 0)) by lia. destruct (digit_ok c Hc) as [-> Hd]. unfold is_digit at 1 3.
  assert (∃ i' overflow', Some (len p, i, overflow) = Some (len p + len (@nil Z), i', overflow') ∧ reads (number base n []) i' overflow') as Hstop by (exists i, overflow; by rewrite Z.add_0_r).
  destruct (digit c =? 36) eqn:E36; zb. { by rewrite E36, (proj2 (Z.ltb_ge 36 base)) by lia. }
  destruct (digit c <? base) eqn:Eb; zb; [|by rewrite (proj2 (Z.leb_le _ _)) by lia]. rewrite (proj2 (Z.leb_gt _ _)) by lia.
  pose proof (overflow_test base n i overflow (digit c) Hb ltac:(lia) Hr) as Ht. replace (len p + 1) with (len (p ++ [c])) by (rewrite length_app; cbn [length]; lia).
  assert (∀ x y, Some (len (p ++ [c]) + len (front (is_digit base) q), x, y) = Some (len p + len (c :: front (is_digit base) q), x, y) :> option (Z * Z * bool)) as Hpos.
  { intros x y. rewrite length_app. cbn [length]. do 3 f_equal. lia. }
  assert (l = (p ++ [c]) ++ q) as E' by (by rewrite <- app_assoc). cbn [length] in Hf.
  destruct ((ULONG_MAX / base <? i) || ((i =? ULONG_MAX / base) && (ULONG_MAX mod base <? digit c))).
  - destruct (IH (p ++ [c]) fuel (n * base + digit c) i true E' ltac:(lia) Ht) as (i' & o' & -> & Hr'). exists i', o'. by rewrite Hpos.
  - destruct Ht as [-> Ht]. destruct (IH (p ++ [c]) fuel (n * base + digit c) _ overflow E' ltac:(lia) Ht) as (i' & o' & -> & Hr'). exists i', o'. by rewrite Hpos.
Qed.

(** ** The result *)

Lemma finish_ok negative e n i overflow : reads n i overflow → finish UNSIGNED negative overflow e i = converted UNSIGNED negative e n.
Proof.
  clear. unfold reads. intros [Hi Hn]. unfold finish, converted. change LONG_MAX with (2 ^ 63 - 1). change LONG_MIN with (- 2 ^ 63). change ULONG_MAX with (2 ^ 64 - 1) in *.
  change (u64 (u64 (- u64 (- 2 ^ 63 + 1)) + 1)) with (2 ^ 63). destruct UNSIGNED, overflow; cbn [negb andb].
  - by rewrite (proj2 (Z.ltb_lt _ _)).
  - subst n. by rewrite (proj2 (Z.ltb_ge _ _)) by lia.
  - destruct negative; [by rewrite (proj2 (Z.ltb_lt _ _)) by lia|]. by rewrite (proj2 (Z.ltb_ge n _)), (proj2 (Z.ltb_lt _ n)) by lia.
  - subst n. destruct negative.
    + destruct (2 ^ 63 <? i) eqn:E; zb; [by rewrite (proj2 (Z.ltb_lt _ _)) by lia|]. rewrite (proj2 (Z.ltb_ge (- i) _)), (proj2 (Z.ltb_ge _ (- i))) by lia.
      f_equal. unfold wrapu, wraps. change (2 ^ (64 - 1)) with (2 ^ 63). Z.to_euclidean_division_equations; lia.
    + destruct (2 ^ 63 - 1 <? i) eqn:E; zb; [by rewrite (proj2 (Z.ltb_ge i _)) by lia|]. rewrite (proj2 (Z.ltb_ge i _)) by lia. by rewrite wraps_small by lia.
Qed.

(** No letter is before the digits. *)
Lemma noconv_plain bin_cst p q : l = p ++ q → (∀ p' x, p = p' ++ [x] → ISALPHA (wraps 8 x) = false) → noconv str bin_cst (len p) = Some (Result 0 (Some 0) None).
Proof.
  intros E Hlast. unfold noconv. destruct (2 <=? len p) eqn:E2; [|done]. zb. destruct p as [|x p _] using rev_ind; [cbn in E2; lia|]. destruct p as [|y p _] using rev_ind; [cbn in E2; lia|].
  rewrite !length_app in *. cbn [length] in *. replace (Z.of_nat (length p + 1 + 1) - 1) with (len (p ++ [y])) by (rewrite length_app; cbn [length]; lia).
  replace (Z.of_nat (length p + 1 + 1) - 2) with (len p) by lia. rewrite (char_at_ok (p ++ [y]) (x :: q)) by (by rewrite E, <- !app_assoc). rewrite (char_at_ok p (y :: x :: q)) by (by rewrite E, <- !app_assoc).
  cbn [List.hd mbind option_bind]. specialize (Hlast _ _ eq_refl).
  assert (∀ k, k = 88 ∨ k = 66 → TOUPPER (wraps 8 x) =? k = false) as Hk by (intros k Hk; apply Z.eqb_neq; intros Ek; by rewrite (toupper_alpha _ _ Hk Ek) in Hlast).
  rewrite !Hk by auto. by rewrite andb_false_r.
Qed.

Lemma noconv_prefix bin_cst p c q : l = p ++ 48 :: c :: q → TOUPPER c = 88 ∨ bin_cst = true ∧ TOUPPER c = 66 → noconv str bin_cst (len p + 2) = Some (Result 0 (Some (len p + 2 - 1)) None).
Proof.
  intros E Hc. unfold noconv. rewrite (proj2 (Z.leb_le _ _)) by lia. replace (len p + 2 - 1) with (len (p ++ [48])) by (rewrite length_app; cbn [length]; lia). replace (len p + 2 - 2) with (len p) by lia.
  rewrite (char_at_ok (p ++ [48]) (c :: q)) by (by rewrite E, <- app_assoc). rewrite (char_at_ok p _ E). cbn [List.hd mbind option_bind].
  pose proof (char_lookup (p ++ [48]) c q) as Hr. rewrite <- app_assoc in Hr. specialize (Hr E). rewrite !toupper_eqb by lia. change (wraps 8 48 =? 48) with true.
  destruct Hc as [->|[-> ->]]; done.
Qed.

Lemma strtol_ok fuel base bin_cst : (length l < fuel)%nat →
  strtol_l_internal isspace UNSIGNED str fuel base bin_cst = Some (strtol_ref isspace UNSIGNED bin_cst base l).
Proof.
  intros Hf. unfold strtol_l_internal, strtol_ref. destruct ((base <? 0) || (base =? 1) || (36 <? base)) eqn:Eb; [done|].
  assert (0 <= base <= 36 ∧ base ≠ 1) as [Hb Hb1] by (apply orb_false_iff in Eb as [Eb E3]; apply orb_false_iff in Eb as [E1 E2]; zb; lia).
  set (P := λ c, isspace (wraps 8 c)). pose proof (skip_ok l [] fuel eq_refl Hf) as Es. cbn [length app] in Es. change (Z.of_nat 0) with 0 in Es. rewrite Es. clear Es. fold P. cbn [mbind option_bind].
  pose proof (front_back P l) as El. symmetry in El. pose proof (front_all P l) as Hp. set (p1 := front P l) in *. set (l1 := back P l) in *. clearbody p1 l1.
  rewrite (char_at_ok p1 l1 El). cbn [mbind option_bind]. rewrite low_eqb by (first [by eapply hd_range|lia]).
  destruct (List.hd 0 l1 =? 0) eqn:E0.
  { destruct l1 as [|c l1]; [|cbn in E0; zb; pose proof (char_lookup p1 c l1 El); lia]. cbn [sign]. rewrite drop_nil. cbn [prefix]. by rewrite drop_nil. }
  clear E0. rewrite (sign_ok p1 l1 El). cbn [mbind option_bind].
  pose proof (sign_cases l1) as Hs. destruct (sign l1) as [negative k1]. cbn [fst snd] in *.
  set (p2 := p1 ++ take k1 l1). set (l2 := drop k1 l1). assert (l = p2 ++ l2) as E2 by (unfold p2, l2; by rewrite <- app_assoc, take_drop).
  assert (len p1 + Z.of_nat k1 = len p2) as ->. { unfold p2. rewrite length_app, length_take. destruct Hs as [->|(c & q & -> & -> & _)]; cbn [length]; lia. }
  assert (∀ p' x, p2 = p' ++ [x] → ISALPHA (wraps 8 x) = false) as Hlast.
  { intros p' x Ex. unfold p2 in Ex. destruct Hs as [->|(c & q & -> & -> & Hc)].
    - rewrite take_0, app_nil_r in Ex. rewrite Ex in Hp. apply Forall_app in Hp as [_ Hp]. apply Forall_inv in Hp. by apply space_letter.
    - cbn [take] in Ex. by apply app_inj_2 in Ex as [_ [= <-]]. }
  clearbody p2 l2. clear Hs Hp El. rewrite (prefix_ok bin_cst base p2 l2 E2). cbn [mbind option_bind].
  pose proof (prefix_cases bin_cst base l2) as Hk. pose proof (prefix_base bin_cst base l2 Hb Hb1) as Hb2. pose proof (prefix_length bin_cst base l2) as Hk2.
  destruct (prefix bin_cst base l2) as [b k2]. cbn [fst snd] in *. destruct (cutoff_ok b Hb2) as [-> ->]. cbn [mbind option_bind].
  set (p3 := p2 ++ take k2 l2). set (l3 := drop k2 l2). assert (l = p3 ++ l3) as E3 by (unfold p3, l3; by rewrite <- app_assoc, take_drop).
  assert (len p2 + Z.of_nat k2 = len p3) as Ep by (unfold p3; rewrite length_app, length_take; lia). rewrite Ep.
  destruct (digits_ok b l3 Hb2 p3 fuel 0 0 false E3) as (i & overflow & -> & Hr); [rewrite E3, length_app in Hf; lia|done|]. cbn [mbind option_bind].
  assert (len l - len l3 = len p3) as -> by (rewrite E3, length_app; lia).
  destruct (front (is_digit b) l3) as [|d ds] eqn:Ed.
  - rewrite Z.add_0_r, Z.eqb_refl. destruct Hk as [->|(c & q & -> & -> & Hc)].
    + rewrite bool_decide_eq_false_2 by done. rewrite Z.add_0_r in Ep. rewrite <- Ep. by apply (noconv_plain bin_cst p2 l2).
    + rewrite bool_decide_eq_true_2 by done. rewrite <- Ep. change (Z.of_nat 2) with 2. by apply (noconv_prefix bin_cst p2 c q).
  - rewrite (proj2 (Z.eqb_neq _ _)) by (cbn [length]; lia). f_equal. by apply finish_ok.
Qed.
End string.

(** ** Numbers as text *)

Definition digit_char (d : Z) : Z := if d <? 10 then 48 + d else 87 + d.

(** The digits of [n], without leading zeros, if it has [fuel] bits or fewer. *)
Fixpoint shown (fuel : nat) (base n : Z) : list Z :=
  match fuel with
  | O => []
  | S fuel => if n <? base then [digit_char n] else shown fuel base (n / base) ++ [digit_char (n mod base)]
  end.

Lemma digit_char_ok d : 0 <= d < 36 → digit (digit_char d) = d ∧ 48 <= digit_char d < 128 ∧ ISALPHA (digit_char d) = (10 <=? d).
Proof.
  intros Hd. unfold digit_char, digit, ISALPHA, TOUPPER. destruct (d <? 10) eqn:E; zb.
  - rewrite (proj2 (Z.leb_le 48 _)), (proj2 (Z.leb_le _ 57)), (proj2 (Z.leb_gt 65 _)), (proj2 (Z.leb_gt 97 _)), (proj2 (Z.leb_gt 10 d)) by lia. cbn [andb orb]. split; [lia|split; [lia|done]].
  - rewrite (proj2 (Z.leb_gt _ 57)), andb_false_r, (proj2 (Z.leb_le 97 _)), (proj2 (Z.leb_le (87 + d) 122)), (proj2 (Z.leb_le 10 d)), orb_true_r by lia. cbn [andb]. split; [lia|split; [lia|done]].
Qed.

Lemma number_app base n l k : number base n (l ++ k) = number base (number base n l) k.
Proof. unfold number. apply foldl_app. Qed.

Lemma shown_ok base : 2 <= base <= 36 → ∀ fuel n, 0 <= n < 2 ^ Z.of_nat fuel → (0 < fuel)%nat →
  number base 0 (shown fuel base n) = n ∧ Forall (λ c, 48 <= c < 128 ∧ is_digit base c = true) (shown fuel base n) ∧ shown fuel base n ≠ [].
Proof.
  intros Hb. induction fuel as [|fuel IH]; intros n Hn Hf; [lia|]. cbn [shown].
  assert (∀ d, 0 <= d < base → digit (digit_char d) = d ∧ 48 <= digit_char d < 128 ∧ is_digit base (digit_char d) = true) as Hd.
  { intros d Hd. destruct (digit_char_ok d) as (H1 & H2 & _); [lia|]. split; [done|]. split; [done|]. unfold is_digit. apply Z.ltb_lt. lia. }
  destruct (n <? base) eqn:E; zb.
  - destruct (Hd n) as (H1 & H2 & H3); [lia|]. unfold number. cbn [foldl]. split; [lia|]. split; [by apply Forall_singleton|done].
  - rewrite Nat2Z.inj_succ, Z.pow_succ_r in Hn by lia. assert (0 < n / base < 2 ^ Z.of_nat fuel) as Hq by (split; [apply Z.div_str_pos; lia|apply Z.div_lt_upper_bound; nia]).
    destruct fuel as [|fuel]; [cbn in Hq; lia|]. destruct (IH (n / base)) as (H1 & H2 & _); [lia|lia|]. pose proof (Z.mod_pos_bound n base ltac:(lia)) as Hm.
    destruct (Hd (n mod base) Hm) as (H4 & H5 & H6). rewrite number_app, H1. unfold number. cbn [foldl]. rewrite H4. split; [pose proof (Z.div_mod n base); lia|].
    split; [apply Forall_app; split; [done|by apply Forall_singleton]|]. intros E0. by apply app_eq_nil in E0 as [_ ?].
Qed.

Lemma front_full P l k : Forall (λ c, P c = true) l → front P (l ++ k) = l ++ front P k ∧ back P (l ++ k) = back P k.
Proof. induction 1 as [|c l Hc Hl IH]; [done|]. cbn. rewrite Hc. destruct IH as [-> ->]. done. Qed.

(** The laws of [isspace] that are used: no digit, letter or sign is a space. *)
Definition space_laws (isspace : Z → bool) : Prop := isspace 0 = false ∧ ∀ c, isspace c = true → digit c = 36 ∧ c ≠ 43 ∧ c ≠ 45.

Lemma digit_none c : digit c = 36 → ISALPHA c = false.
Proof.
  unfold digit. destruct ((48 <=? c) && (c <=? 57)) eqn:E; [apply andb_true_iff in E as [E1 E2]; zb; lia|]. unfold ISALPHA, TOUPPER.
  destruct ((65 <=? c) && (c <=? 90)) eqn:E2; [|destruct ((97 <=? c) && (c <=? 122)) eqn:E3]; cbn [orb]; [| |done];
    [apply andb_true_iff in E2 as [E2 E3]|apply andb_true_iff in E3 as [E3 E4]]; zb; [rewrite (proj2 (Z.leb_gt 97 c)) by lia; cbn [andb]|]; lia.
Qed.

Lemma ascii_space_laws : space_laws (λ c, (c =? 32) || ((9 <=? c) && (c <=? 13))).
Proof.
  split; [done|]. intros c H. apply orb_true_iff in H as [H|H]; zb; [by subst c|]. split; [|lia].
  unfold digit, ISALPHA. by rewrite (proj2 (Z.leb_gt 48 c)), (proj2 (Z.leb_gt 65 c)), (proj2 (Z.leb_gt 97 c)) by lia.
Qed.

(** The digits of a number have no prefix. *)
Lemma shown_prefix base ds : 2 <= base → Forall (λ c, 48 <= c < 128 ∧ is_digit base c = true) ds → prefix false base ds = (base, 0%nat).
Proof.
  intros Hb Hds. assert (∀ x : Z, (if base =? 0 then x else base, 0%nat) = (base, 0%nat)) as H0 by (intros; by rewrite (proj2 (Z.eqb_neq base 0)) by lia).
  destruct Hds as [|c ds _ Hds]; [apply H0|]. destruct (decide (c = 48)) as [->|Hc].
  - cbn [prefix andb]. rewrite (proj2 (Z.eqb_neq base 0)) by lia. cbn [orb]. destruct (base =? 16) eqn:E16; [zb; subst base; cbn [andb]|done].
    destruct Hds as [|c ds [_ Hc] _]; [done|]. cbn [List.hd]. destruct (TOUPPER c =? 88) eqn:E; [|done]. zb. exfalso. unfold is_digit in Hc. zb. revert Hc. unfold digit.
    rewrite (toupper_alpha c 88) by auto. rewrite E. destruct (_ && _) eqn:E'; [|done]. apply andb_true_iff in E' as [E1 E2]; zb. revert E. unfold TOUPPER. rewrite (proj2 (Z.leb_gt 97 c)) by lia. cbn [andb]. lia.
  - assert (prefix false base (c :: ds) = (if base =? 0 then 10 else base, 0%nat)) as ->; [|apply H0].
    cbn [prefix]. destruct c as [|c|c]; try done. do 7 (destruct c as [c|c|]; try done).
Qed.

(** ** Properties *)

(** C32. [strtol], [strtoul] and their C23 variants end, read nothing behind the terminating
    NUL, and compute what arithmetic without bounds computes: the number of the longest
    sequence of digits behind spaces, sign and prefix, or the nearest bound of the type with
    [ERANGE]; the end of what was converted (the [x] of a lone prefix, or the start if there is
    no number); and [EINVAL] for a bad base. *)
Theorem strtol_computes isspace UNSIGNED l r fuel base bin_cst : space_laws isspace → chars l → (length l < fuel)%nat →
  strtol_l_internal isspace UNSIGNED (l ++ 0 :: r) fuel base bin_cst = Some (strtol_ref isspace UNSIGNED bin_cst base l).
Proof. intros [H0 Hs] Hl Hf. apply strtol_ok; [done| |done|done]. intros c Hc. by apply digit_none, Hs. Qed.

Lemma strtol_computes_witness : let isspace := λ c, (c =? 32) || ((9 <=? c) && (c <=? 13)) in
  strtol_ref isspace false false 0 (str " -0x1fg") = Result (-31) (Some 6) None ∧
  strtol_l_internal isspace false (str " -0x1fg" ++ 0 :: [7]) 8 0 false = Some (strtol_ref isspace false false 0 (str " -0x1fg")).
Proof.
  cbv zeta. split; [by vm_compute|]. apply strtol_computes; [apply ascii_space_laws| |cbn; lia]. unfold chars. apply (bool_decide_unpack _). by vm_compute.
Defined.

(** C33. [strtol] reads back every number of type [long] from its digits in any base, behind
    any spaces, up to the end of the string. *)
Theorem strtol_reads_back isspace ws base n r fuel : space_laws isspace → chars ws → Forall (λ c, isspace (wraps 8 c) = true) ws → 2 <= base <= 36 → LONG_MIN <= n <= LONG_MAX →
  let text := ws ++ (if n <? 0 then [45] else []) ++ shown 64 base (Z.abs n) in
  (length text < fuel)%nat → strtol isspace fuel (text ++ 0 :: r) base = Some (Result n (Some (len text)) None).
Proof.
  intros Hsp Hws Hws' Hb Hn text Hf. change LONG_MIN with (- 2 ^ 63) in Hn. change LONG_MAX with (2 ^ 63 - 1) in Hn.
  destruct (shown_ok base Hb 64 (Z.abs n)) as (Hnum & Hds & Hne); [change (2 ^ Z.of_nat 64) with (2 ^ 64); lia|lia|]. unfold text in *. clear text. set (ds := shown 64 base (Z.abs n)) in *. clearbody ds.
  assert (chars (ws ++ (if n <? 0 then [45] else []) ++ ds)) as Hc.
  { apply Forall_app. split; [done|]. apply Forall_app. split; [destruct (n <? 0); [by apply Forall_singleton|constructor]|]. eapply Forall_impl; [exact Hds|]. intros c [Hc _]. cbn. lia. }
  destruct Hsp as [H0 Hsp]. unfold strtol. rewrite strtol_ok; [|done|intros c Hc'; by apply digit_none, Hsp|done|done]. f_equal. unfold strtol_ref.
  assert ((base <? 0) || (base =? 1) || (36 <? base) = false) as -> by (rewrite !orb_false_iff; repeat split; [apply Z.ltb_ge; lia|apply Z.eqb_neq; lia|apply Z.ltb_ge; lia]).
  set (P := λ c, isspace (wraps 8 c)). assert (∃ d ds', ds = d :: ds' ∧ 48 <= d < 128 ∧ P d = false) as (d & ds' & Ed & Hd & HPd).
  { destruct Hds as [|d ds' [Hd Hd'] _]; [done|]. exists d, ds'. split; [done|]. split; [done|]. unfold P. rewrite wraps_small by lia.
    destruct (isspace d) eqn:E; [|done]. destruct (Hsp d E) as (E36 & _). unfold is_digit in Hd'. zb. lia. }
  destruct (front_full P ws ((if n <? 0 then [45] else []) ++ ds) Hws') as [_ ->].
  assert (back P ((if n <? 0 then [45] else []) ++ ds) = (if n <? 0 then [45] else []) ++ ds) as ->.
  { destruct (n <? 0); cbn [app back]; [|by rewrite Ed; cbn [back]; rewrite HPd]. unfold P. rewrite wraps_small by lia. destruct (isspace 45) eqn:E; [|done]. by destruct (Hsp 45 E) as (_ & _ & ?). }
  assert (sign ((if n <? 0 then [45] else []) ++ ds) = (n <? 0, if n <? 0 then 1%nat else 0%nat)) as ->.
  { destruct (n <? 0); [done|]. rewrite Ed. cbn [app sign]. by rewrite !(proj2 (Z.eqb_neq _ _)) by lia. }
  assert (drop (if n <? 0 then 1%nat else 0%nat) ((if n <? 0 then [45] else []) ++ ds) = ds) as -> by (by destruct (n <? 0)).
  rewrite shown_prefix by (done || lia). rewrite drop_0. assert (front (is_digit base) ds = ds) as ->.
  { pose proof (front_full (is_digit base) ds []) as H. rewrite !app_nil_r in H. destruct H as [-> _]; [|done]. eapply Forall_impl; [exact Hds|]. by intros c [_ ?]. }
  rewrite Hnum, Ed. cbv iota. rewrite <- Ed. rewrite Z.sub_add. unfold converted. change LONG_MIN with (- 2 ^ 63). change LONG_MAX with (2 ^ 63 - 1).
  assert ((if n <? 0 then - Z.abs n else Z.abs n) = n) as -> by (destruct (n <? 0) eqn:E; zb; lia). by rewrite !(proj2 (Z.ltb_ge _ _)) by lia.
Qed.

Lemma strtol_reads_back_witness : let isspace := λ c, (c =? 32) || ((9 <=? c) && (c <=? 13)) in
  let text := str " " ++ str "-" ++ shown 64 36 (2 ^ 63) in
  strtol isspace 20 (text ++ 0 :: []) 36 = Some (Result (- 2 ^ 63) (Some (len text)) None).
Proof.
  cbv zeta. apply (strtol_reads_back _ (str " ") 36 (- 2 ^ 63) [] 20); [apply ascii_space_laws|unfold chars; apply (bool_decide_unpack _); by vm_compute| |lia|by vm_compute|apply Nat.ltb_lt; by vm_compute].
  by apply Forall_singleton.
Defined.
